(* ===== verification/_CoqProject ===== *)
-Q . S2P
Prelude.v
Port.v
SslEncode.v
SslHandshakeOut.v
DtlsWindow.v
Bloom.v
AntiReplay.v
MpiBase.v
MpiMul.v
MpiDiv.v
MpiArith.v
MpiMont.v
Base64Enc.v
Base64Dec.v
HandshakeIn.v
DtlsReassembly.v
DtlsAck.v
DtlsFlight.v
ConstTime.v
KeyWrap.v
Hmac.v
RsaPad.v
RsaOaep.v
RsaPss.v
CbcRecord.v
AeadOp.v
Record12.v
RecordAead.v
Record13.v
RwLock.v
Utf8.v
