(* ===== verification/Prelude.v ===== *)
(** * A verification library for parts of NSS

    NSS is Mozilla's implementation of TLS, DTLS and the cryptography and PKI
    under them.  This library models some of its C code as Rocq functions and
    proves what makes that code correct.  The models are executable: each
    component ends with evaluations on concrete inputs.

    ** The parts and their files

    - Prelude.v: this file.  Outcomes of C functions, machine integers, memory
      blocks, big-endian numbers, bit maps, hint databases.
    - Port.v (lib/util/secport.c): PORT_Alloc, PORT_ZAlloc and PORT_Realloc over
      NSPR's allocator, which is the class [NSPRHeap].
    - SslEncode.v (lib/ssl/sslencode.c, first half): sslBuffer and sslReader.
      A buffer is its block, length, room and whether it may grow.
    - SslHandshakeOut.v (lib/ssl/sslencode.c, second half): how handshake
      messages are appended to the send buffer, flushed and hashed.
    - DtlsWindow.v (lib/ssl/dtlscon.c, ssl3con.c): sequence numbers of DTLS
      records and the window against replays.
    - HandshakeIn.v (lib/ssl/ssl3con.c) and DtlsReassembly.v (lib/ssl/dtlscon.c):
      putting handshake messages together from TLS records and from DTLS
      fragments.  The message handlers above are the class [HandshakeUpper].
    - DtlsAck.v (lib/ssl/dtls13con.c): remembered fragments and ACK messages.
    - DtlsFlight.v (lib/ssl/dtlscon.c, dtls13con.c): queueing, fragmenting,
      sending and resending flights; timers; the MTU.  The record layer below
      is the class [DtlsOut].
    - Bloom.v (lib/ssl/sslbloom.c) and AntiReplay.v (lib/ssl/tls13replay.c): the
      Bloom filters that keep 0-RTT data from being accepted twice.  The hash
      is the class of AntiReplay.v.
    - MpiBase.v, MpiMul.v, MpiDiv.v, MpiArith.v (lib/freebl/mpi/mpi.c) and
      MpiMont.v (mpmontg.c): multiple-precision integers: digit vectors,
      products and squares, long division, signed and modular arithmetic with
      Barrett reduction, Montgomery arithmetic in constant time.
    - Base64Enc.v (lib/util/nssb64e.c) and Base64Dec.v (lib/util/nssb64d.c):
      streaming and one-shot base64.
    - ConstTime.v (lib/util/secport.h): masks instead of branches.
    - KeyWrap.v (lib/freebl/aeskeywrap.c): AES key wrap with and without padding,
      over the class [AESBlock].
    - Hmac.v (lib/freebl/alghmac.c): HMAC over the class [SECHashObject].
    - RsaPad.v, RsaOaep.v, RsaPss.v (lib/freebl/rsapkcs.c): the paddings of
      RSA, with the raw operations as [RSAOps], random octets as [RNG].
    - CbcRecord.v (lib/ssl/ssl3con.c): CBC padding and the MAC behind it, without
      branches.
    - AeadOp.v (lib/freebl/gcm.c, lib/pk11wrap/pk11cxt.c): IV generation and
      PK11_AEADOp with its simulation over single-shot operations, which are
      the class [Token], with what is relied on in [TokenLaws].
    - Record12.v, RecordAead.v (lib/ssl/ssl3con.c): records up to TLS 1.2.  The
      PKCS #11 contexts are the class [RecordCrypto]; [CipherLaws], [MacLaws]
      and [AeadLaws] say what is relied on, and AeadOp.v implements [AeadLaws].
    - Record13.v (lib/ssl/tls13con.c, ssl3con.c, dtls13con.c, sslprimitive.c):
      record headers, TLS 1.3 records, masked sequence numbers ([MaskToken]).
    - RwLock.v (lib/util/nssrwlk.c): the reader-writer lock, with its threads as
      a step relation.
    - Utf8.v (lib/util/utf8.c): UTF-8 from and to UCS-4, UTF-16 and Latin-1.

    ** How code becomes definitions

    A C function that can fail is a function into [res]: [Ok] with what it
    returns and changes, [Err] with the error it sets, or [UB] if it touched
    memory outside a block.  A struct is a [Record], state is passed
    explicitly, an allocated block is the list of its octets.  Unsigned
    arithmetic is taken modulo 2^w with [wrap] wherever the code computes at
    width w.  A loop that is not structural runs on fuel; running out of fuel
    is [UB] (or [None]), and the theorems prove that this never happens, so
    the fuel, which is the length of what the loop consumes plus one, is
    enough.  Assertions (PORT_Assert) and tracing are left out, and, but for
    RwLock.v, which is about one, locks.

    What a component asks of code outside the library is a class of operations
    with the laws it relies on; every such class has an instance, with which
    the witnesses evaluate the models.

    ** What is shown

    - Buffers and readers keep their invariant, append exactly the encoding of
      a number or vector, report every overflow, and reading inverts writing.
    - Appended handshake data leaves in order and enters the transcript once,
      however often the buffer spills.
    - The DTLS window of 1024 bits behaves as the set of numbers received; no
      record is delivered twice; truncated sequence numbers are recovered.
    - TLS handshake messages do not depend on how the stream is cut into
      records; DTLS messages come out exactly when their fragments cover them,
      intact; arbitrary input never leaves the buffers; sender and receiver
      compose; ACKs mark exactly what they report; retransmission terminates,
      covers what is not acknowledged and backs off.
    - 0-RTT data accepted once is never accepted again, nor within a window
      after a restart.
    - The integers of mpi.c compute exact sums, products, quotients, residues
      and powers, in normal form; the squaring and constant-time routines agree
      with the plain ones.
    - Base64 is the reference encoding and decoding in any chunks, and the two
      round trip, inside the buffers they size.
    - Key wrap is the index-based algorithm of its RFC; the constant-time checks
      of padded key wrap decide exactly what the RFC accepts.
    - HMAC is its definition, for any cut of the message.
    - The RSA paddings accept exactly well-formed blocks, with the branch-free
      checks; PKCS #1 decryption answers with a synthetic message otherwise.
    - Branch-free removal of CBC padding and extraction of the MAC take a
      plaintext apart at the right places, whatever it holds.
    - IVs from one context never repeat for whole-octet fixed parts (and do
      repeat for others); PK11_AEADOp inverts itself.
    - Records of all versions are accepted exactly if they open to a content
      (with its MAC and padding, or its type and zeros) and come out again at
      the peer, one after the other; in DTLS 1.3 from the masked header.
    - A thread with the write lock is alone, in every interleaving, and a free
      lock is never left to sleepers.
    - Exactly well-formed texts are converted from and to UTF-8, within the
      block, but for one length of input whose count overflows.

    ** What is not modelled

    The handshake's state machine and message handlers, sockets and cipher spec
    lists, certificates and PKI, the rest of PKCS #11 (softoken, pk11wrap) and
    its databases, the block ciphers and hashes themselves, S/MIME, PKCS #7 and
    #12, and the tools and tests.  Vendored code (SQLite, zlib, dbm) and
    generated code (HACL*, libcrux, fiat-crypto output) is left to its own
    projects; assembly is not C.

    ** Plan

    Next: how ssl3_HandleRecord puts the record layer together, the block modes
    (ctr.c, cts.c, cmac.c), octet conversion and greatest common divisors of
    mpi.c, windowed exponentiation (mpmontg.c), and DER lengths and times. *)

From stdpp Require Import base numbers list list_numbers tactics.
From Stdlib Require Import Lia ZArith.

#[global] Open Scope Z_scope.
Coercion Z.of_nat : nat >-> Z.

(** ** Outcomes

    A C function that can fail returns [Ok] with its results, [Err] with the
    error code it set, or [UB] when it would touch memory outside a block.
    The theorems that rule [UB] out are the memory-safety theorems. *)

Inductive res (E A : Type) : Type :=
| Ok (a : A)
| Err (e : E)
| UB.
Arguments Ok {E A} a.
Arguments Err {E A} e.
Arguments UB {E A}.

#[export] Instance res_ret {E} : MRet (res E) := fun A a => Ok a.
#[export] Instance res_bind {E} : MBind (res E) := fun A B f m =>
  match m with Ok a => f a | Err e => Err e | UB => UB end.

#[export] Instance res_eq_dec {E A} `{EqDecision E, EqDecision A} : EqDecision (res E A).
Proof. solve_decision. Defined.

(** Error codes of lib/util/secerr.h that the modelled functions set. *)
Inductive SECErrorCode :=
| SEC_ERROR_LIBRARY_FAILURE
| SEC_ERROR_BAD_DATA
| SEC_ERROR_OUTPUT_LEN
| SEC_ERROR_INPUT_LEN
| SEC_ERROR_INVALID_ARGS
| SEC_ERROR_NO_MEMORY
| SEC_ERROR_BAD_SIGNATURE
| SEC_ERROR_INVALID_ALGORITHM
| SEC_ERROR_INVALID_KEY
| SEC_ERROR_EXTRA_INPUT.

#[export] Instance SECErrorCode_eq_dec : EqDecision SECErrorCode.
Proof. solve_decision. Defined.

Abbreviation sec_res := (res SECErrorCode).

(** A computation that can only go wrong by touching memory out of bounds. *)
Abbreviation mem_res := (res Empty_set).

Definition lift {E A} (m : mem_res A) : res E A :=
  match m with Ok a => Ok a | Err e => match e with end | UB => UB end.

Lemma bind_Ok {E A B} (m : res E A) (f : A → res E B) (b : B) :
  m ≫= f = Ok b ↔ ∃ a, m = Ok a ∧ f a = Ok b.
Proof. destruct m; simpl; naive_solver. Qed.

Lemma bind_UB {E A B} (m : res E A) (f : A → res E B) :
  m ≫= f = UB ↔ m = UB ∨ ∃ a, m = Ok a ∧ f a = UB.
Proof. destruct m; simpl; naive_solver. Qed.

Lemma Ok_inj {E A} (a b : A) : Ok (E:=E) a = Ok b → a = b.
Proof. by intros [=]. Qed.

(** ** Machine integers *)

Definition wrap (w z : Z) : Z := z mod 2 ^ w.
Abbreviation u8 := (wrap 8).
Abbreviation u16 := (wrap 16).
Abbreviation u32 := (wrap 32).
Abbreviation u64 := (wrap 64).

(** Conversion to a signed [w]-bit integer (two's complement). *)
Definition swrap (w z : Z) : Z := (z + 2 ^ (w - 1)) mod 2 ^ w - 2 ^ (w - 1).

Lemma wrap_small w z : 0 ≤ z < 2 ^ w → wrap w z = z.
Proof. intros H. by apply Z.mod_small. Qed.

Lemma wrap_range w z : 0 ≤ w → 0 ≤ wrap w z < 2 ^ w.
Proof. intros H. apply Z.mod_pos_bound. lia. Qed.

Lemma wrap_wrap w z : 0 ≤ w → wrap w (wrap w z) = wrap w z.
Proof. intros H. apply wrap_small, wrap_range, H. Qed.

Lemma swrap_small w z : 0 < w → - 2 ^ (w - 1) ≤ z < 2 ^ (w - 1) → swrap w z = z.
Proof.
  intros Hw H. unfold swrap. rewrite Z.mod_small; [lia|].
  replace w with (w - 1 + 1) at 3 by lia. rewrite Z.pow_add_r by lia. lia.
Qed.

(** [x & (2^n - 1)] is a remainder and [x >> n] a quotient. *)
Lemma land_ones_mod x n : 0 ≤ n → Z.land x (2 ^ n - 1) = x mod 2 ^ n.
Proof. intros H. rewrite Z.sub_1_r, <- Z.ones_equiv. by apply Z.land_ones. Qed.

Lemma testbit_high x n i : 0 ≤ x < 2 ^ n → n ≤ i → Z.testbit x i = false.
Proof.
  intros Hx Hi. destruct (decide (n < 0)) as [Hn|Hn].
  - rewrite (Z.pow_neg_r 2 n) in Hx by lia. lia.
  - rewrite <- (Z.mod_small x (2 ^ n)) by lia. apply Z.mod_pow2_bits_high. lia.
Qed.

Lemma lor_range x y n : 0 ≤ n → 0 ≤ x < 2 ^ n → 0 ≤ y < 2 ^ n → 0 ≤ Z.lor x y < 2 ^ n.
Proof.
  intros Hn Hx Hy.
  assert (Hxy : Z.lor x y = Z.lor x y mod 2 ^ n).
  { apply Z.bits_inj'. intros i Hi. destruct (decide (i < n)) as [Hl|Hl].
    - by rewrite Z.mod_pow2_bits_low by lia.
    - rewrite Z.mod_pow2_bits_high by lia.
      rewrite Z.lor_spec, !(testbit_high _ n) by lia. done. }
  rewrite Hxy. apply Z.mod_pos_bound. lia.
Qed.

Lemma lxor_range x y n : 0 ≤ n → 0 ≤ x < 2 ^ n → 0 ≤ y < 2 ^ n → 0 ≤ Z.lxor x y < 2 ^ n.
Proof.
  intros Hn Hx Hy.
  assert (Hxy : Z.lxor x y = Z.lxor x y mod 2 ^ n).
  { apply Z.bits_inj'. intros i Hi. destruct (decide (i < n)) as [Hl|Hl].
    - by rewrite Z.mod_pow2_bits_low by lia.
    - rewrite Z.mod_pow2_bits_high by lia.
      rewrite Z.lxor_spec, !(testbit_high _ n) by lia. done. }
  rewrite Hxy. apply Z.mod_pos_bound. lia.
Qed.

(** Disjoint bit fields: [lor] is addition. *)
Lemma lor_shift_add x y n : 0 ≤ n → 0 ≤ y < 2 ^ n → Z.lor (Z.shiftl x n) y = x * 2 ^ n + y.
Proof.
  intros Hn Hy. rewrite <- Z.shiftl_mul_pow2 by done.
  symmetry. apply Z.add_nocarry_lor.
  apply Z.bits_inj'. intros i Hi. rewrite Z.land_spec, Z.bits_0, Z.shiftl_spec by done.
  destruct (decide (i < n)); [by rewrite Z.testbit_neg_r by lia|].
  rewrite (testbit_high y n) by lia. apply andb_false_r.
Qed.

(** Testing one bit with a mask. *)
Lemma land_bit_zero x k : 0 ≤ k → (Z.land x (Z.shiftl 1 k) =? 0) = negb (Z.testbit x k).
Proof.
  intros Hk. rewrite Z.shiftl_1_l. destruct (Z.testbit x k) eqn:Hb; simpl.
  - apply Z.eqb_neq. intros H0. apply (f_equal (fun y => Z.testbit y k)) in H0.
    rewrite Z.land_spec, Hb, Z.pow2_bits_true, Z.bits_0 in H0 by done. done.
  - apply Z.eqb_eq, Z.bits_inj'. intros i Hi. rewrite Z.land_spec, Z.bits_0.
    destruct (decide (i = k)) as [->|Hne]; [by rewrite Hb|].
    rewrite Z.pow2_bits_false by lia. apply andb_false_r.
Qed.

(** ** Bytes and memory blocks *)

Definition is_byte (b : Z) : Prop := 0 ≤ b < 256.
Abbreviation bytes := (Forall is_byte).

(** Reading [n] bytes at [off]; writing [src] at [off] (memcpy, memset). *)
Definition mem_read {E} (m : list Z) (off n : nat) : res E (list Z) :=
  if decide (off + n ≤ length m)%nat then Ok (take n (drop off m)) else UB.

Definition mem_write {E} (m : list Z) (off : nat) (src : list Z) : res E (list Z) :=
  if decide (off + length src ≤ length m)%nat
  then Ok (take off m ++ src ++ drop (off + length src) m) else UB.

Lemma mem_write_Ok {E} m off src m' :
  mem_write (E:=E) m off src = Ok m' ↔
  (off + length src ≤ length m)%nat ∧ m' = take off m ++ src ++ drop (off + length src) m.
Proof. unfold mem_write. case_decide; naive_solver. Qed.

Lemma mem_write_length {E} m off src m' :
  mem_write (E:=E) m off src = Ok m' → length m' = length m.
Proof.
  intros [H ->]%mem_write_Ok. rewrite !length_app, length_take, length_drop. lia.
Qed.

(** Appending at the end of the first [off] bytes in use. *)
Lemma mem_write_take {E} m off src m' :
  mem_write (E:=E) m off src = Ok m' →
  take (off + length src) m' = take off m ++ src.
Proof.
  intros [H ->]%mem_write_Ok. rewrite app_assoc, take_app_length'; [done|].
  rewrite length_app, length_take. lia.
Qed.

Lemma mem_write_same {E} m off src :
  (off + length src ≤ length m)%nat →
  mem_write (E:=E) m off src = Ok (take off m ++ src ++ drop (off + length src) m).
Proof. intros H. by apply mem_write_Ok. Qed.

Lemma mem_read_all {E} (m : list Z) : mem_read (E:=E) m 0 (Z.to_nat (length m)) = Ok m.
Proof. unfold mem_read. rewrite Nat2Z.id, decide_True by lia. by rewrite drop_0, firstn_all. Qed.

Lemma mem_write_front {E} (m src : list Z) : (length src ≤ length m)%nat →
  mem_write (E:=E) m 0 src = Ok (src ++ drop (length src) m).
Proof. intros Hl. unfold mem_write. by rewrite decide_True by lia. Qed.

Lemma mem_read_in {E} (m : list Z) off n : (off + n ≤ length m)%nat → mem_read (E:=E) m off n = Ok (take n (drop off m)).
Proof. intros Hl. unfold mem_read. by rewrite decide_True. Qed.

(** Overwriting the start of the part after [a]. *)
Lemma mem_write_mid {E} (a b src : list Z) off : length a = off → (length src ≤ length b)%nat →
  mem_write (E:=E) (a ++ b) off src = Ok (a ++ src ++ drop (length src) b).
Proof.
  intros <- Hl. rewrite mem_write_same by (rewrite length_app; lia).
  by rewrite take_app_length, <- drop_drop, drop_app_length.
Qed.

(** Exclusive or, octet by octet. *)
Abbreviation xor_octets := (zip_with Z.lxor).

Lemma xor_bytes a b : bytes a → bytes b → bytes (xor_octets a b).
Proof.
  intros Ha. revert b. induction Ha as [|x a Hx Ha IH]; intros [|y b] Hb; try apply Forall_nil_2. cbn [zip_with].
  apply Forall_cons_1 in Hb as [Hy Hb]. apply Forall_cons_2; [|by apply IH].
  unfold is_byte in *. apply (lxor_range x y 8); lia.
Qed.

Lemma xor_cancel a b : length a = length b → xor_octets (xor_octets a b) b = a.
Proof.
  revert b. induction a as [|x a IH]; intros [|y b] Hl; try done. cbn [zip_with]. injection Hl as Hl.
  rewrite IH by done. by rewrite Z.lxor_assoc, Z.lxor_nilpotent, Z.lxor_0_r.
Qed.

Lemma xor_comm a b : xor_octets a b = xor_octets b a.
Proof. revert b. induction a as [|x a IH]; intros [|y b]; [done..|]. cbn [zip_with]. by rewrite Z.lxor_comm, IH. Qed.

Lemma length_xor a b : length a = length b → length (xor_octets a b) = length a.
Proof. intros Hl. rewrite length_zip_with. lia. Qed.

(** ** Big-endian numbers *)

Fixpoint be_bytes (n : nat) (v : Z) : list Z :=
  match n with
  | O => []
  | S n => be_bytes n (v / 256) ++ [v mod 256]
  end.

Definition be_val (l : list Z) : Z := fold_left (fun acc b => acc * 256 + b) l 0.

Lemma be_val_app l1 l2 : be_val (l1 ++ l2) = be_val l1 * 256 ^ length l2 + be_val l2.
Proof.
  unfold be_val. rewrite fold_left_app. generalize (fold_left (fun acc b => acc * 256 + b) l1 0).
  induction l2 as [|b l2 IH] using rev_ind; intros a; simpl.
  - lia.
  - rewrite !fold_left_app, IH, length_app. simpl.
    rewrite Nat2Z.inj_add, Z.pow_add_r by lia. change (256 ^ 1%nat) with 256. lia.
Qed.

Lemma be_val_cons x l : be_val (x :: l) = x * 256 ^ length l + be_val l.
Proof. change (x :: l) with ([x] ++ l). rewrite be_val_app. unfold be_val at 1. cbn [fold_left]. lia. Qed.

Lemma be_val_snoc l b : be_val (l ++ [b]) = be_val l * 256 + b.
Proof. unfold be_val. by rewrite fold_left_app. Qed.

Lemma be_val_range l : bytes l → 0 ≤ be_val l < 256 ^ length l.
Proof.
  induction l as [|b l IH] using rev_ind; intros H; [done|].
  apply Forall_app in H as [Hl Hb]. rewrite Forall_singleton in Hb. specialize (IH Hl).
  rewrite be_val_snoc, length_app. unfold is_byte in Hb. simpl length.
  rewrite Nat2Z.inj_add, Z.pow_add_r by lia. change (256 ^ 1%nat) with 256. lia.
Qed.

Lemma length_be_bytes n v : length (be_bytes n v) = n.
Proof. revert v. induction n as [|n IH]; intros v; simpl; [done|]. rewrite length_app, IH. simpl. lia. Qed.

Lemma be_bytes_bytes n v : bytes (be_bytes n v).
Proof.
  revert v. induction n as [|n IH]; intros v; simpl; [constructor|].
  apply Forall_app. split; [apply IH|]. apply Forall_singleton, Z.mod_pos_bound. lia.
Qed.

Lemma be_val_be_bytes n v : be_val (be_bytes n v) = v mod 256 ^ n.
Proof.
  revert v. induction n as [|n IH]; intros v; cbn [be_bytes].
  - by rewrite Z.mod_1_r.
  - rewrite be_val_snoc, IH.
    replace (Z.of_nat (S n)) with (1 + Z.of_nat n) by lia.
    rewrite Z.pow_add_r, Z.pow_1_r, Z.rem_mul_r by lia. lia.
Qed.

Lemma be_bytes_be_val l : bytes l → be_bytes (length l) (be_val l) = l.
Proof.
  induction l as [|b l IH] using rev_ind; intros H; [done|].
  apply Forall_app in H as [Hl Hb]. rewrite Forall_singleton in Hb. unfold is_byte in Hb.
  rewrite length_app. simpl. rewrite Nat.add_1_r. cbn [be_bytes]. rewrite be_val_snoc.
  rewrite (Z.add_comm _ b), Z.div_add, Z.mod_add, Z.div_small, Z.mod_small by lia.
  by rewrite Z.add_0_l, IH.
Qed.

(** ** Automation *)

Create HintDb nss.
Create Rewrite HintDb nss_len.
#[export] Hint Resolve wrap_range be_bytes_bytes be_val_range : nss.
#[export] Hint Rewrite @length_app @length_take @length_drop @length_replicate
  @length_insert length_be_bytes @length_fmap : nss_len.

(** Case analysis on every [match]/[if]/[decide] of a model function. *)
Ltac split_matches :=
  repeat (simplify_eq/=; case_match).
Ltac len := autorewrite with nss_len in *; simpl in *; try lia.

(** Splitting a big-endian encoding. *)
Lemma be_bytes_add m n v :
  be_bytes (m + n) v = be_bytes m (v / 256 ^ n) ++ be_bytes n v.
Proof.
  revert v. induction n as [|n IH]; intros v.
  - rewrite Nat.add_0_r, Z.pow_0_r, Z.div_1_r. simpl. by rewrite app_nil_r.
  - rewrite Nat.add_succ_r. cbn [be_bytes]. rewrite IH, <- app_assoc, Z.div_div by lia.
    replace (256 * 256 ^ n) with (256 ^ S n); [done|].
    rewrite Nat2Z.inj_succ, Z.pow_succ_r by lia. lia.
Qed.

Lemma drop_be_bytes m n v : (n ≤ m)%nat → drop (m - n) (be_bytes m v) = be_bytes n v.
Proof.
  intros Hle. replace m with ((m - n) + n)%nat at 2 by lia.
  rewrite be_bytes_add, drop_app_length'; [done|]. by rewrite length_be_bytes.
Qed.

Lemma be_val_zeros n : be_val (replicate n 0) = 0.
Proof.
  induction n as [|n IH]; [done|]. rewrite replicate_S_end, be_val_snoc, IH. lia.
Qed.

Lemma zeros_be n : replicate n 0 = be_bytes n 0.
Proof.
  induction n as [|n IH]; [done|]. rewrite replicate_S_end, IH. cbn [be_bytes]. done.
Qed.

(** ** Bit maps: bit [i mod 8] of octet [i / 8] *)

Definition bit_set (m : list Z) (i : Z) : Prop :=
  Z.testbit (m !!! Z.to_nat (i / 8)) (i mod 8) = true.

Definition set_bit (m : list Z) (i : Z) : list Z :=
  <[Z.to_nat (i / 8) := Z.lor (m !!! Z.to_nat (i / 8)) (Z.shiftl 1 (i mod 8))]> m.

Lemma set_bit_set m i j :
  0 ≤ i → 0 ≤ j → (Z.to_nat (i / 8) < length m)%nat →
  bit_set (set_bit m i) j ↔ i = j ∨ bit_set m j.
Proof.
  intros Hi Hj Hl. unfold bit_set, set_bit.
  pose proof (Z.mod_pos_bound i 8 ltac:(lia)). pose proof (Z.mod_pos_bound j 8 ltac:(lia)).
  pose proof (Z.div_mod i 8 ltac:(lia)). pose proof (Z.div_mod j 8 ltac:(lia)).
  pose proof (Z.div_pos i 8 ltac:(lia) ltac:(lia)). pose proof (Z.div_pos j 8 ltac:(lia) ltac:(lia)).
  destruct (decide (Z.to_nat (i / 8) = Z.to_nat (j / 8))) as [Heq|Hne].
  - rewrite <- Heq, list_lookup_total_insert_eq by done.
    rewrite Z.lor_spec, Z.shiftl_1_l, Z.pow2_bits_eqb, orb_true_iff, Z.eqb_eq by lia.
    assert (i mod 8 = j mod 8 ↔ i = j) by lia. tauto.
  - rewrite list_lookup_total_insert_ne by done. split; [by right|]. intros [->|?]; done.
Qed.

Lemma set_bit_bytes m i : bytes m → 0 ≤ i → bytes (set_bit m i).
Proof.
  intros Hm Hi. unfold set_bit. destruct (decide (Z.to_nat (i / 8) < length m)%nat) as [Hl|Hl].
  - apply Forall_insert; [done|]. apply (lor_range _ _ 8); [lia| |].
    + destruct (lookup_lt_is_Some_2 m _ Hl) as [x Hx]. rewrite (list_lookup_total_correct _ _ _ Hx).
      by apply (Forall_lookup_1 _ _ _ _ Hm Hx).
    + rewrite Z.shiftl_1_l. pose proof (Z.mod_pos_bound i 8 ltac:(lia)).
      split; [lia|]. apply Z.pow_lt_mono_r; lia.
  - by rewrite list_insert_ge by lia.
Qed.
