(* ===== verification/Port.v ===== *)
(** lib/util/secport.c: the allocation wrappers every component goes through.

    NSPR's PR_Malloc, PR_Calloc and PR_Realloc are not part of the repository;
    they are the operations of the class [NSPRHeap], whose laws are NSPR's
    documented behaviour (a block of the requested size, zeroed by PR_Calloc,
    with the old contents kept by PR_Realloc).  A block is the list of its
    bytes; [None] is the NULL pointer. *)

From stdpp Require Import base numbers list.
From S2P Require Import Prelude.

Class NSPRHeap := {
  PR_Malloc : Z → option (list Z);
  PR_Calloc : Z → Z → option (list Z);
  PR_Realloc : list Z → Z → option (list Z);
  PR_Malloc_size n m : 0 ≤ n → PR_Malloc n = Some m → Z.of_nat (length m) = n ∧ bytes m;
  PR_Calloc_zero k n m : 0 ≤ k → 0 ≤ n →
    PR_Calloc k n = Some m → m = replicate (Z.to_nat (k * n)) 0;
  PR_Realloc_keeps old n m : 0 ≤ n → PR_Realloc old n = Some m →
    Z.of_nat (length m) = n ∧ (bytes old → bytes m) ∧
    take (Nat.min (length old) (length m)) m = take (Nat.min (length old) (length m)) old;
}.

(** [#define MAX_SIZE (PR_UINT32_MAX >> 1)] *)
Definition MAX_SIZE : Z := Z.shiftr (2 ^ 32 - 1) 1.

Lemma MAX_SIZE_val : MAX_SIZE = 2147483647.
Proof. reflexivity. Qed.

Section Port.
  Context `{NSPRHeap}.

Definition PORT_Alloc (size : Z) : sec_res (list Z) :=
  match (if size <=? MAX_SIZE then PR_Malloc (if size =? 0 then 1 else size) else None) with
  | Some rv => Ok rv
  | None => Err SEC_ERROR_NO_MEMORY
  end.

Definition PORT_Realloc (oldptr : list Z) (size : Z) : sec_res (list Z) :=
  match (if size <=? MAX_SIZE then PR_Realloc oldptr size else None) with
  | Some rv => Ok rv
  | None => Err SEC_ERROR_NO_MEMORY
  end.

Definition PORT_ZAlloc (size : Z) : sec_res (list Z) :=
  match (if size <=? MAX_SIZE then PR_Calloc 1 (if size =? 0 then 1 else size) else None) with
  | Some rv => Ok rv
  | None => Err SEC_ERROR_NO_MEMORY
  end.

Lemma PORT_Alloc_Ok n m :
  0 ≤ n → PORT_Alloc n = Ok m → length m = Z.to_nat (if n =? 0 then 1 else n) ∧ bytes m ∧ n ≤ MAX_SIZE.
Proof.
  unfold PORT_Alloc. intros Hn HA. destruct (Z.leb_spec n MAX_SIZE); [|done].
  destruct (PR_Malloc _) eqn:HM; simplify_eq.
  apply PR_Malloc_size in HM; [|case_match; lia]. split_and!; [lia|tauto|done].
Qed.

Lemma PORT_Realloc_Ok old n m :
  bytes old → 0 ≤ n → PORT_Realloc old n = Ok m →
  length m = Z.to_nat n ∧ bytes m ∧ n ≤ MAX_SIZE ∧
  (length old ≤ length m → take (length old) m = old)%nat.
Proof.
  unfold PORT_Realloc. intros Ho Hn HA. destruct (Z.leb_spec n MAX_SIZE); [|done].
  destruct (PR_Realloc _ _) eqn:HM; simplify_eq.
  apply PR_Realloc_keeps in HM as (Hl & Hb & Ht); [|done].
  split_and!; [lia|by apply Hb|done|]. intros Hle. rewrite !Nat.min_l in Ht by lia.
  rewrite Ht. apply take_ge. lia.
Qed.

Lemma PORT_ZAlloc_Ok n m :
  0 ≤ n → PORT_ZAlloc n = Ok m → m = replicate (Z.to_nat (if n =? 0 then 1 else n)) 0.
Proof.
  unfold PORT_ZAlloc. intros Hn HA. destruct (Z.leb_spec n MAX_SIZE); [|done].
  destruct (PR_Calloc _ _) eqn:HM; simplify_eq.
  apply PR_Calloc_zero in HM; [|lia|case_match; lia]. subst. by rewrite Z.mul_1_l.
Qed.

Lemma PORT_Alloc_no_UB n : PORT_Alloc n ≠ UB.
Proof. unfold PORT_Alloc. by case_match. Qed.
Lemma PORT_Realloc_no_UB m n : PORT_Realloc m n ≠ UB.
Proof. unfold PORT_Realloc. by case_match. Qed.
End Port.

(** A heap that never runs out; used to evaluate the models. *)
#[global] Instance zero_heap : NSPRHeap.
Proof.
  refine {| PR_Malloc n := Some (replicate (Z.to_nat n) 0);
            PR_Calloc k n := Some (replicate (Z.to_nat (k * n)) 0);
            PR_Realloc old n :=
              Some (take (Z.to_nat n) old ++ replicate (Z.to_nat n - length old) 0) |}.
  - intros n m Hn [= <-]. rewrite length_replicate. split; [lia|].
    apply Forall_replicate. unfold is_byte. lia.
  - intros k n m _ _ [= <-]. done.
  - intros old n m Hn [= <-].
    rewrite length_app, length_take, length_replicate. split_and!.
    + lia.
    + intros Ho. apply Forall_app. split; [by apply Forall_take|].
      apply Forall_replicate. unfold is_byte. lia.
    + rewrite take_app_le by (rewrite length_take; lia). rewrite take_take. f_equal. lia.
Defined.
