(* ===== verification/SslEncode.v ===== *)
(** lib/ssl/sslencode.c and sslencode.h: the growable output buffer every TLS
    message is assembled in, the bounded reader every TLS message is parsed
    with, and the handshake append path that spills full buffers. *)

From stdpp Require Import base numbers list.
From S2P Require Import Prelude Port.

(** ** Data *)

(** [buf] is the storage the pointer refers to ([None] for NULL). *)
Record sslBuffer := mk_sslBuffer {
  buf : option (list Z);
  len : Z;
  space : Z;
  fixed : bool;
}.

Definition SSL_BUFFER_EMPTY : sslBuffer := mk_sslBuffer None 0 0 false.
Definition SSL_BUFFER_FIXED (b : list Z) (maxlen : Z) : sslBuffer :=
  mk_sslBuffer (Some b) 0 maxlen true.

Definition storage (b : sslBuffer) : list Z := default [] (buf b).
Definition contents (b : sslBuffer) : list Z := take (Z.to_nat (len b)) (storage b).

(** A reader is a view on a received message and a position in it. *)
Record sslReadBuffer := mk_sslReadBuffer { rb_buf : list Z; rb_len : Z }.
Record sslReader := mk_sslReader { rd_buf : sslReadBuffer; offset : Z }.

Definition SSL_READER (b : list Z) (l : Z) : sslReader :=
  mk_sslReader (mk_sslReadBuffer b l) 0.

Definition SSL_READER_REMAINING (r : sslReader) : Z := u32 (rb_len (rd_buf r) - offset r).

(** [1ULL << n], undefined for a shift of 64 bits or more. *)
Definition shl64 (n : Z) : sec_res Z := if n <? 64 then Ok (2 ^ n) else UB.

Section Buffer.
  Context `{NSPRHeap}.

(** ** Output buffer operations *)

(** The last [bytes] octets of the network-order representation. *)
Definition ssl_EncodeUintX (value bytes : Z) : sec_res (list Z) :=
  if 8 <? bytes then UB else Ok (drop (Z.to_nat (8 - bytes)) (be_bytes 8 value)).

(** memcpy / memset into the storage at an offset; nothing is written through
    a NULL pointer. *)
Definition buffer_store (b : sslBuffer) (at_ : Z) (src : list Z) : sec_res sslBuffer :=
  match buf b with
  | Some m => m' ← mem_write m (Z.to_nat at_) src;
              Ok (mk_sslBuffer (Some m') (len b) (space b) (fixed b))
  | None => UB
  end.

Definition set_len (b : sslBuffer) (n : Z) : sslBuffer :=
  mk_sslBuffer (buf b) (u32 n) (space b) (fixed b).

Definition sslBuffer_Grow (b : sslBuffer) (newLen : Z) : sec_res sslBuffer :=
  if fixed b then
    if newLen >? space b then Err SEC_ERROR_LIBRARY_FAILURE else Ok b
  else if newLen >? space b then
    let newLen := Z.max newLen (u32 (space b + 2048)) in
    newBuf ← match buf b with
             | Some m => PORT_Realloc m newLen
             | None => PORT_Alloc newLen
             end;
    Ok (mk_sslBuffer (Some newBuf) (len b) newLen (fixed b))
  else Ok b.

Definition sslBuffer_Fill (b : sslBuffer) (c n : Z) : sec_res sslBuffer :=
  b ← sslBuffer_Grow b (u32 (len b + n));
  b ← (if 0 <? n then buffer_store b (len b) (replicate (Z.to_nat n) c) else Ok b);
  Ok (set_len b (len b + n)).

Definition sslBuffer_Append (b : sslBuffer) (data : list Z) (n : Z) : sec_res sslBuffer :=
  b ← sslBuffer_Grow b (u32 (len b + n));
  b ← (if 0 <? n then
         src ← mem_read data 0 (Z.to_nat n);
         buffer_store b (len b) src
       else Ok b);
  Ok (set_len b (len b + n)).

Definition sslBuffer_AppendNumber (b : sslBuffer) (v size : Z) : sec_res sslBuffer :=
  b ← sslBuffer_Grow b (u32 (len b + size));
  e ← ssl_EncodeUintX v size;
  b ← buffer_store b (len b) e;
  Ok (set_len b (len b + size)).

Definition sslBuffer_AppendVariable (b : sslBuffer) (data : list Z) (n size : Z)
    : sec_res sslBuffer :=
  bound ← shl64 (8 * size);
  if n >=? bound then Err SEC_ERROR_LIBRARY_FAILURE else
  b ← sslBuffer_Grow b (u32 (len b + n + size));
  e ← ssl_EncodeUintX n size;
  b ← buffer_store b (len b) e;
  let b := set_len b (len b + size) in
  b ← (if negb (n =? 0) then
         src ← mem_read data 0 (Z.to_nat n);
         buffer_store b (len b) src
       else Ok b);
  Ok (set_len b (len b + n)).

Definition sslBuffer_AppendBuffer (b append : sslBuffer) : sec_res sslBuffer :=
  sslBuffer_Append b (storage append) (len append).

Definition sslBuffer_AppendBufferVariable (b append : sslBuffer) (size : Z) : sec_res sslBuffer :=
  sslBuffer_AppendVariable b (storage append) (len append) size.

(** Returns the buffer and the offset that was skipped over. *)
Definition sslBuffer_Skip (b : sslBuffer) (size : Z) : sec_res (sslBuffer * Z) :=
  b ← sslBuffer_Grow b (u32 (len b + size));
  Ok (set_len b (len b + size), len b).

Definition sslBuffer_InsertLength (b : sslBuffer) (at_ size : Z) : sec_res sslBuffer :=
  let n := u32 (len b - u32 (at_ + size)) in
  bound ← shl64 (8 * size);
  if n >=? bound then Err SEC_ERROR_LIBRARY_FAILURE else
  e ← ssl_EncodeUintX n size;
  buffer_store b at_ e.

Definition sslBuffer_InsertNumber (b : sslBuffer) (at_ v size : Z) : sec_res sslBuffer :=
  bound ← shl64 (8 * size);
  if v >=? bound then Err SEC_ERROR_LIBRARY_FAILURE else
  e ← ssl_EncodeUintX v size;
  buffer_store b at_ e.

Definition sslBuffer_Clear (b : sslBuffer) : sslBuffer :=
  if fixed b then mk_sslBuffer (buf b) 0 (space b) true
  else mk_sslBuffer None 0 0 false.

Definition sslBuffer_ZeroClear (b : sslBuffer) : sec_res sslBuffer :=
  b ← match buf b with
      | Some _ => buffer_store b 0 (replicate (Z.to_nat (space b)) 0)
      | None => Ok b
      end;
  Ok (sslBuffer_Clear b).

(** ** Reader operations

    The pointer arguments may be NULL; a read returns the advanced reader and
    the filled-in output. *)

Definition sslRead_Read (reader : option sslReader) (count : Z) (out : option sslReadBuffer)
    : sec_res (sslReader * sslReadBuffer) :=
  match reader, out with
  | Some reader, Some out =>
      if (rb_len (rd_buf reader) <? offset reader) || (count >? SSL_READER_REMAINING reader)
      then Err SEC_ERROR_BAD_DATA
      else Ok (mk_sslReader (rd_buf reader) (u32 (offset reader + count)),
               mk_sslReadBuffer (drop (Z.to_nat (offset reader)) (rb_buf (rd_buf reader))) count)
  | _, _ => Err SEC_ERROR_INVALID_ARGS
  end.

(** [num] is the out parameter: [None] when the caller passed NULL. *)
Definition sslRead_ReadNumber (reader : option sslReader) (count : Z) (num : option unit)
    : sec_res (sslReader * Z) :=
  match reader, num with
  | Some reader, Some _ =>
      if (rb_len (rd_buf reader) <? offset reader) || (count >? SSL_READER_REMAINING reader)
         || (count >? 8)
      then Err SEC_ERROR_BAD_DATA
      else
        bs ← mem_read (rb_buf (rd_buf reader)) (Z.to_nat (offset reader)) (Z.to_nat count);
        let number := fold_left (fun number b => u64 (u64 (Z.shiftl number 8) + b)) bs 0 in
        Ok (mk_sslReader (rd_buf reader) (u32 (offset reader + count)), number)
  | _, _ => Err SEC_ERROR_INVALID_ARGS
  end.

Definition sslRead_ReadVariable (reader : option sslReader) (sizeLen : Z) (out : sslReadBuffer)
    : sec_res (sslReader * sslReadBuffer) :=
  match sslRead_ReadNumber reader sizeLen (Some tt) with
  | UB => UB
  | Err _ => Err SEC_ERROR_BAD_DATA
  | Ok (reader, variableLen) =>
      if variableLen =? 0 then Ok (reader, mk_sslReadBuffer (rb_buf out) 0)
      else sslRead_Read (Some reader) (u32 variableLen) (Some out)
  end.

(** The octets a filled-in [sslReadBuffer] denotes. *)
Definition rb_contents (o : sslReadBuffer) : list Z := take (Z.to_nat (rb_len o)) (rb_buf o).

(** ** Well-formedness and the functional behaviour of the buffer *)

Record wf (b : sslBuffer) : Prop := mk_wf {
  wf_len : 0 ≤ len b < 2 ^ 32;
  wf_space : 0 ≤ space b < 2 ^ 32;
  wf_bytes : bytes (storage b);
  wf_len_fits : len b ≤ length (storage b);
  wf_space_fits : space b ≤ length (storage b);
  wf_heap : fixed b = false → length (storage b) = Z.to_nat (space b) ∧ space b ≤ MAX_SIZE;
}.

Lemma length_contents b : wf b → length (contents b) = Z.to_nat (len b).
Proof. intros []. unfold contents. rewrite length_take. lia. Qed.

Lemma SSL_BUFFER_EMPTY_wf : wf SSL_BUFFER_EMPTY.
Proof. by constructor. Qed.

Lemma SSL_BUFFER_FIXED_wf m n :
  bytes m → 0 ≤ n < 2 ^ 32 → n ≤ length m → wf (SSL_BUFFER_FIXED m n).
Proof. intros ???. constructor; unfold SSL_BUFFER_FIXED; simpl; try done; lia. Qed.

(** What growing to [n] bytes may do: nothing visible changes but the room. *)
Definition grown (b : sslBuffer) (n : Z) (b' : sslBuffer) : Prop :=
  wf b' ∧ len b' = len b ∧ contents b' = contents b ∧ fixed b' = fixed b ∧
  n ≤ space b' ∧ space b ≤ space b'.

(** The only ways an operation that needs [n] bytes may fail. *)
Definition grow_error (b : sslBuffer) (n : Z) (e : SECErrorCode) : Prop :=
  (fixed b = true ∧ e = SEC_ERROR_LIBRARY_FAILURE ∧ space b < n) ∨
  (fixed b = false ∧ e = SEC_ERROR_NO_MEMORY ∧ space b < n).

Lemma PORT_no_other_error m n e :
  match m with Some old => PORT_Realloc old n | None => PORT_Alloc n end = Err e →
  e = SEC_ERROR_NO_MEMORY.
Proof. unfold PORT_Realloc, PORT_Alloc. intros. split_matches; congruence. Qed.

Lemma sslBuffer_Grow_spec b n :
  wf b → 0 ≤ n < 2 ^ 32 →
  match sslBuffer_Grow b n with
  | Ok b' => grown b n b'
  | Err e => grow_error b n e
  | UB => False
  end.
Proof.
  intros Hwf Hn. pose proof Hwf as [Hl Hs Hb Hlf Hsf Hh].
  unfold sslBuffer_Grow, grown, grow_error. destruct (fixed b) eqn:Hf.
  { destruct (Z.gtb_spec n (space b)); [left; split_and!; done || lia|split_and!; done || lia]. }
  destruct (Z.gtb_spec n (space b)); [|split_and!; done || lia].
  destruct (Hh eq_refl) as [Hlen Hmax]. rewrite MAX_SIZE_val in Hmax.
  rewrite wrap_small by lia. set (n' := Z.max n (space b + 2048)).
  destruct (match buf b with Some m => PORT_Realloc m n' | None => PORT_Alloc n' end)
    as [m'|e|] eqn:HA; simpl.
  2: { right. split_and!; [done| |lia]. eauto using PORT_no_other_error. }
  2: { destruct (buf b); [by apply PORT_Realloc_no_UB in HA|by apply PORT_Alloc_no_UB in HA]. }
  assert (length m' = Z.to_nat n' ∧ bytes m' ∧ n' ≤ MAX_SIZE ∧
          take (length (storage b)) m' = storage b) as (Hlm & Hbm & Hmx & Ht).
  { unfold storage in *. destruct (buf b) as [m|]; simpl in *.
    - apply PORT_Realloc_Ok in HA as (? & ? & ? & HT); [|done|lia].
      split_and!; [done..|]. apply HT. lia.
    - apply PORT_Alloc_Ok in HA as (HE & ? & ?); [|lia].
      rewrite (proj2 (Z.eqb_neq n' 0)) in HE by lia. split_and!; done. }
  rewrite MAX_SIZE_val in Hmx.
  split_and!; [constructor; unfold storage; simpl; try done; try lia| | | | | ];
    simpl; try done; try lia.
  unfold contents at 1. simpl. unfold storage at 1. simpl.
  unfold contents. rewrite <- Ht at 1. rewrite take_take. f_equal. lia.
Qed.

Lemma set_len_id b : wf b → set_len b (len b + 0) = b.
Proof. intros []. unfold set_len. rewrite Z.add_0_r, wrap_small by lia. by destruct b. Qed.

(** What appending [src] may do. *)
Definition appends (b : sslBuffer) (src : list Z) (r : sec_res sslBuffer) : Prop :=
  match r with
  | Ok b' => wf b' ∧ contents b' = contents b ++ src ∧ fixed b' = fixed b ∧ space b ≤ space b'
  | Err e => grow_error b (len b + length src) e
  | UB => False
  end.

(** Storing right after the bytes in use, within the room. *)
Lemma buffer_store_next b src :
  wf b → bytes src → src ≠ [] → len b + length src ≤ space b →
  ∃ b', buffer_store b (len b) src = Ok b' ∧
    len b' = len b ∧ space b' = space b ∧ fixed b' = fixed b ∧
    wf (set_len b' (len b + length src)) ∧
    contents (set_len b' (len b + length src)) = contents b ++ src.
Proof.
  intros [Hl Hs Hb Hlf Hsf Hh] Hsrc Hne Hroom.
  destruct b as [[m|] l sp f]; unfold contents, buffer_store, storage in *; simpl in *.
  2: { destruct src; [done|simpl in *; lia]. }
  rewrite mem_write_same by lia. simpl. eexists. split; [done|]. simpl.
  split_and!; [done..| |].
  - constructor; unfold storage; simpl; rewrite ?wrap_small by lia;
      rewrite ?length_app, ?length_take, ?length_drop; try lia.
    + rewrite !Forall_app. eauto using Forall_take, Forall_drop.
    + intros HF. specialize (Hh HF). lia.
  - unfold storage. simpl. rewrite wrap_small by lia. rewrite app_assoc, take_app_length'; [done|]. rewrite length_app, length_take. lia.
Qed.

(** The shape shared by the append operations: grow, store, advance. *)
Lemma grow_store_appends b src :
  wf b → bytes src → src ≠ [] → len b + length src < 2 ^ 32 →
  appends b src
    (b ← sslBuffer_Grow b (u32 (len b + length src));
     b ← buffer_store b (len b) src;
     Ok (set_len b (len b + length src))).
Proof.
  intros Hwf Hsrc Hne Hov. pose proof (wf_len _ Hwf). rewrite wrap_small by lia.
  pose proof (sslBuffer_Grow_spec b (len b + length src) Hwf ltac:(lia)) as HG.
  destruct (sslBuffer_Grow _ _) as [b1|e|]; simpl; [|done|done].
  destruct HG as (Hwf1 & Hl1 & Hc1 & Hf1 & Hn1 & Hs1).
  destruct (buffer_store_next b1 src) as (b2 & -> & Hl2 & Hs2 & Hf2 & Hwf2 & Hc2); [done..|lia|].
  simpl. rewrite Hl2. split_and!; [done| |simpl; congruence|simpl; lia].
  by rewrite Hc2, Hc1.
Qed.

Lemma grow_nothing_appends b :
  wf b → appends b [] (b ← sslBuffer_Grow b (u32 (len b + 0)); Ok (set_len b (len b + 0))).
Proof.
  intros Hwf. pose proof (wf_len _ Hwf). rewrite Z.add_0_r, wrap_small by lia.
  pose proof (sslBuffer_Grow_spec b (len b) Hwf ltac:(lia)) as HG.
  destruct (sslBuffer_Grow _ _) as [b1|e|]; simpl; [|by rewrite Z.add_0_r|done].
  destruct HG as (Hwf1 & Hl1 & Hc1 & Hf1 & Hn1 & Hs1). pose proof (wf_len _ Hwf1).
  rewrite set_len_id by done. by rewrite app_nil_r.
Qed.

Lemma ssl_EncodeUintX_be v n : 0 ≤ n ≤ 8 → ssl_EncodeUintX v n = Ok (be_bytes (Z.to_nat n) v).
Proof.
  intros Hn. unfold ssl_EncodeUintX. destruct (Z.ltb_spec 8 n); [lia|]. f_equal.
  rewrite <- (drop_be_bytes 8 (Z.to_nat n)) by lia. f_equal. lia.
Qed.

Lemma be_bytes_not_nil n v : (0 < n)%nat → be_bytes n v ≠ [].
Proof. intros Hn Heq. apply (f_equal length) in Heq. rewrite length_be_bytes in Heq. simpl in *. lia. Qed.

Lemma sslBuffer_Append_appends b data n :
  wf b → bytes data → 0 ≤ n ≤ length data → len b + n < 2 ^ 32 →
  appends b (take (Z.to_nat n) data) (sslBuffer_Append b data n).
Proof.
  intros Hwf Hd Hn Hov. unfold sslBuffer_Append.
  destruct (Z.ltb_spec 0 n) as [Hpos|Hz].
  - set (src := take (Z.to_nat n) data).
    assert (Hsl : n = length src) by (unfold src; rewrite length_take; lia).
    unfold mem_read. rewrite decide_True by lia. simpl. rewrite drop_0.
    change (take (Z.to_nat n) data) with src. rewrite Hsl.
    assert (bytes src) by (by apply Forall_take).
    assert (src ≠ []) by (intros ->; simpl in *; lia).
    pose proof (grow_store_appends b src Hwf ltac:(done) ltac:(done) ltac:(lia)) as HA.
    destruct (sslBuffer_Grow _ _) as [b1| |] eqn:HG; [|done|done].
    simpl in HA |- *. destruct (buffer_store _ _ _) as [b2| |] eqn:HB; [|done|done]. done.
  - assert (n = 0) as -> by lia. simpl.
    pose proof (grow_nothing_appends b Hwf) as HA.
    destruct (sslBuffer_Grow _ _); done.
Qed.

Lemma sslBuffer_Fill_appends b c n :
  wf b → is_byte c → 0 ≤ n → len b + n < 2 ^ 32 →
  appends b (replicate (Z.to_nat n) c) (sslBuffer_Fill b c n).
Proof.
  intros Hwf Hc Hn Hov. unfold sslBuffer_Fill.
  destruct (Z.ltb_spec 0 n) as [Hpos|Hz].
  - set (src := replicate (Z.to_nat n) c).
    assert (Hsl : n = length src) by (unfold src; rewrite length_replicate; lia).
    rewrite Hsl.
    assert (bytes src) by (by apply Forall_replicate).
    assert (src ≠ []) by (intros Heq; rewrite Heq in *; simpl in *; lia).
    pose proof (grow_store_appends b src Hwf ltac:(done) ltac:(done) ltac:(lia)) as HA.
    destruct (sslBuffer_Grow _ _) as [b1| |] eqn:HG; [|done|done].
    simpl in HA |- *. destruct (buffer_store _ _ _) as [b2| |] eqn:HB; done.
  - assert (n = 0) as -> by lia. simpl.
    pose proof (grow_nothing_appends b Hwf) as HA.
    destruct (sslBuffer_Grow _ _); done.
Qed.

Lemma sslBuffer_AppendNumber_appends b v size :
  wf b → 0 < size ≤ 8 → len b + size < 2 ^ 32 →
  appends b (be_bytes (Z.to_nat size) v) (sslBuffer_AppendNumber b v size).
Proof.
  intros Hwf Hsz Hov. unfold sslBuffer_AppendNumber.
  rewrite ssl_EncodeUintX_be by lia. set (src := be_bytes (Z.to_nat size) v).
  assert (Hsl : size = length src) by (unfold src; rewrite length_be_bytes; lia).
  assert (src ≠ []) by (apply be_bytes_not_nil; lia). rewrite Hsl.
  pose proof (grow_store_appends b src Hwf (be_bytes_bytes _ _) ltac:(done) ltac:(lia)) as HA.
  destruct (sslBuffer_Grow _ _) as [b1| |] eqn:HG; [|done|done].
  simpl in HA |- *. destruct (buffer_store _ _ _) as [b2| |] eqn:HB; done.
Qed.

Lemma shl64_Ok n : 0 ≤ n < 64 → shl64 n = Ok (2 ^ n).
Proof. intros Hn. unfold shl64. destruct (Z.ltb_spec n 64); [done|lia]. Qed.

Lemma pow_8_256 n : 0 ≤ n → 2 ^ (8 * n) = 256 ^ n.
Proof. intros Hn. by rewrite Z.pow_mul_r by lia. Qed.

Lemma sslBuffer_AppendVariable_appends b data n size :
  wf b → bytes data → 0 ≤ n ≤ length data → 0 < size ≤ 4 → n < 256 ^ size →
  len b + n + size < 2 ^ 32 →
  appends b (be_bytes (Z.to_nat size) n ++ take (Z.to_nat n) data)
    (sslBuffer_AppendVariable b data n size).
Proof.
  intros Hwf Hd Hn Hsz Hfit Hov. pose proof (wf_len _ Hwf).
  unfold sslBuffer_AppendVariable. rewrite shl64_Ok, pow_8_256 by lia. cbn [mbind res_bind].
  destruct (Z.geb_spec n (256 ^ size)); [lia|].
  rewrite ssl_EncodeUintX_be by lia. set (e := be_bytes _ n). set (src := take _ data).
  assert (He : size = length e) by (unfold e; rewrite length_be_bytes; lia).
  assert (Hs : n = length src) by (unfold src; rewrite length_take; lia).
  assert (Hne : e ≠ []) by (apply be_bytes_not_nil; lia).
  rewrite wrap_small by lia.
  pose proof (sslBuffer_Grow_spec b (len b + n + size) Hwf ltac:(lia)) as HG.
  destruct (sslBuffer_Grow _ _) as [b1|er|]; cbn [mbind res_bind]; [| |done].
  2: { unfold appends. rewrite length_app. replace (len b + _) with (len b + n + size) by lia. done. }
  destruct HG as (Hwf1 & Hl1 & Hc1 & Hf1 & Hn1 & Hs1).
  destruct (buffer_store_next b1 e) as (b2 & -> & Hl2 & Hs2 & Hf2 & Hwf2 & Hc2);
    [done|apply be_bytes_bytes|done|lia|].
  cbn [mbind res_bind]. rewrite Hl2. rewrite <- He in Hwf2, Hc2. set (b3 := set_len b2 (len b1 + size)) in *.
  assert (Hl3 : len b3 = len b + size) by (unfold b3; simpl; rewrite wrap_small; lia).
  destruct (Z.eqb_spec n 0) as [Hz|Hz]; cbn [negb].
  - assert (src = []) as -> by (apply nil_length_inv; lia).
    rewrite app_nil_r, Hz. cbn [mbind res_bind]. rewrite set_len_id by done.
    unfold appends. split_and!; [done|congruence|unfold b3; simpl; congruence|unfold b3; simpl; lia].
  - unfold mem_read. rewrite decide_True by lia. cbn [mbind res_bind]. rewrite drop_0. fold src.
    assert (src ≠ []) by (intros Heq; rewrite Heq in Hs; simpl in Hs; lia).
    assert (Hs3 : space b3 = space b1) by done. assert (Hf3 : fixed b3 = fixed b1) by done.
    destruct (buffer_store_next b3 src) as (b4 & -> & Hl4 & Hs4 & Hf4 & Hwf4 & Hc4);
      [done|by apply Forall_take|done|lia|].
    cbn [mbind res_bind]. rewrite Hl4. rewrite <- Hs in Hwf4, Hc4. unfold appends. split_and!.
    + done.
    + by rewrite Hc4, Hc2, Hc1, <- app_assoc.
    + simpl. congruence.
    + simpl. lia.
Qed.

Lemma sslBuffer_AppendVariable_too_long b data n size :
  0 < size ≤ 4 → 256 ^ size ≤ n →
  sslBuffer_AppendVariable b data n size = Err SEC_ERROR_LIBRARY_FAILURE.
Proof.
  intros Hsz Hn. unfold sslBuffer_AppendVariable.
  rewrite shl64_Ok, pow_8_256 by lia. simpl. by destruct (Z.geb_spec n (256 ^ size)); [|lia].
Qed.

(** Skipping leaves [size] unspecified octets behind. *)
Lemma sslBuffer_Skip_spec b size :
  wf b → 0 ≤ size → len b + size < 2 ^ 32 →
  match sslBuffer_Skip b size with
  | Ok (b', at_) => wf b' ∧ at_ = len b ∧ fixed b' = fixed b ∧
      ∃ hole, length hole = Z.to_nat size ∧ contents b' = contents b ++ hole
  | Err e => grow_error b (len b + size) e
  | UB => False
  end.
Proof.
  intros Hwf Hsz Hov. pose proof (wf_len _ Hwf). unfold sslBuffer_Skip.
  rewrite wrap_small by lia.
  pose proof (sslBuffer_Grow_spec b (len b + size) Hwf ltac:(lia)) as HG.
  destruct (sslBuffer_Grow _ _) as [b1|er|]; simpl; [|done|done].
  destruct HG as ([Hl Hs Hb Hlf Hsf Hh] & Hl1 & Hc1 & Hf1 & Hn1 & Hs1).
  split_and!; [|done|done|].
  - constructor; simpl; rewrite ?wrap_small by lia; try done; lia || (unfold storage in *; simpl; lia).
  - rewrite <- Hc1. unfold contents, set_len. simpl. rewrite wrap_small by lia.
    exists (take (Z.to_nat size) (drop (Z.to_nat (len b1)) (storage b1))). split.
    + rewrite length_take, length_drop. lia.
    + rewrite take_take_drop. unfold storage. simpl. f_equal. lia.
Qed.

(** Overwriting [length src] octets inside the bytes in use. *)
Lemma buffer_store_inside b pre mid post src :
  wf b → bytes src → src ≠ [] → contents b = pre ++ mid ++ post → length mid = length src →
  ∃ b', buffer_store b (length pre) src = Ok b' ∧ wf b' ∧ len b' = len b ∧
    contents b' = pre ++ src ++ post.
Proof.
  intros Hwf Hsrc Hne Hc Hm. pose proof (length_contents _ Hwf) as Hlen.
  rewrite Hc, !length_app in Hlen. destruct Hwf as [Hl Hs Hb Hlf Hsf Hh].
  destruct b as [[m|] l sp f]; unfold contents, buffer_store, storage in *; simpl in *.
  2: { destruct src; simpl in *; [done|lia]. }
  assert (Hm' : m = pre ++ mid ++ post ++ drop (Z.to_nat l) m).
  { rewrite <- (take_drop (Z.to_nat l) m) at 1. by rewrite Hc, <- !app_assoc. }
  rewrite Nat2Z.id, mem_write_same by lia. simpl. eexists. split; [done|].
  assert (HE : take (length pre) m ++ src ++ drop (length pre + length src) m
               = pre ++ src ++ post ++ drop (Z.to_nat l) m).
  { rewrite Hm' at 1 2. rewrite take_app_length, <- Hm, <- drop_drop, drop_app_length, drop_app_length.
    done. }
  rewrite HE. split_and!; [|done|].
  - constructor; unfold storage; simpl; try done.
    + rewrite Hm' in Hb. rewrite !Forall_app in Hb |- *. naive_solver.
    + rewrite !length_app, length_drop. lia.
    + rewrite !length_app, length_drop. lia.
    + intros HF. specialize (Hh HF). rewrite !length_app, length_drop. lia.
  - simpl. rewrite !app_assoc, take_app_length'; [by rewrite <- !app_assoc|].
    rewrite !length_app. lia.
Qed.

(** Filling in the length of a structure whose place was skipped over gives
    the same octets as appending the structure with its length. *)
Lemma sslBuffer_InsertLength_fills b pre hole body size :
  wf b → 0 < size ≤ 4 → contents b = pre ++ hole ++ body → length hole = Z.to_nat size →
  length body < 256 ^ size →
  ∃ b', sslBuffer_InsertLength b (length pre) size = Ok b' ∧ wf b' ∧
    contents b' = pre ++ be_bytes (Z.to_nat size) (length body) ++ body.
Proof.
  intros Hwf Hsz Hc Hh Hfit. pose proof (length_contents _ Hwf) as Hlen.
  pose proof (wf_len _ Hwf). rewrite Hc, !length_app in Hlen.
  unfold sslBuffer_InsertLength. rewrite shl64_Ok, pow_8_256 by lia. simpl.
  rewrite (wrap_small 32 (length pre + size)), wrap_small by lia.
  replace (len b - (length pre + size)) with (Z.of_nat (length body)) by lia.
  destruct (Z.geb_spec (length body) (256 ^ size)); [lia|].
  rewrite ssl_EncodeUintX_be by lia. simpl.
  destruct (buffer_store_inside b pre hole body (be_bytes (Z.to_nat size) (length body)))
    as (b' & -> & ? & _ & ?); [done|apply be_bytes_bytes|apply be_bytes_not_nil; lia|done| |eauto].
  by rewrite length_be_bytes.
Qed.

Lemma sslBuffer_InsertNumber_fills b pre hole body v size :
  wf b → 0 < size ≤ 4 → contents b = pre ++ hole ++ body → length hole = Z.to_nat size →
  0 ≤ v →
  if v <? 256 ^ size then
    ∃ b', sslBuffer_InsertNumber b (length pre) v size = Ok b' ∧ wf b' ∧
      contents b' = pre ++ be_bytes (Z.to_nat size) v ++ body
  else sslBuffer_InsertNumber b (length pre) v size = Err SEC_ERROR_LIBRARY_FAILURE.
Proof.
  intros Hwf Hsz Hc Hh Hv. unfold sslBuffer_InsertNumber.
  rewrite shl64_Ok, pow_8_256 by lia. simpl.
  destruct (Z.ltb_spec v (256 ^ size)), (Z.geb_spec v (256 ^ size)); try lia; [|done].
  rewrite ssl_EncodeUintX_be by lia. simpl.
  destruct (buffer_store_inside b pre hole body (be_bytes (Z.to_nat size) v))
    as (b' & -> & ? & _ & ?); [done|apply be_bytes_bytes|apply be_bytes_not_nil; lia|done| |eauto].
  by rewrite length_be_bytes.
Qed.

(** ** Reader *)

Record reader_wf (r : sslReader) : Prop := mk_reader_wf {
  rwf_bytes : bytes (rb_buf (rd_buf r));
  rwf_len : rb_len (rd_buf r) = length (rb_buf (rd_buf r));
  rwf_max : rb_len (rd_buf r) < 2 ^ 32;
  rwf_off : 0 ≤ offset r ≤ rb_len (rd_buf r);
}.

(** The octets not read yet. *)
Definition remaining (r : sslReader) : list Z := drop (Z.to_nat (offset r)) (rb_buf (rd_buf r)).

Lemma length_remaining r : reader_wf r → Z.of_nat (length (remaining r)) = SSL_READER_REMAINING r.
Proof.
  intros [Hb Hl Hm Ho]. unfold remaining, SSL_READER_REMAINING.
  rewrite length_drop, wrap_small by lia. lia.
Qed.

Definition advance (r : sslReader) (n : Z) : sslReader := mk_sslReader (rd_buf r) (offset r + n).

Lemma advance_wf r n : reader_wf r → 0 ≤ n ≤ length (remaining r) → reader_wf (advance r n).
Proof.
  intros Hwf Hn. rewrite length_remaining in Hn by done. destruct Hwf as [Hb Hl Hm Ho].
  unfold SSL_READER_REMAINING in Hn. rewrite wrap_small in Hn by lia.
  constructor; simpl; done || lia.
Qed.

Lemma advance_remaining r n : reader_wf r → 0 ≤ n →
  remaining (advance r n) = drop (Z.to_nat n) (remaining r).
Proof. intros [] Hn. unfold remaining. simpl. rewrite drop_drop. f_equal. lia. Qed.

Lemma sslRead_Read_spec r n o :
  reader_wf r → 0 ≤ n →
  sslRead_Read (Some r) n (Some o) =
    if n <=? length (remaining r)
    then Ok (advance r n, mk_sslReadBuffer (remaining r) n)
    else Err SEC_ERROR_BAD_DATA.
Proof.
  intros Hwf Hn. rewrite length_remaining by done. pose proof Hwf as [Hb Hl Hm Ho].
  unfold sslRead_Read, SSL_READER_REMAINING. rewrite wrap_small by lia.
  destruct (Z.ltb_spec (rb_len (rd_buf r)) (offset r)); [lia|]. simpl.
  destruct (Z.gtb_spec n (rb_len (rd_buf r) - offset r)),
    (Z.leb_spec n (rb_len (rd_buf r) - offset r)); try lia; [done|].
  unfold advance. by rewrite wrap_small by lia.
Qed.

Lemma read_fold_be_val bs acc :
  bytes bs → 0 ≤ acc → acc * 256 ^ length bs + be_val bs < 2 ^ 64 →
  fold_left (fun number b => u64 (u64 (Z.shiftl number 8) + b)) bs acc
  = acc * 256 ^ length bs + be_val bs.
Proof.
  revert acc. induction bs as [|b bs IH]; intros acc Hb Ha Hlt; simpl fold_left.
  { simpl. unfold be_val. simpl. lia. }
  apply Forall_cons in Hb as [Hb Hbs]. unfold is_byte in Hb.
  change (b :: bs) with ([b] ++ bs) in Hlt |- *.
  rewrite be_val_app, length_app in *. change (be_val [b]) with b in *.
  rewrite Nat2Z.inj_add, Z.pow_add_r in * by lia. change (256 ^ length [b]) with 256 in *.
  pose proof (be_val_range bs Hbs).
  assert (acc * 256 + b ≤ (acc * 256 + b) * 256 ^ length bs) by nia.
  rewrite Z.shiftl_mul_pow2 by lia. change (2 ^ 8) with 256.
  rewrite (wrap_small 64 (acc * 256)) by lia. rewrite wrap_small by lia.
  rewrite IH; [lia|done|lia|lia].
Qed.

Lemma sslRead_ReadNumber_spec r n :
  reader_wf r → 0 ≤ n →
  sslRead_ReadNumber (Some r) n (Some tt) =
    if (n <=? length (remaining r)) && (n <=? 8)
    then Ok (advance r n, be_val (take (Z.to_nat n) (remaining r)))
    else Err SEC_ERROR_BAD_DATA.
Proof.
  intros Hwf Hn. pose proof (length_remaining r Hwf) as Hlr. rewrite Hlr.
  pose proof Hwf as [Hb Hl Hm Ho].
  unfold sslRead_ReadNumber, SSL_READER_REMAINING in *. rewrite wrap_small in * by lia.
  destruct (Z.ltb_spec (rb_len (rd_buf r)) (offset r)); [lia|]. simpl.
  destruct (Z.gtb_spec n (rb_len (rd_buf r) - offset r)),
    (Z.leb_spec n (rb_len (rd_buf r) - offset r)); try lia; [done|].
  destruct (Z.gtb_spec n 8), (Z.leb_spec n 8); try lia; [done|].
  unfold mem_read. rewrite decide_True by lia. simpl. fold (remaining r).
  unfold advance. rewrite wrap_small by lia. do 2 f_equal.
  assert (Hbs : bytes (take (Z.to_nat n) (remaining r))) by (by apply Forall_take, Forall_drop).
  pose proof (be_val_range _ Hbs) as Hv.
  assert (256 ^ length (take (Z.to_nat n) (remaining r)) ≤ 256 ^ 8).
  { apply Z.pow_le_mono_r; [lia|]. rewrite length_take. lia. }
  rewrite read_fold_be_val; [lia|done|lia|]. change (256 ^ 8) with (2 ^ 64) in *. lia.
Qed.

(** Reading a vector: everything a prefix [be_bytes size n ++ data] promises. *)
Lemma sslRead_ReadVariable_spec r size o data rest :
  reader_wf r → 0 < size ≤ 4 → bytes data → length data < 256 ^ size →
  remaining r = be_bytes (Z.to_nat size) (length data) ++ data ++ rest →
  ∃ o', sslRead_ReadVariable (Some r) size o = Ok (advance r (size + length data), o') ∧
    rb_contents o' = data.
Proof.
  intros Hwf Hsz Hd Hfit Hrem. unfold sslRead_ReadVariable.
  rewrite sslRead_ReadNumber_spec by (done || lia).
  assert (HL : length (remaining r) = (Z.to_nat size + length data + length rest)%nat).
  { by rewrite Hrem, !length_app, length_be_bytes, Nat.add_assoc. }
  destruct (Z.leb_spec size (length (remaining r))); [|lia].
  destruct (Z.leb_spec size 8); [|lia]. cbn [andb].
  assert (Hv : be_val (take (Z.to_nat size) (remaining r)) = length data).
  { rewrite Hrem, take_app_length' by (by rewrite length_be_bytes).
    rewrite be_val_be_bytes, Z.mod_small by (rewrite Z2Nat.id; lia). done. }
  rewrite Hv. assert (256 ^ size ≤ 256 ^ 4) by (apply Z.pow_le_mono_r; lia).
  destruct (Z.eqb_spec (length data) 0) as [Hz|Hz].
  - rewrite Hz, Z.add_0_r. eexists. split; [done|]. unfold rb_contents. simpl.
    destruct data; [done|simpl in *; lia].
  - rewrite wrap_small by lia.
    assert (Hwf' : reader_wf (advance r size)) by (apply advance_wf; [done|lia]).
    rewrite sslRead_Read_spec by (done || lia).
    rewrite advance_remaining by (done || lia).
    rewrite Hrem, drop_app_length' by (by rewrite length_be_bytes). rewrite length_app.
    destruct (Z.leb_spec (length data) (length data + length rest)%nat); [|lia].
    eexists. split.
    + unfold advance. simpl. by rewrite Z.add_assoc.
    + unfold rb_contents. simpl. by rewrite Nat2Z.id, take_app_length.
Qed.

End Buffer.

(** ** Properties *)

(** Appending a vector with its length field to a well-formed buffer, on
    every branch: a vector too long for its length field is refused with
    SEC_ERROR_LIBRARY_FAILURE; otherwise the buffer either gains exactly the
    big-endian length followed by the data and stays well-formed, or reports
    the lack of room (fixed storage) or of memory.  No octet outside the
    storage is touched. *)
Theorem AppendVariable_correct `{NSPRHeap} b data n size :
  wf b → bytes data → 0 ≤ n ≤ length data → 0 < size ≤ 4 → len b + n + size < 2 ^ 32 →
  if n <? 256 ^ size
  then appends b (be_bytes (Z.to_nat size) n ++ take (Z.to_nat n) data)
         (sslBuffer_AppendVariable b data n size)
  else sslBuffer_AppendVariable b data n size = Err SEC_ERROR_LIBRARY_FAILURE.
Proof.
  intros. destruct (Z.ltb_spec n (256 ^ size)).
  - by apply sslBuffer_AppendVariable_appends.
  - by apply sslBuffer_AppendVariable_too_long.
Qed.

Lemma AppendVariable_correct_witness :
  appends SSL_BUFFER_EMPTY ([0; 3] ++ [7; 8; 9])
    (sslBuffer_AppendVariable SSL_BUFFER_EMPTY [7; 8; 9] 3 2) ∧
  contents (SSL_BUFFER_EMPTY) = [].
Proof.
  split; [|reflexivity].
  apply (AppendVariable_correct SSL_BUFFER_EMPTY [7; 8; 9] 3 2); try done.
  repeat constructor; done.
Defined.

(** [C5] What sslBuffer_AppendVariable writes, sslRead_ReadVariable reads: a
    reader placed where the vector was appended returns exactly the data and
    stops at the end of the buffer, whatever was in the buffer before. *)
Theorem AppendVariable_ReadVariable `{NSPRHeap} b b' data size out :
  wf b → bytes data → 0 < size ≤ 4 → length data < 256 ^ size →
  len b + length data + size < 2 ^ 32 →
  sslBuffer_AppendVariable b data (length data) size = Ok b' →
  ∃ out', sslRead_ReadVariable
            (Some (mk_sslReader (mk_sslReadBuffer (contents b') (len b')) (len b))) size out
          = Ok (mk_sslReader (mk_sslReadBuffer (contents b') (len b')) (len b'), out') ∧
          rb_contents out' = data.
Proof.
  intros Hwf Hd Hsz Hfit Hov HA.
  pose proof (sslBuffer_AppendVariable_appends b data (length data) size Hwf Hd
    ltac:(lia) Hsz Hfit ltac:(lia)) as Hap. rewrite HA in Hap.
  destruct Hap as (Hwf' & Hc & _ & _). rewrite Nat2Z.id, take_ge in Hc by lia.
  pose proof (length_contents _ Hwf). pose proof (length_contents _ Hwf') as Hlc.
  pose proof (wf_len _ Hwf). pose proof (wf_len _ Hwf').
  assert (Hlen' : len b' = len b + (size + length data)).
  { rewrite Hc, !length_app, length_be_bytes in Hlc. lia. }
  destruct (sslRead_ReadVariable_spec
    (mk_sslReader (mk_sslReadBuffer (contents b') (len b')) (len b)) size out data [])
    as (o' & HR & Ho); try done.
  - constructor; simpl; try lia. unfold contents. apply Forall_take. by destruct Hwf'.
  - unfold remaining. simpl. by rewrite Hc, drop_app_length', app_nil_r by lia.
  - exists o'. split; [|done]. rewrite HR. unfold advance. simpl. by rewrite Hlen'.
Qed.

Lemma AppendVariable_ReadVariable_witness :
  ∃ out', sslRead_ReadVariable
            (Some (mk_sslReader (mk_sslReadBuffer [0; 2; 5; 6] 4) 0)) 2 (mk_sslReadBuffer [] 0)
          = Ok (mk_sslReader (mk_sslReadBuffer [0; 2; 5; 6] 4) 4, out') ∧
          rb_contents out' = [5; 6].
Proof.
  refine (AppendVariable_ReadVariable SSL_BUFFER_EMPTY
    (mk_sslBuffer (Some ([0; 2; 5; 6] ++ replicate 2044 0)) 4 2048 false) [5; 6] 2
    (mk_sslReadBuffer [] 0) SSL_BUFFER_EMPTY_wf _ _ _ _ _); try done.
  repeat constructor; done.
Defined.

(** The two ways of encoding a vector agree: skipping over the length
    field, appending the body and filling in the length afterwards gives the
    octets sslBuffer_AppendVariable appends. *)
Theorem Skip_InsertLength_eq_AppendVariable `{NSPRHeap} b b1 b2 at_ data size :
  wf b → bytes data → 0 < size ≤ 4 → length data < 256 ^ size →
  len b + length data + size < 2 ^ 32 →
  sslBuffer_Skip b size = Ok (b1, at_) →
  sslBuffer_Append b1 data (length data) = Ok b2 →
  ∃ b3, sslBuffer_InsertLength b2 at_ size = Ok b3 ∧ wf b3 ∧
    contents b3 = contents b ++ be_bytes (Z.to_nat size) (length data) ++ data ∧
    ∀ b', sslBuffer_AppendVariable b data (length data) size = Ok b' →
      contents b' = contents b3.
Proof.
  intros Hwf Hd Hsz Hfit Hov HS HA.
  pose proof (sslBuffer_Skip_spec b size Hwf ltac:(lia) ltac:(lia)) as HSk. rewrite HS in HSk.
  destruct HSk as (Hwf1 & -> & Hf1 & hole & Hhl & Hc1).
  pose proof (length_contents _ Hwf). pose proof (length_contents _ Hwf1) as Hl1.
  pose proof (wf_len _ Hwf). pose proof (wf_len _ Hwf1). rewrite Hc1, length_app in Hl1.
  pose proof (sslBuffer_Append_appends b1 data (length data) Hwf1 Hd ltac:(lia) ltac:(lia)) as HAp.
  rewrite HA in HAp. destruct HAp as (Hwf2 & Hc2 & _). rewrite Nat2Z.id, take_ge in Hc2 by lia.
  replace (len b) with (Z.of_nat (length (contents b))) by lia.
  destruct (sslBuffer_InsertLength_fills b2 (contents b) hole data size) as (b3 & HI & Hwf3 & Hc3);
    try done.
  { by rewrite Hc2, Hc1, <- app_assoc. }
  exists b3. split_and!; [done..|]. intros b' HV.
  pose proof (sslBuffer_AppendVariable_appends b data (length data) size Hwf Hd
    ltac:(lia) Hsz Hfit ltac:(lia)) as HVa. rewrite HV in HVa.
  destruct HVa as (_ & HVc & _). by rewrite HVc, Hc3, Nat2Z.id, take_ge by lia.
Qed.

Lemma Skip_InsertLength_eq_AppendVariable_witness :
  ∃ b3, sslBuffer_InsertLength
          (mk_sslBuffer (Some ([0; 0; 0; 9; 9] ++ replicate 2043 0)) 5 2048 false) 0 3 = Ok b3 ∧
    wf b3 ∧ contents b3 = contents SSL_BUFFER_EMPTY ++ [0; 0; 2] ++ [9; 9] ∧
    ∀ b', sslBuffer_AppendVariable SSL_BUFFER_EMPTY [9; 9] 2 3 = Ok b' → contents b' = contents b3.
Proof.
  refine (Skip_InsertLength_eq_AppendVariable SSL_BUFFER_EMPTY
    (mk_sslBuffer (Some (replicate 2048 0)) 3 2048 false) _ 0 [9; 9] 3
    SSL_BUFFER_EMPTY_wf _ _ _ _ _ _); try done.
  repeat constructor; done.
Defined.
