(* ===== verification/SslHandshakeOut.v ===== *)
(** lib/ssl/sslencode.c, second half: the handshake append path.

    Handshake messages are appended to [ss->sec.ci.sendBuf]; when the buffer
    cannot grow any more its contents are flushed as a record and the rest is
    copied into the emptied buffer.  Every appended octet also enters the
    handshake transcript hash unless the caller suppresses it.

    Hashing and record output are the business of ssl3con.c; the append path
    sees them through the class [HandshakeIO]. *)

From stdpp Require Import base numbers list.
From S2P Require Import Prelude Port SslEncode.

(** What the append path relies on from ssl3_UpdateHandshakeHashes and
    ssl3_FlushHandshake: a successful update extends the transcript, a
    successful flush hands the buffer's contents to the record layer and
    empties the buffer, keeping its storage. *)
Class HandshakeIO (S : Type) := {
  ssl3_UpdateHandshakeHashes : S → list Z → sec_res S;
  ssl3_FlushHandshake : S → sslBuffer → sec_res (S * sslBuffer);
  hashed : S → list Z;
  sent : S → list Z;
  update_extends s d s' : ssl3_UpdateHandshakeHashes s d = Ok s' →
    hashed s' = hashed s ++ d ∧ sent s' = sent s;
  update_no_UB s d : ssl3_UpdateHandshakeHashes s d ≠ UB;
  flush_sends s b s' b' : ssl3_FlushHandshake s b = Ok (s', b') →
    sent s' = sent s ++ contents b ∧ hashed s' = hashed s ∧ b' = set_len b 0;
  flush_no_UB s b : ssl3_FlushHandshake s b ≠ UB;
}.

(** The fields of sslSocket the append path reads or writes. *)
Record sslSocket (S : Type) := mk_sslSocket {
  sendBuf : sslBuffer;
  firstHsDone : bool;
  version : Z;
  dtls13ClientMessageBuffer : sslBuffer;
  cwSpec_version : Z;
  zeroRttState_sent : bool;
  io : S;
}.
Arguments mk_sslSocket {S}.
Arguments sendBuf {S}. Arguments firstHsDone {S}. Arguments version {S}.
Arguments dtls13ClientMessageBuffer {S}. Arguments cwSpec_version {S}.
Arguments zeroRttState_sent {S}. Arguments io {S}.

Definition MAX_SEND_BUF_LENGTH : Z := 32000.
Definition MIN_SEND_BUF_LENGTH : Z := 4000.
Definition SSL_LIBRARY_VERSION_TLS_1_3 : Z := 0x0304.

Section Handshake.
  Context `{NSPRHeap} {S : Type} `{HandshakeIO S}.

Definition with_sendBuf (ss : sslSocket S) (b : sslBuffer) (i : S) : sslSocket S :=
  mk_sslSocket b (firstHsDone ss) (version ss) (dtls13ClientMessageBuffer ss)
    (cwSpec_version ss) (zeroRttState_sent ss) i.

(** [while (bytes > room)] and the final copy.  [fuel] bounds the number of
    records; running out of it would be reported as [UB]. *)
Fixpoint append_chunks (fuel : nat) (ss : sslSocket S) (src : list Z) (n room : Z)
    : sec_res (sslSocket S) :=
  match fuel with
  | O => UB
  | Datatypes.S fuel =>
      if n >? u32 room then
        b ← (if 0 <? room then
               chunk ← mem_read src 0 (Z.to_nat room);
               buffer_store (sendBuf ss) (len (sendBuf ss)) chunk
             else Ok (sendBuf ss));
        '(i, b) ← ssl3_FlushHandshake (io ss) (set_len b (len b + room));
        append_chunks fuel (with_sendBuf ss b i) (drop (Z.to_nat room) src)
          (u32 (n - room)) (swrap 32 (space b))
      else
        chunk ← mem_read src 0 (Z.to_nat n);
        b ← buffer_store (sendBuf ss) (len (sendBuf ss)) chunk;
        Ok (with_sendBuf ss (set_len b (len b + n)) (io ss))
  end.

Definition ssl3_AppendHandshakeInternal (ss : sslSocket S) (src : list Z) (n : Z)
    (suppressHash : bool) : sec_res (sslSocket S) :=
  let room := swrap 32 (space (sendBuf ss) - len (sendBuf ss)) in
  if n =? 0 then Ok ss else
  b ← (if (space (sendBuf ss) <? MAX_SEND_BUF_LENGTH) && (u32 room <? n) then
         sslBuffer_Grow (sendBuf ss)
           (Z.max MIN_SEND_BUF_LENGTH
              (Z.min MAX_SEND_BUF_LENGTH (u32 (len (sendBuf ss) + n))))
       else Ok (sendBuf ss));
  let room := swrap 32 (space b - len b) in
  i ← (if negb suppressHash &&
          (negb (firstHsDone ss) || (version ss <? SSL_LIBRARY_VERSION_TLS_1_3)) then
         d ← mem_read src 0 (Z.to_nat n);
         ssl3_UpdateHandshakeHashes (io ss) d
       else Ok (io ss));
  append_chunks (Datatypes.S (Z.to_nat n)) (with_sendBuf ss b i) src n room.

Definition ssl3_AppendHandshakeSuppressHash (ss : sslSocket S) (src : list Z) (n : Z) :=
  ssl3_AppendHandshakeInternal ss src n true.

Definition ssl3_AppendHandshake (ss : sslSocket S) (src : list Z) (n : Z) :=
  ssl3_AppendHandshakeInternal ss src n false.

Definition ssl3_AppendHandshakeNumberSuppressHash (ss : sslSocket S) (num lenSize : Z)
    (suppressHash : bool) : sec_res (sslSocket S) :=
  if (lenSize >? 8) || ((lenSize <? 8) && (num >=? 2 ^ (8 * lenSize)))
  then Err SEC_ERROR_INVALID_ARGS
  else b ← ssl_EncodeUintX num lenSize;
       ssl3_AppendHandshakeInternal ss b lenSize suppressHash.

Definition ssl3_AppendHandshakeNumber (ss : sslSocket S) (num lenSize : Z) :=
  ssl3_AppendHandshakeNumberSuppressHash ss num lenSize false.

Definition ssl3_AppendHandshakeVariable (ss : sslSocket S) (src : list Z) (n lenSize : Z)
    : sec_res (sslSocket S) :=
  ss ← ssl3_AppendHandshakeNumber ss n lenSize;
  ssl3_AppendHandshake ss src n.

Definition ssl3_AppendBufferToHandshake (ss : sslSocket S) (b : sslBuffer) :=
  ssl3_AppendHandshake ss (storage b) (len b).

Definition ssl3_AppendBufferToHandshakeVariable (ss : sslSocket S) (b : sslBuffer) (lenSize : Z) :=
  ssl3_AppendHandshakeVariable ss (storage b) (len b) lenSize.

(** A saved DTLS ClientHello enters the transcript without its message_seq,
    fragment_offset and fragment_length fields (octets 4 to 11) when DTLS 1.3
    is in use. *)
Definition ssl3_MaybeUpdateHashWithSavedRecord (ss : sslSocket S) : sec_res (sslSocket S) :=
  let saved := dtls13ClientMessageBuffer ss in
  if len saved =? 0 then Ok ss else
  '(i, off) ←
    (if (version ss =? cwSpec_version ss) || zeroRttState_sent ss then
       if len saved <? 12 then Err SEC_ERROR_INVALID_ARGS else
       d ← mem_read (storage saved) 0 4;
       i ← ssl3_UpdateHandshakeHashes (io ss) d;
       Ok (i, 12)
     else Ok (io ss, 0));
  d ← mem_read (storage saved) (Z.to_nat off) (Z.to_nat (len saved - off));
  i ← ssl3_UpdateHandshakeHashes i d;
  Ok (mk_sslSocket (sendBuf ss) (firstHsDone ss) (version ss)
        (set_len (sslBuffer_Clear saved) 0) (cwSpec_version ss) (zeroRttState_sent ss) i).

(** ** Correctness *)

(** The octets a socket has sent or still holds back. *)
Definition stream (ss : sslSocket S) : list Z := sent (io ss) ++ contents (sendBuf ss).

(** Whether appended octets are hashed. *)
Definition hashes (ss : sslSocket S) (suppressHash : bool) : bool :=
  negb suppressHash && (negb (firstHsDone ss) || (version ss <? SSL_LIBRARY_VERSION_TLS_1_3)).

(** The send buffer is heap storage. *)
Definition sendBuf_wf (ss : sslSocket S) : Prop := wf (sendBuf ss) ∧ fixed (sendBuf ss) = false.

Lemma heap_room b : wf b → fixed b = false → 0 ≤ space b - len b ∧ space b ≤ 2147483647.
Proof. intros [? ? ? ? ? Hh] Hf. destruct (Hh Hf) as [? Hm]. rewrite MAX_SIZE_val in Hm. lia. Qed.

Lemma set_len_0_wf b : wf b → wf (set_len b 0) ∧ contents (set_len b 0) = [].
Proof.
  intros []. split; [|done]. constructor; simpl; try done. change (u32 0) with 0.
  unfold storage. simpl. lia.
Qed.

(** Storing [chunk] (possibly empty) behind the bytes in use. *)
Lemma store_chunk b chunk :
  wf b → bytes chunk → len b + length chunk ≤ space b →
  ∃ b', (if 0 <? length chunk then buffer_store b (len b) chunk else Ok b) = Ok b' ∧
    len b' = len b ∧ space b' = space b ∧ fixed b' = fixed b ∧
    wf (set_len b' (len b + length chunk)) ∧
    contents (set_len b' (len b + length chunk)) = contents b ++ chunk.
Proof.
  intros Hwf Hb Hroom. destruct (Z.ltb_spec 0 (length chunk)) as [Hpos|Hz].
  - apply buffer_store_next; try done. intros ->. simpl in *. lia.
  - assert (chunk = []) as -> by (apply nil_length_inv; lia). exists b. simpl.
    rewrite set_len_id, app_nil_r by done. done.
Qed.

(** What every run of the append loop must satisfy. *)
Definition appended (ss : sslSocket S) (data : list Z) (r : sec_res (sslSocket S)) : Prop :=
  match r with
  | Ok ss' => sendBuf_wf ss' ∧ stream ss' = stream ss ++ data ∧ hashed (io ss') = hashed (io ss)
  | Err _ => True
  | UB => False
  end.

Lemma append_chunks_last fuel ss src n room :
  sendBuf_wf ss → bytes src → 0 < n ≤ length src →
  room = space (sendBuf ss) - len (sendBuf ss) → n ≤ room →
  appended ss (take (Z.to_nat n) src) (append_chunks (Datatypes.S fuel) ss src n room).
Proof.
  intros [Hwf Hf] Hb Hn Hroom Hle. pose proof (heap_room _ Hwf Hf). pose proof (wf_len _ Hwf).
  cbn [append_chunks]. rewrite wrap_small by lia. destruct (Z.gtb_spec n room); [lia|].
  unfold mem_read. rewrite decide_True by lia. cbn [mbind res_bind]. rewrite drop_0.
  set (chunk := take _ src).
  assert (Hc : n = length chunk) by (unfold chunk; rewrite length_take; lia).
  destruct (buffer_store_next (sendBuf ss) chunk) as (b & -> & Hl & Hs & Hfx & Hw & Hcc);
    [done|by apply Forall_take|intros Heq; rewrite Heq in Hc; simpl in Hc; lia|lia|].
  cbn [mbind res_bind]. rewrite Hl, Hc. unfold appended, stream, sendBuf_wf. simpl.
  split_and!; [done|congruence| |done]. by rewrite Hcc, app_assoc.
Qed.

(** One turn of the loop: fill the buffer, flush it. *)
Lemma append_chunks_turn fuel ss src n room :
  sendBuf_wf ss → bytes src → n ≤ length src → n < 2 ^ 32 →
  room = space (sendBuf ss) - len (sendBuf ss) → room < n →
  (∀ i b, wf b → fixed b = false → len b = 0 → space b = space (sendBuf ss) →
     let ss' := with_sendBuf ss b i in
     appended ss' (take (Z.to_nat (n - room)) (drop (Z.to_nat room) src))
       (append_chunks fuel ss' (drop (Z.to_nat room) src) (n - room) (space b))) →
  appended ss (take (Z.to_nat n) src) (append_chunks (Datatypes.S fuel) ss src n room).
Proof.
  intros [Hwf Hf] Hb Hn Hn32 Hroom Hlt IH.
  pose proof (heap_room _ Hwf Hf). pose proof (wf_len _ Hwf).
  cbn [append_chunks]. rewrite wrap_small by lia. destruct (Z.gtb_spec n room); [|lia].
  unfold mem_read. rewrite decide_True by lia. cbn [mbind res_bind]. rewrite drop_0.
  set (chunk := take (Z.to_nat room) src).
  assert (Hc : room = length chunk) by (unfold chunk; rewrite length_take; lia).
  destruct (store_chunk (sendBuf ss) chunk) as (b & Hst & Hl & Hs & Hfx & Hw & Hcc);
    [done|by apply Forall_take|lia|].
  rewrite Hc, Hst. cbn [mbind res_bind]. rewrite Hl.
  destruct (ssl3_FlushHandshake _ _) as [[i b']|e|] eqn:HF; cbn [mbind res_bind];
    [|done|by apply flush_no_UB in HF].
  apply flush_sends in HF as (Hsent & Hhash & ->).
  destruct (set_len_0_wf _ Hw) as [Hw0 Hc0]. simpl in Hs.
  specialize (IH i (set_len (set_len b (len (sendBuf ss) + length chunk)) 0)
    Hw0 ltac:(simpl; congruence) eq_refl Hs).
  rewrite <- Hc. rewrite wrap_small, swrap_small by (simpl; lia).
  simpl space at 1. simpl space in IH. cbn zeta in IH.
  destruct (append_chunks _ _ _ _ _) as [ss'| |]; [|done|done].
  destruct IH as (Hwf' & Hstr & Hha). split_and!; [done| |].
  - rewrite Hstr. unfold stream. simpl io. simpl sendBuf. rewrite Hc0, app_nil_r, Hsent, Hcc.
    rewrite <- !app_assoc. do 2 f_equal. unfold chunk. rewrite take_take_drop. f_equal. lia.
  - rewrite Hha. simpl. done.
Qed.

Lemma append_chunks_room fuel ss src n room :
  sendBuf_wf ss → bytes src → 0 < n ≤ length src → n < 2 ^ 32 → (Z.to_nat n ≤ fuel)%nat →
  room = space (sendBuf ss) - len (sendBuf ss) → 0 < room →
  appended ss (take (Z.to_nat n) src) (append_chunks fuel ss src n room).
Proof.
  revert ss src n room. induction fuel as [|fuel IH]; intros ss src n room Hwf Hb Hn Hn32 Hfuel Hr Hpos.
  { lia. }
  destruct (decide (n ≤ room)) as [Hle|Hgt].
  { by apply append_chunks_last. }
  pose proof (wf_len _ (proj1 Hwf)).
  apply append_chunks_turn; try done; try lia.
  intros i b Hwb Hfb Hlb Hsb ss'. apply IH; try done; try lia.
  - by apply Forall_drop.
  - rewrite length_drop. lia.
  - simpl. lia.
Qed.

Lemma append_chunks_spec ss src n :
  sendBuf_wf ss → bytes src → 0 < n ≤ length src → n < 2 ^ 32 → 0 < space (sendBuf ss) →
  appended ss (take (Z.to_nat n) src)
    (append_chunks (Datatypes.S (Z.to_nat n)) ss src n (space (sendBuf ss) - len (sendBuf ss))).
Proof.
  intros Hwf Hb Hn Hn32 Hsp. pose proof (heap_room _ (proj1 Hwf) (proj2 Hwf)).
  destruct (decide (0 < space (sendBuf ss) - len (sendBuf ss))) as [Hpos|Hz].
  { apply append_chunks_room; try done. lia. }
  apply append_chunks_turn; try done; try lia.
  intros i b Hwb Hfb Hlb Hsb ss'.
  replace (space (sendBuf ss) - len (sendBuf ss)) with 0 by lia.
  rewrite Z.sub_0_r, drop_0. apply append_chunks_room; try done; simpl; lia.
Qed.

(** Growing the send buffer before the loop. *)
Lemma presize_spec ss n :
  sendBuf_wf ss → 0 < n < 2 ^ 32 →
  match (if (space (sendBuf ss) <? MAX_SEND_BUF_LENGTH) &&
            (u32 (swrap 32 (space (sendBuf ss) - len (sendBuf ss))) <? n) then
         sslBuffer_Grow (sendBuf ss)
           (Z.max MIN_SEND_BUF_LENGTH
              (Z.min MAX_SEND_BUF_LENGTH (u32 (len (sendBuf ss) + n))))
       else Ok (sendBuf ss)) with
  | Ok b => wf b ∧ fixed b = false ∧ contents b = contents (sendBuf ss) ∧ 0 < space b
  | Err _ => True
  | UB => False
  end.
Proof.
  intros [Hwf Hf] Hn. pose proof (heap_room _ Hwf Hf). pose proof (wf_len _ Hwf).
  rewrite swrap_small, wrap_small by lia. unfold MAX_SEND_BUF_LENGTH, MIN_SEND_BUF_LENGTH.
  destruct (Z.ltb_spec (space (sendBuf ss)) 32000); simpl; [|split_and!; done || lia].
  destruct (Z.ltb_spec (space (sendBuf ss) - len (sendBuf ss)) n); [|split_and!; done || lia].
  set (m := Z.max _ _).
  pose proof (sslBuffer_Grow_spec (sendBuf ss) m Hwf ltac:(lia)) as HG.
  destruct (sslBuffer_Grow _ _); [|done|done]. destruct HG as (? & ? & ? & ? & ? & ?).
  split_and!; [done|congruence|done|lia].
Qed.

(** Appending handshake octets: nothing is lost, duplicated or reordered
    however often the buffer is flushed, and the transcript grows by exactly
    the appended octets. *)
Lemma ssl3_AppendHandshakeInternal_spec ss src n sup :
  sendBuf_wf ss → bytes src → 0 ≤ n ≤ length src → n < 2 ^ 32 →
  match ssl3_AppendHandshakeInternal ss src n sup with
  | Ok ss' => sendBuf_wf ss' ∧ stream ss' = stream ss ++ take (Z.to_nat n) src ∧
      hashed (io ss') = hashed (io ss) ++ (if hashes ss sup then take (Z.to_nat n) src else [])
  | Err _ => True
  | UB => False
  end.
Proof.
  intros Hwf Hb Hn Hn32. unfold ssl3_AppendHandshakeInternal.
  destruct (Z.eqb_spec n 0) as [->|Hnz].
  { simpl. split_and!; [done|by rewrite app_nil_r|]. case_match; by rewrite app_nil_r. }
  pose proof (presize_spec ss n Hwf ltac:(lia)) as HP.
  destruct (if (_ && _) then sslBuffer_Grow _ _ else _) as [b|e|]; cbn [mbind res_bind]; [|done|done].
  destruct HP as (Hwb & Hfb & Hcb & Hsb). pose proof (heap_room _ Hwb Hfb). pose proof (wf_len _ Hwb).
  rewrite swrap_small by lia. fold (hashes ss sup).
  unfold mem_read. rewrite decide_True by lia. cbn [mbind res_bind]. rewrite drop_0.
  set (data := take (Z.to_nat n) src).
  assert (HH : ∀ i, hashed i = hashed (io ss) ++ (if hashes ss sup then data else []) →
            sent i = sent (io ss) →
            match append_chunks (Datatypes.S (Z.to_nat n)) (with_sendBuf ss b i) src n (space b - len b) with
            | Ok ss' => sendBuf_wf ss' ∧ stream ss' = stream ss ++ data ∧
                hashed (io ss') = hashed (io ss) ++ (if hashes ss sup then data else [])
            | Err _ => True | UB => False end).
  { intros i Hhi Hsi.
    pose proof (append_chunks_spec (with_sendBuf ss b i) src n
      (conj Hwb Hfb) Hb ltac:(lia) Hn32 Hsb) as HA. fold data in HA.
    change (sendBuf (with_sendBuf ss b i)) with b in HA.
    destruct (append_chunks _ _ _ _ _); [|done|done]. destruct HA as (? & Hst & Hha).
    split_and!; [done| |by rewrite Hha]. rewrite Hst. unfold stream. simpl.
    by rewrite Hsi, Hcb. }
  destruct (hashes ss sup) eqn:Hh.
  - destruct (ssl3_UpdateHandshakeHashes _ _) as [i| |] eqn:HU; cbn [mbind res_bind];
      [|done|by apply update_no_UB in HU].
    apply update_extends in HU as [Hhi Hsi]. by apply HH.
  - cbn [mbind res_bind]. apply HH; [by rewrite app_nil_r|done].
Qed.

(** The number path only refuses numbers that do not fit. *)
Lemma ssl3_AppendHandshakeNumber_spec ss num lenSize sup :
  0 ≤ lenSize ≤ 8 → 0 ≤ num < 256 ^ lenSize →
  ssl3_AppendHandshakeNumberSuppressHash ss num lenSize sup =
    ssl3_AppendHandshakeInternal ss (be_bytes (Z.to_nat lenSize) num) lenSize sup.
Proof.
  intros Hl Hn. unfold ssl3_AppendHandshakeNumberSuppressHash. rewrite pow_8_256 by lia.
  destruct (Z.gtb_spec lenSize 8), (Z.ltb_spec lenSize 8), (Z.geb_spec num (256 ^ lenSize));
    try lia; simpl; by rewrite ssl_EncodeUintX_be by lia.
Qed.

(** Appending never changes the negotiation fields. *)
Lemma append_chunks_keeps fuel ss src n room ss' :
  append_chunks fuel ss src n room = Ok ss' →
  firstHsDone ss' = firstHsDone ss ∧ version ss' = version ss.
Proof.
  revert ss src n room. induction fuel as [|fuel IH]; intros ss src n room; [done|].
  cbn [append_chunks]. case_match.
  - intros (b & _ & HF)%bind_Ok. apply bind_Ok in HF as ([i b'] & _ & HF).
    apply IH in HF. by simpl in HF.
  - intros (c & _ & HF)%bind_Ok. apply bind_Ok in HF as (b & _ & HF). by simplify_eq.
Qed.

Lemma AppendHandshakeInternal_keeps ss src n sup ss' :
  ssl3_AppendHandshakeInternal ss src n sup = Ok ss' →
  firstHsDone ss' = firstHsDone ss ∧ version ss' = version ss.
Proof.
  unfold ssl3_AppendHandshakeInternal. case_match; [naive_solver|].
  intros (b & _ & HF)%bind_Ok. apply bind_Ok in HF as (i & _ & HF).
  apply append_chunks_keeps in HF. by simpl in HF.
Qed.

(** The saved ClientHello is hashed without octets 4 to 11. *)
Lemma ssl3_MaybeUpdateHashWithSavedRecord_spec ss :
  wf (dtls13ClientMessageBuffer ss) →
  let saved := contents (dtls13ClientMessageBuffer ss) in
  let strip := (version ss =? cwSpec_version ss) || zeroRttState_sent ss in
  match ssl3_MaybeUpdateHashWithSavedRecord ss with
  | Ok ss' => len (dtls13ClientMessageBuffer ss') = 0 ∧
      hashed (io ss') = hashed (io ss) ++
        (if strip then take 4 saved ++ drop 12 saved else saved)
  | Err _ => True
  | UB => False
  end.
Proof.
  intros Hwf saved strip. pose proof (length_contents _ Hwf) as Hlc. fold saved in Hlc.
  pose proof Hwf as [Hl _ _ Hlf _ _]. unfold ssl3_MaybeUpdateHashWithSavedRecord.
  assert (Hsv : ∀ o n, (o + n ≤ length saved)%nat →
    mem_read (E:=SECErrorCode) (storage (dtls13ClientMessageBuffer ss)) o n = Ok (take n (drop o saved))).
  { intros o n Hon. unfold mem_read. rewrite decide_True by lia. f_equal.
    unfold saved, contents. rewrite skipn_firstn_comm, take_take. f_equal. lia. }
  destruct (Z.eqb_spec (len (dtls13ClientMessageBuffer ss)) 0) as [Hz|Hnz].
  { split; [done|]. assert (saved = []) as -> by (apply nil_length_inv; lia).
    destruct strip; by rewrite ?app_nil_r. }
  fold strip. destruct strip.
  - destruct (Z.ltb_spec (len (dtls13ClientMessageBuffer ss)) 12); [done|].
    rewrite (Hsv 0%nat 4%nat) by lia. cbn [mbind res_bind]. rewrite drop_0.
    destruct (ssl3_UpdateHandshakeHashes (io ss) _) as [i| |] eqn:HU; cbn [mbind res_bind];
      [|done|by apply update_no_UB in HU].
    apply update_extends in HU as [HU _]. rewrite Hsv by lia. cbn [mbind res_bind].
    destruct (ssl3_UpdateHandshakeHashes i _) as [i2| |] eqn:HU2; cbn [mbind res_bind];
      [|done|by apply update_no_UB in HU2].
    apply update_extends in HU2 as [HU2 _]. split; [done|]. simpl io.
    rewrite HU2, HU, <- app_assoc. rewrite (take_ge (drop _ _)) by (rewrite length_drop; lia).
    done.
  - cbn [mbind res_bind]. rewrite Hsv by lia. cbn [mbind res_bind].
    destruct (ssl3_UpdateHandshakeHashes _ _) as [i| |] eqn:HU; cbn [mbind res_bind];
      [|done|by apply update_no_UB in HU].
    apply update_extends in HU as [HU _]. split; [done|]. simpl io. rewrite HU.
    by rewrite drop_0, (take_ge saved) by lia.
Qed.

End Handshake.

(** A record layer that only logs what it is given. *)
#[global] Instance log_io : HandshakeIO (list Z * list Z).
Proof.
  refine {| ssl3_UpdateHandshakeHashes s d := Ok (s.1 ++ d, s.2);
            ssl3_FlushHandshake s b := Ok ((s.1, s.2 ++ contents b), set_len b 0);
            hashed s := s.1; sent s := s.2 |}; naive_solver.
Defined.

(** ** Properties *)

(** [C4] Appending a handshake vector (its length field, then its data): the
    octets sent plus the octets still buffered grow by exactly the encoding of
    the vector, however often the send buffer is flushed on the way; the
    transcript hash grows by the same octets, or by none once TLS 1.3 has
    finished its first handshake; the send buffer stays well-formed; the loop
    that spills the buffer terminates and never writes outside it. *)
Theorem AppendHandshakeVariable_correct `{NSPRHeap} {S} `{HandshakeIO S}
    (ss : sslSocket S) data lenSize :
  sendBuf_wf ss → bytes data → 1 ≤ lenSize ≤ 3 → length data < 256 ^ lenSize →
  let enc := be_bytes (Z.to_nat lenSize) (length data) ++ data in
  match ssl3_AppendHandshakeVariable ss data (length data) lenSize with
  | Ok ss' => sendBuf_wf ss' ∧ stream ss' = stream ss ++ enc ∧
      hashed (io ss') = hashed (io ss) ++ (if hashes ss false then enc else [])
  | Err _ => True
  | UB => False
  end.
Proof.
  intros Hwf Hd Hsz Hfit enc. unfold ssl3_AppendHandshakeVariable, ssl3_AppendHandshakeNumber.
  rewrite ssl3_AppendHandshakeNumber_spec by (done || lia).
  assert (256 ^ lenSize ≤ 256 ^ 3) by (apply Z.pow_le_mono_r; lia).
  set (e := be_bytes (Z.to_nat lenSize) (length data)) in *.
  assert (He : lenSize = length e) by (unfold e; rewrite length_be_bytes; lia).
  pose proof (ssl3_AppendHandshakeInternal_spec ss e lenSize false Hwf
    (be_bytes_bytes _ _) ltac:(lia) ltac:(lia)) as HI1.
  pose proof (AppendHandshakeInternal_keeps ss e lenSize false) as HK.
  destruct (ssl3_AppendHandshakeInternal ss e lenSize false) as [ss1| |]; simpl; [|done|done].
  destruct HI1 as (Hwf1 & Hs1 & Hh1). rewrite take_ge in Hs1, Hh1 by lia.
  pose proof (ssl3_AppendHandshakeInternal_spec ss1 data (length data) false Hwf1
    Hd ltac:(lia) ltac:(lia)) as HI2.
  unfold ssl3_AppendHandshake.
  destruct (ssl3_AppendHandshakeInternal ss1 data _ false) as [ss2| |]; [|done|done].
  destruct HI2 as (Hwf2 & Hs2 & Hh2). rewrite Nat2Z.id, take_ge in Hs2, Hh2 by lia.
  assert (Hsame : hashes ss1 false = hashes ss false).
  { destruct (HK ss1 eq_refl) as [Hf Hv]. unfold hashes. by rewrite Hf, Hv. }
  split_and!; [done|by rewrite Hs2, Hs1, <- app_assoc|].
  rewrite Hh2, Hh1, Hsame, <- app_assoc. by destruct (hashes ss false).
Qed.

Definition idle_socket : sslSocket (list Z * list Z) :=
  mk_sslSocket SSL_BUFFER_EMPTY false 0x0303 SSL_BUFFER_EMPTY 0x0303 false ([], []).

Lemma AppendHandshakeVariable_correct_witness :
  match ssl3_AppendHandshakeVariable idle_socket [1; 2; 3] 3 1 with
  | Ok ss' => sendBuf_wf ss' ∧ stream ss' = stream idle_socket ++ [3; 1; 2; 3] ∧
      hashed (io ss') = hashed (io idle_socket) ++ [3; 1; 2; 3]
  | Err _ => True
  | UB => False
  end.
Proof.
  apply (AppendHandshakeVariable_correct idle_socket [1; 2; 3] 1).
  - split; [apply SSL_BUFFER_EMPTY_wf|reflexivity].
  - repeat constructor; done.
  - lia.
  - reflexivity.
Defined.
