(* ===== verification/DtlsWindow.v ===== *)
(** lib/ssl/dtlscon.c: DTLS record sequence numbers.

    The anti-replay window (dtls_InitRecvdRecords, dtls_RecordGetRecvd,
    dtls_RecordSetRecvd) is a ring of 1024 bits over the sequence numbers
    [left .. right]; dtls_ReadEpoch and dtls_ReadSequenceNumber recover the
    epoch and sequence number from a record header.  The window is shown to
    refine a set of received sequence numbers. *)

From stdpp Require Import base numbers list gmap.
From S2P Require Import Prelude SslEncode.

Definition DTLS_RECVD_RECORDS_WINDOW : Z := 1024.
Definition RECORD_SEQ_MAX : Z := 2 ^ 48 - 1.

Record DTLSRecvdRecords := mk_DTLSRecvdRecords {
  data : list Z;
  left : Z;
  right : Z;
}.

Definition dtls_InitRecvdRecords : DTLSRecvdRecords :=
  mk_DTLSRecvdRecords (replicate 128 0) 0 (DTLS_RECVD_RECORDS_WINDOW - 1).

Definition dtls_RecordGetRecvd (records : DTLSRecvdRecords) (seq : Z) : Z :=
  if seq <? left records then -1
  else if seq >? right records then 0
  else
    let offset := seq mod DTLS_RECVD_RECORDS_WINDOW in
    if Z.land (data records !!! Z.to_nat (offset / 8)) (Z.shiftl 1 (offset mod 8)) =? 0
    then 0 else 1.

(** [for (right = records->right + 8; right <= new_right; right += 8)]: the
    window holds 128 octets, which bounds the number of turns. *)
Fixpoint clear_octets (fuel : nat) (right new_right : Z) (d : list Z) : list Z :=
  match fuel with
  | O => d
  | S fuel =>
      if right <=? new_right then
        let offset := right mod DTLS_RECVD_RECORDS_WINDOW in
        clear_octets fuel (u64 (right + 8)) new_right (<[Z.to_nat (offset / 8) := 0]> d)
      else d
  end.

Definition dtls_RecordSetRecvd (records : DTLSRecvdRecords) (seq : Z) : DTLSRecvdRecords :=
  if seq <? left records then records
  else
    let records :=
      if seq >? right records then
        let new_right := Z.lor seq 0x07 in
        let new_left := u64 (u64 (new_right - DTLS_RECVD_RECORDS_WINDOW) + 1) in
        let d :=
          if new_right >? u64 (right records + DTLS_RECVD_RECORDS_WINDOW)
          then replicate 128 0
          else clear_octets 129 (u64 (right records + 8)) new_right (data records) in
        mk_DTLSRecvdRecords d new_left new_right
      else records in
    let offset := seq mod DTLS_RECVD_RECORDS_WINDOW in
    let i := Z.to_nat (offset / 8) in
    mk_DTLSRecvdRecords
      (<[i := u8 (Z.lor (data records !!! i) (Z.shiftl 1 (offset mod 8)))]> (data records))
      (left records) (right records).

(** ** Header decoding *)

Definition ssl_ct_change_cipher_spec : Z := 20.
Definition ssl_ct_alert : Z := 21.
Definition ssl_ct_handshake : Z := 22.
Definition ssl_ct_ack : Z := 26.
Definition SSL_LIBRARY_VERSION_TLS_1_3 : Z := 0x0304.

Definition dtls_IsLongHeader (version firstOctet : Z) : bool :=
  (version <? SSL_LIBRARY_VERSION_TLS_1_3) || (firstOctet =? ssl_ct_handshake)
  || (firstOctet =? ssl_ct_ack) || (firstOctet =? ssl_ct_alert).

Definition dtls_IsDtls13Ciphertext (version firstOctet : Z) : bool :=
  ((version =? 0) || (version >=? SSL_LIBRARY_VERSION_TLS_1_3))
  && (Z.land firstOctet 0xe0 =? 0x20).

(** The epoch is a 16-bit integer. *)
Definition dtls_ReadEpoch (version specEpoch : Z) (hdr : list Z) : Z :=
  if dtls_IsLongHeader version (hdr !!! 0%nat)
  then u16 (Z.lor (Z.shiftl (hdr !!! 3%nat) 8) (hdr !!! 4%nat))
  else
    let epoch := u16 (Z.lor (Z.land specEpoch (Z.lnot 3)) (Z.land (hdr !!! 0%nat) 3)) in
    if (epoch >? specEpoch) && (epoch >? 4) then u16 (epoch - 4) else epoch.

Definition dtls_ReadSequenceNumber (version nextSeqNum : Z) (hdr : list Z) : sec_res Z :=
  if dtls_IsLongHeader version (hdr !!! 0%nat) then
    '(_, seqNum) ← sslRead_ReadNumber (Some (SSL_READER (drop 5 hdr) 6)) 6 (Some tt);
    Ok seqNum
  else
    let '(cap, partial, mask) :=
      if negb (Z.land (hdr !!! 0%nat) 0x08 =? 0) then
        (u64 (nextSeqNum + 2 ^ 15),
         Z.lor (Z.shiftl (hdr !!! 1%nat) 8) (hdr !!! 2%nat), 2 ^ 16 - 1)
      else
        (u64 (nextSeqNum + 2 ^ 7), hdr !!! 1%nat, 2 ^ 8 - 1) in
    let seqNum := Z.lor (Z.land cap (Z.lnot mask)) partial in
    if (partial >? Z.land cap mask) && (seqNum >? mask)
    then Ok (u64 (seqNum - (mask + 1)))
    else Ok seqNum.

(** dtls_IsRelevant: the sequence number of a record the window lets through. *)
Definition dtls_IsRelevant (version nextSeqNum : Z) (records : DTLSRecvdRecords) (hdr : list Z)
    : sec_res (option Z) :=
  seqNum ← dtls_ReadSequenceNumber version nextSeqNum hdr;
  if negb (dtls_RecordGetRecvd records seqNum =? 0) then Ok None else Ok (Some seqNum).

(** The fields of ssl3CipherSpec that reading a DTLS record uses. *)
Record readSpec := mk_readSpec {
  rs_version : Z;
  nextSeqNum : Z;
  recvdRecords : DTLSRecvdRecords;
  max_records : Z;
}.

(** The sequence-number part of ssl3_HandleRecord: drop what the window
    rejects, refuse sequence numbers past the cipher's limit, drop what does
    not authenticate, then record what was delivered.  [unprotect] is whether
    the record authenticates under the sequence number. *)
Inductive record_outcome := Delivered (seq : Z) | Dropped | TooManyRecords.

Definition ssl3_HandleRecord_seq (spec : readSpec) (hdr : list Z) (unprotect : Z → bool)
    : sec_res (readSpec * record_outcome) :=
  rel ← dtls_IsRelevant (rs_version spec) (nextSeqNum spec) (recvdRecords spec) hdr;
  match rel with
  | None => Ok (spec, Dropped)
  | Some seqNum =>
      if seqNum >=? max_records spec then Ok (spec, TooManyRecords)
      else if negb (unprotect seqNum) then Ok (spec, Dropped)
      else Ok (mk_readSpec (rs_version spec) (Z.max (nextSeqNum spec) (u64 (seqNum + 1)))
                 (dtls_RecordSetRecvd (recvdRecords spec) seqNum) (max_records spec),
               Delivered seqNum)
  end.

(** A run over the records of a connection, with the sequence numbers it
    delivers. *)
Fixpoint read_records (spec : readSpec) (rs : list (list Z * (Z → bool))) : sec_res (readSpec * list Z) :=
  match rs with
  | [] => Ok (spec, [])
  | (hdr, unprotect) :: rs =>
      '(spec, o) ← ssl3_HandleRecord_seq spec hdr unprotect;
      '(spec, l) ← read_records spec rs;
      Ok (spec, match o with Delivered s => s :: l | _ => l end)
  end.

(** ** The window as a set of sequence numbers *)

Definition seen (d : list Z) (seq : Z) : bool :=
  Z.testbit (d !!! Z.to_nat (seq mod 1024 / 8)) (seq mod 1024 mod 8).

(** [R] is the set of sequence numbers recorded so far. *)
Record window_inv (r : DTLSRecvdRecords) (R : gset Z) : Prop := mk_window_inv {
  inv_len : length (data r) = 128%nat;
  inv_bytes : bytes (data r);
  inv_right : right r mod 8 = 7;
  inv_left : left r = right r - 1023;
  inv_range : 0 ≤ left r ∧ right r ≤ RECORD_SEQ_MAX;
  inv_seen s : left r ≤ s ≤ right r → seen (data r) s = bool_decide (s ∈ R);
  inv_upper s : s ∈ R → s ≤ right r;
}.

Lemma seen_index s : (Z.to_nat (s mod 1024 / 8) < 128)%nat.
Proof. pose proof (Z.mod_pos_bound s 1024). pose proof (Z.div_lt_upper_bound (s mod 1024) 8 128). lia. Qed.

Lemma dtls_RecordGetRecvd_seen r s :
  dtls_RecordGetRecvd r s =
    if s <? left r then -1 else if s >? right r then 0 else Z.b2z (seen (data r) s).
Proof.
  unfold dtls_RecordGetRecvd, DTLS_RECVD_RECORDS_WINDOW, seen.
  do 2 (case_match; [done|]). rewrite land_bit_zero by (apply Z.mod_pos_bound; lia).
  by destruct (Z.testbit _ _).
Qed.

(** Setting and clearing ring entries. *)
Lemma seen_set d s s' :
  length d = 128%nat → bytes d →
  seen (<[Z.to_nat (s mod 1024 / 8) :=
          u8 (Z.lor (d !!! Z.to_nat (s mod 1024 / 8)) (Z.shiftl 1 (s mod 1024 mod 8)))]> d) s'
  = (bool_decide (s mod 1024 = s' mod 1024) || seen d s').
Proof.
  intros Hlen Hb. unfold seen.
  pose proof (seen_index s). pose proof (seen_index s').
  pose proof (Z.mod_pos_bound s 1024 ltac:(lia)). pose proof (Z.mod_pos_bound s' 1024 ltac:(lia)).
  pose proof (Z.mod_pos_bound (s mod 1024) 8 ltac:(lia)).
  pose proof (Z.mod_pos_bound (s' mod 1024) 8 ltac:(lia)).
  pose proof (Z.div_mod (s mod 1024) 8 ltac:(lia)). pose proof (Z.div_mod (s' mod 1024) 8 ltac:(lia)).
  destruct (decide (Z.to_nat (s mod 1024 / 8) = Z.to_nat (s' mod 1024 / 8))) as [Heq|Hne].
  - rewrite <- Heq, list_lookup_total_insert_eq by lia.
    unfold wrap. rewrite Z.mod_pow2_bits_low, Z.lor_spec, Z.shiftl_1_l by lia.
    rewrite Z.pow2_bits_eqb by lia. rewrite orb_comm. f_equal.
    apply Bool.eq_iff_eq_true. rewrite Z.eqb_eq, bool_decide_eq_true. lia.
  - rewrite list_lookup_total_insert_ne by done.
    rewrite bool_decide_eq_false_2; [done|]. intros Heq. by rewrite Heq in Hne.
Qed.

Lemma octet_index s : s mod 1024 / 8 = (s / 8) mod 128.
Proof.
  replace 1024 with (8 * 128) by lia. rewrite Z.rem_mul_r by lia.
  rewrite Z.mul_comm, Z.div_add by lia. rewrite Z.div_small; [lia|]. apply Z.mod_pos_bound. lia.
Qed.

(** Clearing the octet of [q] clears [s] exactly when both lie in the same
    group of eight; inside one aligned window groups do not alias. *)
Lemma seen_clear d q s lo :
  length d = 128%nat → lo mod 8 = 0 → lo ≤ q < lo + 1024 → lo ≤ s < lo + 1024 →
  seen (<[Z.to_nat (q mod 1024 / 8) := 0]> d) s = (negb (q / 8 =? s / 8) && seen d s).
Proof.
  intros Hlen Hlo Hq Hs. unfold seen. pose proof (seen_index q). pose proof (seen_index s).
  assert (Hoct : Z.to_nat (q mod 1024 / 8) = Z.to_nat (s mod 1024 / 8) ↔ q / 8 = s / 8).
  { rewrite !octet_index. pose proof (Z.mod_pos_bound (q / 8) 128 ltac:(lia)).
    pose proof (Z.mod_pos_bound (s / 8) 128 ltac:(lia)). split; [|by intros ->].
    intros Heq. Z.to_euclidean_division_equations. lia. }
  destruct (Z.eqb_spec (q / 8) (s / 8)) as [Heq|Hne]; simpl.
  - rewrite (proj2 Hoct Heq), list_lookup_total_insert_eq by lia. apply Z.bits_0.
  - rewrite list_lookup_total_insert_ne; [done|]. tauto.
Qed.

Lemma clear_octets_length fuel q nr d : length (clear_octets fuel q nr d) = length d.
Proof.
  revert q d. induction fuel as [|fuel IH]; intros q d; [done|]. cbn [clear_octets].
  case_match; [|done]. by rewrite IH, length_insert.
Qed.

Lemma clear_octets_bytes fuel q nr d : bytes d → bytes (clear_octets fuel q nr d).
Proof.
  revert q d. induction fuel as [|fuel IH]; intros q d Hd; [done|]. cbn [clear_octets].
  case_match; [|done]. apply IH, Forall_insert; [done|]. unfold is_byte. lia.
Qed.

(** The loop clears exactly the part of the new window right of the old one. *)
Lemma clear_octets_seen fuel q nr d s :
  length d = 128%nat → q mod 8 = 7 → nr mod 8 = 7 → nr - 1023 ≤ q - 7 → q ≤ nr + 8 →
  nr < 2 ^ 63 → 0 ≤ q → nr - q < 8 * Z.of_nat fuel → nr - 1023 ≤ s ≤ nr →
  seen (clear_octets fuel q nr d) s = ((s <? q - 7) && seen d s).
Proof.
  revert q d. induction fuel as [|fuel IH]; intros q d Hlen Hq Hnr Hlo Hhi Hmax Hpos Hf Hs.
  { cbn [clear_octets]. destruct (Z.ltb_spec s (q - 7)); [done|].
    Z.to_euclidean_division_equations. lia. }
  cbn [clear_octets]. destruct (Z.leb_spec q nr).
  - assert (q ≤ nr) by done.
    rewrite wrap_small by lia.
    rewrite IH; try done; try lia.
    + rewrite (seen_clear _ _ _ (nr - 1023)); [|done| |lia|lia].
      2: { Z.to_euclidean_division_equations. lia. }
      destruct (seen d s); rewrite ?andb_false_r, ?andb_true_r; [|done].
      apply Bool.eq_iff_eq_true.
      rewrite andb_true_iff, negb_true_iff, Z.eqb_neq, !Z.ltb_lt.
      Z.to_euclidean_division_equations. lia.
    + by rewrite length_insert.
    + Z.to_euclidean_division_equations. lia.
  - destruct (Z.ltb_spec s (q - 7)); [done|].
    Z.to_euclidean_division_equations. lia.
Qed.

(** [seq | 7] rounds up to the last sequence number of its octet. *)
Lemma lor_7 s : 0 ≤ s → Z.lor s 7 = s / 8 * 8 + 7.
Proof.
  intros Hs. replace (s / 8 * 8 + 7) with (s / 8 * 2 ^ 3 + 7) by lia.
  rewrite <- lor_shift_add by lia. apply Z.bits_inj'. intros i Hi.
  rewrite !Z.lor_spec, Z.shiftl_spec by done. change 8 with (2 ^ 3).
  destruct (decide (i < 3)) as [H|H].
  - replace (Z.testbit 7 i) with true; [by rewrite !orb_true_r|].
    assert (i = 0 ∨ i = 1 ∨ i = 2) as [->|[->| ->]] by lia; reflexivity.
  - rewrite <- Z.shiftr_div_pow2, Z.shiftr_spec by lia. by replace (i - 3 + 3) with i by lia.
Qed.

Lemma window_inv_init : window_inv dtls_InitRecvdRecords ∅.
Proof.
  constructor; cbn [data left right dtls_InitRecvdRecords]; try done.
  - apply Forall_replicate. done.
  - intros s Hs. rewrite bool_decide_eq_false_2 by set_solver. unfold seen.
    rewrite lookup_total_replicate_2 by apply seen_index. apply Z.bits_0.
Qed.

(** Sliding the window to make room for [s]. *)
Definition slide (r : DTLSRecvdRecords) (s : Z) : DTLSRecvdRecords :=
  if s >? right r then
    let new_right := Z.lor s 0x07 in
    mk_DTLSRecvdRecords
      (if new_right >? u64 (right r + DTLS_RECVD_RECORDS_WINDOW) then replicate 128 0
       else clear_octets 129 (u64 (right r + 8)) new_right (data r))
      (u64 (u64 (new_right - DTLS_RECVD_RECORDS_WINDOW) + 1)) new_right
  else r.

Lemma slide_inv r R s :
  window_inv r R → left r ≤ s ≤ RECORD_SEQ_MAX →
  window_inv (slide r s) R ∧ left (slide r s) ≤ s ≤ right (slide r s) ∧ left r ≤ left (slide r s).
Proof.
  intros HI Hs. unfold slide. destruct (Z.gtb_spec s (right r)) as [Hgt|Hle]; [|split; [done|lia]].
  destruct HI as [Hlen Hb Hr Hl [H0 Hmax] Hseen Hup]. unfold RECORD_SEQ_MAX in *.
  unfold DTLS_RECVD_RECORDS_WINDOW. rewrite lor_7 by lia. set (nr := s / 8 * 8 + 7).
  assert (Hnr : nr mod 8 = 7 ∧ s ≤ nr ∧ nr ≤ s + 7 ∧ nr < 2 ^ 48).
  { unfold nr. Z.to_euclidean_division_equations. lia. }
  rewrite (wrap_small 64 (nr - 1024)), (wrap_small 64 (nr - 1024 + 1)),
    (wrap_small 64 (right r + 1024)), (wrap_small 64 (right r + 8)) by lia.
  cbn [data left right]. split; [|lia].
  constructor; cbn [data left right]; try (unfold RECORD_SEQ_MAX; lia).
  - case_match; [done|]. by rewrite clear_octets_length.
  - case_match; [apply Forall_replicate; done|]. by apply clear_octets_bytes.
  - intros s' Hs'. destruct (Z.gtb_spec nr (right r + 1024)) as [Hfar|Hnear].
    + rewrite bool_decide_eq_false_2; [|intros Hin%Hup; lia]. unfold seen.
      rewrite lookup_total_replicate_2 by apply seen_index. apply Z.bits_0.
    + rewrite clear_octets_seen; try done; try lia.
      2: { Z.to_euclidean_division_equations. lia. }
      replace (right r + 8 - 7) with (right r + 1) by lia.
      destruct (Z.ltb_spec s' (right r + 1)); simpl.
      * apply Hseen. lia.
      * rewrite bool_decide_eq_false_2; [done|]. intros Hin%Hup. lia.
  - intros s' Hin%Hup. lia.
Qed.

(** Recording [s] adds it to the set, unless it lies left of the window. *)
Lemma dtls_RecordSetRecvd_inv r R s :
  window_inv r R → 0 ≤ s ≤ RECORD_SEQ_MAX →
  window_inv (dtls_RecordSetRecvd r s) (if s <? left r then R else {[s]} ∪ R) ∧
  left r ≤ left (dtls_RecordSetRecvd r s).
Proof.
  intros HI Hs. unfold dtls_RecordSetRecvd.
  destruct (Z.ltb_spec s (left r)) as [Hlt|Hge]; [split; [done|lia]|].
  change (if s >? right r then _ else r) with (slide r s).
  destruct (slide_inv r R s HI ltac:(lia)) as ([Hlen Hb Hr Hl Hrg Hseen Hup] & Hin & Hmono).
  unfold DTLS_RECVD_RECORDS_WINDOW. split; [|simpl; lia].
  constructor; simpl; try done.
  - by rewrite length_insert.
  - apply Forall_insert; [done|]. unfold is_byte. apply (wrap_range 8). lia.
  - intros s' Hs'. rewrite seen_set, Hseen by done.
    destruct (decide (s = s')) as [->|Hne].
    + rewrite (bool_decide_eq_true_2 (s' mod 1024 = s' mod 1024)) by done.
      rewrite (bool_decide_eq_true_2 (s' ∈ {[s']} ∪ R)) by set_solver. done.
    + rewrite bool_decide_eq_false_2.
      * simpl. apply bool_decide_ext. set_solver.
      * intros Heq. Z.to_euclidean_division_equations. lia.
  - intros s' [->%elem_of_singleton|Hin'%Hup]%elem_of_union; lia.
Qed.

Lemma dtls_RecordSetRecvd_right r R s :
  window_inv r R → 0 ≤ s ≤ RECORD_SEQ_MAX →
  right (dtls_RecordSetRecvd r s) = Z.max (right r) (s / 8 * 8 + 7).
Proof.
  intros [_ _ Hr Hl _ _ _] Hs. unfold dtls_RecordSetRecvd.
  destruct (Z.ltb_spec s (left r)).
  { Z.to_euclidean_division_equations. lia. }
  destruct (Z.gtb_spec s (right r)); simpl.
  - rewrite lor_7 by lia. Z.to_euclidean_division_equations. lia.
  - Z.to_euclidean_division_equations. lia.
Qed.

Lemma foldr_max_snoc (l : list Z) a b : foldr Z.max (Z.max b a) l = Z.max (foldr Z.max a l) b.
Proof. induction l as [|x l IH]; simpl; [lia|]. rewrite IH. lia. Qed.

(** ** Sequence numbers from headers *)

Lemma land_lnot_ones x n : 0 ≤ n → Z.land x (Z.lnot (2 ^ n - 1)) = x / 2 ^ n * 2 ^ n.
Proof.
  intros Hn. rewrite Z.sub_1_r, <- Z.ones_equiv, <- Z.ldiff_land, Z.ldiff_ones_r by done.
  by rewrite Z.shiftl_mul_pow2, Z.shiftr_div_pow2.
Qed.

(** Replacing the low [n] bits of the largest expected value and stepping back
    one range on overshoot recovers every sequence number in the range. *)
Lemma recover_low_bits next s n half :
  0 < n ≤ 16 → half = 2 ^ (n - 1) → 0 ≤ next ≤ RECORD_SEQ_MAX → 0 ≤ s →
  next - half < s ≤ next + half →
  let cap := u64 (next + half) in
  let partial := s mod 2 ^ n in
  let seqNum := Z.lor (Z.land cap (Z.lnot (2 ^ n - 1))) partial in
  (if (partial >? Z.land cap (2 ^ n - 1)) && (seqNum >? 2 ^ n - 1)
   then u64 (seqNum - (2 ^ n - 1 + 1)) else seqNum) = s.
Proof.
  intros Hn Hhalf Hnext Hs Hrange cap partial seqNum. unfold RECORD_SEQ_MAX in *.
  assert (H2n : 2 ^ n = 2 * half).
  { rewrite Hhalf, <- Z.pow_succ_r by lia. f_equal. lia. }
  assert (0 < half ≤ 2 ^ 15).
  { rewrite Hhalf. split; [lia|]. apply Z.pow_le_mono_r; lia. }
  assert (Hcap : cap = next + half) by (apply wrap_small; lia).
  assert (Hp : 0 ≤ partial < 2 ^ n) by (apply Z.mod_pos_bound; lia).
  assert (Hsn : seqNum = cap / 2 ^ n * 2 ^ n + partial).
  { unfold seqNum. rewrite land_lnot_ones by lia. rewrite <- Z.shiftl_mul_pow2 by lia.
    rewrite lor_shift_add by lia. by rewrite Z.shiftl_mul_pow2 by lia. }
  rewrite land_ones_mod by lia.
  pose proof (Z.div_mod cap (2 ^ n) ltac:(lia)). pose proof (Z.mod_pos_bound cap (2 ^ n) ltac:(lia)).
  pose proof (Z.div_mod s (2 ^ n) ltac:(lia)) as Hsd. fold partial in Hsd.
  pose proof (Z.div_pos cap (2 ^ n) ltac:(lia) ltac:(lia)).
  pose proof (Z.div_pos s (2 ^ n) ltac:(lia) ltac:(lia)).
  assert (s / 2 ^ n = cap / 2 ^ n ∨ s / 2 ^ n = cap / 2 ^ n - 1) as Hq by nia.
  destruct (Z.gtb_spec partial (cap mod 2 ^ n)), (Z.gtb_spec seqNum (2 ^ n - 1)); simpl;
    try (rewrite wrap_small by lia); nia.
Qed.

Definition header_ok (hdr : list Z) : Prop := bytes hdr ∧ (11 ≤ length hdr)%nat.

Lemma header_byte hdr i : header_ok hdr → (i < 11)%nat → 0 ≤ hdr !!! i < 256.
Proof.
  intros [Hb Hl] Hi. destruct (lookup_lt_is_Some_2 hdr i) as [x Hx]; [lia|].
  rewrite (list_lookup_total_correct _ _ _ Hx). by apply (Forall_lookup_1 is_byte hdr i).
Qed.

Lemma ReadSequenceNumber_long version next hdr :
  header_ok hdr → dtls_IsLongHeader version (hdr !!! 0%nat) = true →
  dtls_ReadSequenceNumber version next hdr = Ok (be_val (take 6 (drop 5 hdr))).
Proof.
  intros [Hb Hl] HL. unfold dtls_ReadSequenceNumber. rewrite HL.
  unfold sslRead_ReadNumber, SSL_READER, SSL_READER_REMAINING. simpl rd_buf. simpl rb_len. simpl offset.
  change (u32 (6 - 0)) with 6. change ((6 <? 0) || (6 >? 6) || (6 >? 8)) with false. cbv iota.
  simpl rb_buf. unfold mem_read. rewrite decide_True by (rewrite length_drop; lia).
  rewrite drop_drop, Nat.add_0_r. cbn [mbind res_bind].
  assert (Hbs : bytes (take 6 (drop 5 hdr))) by (by apply Forall_take, Forall_drop).
  pose proof (be_val_range _ Hbs) as Hv.
  assert (length (take 6 (drop 5 hdr)) = 6%nat) as H6 by (rewrite length_take, length_drop; lia).
  rewrite H6 in Hv. change (256 ^ 6%nat) with (2 ^ 48) in Hv.
  change (Z.to_nat 6) with 6%nat.
  rewrite read_fold_be_val; [by f_equal|done|lia|rewrite H6; lia].
Qed.

Lemma ReadSequenceNumber_total version next hdr :
  header_ok hdr → ∃ s, dtls_ReadSequenceNumber version next hdr = Ok s ∧ 0 ≤ s.
Proof.
  intros Hh. destruct (dtls_IsLongHeader version (hdr !!! 0%nat)) eqn:HL.
  { eexists. split; [by apply ReadSequenceNumber_long|].
    apply be_val_range, Forall_take, Forall_drop, Hh. }
  pose proof (header_byte hdr 1 Hh ltac:(lia)). pose proof (header_byte hdr 2 Hh ltac:(lia)).
  assert (Hnn : ∀ cap mask p, 0 ≤ p → 0 ≤ mask → 0 ≤ cap →
            0 ≤ Z.lor (Z.land cap (Z.lnot mask)) p).
  { intros. apply Z.lor_nonneg. split; [|done]. apply Z.land_nonneg. by left. }
  unfold dtls_ReadSequenceNumber. rewrite HL.
  destruct (negb _); (case_match; [eexists; split; [done|apply wrap_range; lia]|]);
    (eexists; split; [done|]); apply Hnn; try lia; try (apply wrap_range; lia).
  apply Z.lor_nonneg. rewrite Z.shiftl_nonneg. lia.
Qed.

(** The read path keeps the window in step with what was delivered. *)
Lemma ssl3_HandleRecord_seq_inv spec hdr unprotect R :
  header_ok hdr → max_records spec ≤ RECORD_SEQ_MAX → window_inv (recvdRecords spec) R →
  ∃ spec' o R', ssl3_HandleRecord_seq spec hdr unprotect = Ok (spec', o) ∧
    max_records spec' = max_records spec ∧ window_inv (recvdRecords spec') R' ∧
    left (recvdRecords spec) ≤ left (recvdRecords spec') ∧
    match o with
    | Delivered s => s ∉ R ∧ left (recvdRecords spec) ≤ s ∧ R' = {[s]} ∪ R
    | _ => R' = R
    end.
Proof.
  intros Hh Hmax HI. unfold ssl3_HandleRecord_seq, dtls_IsRelevant.
  destruct (ReadSequenceNumber_total (rs_version spec) (nextSeqNum spec) hdr Hh) as (s & -> & Hs0).
  cbn [mbind res_bind]. rewrite dtls_RecordGetRecvd_seen.
  destruct (Z.ltb_spec s (left (recvdRecords spec))); [by eexists _, _, R|].
  destruct (decide (s ∈ R)) as [HR|HR].
  { pose proof (inv_upper _ _ HI s HR). destruct (Z.gtb_spec s (right (recvdRecords spec))); [lia|].
    rewrite (inv_seen _ _ HI) by lia. rewrite bool_decide_eq_true_2 by done.
    by eexists _, _, R. }
  assert ((if s >? right (recvdRecords spec) then 0 else Z.b2z (seen (data (recvdRecords spec)) s)) = 0) as ->.
  { destruct (Z.gtb_spec s (right (recvdRecords spec))); [done|].
    rewrite (inv_seen _ _ HI) by lia. by rewrite bool_decide_eq_false_2. }
  simpl. destruct (Z.geb_spec s (max_records spec)); [by eexists _, _, R|].
  destruct (unprotect s); simpl; [|by eexists _, _, R].
  destruct (dtls_RecordSetRecvd_inv _ R s HI ltac:(lia)) as [HI' Hmono].
  destruct (Z.ltb_spec s (left (recvdRecords spec))); [lia|].
  eexists _, _, _. split; [done|]. simpl. split_and!; done || lia.
Qed.

Lemma read_records_inv rs spec R :
  max_records spec ≤ RECORD_SEQ_MAX → Forall (fun r => header_ok r.1) rs →
  window_inv (recvdRecords spec) R →
  ∃ spec' l, read_records spec rs = Ok (spec', l) ∧ NoDup l ∧ Forall (fun s => s ∉ R) l.
Proof.
  revert spec R. induction rs as [|[hdr u] rs IH]; intros spec R Hmax Hrs HI.
  { eexists _, _. split; [done|]. split; constructor. }
  apply Forall_cons in Hrs as [Hh Hrs]. cbn [read_records].
  destruct (ssl3_HandleRecord_seq_inv spec hdr u R Hh Hmax HI)
    as (spec1 & o & R1 & -> & Hmax1 & HI1 & _ & Ho). cbn [mbind res_bind].
  destruct (IH spec1 R1) as (spec2 & l & -> & Hnd & Hfr); [congruence|done|done|].
  cbn [mbind res_bind]. eexists _, _. split; [done|].
  destruct o as [s| |]; [|by subst R1..]. destruct Ho as (HsR & _ & ->). split.
  - constructor; [|done]. intros Hin. rewrite Forall_forall in Hfr.
    apply (Hfr s); [done|set_solver].
  - constructor; [done|]. eapply Forall_impl; [exact Hfr|]. set_solver.
Qed.

(** ** Properties *)

(** [C1] The anti-replay window refines a set: after any sequence of records
    has been marked as received, dtls_RecordGetRecvd answers -1 exactly left of
    the window, and inside or right of it 1 exactly for the sequence numbers
    that were marked; the window ends at the last multiple-of-8 boundary above
    the largest sequence number marked and is 1024 wide. *)
Theorem window_refines_set (l : list Z) :
  Forall (fun s => 0 ≤ s ≤ RECORD_SEQ_MAX) l →
  let r := fold_left dtls_RecordSetRecvd l dtls_InitRecvdRecords in
  right r = foldr Z.max 1023 ((fun s => s / 8 * 8 + 7) <$> l) ∧ left r = right r - 1023 ∧
  ∀ s, dtls_RecordGetRecvd r s =
         if s <? left r then -1 else if bool_decide (s ∈ l) then 1 else 0.
Proof.
  intros Hl r.
  assert (Hinv : ∃ R : gset Z, window_inv r R ∧ (∀ s, s ∈ R → s ∈ l) ∧
            (∀ s, s ∈ l → left r ≤ s → s ∈ R) ∧
            right r = foldr Z.max 1023 ((fun s => s / 8 * 8 + 7) <$> l)).
  { unfold r. clear r. induction l as [|s l IH] using rev_ind.
    { exists ∅. split_and!; [apply window_inv_init|set_solver|set_solver|done]. }
    apply Forall_app in Hl as [Hl Hs]. rewrite Forall_singleton in Hs.
    destruct (IH Hl) as (R & HI & HR1 & HR2 & Hr). rewrite fold_left_app. simpl.
    set (r := fold_left _ l _) in *.
    destruct (dtls_RecordSetRecvd_inv r R s HI Hs) as [HI' Hmono].
    eexists. split; [exact HI'|]. split_and!.
    - intros s'. destruct (s <? left r); set_solver.
    - intros s' [Hin| ->%list_elem_of_singleton]%elem_of_app Hge.
      + destruct (s <? left r); [|apply elem_of_union_r]; apply HR2; done || lia.
      + destruct (Z.ltb_spec s (left r)); [lia|set_solver].
    - rewrite fmap_app, foldr_app. simpl. rewrite foldr_max_snoc, <- Hr.
      apply dtls_RecordSetRecvd_right with R; done. }
  destruct Hinv as (R & HI & HR1 & HR2 & Hr). split_and!; [done|apply HI|].
  intros s. rewrite dtls_RecordGetRecvd_seen. destruct (Z.ltb_spec s (left r)); [done|].
  destruct (Z.gtb_spec s (right r)).
  - rewrite bool_decide_eq_false_2; [done|]. intros Hin.
    pose proof (inv_upper _ _ HI s (HR2 s Hin ltac:(lia))). lia.
  - rewrite (inv_seen _ _ HI) by lia.
    destruct (bool_decide_reflect (s ∈ R)) as [HR|HR].
    + rewrite bool_decide_eq_true_2; [done|auto].
    + rewrite bool_decide_eq_false_2; [done|]. intros Hin. apply HR, HR2; done || lia.
Qed.

Lemma window_refines_set_witness :
  let r := fold_left dtls_RecordSetRecvd [5; 2000; 7] dtls_InitRecvdRecords in
  right r = 2007 ∧ left r = right r - 1023 ∧
  ∀ s, dtls_RecordGetRecvd r s =
         if s <? left r then -1 else if bool_decide (s ∈ [5; 2000; 7]) then 1 else 0.
Proof.
  apply (window_refines_set [5; 2000; 7]).
  repeat constructor; unfold RECORD_SEQ_MAX; lia.
Defined.


Definition long_header (s : Z) : list Z := [23; 254; 253; 0; 1] ++ be_bytes 6 s ++ [0; 0].


Lemma bytes_total (l : list Z) i : bytes l → 0 ≤ l !!! i < 256.
Proof.
  intros Hl. destruct (l !! i) as [b|] eqn:E.
  - rewrite (list_lookup_total_correct _ _ _ E). by apply (Forall_lookup_1 _ _ _ _ Hl) in E.
  - rewrite list_lookup_total_alt, E. cbn. lia.
Qed.

Lemma ReadSequenceNumber_low version next hdr s n :
  bytes hdr → dtls_IsLongHeader version (hdr !!! 0%nat) = false →
  0 ≤ next ≤ RECORD_SEQ_MAX → 0 ≤ s →
  (if Z.testbit (hdr !!! 0%nat) 3
   then n = 16 ∧ hdr !!! 1%nat * 256 + hdr !!! 2%nat = s mod 2 ^ 16
   else n = 8 ∧ hdr !!! 1%nat = s mod 2 ^ 8) →
  next - 2 ^ (n - 1) < s ≤ next + 2 ^ (n - 1) →
  dtls_ReadSequenceNumber version next hdr = Ok s.
Proof.
  intros Hh HL Hnext Hs Hlow Hrange. unfold dtls_ReadSequenceNumber. rewrite HL.
  change (Z.land (hdr !!! 0%nat) 0x08) with (Z.land (hdr !!! 0%nat) (Z.shiftl 1 3)).
  rewrite land_bit_zero, negb_involutive by lia.
  pose proof (bytes_total hdr 2 Hh).
  destruct (Z.testbit _ 3); destruct Hlow as [-> Hlow].
  - rewrite lor_shift_add by lia. change (2 ^ 8) with 256. rewrite Hlow.
    pose proof (recover_low_bits next s 16 (2 ^ 15) ltac:(lia) eq_refl Hnext Hs Hrange) as HR.
    cbv zeta in HR. destruct (_ && _); by rewrite HR.
  - rewrite Hlow.
    pose proof (recover_low_bits next s 8 (2 ^ 7) ltac:(lia) eq_refl Hnext Hs Hrange) as HR.
    cbv zeta in HR. destruct (_ && _); by rewrite HR.
Qed.


