(* ===== verification/Bloom.v ===== *)
(** lib/ssl/sslbloom.c: the Bloom filter behind TLS 1.3 anti-replay. *)

From stdpp Require Import base numbers list.
From S2P Require Import Prelude Port.

(** [k] hashes of [bits] bits each index a bit array of [2^bits] bits. *)
Record sslBloomFilter := mk_sslBloomFilter {
  k : Z;
  bits : Z;
  filter : list Z;
}.

Definition sslBloom_Size (bits : Z) : Z := if bits >=? 3 then Z.shiftl 1 (bits - 3) else 1.

Definition sslBloom_Init `{NSPRHeap} (k bits : Z) : sec_res sslBloomFilter :=
  m ← PORT_ZAlloc (sslBloom_Size bits);
  Ok (mk_sslBloomFilter k bits m).

Definition sslBloom_Zero (f : sslBloomFilter) : sec_res sslBloomFilter :=
  m ← mem_write (filter f) 0 (replicate (Z.to_nat (sslBloom_Size (bits f))) 0);
  Ok (mk_sslBloomFilter (k f) (bits f) m).

Definition sslBloom_Fill (f : sslBloomFilter) : sec_res sslBloomFilter :=
  m ← mem_write (filter f) 0 (replicate (Z.to_nat (sslBloom_Size (bits f))) 0xff);
  Ok (mk_sslBloomFilter (k f) (bits f) m).

(** The loop of sslBloom_AddOrCheck.  [tmp] is the 4-octet scratch integer,
    whose leading octets stay zero; [bytes] octets of [hashes] are consumed per
    turn. *)
Fixpoint addOrCheck_loop (iterations : nat) (bytes shift : Z) (add : bool)
    (tmp hashes m : list Z) (found : bool) : sec_res (bool * list Z) :=
  match iterations with
  | O => Ok (found, m)
  | S iterations =>
      h ← mem_read hashes 0 (Z.to_nat bytes);
      tmp ← mem_write tmp (Z.to_nat (4 - bytes)) h;
      let hashes := drop (Z.to_nat bytes) hashes in
      let bitIndex := Z.shiftr (be_val tmp) shift in
      let mask := u8 (Z.shiftl 1 (bitIndex mod 8)) in
      match m !! Z.to_nat (bitIndex / 8) with
      | None => UB
      | Some octet =>
          let found := found && negb (Z.land octet mask =? 0) in
          let m := if add then <[Z.to_nat (bitIndex / 8) := Z.lor octet mask]> m else m in
          addOrCheck_loop iterations bytes shift add tmp hashes m found
      end
  end.

Definition sslBloom_AddOrCheck (f : sslBloomFilter) (hashes : list Z) (add : bool)
    : sec_res (bool * sslBloomFilter) :=
  let bytes := (bits f + 7) / 8 in
  let shift := bytes * 8 - bits f in
  if 4 <? bytes then UB else
  '(found, m) ← addOrCheck_loop (Z.to_nat (k f)) bytes shift add (replicate 4 0) hashes (filter f) true;
  Ok (found, mk_sslBloomFilter (k f) (bits f) m).

Definition sslBloom_Add (f : sslBloomFilter) (hashes : list Z) := sslBloom_AddOrCheck f hashes true.
Definition sslBloom_Check (f : sslBloomFilter) (hashes : list Z) := sslBloom_AddOrCheck f hashes false.

(** ** Invariant and membership *)

Record bloom_wf (f : sslBloomFilter) : Prop := mk_bloom_wf {
  bwf_k : 0 < k f;
  bwf_bits : 0 < bits f ≤ 32;
  bwf_len : length (filter f) = Z.to_nat (sslBloom_Size (bits f));
  bwf_bytes : bytes (filter f);
}.

Definition hash_bytes (bits : Z) : Z := (bits + 7) / 8.

(** The bit positions an entry hashes to. *)
Fixpoint indexes (n : nat) (bits : Z) (hashes : list Z) : list Z :=
  match n with
  | O => []
  | S n =>
      be_val (take (Z.to_nat (hash_bytes bits)) hashes) / 2 ^ (hash_bytes bits * 8 - bits)
      :: indexes n bits (drop (Z.to_nat (hash_bytes bits)) hashes)
  end.


#[export] Instance bit_set_dec m i : Decision (bit_set m i).
Proof. unfold bit_set. apply _. Defined.

(** Enough hash octets for a filter. *)
Definition hash_ok (f : sslBloomFilter) (hashes : list Z) : Prop :=
  bytes hashes ∧ k f * hash_bytes (bits f) ≤ length hashes.

(** An entry is (apparently) in the filter when all its bits are set. *)
Definition contains (f : sslBloomFilter) (hashes : list Z) : Prop :=
  Forall (bit_set (filter f)) (indexes (Z.to_nat (k f)) (bits f) hashes).

#[export] Instance contains_dec f h : Decision (contains f h).
Proof. unfold contains. apply _. Defined.

Lemma hash_bytes_range b : 0 < b ≤ 32 → 1 ≤ hash_bytes b ≤ 4 ∧ 0 ≤ hash_bytes b * 8 - b < 8.
Proof. intros Hb. unfold hash_bytes. Z.to_euclidean_division_equations. lia. Qed.

Lemma sslBloom_Size_pos b : 0 < b → 0 < sslBloom_Size b.
Proof.
  intros Hb. unfold sslBloom_Size. destruct (Z.geb_spec b 3); [|lia].
  rewrite Z.shiftl_1_l. apply Z.pow_pos_nonneg; lia.
Qed.

(** Every index of [bits] bits falls inside the bit array. *)
Lemma index_in_range b i : 0 < b ≤ 32 → 0 ≤ i < 2 ^ b → 0 ≤ i / 8 < sslBloom_Size b.
Proof.
  intros Hb Hi. unfold sslBloom_Size. destruct (Z.geb_spec b 3).
  - rewrite Z.shiftl_1_l. split; [apply Z.div_pos; lia|]. apply Z.div_lt_upper_bound; [lia|].
    change 8 with (2 ^ 3) at 1. rewrite <- Z.pow_add_r by lia.
    replace (3 + (b - 3)) with b by lia. lia.
  - assert (2 ^ b ≤ 2 ^ 2) by (apply Z.pow_le_mono_r; lia). rewrite Z.div_small; lia.
Qed.

Lemma chunk_index_range b h :
  0 < b ≤ 32 → bytes h → Z.of_nat (length h) = hash_bytes b →
  0 ≤ be_val h / 2 ^ (hash_bytes b * 8 - b) < 2 ^ b.
Proof.
  intros Hb Hh Hl. pose proof (hash_bytes_range b Hb). pose proof (be_val_range h Hh) as Hv.
  rewrite Hl in Hv. split; [apply Z.div_pos; lia|]. apply Z.div_lt_upper_bound; [lia|].
  rewrite <- Z.pow_add_r by lia. replace (hash_bytes b * 8 - b + b) with (8 * hash_bytes b) by lia.
  rewrite Z.pow_mul_r by lia. change (2 ^ 8) with 256. lia.
Qed.

(** The loop, abstractly: check (and set) the listed bits in turn. *)
Fixpoint visit (add : bool) (m : list Z) (idx : list Z) (found : bool) : bool * list Z :=
  match idx with
  | [] => (found, m)
  | i :: idx =>
      visit add (if add then set_bit m i else m) idx (found && bool_decide (bit_set m i))
  end.

Lemma addOrCheck_loop_visit n b add tmp hashes m found :
  0 < b ≤ 32 → length m = Z.to_nat (sslBloom_Size b) → bytes m → bytes hashes →
  Z.of_nat n * hash_bytes b ≤ length hashes →
  length tmp = 4%nat → take (Z.to_nat (4 - hash_bytes b)) tmp = replicate (Z.to_nat (4 - hash_bytes b)) 0 →
  addOrCheck_loop n (hash_bytes b) (hash_bytes b * 8 - b) add tmp hashes m found
  = Ok (visit add m (indexes n b hashes) found).
Proof.
  intros Hb. pose proof (hash_bytes_range b Hb) as [Hhb Hsh]. set (hb := hash_bytes b) in *.
  revert tmp hashes m found.
  induction n as [|n IH]; intros tmp hashes m found Hl Hm Hh Hlen Htl Htz; [done|].
  cbn [addOrCheck_loop indexes visit]. fold hb.
  unfold mem_read. rewrite decide_True by lia. cbn [mbind res_bind]. rewrite drop_0.
  set (h := take (Z.to_nat hb) hashes).
  assert (Hhl : length h = Z.to_nat hb) by (unfold h; rewrite length_take; lia).
  assert (bytes h) as Hbh by (by apply Forall_take).
  rewrite mem_write_same by lia. cbn [mbind res_bind].
  rewrite (drop_ge tmp), app_nil_r, Htz by lia.
  rewrite be_val_app, be_val_zeros, Z.mul_0_l, Z.add_0_l, Z.shiftr_div_pow2 by lia.
  set (i := be_val h / 2 ^ (hb * 8 - b)).
  assert (0 ≤ i < 2 ^ b) as Hi by (apply chunk_index_range; [done..|lia]).
  pose proof (index_in_range b i Hb Hi).
  destruct (lookup_lt_is_Some_2 m (Z.to_nat (i / 8))) as [x Hx]; [lia|].
  rewrite Hx. assert (Hmx : m !!! Z.to_nat (i / 8) = x) by (by apply list_lookup_total_correct).
  pose proof (Z.mod_pos_bound i 8 ltac:(lia)).
  assert (u8 (Z.shiftl 1 (i mod 8)) = Z.shiftl 1 (i mod 8)) as ->.
  { apply wrap_small. rewrite Z.shiftl_1_l. split; [lia|]. apply Z.pow_lt_mono_r; lia. }
  assert (Hdec : negb (Z.land x (Z.shiftl 1 (i mod 8)) =? 0) = bool_decide (bit_set m i)).
  { rewrite land_bit_zero, negb_involutive by lia. apply Bool.eq_iff_eq_true.
    rewrite bool_decide_eq_true. unfold bit_set. by rewrite Hmx. }
  rewrite Hdec. rewrite IH.
  - f_equal. destruct add; [|done]. unfold set_bit. by rewrite Hmx.
  - destruct add; [by rewrite length_insert|done].
  - destruct add; [|done]. pose proof (set_bit_bytes m i Hm ltac:(lia)) as Hs.
    unfold set_bit in Hs. by rewrite Hmx in Hs.
  - by apply Forall_drop.
  - rewrite length_drop. lia.
  - rewrite length_app, length_replicate. lia.
  - by rewrite take_app_length' by (by rewrite length_replicate).
Qed.

Lemma visit_check m idx found :
  visit false m idx found = (found && bool_decide (Forall (bit_set m) idx), m).
Proof.
  revert found. induction idx as [|i idx IH]; intros found; cbn [visit].
  { by rewrite andb_true_r. }
  rewrite IH, <- andb_assoc. do 2 f_equal. apply Bool.eq_iff_eq_true.
  rewrite andb_true_iff, !bool_decide_eq_true, Forall_cons. done.
Qed.

(** Adding: old entries stay, the new one is in, and it is reported as present
    when it already was. *)
Lemma visit_add m idx found :
  Forall (fun i => 0 ≤ i ∧ (Z.to_nat (i / 8) < length m)%nat) idx → bytes m →
  let '(found', m') := visit true m idx found in
  length m' = length m ∧ bytes m' ∧
  (∀ j, 0 ≤ j → bit_set m' j ↔ j ∈ idx ∨ bit_set m j) ∧
  (found = true → Forall (bit_set m) idx → found' = true).
Proof.
  revert m found. induction idx as [|i idx IH]; intros m found Hr Hm; cbn [visit].
  { split_and!; [done..| |done]. intros j Hj. rewrite elem_of_nil. tauto. }
  apply Forall_cons in Hr as [[Hi Hil] Hr].
  specialize (IH (set_bit m i) (found && bool_decide (bit_set m i))).
  destruct (visit true (set_bit m i) idx _) as [found' m'].
  assert (Hlen : length (set_bit m i) = length m) by (unfold set_bit; apply length_insert).
  rewrite Hlen in IH. destruct IH as (Hl & Hb & Hset & Hf); [done|by apply set_bit_bytes|].
  split_and!; [done|done| |].
  - intros j Hj. rewrite Hset, set_bit_set, elem_of_cons by done. naive_solver.
  - intros -> [Hbi Hbs]%Forall_cons. apply Hf; [by rewrite bool_decide_eq_true_2|].
    rewrite Forall_forall in Hbs |- *. rewrite Forall_forall in Hr. intros j Hj.
    apply set_bit_set; [done| |done|right; auto]. by apply Hr.
Qed.

Lemma indexes_range n b hashes :
  0 < b ≤ 32 → bytes hashes → Z.of_nat n * hash_bytes b ≤ length hashes →
  Forall (fun i => 0 ≤ i < 2 ^ b) (indexes n b hashes).
Proof.
  intros Hb. pose proof (hash_bytes_range b Hb). revert hashes.
  induction n as [|n IH]; intros hashes Hh Hl; cbn [indexes]; [constructor|]. constructor.
  - apply chunk_index_range; [done|by apply Forall_take|]. rewrite length_take. lia.
  - apply IH; [by apply Forall_drop|]. rewrite length_drop. lia.
Qed.

(** ** The operations *)

Lemma AddOrCheck_visit f hashes add :
  bloom_wf f → hash_ok f hashes →
  sslBloom_AddOrCheck f hashes add =
    let '(found, m) := visit add (filter f) (indexes (Z.to_nat (k f)) (bits f) hashes) true in
    Ok (found, mk_sslBloomFilter (k f) (bits f) m).
Proof.
  intros [Hk Hb Hl Hm] [Hh Hhl]. unfold sslBloom_AddOrCheck. fold (hash_bytes (bits f)).
  pose proof (hash_bytes_range _ Hb). destruct (Z.ltb_spec 4 (hash_bytes (bits f))); [lia|].
  rewrite addOrCheck_loop_visit; try done; try lia.
  by rewrite take_replicate, Nat.min_l by lia.
Qed.

Lemma sslBloom_Check_spec f hashes :
  bloom_wf f → hash_ok f hashes →
  sslBloom_Check f hashes = Ok (bool_decide (contains f hashes), f).
Proof.
  intros Hf Hh. unfold sslBloom_Check. rewrite AddOrCheck_visit, visit_check by done.
  by destruct f.
Qed.

(** [f'] holds everything [f] does. *)
Definition bloom_le (f f' : sslBloomFilter) : Prop :=
  k f' = k f ∧ bits f' = bits f ∧ ∀ i, 0 ≤ i → bit_set (filter f) i → bit_set (filter f') i.

Lemma contains_mono f f' h : bloom_wf f → hash_ok f h → bloom_le f f' → contains f h → contains f' h.
Proof.
  intros Hf [Hb Hl] (Hk & Hbi & Hle) Hc. unfold contains in *. rewrite Hk, Hbi.
  pose proof (indexes_range (Z.to_nat (k f)) (bits f) h (bwf_bits _ Hf) Hb) as Hr.
  pose proof (bwf_k _ Hf). rewrite Forall_forall in *. intros i Hi. apply Hle; [|auto].
  apply Hr; [lia|done].
Qed.

Lemma sslBloom_Add_spec f hashes :
  bloom_wf f → hash_ok f hashes →
  ∃ found f', sslBloom_Add f hashes = Ok (found, f') ∧ bloom_wf f' ∧ bloom_le f f' ∧
    contains f' hashes ∧ (contains f hashes → found = true).
Proof.
  intros Hf Hh. pose proof Hf as [Hk Hb Hl Hm]. destruct Hh as [Hhb Hhl].
  pose proof (indexes_range (Z.to_nat (k f)) (bits f) hashes Hb Hhb ltac:(lia)) as Hr.
  unfold sslBloom_Add. rewrite AddOrCheck_visit by done.
  pose proof (visit_add (filter f) (indexes (Z.to_nat (k f)) (bits f) hashes) true) as HV.
  destruct (visit _ _ _ _) as [found m]. destruct HV as (Hlm & Hbm & Hset & Hfnd); [|done|].
  { eapply Forall_impl; [exact Hr|]. intros i Hi. pose proof (index_in_range _ _ Hb Hi).
    cbv beta in *. rewrite Hl. lia. }
  eexists _, _. split; [done|]. split_and!.
  - constructor; simpl; try done. congruence.
  - split_and!; [done..|]. simpl. intros i Hi Hbi. apply Hset; [done|by right].
  - unfold contains. simpl. rewrite Forall_forall in Hr |- *. intros i Hi.
    apply Hset; [by apply Hr|by left].
  - intros Hc. by apply Hfnd.
Qed.

Lemma sslBloom_Init_spec `{NSPRHeap} n b :
  0 < n → 0 < b ≤ 32 →
  match sslBloom_Init n b with
  | Ok f => bloom_wf f ∧ k f = n ∧ bits f = b
  | Err e => e = SEC_ERROR_NO_MEMORY
  | UB => False
  end.
Proof.
  intros Hn Hb. pose proof (sslBloom_Size_pos b ltac:(lia)) as Hs. unfold sslBloom_Init.
  destruct (PORT_ZAlloc _) as [m| |] eqn:HA; simpl.
  - apply PORT_ZAlloc_Ok in HA as ->; [|lia]. rewrite (proj2 (Z.eqb_neq _ 0)) by lia.
    split_and!; [|done..]. constructor; simpl; try done; [by rewrite length_replicate|].
    by apply Forall_replicate.
  - unfold PORT_ZAlloc in HA. case_match; congruence.
  - unfold PORT_ZAlloc in HA. case_match; congruence.
Qed.

Lemma memset_all (m : list Z) n c :
  length m = n → mem_write (E:=SECErrorCode) m 0 (replicate n c) = Ok (replicate n c).
Proof.
  intros Hl. rewrite mem_write_same by (rewrite length_replicate; lia).
  by rewrite length_replicate, drop_ge, app_nil_r by lia.
Qed.

Lemma sslBloom_Zero_spec f :
  bloom_wf f → ∃ f', sslBloom_Zero f = Ok f' ∧ bloom_wf f' ∧ k f' = k f ∧ bits f' = bits f ∧
    ∀ i, 0 ≤ i < 2 ^ bits f → ~ bit_set (filter f') i.
Proof.
  intros [Hk Hb Hl Hm]. unfold sslBloom_Zero. rewrite memset_all by done. cbn [mbind res_bind].
  eexists. split; [done|]. split_and!; [|done..|].
  - constructor; simpl; try done; [by rewrite length_replicate|]. by apply Forall_replicate.
  - intros i Hi. unfold bit_set. simpl. pose proof (index_in_range _ _ Hb Hi).
    rewrite lookup_total_replicate_2 by lia. by rewrite Z.bits_0.
Qed.

(** A filled filter reports every entry as present. *)
Lemma sslBloom_Fill_spec f :
  bloom_wf f → ∃ f', sslBloom_Fill f = Ok f' ∧ bloom_wf f' ∧ k f' = k f ∧ bits f' = bits f ∧
    ∀ h, hash_ok f h → contains f' h.
Proof.
  intros [Hk Hb Hl Hm]. unfold sslBloom_Fill. rewrite memset_all by done. cbn [mbind res_bind].
  eexists. split; [done|]. split_and!; [|done..|].
  - constructor; simpl; try done; [by rewrite length_replicate|]. by apply Forall_replicate.
  - intros h [Hh Hhl]. unfold contains. simpl.
    pose proof (indexes_range (Z.to_nat (k f)) (bits f) h Hb Hh ltac:(lia)) as Hr.
    eapply Forall_impl; [exact Hr|]. intros i Hi. simpl. unfold bit_set.
    pose proof (index_in_range _ _ Hb Hi). rewrite lookup_total_replicate_2 by lia.
    pose proof (Z.mod_pos_bound i 8 ltac:(lia)).
    assert (i mod 8 ∈ seqZ 0 8) as Hin by (apply elem_of_seqZ; lia).
    revert Hin. generalize (i mod 8). apply Forall_forall. by repeat constructor.
Qed.
