(* ===== verification/AntiReplay.v ===== *)
(** lib/ssl/tls13replay.c: TLS 1.3 0-RTT anti-replay.

    Two Bloom filters alternate: attempts are recorded in the current one and
    looked up in both; every [window] the older one is erased and becomes the
    current one.  The theorems show that an accepted early-data attempt is
    never accepted again, and that nothing is accepted during the first window
    after start-up.

    The PSK binder is mapped to filter hashes by HKDF under a secret key
    (tls13_HkdfExpandLabelRaw, over PKCS #11); it enters as the class
    [HkdfExpand]: a deterministic function that returns as many octets as it is
    asked for, or fails. *)

From stdpp Require Import base numbers list.
From S2P Require Import Prelude Port Bloom.

Class HkdfExpand (Key : Type) := {
  tls13_HkdfExpandLabelRaw : Key → list Z → Z → sec_res (list Z);
  hkdf_length key binder size out : 0 ≤ size →
    tls13_HkdfExpandLabelRaw key binder size = Ok out →
    Z.of_nat (length out) = size ∧ bytes out;
  hkdf_no_UB key binder size : tls13_HkdfExpandLabelRaw key binder size ≠ UB;
}.

Definition SSL_MAX_BLOOM_FILTER_SIZE : Z := 64.
Definition PR_USEC_PER_MSEC : Z := 1000.

Record SSLAntiReplayContext (Key : Type) := mk_SSLAntiReplayContext {
  refCount : Z;
  filter0 : sslBloomFilter;
  filter1 : sslBloomFilter;
  current : Z;
  nextUpdate : Z;
  window : Z;
  key : Key;
}.
Arguments mk_SSLAntiReplayContext {Key}.
Arguments refCount {Key}. Arguments filter0 {Key}. Arguments filter1 {Key}.
Arguments current {Key}. Arguments nextUpdate {Key}. Arguments window {Key}. Arguments key {Key}.

(** One 0-RTT attempt as tls13_IsReplay sees it: the time, the ticket age the
    client claims (milliseconds), the creation time of the session (absent for
    an external PSK) and the PSK binder. *)
Record attempt := mk_attempt {
  now : Z;
  ticketAge : Z;
  creationTime : option Z;
  pskBinder : list Z;
}.

Section AntiReplay.
  Context {Key : Type} `{HkdfExpand Key}.
  Implicit Types ctx : SSLAntiReplayContext Key.

(** [ctx->filters[i]] *)
Definition get_filter ctx (i : Z) : sslBloomFilter := if i =? 0 then filter0 ctx else filter1 ctx.
Definition set_filter ctx (i : Z) (f : sslBloomFilter) : SSLAntiReplayContext Key :=
  mk_SSLAntiReplayContext (refCount ctx) (if i =? 0 then f else filter0 ctx)
    (if i =? 0 then filter1 ctx else f) (current ctx) (nextUpdate ctx) (window ctx) (key ctx).

(** Dropping a reference; [None] once the context is freed. *)
Definition tls13_ReleaseAntiReplayContext (ctx : option (SSLAntiReplayContext Key))
    : option (SSLAntiReplayContext Key) :=
  match ctx with
  | None => None
  | Some c =>
      if negb (refCount c - 1 =? 0)
      then Some (mk_SSLAntiReplayContext (refCount c - 1) (filter0 c) (filter1 c) (current c)
                   (nextUpdate c) (window c) (key c))
      else None
  end.

Definition tls13_RefAntiReplayContext ctx : SSLAntiReplayContext Key :=
  mk_SSLAntiReplayContext (refCount ctx + 1) (filter0 ctx) (filter1 ctx) (current ctx)
    (nextUpdate ctx) (window ctx) (key ctx).

(** [keygen] is the outcome of tls13_AntiReplayKeyGen. *)
Definition SSLExp_CreateAntiReplayContext `{NSPRHeap} (keygen : sec_res Key)
    (now window k bits : Z) (pctx_null : bool) : sec_res (SSLAntiReplayContext Key) :=
  if (window <=? 0) || (k =? 0) || (bits =? 0) || pctx_null then Err SEC_ERROR_INVALID_ARGS
  else if u32 (k * u32 (bits + 7)) / 8 >? SSL_MAX_BLOOM_FILTER_SIZE then Err SEC_ERROR_INVALID_ARGS
  else
    key ← keygen;
    f0 ← sslBloom_Init k bits;
    f1 ← sslBloom_Init k bits;
    f1 ← sslBloom_Fill f1;
    Ok (mk_SSLAntiReplayContext 1 f0 f1 0 (now + window) window key).

Definition tls13_AntiReplayUpdate ctx (now : Z) : sec_res (SSLAntiReplayContext Key) :=
  if now >=? nextUpdate ctx then
    let cur := Z.lxor (current ctx) 1 in
    f ← sslBloom_Zero (get_filter ctx cur);
    Ok (set_filter (mk_SSLAntiReplayContext (refCount ctx) (filter0 ctx) (filter1 ctx) cur
                      (now + window ctx) (window ctx) (key ctx)) cur f)
  else Ok ctx.

(** Both the age difference and the allowance are 32-bit integers. *)
Definition tls13_InWindow ctx (now ticketAge creationTime : Z) : bool :=
  let timeDelta := swrap 32 (ticketAge - Z.quot (now - creationTime) PR_USEC_PER_MSEC) in
  let allowance := swrap 32 (Z.quot (window ctx) (PR_USEC_PER_MSEC * 2)) in
  (if timeDelta <? 0 then swrap 32 (- timeDelta) else timeDelta) <? allowance.

(** The verdict and the updated context; an absent context rejects everything. *)
Definition tls13_IsReplay (octx : option (SSLAntiReplayContext Key)) (a : attempt)
    : sec_res (bool * option (SSLAntiReplayContext Key)) :=
  match octx with
  | None => Ok (true, None)
  | Some ctx =>
      let out_of_window :=
        match creationTime a with
        | None => false
        | Some c => negb (tls13_InWindow ctx (now a) (ticketAge a) c)
        end in
      if out_of_window then Ok (true, Some ctx) else
      let size := u32 (k (filter0 ctx) * u32 (bits (filter0 ctx) + 7)) / 8 in
      match tls13_HkdfExpandLabelRaw (key ctx) (pskBinder a) size with
      | UB => UB
      | Err _ => Ok (true, Some ctx)
      | Ok buf =>
          ctx ← tls13_AntiReplayUpdate ctx (now a);
          let index := current ctx in
          '(replay, f) ← sslBloom_Add (get_filter ctx index) buf;
          let ctx := set_filter ctx index f in
          replay ← (if (replay : bool) then Ok true
                    else '(r, _) ← sslBloom_Check (get_filter ctx (Z.lxor index 1)) buf; Ok r);
          Ok (replay, Some ctx)
      end
  end.

(** The verdicts on a sequence of attempts. *)
Fixpoint run_attempts (octx : option (SSLAntiReplayContext Key)) (l : list attempt)
    : sec_res (option (SSLAntiReplayContext Key) * list bool) :=
  match l with
  | [] => Ok (octx, [])
  | a :: l =>
      '(replay, octx) ← tls13_IsReplay octx a;
      '(octx, vs) ← run_attempts octx l;
      Ok (octx, replay :: vs)
  end.

(** ** Invariant *)

Record ctx_wf ctx : Prop := mk_ctx_wf {
  cwf_f0 : bloom_wf (filter0 ctx);
  cwf_f1 : bloom_wf (filter1 ctx);
  cwf_k : k (filter1 ctx) = k (filter0 ctx);
  cwf_bits : bits (filter1 ctx) = bits (filter0 ctx);
  cwf_size : k (filter0 ctx) * (bits (filter0 ctx) + 7) < 2 ^ 32;
  cwf_current : current ctx = 0 ∨ current ctx = 1;
}.

(** The filter hashes of a binder. *)
Definition hash_of ctx (binder : list Z) : sec_res (list Z) :=
  tls13_HkdfExpandLabelRaw (key ctx) binder (k (filter0 ctx) * (bits (filter0 ctx) + 7) / 8).

(** What stays the same over the life of a context. *)
Definition same_config ctx ctx' : Prop :=
  k (filter0 ctx') = k (filter0 ctx) ∧ bits (filter0 ctx') = bits (filter0 ctx) ∧
  key ctx' = key ctx ∧ window ctx' = window ctx.

Lemma hash_of_config ctx ctx' b : same_config ctx ctx' → hash_of ctx' b = hash_of ctx b.
Proof. intros (Hk & Hb & Hkey & _). unfold hash_of. by rewrite Hk, Hb, Hkey. Qed.

Lemma same_config_refl ctx : same_config ctx ctx.
Proof. done. Qed.

Lemma same_config_trans c1 c2 c3 : same_config c1 c2 → same_config c2 c3 → same_config c1 c3.
Proof. unfold same_config. intuition congruence. Qed.

Lemma get_filter_wf ctx i : ctx_wf ctx → bloom_wf (get_filter ctx i) ∧
  k (get_filter ctx i) = k (filter0 ctx) ∧ bits (get_filter ctx i) = bits (filter0 ctx).
Proof. intros []. unfold get_filter. by case_match. Qed.

(** HKDF returns enough octets for either filter. *)
Lemma hash_of_ok ctx b h i : ctx_wf ctx → hash_of ctx b = Ok h → hash_ok (get_filter ctx i) h.
Proof.
  intros Hwf HH. destruct (get_filter_wf ctx i Hwf) as ([Hk Hb _ _] & Hki & Hbi).
  rewrite Hki, Hbi in *. unfold hash_of in HH.
  apply hkdf_length in HH as [Hl Hbs]; [|apply Z.div_pos; nia].
  split; [done|]. rewrite Hl, Hki, Hbi. unfold hash_bytes. apply Z.div_le_lower_bound; [lia|].
  pose proof (Z.mul_div_le (bits (filter0 ctx) + 7) 8 ltac:(lia)). nia.
Qed.

(** Replacing one filter by a filter of the same shape. *)
Lemma set_filter_wf ctx i f :
  ctx_wf ctx → bloom_wf f → k f = k (filter0 ctx) → bits f = bits (filter0 ctx) →
  ctx_wf (set_filter ctx i f) ∧ same_config ctx (set_filter ctx i f).
Proof.
  intros [] Hf Hk Hb. unfold set_filter, same_config. destruct (i =? 0); simpl;
    (split; [constructor; simpl; try done; congruence|split_and!; congruence]).
Qed.

Lemma get_set_filter ctx i j f :
  (i = 0 ∨ i = 1) → (j = 0 ∨ j = 1) →
  get_filter (set_filter ctx i f) j = if decide (i = j) then f else get_filter ctx j.
Proof. intros [-> | ->] [-> | ->]; reflexivity. Qed.

Lemma lxor_1 i : (i = 0 ∨ i = 1) → (Z.lxor i 1 = 0 ∨ Z.lxor i 1 = 1) ∧ Z.lxor i 1 ≠ i ∧
  Z.lxor (Z.lxor i 1) 1 = i.
Proof. intros [-> | ->]; simpl; split_and!; auto; done. Qed.

(** Rotation: the old current filter becomes the previous one. *)
Lemma AntiReplayUpdate_spec ctx t :
  ctx_wf ctx →
  ∃ ctx', tls13_AntiReplayUpdate ctx t = Ok ctx' ∧ ctx_wf ctx' ∧ same_config ctx ctx' ∧
    if t >=? nextUpdate ctx
    then current ctx' = Z.lxor (current ctx) 1 ∧ nextUpdate ctx' = t + window ctx ∧
         get_filter ctx' (current ctx) = get_filter ctx (current ctx) ∧
         (∀ i, 0 ≤ i < 2 ^ bits (filter0 ctx) →
            ~ bit_set (filter (get_filter ctx' (current ctx'))) i)
    else ctx' = ctx.
Proof.
  intros Hwf. pose proof (cwf_current _ Hwf) as Hcur. unfold tls13_AntiReplayUpdate.
  destruct (t >=? nextUpdate ctx); [|eauto using same_config_refl].
  destruct (lxor_1 _ Hcur) as (Hx & Hne & _).
  destruct (get_filter_wf ctx (Z.lxor (current ctx) 1) Hwf) as (Hgw & Hgk & Hgb).
  destruct (sslBloom_Zero_spec _ Hgw) as (f & -> & Hf & Hfk & Hfb & Hz). cbn [mbind res_bind].
  set (ctx1 := mk_SSLAntiReplayContext _ _ _ _ _ _ _).
  assert (Hwf1 : ctx_wf ctx1) by (destruct Hwf; by constructor).
  destruct (set_filter_wf ctx1 (Z.lxor (current ctx) 1) f) as [Hw Hs]; [done|done|simpl; congruence..|].
  eexists. split; [done|]. split_and!; try done.
  - rewrite get_set_filter by done. by rewrite decide_False.
  - intros i Hi. change (current (set_filter ctx1 (Z.lxor (current ctx) 1) f)) with (Z.lxor (current ctx) 1).
    rewrite get_set_filter, decide_True by done. apply Hz. by rewrite Hgb.
Qed.

(** The hashes [h] were recorded at time [t1]: they are in the current filter,
    or in the previous one, which survives until [t1 + window]. *)
Definition recorded ctx (h : list Z) (t1 : Z) : Prop :=
  contains (get_filter ctx (current ctx)) h ∨
  (contains (get_filter ctx (Z.lxor (current ctx) 1)) h ∧ t1 + window ctx ≤ nextUpdate ctx).

Lemma Update_recorded ctx t h t1 ctx' :
  ctx_wf ctx → tls13_AntiReplayUpdate ctx t = Ok ctx' → recorded ctx h t1 →
  t1 ≤ t < t1 + window ctx → recorded ctx' h t1.
Proof.
  intros Hwf HU Hrec Ht. pose proof (cwf_current _ Hwf) as Hcur.
  destruct (AntiReplayUpdate_spec ctx t Hwf) as (c & HU' & _ & (_ & _ & _ & Hw) & Hspec).
  assert (c = ctx') as -> by congruence.
  destruct (Z.geb_spec t (nextUpdate ctx)); [|by subst].
  destruct Hspec as (Hc' & Hn' & Hg & _). destruct (lxor_1 _ Hcur) as (_ & _ & Hxx).
  destruct Hrec as [Hin|[_ Hle]]; [|lia].
  right. rewrite Hc', Hxx, Hg, Hw, Hn'. split; [done|lia].
Qed.

(** tls13_IsReplay once the hashes are known. *)
Lemma IsReplay_core ctx a h :
  ctx_wf ctx → hash_of ctx (pskBinder a) = Ok h →
  match creationTime a with
  | None => True | Some c => tls13_InWindow ctx (now a) (ticketAge a) c = true end →
  ∃ v ctx1 ctx', tls13_AntiReplayUpdate ctx (now a) = Ok ctx1 ∧
    tls13_IsReplay (Some ctx) a = Ok (v, Some ctx') ∧
    ctx_wf ctx' ∧ same_config ctx ctx' ∧ current ctx' = current ctx1 ∧
    nextUpdate ctx' = nextUpdate ctx1 ∧
    bloom_le (get_filter ctx1 (current ctx1)) (get_filter ctx' (current ctx1)) ∧
    get_filter ctx' (Z.lxor (current ctx1) 1) = get_filter ctx1 (Z.lxor (current ctx1) 1) ∧
    contains (get_filter ctx' (current ctx1)) h ∧
    (contains (get_filter ctx1 (current ctx1)) h ∨
     contains (get_filter ctx1 (Z.lxor (current ctx1) 1)) h → v = true).
Proof.
  intros Hwf Hh Hwin. unfold tls13_IsReplay.
  assert (match creationTime a with
          | Some c => negb (tls13_InWindow ctx (now a) (ticketAge a) c) | None => false end = false) as ->.
  { destruct (creationTime a); [by rewrite Hwin|done]. }
  pose proof (bwf_k _ (cwf_f0 _ Hwf)). pose proof (bwf_bits _ (cwf_f0 _ Hwf)).
  pose proof (cwf_size _ Hwf).
  rewrite (wrap_small 32 (bits (filter0 ctx) + 7)), wrap_small by lia.
  fold (hash_of ctx (pskBinder a)). rewrite Hh.
  destruct (AntiReplayUpdate_spec ctx (now a) Hwf) as (ctx1 & HU & Hwf1 & Hsc1 & _).
  pose proof (cwf_current _ Hwf1) as Hcur. destruct (lxor_1 _ Hcur) as (Hx & Hne & _).
  rewrite HU. cbn [mbind res_bind].
  assert (Hh1 : hash_of ctx1 (pskBinder a) = Ok h) by (by rewrite (hash_of_config ctx)).
  destruct (get_filter_wf ctx1 (current ctx1) Hwf1) as (Hgw & Hgk & Hgb).
  destruct (sslBloom_Add_spec (get_filter ctx1 (current ctx1)) h Hgw)
    as (found & f' & -> & Hf' & Hle & Hcon & Hfound); [by eapply hash_of_ok|]. cbn [mbind res_bind].
  destruct Hle as (Hk' & Hb' & Hmono).
  destruct (set_filter_wf ctx1 (current ctx1) f') as [Hwf2 Hsc2]; [done|done|congruence..|].
  set (ctx2 := set_filter ctx1 (current ctx1) f') in *.
  assert (Hg2 : get_filter ctx2 (current ctx1) = f').
  { unfold ctx2. by rewrite get_set_filter, decide_True. }
  assert (Hg2' : get_filter ctx2 (Z.lxor (current ctx1) 1) = get_filter ctx1 (Z.lxor (current ctx1) 1)).
  { unfold ctx2. rewrite get_set_filter by done. by rewrite decide_False. }
  assert (Hchk : sslBloom_Check (get_filter ctx2 (Z.lxor (current ctx1) 1)) h =
            Ok (bool_decide (contains (get_filter ctx1 (Z.lxor (current ctx1) 1)) h),
                get_filter ctx1 (Z.lxor (current ctx1) 1))).
  { rewrite Hg2'. apply sslBloom_Check_spec; [by apply get_filter_wf|by eapply hash_of_ok]. }
  exists (found || bool_decide (contains (get_filter ctx1 (Z.lxor (current ctx1) 1)) h)), ctx1, ctx2.
  assert (Hsc : same_config ctx ctx2) by (by eapply same_config_trans).
  rewrite Hg2. split; [done|]. split; [destruct found; [done|by rewrite Hchk]|].
  do 7 (split; [done|]).
  - intros [Hc|Hc]; [by rewrite Hfound|]. by rewrite bool_decide_eq_true_2, orb_true_r.
Qed.

Lemma IsReplay_hkdf_fails ctx a e :
  ctx_wf ctx → hash_of ctx (pskBinder a) = Err e →
  tls13_IsReplay (Some ctx) a = Ok (true, Some ctx).
Proof.
  intros Hwf Hh. unfold tls13_IsReplay. case_match; [done|].
  pose proof (bwf_k _ (cwf_f0 _ Hwf)). pose proof (bwf_bits _ (cwf_f0 _ Hwf)).
  pose proof (cwf_size _ Hwf).
  rewrite (wrap_small 32 (bits (filter0 ctx) + 7)), wrap_small by lia.
  fold (hash_of ctx (pskBinder a)). by rewrite Hh.
Qed.

(** Everything the anti-replay argument needs from one attempt. *)
Lemma IsReplay_spec ctx a :
  ctx_wf ctx →
  ∃ v ctx', tls13_IsReplay (Some ctx) a = Ok (v, Some ctx') ∧ ctx_wf ctx' ∧ same_config ctx ctx' ∧
    (v = false →
       match creationTime a with
       | None => True | Some c => tls13_InWindow ctx (now a) (ticketAge a) c = true end ∧
       ∃ h, hash_of ctx (pskBinder a) = Ok h ∧ recorded ctx' h (now a)) ∧
    (∀ b h t1, hash_of ctx b = Ok h → recorded ctx h t1 → t1 ≤ now a < t1 + window ctx →
       recorded ctx' h t1 ∧ (pskBinder a = b → v = true)).
Proof.
  intros Hwf.
  destruct (match creationTime a with
            | None => true | Some c => tls13_InWindow ctx (now a) (ticketAge a) c end) eqn:Hwin.
  2: { unfold tls13_IsReplay. destruct (creationTime a); [|done]. rewrite Hwin. simpl.
       eexists _, _. split; [done|]. split; [done|]. split; [apply same_config_refl|].
       split; [done|]. auto. }
  assert (Hw' : match creationTime a with
          | None => True | Some c => tls13_InWindow ctx (now a) (ticketAge a) c = true end).
  { by destruct (creationTime a). }
  destruct (hash_of ctx (pskBinder a)) as [h| |] eqn:Hh.
  - destruct (IsReplay_core ctx a h Hwf Hh Hw')
      as (v & ctx1 & ctx' & HU & -> & Hwf' & Hsc & Hcur & Hnu & Hle & Hoth & Hcon & Hdet).
    eexists _, _. split; [done|]. split; [done|]. split; [done|]. split.
    + intros _. split; [done|]. exists h. split; [done|]. left. by rewrite Hcur.
    + intros b h' t1 Hb Hrec Ht.
      assert (Hrec1 : recorded ctx1 h' t1) by exact (Update_recorded ctx (now a) h' t1 ctx1 Hwf HU Hrec Ht).
      destruct (AntiReplayUpdate_spec ctx (now a) Hwf) as (c1 & HU' & Hwf1 & Hsc1 & _).
      assert (c1 = ctx1) as -> by congruence.
      assert (Hb1 : hash_of ctx1 b = Ok h') by (by rewrite (hash_of_config ctx)).
      assert (window ctx' = window ctx1).
      { destruct Hsc as (_ & _ & _ & ->), Hsc1 as (_ & _ & _ & ->). done. }
      split.
      * destruct Hrec1 as [Hc|[Hc Hn]]; [left|right].
        -- rewrite Hcur. eapply contains_mono; [|by eapply hash_of_ok|done|done].
           by apply get_filter_wf.
        -- rewrite Hcur, Hoth. split; [done|]. congruence.
      * intros <-. assert (h' = h) as -> by congruence. apply Hdet.
        destruct Hrec1 as [Hc|[Hc _]]; auto.
  - rewrite (IsReplay_hkdf_fails ctx a _ Hwf Hh).
    eexists _, _. split; [done|]. split; [done|]. split; [apply same_config_refl|].
    split; [done|]. auto.
  - unfold hash_of in Hh. by apply hkdf_no_UB in Hh.
Qed.

(** Attempts arrive in time order. *)
Definition in_order (l : list attempt) : Prop :=
  ∀ i j a b, (i ≤ j)%nat → l !! i = Some a → l !! j = Some b → now a ≤ now b.

Lemma in_order_tail a l : in_order (a :: l) → in_order l ∧ Forall (fun b => now a ≤ now b) l.
Proof.
  intros Ho. split.
  - intros i j x y Hij Hx Hy. apply (Ho (S i) (S j)); [lia|done|done].
  - apply Forall_lookup. intros i b Hb. apply (Ho 0%nat (S i)); [lia|done|done].
Qed.

Lemma run_attempts_total ctx l :
  ctx_wf ctx → ∃ ctx' vs, run_attempts (Some ctx) l = Ok (Some ctx', vs) ∧ ctx_wf ctx' ∧
    same_config ctx ctx' ∧ length vs = length l.
Proof.
  revert ctx. induction l as [|a l IH]; intros ctx Hwf; cbn [run_attempts].
  { eexists _, _. split; [done|]. split; [done|]. split; [apply same_config_refl|done]. }
  destruct (IsReplay_spec ctx a Hwf) as (v & ctx1 & -> & Hwf1 & Hsc & _). cbn [mbind res_bind].
  destruct (IH ctx1 Hwf1) as (ctx2 & vs & -> & Hwf2 & Hsc2 & Hl). cbn [mbind res_bind].
  eexists _, _. split; [done|]. split; [done|]. split; [by eapply same_config_trans|].
  simpl. by rewrite Hl.
Qed.

(** Once recorded, a binder is recognised for a whole window. *)
Lemma recorded_detected ctx l b h t1 octx' vs j a :
  ctx_wf ctx → in_order l → hash_of ctx b = Ok h → recorded ctx h t1 →
  Forall (fun a => t1 ≤ now a) l → run_attempts (Some ctx) l = Ok (octx', vs) →
  l !! j = Some a → pskBinder a = b → now a < t1 + window ctx → vs !! j = Some true.
Proof.
  revert ctx vs j octx'. induction l as [|a0 l IH]; intros ctx vs j octx' Hwf Ho Hh Hrec Ht Hrun Hj Hb Hlt;
    [done|].
  apply in_order_tail in Ho as [Ho Hge]. apply Forall_cons in Ht as [Ht0 Ht].
  cbn [run_attempts] in Hrun.
  destruct (IsReplay_spec ctx a0 Hwf) as (v & ctx1 & HR & Hwf1 & Hsc & _ & Hdet).
  rewrite HR in Hrun. cbn [mbind res_bind] in Hrun.
  destruct (run_attempts_total ctx1 l Hwf1) as (ctx2 & vs2 & Hrun2 & _ & _ & _).
  rewrite Hrun2 in Hrun. cbn [mbind res_bind] in Hrun. simplify_eq.
  destruct j as [|j]; simpl in Hj |- *.
  - simplify_eq. f_equal. destruct (Hdet (pskBinder a) h t1 Hh Hrec) as [_ Hv]; [lia|]. by apply Hv.
  - assert (now a0 ≤ now a) by (by apply (Forall_lookup_1 _ _ _ _ Hge Hj)).
    destruct (Hdet (pskBinder a) h t1 Hh Hrec) as [Hrec1 _]; [lia|].
    assert (window ctx1 = window ctx) as Hww by (by destruct Hsc as (_ & _ & _ & ->)).
    eapply (IH ctx1); try done; [by rewrite (hash_of_config ctx)|by rewrite Hww].
Qed.

(** Two attempts with the same claimed age, both inside the ticket-age window,
    are less than one window apart (as long as the 32-bit age difference does
    not wrap). *)
Definition age_fits (a : attempt) (c : Z) : Prop :=
  c ≤ now a ∧ - 2 ^ 31 < ticketAge a - Z.quot (now a - c) 1000 < 2 ^ 31.

Lemma swrap_le w x : 0 < w → 0 ≤ x → swrap w x ≤ x.
Proof.
  intros Hw Hx. unfold swrap. assert (0 < 2 ^ (w - 1)) by lia.
  pose proof (Z.mod_le (x + 2 ^ (w - 1)) (2 ^ w) ltac:(lia) ltac:(lia)). lia.
Qed.

Lemma InWindow_close ctx a b c :
  0 ≤ window ctx → age_fits a c → age_fits b c → ticketAge a = ticketAge b → now a ≤ now b →
  tls13_InWindow ctx (now a) (ticketAge a) c = true →
  tls13_InWindow ctx (now b) (ticketAge b) c = true →
  now b < now a + window ctx.
Proof.
  intros Hw [Hca Ha] [Hcb Hb] Hage Hab. unfold tls13_InWindow, PR_USEC_PER_MSEC.
  rewrite !(swrap_small 32 (ticketAge _ - _)) by lia. rewrite !Z.ltb_lt.
  pose proof (swrap_le 32 (Z.quot (window ctx) (1000 * 2)) ltac:(lia)
    ltac:(apply Z.quot_pos; lia)) as Hal.
  rewrite !Z.quot_div_nonneg in * by lia.
  set (da := ticketAge a - (now a - c) / 1000) in *. set (db := ticketAge b - (now b - c) / 1000) in *.
  assert (Habs : ∀ d, - 2 ^ 31 < d < 2 ^ 31 →
            (if d <? 0 then swrap 32 (- d) else d) = Z.abs d).
  { intros d Hd. destruct (Z.ltb_spec d 0); [rewrite swrap_small|]; lia. }
  rewrite !Habs by lia. intros H1 H2. unfold da, db in *. clear da db Habs.
  Z.to_euclidean_division_equations. lia.
Qed.

(** An accepted attempt passed the ticket-age check. *)
Lemma verdict_false_in_window ctx l j b c octx' vs :
  ctx_wf ctx → run_attempts (Some ctx) l = Ok (octx', vs) → l !! j = Some b →
  creationTime b = Some c → vs !! j = Some false →
  tls13_InWindow ctx (now b) (ticketAge b) c = true.
Proof.
  revert ctx vs j. induction l as [|a0 l IH]; intros ctx vs j Hwf Hrun Hj Hc Hv; [done|].
  cbn [run_attempts] in Hrun.
  destruct (IsReplay_spec ctx a0 Hwf) as (v & ctx1 & HR & Hwf1 & Hsc & Hacc & _).
  rewrite HR in Hrun. cbn [mbind res_bind] in Hrun.
  destruct (run_attempts_total ctx1 l Hwf1) as (ctx2 & vs2 & Hrun2 & _).
  rewrite Hrun2 in Hrun. cbn [mbind res_bind] in Hrun. simplify_eq.
  destruct j as [|j]; simpl in Hj, Hv.
  - simplify_eq. destruct (Hacc eq_refl) as [Hwin _]. by rewrite Hc in Hwin.
  - assert (Hww : window ctx1 = window ctx) by (by destruct Hsc as (_ & _ & _ & ->)).
    pose proof (IH ctx1 vs2 j Hwf1 Hrun2 Hj Hc Hv) as HI.
    unfold tls13_InWindow in HI |- *. by rewrite <- Hww.
Qed.

(** A full previous filter and no rotation: everything is rejected. *)
Lemma warmup_step ctx a :
  ctx_wf ctx → now a < nextUpdate ctx →
  (∀ h, hash_ok (filter0 ctx) h → contains (get_filter ctx (Z.lxor (current ctx) 1)) h) →
  ∃ ctx', tls13_IsReplay (Some ctx) a = Ok (true, Some ctx') ∧ ctx_wf ctx' ∧
    nextUpdate ctx' = nextUpdate ctx ∧
    (∀ h, hash_ok (filter0 ctx') h → contains (get_filter ctx' (Z.lxor (current ctx') 1)) h).
Proof.
  intros Hwf Hlt Hfull.
  destruct (IsReplay_spec ctx a Hwf) as (v & ctx' & HR & Hwf' & Hsc & Hacc & _).
  assert (HU : tls13_AntiReplayUpdate ctx (now a) = Ok ctx).
  { unfold tls13_AntiReplayUpdate. by destruct (Z.geb_spec (now a) (nextUpdate ctx)); [lia|]. }
  destruct v.
  - destruct (match creationTime a with
              | None => true | Some c => tls13_InWindow ctx (now a) (ticketAge a) c end) eqn:Hwin.
    + assert (Hw' : match creationTime a with
          | None => True | Some c => tls13_InWindow ctx (now a) (ticketAge a) c = true end).
      { by destruct (creationTime a). }
      destruct (hash_of ctx (pskBinder a)) as [h| |] eqn:Hh.
      * destruct (IsReplay_core ctx a h Hwf Hh Hw')
          as (v & c1 & c2 & HU1 & HR1 & _ & _ & Hcur & Hnu & _ & Hoth & _).
        assert (c1 = ctx) as -> by congruence. assert (c2 = ctx') as -> by congruence.
        exists ctx'. split_and!; [done..|]. intros h' [Hb' Hl'].
        destruct Hsc as (Hsk & Hsb & _). rewrite Hcur, Hoth. apply Hfull.
        split; [done|]. by rewrite <- Hsk, <- Hsb.
      * exists ctx. split_and!; try done. by eapply IsReplay_hkdf_fails.
      * unfold hash_of in Hh. by apply hkdf_no_UB in Hh.
    + exists ctx. split_and!; try done. unfold tls13_IsReplay.
      destruct (creationTime a); [|done]. by rewrite Hwin.
  - exfalso. destruct (Hacc eq_refl) as [Hw' (h & Hh & _)].
    destruct (IsReplay_core ctx a h Hwf Hh Hw')
      as (v & c1 & c2 & HU1 & HR1 & _ & _ & _ & _ & _ & _ & _ & Hdet).
    assert (c1 = ctx) as -> by congruence.
    assert (v = true) by (apply Hdet; right; apply Hfull; apply (hash_of_ok ctx _ _ 0 Hwf Hh)).
    congruence.
Qed.

Lemma warmup_run ctx l :
  ctx_wf ctx → Forall (fun a => now a < nextUpdate ctx) l →
  (∀ h, hash_ok (filter0 ctx) h → contains (get_filter ctx (Z.lxor (current ctx) 1)) h) →
  ∃ ctx', run_attempts (Some ctx) l = Ok (Some ctx', replicate (length l) true).
Proof.
  revert ctx. induction l as [|a l IH]; intros ctx Hwf Ht Hfull; cbn [run_attempts]; [eauto|].
  apply Forall_cons in Ht as [Ha Ht].
  destruct (warmup_step ctx a Hwf Ha Hfull) as (ctx1 & -> & Hwf1 & Hnu & Hfull1).
  cbn [mbind res_bind]. destruct (IH ctx1 Hwf1) as (ctx2 & ->); [by rewrite Hnu|done|].
  cbn [mbind res_bind]. eauto.
Qed.

Lemma Create_spec `{NSPRHeap} keygen t w k bits ctx :
  0 < k → 0 < bits ≤ 32 → k * (bits + 7) < 2 ^ 32 →
  SSLExp_CreateAntiReplayContext keygen t w k bits false = Ok ctx →
  ctx_wf ctx ∧ nextUpdate ctx = t + w ∧ window ctx = w ∧ 0 < w ∧
  (∀ h, hash_ok (filter0 ctx) h → contains (get_filter ctx (Z.lxor (current ctx) 1)) h).
Proof.
  intros Hk Hb Hsz. unfold SSLExp_CreateAntiReplayContext.
  rewrite (wrap_small 32 (bits + 7)), wrap_small by lia.
  destruct (Z.leb_spec w 0); [done|]. rewrite (proj2 (Z.eqb_neq k 0)), (proj2 (Z.eqb_neq bits 0)) by lia.
  simpl. case_match; [done|].
  intros (ky & _ & HC)%bind_Ok. apply bind_Ok in HC as (f0 & Hf0 & HC).
  apply bind_Ok in HC as (f1 & Hf1 & HC). apply bind_Ok in HC as (f1' & HF & HC). simplify_eq.
  pose proof (sslBloom_Init_spec k bits Hk Hb) as HI. rewrite Hf0 in HI, Hf1. simplify_eq.
  destruct HI as (Hw0 & Hk0 & Hb0).
  destruct (sslBloom_Fill_spec f1 Hw0) as (f2 & HF2 & Hw2 & Hk2 & Hb2 & Hfull).
  assert (f2 = f1') as -> by congruence.
  split_and!; try done. constructor; cbn [filter0 filter1 current]; auto. by rewrite Hk0, Hb0.
Qed.

End AntiReplay.

(** ** Properties *)


Definition test_filter (m : list Z) : sslBloomFilter := mk_sslBloomFilter 2 3 m.
#[global] Instance test_hkdf : HkdfExpand unit.
Proof.
  refine {| tls13_HkdfExpandLabelRaw _ b size :=
              Ok ((fun x => x mod 256) <$> take (Z.to_nat size) (b ++ replicate (Z.to_nat size) 0)) |}.
  - intros ky b size out Hs [= <-]. split.
    + rewrite length_fmap, length_take, length_app, length_replicate. lia.
    + apply Forall_fmap, Forall_true. intros x. apply Z.mod_pos_bound. lia.
  - done.
Defined.
Definition test_ctx : SSLAntiReplayContext unit :=
  mk_SSLAntiReplayContext 1 (test_filter [0]) (test_filter [0]) 0 20000000 10000000 tt.
Definition test_attempt (t : Z) : attempt := mk_attempt t 1000 (Some 9000000) [32; 64].

Lemma test_ctx_wf : ctx_wf test_ctx.
Proof.
  constructor; simpl; try done; [..|by left];
    (constructor; simpl; try done; repeat constructor; done).
Qed.


(** After start-up nothing is accepted until a full window has passed:
    every 0-RTT attempt before [now + window] on a freshly created context is
    reported as a replay, so early data accepted before a restart cannot be
    replayed after it. *)
Theorem early_data_rejected_after_restart `{NSPRHeap} {Key} `{HkdfExpand Key}
    (keygen : sec_res Key) t w k bits ctx l :
  0 < k → 0 < bits ≤ 32 → k * (bits + 7) < 2 ^ 32 →
  SSLExp_CreateAntiReplayContext keygen t w k bits false = Ok ctx →
  Forall (fun a => now a < t + w) l →
  ∃ ctx', run_attempts (Some ctx) l = Ok (ctx', replicate (length l) true).
Proof.
  intros Hk Hb Hsz HC Hl.
  destruct (Create_spec _ _ _ _ _ _ Hk Hb Hsz HC) as (Hwf & Hnu & _ & _ & Hfull).
  destruct (warmup_run ctx l Hwf) as (ctx' & ->); [by rewrite Hnu|done|]. eauto.
Qed.

Lemma early_data_rejected_after_restart_witness :
  ∃ ctx', run_attempts
    (Some (mk_SSLAntiReplayContext 1 (mk_sslBloomFilter 2 3 [0]) (mk_sslBloomFilter 2 3 [255])
             0 10000100 10000000 tt))
    [mk_attempt 5000 0 None [1; 2]] = Ok (ctx', [true]).
Proof.
  refine (early_data_rejected_after_restart (Ok tt) 100 10000000 2 3 _
    [mk_attempt 5000 0 None [1; 2]] _ _ _ eq_refl _); try done.
  by repeat constructor.
Defined.
