(* ===== verification/MpiBase.v ===== *)
(** lib/freebl/mpi/mpi.c, foundations: multi-precision integers as digit
    vectors, and the magnitude routines on them (clamping, shifting,
    comparison, addition, subtraction).

    The model is the portable 64-bit configuration (MP_USE_LONG_DIGIT with
    MP_NO_MP_WORD: carries are detected by comparison, no double-width word).
    An [mp_int] is its sign and the digits in use, least significant first;
    storage beyond USED is not observable and allocation is assumed to
    succeed, so MP_MEM does not occur.  [res mp_err] carries the error codes. *)

From stdpp Require Import base numbers list.
From S2P Require Import Prelude.

(** ** Data *)

Inductive mp_sign := ZPOS | NEG.
#[export] Instance mp_sign_eq_dec : EqDecision mp_sign.
Proof. solve_decision. Defined.

Inductive mp_err := MP_NO | MP_MEM | MP_RANGE | MP_BADARG | MP_UNDEF.
Abbreviation mp_res := (res mp_err).

Record mp_int := mk_mp { sign : mp_sign; dp : list Z }.
Definition used (m : mp_int) : nat := length (dp m).

Definition MP_DIGIT_BIT : Z := 64.
Definition MP_DIGIT_MAX : Z := 2 ^ 64 - 1.
Definition MP_HALF_DIGIT_BIT : Z := 32.
Definition MP_HALF_DIGIT_MAX : Z := 2 ^ 32 - 1.

Definition B : Z := 2 ^ 64.
Definition is_digit (d : Z) : Prop := 0 ≤ d < B.
Abbreviation digits := (Forall is_digit).

(** The value of a digit vector and of an [mp_int]. *)
Fixpoint eval (l : list Z) : Z :=
  match l with
  | [] => 0
  | d :: l => d + B * eval l
  end.
Definition mag (m : mp_int) : Z := eval (dp m).
Definition val (m : mp_int) : Z := match sign m with ZPOS => mag m | NEG => - mag m end.

(** Digits are in range and at least one is in use. *)
Definition mp_ok (m : mp_int) : Prop := digits (dp m) ∧ dp m ≠ [].
(** No leading zero digit, and zero is not negative. *)
Definition clamped_dp (l : list Z) : Prop := (length l ≤ 1)%nat ∨ ∃ l' d, l = l' ++ [d] ∧ d ≠ 0.
Definition mp_norm (m : mp_int) : Prop := mp_ok m ∧ clamped_dp (dp m) ∧ (mag m = 0 → sign m = ZPOS).

(** ** Operations *)

Definition mp_zero : mp_int := mk_mp ZPOS [0].
Definition mp_set (d : Z) : mp_int := mk_mp ZPOS [d].
Definition mp_set_ulong (z : Z) : mp_int := mk_mp ZPOS [z].
Definition mp_set_int (z : Z) : mp_int :=
  let m := mp_set_ulong (Z.abs z) in
  if z <? 0 then mk_mp NEG (dp m) else m.

(** Extending the precision with zero digits. *)
Definition pad_dp (l : list Z) (min : nat) : list Z := l ++ replicate (min - length l) 0.
Definition s_mp_pad (m : mp_int) (min : nat) : mp_int := mk_mp (sign m) (pad_dp (dp m) min).

(** [while (used > 1 && DIGIT(mp, used - 1) == 0) --used;] *)
Fixpoint clamp_used (l : list Z) (used : nat) : nat :=
  match used with
  | O => O
  | S u => match u with
           | O => used
           | S _ => if l !!! u =? 0 then clamp_used l u else used
           end
  end.

Definition s_mp_clamp (m : mp_int) : mp_int :=
  let used := clamp_used (dp m) (length (dp m)) in
  let l := take used (dp m) in
  mk_mp (if (Nat.eqb used 1) && (l !!! 0%nat =? 0) then ZPOS else sign m) l.

Definition s_mp_exch (a b : mp_int) : mp_int * mp_int := (b, a).

Definition s_mp_lshd (m : mp_int) (p : nat) : mp_int :=
  if Nat.eqb p 0 then m
  else if (Nat.eqb (used m) 1) && (dp m !!! 0%nat =? 0) then m
  else mk_mp (sign m) (replicate p 0 ++ dp m).

Definition s_mp_rshd (m : mp_int) (p : nat) : mp_int :=
  if Nat.eqb p 0 then m
  else if Nat.leb (used m) p then mk_mp ZPOS [0]
  else mk_mp (sign m) (drop p (dp m)).

(** Digit loop of s_mp_mul_2d: [x = *pa; *pa++ = (x << d) | prev;
    prev = (x & mask) >> rshift]. *)
Fixpoint shl_loop (l : list Z) (d rshift mask prev : Z) : list Z :=
  match l with
  | [] => []
  | x :: l =>
      Z.lor (u64 (Z.shiftl x d)) prev
      :: shl_loop l d rshift mask (Z.shiftr (Z.land x mask) rshift)
  end.

Definition s_mp_mul_2d (m : mp_int) (d : Z) : mp_int :=
  let dshift := Z.to_nat (d / MP_DIGIT_BIT) in
  let d := d mod MP_DIGIT_BIT in
  let rshift := (MP_DIGIT_BIT - d) mod MP_DIGIT_BIT in
  let mask := Z.land (u64 (u64 (Z.shiftl MP_DIGIT_MAX rshift) + 1)) (MP_DIGIT_MAX - 1) in
  let x := Z.land (dp m !!! (used m - 1)%nat) mask in
  let m := s_mp_pad m (used m + dshift + (if x =? 0 then 0 else 1)) in
  let m := if Nat.eqb dshift 0 then m else s_mp_lshd m dshift in
  s_mp_clamp (mk_mp (sign m) (take dshift (dp m) ++ shl_loop (drop dshift (dp m)) d rshift mask 0)).

(** [d = *pd; *pd++ = (d << 1) | kin; kin = d >> (DIGIT_BIT - 1)] *)
Fixpoint mul_2_loop (l : list Z) (kin : Z) : list Z * Z :=
  match l with
  | [] => ([], kin)
  | d :: l =>
      let '(r, k) := mul_2_loop l (Z.shiftr d (MP_DIGIT_BIT - 1)) in
      (Z.lor (u64 (Z.shiftl d 1)) kin :: r, k)
  end.

Definition s_mp_mul_2 (m : mp_int) : mp_int :=
  let '(r, kin) := mul_2_loop (dp m) 0 in
  mk_mp (sign m) (if kin =? 0 then r else r ++ [kin]).

Definition s_mp_mod_2d (m : mp_int) (d : Z) : mp_int :=
  let ndig := Z.to_nat (d / MP_DIGIT_BIT) in
  let nbit := d mod MP_DIGIT_BIT in
  if Nat.leb (used m) ndig then m else
  let dmask := u64 (u64 (Z.shiftl 1 nbit) - 1) in
  let l := <[ndig := Z.land (dp m !!! ndig) dmask]> (dp m) in
  s_mp_clamp (mk_mp (sign m) (take (ndig + 1) l ++ replicate (used m - (ndig + 1)) 0)).

(** Digit loop of s_mp_div_2d, from the most significant digit down; returns
    the digits and the bits shifted out at the bottom. *)
Fixpoint shr_loop (l : list Z) (d lshift mask : Z) : list Z * Z :=
  match l with
  | [] => ([], 0)
  | x :: l =>
      let '(r, save) := shr_loop l d lshift mask in
      (Z.lor (u64 (Z.shiftl save lshift)) (Z.shiftr x d) :: r, Z.land x mask)
  end.

Definition s_mp_div_2d (m : mp_int) (d : Z) : mp_int :=
  let m := s_mp_rshd m (Z.to_nat (d / MP_DIGIT_BIT)) in
  let d := d mod MP_DIGIT_BIT in
  let lshift := (MP_DIGIT_BIT - d) mod MP_DIGIT_BIT in
  let mask := u64 (u64 (Z.shiftl 1 d) - 1) in
  s_mp_clamp (mk_mp (sign m) (shr_loop (dp m) d lshift mask).1).

Definition s_mp_div_2 (m : mp_int) : mp_int := s_mp_div_2d m 1.

(** Carry out of the low digit, then [carry = !sum]. *)
Fixpoint add_d_loop (l : list Z) (carry : Z) : list Z * Z :=
  match l with
  | [] => ([], carry)
  | x :: l =>
      if carry =? 0 then (x :: l, 0)
      else let sum := u64 (carry + x) in
           let '(r, c) := add_d_loop l (Z.b2z (sum =? 0)) in (sum :: r, c)
  end.

Definition s_mp_add_d (m : mp_int) (d : Z) : mp_int :=
  match dp m with
  | [] => m
  | x :: l =>
      let sum := u64 (d + x) in
      let '(r, carry) := add_d_loop l (Z.b2z (sum <? d)) in
      mk_mp (sign m) (sum :: (if carry =? 0 then r else r ++ [carry]))
  end.

Fixpoint sub_d_loop (l : list Z) (borrow : Z) : list Z * Z :=
  match l with
  | [] => ([], borrow)
  | x :: l =>
      if borrow =? 0 then (x :: l, 0)
      else let diff := u64 (x - borrow) in
           let '(r, b) := sub_d_loop l (Z.b2z (diff >? x)) in (diff :: r, b)
  end.

(** Both the difference and whether a borrow ran out of the top digit. *)
Definition s_mp_sub_d (m : mp_int) (d : Z) : mp_res mp_int :=
  match dp m with
  | [] => UB
  | x :: l =>
      let diff := u64 (x - d) in
      let '(r, borrow) := sub_d_loop l (Z.b2z (diff >? x)) in
      if borrow =? 0 then Ok (s_mp_clamp (mk_mp (sign m) (diff :: r))) else Err MP_RANGE
  end.

(** The digit loop of s_mp_add over the digits of [b], then the carry ripple. *)
Fixpoint add_loop (la lb : list Z) (carry : Z) : list Z * Z :=
  match lb, la with
  | b :: lb, a :: la =>
      let sum := u64 (a + b) in
      let d := Z.b2z (sum <? a) in
      let sum := u64 (sum + carry) in
      let '(r, c) := add_loop la lb (d + Z.b2z (sum <? carry)) in
      (sum :: r, c)
  | _, _ => add_d_loop la carry
  end.

Definition s_mp_add (a b : mp_int) : mp_int :=
  let la := pad_dp (dp a) (used b) in
  let '(r, carry) := add_loop la (dp b) 0 in
  mk_mp (sign a) (if carry =? 0 then r else r ++ [carry]).

(** s_mp_add_3arg ripples the carry through every remaining digit. *)
Fixpoint ripple_loop (l : list Z) (carry : Z) : list Z * Z :=
  match l with
  | [] => ([], carry)
  | x :: l =>
      let sum := u64 (carry + x) in
      let '(r, c) := ripple_loop l (Z.b2z (sum <? carry)) in (sum :: r, c)
  end.

Fixpoint add3_loop (la lb : list Z) (carry : Z) : list Z * Z :=
  match lb, la with
  | b :: lb, a :: la =>
      let sum := u64 (a + b) in
      let d := Z.b2z (sum <? a) in
      let sum := u64 (sum + carry) in
      let '(r, c) := add3_loop la lb (d + Z.b2z (sum <? carry)) in
      (sum :: r, c)
  | _, _ => ripple_loop la carry
  end.

Definition s_mp_add_3arg (a b : mp_int) : mp_int :=
  let sg := sign a in
  let '(a, b) := if Nat.ltb (used a) (used b) then (b, a) else (a, b) in
  let '(r, carry) := add3_loop (dp a) (dp b) 0 in
  mk_mp sg (if carry =? 0 then r else r ++ [carry]).

(** s_mp_add_offset detects overflow as [sum < d]. *)
Fixpoint add_off_ripple (l : list Z) (carry : Z) : list Z * Z :=
  match l with
  | [] => ([], carry)
  | x :: l =>
      if carry =? 0 then (x :: l, 0)
      else let sum := u64 (x + carry) in
           let '(r, c) := add_off_ripple l (Z.b2z (sum <? x)) in (sum :: r, c)
  end.

Fixpoint add_off_loop (la lb : list Z) (carry : Z) : list Z * Z :=
  match lb, la with
  | b :: lb, a :: la =>
      let sum := u64 (a + b) in
      let d := Z.b2z (sum <? a) in
      let sum := u64 (sum + carry) in
      let '(r, c) := add_off_loop la lb (d + Z.b2z (sum <? carry)) in
      (sum :: r, c)
  | _, _ => add_off_ripple la carry
  end.

Definition s_mp_add_offset (a b : mp_int) (offset : nat) : mp_int :=
  let la := pad_dp (dp a) (used b + offset) in
  let '(r, carry) := add_off_loop (drop offset la) (dp b) 0 in
  s_mp_clamp (mk_mp (sign a) (take offset la ++ (if carry =? 0 then r else r ++ [carry]))).

(** [diff = d - b; d = diff > d; if (borrow && --diff == MP_DIGIT_MAX) ++d;] *)
Fixpoint sub_loop (la lb : list Z) (borrow : Z) : list Z * Z :=
  match lb, la with
  | b :: lb, a :: la =>
      let diff := u64 (a - b) in
      let d := Z.b2z (diff >? a) in
      let '(diff, d) :=
        if negb (borrow =? 0) then
          let diff := u64 (diff - 1) in (diff, d + Z.b2z (diff =? MP_DIGIT_MAX))
        else (diff, d) in
      let '(r, c) := sub_loop la lb d in
      (diff :: r, c)
  | _, _ => sub_d_loop la borrow
  end.

(** Callers ensure |a| >= |b|; with fewer digits in [a] than in [b] the C
    loop would run past the digits of [a]. *)
Definition s_mp_sub (a b : mp_int) : mp_res mp_int :=
  if Nat.ltb (used a) (used b) then UB else
  let '(r, borrow) := sub_loop (dp a) (dp b) 0 in
  if borrow =? 0 then Ok (s_mp_clamp (mk_mp (sign a) r)) else Err MP_RANGE.

(** s_mp_sub_3arg ripples the borrow through every remaining digit. *)
Fixpoint ripple_sub_loop (l : list Z) (borrow : Z) : list Z * Z :=
  match l with
  | [] => ([], borrow)
  | x :: l =>
      let diff := u64 (x - borrow) in
      let '(r, b) := ripple_sub_loop l (Z.b2z (diff >? x)) in (diff :: r, b)
  end.

Fixpoint sub3_loop (la lb : list Z) (borrow : Z) : list Z * Z :=
  match lb, la with
  | b :: lb, a :: la =>
      let diff := u64 (a - b) in
      let d := Z.b2z (diff >? a) in
      let '(diff, d) :=
        if negb (borrow =? 0) then
          let diff := u64 (diff - 1) in (diff, d + Z.b2z (diff =? MP_DIGIT_MAX))
        else (diff, d) in
      let '(r, c) := sub3_loop la lb d in
      (diff :: r, c)
  | _, _ => ripple_sub_loop la borrow
  end.

Definition s_mp_sub_3arg (a b : mp_int) : mp_res mp_int :=
  if Nat.ltb (used a) (used b) then UB else
  let '(r, borrow) := sub3_loop (dp a) (dp b) 0 in
  if borrow =? 0 then Ok (s_mp_clamp (mk_mp (sign a) r)) else Err MP_RANGE.

(** ** Comparison *)

Inductive mp_cmp_t := MP_LT | MP_EQ | MP_GT.

(** Digits from the top down, given both vectors reversed. *)
Fixpoint cmp_loop (ra rb : list Z) : mp_cmp_t :=
  match ra, rb with
  | da :: ra, db :: rb =>
      if da =? db then cmp_loop ra rb else if da >? db then MP_GT else MP_LT
  | _, _ => MP_EQ
  end.

Definition s_mp_cmp (a b : mp_int) : mp_cmp_t :=
  if Nat.ltb (used b) (used a) then MP_GT
  else if Nat.ltb (used a) (used b) then MP_LT
  else cmp_loop (reverse (dp a)) (reverse (dp b)).

Definition s_mp_cmp_d (a : mp_int) (d : Z) : mp_cmp_t :=
  if Nat.ltb 1 (used a) then MP_GT
  else if dp a !!! 0%nat <? d then MP_LT
  else if dp a !!! 0%nat >? d then MP_GT
  else MP_EQ.

Definition mp_cmp_z (a : mp_int) : mp_cmp_t :=
  match sign a with
  | NEG => MP_LT
  | ZPOS => if (Nat.eqb (used a) 1) && (dp a !!! 0%nat =? 0) then MP_EQ else MP_GT
  end.

Definition mp_cmp_d (a : mp_int) (d : Z) : mp_cmp_t :=
  match sign a with NEG => MP_LT | ZPOS => s_mp_cmp_d a d end.

Definition mp_cmp_mag (a b : mp_int) : mp_cmp_t := s_mp_cmp a b.

Definition mp_cmp (a b : mp_int) : mp_cmp_t :=
  if decide (sign a = sign b) then
    match s_mp_cmp a b with
    | MP_EQ => MP_EQ
    | mag => match sign a with
             | ZPOS => mag
             | NEG => match mag with MP_GT => MP_LT | _ => MP_GT end
             end
    end
  else match sign a with ZPOS => MP_GT | NEG => MP_LT end.

Definition mp_isodd (a : mp_int) : bool := negb (Z.land (dp a !!! 0%nat) 1 =? 0).
Definition mp_iseven (a : mp_int) : bool := negb (mp_isodd a).

(** log2 of a power of two by halving masks; -1 for anything else. *)
Definition s_mp_ispow2d (d : Z) : Z :=
  if negb (d =? 0) && (Z.land d (d - 1) =? 0) then
    let bit mask w := if Z.land d mask =? 0 then 0 else w in
    bit 0xffffffff00000000 32 + bit 0xffff0000ffff0000 16 + bit 0xff00ff00ff00ff00 8
    + bit 0xf0f0f0f0f0f0f0f0 4 + bit 0xcccccccccccccccc 2 + bit 0xaaaaaaaaaaaaaaaa 1
  else -1.

(** All digits below the top one are zero. *)
Fixpoint ispow2_loop (rest : list Z) (extra : Z) : Z :=
  match rest with
  | [] => extra
  | d :: rest => if negb (d =? 0) then -1 else ispow2_loop rest (extra + MP_DIGIT_BIT)
  end.

Definition s_mp_ispow2 (v : mp_int) : Z :=
  let ix := (used v - 1)%nat in
  let extra := s_mp_ispow2d (dp v !!! ix) in
  if (extra <? 0) || (Nat.eqb ix 0) then extra
  else ispow2_loop (reverse (take ix (dp v))) extra.

Definition s_mp_2expt (k : Z) : mp_int :=
  let dig := Z.to_nat (k / MP_DIGIT_BIT) in
  let bit := k mod MP_DIGIT_BIT in
  let m := s_mp_pad mp_zero (dig + 1) in
  mk_mp (sign m) (<[dig := Z.lor (dp m !!! dig) (u64 (Z.shiftl 1 bit))]> (dp m)).

(** ** Positional values *)

Lemma B_pos : 0 < B.
Proof. reflexivity. Qed.
Lemma B_pow n : 0 < B ^ Z.of_nat n.
Proof. pose proof B_pos. apply Z.pow_pos_nonneg; lia. Qed.
Lemma B_pow_S n : B ^ Z.of_nat (S n) = B * B ^ Z.of_nat n.
Proof. rewrite Nat2Z.inj_succ, Z.pow_succ_r by lia. done. Qed.
Lemma u64_B x : u64 x = x mod B.
Proof. done. Qed.
#[export] Hint Resolve B_pos B_pow : nss.

(** Facts about the radix that [lia] cannot see. *)
Ltac pose_B :=
  pose proof B_pos;
  repeat match goal with
  | |- context [B ^ Z.of_nat ?n] => lazymatch goal with
      | _ : 0 < B ^ Z.of_nat n |- _ => fail | _ => pose proof (B_pow n) end
  | _ : context [B ^ Z.of_nat ?n] |- _ => lazymatch goal with
      | _ : 0 < B ^ Z.of_nat n |- _ => fail | _ => pose proof (B_pow n) end
  end.

(** [lia] without the hypotheses that mention a power. *)
Ltac plia :=
  repeat match goal with H : context [Z.pow _ _] |- _ => clear H end; lia.

Lemma u64_digit x : is_digit (u64 x).
Proof. rewrite u64_B. apply Z.mod_pos_bound, B_pos. Qed.
Lemma u64_small x : is_digit x → u64 x = x.
Proof. intros H. rewrite u64_B. by apply Z.mod_small. Qed.
#[export] Hint Resolve u64_digit : nss.

Lemma eval_app l1 l2 : eval (l1 ++ l2) = eval l1 + B ^ length l1 * eval l2.
Proof.
  induction l1 as [|d l1 IH]; [simpl; lia|]. cbn [app eval length].
  rewrite IH, B_pow_S. lia.
Qed.

Lemma eval_range l : digits l → 0 ≤ eval l < B ^ length l.
Proof.
  induction 1 as [|d l Hd Hl IH]; [simpl; lia|]. cbn [eval length].
  rewrite B_pow_S. unfold is_digit in Hd. pose_B. nia.
Qed.

Lemma eval_zeros n : eval (replicate n 0) = 0.
Proof. induction n as [|n IH]; [done|]. cbn [replicate eval]. rewrite IH. lia. Qed.

Lemma digits_zeros n : digits (replicate n 0).
Proof. apply Forall_replicate. unfold is_digit. pose_B. lia. Qed.
#[export] Hint Resolve digits_zeros : nss.

Lemma eval_take_drop n l : (n ≤ length l)%nat → eval l = eval (take n l) + B ^ n * eval (drop n l).
Proof.
  intros Hn. rewrite <- (take_drop n l) at 1. rewrite eval_app, length_take, Nat.min_l by done. done.
Qed.

(** Dropping digits divides, keeping them takes the remainder. *)
Lemma eval_drop n l : digits l → eval (drop n l) = eval l / B ^ n.
Proof.
  intros Hl. pose_B. destruct (decide (n ≤ length l)%nat) as [Hn|Hn].
  - pose proof (eval_range (take n l) ltac:(by apply Forall_take)) as Hr.
    rewrite length_take, Nat.min_l in Hr by done.
    rewrite (eval_take_drop n l) at 1 by done.
    rewrite Z.mul_comm, Z.div_add, Z.div_small by lia. lia.
  - rewrite drop_ge by lia. simpl. symmetry. apply Z.div_small.
    pose proof (eval_range l Hl). assert (B ^ length l ≤ B ^ n) by (apply Z.pow_le_mono_r; lia). lia.
Qed.

Lemma eval_take n l : digits l → eval (take n l) = eval l mod B ^ n.
Proof.
  intros Hl. pose_B. destruct (decide (n ≤ length l)%nat) as [Hn|Hn].
  - pose proof (eval_range (take n l) ltac:(by apply Forall_take)) as Hr.
    rewrite length_take, Nat.min_l in Hr by done.
    rewrite (eval_take_drop n l) by done.
    rewrite Z.mul_comm, Z.mod_add, Z.mod_small by lia. done.
  - rewrite take_ge by lia. symmetry. apply Z.mod_small.
    pose proof (eval_range l Hl). assert (B ^ length l ≤ B ^ n) by (apply Z.pow_le_mono_r; lia). lia.
Qed.

Lemma eval_snoc l d : eval (l ++ [d]) = eval l + B ^ length l * d.
Proof. rewrite eval_app. simpl. lia. Qed.

(** Two vectors of the same length with the same value are equal. *)
Lemma eval_inj l1 l2 : digits l1 → digits l2 → length l1 = length l2 → eval l1 = eval l2 → l1 = l2.
Proof.
  revert l2. induction l1 as [|d1 l1 IH]; intros [|d2 l2] H1 H2 Hl He; try done.
  apply Forall_cons in H1 as [Hd1 H1]. apply Forall_cons in H2 as [Hd2 H2].
  cbn [eval] in He. unfold is_digit in *. pose_B.
  assert (d1 = d2) as ->.
  { apply (f_equal (fun x => x mod B)) in He. rewrite !(Z.mul_comm B), !Z.mod_add, !Z.mod_small in He by lia.
    done. }
  f_equal. apply IH; try done; [simpl in Hl; lia|nia].
Qed.

(** ** Carries and borrows *)

Lemma add_digit a b : is_digit a → is_digit b →
  let s := u64 (a + b) in
  a + b = s + B * Z.b2z (s <? a) ∧ Z.b2z (s <? a) = Z.b2z (s <? b) ∧ is_digit s.
Proof.
  intros Ha Hb s. split_and!; [| |apply u64_digit];
    unfold s; rewrite u64_B; unfold is_digit in *; pose_B;
    (destruct (decide (a + b < B));
     [rewrite Z.mod_small by lia
     |replace ((a + b) mod B) with (a + b - B) by (apply Z.mod_unique with 1; lia)]);
    repeat match goal with |- context [?x <? ?y] => destruct (Z.ltb_spec x y) end; simpl; lia.
Qed.

Lemma sub_digit a b : is_digit a → is_digit b →
  let s := u64 (a - b) in a - b = s - B * Z.b2z (s >? a) ∧ is_digit s.
Proof.
  intros Ha Hb s. split; [|apply u64_digit]. unfold s. rewrite u64_B.
  unfold is_digit in *. pose_B. destruct (decide (0 ≤ a - b)).
  - rewrite Z.mod_small by lia. destruct (Z.gtb_spec (a - b) a); simpl; lia.
  - replace ((a - b) mod B) with (a - b + B) by (apply Z.mod_unique with (-1); lia).
    destruct (Z.gtb_spec (a - b + B) a); simpl; lia.
Qed.

Definition bit (c : Z) : Prop := c = 0 ∨ c = 1.

Lemma b2z_bit b : bit (Z.b2z b).
Proof. destruct b; [by right|by left]. Qed.
#[export] Hint Resolve b2z_bit : nss.

Lemma bit_digit c : bit c → is_digit c.
Proof. unfold bit, is_digit. pose proof B_pos. change B with (2 ^ 64) in *. lia. Qed.
#[export] Hint Resolve bit_digit : nss.

(** One column of an addition. *)
Lemma add_column a b carry : is_digit a → is_digit b → bit carry →
  let sum := u64 (a + b) in
  let sum' := u64 (sum + carry) in
  let c := Z.b2z (sum <? a) + Z.b2z (sum' <? carry) in
  a + b + carry = sum' + B * c ∧ bit c ∧ is_digit sum'.
Proof.
  intros Ha Hb Hc sum sum' c.
  destruct (add_digit a b Ha Hb) as (H1 & _ & Hs). fold sum in H1, Hs.
  destruct (add_digit sum carry Hs (bit_digit _ Hc)) as (H2 & H3 & Hs'). fold sum' in H2, H3, Hs'.
  rewrite H3 in H2. split_and!; [unfold c; lia| |done].
  pose proof (b2z_bit (sum <? a)) as Hb1. pose proof (b2z_bit (sum' <? carry)) as Hb2.
  unfold c, bit, is_digit in *. pose_B.
  destruct Hb1 as [E1|E1], Hb2 as [E2|E2]; rewrite E1, E2 in *; lia.
Qed.

(** One column of a subtraction. *)
Lemma sub_column a b borrow : is_digit a → is_digit b → bit borrow →
  let diff := u64 (a - b) in
  let d := Z.b2z (diff >? a) in
  let '(diff', d') :=
    if negb (borrow =? 0) then
      let diff := u64 (diff - 1) in (diff, d + Z.b2z (diff =? MP_DIGIT_MAX))
    else (diff, d) in
  a - b - borrow = diff' - B * d' ∧ bit d' ∧ is_digit diff'.
Proof.
  intros Ha Hb Hbr diff d. destruct (sub_digit a b Ha Hb) as [H1 Hs]. fold diff d in H1, Hs.
  pose proof (b2z_bit (diff >? a)) as Hd. fold d in Hd.
  destruct Hbr as [->| ->]; simpl; [split_and!; [lia|done|done]|].
  destruct (sub_digit diff 1 Hs) as [H2 Hs2]; [apply bit_digit; by right|].
  assert (Hmax : Z.b2z (u64 (diff - 1) >? diff) = Z.b2z (u64 (diff - 1) =? MP_DIGIT_MAX)).
  { f_equal. unfold MP_DIGIT_MAX, is_digit in *. change (2 ^ 64) with B.
    pose_B. destruct (Z.gtb_spec (u64 (diff - 1)) diff), (Z.eqb_spec (u64 (diff - 1)) (B - 1));
      simpl in H2; lia. }
  rewrite Hmax in H2. split_and!; [lia| |done].
  pose proof (b2z_bit (u64 (diff - 1) =? MP_DIGIT_MAX)) as Hx.
  unfold bit, is_digit in *. pose_B.
  destruct Hd as [E1|E1], Hx as [E2|E2]; rewrite E1, E2 in *; lia.
Qed.

(** What every carry loop satisfies. *)
Definition carried (l : list Z) (total : Z) (rc : list Z * Z) : Prop :=
  length rc.1 = length l ∧ digits rc.1 ∧ bit rc.2 ∧ eval rc.1 + B ^ length l * rc.2 = total.
Definition borrowed (l : list Z) (total : Z) (rc : list Z * Z) : Prop :=
  length rc.1 = length l ∧ digits rc.1 ∧ bit rc.2 ∧ eval rc.1 - B ^ length l * rc.2 = total.

Lemma carried_cons l total x s rc :
  carried l total rc → is_digit s → carried (x :: l) (s + B * total) (s :: rc.1, rc.2).
Proof.
  intros (Hl & Hd & Hb & He) Hs. split_and!; simpl; [by rewrite Hl|by constructor|done|].
  change (Z.of_nat (S (length l))) with (Z.of_nat (S (length l))).
  replace (B ^ Z.pos (Pos.of_succ_nat (length l))) with (B ^ Z.of_nat (S (length l))) by done.
  rewrite B_pow_S. rewrite <- He. lia.
Qed.

Lemma borrowed_cons l total x s rc :
  borrowed l total rc → is_digit s → borrowed (x :: l) (s + B * total) (s :: rc.1, rc.2).
Proof.
  intros (Hl & Hd & Hb & He) Hs. split_and!; simpl; [by rewrite Hl|by constructor|done|].
  replace (B ^ Z.pos (Pos.of_succ_nat (length l))) with (B ^ Z.of_nat (S (length l))) by done.
  rewrite B_pow_S. rewrite <- He. lia.
Qed.

Lemma carried_nil c : bit c → carried [] c ([], c).
Proof. intros Hc. split_and!; [done|constructor|done|simpl; lia]. Qed.
Lemma borrowed_nil c : bit c → borrowed [] (- c) ([], c).
Proof. intros Hc. split_and!; [done|constructor|done|simpl; lia]. Qed.

(** ** The loops compute sums and differences *)

(** Adding a carry of one: the sum wraps exactly when it becomes zero. *)
Lemma carry_column x : is_digit x → 1 + x = u64 (1 + x) + B * Z.b2z (u64 (1 + x) =? 0).
Proof.
  intros Hx. destruct (add_digit 1 x (bit_digit 1 (or_intror eq_refl)) Hx) as (H1 & H2 & Hs).
  assert (Z.b2z (u64 (1 + x) =? 0) = Z.b2z (u64 (1 + x) <? 1)) as ->; [|done].
  f_equal. unfold is_digit in *. destruct (Z.eqb_spec (u64 (1 + x)) 0), (Z.ltb_spec (u64 (1 + x)) 1); lia.
Qed.

Lemma add_d_loop_spec l carry : digits l → bit carry →
  carried l (eval l + carry) (add_d_loop l carry).
Proof.
  intros Hl. revert carry. induction Hl as [|x l Hx Hl IH]; intros carry Hc; cbn [add_d_loop].
  { apply (carried_nil carry Hc). }
  destruct Hc as [->| ->]; simpl.
  { split_and!; simpl; [done|by constructor|by left|lia]. }
  specialize (IH (Z.b2z (u64 (1 + x) =? 0)) (b2z_bit _)).
  destruct (add_d_loop l _) as [r c]. pose proof (carry_column x Hx).
  pose proof (carried_cons l _ x (u64 (1 + x)) (r, c) IH (u64_digit _)) as HC. simpl in HC.
  replace (x + B * eval l + 1)
    with (u64 (1 + x) + B * (eval l + Z.b2z (u64 (1 + x) =? 0))) by lia. done.
Qed.

Lemma add_off_ripple_spec l carry : digits l → bit carry →
  carried l (eval l + carry) (add_off_ripple l carry).
Proof.
  intros Hl. revert carry. induction Hl as [|x l Hx Hl IH]; intros carry Hc; cbn [add_off_ripple].
  { apply (carried_nil carry Hc). }
  destruct (Z.eqb_spec carry 0) as [->|Hnz].
  { split_and!; simpl; [done|by constructor|by left|lia]. }
  destruct (add_digit x carry Hx (bit_digit _ Hc)) as (H1 & _ & Hs).
  specialize (IH (Z.b2z (u64 (x + carry) <? x)) (b2z_bit _)).
  destruct (add_off_ripple l _) as [r c].
  pose proof (carried_cons l _ x (u64 (x + carry)) (r, c) IH Hs) as HC. simpl in HC. cbn [eval].
  replace (x + B * eval l + carry)
    with (u64 (x + carry) + B * (eval l + Z.b2z (u64 (x + carry) <? x))) by lia. done.
Qed.

Lemma ripple_loop_spec l carry : digits l → bit carry →
  carried l (eval l + carry) (ripple_loop l carry).
Proof.
  intros Hl. revert carry. induction Hl as [|x l Hx Hl IH]; intros carry Hc; cbn [ripple_loop].
  { apply (carried_nil carry Hc). }
  destruct (add_digit carry x (bit_digit _ Hc) Hx) as (H1 & _ & Hs).
  specialize (IH (Z.b2z (u64 (carry + x) <? carry)) (b2z_bit _)).
  destruct (ripple_loop l _) as [r c].
  pose proof (carried_cons l _ x (u64 (carry + x)) (r, c) IH Hs) as HC. simpl in HC. cbn [eval].
  replace (x + B * eval l + carry)
    with (u64 (carry + x) + B * (eval l + Z.b2z (u64 (carry + x) <? carry))) by lia. done.
Qed.

(** The three addition loops differ only in how they finish. *)
Ltac solve_add_loop finish :=
  match goal with |- ∀ (la lb : list Z) carry, _ =>
    intros la lb; revert la; induction lb as [|b lb IH]; intros la carry Hla Hlb Hc Hlen;
    [destruct la; simpl; rewrite Z.add_0_r; by apply finish|];
    destruct la as [|a la]; [simpl in Hlen; lia|];
    apply Forall_cons in Hla as [Ha Hla]; apply Forall_cons in Hlb as [Hb Hlb];
    destruct (add_column a b carry Ha Hb Hc) as (Hcol & Hbit & Hdig);
    cbn zeta beta in *;
    specialize (IH la (Z.b2z (u64 (a + b) <? a) + Z.b2z (u64 (u64 (a + b) + carry) <? carry))
      Hla Hlb Hbit ltac:(simpl in Hlen; lia))
  end.

Lemma add_loop_spec : ∀ la lb carry, digits la → digits lb → bit carry → (length lb ≤ length la)%nat →
  carried la (eval la + eval lb + carry) (add_loop la lb carry).
Proof.
  solve_add_loop add_d_loop_spec. cbn [add_loop]. destruct (add_loop la lb _) as [r c].
  pose proof (carried_cons la _ a _ (r, c) IH Hdig) as HC. simpl in HC. cbn [eval].
  match goal with HC : carried _ ?t _ |- carried _ ?u _ => replace u with t by lia end. done.
Qed.

Lemma add3_loop_spec : ∀ la lb carry, digits la → digits lb → bit carry → (length lb ≤ length la)%nat →
  carried la (eval la + eval lb + carry) (add3_loop la lb carry).
Proof.
  solve_add_loop ripple_loop_spec. cbn [add3_loop]. destruct (add3_loop la lb _) as [r c].
  pose proof (carried_cons la _ a _ (r, c) IH Hdig) as HC. simpl in HC. cbn [eval].
  match goal with HC : carried _ ?t _ |- carried _ ?u _ => replace u with t by lia end. done.
Qed.

Lemma add_off_loop_spec : ∀ la lb carry, digits la → digits lb → bit carry → (length lb ≤ length la)%nat →
  carried la (eval la + eval lb + carry) (add_off_loop la lb carry).
Proof.
  solve_add_loop add_off_ripple_spec. cbn [add_off_loop]. destruct (add_off_loop la lb _) as [r c].
  pose proof (carried_cons la _ a _ (r, c) IH Hdig) as HC. simpl in HC. cbn [eval].
  match goal with HC : carried _ ?t _ |- carried _ ?u _ => replace u with t by lia end. done.
Qed.

Lemma sub_d_loop_spec l borrow : digits l → bit borrow →
  borrowed l (eval l - borrow) (sub_d_loop l borrow).
Proof.
  intros Hl. revert borrow. induction Hl as [|x l Hx Hl IH]; intros borrow Hb; cbn [sub_d_loop].
  { apply (borrowed_nil borrow Hb). }
  destruct (Z.eqb_spec borrow 0) as [->|Hnz].
  { split_and!; simpl; [done|by constructor|by left|lia]. }
  destruct (sub_digit x borrow Hx (bit_digit _ Hb)) as (H1 & Hs).
  specialize (IH (Z.b2z (u64 (x - borrow) >? x)) (b2z_bit _)).
  destruct (sub_d_loop l _) as [r c].
  pose proof (borrowed_cons l _ x (u64 (x - borrow)) (r, c) IH Hs) as HC. simpl in HC. cbn [eval].
  match goal with HC : borrowed _ ?t _ |- borrowed _ ?u _ => replace u with t by lia end. done.
Qed.

Lemma ripple_sub_loop_spec l borrow : digits l → bit borrow →
  borrowed l (eval l - borrow) (ripple_sub_loop l borrow).
Proof.
  intros Hl. revert borrow. induction Hl as [|x l Hx Hl IH]; intros borrow Hb; cbn [ripple_sub_loop].
  { apply (borrowed_nil borrow Hb). }
  destruct (sub_digit x borrow Hx (bit_digit _ Hb)) as (H1 & Hs).
  specialize (IH (Z.b2z (u64 (x - borrow) >? x)) (b2z_bit _)).
  destruct (ripple_sub_loop l _) as [r c].
  pose proof (borrowed_cons l _ x (u64 (x - borrow)) (r, c) IH Hs) as HC. simpl in HC. cbn [eval].
  match goal with HC : borrowed _ ?t _ |- borrowed _ ?u _ => replace u with t by lia end. done.
Qed.

Ltac solve_sub_loop loop finish :=
  match goal with |- ∀ (la lb : list Z) borrow, _ =>
    intros la lb; revert la; induction lb as [|b lb IH]; intros la borrow Hla Hlb Hbr Hlen;
    [destruct la; simpl; rewrite Z.sub_0_r; by apply finish|];
    destruct la as [|a la]; [simpl in Hlen; lia|];
    apply Forall_cons in Hla as [Ha Hla]; apply Forall_cons in Hlb as [Hb Hlb];
    pose proof (sub_column a b borrow Ha Hb Hbr) as Hcol; cbn [loop]; cbv zeta in *;
    destruct (if negb (borrow =? 0) then _ else _) as [diff d];
    destruct Hcol as (Hcol & Hbit & Hdig);
    specialize (IH la d Hla Hlb Hbit ltac:(simpl in Hlen; lia));
    destruct (loop la lb d) as [r c];
    pose proof (borrowed_cons la _ a diff (r, c) IH Hdig) as HC; simpl in HC; cbn [eval];
    match type of HC with borrowed _ ?t _ => match goal with |- borrowed _ ?u _ =>
      replace u with t by lia end end;
    exact HC
  end.

Lemma sub_loop_spec : ∀ la lb borrow, digits la → digits lb → bit borrow → (length lb ≤ length la)%nat →
  borrowed la (eval la - eval lb - borrow) (sub_loop la lb borrow).
Proof. solve_sub_loop sub_loop sub_d_loop_spec. Qed.

Lemma sub3_loop_spec : ∀ la lb borrow, digits la → digits lb → bit borrow → (length lb ≤ length la)%nat →
  borrowed la (eval la - eval lb - borrow) (sub3_loop la lb borrow).
Proof. solve_sub_loop sub3_loop ripple_sub_loop_spec. Qed.

(** ** Clamping and normal form *)

Lemma eval_S_take l n : (n < length l)%nat → eval (take (S n) l) = eval (take n l) + B ^ n * l !!! n.
Proof.
  intros Hn. destruct (lookup_lt_is_Some_2 l n Hn) as [x Hx].
  rewrite (take_S_r _ _ _ Hx), eval_snoc, (list_lookup_total_correct _ _ _ Hx), length_take, Nat.min_l by lia.
  done.
Qed.

Lemma clamp_used_spec l n : (n ≤ length l)%nat →
  let u := clamp_used l n in
  (u ≤ n)%nat ∧ (0 < n → 0 < u)%nat ∧ eval (take u l) = eval (take n l) ∧
  ((u ≤ 1)%nat ∨ l !!! (u - 1)%nat ≠ 0).
Proof.
  intros Hn. induction n as [|n IH]; [simpl; split_and!; done || lia|].
  destruct n as [|n].
  { simpl. split_and!; done || lia. }
  assert (clamp_used l (S (S n)) = if l !!! S n =? 0 then clamp_used l (S n) else S (S n)) as -> by done.
  destruct (Z.eqb_spec (l !!! S n) 0) as [Hz|Hnz].
  - destruct IH as (Hle & Hpos & He & Hu); [lia|]. cbn zeta in *. split_and!; [lia|lia| |done].
    rewrite He, (eval_S_take l (S n)), Hz by lia. lia.
  - cbn zeta. split_and!; [lia|lia|done|]. right. by replace (S (S n) - 1)%nat with (S n) by lia.
Qed.

(** Clamped vectors are those whose value reaches their top digit. *)
Lemma clamped_bound l : digits l → clamped_dp l ↔ (length l ≤ 1)%nat ∨ B ^ (length l - 1)%nat ≤ eval l.
Proof.
  intros Hl. unfold clamped_dp. split; (intros [H|H]; [by left|]).
  - destruct H as (l' & d & -> & Hd). right. apply Forall_app in Hl as [Hl' Hd'].
    rewrite Forall_singleton in Hd'. rewrite length_app, eval_snoc. simpl length.
    replace (length l' + 1 - 1)%nat with (length l') by lia.
    pose proof (eval_range l' Hl'). unfold is_digit in Hd'. pose_B. nia.
  - destruct l as [|x l0] using rev_ind; [left; simpl; lia|]. clear IHl0.
    right. exists l0, x. split; [done|]. intros ->. rewrite eval_snoc, length_app in H. simpl length in H.
    replace (length l0 + 1 - 1)%nat with (length l0) in H by lia.
    apply Forall_app in Hl as [Hl0 _]. pose proof (eval_range l0 Hl0). lia.
Qed.

Lemma lookup_total_digit l i : digits l → (i < length l)%nat → is_digit (l !!! i).
Proof.
  intros Hl Hi. destruct (lookup_lt_is_Some_2 l i Hi) as [x Hx].
  rewrite (list_lookup_total_correct _ _ _ Hx). by apply (Forall_lookup_1 _ _ _ _ Hl Hx).
Qed.

Lemma s_mp_clamp_spec m : mp_ok m →
  mp_norm (s_mp_clamp m) ∧ mag (s_mp_clamp m) = mag m ∧ val (s_mp_clamp m) = val m ∧
  (mag m ≠ 0 → sign (s_mp_clamp m) = sign m) ∧ (used (s_mp_clamp m) ≤ used m)%nat.
Proof.
  intros [Hd Hne]. assert (0 < length (dp m))%nat by (destruct (dp m); [done|simpl; lia]).
  pose proof (clamp_used_spec (dp m) (length (dp m)) ltac:(lia)) as (Hle & Hpos & He & Hu).
  rewrite firstn_all in He. set (u := clamp_used (dp m) (length (dp m))) in *.
  assert (Hdp : dp (s_mp_clamp m) = take u (dp m)) by done.
  assert (Hmag : mag (s_mp_clamp m) = mag m) by (unfold mag; by rewrite Hdp).
  assert (Hd' : digits (take u (dp m))) by (by apply Forall_take).
  assert (Hl' : length (take u (dp m)) = u) by (rewrite length_take; lia).
  assert (Hzero : mag m = 0 → Nat.eqb u 1 && (take u (dp m) !!! 0%nat =? 0) = true).
  { unfold mag. intros Hm0. rewrite Hm0 in He. clearbody u. clear Hmag Hdp.
    destruct Hu as [Hu|Hu].
    - assert (u = 1%nat) as -> by lia. simpl. destruct (dp m) as [|x l]; [done|]. simpl in He |- *.
      apply Z.eqb_eq. lia.
    - exfalso. pose proof (eval_range (take (u - 1) (dp m)) ltac:(by apply Forall_take)).
      pose proof (eval_S_take (dp m) (u - 1) ltac:(lia)) as HS.
      replace (S (u - 1)) with u in HS by lia.
      pose proof (lookup_total_digit (dp m) (u - 1) Hd ltac:(lia)). unfold is_digit in *.
      pose_B. nia. }
  assert (Hsgn : mag m ≠ 0 → sign (s_mp_clamp m) = sign m).
  { intros Hm0. unfold s_mp_clamp. simpl sign. fold u.
    destruct (Nat.eqb_spec u 1) as [Hu1|]; simpl; [|done].
    destruct (Z.eqb_spec (take u (dp m) !!! 0%nat) 0) as [Hz|]; [|done].
    exfalso. apply Hm0. unfold mag. rewrite <- He, Hu1 in *.
    destruct (dp m) as [|x l]; [done|]. simpl in *. lia. }
  split_and!; [|done| |done|unfold used; rewrite Hdp; lia].
  - split_and!.
    + split; rewrite Hdp; [done|]. intros Hn. rewrite Hn in Hl'. simpl in Hl'. lia.
    + rewrite Hdp. destruct Hu as [Hu|Hu]; [left; lia|right].
      exists (take (u - 1) (dp m)), (dp m !!! (u - 1)%nat). split; [|done].
      destruct (lookup_lt_is_Some_2 (dp m) (u - 1)) as [x Hx]; [lia|].
      rewrite (list_lookup_total_correct _ _ _ Hx), <- (take_S_r _ _ _ Hx). f_equal. lia.
    + rewrite Hmag. intros Hm0. unfold s_mp_clamp. simpl sign. fold u. by rewrite Hzero.
  - unfold val. rewrite Hmag. destruct (decide (mag m = 0)) as [Hm0|Hm0].
    + rewrite Hm0. by destruct (sign _), (sign _).
    + by rewrite Hsgn.
Qed.

Lemma mp_ok_used m : mp_ok m → (0 < used m)%nat.
Proof. intros [_ Hne]. unfold used. destruct (dp m); [done|simpl; lia]. Qed.
Lemma mag_range m : mp_ok m → 0 ≤ mag m < B ^ used m.
Proof. intros [Hd _]. by apply eval_range. Qed.

(** A clamped magnitude is at least the weight of its top digit. *)
Lemma norm_lower m : mp_norm m → (used m ≤ 1)%nat ∨ B ^ (used m - 1)%nat ≤ mag m.
Proof. intros (Hok & Hc & _). by apply clamped_bound in Hc; [|apply Hok]. Qed.

(** Smaller clamped magnitudes have no more digits. *)
Lemma norm_used_le a b : mp_norm a → mp_ok b → mag a ≤ mag b → (used a ≤ used b)%nat.
Proof.
  intros Ha Hb Hle. pose proof (mp_ok_used _ Hb). destruct (norm_lower a Ha) as [?|Hlow]; [lia|].
  pose proof (mag_range b Hb). destruct (decide (used a ≤ used b)%nat); [done|exfalso].
  assert (B ^ used b ≤ B ^ (used a - 1)%nat) by (apply Z.pow_le_mono_r; [apply B_pos|lia]). lia.
Qed.

Lemma norm_eq_mag a b : mp_norm a → mp_norm b → mag a = mag b → dp a = dp b.
Proof.
  intros Ha Hb He. apply eval_inj; [apply Ha|apply Hb| |done].
  pose proof (norm_used_le a b Ha (proj1 Hb) ltac:(lia)).
  pose proof (norm_used_le b a Hb (proj1 Ha) ltac:(lia)). unfold used in *. lia.
Qed.

(** Normal forms are unique. *)
Lemma norm_unique a b : mp_norm a → mp_norm b → val a = val b → a = b.
Proof.
  intros Ha Hb He. pose proof (mag_range a (proj1 Ha)). pose proof (mag_range b (proj1 Hb)).
  assert (mag a = mag b) as Hm by (unfold val in He; destruct (sign a), (sign b); lia).
  assert (sign a = sign b) as Hs.
  { destruct Ha as (_ & _ & Ha0), Hb as (_ & _ & Hb0). unfold val in He.
    destruct (decide (mag a = 0)) as [Hz|Hz]; [rewrite Ha0, Hb0 by lia; done|].
    destruct (sign a), (sign b); done || lia. }
  pose proof (norm_eq_mag a b Ha Hb Hm) as Hdp. destruct a, b. simpl in *. by subst.
Qed.

(** ** Comparison *)

Definition cmp_of (c : comparison) : mp_cmp_t := match c with Lt => MP_LT | Eq => MP_EQ | Gt => MP_GT end.

Lemma cmp_loop_spec la lb : digits la → digits lb → length la = length lb →
  cmp_loop (reverse la) (reverse lb) = cmp_of (eval la ?= eval lb).
Proof.
  revert lb. induction la as [|da la IH] using rev_ind; intros lb Hla Hlb Hlen.
  { destruct lb; [done|simpl in Hlen; lia]. }
  destruct lb as [|db lb _] using rev_ind; [rewrite length_app in Hlen; simpl in Hlen; lia|].
  apply Forall_app in Hla as [Hla Hda]. apply Forall_app in Hlb as [Hlb Hdb].
  rewrite Forall_singleton in Hda, Hdb. rewrite !length_app in Hlen. simpl in Hlen.
  rewrite !reverse_snoc, !eval_snoc. simpl. rewrite IH by (done || lia).
  pose proof (eval_range la Hla). pose proof (eval_range lb Hlb).
  replace (length lb) with (length la) in * by lia. unfold is_digit in *. pose_B.
  destruct (Z.eqb_spec da db) as [->|Hne].
  - f_equal. destruct (Z.compare_spec (eval la) (eval lb)), (Z.compare_spec
      (eval la + B ^ length la * db) (eval lb + B ^ length la * db)); done || lia.
  - destruct (Z.gtb_spec da db); simpl;
      destruct (Z.compare_spec (eval la + B ^ length la * da) (eval lb + B ^ length la * db));
      try done; nia.
Qed.

Lemma s_mp_cmp_spec a b : mp_norm a → mp_norm b → s_mp_cmp a b = cmp_of (mag a ?= mag b).
Proof.
  intros Ha Hb. unfold s_mp_cmp.
  destruct (Nat.ltb_spec (used b) (used a)) as [Hlt|Hge].
  { destruct (Z.compare_spec (mag a) (mag b)) as [He|Hl|Hg]; [..|done].
    - pose proof (norm_used_le a b Ha (proj1 Hb) ltac:(lia)). lia.
    - pose proof (norm_used_le a b Ha (proj1 Hb) ltac:(lia)). lia. }
  destruct (Nat.ltb_spec (used a) (used b)) as [Hlt|Hge'].
  { destruct (Z.compare_spec (mag a) (mag b)) as [He|Hl|Hg]; [|done|].
    - pose proof (norm_used_le b a Hb (proj1 Ha) ltac:(lia)). lia.
    - pose proof (norm_used_le b a Hb (proj1 Ha) ltac:(lia)). lia. }
  apply cmp_loop_spec; [apply Ha|apply Hb|]. unfold used in *. lia.
Qed.

Lemma mp_cmp_spec a b : mp_norm a → mp_norm b → mp_cmp a b = cmp_of (val a ?= val b).
Proof.
  intros Ha Hb. unfold mp_cmp. rewrite s_mp_cmp_spec by done. unfold val.
  pose proof (mag_range a (proj1 Ha)). pose proof (mag_range b (proj1 Hb)).
  assert (Hna : sign a = NEG → 0 < mag a).
  { intros Hs. destruct (decide (mag a = 0)) as [Hz|]; [|lia]. apply Ha in Hz. congruence. }
  assert (Hnb : sign b = NEG → 0 < mag b).
  { intros Hs. destruct (decide (mag b = 0)) as [Hz|]; [|lia]. apply Hb in Hz. congruence. }
  destruct (sign a) eqn:Hsa, (sign b) eqn:Hsb; case_decide; try done.
  - by destruct (mag a ?= mag b).
  - specialize (Hnb eq_refl). destruct (Z.compare_spec (mag a) (- mag b)); done || lia.
  - specialize (Hna eq_refl). destruct (Z.compare_spec (- mag a) (mag b)); done || lia.
  - destruct (Z.compare_spec (mag a) (mag b)), (Z.compare_spec (- mag a) (- mag b)); done || lia.
Qed.

Lemma mp_cmp_z_spec a : mp_norm a → mp_cmp_z a = cmp_of (val a ?= 0).
Proof.
  intros Ha. pose proof Ha as (Hok & Hc & H0). pose proof (mag_range a Hok). pose proof (mp_ok_used a Hok).
  unfold mp_cmp_z, val. destruct (sign a) eqn:Hs.
  - destruct (Nat.eqb_spec (used a) 1) as [Hu|Hu]; simpl.
    + unfold used, mag in *. destruct (dp a) as [|x [|y l]]; simpl in *; try lia.
      destruct (Z.eqb_spec x 0), (Z.compare_spec (x + B * 0) 0); done || lia.
    + destruct (norm_lower a Ha) as [|Hl]; [lia|]. pose proof (B_pow (used a - 1)).
      destruct (Z.compare_spec (mag a) 0); done || lia.
  - destruct (decide (mag a = 0)) as [Hz|Hz]; [apply H0 in Hz; congruence|].
    destruct (Z.compare_spec (- mag a) 0); done || lia.
Qed.

(** ** Magnitude arithmetic on [mp_int]s *)

(** [m] is in normal form with magnitude [v], and sign [s] unless zero. *)
Definition norm_mag (m : mp_int) (s : mp_sign) (v : Z) : Prop :=
  mp_norm m ∧ mag m = v ∧ (v ≠ 0 → sign m = s).
Definition signed (s : mp_sign) (v : Z) : Z := match s with ZPOS => v | NEG => - v end.

Lemma norm_mag_val m s v : norm_mag m s v → val m = signed s v.
Proof.
  intros (Hn & Hm & Hs). unfold val. rewrite Hm. destruct (decide (v = 0)) as [->|Hv].
  - by destruct (sign m), s.
  - by rewrite Hs.
Qed.

Lemma norm_mag_self m : mp_norm m → norm_mag m (sign m) (mag m).
Proof. done. Qed.

Lemma norm_mag_ok m s v : norm_mag m s v → mp_ok m ∧ 0 ≤ v.
Proof. intros (Hn & <- & _). split; [apply Hn|]. pose proof (mag_range m (proj1 Hn)). lia. Qed.

Lemma clamp_norm_mag m : mp_ok m → norm_mag (s_mp_clamp m) (sign m) (mag m).
Proof. intros Hm. destruct (s_mp_clamp_spec m Hm) as (? & ? & _ & ? & _). done. Qed.

Lemma mk_norm s l : digits l → l ≠ [] → ((length l ≤ 1)%nat ∨ B ^ (length l - 1)%nat ≤ eval l) →
  (eval l = 0 → s = ZPOS) → mp_norm (mk_mp s l).
Proof. intros Hd Hne Hc Hs. split_and!; [done|by apply clamped_bound|done]. Qed.

(** Writing the final carry, if any, as a new top digit. *)
Definition push_carry (rc : list Z * Z) : list Z := if rc.2 =? 0 then rc.1 else rc.1 ++ [rc.2].

Lemma push_carry_spec l total rc : carried l total rc →
  let r := push_carry rc in
  digits r ∧ eval r = total ∧ (length l ≤ length r ≤ S (length l))%nat ∧
  (((length l ≤ 1)%nat ∨ B ^ (length l - 1)%nat ≤ total) → (l ≠ []) →
   (length r ≤ 1)%nat ∨ B ^ (length r - 1)%nat ≤ total).
Proof.
  destruct rc as [r c]. intros (Hl & Hd & Hb & He); simpl in *. unfold push_carry; simpl.
  destruct Hb as [->| ->]; simpl.
  - split_and!; [done|lia|lia|lia|]. rewrite Hl. done.
  - assert (digits (r ++ [1])) as Hd1.
    { apply Forall_app. split; [done|]. constructor; [apply bit_digit; by right|done]. }
    rewrite length_app. cbn [length]. split_and!; [done|rewrite eval_snoc, Hl; lia|lia|lia|].
    intros _ _. right. replace (length r + 1 - 1)%nat with (length l) by lia.
    pose proof (eval_range r Hd). lia.
Qed.

Lemma pad_dp_spec l n : digits l →
  digits (pad_dp l n) ∧ eval (pad_dp l n) = eval l ∧ length (pad_dp l n) = Nat.max (length l) n.
Proof.
  intros Hl. unfold pad_dp. rewrite eval_app, eval_zeros, length_app, length_replicate.
  split_and!; [apply Forall_app; auto with nss|lia|lia].
Qed.

Lemma s_mp_pad_spec m n : mp_ok m → mp_ok (s_mp_pad m n) ∧ mag (s_mp_pad m n) = mag m ∧
  sign (s_mp_pad m n) = sign m ∧ used (s_mp_pad m n) = Nat.max (used m) n.
Proof.
  intros [Hd Hne]. destruct (pad_dp_spec (dp m) n Hd) as (H1 & H2 & H3). split_and!; try done.
  split; [done|]. simpl. unfold pad_dp. destruct (dp m); done.
Qed.

Lemma norm_top m : mp_norm m → (length (dp m) ≤ 1)%nat ∨ B ^ (length (dp m) - 1)%nat ≤ eval (dp m).
Proof. apply norm_lower. Qed.

(** The larger of two clamped vectors bounds their sum from below. *)
Lemma sum_top a b n : mp_norm a → mp_norm b → n = Nat.max (used a) (used b) →
  (n ≤ 1)%nat ∨ B ^ (n - 1)%nat ≤ mag a + mag b.
Proof.
  intros Ha Hb ->. pose proof (mag_range a (proj1 Ha)). pose proof (mag_range b (proj1 Hb)).
  destruct (Nat.max_spec (used a) (used b)) as [[? ->]|[? ->]];
    [destruct (norm_lower b Hb)|destruct (norm_lower a Ha)]; (by left) || (right; lia).
Qed.

Lemma sum_sign a b : mp_norm a → mp_norm b → mag a + mag b = 0 → sign a = ZPOS.
Proof.
  intros Ha Hb H. pose proof (mag_range a (proj1 Ha)). pose proof (mag_range b (proj1 Hb)).
  apply Ha. lia.
Qed.

Lemma s_mp_add_spec a b : mp_norm a → mp_norm b → norm_mag (s_mp_add a b) (sign a) (mag a + mag b).
Proof.
  intros Ha Hb. destruct (pad_dp_spec (dp a) (used b) ltac:(apply Ha)) as (Hpd & Hpe & Hpl).
  pose proof (add_loop_spec (pad_dp (dp a) (used b)) (dp b) 0 Hpd ltac:(apply Hb) ltac:(by left)
    ltac:(unfold used in *; lia)) as Hc.
  pose proof (mp_ok_used a (proj1 Ha)). unfold s_mp_add.
  destruct (add_loop _ _ 0) as [r c]. destruct (push_carry_spec _ _ _ Hc) as (Hd & He & Hl & Htop).
  change (if c =? 0 then r else r ++ [c]) with (push_carry (r, c)).
  rewrite Hpe, Z.add_0_r in *. unfold used in *.
  assert (pad_dp (dp a) (length (dp b)) ≠ []) as Hne by (intros E; rewrite E in Hpl; simpl in Hpl; lia).
  split_and!; [apply mk_norm| |]; try done.
  - intros E. rewrite E in Hl. simpl in Hl. lia.
  - rewrite He. apply Htop; [|done]. apply (sum_top a b); done.
  - rewrite He. by apply (sum_sign a b).
Qed.

Lemma s_mp_add_3arg_spec a b : mp_norm a → mp_norm b →
  norm_mag (s_mp_add_3arg a b) (sign a) (mag a + mag b).
Proof.
  intros Ha Hb.
  assert (∀ x y, mp_norm x → mp_norm y → (used y ≤ used x)%nat → mag x + mag y = mag a + mag b →
    norm_mag (mk_mp (sign a) (push_carry (add3_loop (dp x) (dp y) 0))) (sign a) (mag a + mag b)) as Hgen.
  { intros x y Hx Hy Hle Hsum.
    pose proof (add3_loop_spec (dp x) (dp y) 0 ltac:(apply Hx) ltac:(apply Hy) ltac:(by left) Hle) as Hc.
    destruct (push_carry_spec _ _ _ Hc) as (Hd & He & Hl & Htop).
    rewrite Z.add_0_r in *. fold (mag x) (mag y) in *. rewrite Hsum in *.
    pose proof (mp_ok_used x (proj1 Hx)). unfold used in *.
    split_and!; [apply mk_norm| |]; try done.
    - intros E. rewrite E in Hl. simpl in Hl. lia.
    - rewrite He. apply Htop; [|apply Hx]. rewrite <- Hsum. apply (sum_top x y); unfold used; done || lia.
    - rewrite He. by apply (sum_sign a b). }
  unfold s_mp_add_3arg. destruct (Nat.ltb_spec (used a) (used b)) as [Hlt|Hge].
  - specialize (Hgen b a Hb Ha ltac:(lia) ltac:(lia)). by destruct (add3_loop (dp b) (dp a) 0).
  - specialize (Hgen a b Ha Hb ltac:(lia) ltac:(lia)). by destruct (add3_loop (dp a) (dp b) 0).
Qed.

(** A borrow remains exactly when the subtrahend is larger. *)
Lemma borrowed_result s l t rc : borrowed l t rc → l ≠ [] →
  (if rc.2 =? 0 then Ok (s_mp_clamp (mk_mp s rc.1)) else Err MP_RANGE) =
    (if t <? 0 then Err MP_RANGE else Ok (s_mp_clamp (mk_mp s rc.1))) ∧
  (0 ≤ t → norm_mag (s_mp_clamp (mk_mp s rc.1)) s t).
Proof.
  intros (Hl & Hd & Hb & He) Hne. pose proof (eval_range _ Hd) as Hr. rewrite Hl in Hr. pose_B.
  split.
  - destruct Hb as [E|E]; rewrite E in *; simpl; destruct (Z.ltb_spec t 0); done || lia.
  - intros Ht. assert (rc.2 = 0) as E by (destruct Hb as [E|E]; rewrite E in *; lia).
    rewrite E in He. assert (eval rc.1 = t) as <- by lia. apply (clamp_norm_mag (mk_mp s rc.1)).
    split; [done|]. simpl. intros En. rewrite En in Hl. by destruct l.
Qed.

Lemma s_mp_sub_spec a b : mp_norm a → mp_norm b → mag b ≤ mag a →
  ∃ r, s_mp_sub a b = Ok r ∧ norm_mag r (sign a) (mag a - mag b).
Proof.
  intros Ha Hb Hle. pose proof (norm_used_le b a Hb (proj1 Ha) Hle) as Hu. unfold s_mp_sub.
  rewrite (proj2 (Nat.ltb_ge _ _)) by done.
  pose proof (sub_loop_spec (dp a) (dp b) 0 ltac:(apply Ha) ltac:(apply Hb) ltac:(by left) Hu) as Hc.
  destruct (borrowed_result (sign a) _ _ _ Hc ltac:(apply Ha)) as [H1 H2].
  destruct (sub_loop _ _ 0) as [r c]. simpl in *. rewrite Z.sub_0_r in *. fold (mag a) (mag b) in *.
  rewrite H1, (proj2 (Z.ltb_ge _ _)) by lia. eexists. split; [done|]. apply H2. lia.
Qed.

Lemma s_mp_sub_3arg_spec a b : mp_norm a → mp_norm b → mag b ≤ mag a →
  ∃ r, s_mp_sub_3arg a b = Ok r ∧ norm_mag r (sign a) (mag a - mag b).
Proof.
  intros Ha Hb Hle. pose proof (norm_used_le b a Hb (proj1 Ha) Hle) as Hu. unfold s_mp_sub_3arg.
  rewrite (proj2 (Nat.ltb_ge _ _)) by done.
  pose proof (sub3_loop_spec (dp a) (dp b) 0 ltac:(apply Ha) ltac:(apply Hb) ltac:(by left) Hu) as Hc.
  destruct (borrowed_result (sign a) _ _ _ Hc ltac:(apply Ha)) as [H1 H2].
  destruct (sub3_loop _ _ 0) as [r c]. simpl in *. rewrite Z.sub_0_r in *. fold (mag a) (mag b) in *.
  rewrite H1, (proj2 (Z.ltb_ge _ _)) by lia. eexists. split; [done|]. apply H2. lia.
Qed.

(** ** Single digits, offsets *)

Lemma s_mp_add_d_spec m d : mp_norm m → is_digit d → norm_mag (s_mp_add_d m d) (sign m) (mag m + d).
Proof.
  intros Hm Hd. pose proof (norm_top m Hm) as Htop0. pose proof (mag_range m (proj1 Hm)) as Hr.
  assert (mag m = 0 → sign m = ZPOS) as Hz by apply Hm. destruct Hm as [[Hds Hne] _].
  unfold mag in *. unfold s_mp_add_d. destruct (dp m) as [|x l]; [done|]. apply Forall_cons in Hds as [Hx Hl].
  destruct (add_digit d x Hd Hx) as (H1 & _ & Hs).
  pose proof (add_d_loop_spec l (Z.b2z (u64 (d + x) <? d)) Hl (b2z_bit _)) as Hc.
  destruct (add_d_loop l _) as [r c].
  pose proof (carried_cons l _ x _ (r, c) Hc Hs) as HC. simpl in HC.
  replace (u64 (d + x) + _) with (eval (x :: l) + d) in HC by (cbn [eval]; lia).
  destruct (push_carry_spec _ _ _ HC) as (Hpd & Hpe & Hpl & Htop).
  assert (push_carry (u64 (d + x) :: r, c) = u64 (d + x) :: (if c =? 0 then r else r ++ [c])) as Hp
    by (unfold push_carry; simpl; by destruct (c =? 0)).
  rewrite Hp in *. unfold is_digit in Hd.
  split_and!; [apply mk_norm| |]; try done.
  - rewrite Hpe. apply Htop; [|done]. destruct Htop0; [by left|right; lia].
  - rewrite Hpe. intros ?. apply Hz. lia.
Qed.

Lemma s_mp_sub_d_spec m d : mp_norm m → is_digit d → d ≤ mag m →
  ∃ r, s_mp_sub_d m d = Ok r ∧ norm_mag r (sign m) (mag m - d).
Proof.
  intros Hm Hd Hle. destruct Hm as [[Hds Hne] _].
  unfold mag in *. unfold s_mp_sub_d. destruct (dp m) as [|x l]; [done|]. apply Forall_cons in Hds as [Hx Hl].
  destruct (sub_digit x d Hx Hd) as (H1 & Hs).
  pose proof (sub_d_loop_spec l (Z.b2z (u64 (x - d) >? x)) Hl (b2z_bit _)) as Hc.
  destruct (sub_d_loop l _) as [r c].
  pose proof (borrowed_cons l _ x _ (r, c) Hc Hs) as HC. simpl in HC.
  replace (u64 (x - d) + _) with (eval (x :: l) - d) in HC by (cbn [eval]; lia).
  destruct (borrowed_result (sign m) _ _ _ HC) as [E1 E2]; [done|]. simpl in E1.
  rewrite E1. cbn [eval] in *. rewrite (proj2 (Z.ltb_ge _ _)) by lia. eexists. split; [done|]. apply E2. lia.
Qed.

Lemma s_mp_add_offset_spec a b offset : mp_norm a → mp_norm b →
  norm_mag (s_mp_add_offset a b offset) (sign a) (mag a + B ^ offset * mag b).
Proof.
  intros Ha Hb. destruct (pad_dp_spec (dp a) (used b + offset) ltac:(apply Ha)) as (Hpd & Hpe & Hpl).
  unfold s_mp_add_offset. set (la := pad_dp (dp a) (used b + offset)) in *.
  pose proof (mp_ok_used b (proj1 Hb)).
  pose proof (add_off_loop_spec (drop offset la) (dp b) 0 ltac:(by apply Forall_drop)
    ltac:(apply Hb) ltac:(by left) ltac:(rewrite length_drop; unfold used in *; lia)) as Hc.
  destruct (add_off_loop _ _ 0) as [r c]. destruct (push_carry_spec _ _ _ Hc) as (Hd & He & Hl & _).
  change (if c =? 0 then r else r ++ [c]) with (push_carry (r, c)).
  assert (mp_ok (mk_mp (sign a) (take offset la ++ push_carry (r, c)))) as Hok.
  { split; [apply Forall_app; split; [by apply Forall_take|done]|]. simpl.
    rewrite length_drop in Hl. intros E. apply app_nil in E as [_ E]. rewrite E in Hl.
    simpl in Hl. unfold used in *. lia. }
  destruct (clamp_norm_mag _ Hok) as (H1 & H2 & H3).
  assert (mag (mk_mp (sign a) (take offset la ++ push_carry (r, c))) = mag a + B ^ offset * mag b) as Hm.
  { unfold mag in *. simpl. rewrite eval_app, He, length_take, Nat.min_l by lia.
    rewrite <- Hpe, (eval_take_drop offset la) by lia. lia. }
  rewrite Hm in *. done.
Qed.

(** ** Shifts *)

Lemma mod_digit c y M : 0 ≤ c < B → 0 < M → (c + B * y) mod (B * M) = c + B * (y mod M).
Proof.
  intros Hc HM. pose_B. symmetry. apply Z.mod_unique with (y / M).
  - left. pose proof (Z.mod_pos_bound y M HM). nia.
  - pose proof (Z.div_mod y M ltac:(lia)). nia.
Qed.

(** Powers of two below the radix. *)
Lemma pow2_split d : 0 ≤ d ≤ 64 → 2 ^ d * 2 ^ (64 - d) = B ∧ 0 < 2 ^ d ≤ B ∧ 0 < 2 ^ (64 - d) ≤ B.
Proof.
  intros Hd. assert (2 ^ d * 2 ^ (64 - d) = B) as E by (rewrite <- Z.pow_add_r by lia; unfold B; f_equal; lia).
  assert (0 < 2 ^ d) by (apply Z.pow_pos_nonneg; lia).
  assert (0 < 2 ^ (64 - d)) by (apply Z.pow_pos_nonneg; lia). nia.
Qed.

Definition shl_rshift (d : Z) : Z := (MP_DIGIT_BIT - d) mod MP_DIGIT_BIT.
Definition shl_mask (rshift : Z) : Z :=
  Z.land (u64 (u64 (Z.shiftl MP_DIGIT_MAX rshift) + 1)) (MP_DIGIT_MAX - 1).

(** Decides a statement about every shift count by evaluation. *)
Lemma shift_cases (P : Z → bool) : forallb P (map Z.of_nat (seq 0 64)) = true →
  ∀ d, 0 ≤ d < 64 → P d = true.
Proof.
  intros H d Hd. rewrite forallb_forall in H. apply H. rewrite in_map_iff.
  exists (Z.to_nat d). split; [lia|]. apply in_seq. lia.
Qed.

Lemma shl_mask_val d : 0 ≤ d < 64 →
  (d = 0 ∧ shl_rshift d = 0 ∧ shl_mask (shl_rshift d) = 0) ∨
  (0 < d ∧ shl_rshift d = 64 - d ∧ shl_mask (shl_rshift d) = 2 ^ 64 - 2 ^ (64 - d)).
Proof.
  intros Hd.
  assert (((d =? 0) && (shl_rshift d =? 0) && (shl_mask (shl_rshift d) =? 0) ||
    (0 <? d) && (shl_rshift d =? 64 - d) && (shl_mask (shl_rshift d) =? 2 ^ 64 - 2 ^ (64 - d))) = true) as H.
  { apply (shift_cases (fun d => (d =? 0) && (shl_rshift d =? 0) && (shl_mask (shl_rshift d) =? 0) ||
    (0 <? d) && (shl_rshift d =? 64 - d) && (shl_mask (shl_rshift d) =? 2 ^ 64 - 2 ^ (64 - d)))); [|done].
    by vm_compute. }
  destruct (Z.eqb_spec d 0); [left|right]; lia.
Qed.

(** The bits leaving the top of a digit. *)
Lemma shl_carry d x : 0 ≤ d < 64 → is_digit x →
  Z.shiftr (Z.land x (shl_mask (shl_rshift d))) (shl_rshift d) = x * 2 ^ d / B.
Proof.
  intros Hd Hx. unfold is_digit in Hx. destruct (pow2_split d ltac:(lia)) as (HB & Hp & Hq).
  destruct (shl_mask_val d Hd) as [(-> & -> & ->)|(H0 & -> & ->)].
  - rewrite Z.land_0_r, Z.mul_1_r, Z.div_small by lia. done.
  - rewrite Z.shiftr_land. replace (Z.shiftr (2 ^ 64 - 2 ^ (64 - d)) (64 - d)) with (Z.ones d).
    + rewrite Z.land_ones, Z.shiftr_div_pow2 by lia.
      rewrite Z.mod_small by (split; [apply Z.div_pos; lia|apply Z.div_lt_upper_bound; lia]).
      rewrite <- HB, (Z.mul_comm x), Z.div_mul_cancel_l by lia. done.
    + rewrite Z.shiftr_div_pow2, Z.ones_equiv by lia. fold B. rewrite <- HB.
      apply Z.div_unique_exact; lia.
Qed.

Lemma shl_digit d x prev : 0 ≤ d < 64 → is_digit x → 0 ≤ prev < 2 ^ d →
  let y := Z.lor (u64 (Z.shiftl x d)) prev in
  is_digit y ∧ y + B * (x * 2 ^ d / B) = x * 2 ^ d + prev ∧ 0 ≤ x * 2 ^ d / B < 2 ^ d.
Proof.
  intros Hd Hx Hprev y. unfold is_digit in *. destruct (pow2_split d ltac:(lia)) as (HB & Hp & Hq).
  assert (y = (x * 2 ^ d) mod B + prev) as ->.
  { unfold y. rewrite u64_B, Z.shiftl_mul_pow2 by lia.
    replace ((x * 2 ^ d) mod B) with (Z.shiftl (x mod 2 ^ (64 - d)) d).
    - rewrite lor_shift_add, Z.shiftl_mul_pow2 by lia. done.
    - rewrite Z.shiftl_mul_pow2, <- HB by lia. rewrite (Z.mul_comm (2 ^ d)), Z.mul_mod_distr_r by lia. done. }
  assert ((x * 2 ^ d) mod B = x mod 2 ^ (64 - d) * 2 ^ d) as E.
  { rewrite <- HB, (Z.mul_comm (2 ^ d)), Z.mul_mod_distr_r by lia. done. }
  pose proof (Z.mod_pos_bound x (2 ^ (64 - d)) ltac:(lia)).
  pose proof (Z.div_mod (x * 2 ^ d) B ltac:(lia)). split_and!; [nia|nia|lia|..].
  - apply Z.div_pos; nia.
  - apply Z.div_lt_upper_bound; nia.
Qed.

Lemma shl_loop_spec d l prev : 0 ≤ d < 64 → digits l → 0 ≤ prev < 2 ^ d →
  let r := shl_loop l d (shl_rshift d) (shl_mask (shl_rshift d)) prev in
  digits r ∧ length r = length l ∧ eval r = (eval l * 2 ^ d + prev) mod B ^ length l.
Proof.
  intros Hd Hl. revert prev. induction Hl as [|x l Hx Hl IH]; intros prev Hp; cbn [shl_loop].
  { simpl. by rewrite Z.mod_1_r. }
  rewrite shl_carry by done. destruct (shl_digit d x prev Hd Hx Hp) as (H1 & H2 & H3).
  destruct (IH _ H3) as (I1 & I2 & I3). cbn zeta. split_and!; [by constructor|cbn; by rewrite I2|].
  cbn [eval]. rewrite I3. cbn [length]. rewrite B_pow_S. pose_B.
  rewrite <- mod_digit by done. f_equal. nia.
Qed.

(** The extra digit is allocated exactly when bits leave the top digit. *)
Lemma shl_fits d m : 0 ≤ d < 64 → mp_ok m →
  let x := Z.land (dp m !!! (used m - 1)%nat) (shl_mask (shl_rshift d)) in
  mag m * 2 ^ d < B ^ (used m + (if (x =? 0)%Z then 0 else 1))%nat.
Proof.
  intros Hd Hm. pose proof (mp_ok_used m Hm) as Hu. pose proof (mag_range m Hm) as Hr.
  destruct (pow2_split d ltac:(lia)) as (HB & Hp & Hq). pose_B. cbn zeta.
  destruct (Z.eqb_spec (Z.land (dp m !!! (used m - 1)%nat) (shl_mask (shl_rshift d))) 0) as [Hz|Hz].
  - rewrite Nat.add_0_r. pose proof (lookup_total_digit (dp m) (used m - 1) (proj1 Hm) ltac:(unfold used in *; lia)) as Ht.
    pose proof (shl_carry d _ Hd Ht) as Hc. rewrite Hz, Z.shiftr_0_l in Hc.
    unfold mag. pose proof (eval_S_take (dp m) (used m - 1) ltac:(unfold used in *; lia)) as HS.
    replace (S (used m - 1)) with (used m) in HS by lia. unfold used in HS at 1.
    rewrite firstn_all in HS. pose proof (eval_range (take (used m - 1) (dp m)) ltac:(by apply Forall_take, Hm)) as Hlo.
    rewrite length_take, Nat.min_l in Hlo by (unfold used in *; lia).
    rewrite HS. replace (used m) with (S (used m - 1)) at 4 by lia. rewrite B_pow_S.
    set (t := dp m !!! (used m - 1)%nat) in *. unfold is_digit in Ht.
    assert (t * 2 ^ d < B) by (pose proof (Z.div_mod (t * 2 ^ d) B); pose proof (Z.mod_pos_bound (t * 2 ^ d) B); nia).
    assert (t < 2 ^ (64 - d)) by nia. set (P := B ^ (used m - 1)%nat) in *.
    assert (0 < P) by apply B_pow.
    assert (eval (take (used m - 1) (dp m)) + P * t < P * 2 ^ (64 - d)) by nia. nia.
  - rewrite Nat.add_1_r, B_pow_S. nia.
Qed.

Lemma s_mp_lshd_dp m p : p ≠ 0%nat → (1 < used m)%nat → s_mp_lshd m p = mk_mp (sign m) (replicate p 0 ++ dp m).
Proof.
  intros Hp Hu. unfold s_mp_lshd. destruct (Nat.eqb_spec p 0); [done|].
  destruct (Nat.eqb_spec (used m) 1); [lia|done].
Qed.

Lemma s_mp_mul_2d_spec m d : mp_ok m → 0 ≤ d → norm_mag (s_mp_mul_2d m d) (sign m) (mag m * 2 ^ d).
Proof.
  intros Hm Hd. set (ds := Z.to_nat (d / 64)). set (db := d mod 64).
  assert (Hdb : 0 ≤ db < 64) by (apply Z.mod_pos_bound; lia).
  assert (Hpow : 2 ^ d = B ^ ds * 2 ^ db).
  { unfold B, ds, db. rewrite <- Z.pow_mul_r, <- Z.pow_add_r by (try apply Z.mod_pos_bound; lia). f_equal.
    rewrite Z2Nat.id by (apply Z.div_pos; lia). apply Z.div_mod. lia. }
  pose proof (shl_fits db m Hdb Hm) as Hfit. cbn zeta in Hfit.
  unfold s_mp_mul_2d. unfold MP_DIGIT_BIT. fold ds db. fold MP_DIGIT_BIT.
  fold (shl_rshift db). fold (shl_mask (shl_rshift db)). cbn zeta.
  set (ex := if _ =? 0 then 0%nat else 1%nat) in *.
  destruct (s_mp_pad_spec m (used m + ds + ex) Hm) as (Hpok & Hpm & Hps & Hpu).
  set (m' := s_mp_pad m (used m + ds + ex)) in *. pose proof (mp_ok_used m Hm).
  assert (∃ m2, (if Nat.eqb ds 0 then m' else s_mp_lshd m' ds) = m2 ∧
    dp m2 = replicate ds 0 ++ dp m' ∧ sign m2 = sign m) as (m2 & -> & Hd2 & Hs2).
  { destruct (Nat.eqb_spec ds 0) as [->|Hne]; [by exists m'|].
    rewrite s_mp_lshd_dp by (done || lia). by eexists. }
  rewrite Hs2, Hd2, take_app_length', drop_app_length' by (by rewrite length_replicate).
  destruct (shl_loop_spec db (dp m') 0 Hdb (proj1 Hpok)) as (R1 & R2 & R3); [destruct (pow2_split db); lia|].
  set (r := shl_loop _ _ _ _ 0) in *.
  assert (eval r = mag m * 2 ^ db) as Hr.
  { rewrite R3, Z.add_0_r. fold (mag m'). rewrite Hpm. apply Z.mod_small.
    pose proof (mag_range m Hm). destruct (pow2_split db ltac:(lia)) as (_ & ? & _). split; [nia|].
    fold (used m'). rewrite Hpu. eapply Z.lt_le_trans; [exact Hfit|].
    apply Z.pow_le_mono_r; [apply B_pos|lia]. }
  assert (mp_ok (mk_mp (sign m) (replicate ds 0 ++ r))) as Hok.
  { split; [apply Forall_app; auto with nss|]. simpl. intros E. apply app_nil in E as [_ E].
    apply mp_ok_used in Hpok. unfold used in Hpok. rewrite <- R2, E in Hpok. simpl in Hpok. lia. }
  pose proof (clamp_norm_mag _ Hok) as HC. unfold mag in HC at 1. simpl in HC.
  rewrite eval_app, eval_zeros, length_replicate, Hr in HC.
  replace (mag m * 2 ^ d) with (0 + B ^ ds * (mag m * 2 ^ db)) by (rewrite Hpow; lia). done.
Qed.

Lemma shr_mask_val d : 0 ≤ d < 64 → u64 (u64 (Z.shiftl 1 d) - 1) = Z.ones d.
Proof.
  intros Hd. apply Z.eqb_eq. by apply (shift_cases (fun d => u64 (u64 (Z.shiftl 1 d) - 1) =? Z.ones d)).
Qed.

Lemma shr_digit d x s : 0 ≤ d < 64 → is_digit x → 0 ≤ s < 2 ^ d →
  let y := Z.lor (u64 (Z.shiftl s (shl_rshift d))) (Z.shiftr x d) in
  is_digit y ∧ y = s * 2 ^ (64 - d) + x / 2 ^ d.
Proof.
  intros Hd Hx Hs. unfold is_digit in *. destruct (pow2_split d ltac:(lia)) as (HB & Hp & Hq).
  assert (0 ≤ x / 2 ^ d < 2 ^ (64 - d)) by (split; [apply Z.div_pos; lia|apply Z.div_lt_upper_bound; lia]).
  rewrite Z.shiftr_div_pow2 by lia. destruct (shl_mask_val d Hd) as [(-> & -> & _)|(H0 & -> & _)].
  - assert (s = 0) as -> by (simpl in Hs; lia). rewrite Z.shiftl_0_l. change (u64 0) with 0.
    rewrite Z.lor_0_l, Z.div_1_r. cbn zeta. lia.
  - rewrite u64_small by (unfold is_digit; rewrite Z.shiftl_mul_pow2 by lia; nia).
    rewrite lor_shift_add by lia. cbn zeta. split; nia.
Qed.

Lemma shr_loop_spec d l : 0 ≤ d < 64 → digits l →
  let '(r, save) := shr_loop l d (shl_rshift d) (u64 (u64 (Z.shiftl 1 d) - 1)) in
  digits r ∧ length r = length l ∧ eval r = eval l / 2 ^ d ∧ save = eval l mod 2 ^ d.
Proof.
  intros Hd Hl. rewrite shr_mask_val by done. destruct (pow2_split d ltac:(lia)) as (HB & Hp & Hq).
  induction Hl as [|x l Hx Hl IH]; cbn [shl_loop shr_loop].
  { simpl. rewrite Z.div_0_l, Z.mod_0_l by lia. done. }
  destruct (shr_loop l d _ _) as [r save]. destruct IH as (I1 & I2 & I3 & I4).
  pose proof (Z.mod_pos_bound (eval l) (2 ^ d) ltac:(lia)) as Hsave. rewrite <- I4 in Hsave.
  destruct (shr_digit d x save Hd Hx Hsave) as (H1 & H2). cbn zeta in *.
  split_and!; [by constructor|simpl; by rewrite I2| |].
  - cbn [eval]. rewrite H2, I3, I4, <- HB.
    replace (x + 2 ^ d * 2 ^ (64 - d) * eval l) with (x + (2 ^ (64 - d) * eval l) * 2 ^ d) by lia.
    rewrite Z.div_add by lia. pose proof (Z.div_mod (eval l) (2 ^ d) ltac:(lia)). nia.
  - cbn [eval]. rewrite Z.land_ones, <- HB by lia.
    replace (x + 2 ^ d * 2 ^ (64 - d) * eval l) with (x + (2 ^ (64 - d) * eval l) * 2 ^ d) by lia.
    by rewrite Z.mod_add by lia.
Qed.

Lemma s_mp_rshd_spec m p : mp_ok m → mp_ok (s_mp_rshd m p) ∧ mag (s_mp_rshd m p) = mag m / B ^ p ∧
  (mag m / B ^ p ≠ 0 → sign (s_mp_rshd m p) = sign m).
Proof.
  intros Hm. pose proof (mag_range m Hm). unfold s_mp_rshd. destruct (Nat.eqb_spec p 0) as [->|Hp].
  { rewrite Z.div_1_r. done. }
  destruct (Nat.leb_spec (used m) p) as [Hle|Hgt].
  - assert (mag m / B ^ p = 0) as ->.
    { apply Z.div_small. assert (B ^ used m ≤ B ^ p) by (apply Z.pow_le_mono_r; [apply B_pos|lia]). lia. }
    split_and!; [|done|done]. split; [|done]. constructor; [|done]. apply bit_digit. by left.
  - split_and!; [|by apply eval_drop, Hm|done]. split; [apply Forall_drop, Hm|]. simpl.
    intros E. apply (f_equal length) in E. rewrite length_drop in E. simpl in E. unfold used in *. lia.
Qed.

Lemma pow2_dshift d : 0 ≤ d →
  2 ^ d = B ^ Z.to_nat (d / 64) * 2 ^ (d mod 64) ∧ 0 ≤ d mod 64 < 64.
Proof.
  intros Hd. pose proof (Z.mod_pos_bound d 64 ltac:(lia)). split; [|done].
  unfold B. rewrite <- Z.pow_mul_r, <- Z.pow_add_r by lia. f_equal.
  rewrite Z2Nat.id by (apply Z.div_pos; lia). apply Z.div_mod. lia.
Qed.

Lemma s_mp_div_2d_spec m d : mp_ok m → 0 ≤ d → norm_mag (s_mp_div_2d m d) (sign m) (mag m / 2 ^ d).
Proof.
  intros Hm Hd. destruct (pow2_dshift d Hd) as [Hpow Hdb]. unfold s_mp_div_2d, MP_DIGIT_BIT.
  destruct (s_mp_rshd_spec m (Z.to_nat (d / 64)) Hm) as (Hok & Hmag & Hs).
  fold MP_DIGIT_BIT. fold (shl_rshift (d mod MP_DIGIT_BIT)). unfold MP_DIGIT_BIT at 1 3.
  set (m' := s_mp_rshd _ _) in *.
  pose proof (shr_loop_spec (d mod 64) (dp m') Hdb (proj1 Hok)) as Hr.
  change (d mod MP_DIGIT_BIT) with (d mod 64). destruct (shr_loop _ _ _ _) as [r save].
  destruct Hr as (R1 & R2 & R3 & _). cbn [fst].
  assert (mp_ok (mk_mp (sign m') r)) as Hok'.
  { split; [done|]. simpl. intros E. rewrite E in R2. apply mp_ok_used in Hok. unfold used in Hok. simpl in R2. lia. }
  assert (mag (mk_mp (sign m') r) = mag m / 2 ^ d) as Hv.
  { unfold mag at 1. simpl. rewrite R3. fold (mag m'). rewrite Hmag, Hpow.
    rewrite Z.div_div; [done|pose proof (B_pow (Z.to_nat (d / 64))); lia|].
    destruct (pow2_split (d mod 64)); lia. }
  destruct (clamp_norm_mag _ Hok') as (C1 & C2 & C3). rewrite Hv in *. split_and!; [done|done|].
  intros Hne. rewrite C3 by done. simpl. apply Hs. intros E. apply Hne. rewrite Hpow, <- Z.div_div, E.
  - apply Z.div_0_l. destruct (pow2_split (d mod 64)); lia.
  - pose proof (B_pow (Z.to_nat (d / 64))). lia.
  - destruct (pow2_split (d mod 64)); lia.
Qed.

Lemma s_mp_mod_2d_spec m d : mp_norm m → 0 ≤ d → norm_mag (s_mp_mod_2d m d) (sign m) (mag m mod 2 ^ d).
Proof.
  intros Hm Hd. destruct (pow2_dshift d Hd) as [Hpow Hdb]. unfold s_mp_mod_2d, MP_DIGIT_BIT.
  destruct (pow2_split (d mod 64) ltac:(lia)) as (HB & Hp & Hq).
  set (nd := Z.to_nat (d / 64)) in *. pose proof (mag_range m (proj1 Hm)) as Hr.
  destruct (Nat.leb_spec (used m) nd) as [Hle|Hgt].
  - rewrite Z.mod_small; [by apply norm_mag_self|]. rewrite Hpow. split; [lia|].
    assert (B ^ used m ≤ B ^ nd) by (apply Z.pow_le_mono_r; [apply B_pos|lia]). nia.
  - cbn zeta. rewrite shr_mask_val, Z.land_ones by lia.
    pose proof (lookup_total_digit (dp m) nd (proj1 (proj1 Hm)) Hgt) as Hx.
    set (x := dp m !!! nd) in *. pose proof (Z.mod_pos_bound x (2 ^ (d mod 64)) ltac:(lia)) as Hxm.
    assert (take (nd + 1) (<[nd := x mod 2 ^ (d mod 64)]> (dp m)) = take nd (dp m) ++ [x mod 2 ^ (d mod 64)]) as ->.
    { rewrite Nat.add_1_r. rewrite (take_S_r _ _ (x mod 2 ^ (d mod 64))).
      - by rewrite take_insert, decide_False by lia.
      - rewrite list_lookup_insert, decide_True by (split; [done|]; apply Hgt). done. }
    assert (digits (take nd (dp m))) as Htd by (apply Forall_take, Hm).
    pose proof (eval_range _ Htd) as Htr. rewrite length_take, Nat.min_l in Htr by (unfold used in *; lia).
    unfold is_digit in Hx. pose proof (B_pow nd).
    match goal with |- norm_mag (s_mp_clamp ?t) _ _ => assert (mp_ok t) as Hok; [|assert (mag t = mag m mod 2 ^ d) as Hv] end.
    + split; [|simpl; by destruct (take nd (dp m))]. apply Forall_app; split; [|auto with nss].
      apply Forall_app; split; [done|]. constructor; [unfold is_digit; nia|done].
    + unfold mag at 1. simpl. rewrite eval_app, eval_zeros, Z.mul_0_r, Z.add_0_r, eval_snoc, length_take, Nat.min_l
        by (unfold used in *; lia).
      apply Z.mod_unique with (mag m / 2 ^ d).
      * left. rewrite Hpow. nia.
      * pose proof (eval_take_drop (S nd) (dp m) Hgt) as Hs. fold (mag m) in Hs.
        rewrite eval_S_take in Hs by done. fold x in Hs. rewrite B_pow_S in Hs.
        pose proof (Z.div_mod x (2 ^ (d mod 64)) ltac:(lia)).
        assert (mag m / 2 ^ d = 2 ^ (64 - d mod 64) * eval (drop (S nd) (dp m)) + x / 2 ^ (d mod 64)) as ->.
        { symmetry. apply Z.div_unique with (eval (take nd (dp m)) + B ^ nd * (x mod 2 ^ (d mod 64))).
          - left. rewrite Hpow. nia.
          - rewrite Hpow, Hs, <- HB. nia. }
        rewrite Hpow, Hs, <- HB. nia.
    + destruct (clamp_norm_mag _ Hok) as (C1 & C2 & C3). rewrite Hv in *. done.
Qed.

(** Doubling reuses the addition argument: every column is [d + d + kin]. *)
Lemma mul_2_loop_spec l kin : digits l → bit kin → carried l (2 * eval l + kin) (mul_2_loop l kin).
Proof.
  intros Hl. revert kin. induction Hl as [|x l Hx Hl IH]; intros kin Hk; cbn [mul_2_loop].
  { apply (carried_nil kin Hk). }
  assert (0 ≤ kin < 2 ^ 1) as Hk' by (unfold bit in Hk; lia).
  destruct (shl_digit 1 x kin ltac:(lia) Hx Hk') as (H1 & H2 & H3).
  assert (Z.shiftr x (MP_DIGIT_BIT - 1) = x * 2 ^ 1 / B) as ->.
  { unfold MP_DIGIT_BIT. rewrite Z.shiftr_div_pow2 by lia. unfold B.
    change (2 ^ 64) with (2 ^ 63 * 2 ^ 1). rewrite Z.div_mul_cancel_r by lia. done. }
  specialize (IH (x * 2 ^ 1 / B) ltac:(unfold bit; lia)). destruct (mul_2_loop l _) as [r k].
  pose proof (carried_cons l _ x _ (r, k) IH H1) as HC. simpl in HC. cbn [eval].
  match type of HC with carried _ ?t _ => match goal with |- carried _ ?u _ => replace u with t by lia end end.
  done.
Qed.

Lemma s_mp_mul_2_spec m : mp_norm m → norm_mag (s_mp_mul_2 m) (sign m) (2 * mag m).
Proof.
  intros Hm. pose proof (mul_2_loop_spec (dp m) 0 ltac:(apply Hm) ltac:(by left)) as Hc.
  destruct (push_carry_spec _ _ _ Hc) as (Hd & He & Hl & Htop). unfold s_mp_mul_2.
  assert (mk_mp (sign m) (push_carry (mul_2_loop (dp m) 0)) =
    (let '(r, kin) := mul_2_loop (dp m) 0 in mk_mp (sign m) (if kin =? 0 then r else r ++ [kin]))) as <-
    by (by destruct (mul_2_loop (dp m) 0)).
  rewrite Z.add_0_r in *. fold (mag m) in *. pose proof (mp_ok_used m (proj1 Hm)). unfold used in *.
  pose proof (mag_range m (proj1 Hm)).
  split_and!; [apply mk_norm| |]; try done.
  - intros E. rewrite E in Hl. simpl in Hl. lia.
  - rewrite He. apply Htop; [|apply Hm]. destruct (norm_top m Hm); [by left|right]. fold (mag m) in *. lia.
  - rewrite He. intros ?. apply Hm. lia.
Qed.

(** ** Powers of two *)

Lemma pow2_land d : 0 < d → Z.land d (d - 1) = 0 → d = 2 ^ Z.log2 d.
Proof.
  intros Hd Hl. destruct (Z.log2_spec d Hd) as [Hlo Hhi]. set (k := Z.log2 d) in *.
  assert (0 ≤ k) by apply Z.log2_nonneg. destruct (decide (d = 2 ^ k)) as [|Hne]; [done|exfalso].
  assert (Z.testbit (Z.land d (d - 1)) k = true) as Ht; [|by rewrite Hl, Z.bits_0 in Ht].
  rewrite Z.pow_succ_r in Hhi by lia.
  rewrite Z.land_spec. apply andb_true_intro. split; apply Z.testbit_true; try lia.
  - replace (d / 2 ^ k) with 1; [done|]. apply Z.div_unique with (d - 2 ^ k); lia.
  - replace ((d - 1) / 2 ^ k) with 1; [done|]. apply Z.div_unique with (d - 1 - 2 ^ k); lia.
Qed.

Lemma s_mp_ispow2d_spec d : is_digit d → (s_mp_ispow2d d = -1 ∧ ∀ k, 0 ≤ k → d ≠ 2 ^ k) ∨
  (0 ≤ s_mp_ispow2d d < 64 ∧ d = 2 ^ s_mp_ispow2d d).
Proof.
  intros Hd. unfold is_digit in Hd.
  assert (∀ k, 0 ≤ k < 64 → s_mp_ispow2d (2 ^ k) = k) as Hpow.
  { intros k Hk. apply Z.eqb_eq. by apply (shift_cases (fun k => s_mp_ispow2d (2 ^ k) =? k)). }
  assert (∀ k, 0 ≤ k → d = 2 ^ k → 0 ≤ k < 64) as Hk64.
  { intros k Hk E. split; [done|]. rewrite E in Hd. destruct Hd as [_ Hd]. unfold B in Hd.
    apply Z.pow_lt_mono_r_iff in Hd; lia. }
  destruct (decide (0 < d ∧ Z.land d (d - 1) = 0)) as [[Hp Hl]|Hn].
  - pose proof (pow2_land d Hp Hl) as E. pose proof (Z.log2_nonneg d).
    specialize (Hk64 _ H E). right. assert (s_mp_ispow2d d = Z.log2 d) as Hr by (rewrite E at 1; by apply Hpow).
    by rewrite Hr.
  - left. assert (negb (d =? 0) && (Z.land d (d - 1) =? 0) = false) as Hc.
    { destruct (Z.eqb_spec d 0), (Z.eqb_spec (Z.land d (d - 1)) 0); try done. exfalso. apply Hn. lia. }
    assert (s_mp_ispow2d d = -1) as Hm1 by (unfold s_mp_ispow2d; by rewrite Hc).
    split; [done|]. intros k Hk E. specialize (Hk64 k Hk E). rewrite E, Hpow in Hm1 by done. lia.
Qed.

Lemma ispow2_loop_spec l extra : 0 ≤ extra → 
  (ispow2_loop l extra = -1) ∨ (l = replicate (length l) 0 ∧ ispow2_loop l extra = extra + 64 * length l).
Proof.
  revert extra. induction l as [|d l IH]; intros extra He; cbn [ispow2_loop]; [right; simpl; split; [done|lia]|].
  destruct (Z.eqb_spec d 0) as [->|]; simpl; [|by left].
  destruct (IH (extra + MP_DIGIT_BIT)) as [E|[E1 E2]]; [unfold MP_DIGIT_BIT; lia|by left|].
  right. split; [by f_equal|]. rewrite E2. unfold MP_DIGIT_BIT. lia.
Qed.

Lemma s_mp_ispow2_spec v : mp_ok v → 0 ≤ s_mp_ispow2 v → mag v = 2 ^ s_mp_ispow2 v.
Proof.
  intros Hv. pose proof (mp_ok_used v Hv) as Hu. unfold s_mp_ispow2.
  pose proof (lookup_total_digit (dp v) (used v - 1) (proj1 Hv) ltac:(unfold used in *; lia)) as Hx.
  pose proof (eval_S_take (dp v) (used v - 1) ltac:(unfold used in *; lia)) as HS.
  replace (S (used v - 1)) with (used v) in HS by lia. unfold used in HS at 1.
  rewrite firstn_all in HS. fold (mag v) in HS.
  set (x := dp v !!! (used v - 1)%nat) in *.
  destruct (s_mp_ispow2d_spec x Hx) as [[E _]|[Hr E]].
  { rewrite E. simpl. lia. }
  rewrite (proj2 (Z.ltb_ge _ _)) by lia. simpl.
  destruct (Nat.eqb_spec (used v - 1) 0) as [Hz|Hz].
  - intros _. rewrite Hz in HS. simpl in HS. rewrite HS, E at 1. lia.
  - intros Hpos. destruct (ispow2_loop_spec (reverse (take (used v - 1) (dp v))) (s_mp_ispow2d x)) as [Em|[E1 E2]]; [lia|lia|].
    rewrite E2. rewrite length_reverse, length_take, Nat.min_l in * by (unfold used in *; lia).
    apply (f_equal reverse) in E1. rewrite reverse_involutive, reverse_replicate in E1.
    rewrite HS, E1, eval_zeros, E at 1. unfold B. rewrite <- Z.pow_mul_r, Z.add_0_l, <- Z.pow_add_r by lia. f_equal. lia.
Qed.

Lemma s_mp_2expt_spec k : 0 ≤ k → norm_mag (s_mp_2expt k) ZPOS (2 ^ k).
Proof.
  intros Hk. destruct (pow2_dshift k Hk) as [Hpow Hb]. destruct (pow2_split (k mod 64)) as (HB & Hp & Hq); [lia|].
  unfold s_mp_2expt, MP_DIGIT_BIT. set (n := Z.to_nat (k / 64)) in *. cbn zeta.
  assert (dp (s_mp_pad mp_zero (n + 1)) = replicate n 0 ++ [0]) as Hpad.
  { simpl. unfold pad_dp. simpl length. rewrite <- replicate_cons_app. simpl.
    replace (n + 1 - 1)%nat with n by lia. done. }
  rewrite Hpad. assert ((replicate n 0 ++ [0]) !!! n = 0) as ->.
  { rewrite list_lookup_total_alt, lookup_app_r, length_replicate, Nat.sub_diag by (rewrite length_replicate; lia). done. }
  rewrite insert_app_r_alt, length_replicate, Nat.sub_diag by (rewrite length_replicate; lia). simpl.
  assert (2 ^ (k mod 64) < B) by (apply Z.pow_lt_mono_r; lia).
  rewrite u64_small by (unfold is_digit; rewrite Z.shiftl_1_l; lia). rewrite Z.shiftl_1_l, Z.lor_0_l.
  assert (eval (replicate n 0 ++ [2 ^ (k mod 64)]) = 2 ^ k) as He
    by (rewrite eval_snoc, eval_zeros, length_replicate, Hpow; lia).
  split_and!; [apply mk_norm| |]; try done.
  - apply Forall_app; split; [auto with nss|]. constructor; [|done]. unfold is_digit. lia.
  - by destruct n.
  - right. rewrite He, length_app, length_replicate. simpl length. replace (n + 1 - 1)%nat with n by lia. pose_B. nia.
Qed.

Lemma mp_isodd_spec m : mp_ok m → mp_isodd m = Z.odd (mag m).
Proof.
  intros [Hd Hne]. unfold mp_isodd, mag. destruct (dp m) as [|x l]; [done|]. cbn [eval].
  change ((x :: l) !!! 0%nat) with x. change 1 with (Z.ones 1). rewrite Z.land_ones by lia.
  rewrite Z.odd_add, Z.odd_mul. simpl (Z.odd B). rewrite xorb_false_r.
  change (2 ^ 1) with 2. rewrite Zmod_odd. by destruct (Z.odd x).
Qed.
