(* ===== verification/MpiMul.v ===== *)
(** lib/freebl/mpi/mpi.h and mpi.c: the constant-time digit macros, digit
    products, the vector kernels s_mpv_* and multiplication and squaring of
    [mp_int]s (s_mp_mul_d, s_mp_mulg, mp_mul, mp_mulCT, mp_sqr).

    A kernel that writes through a pointer into the digits of [c] takes and
    returns the vector from that pointer on.  Running off the end of the
    vector is [UB]. *)

From stdpp Require Import base numbers list.
From S2P Require Import Prelude MpiBase.

(** ** Constant-time macros of mpi.h *)

Definition MP_CT_HIGH_TO_LOW (x : Z) : Z := Z.shiftr x (MP_DIGIT_BIT - 1).
Definition MP_CT_TRUE : Z := 1.
Definition MP_CT_NOT_ZERO (x : Z) : Z := MP_CT_HIGH_TO_LOW (Z.lor x (u64 (0 - x))).
Definition MP_CT_ZERO (x : Z) : Z := Z.lxor MP_CT_TRUE (MP_CT_HIGH_TO_LOW (Z.lor x (u64 (0 - x)))).
Definition MP_CT_EQ (a b : Z) : Z := MP_CT_ZERO (Z.lxor a b).
Definition MP_CT_NE (a b : Z) : Z := MP_CT_NOT_ZERO (Z.lxor a b).
Definition MP_CT_GT (a b : Z) : Z := MP_CT_HIGH_TO_LOW (u64 (b - a)).
Definition MP_CT_LT (a b : Z) : Z := MP_CT_HIGH_TO_LOW (u64 (a - b)).
Definition MP_CT_GE (a b : Z) : Z := Z.lxor MP_CT_TRUE (MP_CT_LT a b).
Definition MP_CT_LE (a b : Z) : Z := Z.lxor MP_CT_TRUE (MP_CT_GT a b).
Definition MP_CT_SEL (m l r : Z) : Z := Z.lxor r (Z.land m (Z.lxor r l)).
Definition MP_CT_OVERFLOW (a b c d : Z) : Z :=
  MP_CT_SEL (MP_CT_HIGH_TO_LOW (Z.lxor a b)) (MP_CT_HIGH_TO_LOW d) c.
Definition MP_CT_LTU (a b : Z) : Z := MP_CT_OVERFLOW a b (MP_CT_LT a b) b.

(** ** Digit products (Phi, Plo) *)

Definition lo32 (a : Z) : Z := Z.land a MP_HALF_DIGIT_MAX.
Definition hi32 (a : Z) : Z := Z.shiftr a MP_HALF_DIGIT_BIT.

Definition MP_MUL_DxD (a b : Z) : Z * Z :=
  let Plo := u64 (lo32 a * lo32 b) in
  let Phi := u64 (hi32 a * hi32 b) in
  let a0b1 := u64 (lo32 a * hi32 b) in
  let a1b0 := u64 (hi32 a * lo32 b) in
  let a1b0 := u64 (a1b0 + a0b1) in
  let Phi := u64 (Phi + Z.shiftr a1b0 MP_HALF_DIGIT_BIT) in
  let Phi := u64 (Phi + u64 (Z.shiftl (MP_CT_LTU a1b0 a0b1) MP_HALF_DIGIT_BIT)) in
  let a1b0 := u64 (Z.shiftl a1b0 MP_HALF_DIGIT_BIT) in
  let Plo := u64 (Plo + a1b0) in
  let Phi := u64 (Phi + MP_CT_LTU Plo a1b0) in
  (Phi, Plo).

Definition MP_SQR_D (a : Z) : Z * Z :=
  let Plo := u64 (lo32 a * lo32 a) in
  let Phi := u64 (hi32 a * hi32 a) in
  let Pmid := u64 (lo32 a * hi32 a) in
  let Phi := u64 (Phi + Z.shiftr Pmid (MP_HALF_DIGIT_BIT - 1)) in
  let Pmid := u64 (Z.shiftl Pmid (MP_HALF_DIGIT_BIT + 1)) in
  let Plo := u64 (Plo + Pmid) in
  let Phi := if Plo <? Pmid then u64 (Phi + 1) else Phi in
  (Phi, Plo).

(** ** Vector kernels *)

(** The body shared by s_mpv_mul_d_add and s_mpv_mul_d_add_propCT. *)
Definition mul_add_digit (a_i b c_i carry : Z) : Z * Z :=
  let '(a1b1, a0b0) := MP_MUL_DxD a_i b in
  let a0b0 := u64 (a0b0 + carry) in
  let a1b1 := u64 (a1b1 + MP_CT_LTU a0b0 carry) in
  let a0b0 := u64 (a0b0 + c_i) in
  let a1b1 := u64 (a1b1 + MP_CT_LTU a0b0 c_i) in
  (a1b1, a0b0).

(** The same step with branches, as in s_mpv_mul_d_add_prop. *)
Definition mul_add_digit_br (a_i b c_i carry : Z) : Z * Z :=
  let '(a1b1, a0b0) := MP_MUL_DxD a_i b in
  let a0b0 := u64 (a0b0 + carry) in
  let a1b1 := if a0b0 <? carry then u64 (a1b1 + 1) else a1b1 in
  let a0b0 := u64 (a0b0 + c_i) in
  let a1b1 := if a0b0 <? c_i then u64 (a1b1 + 1) else a1b1 in
  (a1b1, a0b0).

(** c = a * b: the [a_len + 1] digits written. *)
Fixpoint mul_d_loop (a : list Z) (b carry : Z) : list Z :=
  match a with
  | [] => [carry]
  | a_i :: a =>
      let '(a1b1, a0b0) := MP_MUL_DxD a_i b in
      let a0b0 := u64 (a0b0 + carry) in
      let a1b1 := u64 (a1b1 + MP_CT_LTU a0b0 carry) in
      a0b0 :: mul_d_loop a b a1b1
  end.

Definition s_mpv_mul_d (a : list Z) (b : Z) (c : list Z) : mp_res (list Z) :=
  if Nat.ltb (length c) (length a + 1) then UB
  else Ok (mul_d_loop a b 0 ++ drop (length a + 1) c).

(** c += a * b over the digits of [a]; the digit after them is set to the carry. *)
Fixpoint mul_d_add_loop (a : list Z) (b : Z) (c : list Z) (carry : Z) : mp_res (list Z) :=
  match a, c with
  | [], _ :: c => Ok (carry :: c)
  | a_i :: a, c_i :: c =>
      let '(a1b1, a0b0) := mul_add_digit a_i b c_i carry in
      r ← mul_d_add_loop a b c a1b1; Ok (a0b0 :: r)
  | _, [] => UB
  end.

Definition s_mpv_mul_d_add (a : list Z) (b : Z) (c : list Z) : mp_res (list Z) :=
  mul_d_add_loop a b c 0.

(** [while (carry)] propagation. *)
Fixpoint carry_prop (c : list Z) (carry : Z) : mp_res (list Z) :=
  if carry =? 0 then Ok c else
  match c with
  | [] => UB
  | c_i :: c =>
      let s := u64 (carry + c_i) in
      r ← carry_prop c (Z.b2z (s <? c_i)); Ok (s :: r)
  end.

Fixpoint mul_d_add_prop_loop (a : list Z) (b : Z) (c : list Z) (carry : Z) : mp_res (list Z) :=
  match a, c with
  | [], _ => carry_prop c carry
  | a_i :: a, c_i :: c =>
      let '(a1b1, a0b0) := mul_add_digit_br a_i b c_i carry in
      r ← mul_d_add_prop_loop a b c a1b1; Ok (a0b0 :: r)
  | _, [] => UB
  end.

Definition s_mpv_mul_d_add_prop (a : list Z) (b : Z) (c : list Z) : mp_res (list Z) :=
  mul_d_add_prop_loop a b c 0.

(** Constant time: the carry is propagated to the end of [c] even if zero,
    and what leaves the last digit is dropped. *)
Fixpoint carry_propCT (c : list Z) (carry : Z) : list Z :=
  match c with
  | [] => []
  | c_i :: c => let s := u64 (carry + c_i) in s :: carry_propCT c (MP_CT_LTU s c_i)
  end.

Fixpoint mul_d_add_propCT_loop (a : list Z) (b : Z) (c : list Z) (carry : Z) : mp_res (list Z) :=
  match a, c with
  | [], _ => Ok (carry_propCT c carry)
  | a_i :: a, c_i :: c =>
      let '(a1b1, a0b0) := mul_add_digit a_i b c_i carry in
      r ← mul_d_add_propCT_loop a b c a1b1; Ok (a0b0 :: r)
  | _, [] => UB
  end.

Definition s_mpv_mul_d_add_propCT (a : list Z) (b : Z) (c : list Z) : mp_res (list Z) :=
  mul_d_add_propCT_loop a b c 0.

(** ps[2i], ps[2i+1] += pa[i]^2 *)
Fixpoint sqr_add_loop (pa ps : list Z) (carry : Z) : mp_res (list Z) :=
  match pa, ps with
  | [], _ => carry_prop ps carry
  | a_i :: pa, s0 :: s1 :: ps =>
      let '(a1a1, a0a0) := MP_SQR_D a_i in
      let a0a0 := u64 (a0a0 + carry) in
      let a1a1 := if a0a0 <? carry then u64 (a1a1 + 1) else a1a1 in
      let a0a0 := u64 (a0a0 + s0) in
      let a1a1 := if a0a0 <? s0 then u64 (a1a1 + 1) else a1a1 in
      let a1a1 := u64 (a1a1 + s1) in
      r ← sqr_add_loop pa ps (Z.b2z (a1a1 <? s1)); Ok (a0a0 :: a1a1 :: r)
  | _, _ => UB
  end.

Definition s_mpv_sqr_add_prop (pa ps : list Z) : mp_res (list Z) := sqr_add_loop pa ps 0.

(** ** Products of [mp_int]s *)

(** A kernel applied through a pointer to digit [off] of [c]. *)
Definition at_offset (off : nat) (f : list Z → mp_res (list Z)) (c : list Z) : mp_res (list Z) :=
  r ← f (drop off c); Ok (take off c ++ r).

Definition s_mp_mul_d (a : mp_int) (d : Z) : mp_res mp_int :=
  if d =? 0 then Ok mp_zero
  else if d =? 1 then Ok a
  else let pow := s_mp_ispow2d d in
  if 0 <=? pow then Ok (s_mp_mul_2d a pow)
  else
    let l := pad_dp (dp a) (used a + 1) in
    r ← s_mpv_mul_d (take (used a) l) d l;
    Ok (s_mp_clamp (mk_mp (sign a) r)).

(** Outer loop: digits of [b] from the second one on. *)
Fixpoint mulg_loop (a pb : list Z) (ib : nat) (constantTime : bool) (c : list Z) : mp_res (list Z) :=
  match pb with
  | [] => Ok c
  | b_i :: pb =>
      c ← (if constantTime || negb (b_i =? 0) then at_offset ib (s_mpv_mul_d_add a b_i) c
           else Ok (<[(ib + length a)%nat := b_i]> c));
      mulg_loop a pb (S ib) constantTime c
  end.

Definition s_mp_mulg (a b : mp_int) (constantTime : bool) : mp_res mp_int :=
  let '(a, b) := if Nat.ltb (used a) (used b) then (b, a) else (a, b) in
  let c := pad_dp [0] (used a + used b) in
  match dp b with
  | [] => UB
  | b_0 :: pb =>
      c ← s_mpv_mul_d (dp a) b_0 c;
      c ← mulg_loop (dp a) pb 1 constantTime c;
      let c := mk_mp ZPOS c in
      let c := if constantTime then c else s_mp_clamp c in
      Ok (mk_mp (if (decide (sign a = sign b)) then ZPOS
                 else match s_mp_cmp_d c 0 with MP_EQ => ZPOS | _ => NEG end) (dp c))
  end.

Definition mp_mul (a b : mp_int) : mp_res mp_int := s_mp_mulg a b false.
Definition s_mp_mul (a b : mp_int) : mp_res mp_int := mp_mul a b.
Definition mp_mulCT (a b : mp_int) (setSize : nat) : mp_res mp_int :=
  s_mp_mulg (s_mp_pad a setSize) (s_mp_pad b setSize) true.

(** [for (ix = 3; --count > 0; ix += 2)]: [pa] is what follows the digit used last. *)
Fixpoint sqr_cross_loop (pa : list Z) (ix : nat) (sqr : list Z) : mp_res (list Z) :=
  match pa with
  | d :: pa' => match pa' with
      | [] => Ok sqr
      | _ :: _ => sqr ← at_offset ix (s_mpv_mul_d_add pa' d) sqr;
                  sqr_cross_loop pa' (ix + 2) sqr
      end
  | [] => Ok sqr
  end.

(** Twice the sum of the products of distinct digits. *)
Definition sqr_cross_digits (sqr a : list Z) : mp_res (list Z) :=
  match a with
  | d :: ((_ :: _) as pa) =>
      sqr ← at_offset 1 (s_mpv_mul_d pa d) sqr;
      sqr ← sqr_cross_loop pa 3 sqr;
      let sqr := <[(length sqr - 1)%nat := 0]> sqr in
      Ok (dp (s_mp_mul_2 (mk_mp ZPOS sqr)))
  | _ => Ok (<[1%nat := 0]> sqr)
  end.

(** [buf] is the digit storage of [sqr] when the routine starts. *)
Definition sqr_digits (buf a : list Z) : mp_res (list Z) :=
  sqr ← sqr_cross_digits (<[0%nat := 0]> buf) a;
  s_mpv_sqr_add_prop a sqr.

Definition mp_sqr (a : mp_int) : mp_res mp_int :=
  r ← sqr_digits (replicate (2 * used a) 0) (dp a);
  Ok (s_mp_clamp (mk_mp ZPOS r)).
Definition s_mp_sqr (a : mp_int) : mp_res mp_int := mp_sqr a.

(** ** The macros compute comparisons *)

Lemma high_to_low x : is_digit x → MP_CT_HIGH_TO_LOW x = Z.b2z (2 ^ 63 <=? x).
Proof.
  intros Hx. unfold MP_CT_HIGH_TO_LOW, MP_DIGIT_BIT. rewrite Z.shiftr_div_pow2 by lia.
  unfold is_digit, B in Hx. change (64 - 1) with 63. change (2 ^ 64) with (2 * 2 ^ 63) in Hx.
  destruct (Z.leb_spec (2 ^ 63) x); simpl Z.b2z; symmetry.
  - apply Z.div_unique with (x - 2 ^ 63); lia.
  - apply Z.div_unique with x; lia.
Qed.

Lemma lxor_digit a b : is_digit a → is_digit b → is_digit (Z.lxor a b).
Proof. unfold is_digit, B. intros. apply lxor_range; lia. Qed.

Lemma high_lxor a b : is_digit a → is_digit b →
  MP_CT_HIGH_TO_LOW (Z.lxor a b) = Z.b2z (xorb (2 ^ 63 <=? a) (2 ^ 63 <=? b)).
Proof.
  intros Ha Hb. unfold MP_CT_HIGH_TO_LOW. rewrite Z.shiftr_lxor.
  fold (MP_CT_HIGH_TO_LOW a) (MP_CT_HIGH_TO_LOW b). rewrite !high_to_low by done.
  by destruct (2 ^ 63 <=? a), (2 ^ 63 <=? b).
Qed.

Lemma ct_ltu a b : is_digit a → is_digit b → MP_CT_LTU a b = Z.b2z (a <? b).
Proof.
  intros Ha Hb. unfold MP_CT_LTU, MP_CT_OVERFLOW, MP_CT_LT.
  rewrite high_lxor, !high_to_low by (done || apply u64_digit).
  destruct (sub_digit a b Ha Hb) as [Hs Hd]. unfold is_digit, B in *.
  change (2 ^ 64) with (2 * 2 ^ 63) in *. set (s := u64 (a - b)) in *.
  destruct (Z.gtb_spec s a), (Z.leb_spec (2 ^ 63) a), (Z.leb_spec (2 ^ 63) b), (Z.leb_spec (2 ^ 63) s),
    (Z.ltb_spec a b); cbn [Z.b2z xorb] in *; (reflexivity || lia).
Qed.

Lemma ct_ltu_step (k a b : Z) : is_digit a → is_digit b →
  (if a <? b then u64 (k + 1) else u64 k) = u64 (k + MP_CT_LTU a b).
Proof. intros Ha Hb. rewrite ct_ltu by done. destruct (a <? b); simpl; [done|]. by rewrite Z.add_0_r. Qed.

Lemma lor_neg_high x : is_digit x → MP_CT_HIGH_TO_LOW (Z.lor x (u64 (0 - x))) = Z.b2z (negb (x =? 0)).
Proof.
  intros Hx. unfold MP_CT_HIGH_TO_LOW. rewrite Z.shiftr_lor.
  fold (MP_CT_HIGH_TO_LOW x) (MP_CT_HIGH_TO_LOW (u64 (0 - x))). rewrite !high_to_low by (done || apply u64_digit).
  assert (is_digit 0) as H0 by (apply bit_digit; by left).
  destruct (sub_digit 0 x H0 Hx) as [Hs Hd]. unfold is_digit, B in *.
  change (2 ^ 64) with (2 * 2 ^ 63) in *. set (s := u64 (0 - x)) in *.
  destruct (Z.gtb_spec s 0), (Z.leb_spec (2 ^ 63) x), (Z.leb_spec (2 ^ 63) s), (Z.eqb_spec x 0);
    cbn [Z.b2z negb] in *; (reflexivity || lia).
Qed.

Lemma ct_eq a b : is_digit a → is_digit b → MP_CT_EQ a b = Z.b2z (a =? b).
Proof.
  intros Ha Hb. unfold MP_CT_EQ, MP_CT_ZERO. rewrite lor_neg_high by (by apply lxor_digit).
  destruct (Z.eqb_spec (Z.lxor a b) 0) as [E|E], (Z.eqb_spec a b) as [E'|E']; try done.
  - by apply Z.lxor_eq in E.
  - by rewrite E', Z.lxor_nilpotent in E.
Qed.

(** Selecting with an all-ones or an all-zeros mask. *)
Lemma ct_sel_zero l r : MP_CT_SEL 0 l r = r.
Proof. unfold MP_CT_SEL. by rewrite Z.land_0_l, Z.lxor_0_r. Qed.
Lemma ct_sel_ones l r : is_digit l → is_digit r → MP_CT_SEL MP_DIGIT_MAX l r = l.
Proof.
  intros Hl Hr. unfold MP_CT_SEL. change MP_DIGIT_MAX with (Z.ones 64). rewrite Z.land_comm, Z.land_ones by lia.
  rewrite Z.mod_small by (by apply lxor_digit).
  by rewrite <- Z.lxor_assoc, Z.lxor_nilpotent, Z.lxor_0_l.
Qed.

(** ** Digit products *)

Lemma halves a : is_digit a →
  a = hi32 a * 2 ^ 32 + lo32 a ∧ 0 ≤ hi32 a < 2 ^ 32 ∧ 0 ≤ lo32 a < 2 ^ 32.
Proof.
  intros Ha. unfold hi32, lo32, MP_HALF_DIGIT_BIT. change MP_HALF_DIGIT_MAX with (Z.ones 32).
  rewrite Z.land_ones, Z.shiftr_div_pow2 by lia. unfold is_digit, B in Ha.
  Z.to_euclidean_division_equations. lia.
Qed.

(** Assembling a two-digit product from its halves, where only the final sum
    is known to fit. *)
Lemma assemble (x00 x11 mid t : Z) : 0 ≤ x00 < B → 0 ≤ x11 → 0 ≤ mid < 2 * B →
  x11 * B + mid * 2 ^ 32 + x00 = t → t < B * B →
  let m := mid mod B in
  let c := mid / B in
  let lo := (x00 + (m * 2 ^ 32) mod B) mod B in
  let hi := x11 + m / 2 ^ 32 + c * 2 ^ 32 + (x00 + (m * 2 ^ 32) mod B) / B in
  hi * B + lo = t ∧ 0 ≤ hi < B.
Proof.
  intros H00 H11 Hmid Ht Hlt m c lo hi.
  pose proof (Z.div_mod mid B) as Hm. pose proof (Z.mod_pos_bound mid B) as Hmr.
  pose proof (Z.div_mod (x00 + (m * 2 ^ 32) mod B) B) as Hl. fold lo in Hl.
  assert ((m * 2 ^ 32) mod B = (m mod 2 ^ 32) * 2 ^ 32) as Hml.
  { unfold B. change (2 ^ 64) with (2 ^ 32 * 2 ^ 32). rewrite Z.mul_mod_distr_r by lia. done. }
  pose proof (Z.div_mod m (2 ^ 32)) as Hm2. pose proof (Z.mod_pos_bound m (2 ^ 32)) as Hm2r.
  assert (B = 2 ^ 32 * 2 ^ 32) as HB by done. pose_B.
  pose proof (Z.mod_pos_bound (x00 + (m * 2 ^ 32) mod B) B) as Hlr. fold lo in Hlr.
  fold m c in Hm, Hmr. assert (hi * B + lo = t) as E.
  { unfold hi. rewrite Hml in *. nia. }
  assert (0 ≤ m / 2 ^ 32) by (apply Z.div_pos; lia).
  assert (0 ≤ c) by (apply Z.div_pos; lia).
  assert (0 ≤ (x00 + (m * 2 ^ 32) mod B) / B) by (apply Z.div_pos; lia).
  split; [done|]. split; [unfold hi; lia|nia].
Qed.

(** A wrapped sum and its carry are the quotient and remainder by the radix. *)
Lemma add_carry_divmod a b : is_digit a → is_digit b →
  u64 (a + b) = (a + b) mod B ∧ Z.b2z (u64 (a + b) <? b) = (a + b) / B.
Proof.
  intros Ha Hb. destruct (add_digit a b Ha Hb) as (H1 & H2 & H3). split; [done|].
  rewrite <- H2. apply Z.div_unique with (u64 (a + b)); [left; exact H3|lia].
Qed.

(** Nested wrapped additions collapse when the full sum fits. *)
Lemma u64_add_u64 a b : u64 (u64 a + b) = u64 (a + b).
Proof. rewrite !u64_B. pose_B. by rewrite Zplus_mod_idemp_l. Qed.

Lemma u64_mul_small a b : 0 ≤ a < 2 ^ 32 → 0 ≤ b < 2 ^ 32 → u64 (a * b) = a * b ∧ is_digit (a * b).
Proof. intros Ha Hb. assert (is_digit (a * b)) by (unfold is_digit, B; nia). split; [by apply u64_small|done]. Qed.

Lemma mul_dxd_spec a b : is_digit a → is_digit b →
  let '(Phi, Plo) := MP_MUL_DxD a b in Phi * B + Plo = a * b ∧ is_digit Phi ∧ is_digit Plo.
Proof.
  intros Ha Hb. destruct (halves a Ha) as (Ea & Ha1 & Ha0). destruct (halves b Hb) as (Eb & Hb1 & Hb0).
  unfold MP_MUL_DxD. set (a1 := hi32 a) in *. set (a0 := lo32 a) in *.
  set (b1 := hi32 b) in *. set (b0 := lo32 b) in *.
  destruct (u64_mul_small a0 b0 Ha0 Hb0) as [-> D00], (u64_mul_small a1 b1 Ha1 Hb1) as [-> D11],
    (u64_mul_small a0 b1 Ha0 Hb1) as [-> D01], (u64_mul_small a1 b0 Ha1 Hb0) as [-> D10].
  rewrite (ct_ltu (u64 (a1 * b0 + a0 * b1))) by (done || apply u64_digit).
  destruct (add_carry_divmod (a1 * b0) (a0 * b1) D10 D01) as [Em Ec]. rewrite Ec, Em.
  set (mid := a1 * b0 + a0 * b1) in *.
  unfold MP_HALF_DIGIT_BIT. rewrite Z.shiftr_div_pow2, !Z.shiftl_mul_pow2 by lia.
  rewrite (ct_ltu (u64 (a0 * b0 + _))) by apply u64_digit.
  destruct (add_carry_divmod (a0 * b0) (u64 (mid mod B * 2 ^ 32)) D00 (u64_digit _)) as [El Ecl]. rewrite Ecl, El.
  rewrite (u64_B (mid mod B * 2 ^ 32)).
  assert (is_digit (mid / B * 2 ^ 32)) as Hc.
  { rewrite <- Ec. destruct (_ <? _); unfold is_digit, B; simpl Z.b2z; lia. }
  rewrite (u64_small (mid / B * 2 ^ 32)) by done. rewrite !u64_add_u64.
  destruct (assemble (a0 * b0) (a1 * b1) mid (a * b)) as [H1 H2]; unfold is_digit in *; try lia.
  - rewrite Ea, Eb. unfold B, mid. change (2 ^ 64) with (2 ^ 32 * 2 ^ 32). ring.
  - nia.
  - cbn zeta in H1, H2. rewrite <- (Z.add_assoc (u64 _)), u64_add_u64, Z.add_assoc, u64_small by done. split_and!; [done|lia|lia|..]; apply Z.mod_pos_bound, B_pos.
Qed.

Lemma sqr_d_spec a : is_digit a →
  let '(Phi, Plo) := MP_SQR_D a in Phi * B + Plo = a * a ∧ is_digit Phi ∧ is_digit Plo.
Proof.
  intros Ha. destruct (halves a Ha) as (Ea & Ha1 & Ha0). unfold MP_SQR_D.
  set (a1 := hi32 a) in *. set (a0 := lo32 a) in *.
  destruct (u64_mul_small a0 a0 Ha0 Ha0) as [-> D00], (u64_mul_small a1 a1 Ha1 Ha1) as [-> D11],
    (u64_mul_small a0 a1 Ha0 Ha1) as [-> D01].
  unfold MP_HALF_DIGIT_BIT. rewrite Z.shiftr_div_pow2, Z.shiftl_mul_pow2 by lia.
  change (32 - 1) with 31. change (32 + 1) with 33. set (pm := a0 * a1) in *.
  destruct (add_carry_divmod (a0 * a0) (u64 (pm * 2 ^ 33)) D00 (u64_digit _)) as [El Ecl].
  assert (a1 * a1 * B + (2 * pm) * 2 ^ 32 + a0 * a0 = a * a) as Et.
  { rewrite Ea. unfold B, pm. change (2 ^ 64) with (2 ^ 32 * 2 ^ 32). ring. }
  assert (pm / 2 ^ 31 = (2 * pm) mod B / 2 ^ 32 + (2 * pm) / B * 2 ^ 32) as E31.
  { unfold is_digit, B in D01. unfold B. change (2 ^ 64) with (2 ^ 32 * 2 ^ 32). clear - D01.
    Z.to_euclidean_division_equations. lia. }
  assert (u64 (pm * 2 ^ 33) = ((2 * pm) mod B * 2 ^ 32) mod B) as E33.
  { rewrite u64_B. pose_B. rewrite Z.mul_mod_idemp_l by lia. f_equal. lia. }
  destruct (assemble (a0 * a0) (a1 * a1) (2 * pm) (a * a)) as [H1 H2]; unfold is_digit in *; try lia; [nia|].
  assert ((if u64 (a0 * a0 + u64 (pm * 2 ^ 33)) <? u64 (pm * 2 ^ 33)
    then u64 (u64 (a1 * a1 + pm / 2 ^ 31) + 1) else u64 (a1 * a1 + pm / 2 ^ 31))
    = u64 (a1 * a1 + pm / 2 ^ 31 + (a0 * a0 + u64 (pm * 2 ^ 33)) / B)) as ->.
  { rewrite <- Ecl. destruct (_ <? _); simpl Z.b2z; [by rewrite u64_add_u64|by rewrite Z.add_0_r]. }
  cbn zeta in H1, H2. rewrite E33 in *. rewrite E31, Z.add_assoc, u64_small, El by done.
  split_and!; [done|lia|lia|..]; apply Z.mod_pos_bound, B_pos.
Qed.

(** Adding a digit into a two-digit number that cannot overflow. *)
Lemma add_into hi lo c t : is_digit hi → is_digit lo → is_digit c → hi * B + lo + c = t → t < B * B →
  let lo' := u64 (lo + c) in
  let hi' := u64 (hi + MP_CT_LTU lo' c) in
  hi' * B + lo' = t ∧ is_digit hi' ∧ is_digit lo'.
Proof.
  intros Hhi Hlo Hc Ht Hlt. cbn zeta. rewrite ct_ltu by (done || apply u64_digit).
  destruct (add_digit lo c Hlo Hc) as (H1 & H2 & H3). rewrite H2 in H1.
  set (k := Z.b2z _) in *. assert (bit k) as Hk by apply b2z_bit. unfold bit, is_digit in *. pose_B.
  rewrite u64_small by (unfold is_digit; nia). split_and!; nia.
Qed.

Lemma mul_add_digit_spec a b c carry : is_digit a → is_digit b → is_digit c → is_digit carry →
  let '(hi, lo) := mul_add_digit a b c carry in
  hi * B + lo = a * b + c + carry ∧ is_digit hi ∧ is_digit lo.
Proof.
  intros Ha Hb Hc Hk. unfold mul_add_digit. pose proof (mul_dxd_spec a b Ha Hb) as H.
  destruct (MP_MUL_DxD a b) as [hi lo]. destruct H as (E & Hhi & Hlo).
  destruct (add_into hi lo carry (a * b + carry)) as (E1 & Hhi1 & Hlo1); try done; try lia; [unfold is_digit in *; nia|].
  destruct (add_into _ _ c (a * b + c + carry) Hhi1 Hlo1 Hc) as (E2 & Hhi2 & Hlo2); [lia|unfold is_digit in *; nia|].
  done.
Qed.

Lemma mul_add_digit_br_eq a b c carry : is_digit a → is_digit b → is_digit c → is_digit carry →
  mul_add_digit_br a b c carry = mul_add_digit a b c carry.
Proof.
  intros Ha Hb Hc Hk. unfold mul_add_digit_br, mul_add_digit. pose proof (mul_dxd_spec a b Ha Hb) as H.
  destruct (MP_MUL_DxD a b) as [hi lo]. destruct H as (E & Hhi & Hlo).
  pose proof (ct_ltu_step hi (u64 (lo + carry)) carry (u64_digit _) Hk) as E1. rewrite (u64_small hi) in E1 by done.
  rewrite E1. set (hi1 := u64 (hi + _)).
  pose proof (ct_ltu_step hi1 (u64 (u64 (lo + carry) + c)) c (u64_digit _) Hc) as E2.
  rewrite (u64_small hi1) in E2 by apply u64_digit. by rewrite E2.
Qed.

(** ** Vector kernels *)

Lemma mul_d_loop_spec a b carry : digits a → is_digit b → is_digit carry →
  let r := mul_d_loop a b carry in
  digits r ∧ length r = S (length a) ∧ eval r = eval a * b + carry.
Proof.
  intros Ha Hb. revert carry. induction Ha as [|x a Hx Ha IH]; intros carry Hc; cbn [mul_d_loop].
  { split_and!; [by constructor|done|simpl; lia]. }
  pose proof (mul_dxd_spec x b Hx Hb) as H. destruct (MP_MUL_DxD x b) as [hi lo]. destruct H as (E & Hhi & Hlo).
  destruct (add_into hi lo carry (x * b + carry)) as (E1 & Hhi1 & Hlo1); try done; try lia; [unfold is_digit in *; nia|].
  cbn zeta in *. destruct (IH _ Hhi1) as (I1 & I2 & I3).
  split_and!; [by constructor|cbn [length]; by rewrite I2|]. cbn [eval]. rewrite I3. lia.
Qed.

Lemma s_mpv_mul_d_spec a b c : digits a → is_digit b → (length a < length c)%nat →
  ∃ p, s_mpv_mul_d a b c = Ok (p ++ drop (S (length a)) c) ∧ digits p ∧
       length p = S (length a) ∧ eval p = eval a * b.
Proof.
  intros Ha Hb Hl. unfold s_mpv_mul_d. destruct (Nat.ltb_spec (length c) (length a + 1)); [lia|].
  destruct (mul_d_loop_spec a b 0 Ha Hb) as (H1 & H2 & H3); [apply bit_digit; by left|].
  rewrite Nat.add_1_r. eexists. split_and!; [done|done|done|lia].
Qed.

Lemma mul_d_add_loop_spec a b c carry : digits a → is_digit b → digits c → is_digit carry →
  (length a < length c)%nat →
  ∃ p, mul_d_add_loop a b c carry = Ok (p ++ drop (S (length a)) c) ∧ digits p ∧
       length p = S (length a) ∧ eval p = eval a * b + eval (take (length a) c) + carry.
Proof.
  intros Ha Hb. revert c carry. induction Ha as [|x a Hx Ha IH]; intros [|y c] carry Hc Hk Hl; try (simpl in Hl; lia).
  { exists [carry]. simpl. split_and!; [done|by constructor|done|lia]. }
  apply Forall_cons in Hc as [Hy Hc]. cbn [mul_d_add_loop].
  pose proof (mul_add_digit_spec x b y carry Hx Hb Hy Hk) as H. destruct (mul_add_digit x b y carry) as [hi lo].
  destruct H as (E & Hhi & Hlo). destruct (IH c hi Hc Hhi ltac:(simpl in Hl; lia)) as (p & -> & I1 & I2 & I3).
  exists (lo :: p). simpl. split_and!; [done|by constructor|by rewrite I2|]. rewrite I3. lia.
Qed.

(** [c += a * b] when the digit after the addend is clear. *)
Lemma s_mpv_mul_d_add_spec a b c : digits a → is_digit b → digits c → (length a < length c)%nat →
  ∃ p, s_mpv_mul_d_add a b c = Ok (p ++ drop (S (length a)) c) ∧ digits p ∧
       length p = S (length a) ∧ eval p = eval a * b + eval (take (length a) c).
Proof.
  intros Ha Hb Hc Hl. destruct (mul_d_add_loop_spec a b c 0 Ha Hb Hc) as (p & H1 & H2 & H3 & H4);
    [apply bit_digit; by left|done|]. exists p. split_and!; try done. lia.
Qed.

Lemma carry_prop_spec c carry : digits c → is_digit carry → eval c + carry < B ^ length c →
  ∃ r, carry_prop c carry = Ok r ∧ digits r ∧ length r = length c ∧ eval r = eval c + carry.
Proof.
  intros Hc. revert carry. induction Hc as [|x c Hx Hc IH]; intros carry Hk Hlt.
  { assert (carry = 0) as -> by (unfold is_digit in Hk; simpl in Hlt; lia). exists []. split_and!; done. }
  cbn [carry_prop]. destruct (Z.eqb_spec carry 0) as [->|Hne].
  { exists (x :: c). split_and!; [done|by constructor|done|lia]. }
  destruct (add_digit carry x Hk Hx) as (H1 & H2 & H3). rewrite H2 in H1. cbn [length eval] in *.
  rewrite B_pow_S in Hlt.
  destruct (IH (Z.b2z (u64 (carry + x) <? x)) ltac:(auto with nss)) as (r & -> & I1 & I2 & I3).
  { unfold is_digit in *. pose_B. nia. }
  cbn [mbind res_bind]. eexists. split_and!; [done|by constructor|cbn; by rewrite I2|]. cbn [eval]. rewrite I3. lia.
Qed.

Lemma carry_propCT_spec c carry : digits c → is_digit carry →
  let r := carry_propCT c carry in
  digits r ∧ length r = length c ∧ eval r = (eval c + carry) mod B ^ length c.
Proof.
  intros Hc. revert carry. induction Hc as [|x c Hx Hc IH]; intros carry Hk; cbn [carry_propCT].
  { simpl. by rewrite Z.mod_1_r. }
  rewrite ct_ltu by (done || apply u64_digit).
  destruct (add_digit carry x Hk Hx) as (H1 & H2 & H3). rewrite H2 in H1.
  destruct (IH (Z.b2z (u64 (carry + x) <? x)) ltac:(auto with nss)) as (I1 & I2 & I3).
  cbn zeta. split_and!; [by constructor|cbn; by rewrite I2|]. cbn [eval length]. rewrite I3, B_pow_S.
  rewrite <- mod_digit by (done || apply B_pow). f_equal. lia.
Qed.

Lemma s_mpv_mul_d_add_prop_spec a b c : digits a → is_digit b → digits c → (length a ≤ length c)%nat →
  eval c + eval a * b < B ^ length c →
  ∃ r, s_mpv_mul_d_add_prop a b c = Ok r ∧ digits r ∧ length r = length c ∧ eval r = eval c + eval a * b.
Proof.
  intros Ha Hb Hc Hl Hlt. unfold s_mpv_mul_d_add_prop.
  assert (∀ carry, is_digit carry → eval c + eval a * b + carry < B ^ length c →
    ∃ r, mul_d_add_prop_loop a b c carry = Ok r ∧ digits r ∧ length r = length c ∧
         eval r = eval c + eval a * b + carry) as Hgen.
  { clear Hlt. revert c Hc Hl. induction Ha as [|x a Hx Ha IH]; intros c Hc Hl carry Hk Hlt.
    { assert (mul_d_add_prop_loop [] b c carry = carry_prop c carry) as -> by (by destruct c).
      destruct (carry_prop_spec c carry Hc Hk) as (r & E1 & E2 & E3 & E4); [simpl in Hlt; lia|].
      exists r. split_and!; try done. simpl. lia. }
    destruct c as [|y c]; [simpl in Hl; lia|]. apply Forall_cons in Hc as [Hy Hc]. cbn [mul_d_add_prop_loop].
    rewrite mul_add_digit_br_eq by done. pose proof (mul_add_digit_spec x b y carry Hx Hb Hy Hk) as H.
    destruct (mul_add_digit x b y carry) as [hi lo]. destruct H as (E & Hhi & Hlo).
    cbn [length eval] in *. rewrite B_pow_S in Hlt.
    destruct (IH c Hc ltac:(lia) hi Hhi) as (r & -> & I1 & I2 & I3).
    { unfold is_digit in *. pose_B. nia. }
    cbn [mbind res_bind]. eexists. split_and!; [done|by constructor|cbn; by rewrite I2|]. cbn [eval]. rewrite I3. lia. }
  destruct (Hgen 0 ltac:(apply bit_digit; by left) ltac:(lia)) as (r & ? & ? & ? & ?).
  exists r. split_and!; try done. lia.
Qed.

Lemma s_mpv_mul_d_add_propCT_spec a b c : digits a → is_digit b → digits c → (length a ≤ length c)%nat →
  ∃ r, s_mpv_mul_d_add_propCT a b c = Ok r ∧ digits r ∧ length r = length c ∧
       eval r = (eval c + eval a * b) mod B ^ length c.
Proof.
  intros Ha Hb Hc Hl. unfold s_mpv_mul_d_add_propCT.
  assert (∀ carry, is_digit carry →
    ∃ r, mul_d_add_propCT_loop a b c carry = Ok r ∧ digits r ∧ length r = length c ∧
         eval r = (eval c + eval a * b + carry) mod B ^ length c) as Hgen.
  { revert c Hc Hl. induction Ha as [|x a Hx Ha IH]; intros c Hc Hl carry Hk.
    { assert (mul_d_add_propCT_loop [] b c carry = Ok (carry_propCT c carry)) as -> by (by destruct c).
      destruct (carry_propCT_spec c carry Hc Hk) as (E1 & E2 & E3).
      eexists. split_and!; [done..|]. rewrite E3. simpl. f_equal. lia. }
    destruct c as [|y c]; [simpl in Hl; lia|]. apply Forall_cons in Hc as [Hy Hc]. cbn [mul_d_add_propCT_loop].
    pose proof (mul_add_digit_spec x b y carry Hx Hb Hy Hk) as H.
    destruct (mul_add_digit x b y carry) as [hi lo]. destruct H as (E & Hhi & Hlo).
    destruct (IH c Hc ltac:(simpl in Hl; lia) hi Hhi) as (r & -> & I1 & I2 & I3).
    cbn [mbind res_bind]. eexists. split_and!; [done|by constructor|cbn; by rewrite I2|].
    cbn [eval length]. rewrite I3, B_pow_S, <- mod_digit by (done || apply B_pow). f_equal. lia. }
  destruct (Hgen 0 ltac:(apply bit_digit; by left)) as (r & ? & ? & ? & E).
  exists r. split_and!; try done. rewrite E. f_equal. lia.
Qed.

(** A square splits into the squares of the digits and twice the cross products. *)
Fixpoint sqsum (a : list Z) : Z := match a with [] => 0 | x :: a => x * x + B * (B * sqsum a) end.
Fixpoint cross (a : list Z) : Z := match a with [] => 0 | x :: a => B * (x * eval a + B * cross a) end.

Lemma square_split a : eval a * eval a = sqsum a + 2 * cross a.
Proof. induction a as [|x a IH]; [done|]. cbn [eval sqsum cross]. nia. Qed.

Lemma sqsum_cross_nonneg a : digits a → 0 ≤ sqsum a ∧ 0 ≤ cross a.
Proof.
  induction 1 as [|x a Hx Ha IH]; [done|]. pose proof (eval_range a Ha). unfold is_digit in Hx. pose_B.
  cbn [sqsum cross]. nia.
Qed.

Lemma sqr_add_loop_spec pa ps carry : digits pa → digits ps → bit carry →
  (2 * length pa ≤ length ps)%nat → eval ps + sqsum pa + carry < B ^ length ps →
  ∃ r, sqr_add_loop pa ps carry = Ok r ∧ digits r ∧ length r = length ps ∧ eval r = eval ps + sqsum pa + carry.
Proof.
  intros Ha. revert ps carry. induction Ha as [|x pa Hx Ha IH]; intros ps carry Hps Hk Hl Hlt.
  { assert (sqr_add_loop [] ps carry = carry_prop ps carry) as -> by (by destruct ps as [|? [|]]).
    simpl in Hlt |- *. rewrite Z.add_0_r in *. apply carry_prop_spec; auto with nss. }
  destruct ps as [|s0 [|s1 ps]]; [simpl in Hl; lia..|].
  apply Forall_cons in Hps as [Hs0 Hps]. apply Forall_cons in Hps as [Hs1 Hps]. cbn [sqr_add_loop].
  pose proof (sqr_d_spec x Hx) as H. destruct (MP_SQR_D x) as [hi lo]. destruct H as (E & Hhi & Hlo).
  pose proof (bit_digit carry Hk) as Hkd.
  destruct (add_into hi lo carry (x * x + carry)) as (E1 & Hhi1 & Hlo1); try done; try lia; [unfold is_digit, bit in *; nia|].
  destruct (add_into _ _ s0 (x * x + s0 + carry) Hhi1 Hlo1 Hs0) as (E2 & Hhi2 & Hlo2); [lia|unfold is_digit, bit in *; nia|].
  pose proof (ct_ltu_step hi (u64 (lo + carry)) carry (u64_digit _) Hkd) as Ei. rewrite (u64_small hi) in Ei by done.
  rewrite Ei. cbn zeta in *. set (hi1 := u64 (hi + _)) in *.
  pose proof (ct_ltu_step hi1 (u64 (u64 (lo + carry) + s0)) s0 (u64_digit _) Hs0) as Ei2.
  rewrite (u64_small hi1) in Ei2 by apply u64_digit. rewrite Ei2. set (hi2 := u64 (hi1 + _)) in *.
  destruct (add_digit hi2 s1 Hhi2 Hs1) as (A1 & A2 & A3). rewrite A2 in A1.
  cbn [length eval sqsum] in *. rewrite !B_pow_S in Hlt.
  destruct (IH ps (Z.b2z (u64 (hi2 + s1) <? s1)) Hps (b2z_bit _) ltac:(lia)) as (r & -> & I1 & I2 & I3).
  { pose proof (u64_digit (u64 (lo + carry) + s0)). unfold is_digit in *. pose_B. nia. }
  cbn [mbind res_bind]. eexists. split_and!; [done|by (constructor; [apply u64_digit|constructor; [apply u64_digit|]])|cbn; by rewrite I2|].
  cbn [eval]. rewrite I3. lia.
Qed.

(** ** Products *)

(** Adding [a * d] at digit [ib] of a partial product one digit shorter than
    what it may touch. *)
Lemma mul_add_at a d p s ib : digits a → is_digit d → digits p → digits s →
  length p = (ib + length a)%nat → s ≠ [] →
  ∃ p' s', at_offset ib (s_mpv_mul_d_add a d) (p ++ s) = Ok (p' ++ s') ∧ digits p' ∧ digits s' ∧
    length p' = S (length p) ∧ s' = tail s ∧ eval p' = eval p + B ^ ib * (eval a * d).
Proof.
  intros Ha Hd Hp Hs Hl Hne. unfold at_offset.
  assert (drop ib (p ++ s) = drop ib p ++ s) as -> by (rewrite drop_app_le by lia; done).
  destruct (s_mpv_mul_d_add_spec a d (drop ib p ++ s) Ha Hd) as (q & -> & Q1 & Q2 & Q3).
  { apply Forall_app; split; [by apply Forall_drop|done]. }
  { rewrite length_app, length_drop. destruct s; [done|simpl; lia]. }
  cbn [mbind res_bind]. assert (length (drop ib p) = length a) as Hdl by (rewrite length_drop; lia).
  exists (take ib p ++ q), (tail s). rewrite take_app_le by lia.
  assert (drop (S (length a)) (drop ib p ++ s) = tail s) as ->.
  { rewrite <- Hdl. destruct s as [|y s]; [done|]. rewrite drop_app_ge by lia.
    replace (S (length (drop ib p)) - length (drop ib p))%nat with 1%nat by lia. done. }
  split_and!; [by rewrite app_assoc|..|done| ].
  - apply Forall_app; split; [by apply Forall_take|done].
  - destruct s; [done|]. by apply Forall_cons in Hs as [_ Hs].
  - rewrite length_app, length_take. lia.
  - rewrite eval_app, Q3, length_take, Nat.min_l by lia.
    rewrite take_app_length' by done. rewrite (eval_take_drop ib p) by lia. lia.
Qed.

Lemma mulg_loop_spec a pb ct : digits a → digits pb → ∀ ib p s, digits p → digits s →
  length p = (ib + length a)%nat → length s = length pb →
  ∃ r, mulg_loop a pb ib ct (p ++ s) = Ok r ∧ digits r ∧ length r = (length p + length pb)%nat ∧
       eval r = eval p + B ^ ib * (eval a * eval pb).
Proof.
  intros Ha Hb. induction Hb as [|b pb Hb Hpb IH]; intros ib p s Hp Hs Hl Hsl.
  { destruct s; [|done]. rewrite app_nil_r. exists p. split_and!; [done|done|simpl; lia|simpl; lia]. }
  cbn [mulg_loop]. assert (s ≠ []) as Hne by (by destruct s).
  assert (∃ p' s', (if ct || negb (b =? 0) then at_offset ib (s_mpv_mul_d_add a b) (p ++ s)
           else Ok (<[(ib + length a)%nat := b]> (p ++ s))) = Ok (p' ++ s') ∧ digits p' ∧ digits s' ∧
    length p' = S (length p) ∧ s' = tail s ∧ eval p' = eval p + B ^ ib * (eval a * b)) as (p' & s' & -> & P1 & P2 & P3 & P4 & P5).
  { destruct (ct || negb (b =? 0)) eqn:Hbr; [by apply mul_add_at|].
    apply orb_false_elim in Hbr as [_ Hbr]. apply negb_false_iff, Z.eqb_eq in Hbr. subst b.
    destruct s as [|y s]; [done|]. apply Forall_cons in Hs as [_ Hs].
    exists (p ++ [0]), s. rewrite insert_app_r_alt by lia. rewrite Hl, Nat.sub_diag. simpl.
    split_and!; [by rewrite <- app_assoc|apply Forall_app; split; [done|by constructor]|done| |done|].
    - rewrite length_app. simpl. lia.
    - rewrite eval_snoc. lia. }
  cbn [mbind res_bind].
  destruct (IH (S ib) p' s' P1 P2 ltac:(lia)) as (r & -> & R1 & R2 & R3).
  { rewrite P4. destruct s; simpl in *; lia. }
  exists r. split_and!; [done|done|simpl; lia|]. rewrite R3, P5, B_pow_S. cbn [eval]. lia.
Qed.

Lemma s_mp_cmp_d_zero m : mp_norm m → s_mp_cmp_d m 0 = MP_EQ ↔ mag m = 0.
Proof.
  intros Hm. pose proof (mp_ok_used m (proj1 Hm)). unfold s_mp_cmp_d.
  destruct (Nat.ltb_spec 1 (used m)).
  - destruct (norm_lower m Hm) as [|Hlo]; [lia|]. pose_B. split; [done|lia].
  - unfold used, mag in *. destruct Hm as [[Hd _] _]. destruct (dp m) as [|x [|]]; simpl in *; try lia.
    apply Forall_cons in Hd as [Hx _]. unfold is_digit in Hx.
    change ([x] !!! 0%nat) with x. destruct (Z.ltb_spec x 0), (Z.gtb_spec x 0); split; intros; try done; lia.
Qed.

Definition sign_mul (s t : mp_sign) : mp_sign := if decide (s = t) then ZPOS else NEG.

Lemma signed_mul s t x y : signed (sign_mul s t) (x * y) = signed s x * signed t y.
Proof. destruct s, t; unfold sign_mul; case_decide; simpl; try done; lia. Qed.

(** The digits of a product, whichever operand drives the outer loop. *)
Lemma mulg_digits a b ct : digits a → digits b → b ≠ [] → ∃ r,
  (match b with
   | [] => UB
   | b_0 :: pb => c ← s_mpv_mul_d a b_0 (pad_dp [0] (length a + length b)); mulg_loop a pb 1 ct c
   end : mp_res (list Z)) = Ok r ∧ digits r ∧ length r = (length a + length b)%nat ∧ eval r = eval a * eval b.
Proof.
  intros Ha Hb Hne. destruct b as [|b_0 pb]; [done|]. apply Forall_cons in Hb as [Hb0 Hpb].
  assert (digits [0]) as Hz by (apply (digits_zeros 1)).
  destruct (pad_dp_spec [0] (length a + length (b_0 :: pb)) Hz) as (Hpd & Hpe & Hpl). 
  change (length (b_0 :: pb)) with (S (length pb)) in *. change (length [0]) with 1%nat in Hpl.
  destruct (s_mpv_mul_d_spec a b_0 (pad_dp [0] (length a + S (length pb))) Ha Hb0)
    as (p & -> & P1 & P2 & P3); [lia|]. cbn [mbind res_bind].
  destruct (mulg_loop_spec a pb ct Ha Hpb 1 p (drop (S (length a)) (pad_dp [0] (length a + S (length pb)))))
    as (r & -> & R1 & R2 & R3); [done|by apply Forall_drop|lia|rewrite length_drop; lia|].
  exists r. split_and!; [done|done|lia|]. rewrite R3, P3. cbn [eval]. rewrite Z.pow_1_r. lia.
Qed.

Lemma s_mp_mulg_digits a b ct : mp_ok a → mp_ok b → ∃ r,
  s_mp_mulg a b ct =
    (let c := mk_mp ZPOS r in
     let c := if ct then c else s_mp_clamp c in
     Ok (mk_mp (if decide (sign a = sign b) then ZPOS
                else match s_mp_cmp_d c 0 with MP_EQ => ZPOS | _ => NEG end) (dp c))) ∧
  digits r ∧ length r = (used a + used b)%nat ∧ eval r = mag a * mag b.
Proof.
  intros [Hda Hna] [Hdb Hnb]. unfold s_mp_mulg. destruct (Nat.ltb_spec (used a) (used b)).
  - destruct (mulg_digits (dp b) (dp a) ct Hdb Hda Hna) as (r & E & R1 & R2 & R3). unfold used.
    exists r. split_and!; [|done|lia|unfold mag; lia]. destruct (dp a) as [|b_0 pb]; [done|].
    destruct (s_mpv_mul_d _ b_0 _) as [c| |]; try done. cbn [mbind res_bind] in *. rewrite E. cbn [mbind res_bind].
    repeat case_decide; done || congruence.
  - destruct (mulg_digits (dp a) (dp b) ct Hda Hdb Hnb) as (r & E & R1 & R2 & R3). unfold used.
    exists r. split_and!; [|done|lia|unfold mag; lia]. destruct (dp b) as [|b_0 pb]; [done|].
    destruct (s_mpv_mul_d _ b_0 _) as [c| |]; try done. cbn [mbind res_bind] in *. by rewrite E.
Qed.

Lemma mp_mul_spec a b : mp_ok a → mp_ok b →
  ∃ r, mp_mul a b = Ok r ∧ norm_mag r (sign_mul (sign a) (sign b)) (mag a * mag b).
Proof.
  intros Ha Hb. destruct (s_mp_mulg_digits a b false Ha Hb) as (r & E & R1 & R2 & R3).
  unfold mp_mul. rewrite E. cbn zeta. eexists. split; [done|].
  assert (mp_ok (mk_mp ZPOS r)) as Hok.
  { split; [done|]. simpl. intros Er. rewrite Er in R2. pose proof (mp_ok_used a Ha). simpl in R2. lia. }
  destruct (clamp_norm_mag _ Hok) as (C1 & C2 & C3).
  assert (mag (mk_mp ZPOS r) = mag a * mag b) as Em by done. rewrite Em in *.
  pose proof (s_mp_cmp_d_zero _ C1) as Hz. rewrite C2 in Hz. unfold sign_mul.
  set (c := s_mp_clamp (mk_mp ZPOS r)) in *. destruct C1 as (N1 & N2 & N3).
  split_and!; [split_and!|exact C2|].
  - done.
  - done.
  - intros H0. change (mag c = 0) in H0. rewrite C2 in H0. simpl. case_decide; [done|]. by rewrite (proj2 Hz).
  - intros Hne. simpl. case_decide; [done|]. destruct (s_mp_cmp_d c 0) eqn:Ec; try done.
    exfalso. apply Hne. by apply Hz.
Qed.

(** The constant-time product is not clamped: its length depends only on [n]. *)
Lemma mp_mulCT_spec a b n : mp_ok a → mp_ok b → (used a ≤ n)%nat → (used b ≤ n)%nat →
  ∃ r, mp_mulCT a b n = Ok r ∧ mp_ok r ∧ used r = (n + n)%nat ∧ mag r = mag a * mag b ∧ (sign a = sign b → sign r = ZPOS) ∧ val r = val a * val b.
Proof.
  intros Ha Hb Hua Hub. unfold mp_mulCT.
  destruct (s_mp_pad_spec a n Ha) as (Pa1 & Pa2 & Pa3 & Pa4). destruct (s_mp_pad_spec b n Hb) as (Pb1 & Pb2 & Pb3 & Pb4).
  destruct (s_mp_mulg_digits _ _ true Pa1 Pb1) as (r & -> & R1 & R2 & R3). cbn zeta.
  rewrite Pa2, Pb2, Pa4, Pb4 in *. pose proof (mp_ok_used a Ha).
  eexists. split; [done|]. split_and!; [split; [done|]|unfold used; simpl; lia|done| |].
  - simpl. intros Er. rewrite Er in R2. simpl in R2. lia.
  - intros Hs. cbn [sign]. rewrite Pa3, Pb3. by rewrite decide_True.
  - unfold val at 1. cbn [sign]. rewrite Pa3, Pb3. change (mag (mk_mp _ (dp (mk_mp ZPOS r)))) with (eval r).
    rewrite R3. fold (signed (sign a) (mag a)). unfold val. pose proof (mag_range a Ha). pose proof (mag_range b Hb).
    assert (s_mp_cmp_d (mk_mp ZPOS r) 0 = MP_EQ → eval r = 0) as Hz.
    { unfold s_mp_cmp_d. destruct (Nat.ltb_spec 1 (used (mk_mp ZPOS r))); [done|].
      unfold used in *. simpl dp in *. lia. }
    case_decide as Hs.
    + rewrite Hs. destruct (sign b); lia.
    + destruct (s_mp_cmp_d (mk_mp ZPOS r) 0) eqn:Ec; try (specialize (Hz eq_refl); rewrite R3 in Hz);
        destruct (sign a), (sign b); congruence || lia.
Qed.

Lemma s_mp_mul_d_spec a d : mp_norm a → is_digit d →
  ∃ r, s_mp_mul_d a d = Ok r ∧ norm_mag r (sign a) (mag a * d).
Proof.
  intros Ha Hd. unfold s_mp_mul_d. destruct (Z.eqb_spec d 0) as [->|H0].
  { eexists. split; [done|]. rewrite Z.mul_0_r. split_and!; [|done|done]. apply mk_norm; try done.
    - apply (digits_zeros 1).
    - left. simpl. lia. }
  destruct (Z.eqb_spec d 1) as [->|H1].
  { eexists. split; [done|]. rewrite Z.mul_1_r. by apply norm_mag_self. }
  cbn zeta. destruct (Z.leb_spec 0 (s_mp_ispow2d d)) as [Hp|Hn].
  { destruct (s_mp_ispow2d_spec d Hd) as [[E _]|[Hr E]]; [lia|]. eexists. split; [done|].
    rewrite E at 2. apply s_mp_mul_2d_spec; [apply Ha|lia]. }
  destruct Ha as [[Hda Hna] _]. destruct (pad_dp_spec (dp a) (used a + 1) Hda) as (P1 & P2 & P3).
  assert (take (used a) (pad_dp (dp a) (used a + 1)) = dp a) as -> by (unfold pad_dp; by rewrite take_app_length' by done).
  destruct (s_mpv_mul_d_spec (dp a) d (pad_dp (dp a) (used a + 1)) Hda Hd) as (p & -> & Q1 & Q2 & Q3);
    [unfold used in *; lia|].
  cbn [mbind res_bind]. rewrite drop_ge, app_nil_r by (unfold used in *; lia). eexists. split; [done|].
  assert (mag a * d = mag (mk_mp (sign a) p)) as -> by done. apply (clamp_norm_mag (mk_mp (sign a) p)).
  split; [done|]. simpl. by destruct p.
Qed.

(** ** Squares *)

Lemma sqr_cross_loop_spec pa : digits pa → pa ≠ [] → ∀ ix p s, digits p → digits s →
  (length p = ix + (length pa - 1))%nat → (length pa - 1 < length s)%nat →
  ∃ p' s', sqr_cross_loop pa ix (p ++ s) = Ok (p' ++ s') ∧ digits p' ∧ digits s' ∧
    length p' = (length p + (length pa - 1))%nat ∧ (length s' + length pa = length s + 1)%nat ∧
    B * eval p' = B * eval p + B ^ ix * cross pa.
Proof.
  intros Hpa. induction Hpa as [|d pa Hd Hpa IH]; intros Hne ix p s Hp Hs Hlp Hls; [done|].
  destruct pa as [|e pa].
  { exists p, s. cbn. split_and!; [done|done|done|lia|lia|lia]. }
  change (sqr_cross_loop (d :: e :: pa) ix (p ++ s)) with
    (sqr ← at_offset ix (s_mpv_mul_d_add (e :: pa) d) (p ++ s); sqr_cross_loop (e :: pa) (ix + 2) sqr).
  set (pa' := e :: pa) in *. simpl length in Hlp, Hls.
  destruct (mul_add_at pa' d p s ix Hpa Hd Hp Hs) as (p1 & s1 & -> & P1 & P2 & P3 & P4 & P5).
  { rewrite Hlp. unfold pa'. simpl. lia. }
  { destruct s; [simpl in Hls; lia|done]. }
  assert (length s1 = length s - 1)%nat as Hs1 by (rewrite P4; destruct s; simpl in *; lia).
  cbn [mbind res_bind]. destruct (IH ltac:(done) (ix + 2)%nat p1 s1 P1 P2) as (p2 & s2 & -> & Q1 & Q2 & Q3 & Q4 & Q5).
  { rewrite P3, Hlp. unfold pa'. simpl. lia. }
  { rewrite Hs1. unfold pa'. simpl in *. lia. }
  exists p2, s2. split_and!; [done|done|done|unfold pa' in *; simpl in *; lia|unfold pa' in *; simpl in *; lia|].
  rewrite Q5, P5. replace (ix + 2)%nat with (S (S ix)) by lia. rewrite !B_pow_S. cbn [cross]. nia.
Qed.

Lemma double_fits l : digits l → 2 * eval l < B ^ length l → l ≠ [] →
  let r := dp (s_mp_mul_2 (mk_mp ZPOS l)) in digits r ∧ length r = length l ∧ eval r = 2 * eval l.
Proof.
  intros Hl Hlt Hne. unfold s_mp_mul_2. cbn [dp sign].
  destruct (mul_2_loop_spec l 0 Hl ltac:(by left)) as (H1 & H2 & H3 & H4).
  destruct (mul_2_loop l 0) as [r k]. cbn [fst snd] in *. pose proof (eval_range r H2) as Hr. rewrite H1 in Hr.
  assert (k = 0) as -> by (destruct H3 as [->| ->]; [done|lia]). simpl. split_and!; [done|done|lia].
Qed.

(** Whatever the storage held, the routine leaves the square. *)
Lemma sqr_digits_spec buf a : digits a → a ≠ [] → digits buf → length buf = (2 * length a)%nat →
  ∃ r, sqr_digits buf a = Ok r ∧ digits r ∧ length r = (2 * length a)%nat ∧ eval r = eval a * eval a.
Proof.
  intros Ha Hne Hbuf Hlen. pose proof (eval_range a Ha) as Hra. destruct (sqsum_cross_nonneg a Ha) as [Hs0 Hc0].
  pose proof (square_split a) as Hsq. assert (eval a * eval a < B ^ (2 * length a)%nat) as Hfit.
  { rewrite Nat2Z.inj_mul, (Z.mul_comm (Z.of_nat 2)), Z.pow_mul_r by lia.
    change (Z.of_nat 2) with 2. rewrite Z.pow_2_r. nia. }
  assert (is_digit 0) as H0 by (apply bit_digit; by left).
  assert (∃ q, sqr_cross_digits (<[0%nat := 0]> buf) a = Ok q ∧ digits q ∧
    length q = (2 * length a)%nat ∧ eval q = 2 * cross a)
    as (q & Hq & Q1 & Q2 & Q3).
  { destruct a as [|d [|e pa]]; [done| |].
    - destruct buf as [|b0 [|b1 [|]]]; simpl in Hlen; try lia. exists [0; 0]. split_and!; [done|apply (digits_zeros 2)|done|].
      cbn [cross eval]. lia.
    - apply Forall_cons in Ha as [Hd Hpa]. set (pa' := e :: pa) in *.
      change (length (d :: pa')) with (S (length pa')) in *.
      destruct buf as [|b0 buf]; [simpl in Hlen; lia|]. apply Forall_cons in Hbuf as [_ Hbuf].
      unfold sqr_cross_digits, at_offset. change (<[0%nat := 0]> (b0 :: buf)) with (0 :: buf).
      change (drop 1 (0 :: buf)) with buf. change (take 1 (0 :: buf)) with [0].
      change (length (b0 :: buf)) with (S (length buf)) in Hlen.
      assert (1 ≤ length pa')%nat as Hpl by (unfold pa'; simpl; lia).
      destruct (s_mpv_mul_d_spec pa' d buf Hpa Hd) as (p & -> & P1 & P2 & P3); [lia|].
      cbn [mbind res_bind]. change ([0] ++ (p ++ drop (S (length pa')) buf)) with ((0 :: p) ++ drop (S (length pa')) buf).
      destruct (sqr_cross_loop_spec pa' Hpa ltac:(done) 3 (0 :: p) (drop (S (length pa')) buf))
        as (p' & s' & -> & R1 & R2 & R3 & R4 & R5); [by constructor|by apply Forall_drop|cbn [length]; lia|rewrite length_drop; lia|].
      rewrite length_drop in R4. cbn [length] in R3. assert (length s' = 1)%nat as Hs1 by lia.
      destruct s' as [|y [|]]; simpl in Hs1; try lia. cbn [mbind res_bind]. cbn zeta.
      assert (<[(length (p' ++ [y]) - 1)%nat := 0]> (p' ++ [y]) = p' ++ [0]) as ->.
      { rewrite length_app. simpl length. replace (length p' + 1 - 1)%nat with (length p') by lia.
        rewrite insert_app_r_alt, Nat.sub_diag by lia. done. }
      assert (eval (p' ++ [0]) = cross (d :: pa')) as Ec.
      { rewrite eval_snoc. cbn [cross]. cbn [eval] in R5. rewrite P3 in R5. change (Z.of_nat 3) with 3 in R5.
        replace (B ^ 3) with (B * (B * B)) in R5 by (unfold B; lia). pose_B. nia. }
      destruct (double_fits (p' ++ [0])) as (D1 & D2 & D3).
      + apply Forall_app; split; [done|by constructor].
      + rewrite Ec, length_app, R3. cbn [length].
        match goal with |- _ < B ^ Z.of_nat ?n => replace n with (2 * S (length pa'))%nat by lia end. lia.
      + by destruct p'.
      + eexists. split; [done|]. split_and!; [done|rewrite D2, length_app; cbn [length]; lia|lia]. }
  unfold sqr_digits. rewrite Hq. cbn [mbind res_bind]. unfold s_mpv_sqr_add_prop.
  destruct (sqr_add_loop_spec a q 0 Ha Q1 ltac:(by left) ltac:(lia)) as (r & E & R1 & R2 & R3); [rewrite Q2; lia|].
  exists r. split_and!; [done|done|lia|lia].
Qed.

Lemma mp_sqr_spec a : mp_ok a → ∃ r, mp_sqr a = Ok r ∧ norm_mag r ZPOS (mag a * mag a).
Proof.
  intros [Hd Hne]. unfold mp_sqr.
  destruct (sqr_digits_spec (replicate (2 * used a) 0) (dp a)) as (r & -> & R1 & R2 & R3);
    [done|done|auto with nss|by rewrite length_replicate|].
  cbn [mbind res_bind]. eexists. split; [done|].
  assert (mag a * mag a = mag (mk_mp ZPOS r)) as -> by done. apply clamp_norm_mag.
  split; [done|]. simpl. destruct r; [|done]. destruct (dp a); [done|]. simpl in R2. lia.
Qed.
