(* ===== verification/MpiDiv.v ===== *)
(** lib/freebl/mpi/mpi.c: division.  The two-by-one digit division, divisor
    normalisation, division by a digit, the multi-digit long division
    s_mp_div with its quotient guess and back-off, mp_div, mp_mod and their
    digit and power-of-two variants. *)

From stdpp Require Import base numbers list.
From S2P Require Import Prelude MpiBase MpiMul.

(** ** Operations *)

(** One half-digit of s_mpv_div_2dx1d: divides [N * 2^32 + w] by [divisor]. *)
Definition div_half (N w divisor : Z) : Z * Z :=
  let d1 := hi32 divisor in
  let d0 := lo32 divisor in
  let r1 := N mod d1 in
  let q1 := N / d1 in
  let m := u64 (q1 * d0) in
  let r1 := Z.lor (u64 (Z.shiftl r1 MP_HALF_DIGIT_BIT)) w in
  let '(q1, r1) :=
    if r1 <? m then
      let q1 := u64 (q1 - 1) in
      let r1 := u64 (r1 + divisor) in
      if (divisor <=? r1) && (r1 <? m) then (u64 (q1 - 1), u64 (r1 + divisor)) else (q1, r1)
    else (q1, r1) in
  (q1, u64 (r1 - m)).

(** Division of (Nhi, Nlo) by a divisor whose high bit is set. *)
Definition s_mpv_div_2dx1d (Nhi Nlo divisor : Z) : Z * Z :=
  let '(q1, r1) := div_half Nhi (Z.shiftr Nlo MP_HALF_DIGIT_BIT) divisor in
  let '(q0, r0) := div_half r1 (Z.land Nlo MP_HALF_DIGIT_MAX) divisor in
  (Z.lor (u64 (Z.shiftl q1 MP_HALF_DIGIT_BIT)) q0, r0).

(** [while (!(b_msd & mask)) { b_msd <<= 1; ++d; }], which does not end on
    zero; 64 rounds are enough for any other digit. *)
Definition msb_mask : Z := Z.land MP_DIGIT_MAX (Z.lxor MP_DIGIT_MAX (Z.shiftr MP_DIGIT_MAX 1)).
Fixpoint norm_loop (fuel : nat) (b_msd d : Z) : mp_res Z :=
  match fuel with
  | O => UB
  | S fuel => if Z.land b_msd msb_mask =? 0 then norm_loop fuel (u64 (Z.shiftl b_msd 1)) (d + 1) else Ok d
  end.

Definition s_mp_norm (a b : mp_int) : mp_res (mp_int * mp_int * Z) :=
  d ← norm_loop 64 (dp b !!! (used b - 1)%nat) 0;
  if d =? 0 then Ok (a, b, d) else Ok (s_mp_mul_2d a d, s_mp_mul_2d b d, d).

(** Digits of [rem] from the top down ([l] is reversed); [quot] is shifted and
    receives one digit per step. *)
Fixpoint div_d_loop (l : list Z) (d p : Z) (quot : mp_int) : mp_int * Z :=
  match l with
  | [] => (quot, p)
  | w :: l =>
      let '(q, w) :=
        if negb (p =? 0) then s_mpv_div_2dx1d p w d
        else if d <=? w then (w / d, w mod d)
        else (0, w) in
      let quot := s_mp_lshd quot 1 in
      div_d_loop l d w (mk_mp (sign quot) (<[0%nat := q]> (dp quot)))
  end.

(** Quotient and remainder; the multi-digit path builds the quotient in a
    fresh [mp_int], whose sign is ZPOS. *)
Definition s_mp_div_d (mp : mp_int) (d : Z) : mp_res (mp_int * Z) :=
  if d =? 0 then Err MP_RANGE
  else if d =? 1 then Ok (mp, 0)
  else if Nat.eqb (used mp) 1 then
    let n := dp mp !!! 0%nat in Ok (mk_mp (sign mp) (<[0%nat := n / d]> (dp mp)), n mod d)
  else
    '(rem, _, norm) ← s_mp_norm mp (mk_mp ZPOS [d]);
    let d := if norm =? 0 then d else u64 (Z.shiftl d norm) in
    let '(quot, w) := div_d_loop (reverse (dp rem)) d 0 (mk_mp ZPOS [0]) in
    let w := if norm =? 0 then w else Z.shiftr w norm in
    Ok (s_mp_clamp quot, w).

Definition mp_div_d (a : mp_int) (d : Z) : mp_res (mp_int * Z) :=
  if d =? 0 then Err MP_RANGE
  else
    let pow := s_mp_ispow2d d in
    if 0 <=? pow then
      let mask := u64 (u64 (Z.shiftl 1 pow) - 1) in
      Ok (s_mp_div_2d a pow, Z.land (dp a !!! 0%nat) mask)
    else
      '(qp, rem) ← s_mp_div_d a d;
      Ok (mk_mp (match s_mp_cmp_d qp 0 with MP_EQ => ZPOS | _ => sign qp end) (dp qp), rem).

(** [for (i = 4; s_mp_cmp(&t, &part) > 0 && i > 0; --i) { --q_msd; t -= div; }] *)
Fixpoint backoff (i : nat) (q_msd : Z) (t part div : mp_int) : mp_res (Z * mp_int) :=
  match s_mp_cmp t part, i with
  | MP_GT, S i => t ← s_mp_sub t div; backoff i (u64 (q_msd - 1)) t part div
  | _, _ => Ok (q_msd, t)
  end.

(** The guess for the next quotient digit. *)
Definition div_guess (part div : mp_int) (partExtended : bool) : Z :=
  let q_msd := dp part !!! (used part - 1)%nat in
  let div_msd := dp div !!! (used div - 1)%nat in
  if negb partExtended then 1
  else if q_msd =? div_msd then MP_DIGIT_MAX
  else (s_mpv_div_2dx1d q_msd (dp part !!! (used part - 2)%nat) div_msd).1.

(** The substring of [rem] to divide next: as many digits as the divisor has,
    or one more if that is too small.  Its position, itself, partExtended. *)
Definition div_select (rem div : mp_int) : mp_res (nat * mp_int * bool) :=
  let unusedRem := (used rem - used div)%nat in
  let part := mk_mp ZPOS (drop unusedRem (dp rem)) in
  match s_mp_cmp part div with
  | MP_LT => match unusedRem with
             | O => UB
             | S u => Ok (u, mk_mp ZPOS (drop u (dp rem)), true)
             end
  | _ => Ok (unusedRem, part, false)
  end.

(** One pass of the loop.  [part] aliases the top digits of [rem], so the
    subtraction changes [rem]; the digits it clamps off are zeros there. *)
Definition div_step (rem div : mp_int) (quot : list Z) : mp_res (option (mp_int * list Z)) :=
  '(unusedRem, part, partExtended) ← div_select rem div;
  let q_msd := div_guess part div partExtended in
  if q_msd <=? 0 then Ok None
  else
    t ← s_mp_mul_d div q_msd;
    '(q_msd, t) ← backoff 4 q_msd t part div;
    part' ← s_mp_sub part t;
    if Nat.leb (length quot) unusedRem then UB
    else Ok (Some (s_mp_clamp (mk_mp (sign rem) (take unusedRem (dp rem) ++ pad_dp (dp part') (used part))),
                   <[unusedRem := q_msd]> quot)).

(** Each pass lowers the position of the quotient digit, so one pass per digit
    of the quotient plus one is enough fuel. *)
Fixpoint div_loop (fuel : nat) (rem div : mp_int) (quot : list Z) : mp_res (mp_int * list Z) :=
  match fuel with
  | O => UB
  | S fuel =>
      if Nat.ltb (used div) (used rem) || (match s_mp_cmp rem div with MP_LT => false | _ => true end) then
        o ← div_step rem div quot;
        match o with
        | None => Ok (rem, quot)
        | Some (rem, quot) => div_loop fuel rem div quot
        end
      else Ok (rem, quot)
  end.

(** (rem, quot); [quot] arrives zeroed with room for [quot_alloc] digits. *)
Definition s_mp_div (rem div : mp_int) (quot_alloc : nat) : mp_res (mp_int * mp_int) :=
  match mp_cmp_z div with
  | MP_EQ => Err MP_RANGE
  | _ =>
      let ix := s_mp_ispow2 div in
      if 0 <=? ix then Ok (s_mp_mod_2d rem ix, s_mp_div_2d rem ix)
      else
        let rem := mk_mp ZPOS (dp rem) in
        let div := mk_mp ZPOS (dp div) in
        '(rem, div, d) ← s_mp_norm rem div;
        '(rem, quot) ← div_loop (S quot_alloc) rem div (replicate quot_alloc 0);
        let rem := if d =? 0 then rem else s_mp_div_2d rem d in
        Ok (rem, s_mp_clamp (mk_mp ZPOS quot))
  end.

Definition fix_zero_sign (m : mp_int) (s : mp_sign) : mp_int :=
  let m := mk_mp s (dp m) in
  mk_mp (match s_mp_cmp_d m 0 with MP_EQ => ZPOS | _ => s end) (dp m).

(** (q, r) *)
Definition mp_div (a b : mp_int) : mp_res (mp_int * mp_int) :=
  match mp_cmp_z b with
  | MP_EQ => Err MP_RANGE
  | _ =>
      '(pR, pQ) ←
        match s_mp_cmp a b with
        | MP_LT => Ok (a, mp_zero)
        | MP_EQ => Ok (mp_zero, mp_set 1)
        | MP_GT => s_mp_div a b (used a)
        end;
      Ok (fix_zero_sign pQ (if decide (sign a = sign b) then ZPOS else NEG), fix_zero_sign pR (sign a))
  end.

Definition mp_div_2d (a : mp_int) (d : Z) : mp_int * mp_int := (s_mp_div_2d a d, s_mp_mod_2d a d).
Definition mp_div_2 (a : mp_int) : mp_int := s_mp_div_2 a.

Definition mp_mod_d (a : mp_int) (d : Z) : mp_res Z :=
  match s_mp_cmp_d a d with
  | MP_GT => '(_, rem) ← mp_div_d a d; Ok rem
  | _ => Ok (match sign a with NEG => u64 (d - dp a !!! 0%nat) | ZPOS => dp a !!! 0%nat end)
  end.

(** ** Two digits by one *)

(** Guessing a quotient from the leading half of the divisor overshoots by at
    most two (Knuth, TAOCP 4.3.1, theorem B). *)
Lemma guess_bounds (H d1 d0 N w D X : Z) : 0 < H → H ≤ 2 * d1 → 0 < d1 → 0 ≤ d0 < H → 0 ≤ w < H →
  D = d1 * H + d0 → X = N * H + w → 0 ≤ N < D →
  X / D ≤ N / d1 ≤ X / D + 2 ∧ 0 ≤ X / D < H.
Proof.
  intros HH Hd1 Hd1p Hd0 Hw HD HX HN. assert (0 < D) by nia.
  pose proof (Z.div_mod X D ltac:(lia)) as E. pose proof (Z.mod_pos_bound X D ltac:(lia)) as Er.
  pose proof (Z.div_mod N d1 ltac:(lia)) as E1. pose proof (Z.mod_pos_bound N d1 ltac:(lia)) as Er1.
  set (q := X / D) in *. set (r := X mod D) in *. set (h := N / d1) in *. set (s := N mod d1) in *.
  assert (0 ≤ q) by (apply Z.div_pos; nia). assert (0 ≤ h) by (apply Z.div_pos; lia).
  assert (q < H) by nia. split_and!; [|..|done|done].
  - assert (q * d1 * H < (N + 1) * H) by nia. assert (q * d1 < N + 1) by nia. nia.
  - destruct (decide (h ≤ q + 2)) as [|Hgt]; [done|exfalso].
    assert (h * d1 * H ≤ X) by nia.
    assert (X < (h - 2) * D) by nia.
    assert (2 * D < h * d0) by nia.
    assert (h ≤ H + 1). { assert (h * d1 ≤ N) by nia. assert (N < (H + 2) * d1) by nia. nia. }
    nia.
Qed.

Lemma div_half_spec N w D : is_digit D → 2 ^ 63 ≤ D → 0 ≤ N < D → 0 ≤ w < 2 ^ 32 →
  div_half N w D = ((N * 2 ^ 32 + w) / D, (N * 2 ^ 32 + w) mod D) ∧ 0 ≤ (N * 2 ^ 32 + w) / D < 2 ^ 32.
Proof.
  intros HD Hmsb HN Hw. destruct (halves D HD) as (ED & H1 & H0).
  unfold div_half. set (d1 := hi32 D) in *. set (d0 := lo32 D) in *.
  assert (2 ^ 31 ≤ d1) as Hd1 by lia. unfold is_digit in HD.
  destruct (guess_bounds (2 ^ 32) d1 d0 N w D (N * 2 ^ 32 + w)) as [Hg Hq]; try lia.
  split; [|done]. set (X := N * 2 ^ 32 + w) in *. set (q := X / D) in *. set (h := N / d1) in *.
  pose proof (Z.div_mod N d1 ltac:(lia)) as EN. pose proof (Z.mod_pos_bound N d1 ltac:(lia)) as Hr. fold h in EN.
  pose proof (Z.div_mod X D ltac:(lia)) as EX. pose proof (Z.mod_pos_bound X D ltac:(lia)) as Hx. fold q in EX.
  set (r := X mod D) in *. set (s := N mod d1) in *.
  assert (0 ≤ h * d0 < B). { unfold B in *. change (2 ^ 64) with (2 ^ 32 * 2 ^ 32) in *. nia. }
  rewrite (u64_small (h * d0)) by done.
  rewrite (u64_small (Z.shiftl s MP_HALF_DIGIT_BIT))
    by (unfold MP_HALF_DIGIT_BIT, is_digit, B; rewrite Z.shiftl_mul_pow2 by lia; lia).
  unfold MP_HALF_DIGIT_BIT. rewrite lor_shift_add by lia. set (R := s * 2 ^ 32 + w).
  assert (R - h * d0 = X - h * D) as ER by (unfold R, X; rewrite ED, EN; ring).
  assert (0 ≤ R < B) as HR by (unfold R, B; lia).
  assert (∃ k, h = q + k ∧ h * D = D * q + k * D ∧ 0 ≤ k ≤ 2) as (k & Eh & Ehk & Hk)
    by (exists (h - q); split_and!; [lia|ring|lia..]).
  assert (R - h * d0 = r - k * D) as Ek by lia.
  assert (k = 0 ∨ k = 1 ∨ k = 2) as Hkc by lia.
  destruct (Z.ltb_spec R (h * d0)) as [Hlt|Hge].
  2:{ assert (k = 0) as -> by (destruct Hkc as [->|[->| ->]]; lia). f_equal; [lia|].
      rewrite u64_small by (unfold is_digit; lia). lia. }
  assert (k ≠ 0) as Hk0 by (intros ->; lia).
  assert (1 ≤ h < B) by (unfold B; lia).
  rewrite (u64_small (h - 1)) by (unfold is_digit; lia).
  destruct (decide (R + D < B)) as [Hnw|Hw2].
  - rewrite (u64_small (R + D)) by (unfold is_digit; lia).
    rewrite (proj2 (Z.leb_le D (R + D))) by lia. simpl.
    destruct (Z.ltb_spec (R + D) (h * d0)) as [Hlt2|Hge2].
    + assert (k = 2) as -> by (destruct Hkc as [->|[->| ->]]; lia).
      rewrite (u64_small (h - 1 - 1)) by (unfold is_digit; lia). f_equal; [lia|].
      rewrite u64_B, (u64_B (R + D + D)), Zminus_mod_idemp_l, Z.mod_small by lia. lia.
    + assert (k = 1) as -> by (destruct Hkc as [->|[->| ->]]; lia). f_equal; [lia|].
      rewrite u64_small by (unfold is_digit; lia). lia.
  - assert (u64 (R + D) = R + D - B) as Ew
      by (rewrite u64_B; symmetry; apply Z.mod_unique with 1; unfold B in *; lia).
    rewrite Ew. rewrite (proj2 (Z.leb_gt D (R + D - B))) by lia. simpl.
    assert (k = 1) as -> by (destruct Hkc as [->|[->| ->]]; lia). f_equal; [lia|].
    rewrite u64_B. symmetry. apply Z.mod_unique with (-1); lia.
Qed.

Lemma s_mpv_div_2dx1d_spec Nhi Nlo D : is_digit Nlo → is_digit D → 2 ^ 63 ≤ D → 0 ≤ Nhi < D →
  s_mpv_div_2dx1d Nhi Nlo D = ((Nhi * B + Nlo) / D, (Nhi * B + Nlo) mod D) ∧
  is_digit ((Nhi * B + Nlo) / D) ∧ is_digit ((Nhi * B + Nlo) mod D).
Proof.
  intros Hlo HD Hmsb HN. destruct (halves Nlo Hlo) as (El & H1 & H0). unfold s_mpv_div_2dx1d.
  change (Z.shiftr Nlo MP_HALF_DIGIT_BIT) with (hi32 Nlo). change (Z.land Nlo MP_HALF_DIGIT_MAX) with (lo32 Nlo).
  destruct (div_half_spec Nhi (hi32 Nlo) D HD Hmsb HN H1) as [-> Hq1].
  set (X1 := Nhi * 2 ^ 32 + hi32 Nlo) in *. unfold is_digit in HD.
  pose proof (Z.mod_pos_bound X1 D ltac:(lia)) as Hr1. pose proof (Z.div_mod X1 D ltac:(lia)) as E1.
  destruct (div_half_spec (X1 mod D) (lo32 Nlo) D HD Hmsb Hr1 H0) as [-> Hq0].
  set (X0 := X1 mod D * 2 ^ 32 + lo32 Nlo) in *.
  pose proof (Z.mod_pos_bound X0 D ltac:(lia)) as Hr0. pose proof (Z.div_mod X0 D ltac:(lia)) as E0.
  rewrite u64_small by (unfold MP_HALF_DIGIT_BIT, is_digit, B; rewrite Z.shiftl_mul_pow2 by lia; lia).
  unfold MP_HALF_DIGIT_BIT. rewrite lor_shift_add by lia.
  assert (Nhi * B + Nlo = D * (X1 / D * 2 ^ 32 + X0 / D) + X0 mod D) as Et.
  { rewrite El. unfold B. change (2 ^ 64) with (2 ^ 32 * 2 ^ 32). unfold X0, X1 in *. nia. }
  rewrite <- (Z.div_unique _ D (X1 / D * 2 ^ 32 + X0 / D) (X0 mod D) ltac:(lia) Et).
  rewrite <- (Z.mod_unique _ D (X1 / D * 2 ^ 32 + X0 / D) (X0 mod D) ltac:(lia) Et).
  split_and!; [done|unfold is_digit, B in *; lia..].
Qed.

(** ** Normalisation *)

Lemma msb_test x : is_digit x → (Z.land x msb_mask =? 0) = (x <? 2 ^ 63).
Proof.
  intros Hx. change msb_mask with (2 ^ 63).
  assert ((Z.land x (2 ^ 63) =? 0) = negb (Z.testbit x 63)) as ->.
  { destruct (Z.testbit x 63) eqn:Ht; simpl.
    - apply Z.eqb_neq. intros E. apply (f_equal (fun y => Z.testbit y 63)) in E.
      rewrite Z.land_spec, Ht, Z.bits_0 in E. done.
    - apply Z.eqb_eq, Z.bits_inj'. intros i Hi. rewrite Z.land_spec, Z.bits_0, Z.pow2_bits_eqb by lia.
      destruct (Z.eqb_spec 63 i) as [<-|]; [by rewrite Ht|by rewrite andb_false_r]. }
  pose proof (high_to_low x Hx) as Hh. unfold MP_CT_HIGH_TO_LOW, MP_DIGIT_BIT in Hh. change (64 - 1) with 63 in Hh.
  assert (Z.testbit x 63 = Z.odd (Z.shiftr x 63)) as ->.
  { rewrite <- Z.bit0_odd, Z.shiftr_spec by lia. done. }
  rewrite Hh. destruct (Z.leb_spec (2 ^ 63) x), (Z.ltb_spec x (2 ^ 63)); (done || lia).
Qed.

Lemma norm_loop_spec fuel x d0 : is_digit x → 0 < x → 2 ^ 63 ≤ x * 2 ^ (Z.of_nat fuel - 1) → (0 < fuel)%nat →
  ∃ k, norm_loop fuel x d0 = Ok (d0 + k) ∧ 0 ≤ k < Z.of_nat fuel ∧ 2 ^ 63 ≤ x * 2 ^ k < B.
Proof.
  revert x d0. induction fuel as [|fuel IH]; intros x d0 Hx Hp Hf Hfu; [lia|].
  cbn [norm_loop]. rewrite msb_test by done. unfold is_digit in Hx.
  destruct (Z.ltb_spec x (2 ^ 63)) as [Hlt|Hge].
  - assert (u64 (Z.shiftl x 1) = x * 2) as ->.
    { rewrite Z.shiftl_mul_pow2 by lia. apply u64_small. unfold is_digit, B. change (2 ^ 64) with (2 ^ 63 * 2). lia. }
    destruct fuel as [|fuel]; [simpl in Hf; lia|].
    destruct (IH (x * 2) (d0 + 1)) as (k & E & Hk & Hx2).
    + unfold is_digit, B. change (2 ^ 64) with (2 ^ 63 * 2). lia.
    + lia.
    + replace (Z.of_nat (S (S fuel)) - 1) with (Z.succ (Z.of_nat (S fuel) - 1)) in Hf by lia.
      rewrite Z.pow_succ_r in Hf by lia. lia.
    + lia.
    + exists (k + 1). split_and!; [rewrite E; f_equal; lia|lia|lia|..];
        rewrite Z.add_1_r, Z.pow_succ_r by lia; lia.
  - exists 0. split_and!; [f_equal; lia|lia|lia|lia|lia].
Qed.

(** The top digit of a normal nonzero number. *)
Lemma top_digit m : mp_norm m → mag m ≠ 0 →
  let x := dp m !!! (used m - 1)%nat in
  is_digit x ∧ 0 < x ∧ x * B ^ (used m - 1)%nat ≤ mag m < (x + 1) * B ^ (used m - 1)%nat.
Proof.
  intros Hm H0. pose proof (mp_ok_used m (proj1 Hm)) as Hu. cbn zeta.
  pose proof (lookup_total_digit (dp m) (used m - 1) (proj1 (proj1 Hm)) ltac:(unfold used in *; lia)) as Hx.
  pose proof (eval_S_take (dp m) (used m - 1) ltac:(unfold used in *; lia)) as HS.
  replace (S (used m - 1)) with (used m) in HS by lia. unfold used in HS at 1.
  rewrite firstn_all in HS. fold (mag m) in HS.
  pose proof (eval_range (take (used m - 1) (dp m)) ltac:(by apply Forall_take, Hm)) as Hlo.
  rewrite length_take, Nat.min_l in Hlo by (unfold used in *; lia).
  set (x := dp m !!! (used m - 1)%nat) in *. unfold is_digit in *.
  destruct (norm_lower m Hm) as [Hle|Hlow].
  - replace (used m - 1)%nat with O in * by lia. simpl in *. lia.
  - pose_B. split_and!; nia.
Qed.

(** Scaling keeps the number of digits as long as the value fits. *)
Lemma used_of_bounds m n : mp_norm m → B ^ Z.of_nat n ≤ mag m < B ^ Z.of_nat (S n) → used m = S n.
Proof.
  intros Hm [Hlo Hhi]. pose proof (mag_range m (proj1 Hm)) as Hr. pose proof (mp_ok_used m (proj1 Hm)).
  assert (n < used m)%nat.
  { destruct (decide (n < used m)%nat); [done|]. assert (B ^ used m ≤ B ^ n) by (apply Z.pow_le_mono_r; [apply B_pos|lia]). lia. }
  destruct (norm_lower m Hm) as [?|Hl]; [lia|].
  destruct (decide (used m ≤ S n)%nat); [lia|].
  assert (B ^ S n ≤ B ^ (used m - 1)%nat) by (apply Z.pow_le_mono_r; [apply B_pos|lia]). lia.
Qed.

Lemma s_mp_norm_spec a b : mp_norm a → sign a = ZPOS → mp_norm b → sign b = ZPOS → mag b ≠ 0 →
  ∃ a' b' d, s_mp_norm a b = Ok (a', b', d) ∧ 0 ≤ d < 64 ∧
    norm_mag a' ZPOS (mag a * 2 ^ d) ∧ norm_mag b' ZPOS (mag b * 2 ^ d) ∧ used b' = used b ∧
    2 ^ 63 * B ^ (used b - 1)%nat ≤ mag b * 2 ^ d < B ^ used b ∧
    (d = 0 → a' = a).
Proof.
  intros Ha Hsa Hb Hsb H0. destruct (top_digit b Hb H0) as (Hx & Hp & Hbd). pose proof (mp_ok_used b (proj1 Hb)).
  unfold s_mp_norm. set (x := dp b !!! (used b - 1)%nat) in *. unfold is_digit in Hx.
  destruct (norm_loop_spec 64 x 0 Hx Hp) as (k & -> & Hk & Hxk); [simpl Z.of_nat; simpl Z.sub; nia|lia|].
  cbn [mbind res_bind]. rewrite Z.add_0_l.
  assert (0 < 2 ^ k) by (apply Z.pow_pos_nonneg; lia). pose proof (B_pow (used b - 1)).
  assert (Hbk : 2 ^ 63 * B ^ (used b - 1)%nat ≤ mag b * 2 ^ k < B ^ used b).
  { replace (used b) with (S (used b - 1)) at 2 by lia. rewrite B_pow_S.
    assert ((x + 1) * 2 ^ k ≤ B).
    { destruct (pow2_split k ltac:(lia)) as (HB & _ & Hq). rewrite <- HB in *.
      assert (x < 2 ^ (64 - k)) by nia. nia. }
    split; [nia|]. assert (mag b * 2 ^ k < (x + 1) * B ^ (used b - 1)%nat * 2 ^ k) by nia. nia. }
  destruct (Z.eqb_spec k 0) as [->|Hk0].
  - exists a, b, 0. rewrite !Z.mul_1_r in *. split_and!; try done; try lia; intros; (by rewrite Hsa) || (by rewrite Hsb) || done.
  - pose proof (s_mp_mul_2d_spec a k (proj1 Ha) ltac:(lia)) as Hma. pose proof (s_mp_mul_2d_spec b k (proj1 Hb) ltac:(lia)) as Hmb.
    rewrite Hsa in Hma. rewrite Hsb in Hmb. do 3 eexists. split; [done|].
    split_and!; try done; try lia; try apply Hma; try apply Hmb.
    replace (used b) with (S (used b - 1)) in * by lia. rewrite Nat.sub_1_r in *. simpl Nat.pred in *.
    apply used_of_bounds; [apply Hmb|]. rewrite (proj1 (proj2 Hmb)).
    split; [|lia]. pose proof (B_pow (used b - 1)). nia.
Qed.

(** ** Division by a digit *)

Lemma lshd1_set m q : mp_ok m → is_digit q →
  let m1 := s_mp_lshd m 1 in
  let r := mk_mp (sign m1) (<[0%nat := q]> (dp m1)) in
  mp_ok r ∧ mag r = mag m * B + q ∧ sign r = sign m.
Proof.
  intros [Hd Hne] Hq. unfold s_mp_lshd, mag, used. simpl Nat.eqb. cbn zeta.
  destruct (dp m) as [|x l] eqn:E; [done|]. apply Forall_cons in Hd as [Hx Hl].
  destruct ((Nat.eqb (length (x :: l)) 1) && ((x :: l) !!! 0%nat =? 0)) eqn:Hc.
  - apply andb_prop in Hc as [H1 H2]. destruct l; [|done]. change ([x] !!! 0%nat) with x in H2. apply Z.eqb_eq in H2. subst x.
    rewrite E. simpl. split_and!; [|lia|done]. split; [|done]. by constructor.
  - simpl. split_and!; [|lia|done]. split; [|done]. by repeat (constructor; try done).
Qed.

Lemma div_d_loop_spec l D p quot : digits l → is_digit D → 2 ^ 63 ≤ D → 0 ≤ p < D → mp_ok quot →
  let '(quot', p') := div_d_loop l D p quot in
  mp_ok quot' ∧ sign quot' = sign quot ∧ 0 ≤ p' < D ∧
  mag quot' * D + p' = (mag quot * D + p) * B ^ length l + eval (reverse l).
Proof.
  intros Hl HD Hmsb. revert p quot. induction Hl as [|w l Hw Hl IH]; intros p quot Hp Hq; cbn [div_d_loop].
  { cbn. split_and!; try done; lia. }
  assert (∃ q r, (if negb (p =? 0) then s_mpv_div_2dx1d p w D
        else if D <=? w then (w / D, w mod D) else (0, w)) = (q, r) ∧ is_digit q ∧ 0 ≤ r < D ∧ q * D + r = p * B + w)
    as (q & r & -> & Hqd & Hr & Eq).
  { destruct (Z.eqb_spec p 0) as [->|Hp0]; simpl.
    - unfold is_digit in *. destruct (Z.leb_spec D w).
      + exists (w / D), (w mod D). pose proof (Z.div_mod w D ltac:(lia)). pose proof (Z.mod_pos_bound w D ltac:(lia)).
        assert (0 ≤ w / D) by (apply Z.div_pos; lia). split_and!; try done; nia.
      + exists 0, w. pose_B. split_and!; try done; lia.
    - destruct (s_mpv_div_2dx1d_spec p w D Hw HD Hmsb Hp) as (-> & H1 & H2). do 2 eexists. split; [done|].
      unfold is_digit in HD. pose proof (Z.div_mod (p * B + w) D ltac:(lia)).
      pose proof (Z.mod_pos_bound (p * B + w) D ltac:(lia)). split_and!; try done; try apply H1; lia. }
  destruct (lshd1_set quot q Hq Hqd) as (L1 & L2 & L3). cbn zeta in *.
  set (q1 := mk_mp _ _) in *. specialize (IH r q1 Hr L1).
  destruct (div_d_loop l D r q1) as [quot' p']. destruct IH as (I1 & I2 & I3 & I4).
  split_and!; [done|congruence|lia|lia|]. rewrite I4, L2, reverse_cons, eval_snoc, length_reverse.
  cbn [length]. rewrite B_pow_S. nia.
Qed.

Lemma s_mp_div_d_spec m d : mp_norm m → is_digit d → d ≠ 0 →
  ∃ q r, s_mp_div_d m d = Ok (q, r) ∧ mp_ok q ∧ clamped_dp (dp q) ∧ mag q = mag m / d ∧ r = mag m mod d ∧
    sign q = (if (d =? 1) || Nat.eqb (used m) 1 then sign m else ZPOS).
Proof.
  intros Hm Hd H0. unfold s_mp_div_d. destruct (Z.eqb_spec d 0); [done|].
  destruct (Z.eqb_spec d 1) as [->|H1].
  { do 2 eexists. split; [done|]. rewrite Z.div_1_r, Z.mod_1_r. split_and!; try done; apply Hm. }
  unfold is_digit in Hd. destruct (Nat.eqb_spec (used m) 1) as [Hu|Hu].
  { pose proof Hm as [[Hds _] _]. unfold used, mag in *. destruct (dp m) as [|x [|]]; simpl in Hu; try done.
    apply Forall_cons in Hds as [Hx _]. unfold is_digit in Hx. change ([x] !!! 0%nat) with x. simpl.
    do 2 eexists. split; [done|]. rewrite Z.mul_0_r, Z.add_0_r.
    assert (0 ≤ x / d ≤ x) by (split; [apply Z.div_pos; lia|apply Z.div_le_upper_bound; nia]).
    split_and!; [split; [|done]|left; simpl; lia|unfold mag; simpl; lia|done|done].
    constructor; [unfold is_digit; lia|done]. }
  pose proof (mp_ok_used m (proj1 Hm)) as Hup.
  assert (mp_norm (mk_mp ZPOS [d])) as Hdn.
  { apply mk_norm; [by constructor|done|left; simpl; lia|done]. }
  assert (mag (mk_mp ZPOS [d]) = d) as Hdm by (unfold mag; simpl; lia).
  (* the sign of the dividend is irrelevant to normalisation *)
  assert (∃ a' nd, s_mp_norm m (mk_mp ZPOS [d]) = Ok (a', (if nd =? 0 then mk_mp ZPOS [d] else s_mp_mul_2d (mk_mp ZPOS [d]) nd), nd) ∧
    0 ≤ nd < 64 ∧ mp_ok a' ∧ mag a' = mag m * 2 ^ nd ∧ 2 ^ 63 ≤ d * 2 ^ nd < B) as (a' & nd & -> & Hnd & Hok & Hma & Hdk).
  { unfold s_mp_norm. change (dp (mk_mp ZPOS [d]) !!! (used (mk_mp ZPOS [d]) - 1)%nat) with d.
    destruct (norm_loop_spec 64 d 0 Hd) as (k & -> & Hk & Hxk); [lia|simpl Z.of_nat; simpl Z.sub; nia|lia|].
    cbn [mbind res_bind]. rewrite Z.add_0_l. destruct (Z.eqb_spec k 0) as [->|Hk0].
    - exists m, 0. simpl (0 =? 0). split_and!; try done; try apply Hm; lia.
    - destruct (s_mp_mul_2d_spec m k (proj1 Hm) ltac:(lia)) as (N1 & N2 & _).
      exists (s_mp_mul_2d m k), k. rewrite (proj2 (Z.eqb_neq k 0)) by done. split_and!; try done; try apply N1; lia. }
  cbn [mbind res_bind].
  assert ((if nd =? 0 then d else u64 (Z.shiftl d nd)) = d * 2 ^ nd) as ->.
  { destruct (Z.eqb_spec nd 0) as [->|]; [lia|]. rewrite Z.shiftl_mul_pow2 by lia. apply u64_small. unfold is_digit. lia. }
  pose proof (div_d_loop_spec (reverse (dp a')) (d * 2 ^ nd) 0 (mk_mp ZPOS [0])) as HL.
  destruct (div_d_loop (reverse (dp a')) (d * 2 ^ nd) 0 (mk_mp ZPOS [0])) as [quot w].
  destruct HL as (L1 & L2 & L3 & L4).
  { apply Forall_reverse, Hok. } { unfold is_digit. lia. } { lia. } { lia. }
  { split; [|done]. apply (digits_zeros 1). }
  rewrite reverse_involutive in L4. change (mag (mk_mp ZPOS [0])) with 0 in L4. fold (mag a') in L4. rewrite Hma in L4.
  assert (0 < 2 ^ nd) as Hpp by (apply Z.pow_pos_nonneg; lia).
  assert ((if nd =? 0 then w else Z.shiftr w nd) = w / 2 ^ nd) as ->.
  { destruct (Z.eqb_spec nd 0) as [->|]; [by rewrite Z.div_1_r|]. rewrite Z.shiftr_div_pow2 by lia. done. }
  assert (w = (mag m - mag quot * d) * 2 ^ nd) as Ew by lia.
  rewrite Ew, Z.div_mul by lia. do 2 eexists. split; [done|].
  destruct (clamp_norm_mag quot L1) as (C1 & C2 & C3).
  assert (0 ≤ mag m - mag quot * d < d) as Hrem by nia.
  split_and!; [apply C1|apply C1| | |].
  - rewrite C2. apply Z.div_unique with (mag m - mag quot * d); [by left|lia].
  - apply Z.mod_unique with (mag quot); [by left|lia].
  - unfold s_mp_clamp. simpl. rewrite L2. by destruct (_ && _).
Qed.

(** Fixing the sign of a clamped result makes it normal. *)
Lemma fix_zero_sign_spec m s : mp_ok m → clamped_dp (dp m) → norm_mag (fix_zero_sign m s) s (mag m).
Proof.
  intros Hok Hc. unfold fix_zero_sign. cbn [dp].
  assert (s_mp_cmp_d (mk_mp s (dp m)) 0 = MP_EQ ↔ mag m = 0) as Hz.
  { change (s_mp_cmp_d (mk_mp s (dp m)) 0) with (s_mp_cmp_d (mk_mp ZPOS (dp m)) 0).
    apply (s_mp_cmp_d_zero (mk_mp ZPOS (dp m))). by split_and!. }
  split_and!; [split_and!|done|]; try done.
  - intros H0. change (mag m = 0) in H0. simpl. by rewrite (proj2 Hz).
  - intros H0. simpl. destruct (s_mp_cmp_d (mk_mp s (dp m)) 0) eqn:E; try done. exfalso. by apply H0, Hz.
Qed.

Lemma mp_div_d_spec a d : mp_norm a → is_digit d → d ≠ 0 →
  ∃ q r, mp_div_d a d = Ok (q, r) ∧ mp_norm q ∧ mag q = mag a / d ∧ r = mag a mod d ∧
    (mag q ≠ 0 → sign q = if (s_mp_ispow2d d <? 0) && Nat.ltb 1 (used a) then ZPOS else sign a).
Proof.
  intros Ha Hd H0. unfold mp_div_d. destruct (Z.eqb_spec d 0); [done|]. cbn zeta.
  destruct (Z.leb_spec 0 (s_mp_ispow2d d)) as [Hp|Hp].
  - destruct (s_mp_ispow2d_spec d Hd) as [[E _]|[Hr E]]; [lia|].
    destruct (s_mp_div_2d_spec a (s_mp_ispow2d d) (proj1 Ha) Hp) as (N1 & N2 & N3).
    set (k := s_mp_ispow2d d) in *. do 2 eexists. split; [done|]. rewrite E. split_and!; [done|done| |].
    + rewrite shr_mask_val, Z.land_ones by lia. destruct Ha as [[Hds Hne] _]. unfold mag. destruct (dp a) as [|x l]; [done|].
      change ((x :: l) !!! 0%nat) with x. cbn [eval]. destruct (pow2_split k ltac:(lia)) as (HB & _ & _).
      rewrite <- HB. replace (x + 2 ^ k * 2 ^ (64 - k) * eval l) with (x + (2 ^ (64 - k) * eval l) * 2 ^ k) by lia.
      by rewrite Z.mod_add by (destruct (pow2_split k ltac:(lia)); lia).
    + intros Hs. rewrite (proj2 (Z.ltb_ge k 0)) by lia. apply N3. lia.
  - destruct (s_mp_div_d_spec a d Ha Hd H0) as (q & r & -> & Q1 & Q2 & Q3 & Q4 & Q5). cbn [mbind res_bind].
    do 2 eexists. split; [done|].
    assert (mk_mp (match s_mp_cmp_d q 0 with MP_EQ => ZPOS | _ => sign q end) (dp q) = fix_zero_sign q (sign q)) as ->
      by (by destruct q).
    destruct (fix_zero_sign_spec q (sign q) Q1 Q2) as (F1 & F2 & F3).
    split_and!; [done|lia|done|]. intros Hs. rewrite F3 by lia. rewrite Q5, (proj2 (Z.ltb_lt _ 0)) by lia.
    assert (d ≠ 1) as Hd1 by (intros ->; by vm_compute in Hp). rewrite (proj2 (Z.eqb_neq d 1)) by done. simpl.
    pose proof (mp_ok_used a (proj1 Ha)).
    destruct (Nat.eqb_spec (used a) 1), (Nat.ltb_spec 1 (used a)); done || lia.
Qed.

(** ** Long division *)

(** A quotient digit guessed from the top digit of a normalised divisor is at
    most two too large, and never too small. *)
Lemma knuth_guess (P v1 v0 N u0 V U h : Z) : 0 < P → B ≤ 2 * v1 → 0 ≤ v0 < P → 0 ≤ u0 < P →
  V = v1 * P + v0 → U = N * P + u0 → 0 ≤ U < B * V → 0 ≤ h < B → h * v1 ≤ N →
  (N < (h + 1) * v1 ∨ h = B - 1) → U / V ≤ h ≤ U / V + 2.
Proof.
  intros HP Hv1 Hv0 Hu0 HV HU HUr Hh Hlo Hhi. pose_B. assert (0 < V) by nia.
  pose proof (Z.div_mod U V ltac:(lia)) as E. pose proof (Z.mod_pos_bound U V ltac:(lia)) as Er.
  set (q := U / V) in *. set (r := U mod V) in *. assert (0 ≤ q) by (apply Z.div_pos; lia).
  assert (q < B) by nia. split.
  - destruct Hhi as [Hhi| ->]; [|lia]. assert (q * v1 * P < (N + 1) * P) by nia.
    assert (q * v1 < N + 1) by nia. nia.
  - destruct (decide (h ≤ q + 2)) as [|Hgt]; [done|exfalso].
    assert (h * v1 * P ≤ U) by nia. assert (U < (h - 2) * V) by nia. assert (2 * V < h * v0) by nia. nia.
Qed.

Lemma s_mp_cmp_norm a b : mp_norm a → mp_norm b →
  (s_mp_cmp a b = MP_LT ∧ mag a < mag b) ∨ (s_mp_cmp a b = MP_EQ ∧ mag a = mag b) ∨
  (s_mp_cmp a b = MP_GT ∧ mag b < mag a).
Proof. intros Ha Hb. rewrite s_mp_cmp_spec by done. destruct (Z.compare_spec (mag a) (mag b)); simpl; auto. Qed.

Lemma backoff_spec (i : nat) h t part div : mp_norm part → mp_norm div → 0 < mag div →
  norm_mag t ZPOS (h * mag div) → 0 ≤ h < B → mag part / mag div ≤ h ≤ mag part / mag div + i →
  ∃ t', backoff i h t part div = Ok (mag part / mag div, t') ∧ norm_mag t' ZPOS (mag part / mag div * mag div).
Proof.
  intros Hp Hd Hpos. revert h t. set (q := mag part / mag div).
  pose proof (Z.div_mod (mag part) (mag div) ltac:(lia)) as E. pose proof (Z.mod_pos_bound (mag part) (mag div) ltac:(lia)) as Er.
  fold q in E. pose proof (mag_range part (proj1 Hp)).
  induction i as [|i IH]; intros h t Ht Hh Hq; cbn [backoff];
    destruct (s_mp_cmp_norm t part (proj1 Ht) Hp) as [[-> Hc]|[[-> Hc]|[-> Hc]]]; rewrite (proj1 (proj2 Ht)) in Hc;
    try (assert (h = q) as -> by nia; by exists t).
  destruct (s_mp_sub_spec t div (proj1 Ht) Hd) as (t' & -> & Ht').
  { rewrite (proj1 (proj2 Ht)). assert (1 ≤ h) by nia. nia. }
  cbn [mbind res_bind]. assert (q < h) by nia. assert (0 ≤ q) by (apply Z.div_pos; lia).
  rewrite u64_small by (unfold is_digit; lia). apply IH; [|lia|lia].
  rewrite (proj1 (proj2 Ht)) in Ht'. replace ((h - 1) * mag div) with (h * mag div - mag div) by lia.
  destruct Ht' as (T1 & T2 & T3). split_and!; try done. intros Hne. rewrite T3 by done. apply Ht. nia.
Qed.

Lemma eval_insert l j x : (j < length l)%nat → eval (<[j := x]> l) = eval l + B ^ j * (x - l !!! j).
Proof.
  revert j. induction l as [|y l IH]; intros [|j] Hj; simpl in Hj; try lia.
  - simpl. change ((y :: l) !!! 0%nat) with y. lia.
  - change (<[S j := x]> (y :: l)) with (y :: <[j := x]> l). change ((y :: l) !!! S j) with (l !!! j). cbn [eval].
    rewrite IH, B_pow_S by lia. lia.
Qed.

(** The top digits of a normal number, taken as a number. *)
Lemma drop_norm m u : mp_norm m → (u < used m)%nat →
  mp_norm (mk_mp ZPOS (drop u (dp m))) ∧ mag (mk_mp ZPOS (drop u (dp m))) = mag m / B ^ u ∧
  used (mk_mp ZPOS (drop u (dp m))) = (used m - u)%nat.
Proof.
  intros Hm Hu. assert (length (drop u (dp m)) = used m - u)%nat as Hl by (rewrite length_drop; done).
  assert (digits (drop u (dp m))) as Hd by (apply Forall_drop, Hm).
  assert (eval (drop u (dp m)) = mag m / B ^ u) as He by (apply eval_drop, Hm).
  split_and!; [|done|done]. apply mk_norm; try done.
  - intros E. rewrite E in Hl. simpl in Hl. lia.
  - rewrite Hl, He. destruct (norm_lower m Hm) as [|Hlow]; [left; lia|right].
    apply Z.div_le_lower_bound; [apply B_pow|]. rewrite <- Z.pow_add_r by lia.
    replace (Z.of_nat u + Z.of_nat (used m - u - 1)) with (Z.of_nat (used m - 1)) by lia. done.
Qed.

(** The invariant on the divisor: normalised. *)
Definition div_ready (div : mp_int) : Prop :=
  mp_norm div ∧ sign div = ZPOS ∧ 2 ^ 63 * B ^ (used div - 1)%nat ≤ mag div.

Lemma div_ready_top div : div_ready div →
  let v1 := dp div !!! (used div - 1)%nat in
  is_digit v1 ∧ 2 ^ 63 ≤ v1 ∧ mag div = v1 * B ^ (used div - 1)%nat + mag div mod B ^ (used div - 1)%nat ∧ 0 < mag div.
Proof.
  intros (Hn & _ & Hm). cbn zeta. pose proof (B_pow (used div - 1)) as HP.
  destruct (top_digit div Hn ltac:(nia)) as (H1 & H2 & H3). cbn zeta in *.
  set (v1 := dp div !!! (used div - 1)%nat) in *. split_and!; [done|nia| |nia].
  assert (mag div / B ^ (used div - 1)%nat = v1) as Hq.
  { symmetry. apply Z.div_unique with (mag div - v1 * B ^ (used div - 1)%nat); lia. }
  pose proof (Z.div_mod (mag div) (B ^ (used div - 1)%nat) ltac:(lia)) as E. rewrite Hq in E. lia.
Qed.

Lemma div_guess_plain part div : div_ready div → mp_norm part → used part = used div → mag div ≤ mag part →
  div_guess part div false = 1 ∧ mag part / mag div = 1.
Proof.
  intros Hd Hp Hu Hle. split; [done|]. destruct (div_ready_top div Hd) as (_ & _ & _ & Hpos).
  destruct Hd as (Hn & _ & Hm). pose proof (mag_range part (proj1 Hp)) as Hr. rewrite Hu in Hr.
  pose proof (mp_ok_used div (proj1 Hn)). replace (used div) with (S (used div - 1)) in Hr at 1 by lia.
  rewrite B_pow_S in Hr. symmetry. apply Z.div_unique with (mag part - mag div); [|lia].
  left. set (P := B ^ (used div - 1)%nat) in *. change B with (2 * 2 ^ 63) in Hr. lia.
Qed.

Lemma div_guess_ext part div : div_ready div → mp_norm part → used part = S (used div) →
  mag part / B < mag div →
  is_digit (div_guess part div true) ∧
  mag part / mag div ≤ div_guess part div true ≤ mag part / mag div + 2.
Proof.
  intros Hd Hp Hu Hlt. destruct (div_ready_top div Hd) as (Hv1 & Hmsb & Ev & Hpos).
  pose proof (mp_ok_used div (proj1 (proj1 Hd))) as Hun.
  set (n := used div) in *. pose proof (B_pow (n - 1)) as HP. set (P := B ^ (n - 1)%nat) in *.
  pose proof (lookup_total_digit (dp part) (used part - 1) (proj1 (proj1 Hp)) ltac:(unfold used in *; lia)) as Hu2.
  pose proof (lookup_total_digit (dp part) (used part - 2) (proj1 (proj1 Hp)) ltac:(unfold used in *; lia)) as Hu1.
  unfold div_guess. simpl negb. cbn iota zeta. fold n.
  set (v1 := dp div !!! (n - 1)%nat) in *. set (u2 := dp part !!! (used part - 1)%nat) in *.
  set (u1 := dp part !!! (used part - 2)%nat) in *.
  assert (∃ u0, mag part = (u2 * B + u1) * P + u0 ∧ 0 ≤ u0 < P) as (u0 & Eu & Hu0).
  { exists (eval (take (n - 1) (dp part))).
    pose proof (eval_S_take (dp part) n ltac:(unfold used in *; lia)) as H2.
    pose proof (eval_S_take (dp part) (n - 1) ltac:(unfold used in *; lia)) as H1.
    replace (S (n - 1)) with n in H1 by lia. rewrite take_ge in H2 by (unfold used in *; lia). fold (mag part) in H2.
    assert (dp part !!! n = u2) as E2 by (unfold u2; f_equal; lia).
    assert (dp part !!! (n - 1)%nat = u1) as E1 by (unfold u1; f_equal; lia).
    rewrite E2 in H2. rewrite E1 in H1. fold P in H1. replace n with (S (n - 1)) in H2 at 2 by lia. rewrite B_pow_S in H2. fold P in H2.
    split; [lia|]. pose proof (eval_range (take (n - 1) (dp part)) ltac:(apply Forall_take, Hp)) as Hr.
    rewrite length_take, Nat.min_l in Hr by (unfold used in *; lia). done. }
  assert (mag part < B * mag div) as HUr.
  { pose proof (Z.div_mod (mag part) B ltac:(pose_B; lia)). pose proof (Z.mod_pos_bound (mag part) B B_pos). nia. }
  set (v0 := mag div mod P) in *. assert (0 ≤ v0 < P) as Hv0 by (apply Z.mod_pos_bound; lia).
  pose proof (mag_range part (proj1 Hp)). unfold is_digit in *. pose_B.
  assert (u2 ≤ v1) as Hle.
  { assert (0 ≤ u1 * P) by (apply Z.mul_nonneg_nonneg; lia).
    assert (B * v0 < B * P) by (apply Z.mul_lt_mono_pos_l; lia).
    assert (u2 * (B * P) < (v1 + 1) * (B * P)) as Hmul by (rewrite Ev in HUr; fold v0 in HUr; lia).
    apply Z.mul_lt_mono_pos_r in Hmul; [lia|]. apply Z.mul_pos_pos; lia. }
  assert (B ≤ 2 * v1) as HB2 by (unfold B; change (2 ^ 64) with (2 * 2 ^ 63); lia).
  destruct (Z.eqb_spec u2 v1) as [Heq|Hne].
  - change MP_DIGIT_MAX with (B - 1). split; [lia|].
    apply (knuth_guess P v1 v0 (u2 * B + u1) u0); try done; lia || nia.
  - destruct (s_mpv_div_2dx1d_spec u2 u1 v1 Hu1 Hv1 Hmsb ltac:(lia)) as (-> & Hq & _). cbn [fst].
    unfold is_digit in Hq. split; [lia|]. pose proof (Z.div_mod (u2 * B + u1) v1 ltac:(lia)).
    pose proof (Z.mod_pos_bound (u2 * B + u1) v1 ltac:(lia)).
    apply (knuth_guess P v1 v0 (u2 * B + u1) u0); try done; try lia.
Qed.

(** An extended part has one more digit than the divisor. *)
Lemma part_ge part div : mp_norm part → mp_norm div → used part = S (used div) → mag div ≤ mag part.
Proof.
  intros Hp Hd Hu. pose proof (mag_range div (proj1 Hd)) as Hr. pose proof (mp_ok_used div (proj1 Hd)).
  destruct (norm_lower part Hp) as [|Hl]; [lia|]. rewrite Hu in Hl. simpl in Hl. rewrite Nat.sub_0_r in Hl. lia.
Qed.

Lemma quotient_digit x y : 0 < y → x / B < y → x / y < B.
Proof.
  intros Hy Hx. apply Z.div_lt_upper_bound; [done|]. pose_B.
  pose proof (Z.div_mod x B ltac:(lia)). pose proof (Z.mod_pos_bound x B B_pos). nia.
Qed.

Lemma div_select_spec rem div : div_ready div → mp_norm rem → mag div ≤ mag rem →
  ∃ u part ext, div_select rem div = Ok (u, part, ext) ∧ part = mk_mp ZPOS (drop u (dp rem)) ∧ (u < used rem)%nat ∧
    is_digit (div_guess part div ext) ∧ mag div ≤ mag part ∧ mag part / mag div < B ∧
    mag part / mag div ≤ div_guess part div ext ≤ mag part / mag div + 2.
Proof.
  intros Hd Hrem Hge. destruct (div_ready_top div Hd) as (_ & _ & _ & Hpos). pose proof Hd as (Hdn & _ & _).
  pose proof (norm_used_le div rem Hdn (proj1 Hrem) Hge) as Hul. pose proof (mp_ok_used div (proj1 Hdn)) as Hun.
  unfold div_select. destruct (drop_norm rem (used rem - used div) Hrem ltac:(lia)) as (N1 & N2 & N3).
  remember (mk_mp ZPOS (drop (used rem - used div) (dp rem))) as p0 eqn:Ep0.
  replace (used rem - (used rem - used div))%nat with (used div) in N3 by lia.
  destruct (s_mp_cmp_norm p0 div N1 Hdn) as [[-> Hc]|Hc].
  - destruct (used rem - used div)%nat as [|u] eqn:Eu.
    { rewrite N2, Z.pow_0_r, Z.div_1_r in Hc. lia. }
    destruct (drop_norm rem u Hrem ltac:(lia)) as (M1 & M2 & M3).
    assert (used (mk_mp ZPOS (drop u (dp rem))) = S (used div)) as M4 by lia.
    remember (mk_mp ZPOS (drop u (dp rem))) as p1 eqn:Ep1. clear M3.
    assert (mag p1 / B = mag p0) as Hp01.
    { rewrite M2, N2, B_pow_S, (Z.mul_comm B), Z.div_div; [done|pose proof (B_pow u); lia|apply B_pos]. }
    rewrite <- Hp01 in Hc. destruct (div_guess_ext p1 div Hd M1 M4 Hc) as [G1 G2].
    exists u, p1, true. split_and!; [done|done|lia|apply G1|by apply part_ge|by apply quotient_digit|lia|lia].
  - assert (mag div ≤ mag p0) as Hle0 by (destruct Hc as [[_ ?]|[_ ?]]; lia).
    destruct (div_guess_plain p0 div Hd N1 N3 Hle0) as [G1 G2].
    exists (used rem - used div)%nat, p0, false. rewrite G1, G2.
    split_and!; [by destruct Hc as [[-> _]|[-> _]]|done|lia|apply bit_digit; by right|done|unfold B; lia|lia|lia].
Qed.

(** What one pass does: it removes the leading quotient digit [q] at position
    [j] from the dividend. *)
Lemma div_step_spec rem div quot k : div_ready div → mp_norm rem → sign rem = ZPOS →
  mag div ≤ mag rem → mag rem < mag div * B ^ Z.of_nat k → (k ≤ length quot)%nat →
  ∃ j q rem', div_step rem div quot = Ok (Some (rem', <[j := q]> quot)) ∧ (j < k)%nat ∧ is_digit q ∧
    norm_mag rem' ZPOS (mag rem - q * mag div * B ^ j) ∧ 0 ≤ mag rem - q * mag div * B ^ j < mag div * B ^ j.
Proof.
  intros Hd Hrem Hs Hge Hlt Hk. destruct (div_ready_top div Hd) as (_ & _ & _ & Hpos). pose proof Hd as (Hdn & Hds & Hdm).
  pose proof (norm_used_le div rem Hdn (proj1 Hrem) Hge) as Hul. pose proof (mp_ok_used div (proj1 Hdn)) as Hun.
  destruct (div_select_spec rem div Hd Hrem Hge) as (u & part & ext & Esel & Epart & Hu & Hg1 & Hg2 & Hqb & Hg3).
  destruct (drop_norm rem u Hrem Hu) as (P1 & P2 & P3). rewrite <- Epart in P1, P2, P3.
  set (g := div_guess part div ext) in *. set (q := mag part / mag div) in *.
  assert (1 ≤ q) as Hq1 by (apply Z.div_le_lower_bound; lia).
  pose proof (Z.div_mod (mag part) (mag div) ltac:(lia)) as Eq. pose proof (Z.mod_pos_bound (mag part) (mag div) ltac:(lia)) as Hr.
  fold q in Eq. pose proof (B_pow u) as HBu.
  pose proof (Z.div_mod (mag rem) (B ^ u) ltac:(lia)) as Em. pose proof (Z.mod_pos_bound (mag rem) (B ^ u) ltac:(lia)) as Hm.
  rewrite <- P2 in Em.
  assert (u < k)%nat as Huk.
  { destruct (decide (u < k)%nat); [done|]. assert (B ^ k ≤ B ^ u) by (apply Z.pow_le_mono_r; [apply B_pos|lia]). nia. }
  exists u, q. unfold div_step. rewrite Esel. cbn [mbind res_bind]. cbn zeta. fold g. unfold is_digit in Hg1.
  rewrite (proj2 (Z.leb_gt g 0)) by lia.
  destruct (s_mp_mul_d_spec div g Hdn Hg1) as (t & -> & Ht). cbn [mbind res_bind].
  assert (norm_mag t ZPOS (g * mag div)) as Ht'.
  { rewrite (Z.mul_comm g). destruct Ht as (T1 & T2 & T3). split_and!; try done. intros Hne. rewrite T3 by done.
    done. }
  destruct (backoff_spec 4 g t part div P1 Hdn Hpos Ht' Hg1 ltac:(fold q; lia)) as (t' & -> & Hbt).
  fold q in Hbt. cbn [mbind res_bind].
  destruct (s_mp_sub_spec part t' P1 (proj1 Hbt)) as (part' & -> & Hsub); [rewrite (proj1 (proj2 Hbt)); lia|].
  cbn [mbind res_bind]. fold q. rewrite (proj2 (Nat.leb_gt (length quot) u)) by lia.
  eexists. split; [done|]. rewrite (proj1 (proj2 Hbt)) in Hsub.
  destruct (pad_dp_spec (dp part') (used part) ltac:(apply Hsub)) as (D1 & D2 & D3).
  assert (eval (take u (dp rem)) = mag rem mod B ^ u) as Etk by (apply eval_take, Hrem).
  set (x := mk_mp (sign rem) (take u (dp rem) ++ pad_dp (dp part') (used part))).
  assert (mag x = mag rem - q * mag div * B ^ u) as Ex.
  { unfold mag at 1, x. simpl. rewrite eval_app, Etk, length_take, Nat.min_l by (unfold used in *; lia).
    rewrite D2. fold (mag part'). rewrite (proj1 (proj2 Hsub)). nia. }
  assert (mp_ok x) as Hx.
  { split; [apply Forall_app; split; [apply Forall_take, Hrem|done]|]. simpl. intros E. apply app_nil in E as [_ E].
    rewrite E in D3. simpl in D3. lia. }
  split; [done|]. split; [unfold is_digit; lia|]. split; [|nia].
  rewrite <- Ex. pose proof (clamp_norm_mag x Hx) as Hcx. simpl sign in Hcx. by rewrite Hs in Hcx.
Qed.

Lemma div_loop_spec fuel rem div quot k A : div_ready div → mp_norm rem → sign rem = ZPOS → digits quot →
  mag rem < mag div * B ^ Z.of_nat k → (k ≤ length quot)%nat → (k < fuel)%nat →
  (∀ j, (j < k)%nat → quot !!! j = 0) → A = eval quot * mag div + mag rem →
  ∃ rem' quot', div_loop fuel rem div quot = Ok (rem', quot') ∧ norm_mag rem' ZPOS (A mod mag div) ∧
    digits quot' ∧ length quot' = length quot ∧ eval quot' = A / mag div.
Proof.
  intros Hd. revert rem quot k. induction fuel as [|fuel IH]; intros rem quot k Hrem Hs Hq Hlt Hk Hf Hz HA; [lia|].
  destruct (div_ready_top div Hd) as (_ & _ & _ & Hpos). pose proof Hd as (Hdn & _ & _). cbn [div_loop].
  assert (Nat.ltb (used div) (used rem) || (match s_mp_cmp rem div with MP_LT => false | _ => true end) =
    (mag div <=? mag rem)) as ->.
  { destruct (s_mp_cmp_norm rem div Hrem Hdn) as [[-> Hc]|[[-> Hc]|[-> Hc]]]; rewrite ?orb_true_r, ?orb_false_r;
      destruct (Z.leb_spec (mag div) (mag rem)); try done; try lia.
    apply Nat.ltb_ge. apply norm_used_le; [done|apply Hdn|lia]. }
  pose proof (mag_range rem (proj1 Hrem)). destruct (Z.leb_spec (mag div) (mag rem)) as [Hge|Hsm].
  - destruct (div_step_spec rem div quot k Hd Hrem Hs Hge Hlt Hk) as (j & q & rem' & -> & Hj & Hqd & Hr & Hrange).
    cbn [mbind res_bind]. destruct Hr as (R1 & R2 & R3).
    assert (sign rem' = ZPOS) as Hs'.
    { destruct (decide (mag rem' = 0)); [by apply R1|]. apply R3. lia. }
    destruct (IH rem' (<[j := q]> quot) j R1 Hs') as (r2 & q2 & -> & I1 & I2 & I3 & I4).
    + by apply Forall_insert.
    + lia.
    + rewrite length_insert. lia.
    + lia.
    + intros i Hi. rewrite list_lookup_total_insert_ne by lia. apply Hz. lia.
    + rewrite eval_insert, (Hz j) by lia. lia.
    + rewrite length_insert in I3. by exists r2, q2.
  - exists rem, quot. rewrite HA, Z.add_comm, Z.mod_add, Z.div_add, Z.mod_small, Z.div_small by lia.
    split_and!; try done; lia.
Qed.

Lemma s_mp_div_spec rem div n : mp_norm rem → mp_norm div → mag div ≠ 0 → mag rem < B ^ Z.of_nat n →
  (0 < n)%nat →
  ∃ r q, s_mp_div rem div n = Ok (r, q) ∧ mp_ok r ∧ clamped_dp (dp r) ∧ mp_ok q ∧ clamped_dp (dp q) ∧
    mag r = mag rem mod mag div ∧ mag q = mag rem / mag div.
Proof.
  intros Hrem Hdiv H0 Hn Hnp. pose proof (mag_range div (proj1 Hdiv)). pose proof (mag_range rem (proj1 Hrem)).
  unfold s_mp_div. rewrite mp_cmp_z_spec by done.
  assert (∃ c, cmp_of (val div ?= 0) = c ∧ c ≠ MP_EQ) as (c & -> & Hc).
  { eexists. split; [done|]. unfold val. destruct (sign div);
      match goal with |- cmp_of (?x ?= 0) ≠ _ => destruct (Z.compare_spec x 0) end; simpl; done || lia. }
  assert (∃ r q, (if 0 <=? s_mp_ispow2 div then Ok (s_mp_mod_2d rem (s_mp_ispow2 div), s_mp_div_2d rem (s_mp_ispow2 div))
      else '(rem, div, d) ← s_mp_norm (mk_mp ZPOS (dp rem)) (mk_mp ZPOS (dp div));
        '(rem, quot) ← div_loop (S n) rem div (replicate n 0);
        let rem := if d =? 0 then rem else s_mp_div_2d rem d in
        Ok (rem, s_mp_clamp (mk_mp ZPOS quot)) : mp_res _) = Ok (r, q) ∧ mp_ok r ∧ clamped_dp (dp r) ∧ mp_ok q ∧ clamped_dp (dp q) ∧
    mag r = mag rem mod mag div ∧ mag q = mag rem / mag div) as (r & q & E & Hrest).
  2:{ exists r, q. split; [|done]. rewrite <- E. by destruct c. }
  destruct (Z.leb_spec 0 (s_mp_ispow2 div)) as [Hp|Hp].
  - pose proof (s_mp_ispow2_spec div (proj1 Hdiv) Hp) as E. set (k := s_mp_ispow2 div) in *.
    destruct (s_mp_mod_2d_spec rem k Hrem Hp) as (M1 & M2 & _). destruct (s_mp_div_2d_spec rem k (proj1 Hrem) Hp) as (D1 & D2 & _).
    do 2 eexists. split; [done|]. rewrite E. split_and!; try done; try apply M1; apply D1.
  - assert (mp_norm (mk_mp ZPOS (dp rem))) as Hr' by (split_and!; [apply Hrem..|done]).
    assert (mp_norm (mk_mp ZPOS (dp div))) as Hd' by (split_and!; [apply Hdiv..|done]).
    destruct (s_mp_norm_spec _ _ Hr' eq_refl Hd' eq_refl H0) as (a & b & d & -> & Hd & Ha & Hb & Hub & Hbb & _).
    cbn [mbind res_bind]. change (mag (mk_mp ZPOS (dp rem))) with (mag rem) in *.
    change (mag (mk_mp ZPOS (dp div))) with (mag div) in *. change (used (mk_mp ZPOS (dp div))) with (used div) in *.
    assert (0 < 2 ^ d) as Hpd by (apply Z.pow_pos_nonneg; lia). destruct Ha as (A1 & A2 & A3). destruct Hb as (B1 & B2 & B3).
    assert (sign a = ZPOS) as Hsa by (destruct (decide (mag a = 0)); [by apply A1|apply A3; lia]).
    assert (div_ready b) as Hrb.
    { split; [done|]. split; [apply B3; nia|]. rewrite Hub, B2. lia. }
    destruct (div_loop_spec (S n) a b (replicate n 0) n (mag a) Hrb A1 Hsa) as (r & q & -> & R1 & R2 & R3 & R4).
    + auto with nss.
    + rewrite A2, B2. pose proof (B_pow n). nia.
    + by rewrite length_replicate.
    + lia.
    + intros j Hj. by rewrite list_lookup_total_alt, lookup_replicate_2 by done.
    + rewrite eval_zeros. lia.
    + cbn [mbind res_bind]. cbn zeta. do 2 eexists. split; [done|].
      rewrite A2, B2 in *. rewrite Z.div_mul_cancel_r in R4 by lia. rewrite Zmult_mod_distr_r in R1.
      rewrite length_replicate in R3.
      assert (mp_ok (mk_mp ZPOS q)) as Hqok.
      { split; [done|]. simpl. intros E. rewrite E in R3. simpl in R3. lia. }
      destruct (clamp_norm_mag _ Hqok) as (Q1 & Q2 & _). destruct R1 as (R1 & R1m & _).
      assert (norm_mag (if d =? 0 then r else s_mp_div_2d r d) (sign r) (mag rem mod mag div)) as (S1 & S2 & _).
      { destruct (Z.eqb_spec d 0) as [->|Hd0].
        - rewrite Z.mul_1_r in R1m. rewrite <- R1m. by apply norm_mag_self.
        - pose proof (s_mp_div_2d_spec r d (proj1 R1) ltac:(lia)) as Hdd. by rewrite R1m, Z.div_mul in Hdd by lia. }
      split_and!; try apply S1; try apply Q1; [done|]. rewrite Q2. exact R4.
Qed.

Lemma mp_div_spec a b : mp_norm a → mp_norm b → mag b ≠ 0 →
  ∃ q r, mp_div a b = Ok (q, r) ∧ norm_mag q (sign_mul (sign a) (sign b)) (mag a / mag b) ∧
    norm_mag r (sign a) (mag a mod mag b).
Proof.
  intros Ha Hb H0. pose proof (mag_range a (proj1 Ha)) as Hra. pose proof (mag_range b (proj1 Hb)) as Hrb.
  unfold mp_div. rewrite mp_cmp_z_spec by done.
  assert (cmp_of (val b ?= 0) ≠ MP_EQ) as Hc.
  { unfold val. destruct (sign b);
      match goal with |- cmp_of (?x ?= 0) ≠ _ => destruct (Z.compare_spec x 0) end; simpl; done || lia. }
  assert (∃ pR pQ, (match s_mp_cmp a b with
        | MP_LT => Ok (a, mp_zero)
        | MP_EQ => Ok (mp_zero, mp_set 1)
        | MP_GT => s_mp_div a b (used a)
        end) = Ok (pR, pQ) ∧ mp_ok pR ∧ clamped_dp (dp pR) ∧ mp_ok pQ ∧ clamped_dp (dp pQ) ∧
        mag pR = mag a mod mag b ∧ mag pQ = mag a / mag b) as (pR & pQ & E & P1 & P2 & P3 & P4 & P5 & P6).
  { assert (∀ d, is_digit d → mp_ok (mk_mp ZPOS [d]) ∧ clamped_dp [d]) as Hone.
    { intros d Hd. split; [split; [by constructor|done]|left; simpl; lia]. }
    assert (is_digit 0) as D0 by (apply bit_digit; by left). assert (is_digit 1) as D1 by (apply bit_digit; by right).
    destruct (s_mp_cmp_norm a b Ha Hb) as [[-> Hl]|[[-> Hl]|[-> Hl]]].
    - exists a, mp_zero. rewrite Z.mod_small, Z.div_small by lia. split_and!; try done; try apply Ha; by apply Hone.
    - exists mp_zero, (mp_set 1). rewrite Hl, Z.mod_same, Z.div_same by lia.
      split_and!; try done; by apply Hone.
    - destruct (s_mp_div_spec a b (used a) Ha Hb H0) as (r & q & -> & ?); [lia|by apply mp_ok_used, Ha|].
      by exists r, q. }
  rewrite E. exists (fix_zero_sign pQ (sign_mul (sign a) (sign b))), (fix_zero_sign pR (sign a)).
  split; [by destruct (cmp_of (val b ?= 0))|]. rewrite <- P5, <- P6. split; by apply fix_zero_sign_spec.
Qed.
