(* ===== verification/MpiArith.v ===== *)
(** lib/freebl/mpi/mpi.c: signed arithmetic, residues, exponentiation.  The
    public operations on [mp_int]s over the magnitude routines: mp_add,
    mp_sub and their digit forms, mp_mod and modular operations, Barrett
    reduction (s_mp_reduce) and the square-and-multiply loops.

    Aliasing of operands and results (a == c and the like) does not show in
    the model: results are returned as values. *)

From stdpp Require Import base numbers list.
From S2P Require Import Prelude MpiBase MpiMul MpiDiv.

(** ** Operations *)

Definition mp_abs (a : mp_int) : mp_int := mk_mp ZPOS (dp a).

Definition neg_sign (s : mp_sign) : mp_sign := match s with NEG => ZPOS | ZPOS => NEG end.

Definition mp_neg (a : mp_int) : mp_int :=
  mk_mp (match s_mp_cmp_d a 0 with MP_EQ => ZPOS | _ => neg_sign (sign a) end) (dp a).

(** [if (s_mp_cmp_d(c, 0) == MP_EQ) SIGN(c) = ZPOS;] *)
Definition zero_pos (c : mp_int) : mp_int :=
  mk_mp (match s_mp_cmp_d c 0 with MP_EQ => ZPOS | _ => sign c end) (dp c).

Definition mp_add (a b : mp_int) : mp_res mp_int :=
  c ← (if decide (sign a = sign b) then Ok (s_mp_add_3arg a b)
       else match s_mp_cmp a b with
            | MP_LT => s_mp_sub_3arg b a
            | _ => s_mp_sub_3arg a b
            end);
  Ok (zero_pos c).

Definition mp_sub (a b : mp_int) : mp_res mp_int :=
  c ← (if decide (sign a = sign b) then
         match s_mp_cmp a b with
         | MP_EQ => Ok mp_zero
         | MP_GT => s_mp_sub_3arg a b
         | MP_LT => c ← s_mp_sub_3arg b a; Ok (mk_mp (neg_sign (sign a)) (dp c))
         end
       else Ok (s_mp_add_3arg a b));
  Ok (zero_pos c).

Definition mp_add_d (a : mp_int) (d : Z) : mp_res mp_int :=
  tmp ← match sign a with
        | ZPOS => Ok (s_mp_add_d a d)
        | NEG => match s_mp_cmp_d a d with
                 | MP_LT => let tmp := mp_neg a in
                            Ok (mk_mp (sign tmp) (<[0%nat := u64 (d - dp tmp !!! 0%nat)]> (dp tmp)))
                 | _ => s_mp_sub_d a d
                 end
        end;
  Ok (zero_pos tmp).

Definition mp_sub_d (a : mp_int) (d : Z) : mp_res mp_int :=
  tmp ← match sign a with
        | NEG => Ok (s_mp_add_d a d)
        | ZPOS => match s_mp_cmp_d a d with
                  | MP_LT => let tmp := mp_neg a in
                             Ok (mk_mp NEG (<[0%nat := u64 (d - dp tmp !!! 0%nat)]> (dp tmp)))
                  | _ => s_mp_sub_d a d
                  end
        end;
  Ok (zero_pos tmp).

Definition mp_mul_d (a : mp_int) (d : Z) : mp_res mp_int :=
  if d =? 0 then Ok mp_zero else s_mp_mul_d a d.
Definition mp_mul_2 (a : mp_int) : mp_int := s_mp_mul_2 a.
Definition mp_2expt (k : Z) : mp_int := s_mp_2expt k.

Definition mp_mod (a m : mp_int) : mp_res mp_int :=
  match sign m with
  | NEG => Err MP_RANGE
  | ZPOS =>
      match s_mp_cmp a m with
      | MP_GT => '(_, c) ← mp_div a m;
                 match sign c with NEG => mp_add c m | ZPOS => Ok c end
      | MP_LT => match mp_cmp_z a with MP_LT => mp_add a m | _ => Ok a end
      | MP_EQ => Ok mp_zero
      end
  end.

Definition mp_addmod (a b m : mp_int) : mp_res mp_int := c ← mp_add a b; mp_mod c m.
Definition mp_submod (a b m : mp_int) : mp_res mp_int := c ← mp_sub a b; mp_mod c m.
Definition mp_mulmod (a b m : mp_int) : mp_res mp_int := c ← mp_mul a b; mp_mod c m.
Definition mp_sqrmod (a m : mp_int) : mp_res mp_int := c ← mp_sqr a; mp_mod c m.

(** [while (mp_cmp(x, m) >= 0) s_mp_sub(x, m)]; for x below radix^2k two
    subtractions are enough, and a third test ends the loop. *)
Fixpoint reduce_loop (fuel : nat) (x m : mp_int) : mp_res mp_int :=
  match fuel with
  | O => UB
  | S fuel => match mp_cmp x m with
              | MP_LT => Ok x
              | _ => x ← s_mp_sub x m; reduce_loop fuel x m
              end
  end.

(** Barrett reduction of [x] modulo [m], given mu = radix^2k / m. *)
Definition s_mp_reduce (x m mu : mp_int) : mp_res mp_int :=
  q ← s_mp_mul (s_mp_rshd x (used m - 1)) mu;
  let q := s_mp_rshd q (used m + 1) in
  let x := s_mp_mod_2d x (MP_DIGIT_BIT * (used m + 1)) in
  q ← s_mp_mul q m;
  let q := s_mp_mod_2d q (MP_DIGIT_BIT * (used m + 1)) in
  x ← mp_sub x q;
  x ← match mp_cmp_z x with
      | MP_LT => mp_add x (s_mp_lshd (mp_set 1) (used m + 1))
      | _ => Ok x
      end;
  reduce_loop 3 x m.

(** The loops of mp_expt, mp_expt_d, s_mp_exptmod and mp_exptmod_d differ in
    how a product and a square are formed. *)
Section Power.
Context (mul : mp_int → mp_int → mp_res mp_int) (sqr : mp_int → mp_res mp_int).

(** [if (d & 1) s *= x; d >>= 1; x *= x] *)
Definition power_step (d : Z) (s x : mp_int) : mp_res (mp_int * mp_int) :=
  s ← (if Z.land d 1 =? 0 then Ok s else mul s x);
  x ← sqr x;
  Ok (s, x).

(** [for (bit = 0; bit < DIGIT_BIT; bit++)] *)
Fixpoint power_bits (n : nat) (d : Z) (s x : mp_int) : mp_res (mp_int * mp_int) :=
  match n with
  | O => Ok (s, x)
  | S n => '(s, x) ← power_step d s x; power_bits n (Z.shiftr d 1) s x
  end.

(** [while (d)], at most 64 rounds. *)
Fixpoint power_while (fuel : nat) (d : Z) (s x : mp_int) : mp_res (mp_int * mp_int) :=
  match fuel with
  | O => if d =? 0 then Ok (s, x) else UB
  | S fuel => if d =? 0 then Ok (s, x)
              else '(s, x) ← power_step d s x; power_while fuel (Z.shiftr d 1) s x
  end.

(** All digits of the exponent: every bit of the low ones, the significant
    bits of the top one. *)
Fixpoint power_digits (l : list Z) (s x : mp_int) : mp_res (mp_int * mp_int) :=
  match l with
  | [] => Ok (s, x)
  | d :: l => match l with
              | [] => power_while 64 d s x
              | _ => '(s, x) ← power_bits 64 d s x; power_digits l s x
              end
  end.
End Power.

Definition mp_expt_d (a : mp_int) (d : Z) : mp_res mp_int :=
  '(s, _) ← power_while s_mp_mul s_mp_sqr 64 d (mp_set 1) a; Ok s.

Definition mp_expt (a b : mp_int) : mp_res mp_int :=
  match mp_cmp_z b with
  | MP_LT => Err MP_RANGE
  | _ => '(s, _) ← power_digits s_mp_mul s_mp_sqr (dp b) (mp_set 1) a;
         Ok (if mp_iseven b then mk_mp (sign a) (dp s) else s)
  end.

Definition s_mp_exptmod (a b m : mp_int) : mp_res mp_int :=
  match mp_cmp_z b, mp_cmp_z m with
  | MP_LT, _ | _, MP_LT | _, MP_EQ => Err MP_RANGE
  | _, MP_GT =>
      x ← mp_mod a m;
      '(mu, _) ← mp_div (s_mp_lshd (s_mp_add_d mp_zero 1) (2 * used m)) m;
      '(s, _) ← power_digits (fun s x => s ← s_mp_mul s x; s_mp_reduce s m mu)
                             (fun x => x ← s_mp_sqr x; s_mp_reduce x m mu) (dp b) (mp_set 1) x;
      Ok s
  end.

Definition mp_exptmod_d (a : mp_int) (d : Z) (m : mp_int) : mp_res mp_int :=
  '(s, _) ← power_while (fun s x => s ← s_mp_mul s x; mp_mod s m)
                        (fun x => x ← s_mp_sqr x; mp_mod x m) 64 d (mp_set 1) a;
  Ok s.

(** ** Signed arithmetic *)

(** [m] is the normal form of [v]. *)
Definition rep (m : mp_int) (v : Z) : Prop := mp_norm m ∧ val m = v.

Lemma norm_mag_rep m s v : norm_mag m s v → rep m (signed s v).
Proof. intros H. split; [apply H|by apply norm_mag_val]. Qed.

Lemma rep_norm_mag m s v : norm_mag m s v → ∀ w, signed s v = w → rep m w.
Proof. intros H w <-. by apply norm_mag_rep. Qed.

Lemma rep_mag m v : rep m v → mag m = Z.abs v ∧ norm_mag m (if v <? 0 then NEG else ZPOS) (Z.abs v).
Proof.
  intros [Hn Hv]. pose proof (mag_range m (proj1 Hn)). unfold val in Hv.
  assert (mag m = Z.abs v) as Hm by (destruct (sign m); lia). split; [done|].
  split_and!; [done|done|]. intros Hne. destruct (sign m) eqn:Hs, (Z.ltb_spec v 0); try done; lia.
Qed.

Lemma rep_nonneg m v : rep m v → 0 ≤ v → mag m = v ∧ sign m = ZPOS.
Proof.
  intros [Hn Hv] H0. pose proof (mag_range m (proj1 Hn)). unfold val in Hv.
  destruct (sign m) eqn:Hs; [by split; [lia|]|]. assert (mag m = 0) as Hz by lia.
  apply Hn in Hz. congruence.
Qed.

Lemma rep_unique a b v : rep a v → rep b v → a = b.
Proof. intros [Ha Ea] [Hb Eb]. apply norm_unique; [done..|lia]. Qed.

Lemma zero_pos_spec m : mp_ok m → clamped_dp (dp m) → norm_mag (zero_pos m) (sign m) (mag m).
Proof.
  intros H1 H2. assert (zero_pos m = fix_zero_sign m (sign m)) as -> by (by destruct m).
  by apply fix_zero_sign_spec.
Qed.

Lemma zero_pos_norm m s v : norm_mag m s v → norm_mag (zero_pos m) s v.
Proof.
  intros (H1 & H2 & H3). destruct (zero_pos_spec m) as (Z1 & Z2 & Z3); [apply H1..|].
  split_and!; [done|lia|]. intros Hne. rewrite Z3 by lia. by apply H3.
Qed.

Lemma mp_zero_norm s : norm_mag mp_zero s 0.
Proof. split_and!; [|done|done]. apply mk_norm; [apply (digits_zeros 1)|done|left; simpl; lia|done]. Qed.

Lemma mp_add_spec a b : mp_norm a → mp_norm b → ∃ c, mp_add a b = Ok c ∧ rep c (val a + val b).
Proof.
  intros Ha Hb. unfold mp_add. unfold val.
  destruct (decide (sign a = sign b)) as [Hs|Hs].
  - eexists. split; [done|]. eapply rep_norm_mag; [apply zero_pos_norm, s_mp_add_3arg_spec; done|].
    rewrite <- Hs. destruct (sign a); simpl; lia.
  - destruct (s_mp_cmp_norm a b Ha Hb) as [[-> Hc]|[[-> Hc]|[-> Hc]]].
    + destruct (s_mp_sub_3arg_spec b a Hb Ha ltac:(lia)) as (r & -> & Hr). cbn [mbind res_bind]. eexists. split; [done|].
      eapply rep_norm_mag; [by apply zero_pos_norm|]. destruct (sign a), (sign b); simpl; try done; lia.
    + destruct (s_mp_sub_3arg_spec a b Ha Hb ltac:(lia)) as (r & -> & Hr). cbn [mbind res_bind]. eexists. split; [done|].
      eapply rep_norm_mag; [by apply zero_pos_norm|]. destruct (sign a), (sign b); simpl; try done; lia.
    + destruct (s_mp_sub_3arg_spec a b Ha Hb ltac:(lia)) as (r & -> & Hr). cbn [mbind res_bind]. eexists. split; [done|].
      eapply rep_norm_mag; [by apply zero_pos_norm|]. destruct (sign a), (sign b); simpl; try done; lia.
Qed.

Lemma mp_sub_spec a b : mp_norm a → mp_norm b → ∃ c, mp_sub a b = Ok c ∧ rep c (val a - val b).
Proof.
  intros Ha Hb. unfold mp_sub. unfold val.
  destruct (decide (sign a = sign b)) as [Hs|Hs].
  - rewrite <- Hs. destruct (s_mp_cmp_norm a b Ha Hb) as [[-> Hc]|[[-> Hc]|[-> Hc]]].
    + destruct (s_mp_sub_3arg_spec b a Hb Ha ltac:(lia)) as (r & -> & (R1 & R2 & R3)). cbn [mbind res_bind].
      eexists. split; [done|].
      assert (norm_mag (zero_pos (mk_mp (neg_sign (sign a)) (dp r))) (neg_sign (sign a)) (mag b - mag a)) as Hz.
      { destruct (zero_pos_spec (mk_mp (neg_sign (sign a)) (dp r))) as (Z1 & Z2 & Z3); [apply R1..|].
        change (mag (mk_mp (neg_sign (sign a)) (dp r))) with (mag r) in *. rewrite R2 in *. done. }
      eapply rep_norm_mag; [exact Hz|]. destruct (sign a); simpl; lia.
    + cbn [mbind res_bind]. eexists. split; [done|].
      eapply rep_norm_mag; [by apply zero_pos_norm, (mp_zero_norm ZPOS)|]. destruct (sign a); simpl; lia.
    + destruct (s_mp_sub_3arg_spec a b Ha Hb ltac:(lia)) as (r & -> & Hr). cbn [mbind res_bind]. eexists. split; [done|].
      eapply rep_norm_mag; [by apply zero_pos_norm|]. destruct (sign a); simpl; lia.
  - cbn [mbind res_bind]. eexists. split; [done|].
    eapply rep_norm_mag; [apply zero_pos_norm, s_mp_add_3arg_spec; done|].
    destruct (sign a), (sign b); simpl; try done; lia.
Qed.

Lemma mp_neg_spec a : mp_norm a → rep (mp_neg a) (- val a).
Proof.
  intros Ha. eapply rep_norm_mag with (s := neg_sign (sign a)) (v := mag a).
  - assert (mp_neg a = fix_zero_sign a (neg_sign (sign a))) as -> by done. apply fix_zero_sign_spec; apply Ha.
  - unfold val. destruct (sign a); simpl; lia.
Qed.

Lemma mp_abs_spec a : mp_norm a → rep (mp_abs a) (Z.abs (val a)).
Proof.
  intros Ha. pose proof (mag_range a (proj1 Ha)). split; [split_and!; [apply Ha..|done]|].
  unfold val. change (mag (mp_abs a)) with (mag a). simpl. destruct (sign a); lia.
Qed.

(** A single-digit magnitude below [d]. *)
Lemma cmp_d_cases a d : mp_norm a → is_digit d →
  (s_mp_cmp_d a d = MP_LT ∧ mag a < d ∧ dp a = [mag a]) ∨ (s_mp_cmp_d a d = MP_EQ ∧ mag a = d ∧ dp a = [mag a]) ∨
  (s_mp_cmp_d a d = MP_GT ∧ d < mag a).
Proof.
  intros Ha Hd. pose proof (mp_ok_used a (proj1 Ha)). unfold s_mp_cmp_d, is_digit in *.
  destruct (Nat.ltb_spec 1 (used a)).
  - do 2 right. split; [done|]. destruct (norm_lower a Ha) as [|Hl]; [lia|].
    assert (B ^ 1 ≤ B ^ (used a - 1)%nat) by (apply Z.pow_le_mono_r; [apply B_pos|lia]). rewrite Z.pow_1_r in *. lia.
  - unfold used, mag in *. destruct (dp a) as [|x [|]]; simpl in *; try lia. change ([x] !!! 0%nat) with x.
    rewrite Z.mul_0_r, Z.add_0_r. destruct (Z.ltb_spec x d), (Z.gtb_spec x d); auto; try lia.
    right. left. split_and!; try done; lia.
Qed.

Lemma s_mp_cmp_d_spec a d : mp_norm a → is_digit d → s_mp_cmp_d a d = cmp_of (mag a ?= d).
Proof.
  intros Ha Hd. destruct (cmp_d_cases a d Ha Hd) as [(-> & H & _)|[(-> & H & _)|(-> & H)]];
    destruct (Z.compare_spec (mag a) d); done || lia.
Qed.

Lemma single_norm s d : is_digit d → norm_mag (zero_pos (mk_mp s [d])) s d.
Proof.
  intros Hd. assert (mag (mk_mp s [d]) = d) as Hm by (unfold mag; simpl; lia).
  pose proof (zero_pos_spec (mk_mp s [d])) as H. rewrite Hm in H. apply H.
  - split; [by constructor|done].
  - left. simpl. lia.
Qed.

Lemma mp_add_d_spec a d : mp_norm a → is_digit d → ∃ c, mp_add_d a d = Ok c ∧ rep c (val a + d).
Proof.
  intros Ha Hd. unfold mp_add_d, val. destruct (sign a) eqn:Hs.
  { eexists. split; [done|]. pose proof (s_mp_add_d_spec a d Ha Hd) as H. rewrite Hs in H.
    by eapply rep_norm_mag; [by apply zero_pos_norm|]. }
  destruct (cmp_d_cases a d Ha Hd) as [(-> & Hc & Hdp)|H].
  - cbn [mbind res_bind]. eexists. split; [done|]. unfold mp_neg. cbn [dp sign]. rewrite Hdp.
    change ([mag a] !!! 0%nat) with (mag a). simpl (<[_ := _]> _). pose proof (mag_range a (proj1 Ha)).
    assert (mag a ≠ 0) as Hne by (intros E; apply Ha in E; congruence).
    destruct (s_mp_cmp_d a 0) eqn:E0; [..|].
    2:{ apply s_mp_cmp_d_zero in E0; done. }
    all: rewrite Hs; simpl neg_sign; unfold is_digit in *; rewrite u64_small by (unfold is_digit; lia);
      (eapply rep_norm_mag; [apply (single_norm ZPOS); unfold is_digit; lia|simpl; lia]).
  - assert (d ≤ mag a) as Hle by (destruct H as [(_ & ? & _)|(_ & ?)]; lia).
    destruct (s_mp_sub_d_spec a d Ha Hd Hle) as (c & E & Hc). rewrite Hs in Hc. exists (zero_pos c). split.
    + destruct H as [(-> & _)|(-> & _)]; by rewrite E.
    + eapply rep_norm_mag; [by apply zero_pos_norm|simpl; lia].
Qed.

Lemma mp_sub_d_spec a d : mp_norm a → is_digit d → ∃ c, mp_sub_d a d = Ok c ∧ rep c (val a - d).
Proof.
  intros Ha Hd. unfold mp_sub_d, val. destruct (sign a) eqn:Hs.
  2:{ eexists. split; [done|]. pose proof (s_mp_add_d_spec a d Ha Hd) as H. rewrite Hs in H.
      eapply rep_norm_mag; [by apply zero_pos_norm|simpl; lia]. }
  destruct (cmp_d_cases a d Ha Hd) as [(-> & Hc & Hdp)|H].
  - cbn [mbind res_bind]. eexists. split; [done|]. unfold mp_neg. cbn [dp sign]. rewrite Hdp.
    change ([mag a] !!! 0%nat) with (mag a). simpl (<[_ := _]> _). pose proof (mag_range a (proj1 Ha)).
    unfold is_digit in *. rewrite u64_small by (unfold is_digit; lia).
    eapply rep_norm_mag; [apply (single_norm NEG); unfold is_digit; lia|simpl; lia].
  - assert (d ≤ mag a) as Hle by (destruct H as [(_ & ? & _)|(_ & ?)]; lia).
    destruct (s_mp_sub_d_spec a d Ha Hd Hle) as (c & E & Hc). rewrite Hs in Hc. exists (zero_pos c). split.
    + destruct H as [(-> & _)|(-> & _)]; by rewrite E.
    + eapply rep_norm_mag; [by apply zero_pos_norm|simpl; lia].
Qed.

Lemma mp_mul_val a b : mp_norm a → mp_norm b → ∃ c, mp_mul a b = Ok c ∧ rep c (val a * val b).
Proof.
  intros Ha Hb. destruct (mp_mul_spec a b (proj1 Ha) (proj1 Hb)) as (c & -> & Hc). exists c. split; [done|].
  eapply rep_norm_mag; [exact Hc|]. apply signed_mul.
Qed.

Lemma mp_sqr_val a : mp_norm a → ∃ c, mp_sqr a = Ok c ∧ rep c (val a * val a).
Proof.
  intros Ha. destruct (mp_sqr_spec a (proj1 Ha)) as (c & -> & Hc). exists c. split; [done|].
  eapply rep_norm_mag; [exact Hc|]. unfold val. simpl. destruct (sign a); lia.
Qed.

(** ** Residues *)

Lemma mp_div_val a b : mp_norm a → mp_norm b → val b ≠ 0 →
  ∃ q r, mp_div a b = Ok (q, r) ∧ rep q (Z.quot (val a) (val b)) ∧ rep r (Z.rem (val a) (val b)).
Proof.
  intros Ha Hb H0. pose proof (mag_range a (proj1 Ha)). pose proof (mag_range b (proj1 Hb)).
  assert (mag b ≠ 0) as Hb0 by (unfold val in H0; destruct (sign b); lia).
  destruct (mp_div_spec a b Ha Hb Hb0) as (q & r & -> & Hq & Hr). exists q, r. split; [done|].
  rewrite <- (Z.quot_div_nonneg (mag a) (mag b)) in Hq by lia.
  rewrite <- (Z.rem_mod_nonneg (mag a) (mag b)) in Hr by lia.
  split; [eapply rep_norm_mag; [exact Hq|]|eapply rep_norm_mag; [exact Hr|]];
    unfold val, sign_mul; destruct (sign a), (sign b); simpl;
    rewrite ?Z.quot_opp_l, ?Z.quot_opp_r, ?Z.rem_opp_l, ?Z.rem_opp_r, ?Z.opp_involutive by lia; done.
Qed.

Lemma mp_mod_spec a m : mp_norm a → mp_norm m → 0 < val m → ∃ c, mp_mod a m = Ok c ∧ rep c (val a mod val m).
Proof.
  intros Ha Hm Hpos. destruct (rep_nonneg m (val m) (conj Hm eq_refl) ltac:(lia)) as [Emag Esgn].
  pose proof (mag_range a (proj1 Ha)) as Hra. unfold mp_mod. rewrite Esgn.
  destruct (s_mp_cmp_norm a m Ha Hm) as [[-> Hc]|[[-> Hc]|[-> Hc]]].
  - rewrite mp_cmp_z_spec by done. destruct (Z.compare_spec (val a) 0) as [Hz|Hz|Hz]; simpl cmp_of; cbn iota.
    + exists a. split; [done|]. split; [done|]. rewrite Z.mod_small; lia.
    + destruct (mp_add_spec a m Ha Hm) as (c & -> & Hcr). exists c. split; [done|].
      replace (val a mod val m) with (val a + val m); [done|].
      unfold val at 1 in Hz. unfold val at 1 3. destruct (sign a); [lia|].
      apply Z.mod_unique with (-1); [left|]; lia.
    + exists a. split; [done|]. split; [done|]. unfold val at 1 in Hz. rewrite Z.mod_small; [done|].
      unfold val at 1 2. destruct (sign a); lia.
  - exists mp_zero. split; [done|]. eapply rep_norm_mag; [apply (mp_zero_norm ZPOS)|]. simpl.
    symmetry. apply Z.mod_divide; [lia|]. unfold val at 2. destruct (sign a).
    + exists 1. lia.
    + exists (-1). lia.
  - destruct (mp_div_val a m Ha Hm ltac:(lia)) as (q & r & -> & _ & [Hr Er]). cbn [mbind res_bind].
    pose proof (Z.rem_bound_abs (val a) (val m) ltac:(lia)).
    pose proof (Z.quot_rem (val a) (val m) ltac:(lia)) as E.
    pose proof (mag_range r (proj1 Hr)). destruct (sign r) eqn:Hs.
    + exists r. split; [done|]. split; [done|]. unfold val at 1. rewrite Hs.
      unfold val in Er at 1. rewrite Hs in Er. rewrite Er.
      apply Z.mod_unique with (Z.quot (val a) (val m)); [left|]; lia.
    + destruct (mp_add_spec r m Hr Hm) as (c & -> & Hcr). exists c. split; [done|].
      replace (val a mod val m) with (val r + val m); [done|].
      assert (val r < 0) by (unfold val; rewrite Hs; destruct (decide (mag r = 0)) as [Hz|]; [apply Hr in Hz; congruence|lia]).
      apply Z.mod_unique with (Z.quot (val a) (val m) - 1); [left|]; lia.
Qed.

(** ** Barrett reduction *)

(** The quotient estimate is at most two too small (HAC, 14.42-14.43). *)
Lemma barrett_bounds (P R m x : Z) : 0 < P → 0 < R → P ≤ m → 0 ≤ x < P * R →
  let mu := P * R / m in
  let q3 := (x / P * mu) / R in
  0 ≤ q3 ∧ 0 ≤ x - q3 * m < 3 * m.
Proof.
  intros HP HR Hm Hx mu q3.
  pose proof (Z.div_mod x P ltac:(lia)) as E1. pose proof (Z.mod_pos_bound x P ltac:(lia)) as B1.
  pose proof (Z.div_mod (P * R) m ltac:(lia)) as E2. pose proof (Z.mod_pos_bound (P * R) m ltac:(lia)) as B2.
  pose proof (Z.div_mod (x / P * mu) R ltac:(lia)) as E3. pose proof (Z.mod_pos_bound (x / P * mu) R ltac:(lia)) as B3.
  fold mu in E2. fold q3 in E3. set (q1 := x / P) in *. set (x0 := x mod P) in *. set (s := (P * R) mod m) in *.
  set (t := (q1 * mu) mod R) in *.
  assert (0 ≤ q1) by (apply Z.div_pos; lia). assert (0 ≤ mu) by (apply Z.div_pos; nia).
  assert (0 ≤ q3) by (apply Z.div_pos; nia). assert (q1 < R) by nia.
  split; [done|].
  assert (q1 * mu * m = q1 * (P * R) - q1 * s) as Ea by (rewrite E2; ring).
  assert (q1 * mu * m = R * q3 * m + t * m) as Eb by (rewrite E3; ring).
  assert (R * x = q1 * (P * R) + R * x0) as Ec by (rewrite E1; ring).
  assert (R * (x - q3 * m) = t * m + q1 * s + R * x0) as Ed by lia.
  assert (0 ≤ t * m) by nia. assert (t * m ≤ R * m - m) by nia. assert (0 ≤ q1 * s) by nia.
  assert (q1 * s ≤ R * m) by nia. assert (0 ≤ R * x0) by nia. assert (R * x0 ≤ R * m) by nia.
  split; nia.
Qed.

Lemma reduce_loop_spec fuel x m : mp_norm m → 0 < val m → rep x (val x) → 0 ≤ val x < Z.of_nat fuel * val m →
  ∃ r, reduce_loop fuel x m = Ok r ∧ rep r (val x mod val m).
Proof.
  intros Hm Hpos. revert x. induction fuel as [|fuel IH]; intros x [Hx _] Hr; [lia|]. cbn [reduce_loop].
  rewrite mp_cmp_spec by done. destruct (rep_nonneg m (val m) (conj Hm eq_refl) ltac:(lia)) as [Em Es].
  destruct (rep_nonneg x (val x) (conj Hx eq_refl) ltac:(lia)) as [Exm Exs].
  destruct (decide (val x < val m)) as [Hlt|Hge].
  - rewrite (proj2 (Z.compare_lt_iff _ _) Hlt). simpl. exists x. split; [done|]. split; [done|]. rewrite Z.mod_small; lia.
  - destruct (s_mp_sub_spec x m Hx Hm ltac:(lia)) as (y & E & Hy). rewrite Exs in Hy.
    assert (val y = val x - val m) as Ey by (rewrite (norm_mag_val _ _ _ Hy); simpl; lia).
    destruct (IH y) as (r & Er & Hrr); [split; [apply Hy|done]|lia|].
    exists r. split.
    + destruct (Z.compare_spec (val x) (val m)); simpl; try lia; rewrite E; exact Er.
    + replace (val x mod val m) with (val y mod val m); [done|]. rewrite Ey.
      replace (val x - val m) with (val x + (-1) * val m) by lia. by rewrite Z.mod_add by lia.
Qed.

(** radix^p as an [mp_int]. *)
Lemma lshd_one p : norm_mag (s_mp_lshd (mp_set 1) p) ZPOS (B ^ Z.of_nat p).
Proof.
  unfold s_mp_lshd. destruct (Nat.eqb_spec p 0) as [->|Hp].
  - split_and!; [|done|done]. apply mk_norm; [|done|left; simpl; lia|done].
    constructor; [apply bit_digit; by right|done].
  - cbn. assert (eval (replicate p 0 ++ [1]) = B ^ p) as He by (rewrite eval_snoc, eval_zeros, length_replicate; lia).
    split_and!; [|done|done]. apply mk_norm; [|by destruct p| |done].
    + apply Forall_app; split; [auto with nss|]. constructor; [apply bit_digit; by right|done].
    + right. rewrite He, length_app, length_replicate. simpl length.
      by replace (p + 1 - 1)%nat with p by lia.
Qed.

Lemma pow_B_2d n : 2 ^ (MP_DIGIT_BIT * Z.of_nat n) = B ^ Z.of_nat n.
Proof. unfold MP_DIGIT_BIT, B. rewrite <- Z.pow_mul_r by lia. done. Qed.

Lemma norm_mag_pos m v : norm_mag m ZPOS v → sign m = ZPOS.
Proof. intros (H1 & H2 & H3). destruct (decide (v = 0)) as [->|Hv]; [by apply H1|by apply H3]. Qed.

Lemma rshd_pos m p : sign m = ZPOS → sign (s_mp_rshd m p) = ZPOS.
Proof. intros Hs. unfold s_mp_rshd. by destruct (Nat.eqb p 0), (Nat.leb (used m) p). Qed.

Lemma s_mp_rshd_norm m p : mp_norm m → mp_norm (s_mp_rshd m p) ∧ mag (s_mp_rshd m p) = mag m / B ^ Z.of_nat p.
Proof.
  intros Hm. destruct (s_mp_rshd_spec m p (proj1 Hm)) as (Hok & Hmag & Hs). split; [|done]. revert Hok Hmag Hs.
  unfold s_mp_rshd. destruct (Nat.eqb_spec p 0) as [->|Hp]; [done|].
  destruct (Nat.leb_spec (used m) p) as [Hle|Hgt]; intros Hok Hmag _; (split; [done|]).
  - split; [left; simpl; lia|done].
  - destruct (drop_norm m p Hm Hgt) as ((_ & Hc & _) & Hv & _). split; [exact Hc|]. intros H0.
    change (mag (mk_mp ZPOS (drop p (dp m))) = 0) in H0. rewrite Hv in H0.
    assert (mag m < B ^ p) as Hlt.
    { pose proof (Z.div_mod (mag m) (B ^ p) ltac:(pose proof (B_pow p); lia)) as E.
      pose proof (Z.mod_pos_bound (mag m) (B ^ p) (B_pow p)). rewrite H0 in E. lia. }
    destruct (norm_lower m Hm) as [|Hlow]; [lia|].
    assert (B ^ p ≤ B ^ (used m - 1)%nat) by (apply Z.pow_le_mono_r; [apply B_pos|lia]). lia.
Qed.

Lemma nonneg_norm_mag x : mp_norm x → sign x = ZPOS → norm_mag x ZPOS (mag x).
Proof. intros Hx Hs. rewrite <- Hs at 1. by apply norm_mag_self. Qed.

(** A difference known to lie in [0, R) from its operands modulo R. *)
Lemma barrett_wrap x y R : 0 ≤ x - y → x - y < R →
  (0 ≤ x mod R - y mod R ∧ x mod R - y mod R = x - y) ∨ (x mod R - y mod R < 0 ∧ x mod R - y mod R + R = x - y).
Proof.
  intros H1 H2. pose proof (Z.mod_pos_bound x R ltac:(lia)). pose proof (Z.mod_pos_bound y R ltac:(lia)).
  pose proof (Z.div_mod x R ltac:(lia)) as Ex. pose proof (Z.div_mod y R ltac:(lia)) as Ey.
  assert (x / R = y / R ∨ x / R = y / R + 1) as [E|E] by nia; rewrite E in Ex; [left|right]; lia.
Qed.

Lemma s_mp_reduce_spec x m mu : mp_norm x → mp_norm m → mp_norm mu → 0 < val m → 0 ≤ val x < B ^ (2 * used m)%nat →
  val mu = B ^ (2 * used m)%nat / val m → ∃ r, s_mp_reduce x m mu = Ok r ∧ rep r (val x mod val m).
Proof.
  intros Hx Hm Hmu Hpos Hxr Emu. pose proof (mp_ok_used m (proj1 Hm)) as Hu. set (k := used m) in *.
  destruct (rep_nonneg m (val m) (conj Hm eq_refl) ltac:(lia)) as [Em Esm].
  destruct (rep_nonneg x (val x) (conj Hx eq_refl) ltac:(lia)) as [Ex Esx].
  assert (0 ≤ val mu) as Hmu0 by (rewrite Emu; apply Z.div_pos; [pose proof (B_pow (2 * k)); lia|lia]).
  destruct (rep_nonneg mu (val mu) (conj Hmu eq_refl) Hmu0) as [Eu Esu].
  pose proof (B_pow (k - 1)) as HP. pose proof (B_pow (k + 1)) as HR.
  set (P := B ^ (k - 1)%nat) in *. set (R := B ^ (k + 1)%nat) in *.
  assert (B ^ (2 * k)%nat = P * R) as E2k by (unfold P, R; rewrite <- Z.pow_add_r by lia; f_equal; lia).
  assert (P ≤ val m < B * P) as HmP.
  { pose proof (mag_range m (proj1 Hm)) as Hr. fold k in Hr. replace k with (S (k - 1)) in Hr by lia.
    rewrite B_pow_S in Hr. fold P in Hr. destruct (norm_lower m Hm) as [Hl|Hl]; fold k in Hl; [|fold P in Hl; lia].
    unfold P in *. replace (k - 1)%nat with O in * by lia. rewrite Z.pow_0_r in *. lia. }
  assert (R = B * (B * P)) as ERP.
  { unfold R, P. replace (k + 1)%nat with (S (S (k - 1))) by lia. by rewrite !B_pow_S. }
  rewrite E2k in *. destruct (barrett_bounds P R (val m) (val x)) as [Hq3 Hd]; [lia..|]. rewrite <- Emu in Hq3, Hd.
  set (q3 := (val x / P * val mu) / R) in *.
  unfold s_mp_reduce. fold k.
  destruct (s_mp_rshd_spec x (k - 1) (proj1 Hx)) as (Q1ok & Q1m & _). fold P in Q1m.
  pose proof (rshd_pos x (k - 1) Esx) as Q1s.
  destruct (mp_mul_spec _ mu Q1ok (proj1 Hmu)) as (q2 & E2 & Hq2). unfold s_mp_mul. rewrite E2. cbn [mbind res_bind].
  rewrite Q1s, Esu, Q1m, Ex, Eu in Hq2. change (sign_mul ZPOS ZPOS) with ZPOS in Hq2.
  destruct (s_mp_rshd_spec q2 (k + 1) (proj1 (proj1 Hq2))) as (Q3ok & Q3m & _). fold R in Q3m.
  pose proof (rshd_pos q2 (k + 1) (norm_mag_pos _ _ Hq2)) as Q3s.
  rewrite (proj1 (proj2 Hq2)) in Q3m. fold q3 in Q3m.
  replace (MP_DIGIT_BIT * (Z.of_nat k + 1)) with (MP_DIGIT_BIT * Z.of_nat (k + 1)) by lia.
  assert (0 ≤ MP_DIGIT_BIT * Z.of_nat (k + 1)) as Hbits by (unfold MP_DIGIT_BIT; lia).
  pose proof (s_mp_mod_2d_spec x _ Hx Hbits) as Hxm. rewrite pow_B_2d, Esx, Ex in Hxm. fold R in Hxm.
  destruct (mp_mul_spec _ m Q3ok (proj1 Hm)) as (q4 & E4 & Hq4). cbn zeta. rewrite E4. cbn [mbind res_bind].
  rewrite Q3s, Esm, Q3m, Em in Hq4. change (sign_mul ZPOS ZPOS) with ZPOS in Hq4.
  pose proof (s_mp_mod_2d_spec q4 _ (proj1 Hq4) Hbits) as Hq5.
  rewrite pow_B_2d, (norm_mag_pos _ _ Hq4), (proj1 (proj2 Hq4)) in Hq5. fold R in Hq5.
  destruct (mp_sub_spec _ _ (proj1 Hxm) (proj1 Hq5)) as (y & -> & Hy). cbn [mbind res_bind].
  rewrite (norm_mag_val _ _ _ Hxm), (norm_mag_val _ _ _ Hq5) in Hy. simpl signed in Hy.
  pose proof (barrett_wrap (val x) (q3 * val m) R ltac:(lia) ltac:(unfold B in *; lia)) as Hwrap.
  set (w := val x mod R - (q3 * val m) mod R) in *. destruct Hy as [Hyn Hyv].
  assert (∃ z, match mp_cmp_z y with MP_LT => mp_add y (s_mp_lshd (mp_set 1) (k + 1)) | _ => Ok y end = Ok z ∧
    rep z (val x - q3 * val m)) as (z & -> & [Hzn Hzv]).
  { rewrite mp_cmp_z_spec, Hyv by done. destruct (Z.compare_spec w 0) as [Hw|Hw|Hw]; simpl cmp_of; cbn iota.
    - exists y. split; [done|]. split; [done|]. destruct Hwrap as [[? ?]|[? ?]]; lia.
    - destruct (mp_add_spec y (s_mp_lshd (mp_set 1) (k + 1)) Hyn (proj1 (lshd_one (k + 1)))) as (z & Ez & Hz).
      rewrite (norm_mag_val _ _ _ (lshd_one (k + 1))) in Hz. simpl signed in Hz. fold R in Hz.
      exists z. split; [exact Ez|]. rewrite Hyv in Hz. destruct Hwrap as [[? ?]|[? E]]; [lia|]. rewrite <- E. done.
    - exists y. split; [done|]. split; [done|]. destruct Hwrap as [[? ?]|[? ?]]; lia. }
  cbn [mbind res_bind]. destruct (reduce_loop_spec 3 z m Hm Hpos) as (r & -> & Hr); [done|lia|].
  exists r. split; [done|]. rewrite Hzv in Hr.
  replace (val x - q3 * val m) with (val x + (- q3) * val m) in Hr by lia. by rewrite Z.mod_add in Hr by lia.
Qed.

(** ** Square and multiply *)

Section PowerSpec.
Context (mul : mp_int → mp_int → mp_res mp_int) (sqr : mp_int → mp_res mp_int).
(** What [s] and [x] stand for. *)
Context (Rs Rx : mp_int → Z → Prop).
Hypothesis mul_ok : ∀ s x u v, Rs s u → Rx x v → ∃ r, mul s x = Ok r ∧ Rs r (u * v).
Hypothesis sqr_ok : ∀ x v, Rx x v → ∃ r, sqr x = Ok r ∧ Rx r (v * v).

Lemma power_step_spec d s x u v : 0 ≤ d → Rs s u → Rx x v →
  ∃ s' x', power_step mul sqr d s x = Ok (s', x') ∧ Rs s' (u * v ^ (d mod 2)) ∧ Rx x' (v * v).
Proof.
  intros Hd Hs Hx. unfold power_step. change 1 with (Z.ones 1). rewrite Z.land_ones by lia. change (2 ^ 1) with 2.
  destruct (sqr_ok x v Hx) as (x' & Ex & Hx'). pose proof (Z.mod_pos_bound d 2 ltac:(lia)).
  destruct (Z.eqb_spec (d mod 2) 0) as [E|E].
  - cbn [mbind res_bind]. rewrite Ex. exists s, x'. rewrite E, Z.pow_0_r, Z.mul_1_r. done.
  - destruct (mul_ok s x u v Hs Hx) as (s' & -> & Hs'). cbn [mbind res_bind]. rewrite Ex.
    exists s', x'. assert (d mod 2 = 1) as -> by lia. rewrite Z.pow_1_r. done.
Qed.

Lemma pow_half v d : 0 ≤ d → v ^ (d mod 2) * (v * v) ^ (d / 2) = v ^ d.
Proof.
  intros Hd. pose proof (Z.mod_pos_bound d 2 ltac:(lia)). assert (0 ≤ d / 2) by (apply Z.div_pos; lia).
  rewrite <- Z.pow_2_r, <- Z.pow_mul_r, <- Z.pow_add_r by lia. f_equal.
  pose proof (Z.div_mod d 2 ltac:(lia)). lia.
Qed.

Lemma power_while_spec fuel : ∀ d s x u v, 0 ≤ d < 2 ^ Z.of_nat fuel → Rs s u → Rx x v →
  ∃ s' x', power_while mul sqr fuel d s x = Ok (s', x') ∧ Rs s' (u * v ^ d).
Proof.
  induction fuel as [|fuel IH]; intros d s x u v Hd Hs Hx; cbn [power_while].
  - assert (d = 0) as -> by (simpl in Hd; lia). exists s, x. rewrite Z.pow_0_r, Z.mul_1_r. done.
  - destruct (Z.eqb_spec d 0) as [->|Hne].
    { exists s, x. rewrite Z.pow_0_r, Z.mul_1_r. done. }
    destruct (power_step_spec d s x u v ltac:(lia) Hs Hx) as (s1 & x1 & -> & Hs1 & Hx1). cbn [mbind res_bind].
    rewrite Z.shiftr_div_pow2 by lia. change (2 ^ 1) with 2. rewrite Nat2Z.inj_succ, Z.pow_succ_r in Hd by lia.
    destruct (IH (d / 2) s1 x1 _ _ ltac:(split; [apply Z.div_pos; lia|apply Z.div_lt_upper_bound; lia]) Hs1 Hx1)
      as (s2 & x2 & -> & Hs2).
    exists s2, x2. split; [done|]. by rewrite <- Z.mul_assoc, pow_half in Hs2 by lia.
Qed.

Lemma power_bits_spec n : ∀ d s x u v, 0 ≤ d < 2 ^ Z.of_nat n → Rs s u → Rx x v →
  ∃ s' x', power_bits mul sqr n d s x = Ok (s', x') ∧ Rs s' (u * v ^ d) ∧ Rx x' (v ^ (2 ^ Z.of_nat n)).
Proof.
  induction n as [|n IH]; intros d s x u v Hd Hs Hx; cbn [power_bits].
  - assert (d = 0) as -> by (simpl in Hd; lia). exists s, x. simpl Z.of_nat. rewrite !Z.pow_0_r, Z.mul_1_r, Z.pow_1_r. done.
  - destruct (power_step_spec d s x u v ltac:(lia) Hs Hx) as (s1 & x1 & -> & Hs1 & Hx1). cbn [mbind res_bind].
    rewrite Z.shiftr_div_pow2 by lia. change (2 ^ 1) with 2. rewrite Nat2Z.inj_succ, Z.pow_succ_r in * by lia.
    destruct (IH (d / 2) s1 x1 _ _ ltac:(split; [apply Z.div_pos; lia|apply Z.div_lt_upper_bound; lia]) Hs1 Hx1)
      as (s2 & x2 & -> & Hs2 & Hx2).
    exists s2, x2. split; [done|]. rewrite <- Z.mul_assoc, pow_half in Hs2 by lia. split; [done|].
    rewrite <- Z.pow_2_r, <- Z.pow_mul_r in Hx2 by lia. done.
Qed.

Lemma power_digits_spec l : digits l → ∀ s x u v, Rs s u → Rx x v →
  ∃ s' x', power_digits mul sqr l s x = Ok (s', x') ∧ Rs s' (u * v ^ eval l).
Proof.
  induction 1 as [|d l Hd Hl IH]; intros s x u v Hs Hx.
  { exists s, x. simpl. rewrite Z.mul_1_r. done. }
  unfold is_digit in Hd. destruct l as [|e l].
  - destruct (power_while_spec 64 d s x u v Hd Hs Hx) as (s' & x' & E & Hs'). exists s', x'.
    split; [exact E|]. cbn [eval]. by rewrite Z.mul_0_r, Z.add_0_r.
  - destruct (power_bits_spec 64 d s x u v Hd Hs Hx) as (s1 & x1 & E & Hs1 & Hx1).
    destruct (IH s1 x1 _ _ Hs1 Hx1) as (s2 & x2 & E2 & Hs2). exists s2, x2. split.
    + change (power_digits mul sqr (d :: e :: l) s x) with
        ('(s, x) ← power_bits mul sqr 64 d s x; power_digits mul sqr (e :: l) s x).
      rewrite E. exact E2.
    + pose proof (eval_range (e :: l) Hl). set (r := eval (e :: l)) in *.
      change (eval (d :: e :: l)) with (d + B * r). pose proof B_pos. assert (0 ≤ B * r) by nia.
      rewrite Z.pow_add_r, (Z.pow_mul_r v B r), Z.mul_assoc by lia. exact Hs2.
Qed.
End PowerSpec.

Lemma rep_one : rep (mp_set 1) 1.
Proof.
  split; [|done]. apply mk_norm; [|done|left; simpl; lia|done]. constructor; [apply bit_digit; by right|done].
Qed.

Lemma mul_rep s x u v : rep s u → rep x v → ∃ r, s_mp_mul s x = Ok r ∧ rep r (u * v).
Proof. intros [Hs <-] [Hx <-]. by apply mp_mul_val. Qed.
Lemma sqr_rep x v : rep x v → ∃ r, s_mp_sqr x = Ok r ∧ rep r (v * v).
Proof. intros [Hx <-]. by apply mp_sqr_val. Qed.

Lemma mp_expt_d_spec a d : mp_norm a → is_digit d → ∃ c, mp_expt_d a d = Ok c ∧ rep c (val a ^ d).
Proof.
  intros Ha Hd. unfold mp_expt_d.
  destruct (power_while_spec s_mp_mul s_mp_sqr rep rep mul_rep sqr_rep 64 d (mp_set 1) a 1 (val a) Hd rep_one)
    as (s & x & -> & Hs); [done|]. exists s. by rewrite Z.mul_1_l in Hs.
Qed.

Lemma s_mp_exptmod_spec a b m : mp_norm a → mp_norm b → mp_norm m → 0 ≤ val b → 1 < val m →
  ∃ c, s_mp_exptmod a b m = Ok c ∧ rep c (val a ^ val b mod val m).
Proof.
  intros Ha Hb Hm Hb0 Hm1. unfold s_mp_exptmod. rewrite !mp_cmp_z_spec by done.
  assert (cmp_of (val b ?= 0) ≠ MP_LT) as Hbc by (destruct (Z.compare_spec (val b) 0); done || lia).
  assert (cmp_of (val m ?= 0) = MP_GT) as -> by (destruct (Z.compare_spec (val m) 0); done || lia).
  destruct (mp_mod_spec a m Ha Hm ltac:(lia)) as (x & Ex & [Hxn Hxv]).
  change (s_mp_add_d mp_zero 1) with (mp_set 1).
  pose proof (lshd_one (2 * used m)) as Hone.
  destruct (mp_div_val (s_mp_lshd (mp_set 1) (2 * used m)) m (proj1 Hone) Hm ltac:(lia)) as (mu & r & Emu & [Hmun Hmuv] & _).
  rewrite (norm_mag_val _ _ _ Hone) in Hmuv. cbn [signed] in Hmuv.
  rewrite Z.quot_div_nonneg in Hmuv by (pose proof (B_pow (2 * used m)); lia).
  set (R := fun (y : mp_int) (v : Z) => rep y (v mod val m)).
  assert (∀ y v, 0 ≤ v < val m * val m → rep y v → ∃ r, s_mp_reduce y m mu = Ok r ∧ R r v) as Hred.
  { intros y v Hv [Hy Hyv]. unfold R. rewrite <- Hyv. apply s_mp_reduce_spec; try done; [lia|].
    destruct (rep_nonneg m (val m) (conj Hm eq_refl) ltac:(lia)) as [Emag _].
    pose proof (mag_range m (proj1 Hm)) as Hr. rewrite Emag in Hr.
    rewrite Nat2Z.inj_mul, (Z.mul_comm (Z.of_nat 2)), Z.pow_mul_r by lia. change (Z.of_nat 2) with 2. rewrite Z.pow_2_r. nia. }
  assert (∀ v w, 0 ≤ (v mod val m) * (w mod val m) < val m * val m) as Hmm.
  { intros v w. pose proof (Z.mod_pos_bound v (val m) ltac:(lia)). pose proof (Z.mod_pos_bound w (val m) ltac:(lia)). nia. }
  destruct (power_digits_spec (fun s x => s ← s_mp_mul s x; s_mp_reduce s m mu) (fun x => x ← s_mp_sqr x; s_mp_reduce x m mu)
    R R) with (l := dp b) (s := mp_set 1) (x := x) (u := 1) (v := val a) as (s & x' & Ep & Hs).
  - intros y z u v Hy Hz. destruct (mul_rep y z _ _ Hy Hz) as (t & -> & Ht). cbn [mbind res_bind].
    destruct (Hred t _ (Hmm u v) Ht) as (t' & Et & Ht'). exists t'. split; [done|]. unfold R in *.
    by rewrite <- Zmult_mod in Ht'.
  - intros y v Hy. destruct (sqr_rep y _ Hy) as (t & -> & Ht). cbn [mbind res_bind].
    destruct (Hred t _ (Hmm v v) Ht) as (t' & Et & Ht'). exists t'. split; [done|]. unfold R in *.
    by rewrite <- Zmult_mod in Ht'.
  - apply Hb.
  - unfold R. rewrite Z.mod_small by lia. apply rep_one.
  - done.
  - exists s. split.
    + rewrite Ex. cbn [mbind res_bind]. rewrite Emu. cbn [mbind res_bind]. rewrite Ep. cbn [mbind res_bind].
      by destruct (cmp_of (val b ?= 0)).
    + unfold R in Hs. rewrite Z.mul_1_l in Hs. destruct (rep_nonneg b (val b) (conj Hb eq_refl) Hb0) as [Emb _].
      fold (mag b) in Hs. by rewrite Emb in Hs.
Qed.

Lemma mp_exptmod_d_spec a d m : mp_norm a → mp_norm m → is_digit d → 1 < val m →
  ∃ c, mp_exptmod_d a d m = Ok c ∧ rep c (val a ^ d mod val m).
Proof.
  intros Ha Hm Hd Hm1. unfold mp_exptmod_d.
  set (Rs := fun (y : mp_int) (v : Z) => rep y (v mod val m)).
  set (Rx := fun (y : mp_int) (v : Z) => mp_norm y ∧ val y mod val m = v mod val m).
  assert (∀ y, mp_norm y → ∃ r, mp_mod y m = Ok r ∧ rep r (val y mod val m)) as Hmod
    by (intros y Hy; apply mp_mod_spec; try done; lia).
  destruct (power_while_spec (fun s x => s ← s_mp_mul s x; mp_mod s m) (fun x => x ← s_mp_sqr x; mp_mod x m) Rs Rx)
    with (fuel := 64%nat) (d := d) (s := mp_set 1) (x := a) (u := 1) (v := val a) as (s & x' & -> & Hs).
  - intros y z u v Hy [Hz Ez]. destruct (mul_rep y z _ _ Hy (conj Hz eq_refl)) as (t & -> & [Ht Et]). cbn [mbind res_bind].
    destruct (Hmod t Ht) as (t' & -> & Ht'). exists t'. split; [done|]. unfold Rs.
    by rewrite Et, Zmult_mod, Z.mod_mod, Ez, <- Zmult_mod in Ht' by lia.
  - intros y v [Hy Ey]. destruct (sqr_rep y _ (conj Hy eq_refl)) as (t & -> & [Ht Et]). cbn [mbind res_bind].
    destruct (Hmod t Ht) as (t' & -> & [Ht' Et']). exists t'. split; [done|]. split; [done|].
    by rewrite Et', Et, Z.mod_mod, Zmult_mod, Ey, <- Zmult_mod by lia.
  - done.
  - unfold Rs. rewrite Z.mod_small by lia. apply rep_one.
  - done.
  - exists s. split; [done|]. unfold Rs in Hs. by rewrite Z.mul_1_l in Hs.
Qed.

(** ** The public operations compute integers *)

(** Decides [mp_norm]. *)
Definition mp_normb (m : mp_int) : bool :=
  forallb (fun d => (0 <=? d) && (d <? B)) (dp m) && Nat.ltb 0 (used m)
  && (Nat.leb (used m) 1 || negb (dp m !!! (used m - 1)%nat =? 0))
  && (negb (mag m =? 0) || match sign m with ZPOS => true | NEG => false end).

Lemma mp_normb_sound m : mp_normb m = true → mp_norm m.
Proof.
  unfold mp_normb. rewrite !andb_true_iff, !orb_true_iff. intros [[[H1 H2] H3] H4].
  apply Nat.ltb_lt in H2. assert (digits (dp m)) as Hd.
  { apply Forall_forall. intros x Hx. rewrite forallb_forall in H1. apply list_elem_of_In in Hx. specialize (H1 x Hx).
    unfold is_digit. lia. }
  assert (mp_ok m) as Hok by (split; [done|]; unfold used in H2; destruct (dp m); [simpl in H2; lia|done]).
  split; [done|split].
  - destruct H3 as [H3|H3]; [left; by apply Nat.leb_le in H3|right].
    exists (take (used m - 1) (dp m)), (dp m !!! (used m - 1)%nat). split.
    + destruct (lookup_lt_is_Some_2 (dp m) (used m - 1)) as [x Hx]; [unfold used in *; lia|].
      rewrite (list_lookup_total_correct _ _ _ Hx), <- (take_S_r _ _ _ Hx), take_ge; [done|unfold used in *; lia].
    + apply negb_true_iff, Z.eqb_neq in H3. done.
  - intros H0. destruct H4 as [H4|H4]; [rewrite H0 in H4; done|]. by destruct (sign m).
Qed.

(** mp_add and mp_sub on operands in normal form succeed and return the
    normal form of the exact sum and difference, whatever the signs. *)
Theorem mp_add_sub_correct a b : mp_norm a → mp_norm b →
  (∃ s, mp_add a b = Ok s ∧ mp_norm s ∧ val s = val a + val b) ∧
  (∃ d, mp_sub a b = Ok d ∧ mp_norm d ∧ val d = val a - val b).
Proof. intros Ha Hb. split; [by apply mp_add_spec|by apply mp_sub_spec]. Qed.

Lemma mp_add_sub_correct_witness :
  let a := mk_mp NEG [MP_DIGIT_MAX; 7] in
  let b := mk_mp ZPOS [1; 0; 3] in
  mp_norm a ∧ mp_norm b ∧ ∃ s, mp_add a b = Ok s ∧ val s = val a + val b.
Proof.
  cbn zeta. assert (mp_norm (mk_mp NEG [MP_DIGIT_MAX; 7])) as Ha by (apply mp_normb_sound; reflexivity).
  assert (mp_norm (mk_mp ZPOS [1; 0; 3])) as Hb by (apply mp_normb_sound; reflexivity).
  split; [exact Ha|]. split; [exact Hb|].
  destruct (mp_add_sub_correct _ _ Ha Hb) as [(s & E & _ & Ev) _]. exists s. exact (conj E Ev).
Defined.

(** [C10] Multiplication over the half-digit products and the constant-time
    comparison macros returns the exact product, and the separate squaring
    routine (cross products doubled, then squares of digits added) returns
    the same [mp_int] as multiplying the operand by itself. *)
Theorem mp_mul_sqr_correct a b : mp_norm a → mp_norm b →
  (∃ p, mp_mul a b = Ok p ∧ mp_norm p ∧ val p = val a * val b) ∧ mp_sqr a = mp_mul a a.
Proof.
  intros Ha Hb. split; [by apply mp_mul_val|].
  destruct (mp_sqr_val a Ha) as (s & -> & Hs). destruct (mp_mul_val a a Ha Ha) as (p & -> & Hp).
  f_equal. by apply (rep_unique _ _ (val a * val a)).
Qed.

Lemma mp_mul_sqr_correct_witness :
  let a := mk_mp NEG [MP_DIGIT_MAX; MP_DIGIT_MAX; 5] in
  mp_norm a ∧ mp_sqr a = mp_mul a a.
Proof.
  cbn zeta. assert (mp_norm (mk_mp NEG [MP_DIGIT_MAX; MP_DIGIT_MAX; 5])) as Ha by (apply mp_normb_sound; reflexivity).
  split; [exact Ha|]. exact (proj2 (mp_mul_sqr_correct _ _ Ha Ha)).
Defined.

(** [C8] Long division: for a nonzero divisor mp_div terminates without
    error and returns quotient and remainder truncated towards zero, both in
    normal form; a zero divisor is MP_RANGE. *)
Theorem mp_div_correct a b : mp_norm a → mp_norm b →
  if val b =? 0 then mp_div a b = Err MP_RANGE
  else ∃ q r, mp_div a b = Ok (q, r) ∧ mp_norm q ∧ mp_norm r ∧
         val q = Z.quot (val a) (val b) ∧ val r = Z.rem (val a) (val b).
Proof.
  intros Ha Hb. destruct (Z.eqb_spec (val b) 0) as [H0|H0].
  - unfold mp_div. rewrite mp_cmp_z_spec, H0 by done. done.
  - destruct (mp_div_val a b Ha Hb H0) as (q & r & E & [Q1 Q2] & [R1 R2]). by exists q, r.
Qed.

Lemma mp_div_correct_witness :
  let a := mk_mp NEG [1; 2; 3; 4; 5; MP_DIGIT_MAX] in
  let b := mk_mp ZPOS [MP_DIGIT_MAX; 7; 8; 1] in
  mp_norm a ∧ mp_norm b ∧ ∃ q r, mp_div a b = Ok (q, r) ∧ val q = Z.quot (val a) (val b).
Proof.
  cbn zeta. assert (mp_norm (mk_mp NEG [1; 2; 3; 4; 5; MP_DIGIT_MAX])) as Ha by (apply mp_normb_sound; reflexivity).
  assert (mp_norm (mk_mp ZPOS [MP_DIGIT_MAX; 7; 8; 1])) as Hb by (apply mp_normb_sound; reflexivity).
  split; [exact Ha|]. split; [exact Hb|].
  destruct (mp_div_correct _ _ Ha Hb) as (q & r & E & _ & _ & Eq & _). exists q, r. exact (conj E Eq).
Defined.

(** [C7] Modular exponentiation by square-and-multiply with Barrett
    reductions returns the exact residue a^b mod m in [0, m), for any base
    (negative too), any non-negative exponent and any modulus above 1; in
    particular every Barrett quotient estimate is corrected by at most two
    subtractions. *)
Theorem s_mp_exptmod_correct a b m : mp_norm a → mp_norm b → mp_norm m → 0 ≤ val b → 1 < val m →
  ∃ c, s_mp_exptmod a b m = Ok c ∧ mp_norm c ∧ val c = val a ^ val b mod val m.
Proof. intros. by apply s_mp_exptmod_spec. Qed.

Lemma s_mp_exptmod_correct_witness :
  let a := mk_mp ZPOS [12345678; 3] in
  let b := mk_mp ZPOS [5; 1] in
  let m := mk_mp ZPOS [7; 9] in
  mp_norm a ∧ mp_norm b ∧ mp_norm m ∧ ∃ c, s_mp_exptmod a b m = Ok c ∧ mp_norm c.
Proof.
  cbn zeta. assert (mp_norm (mk_mp ZPOS [12345678; 3])) as Ha by (apply mp_normb_sound; reflexivity).
  assert (mp_norm (mk_mp ZPOS [5; 1])) as Hb by (apply mp_normb_sound; reflexivity).
  assert (mp_norm (mk_mp ZPOS [7; 9])) as Hm by (apply mp_normb_sound; reflexivity).
  split; [exact Ha|]. split; [exact Hb|]. split; [exact Hm|].
  destruct (s_mp_exptmod_correct _ _ _ Ha Hb Hm) as (c & E & Hc & _); [done|done|]. exists c. exact (conj E Hc).
Defined.

(** ** Results that are not what the comments say *)

(** mp_expt returns the power in normal form, except that an even power
    of a negative base gets the sign of the base: (-2)^2 comes out as -4. *)
Theorem mp_expt_value a b : mp_norm a → mp_norm b → 0 ≤ val b →
  ∃ c, mp_expt a b = Ok c ∧
    val c = if (val a <? 0) && Z.even (val b) then - val a ^ val b else val a ^ val b.
Proof.
  intros Ha Hb Hb0. unfold mp_expt. rewrite mp_cmp_z_spec by done.
  assert (cmp_of (val b ?= 0) ≠ MP_LT) as Hbc by (destruct (Z.compare_spec (val b) 0); done || lia).
  destruct (power_digits_spec s_mp_mul s_mp_sqr rep rep mul_rep sqr_rep (dp b) ltac:(apply Hb) (mp_set 1) a 1 (val a) rep_one)
    as (s & x & E & [Hs Hv]); [done|].
  destruct (rep_nonneg b (val b) (conj Hb eq_refl) Hb0) as [Emb _]. fold (mag b) in Hv. rewrite Emb, Z.mul_1_l in Hv.
  exists (if mp_iseven b then mk_mp (sign a) (dp s) else s). split.
  { rewrite E. by destruct (cmp_of (val b ?= 0)). }
  assert (mp_iseven b = Z.even (val b)) as ->.
  { unfold mp_iseven. rewrite mp_isodd_spec, Emb by apply Hb. by rewrite Z.negb_odd. }
  pose proof (mag_range a (proj1 Ha)). pose proof (mag_range s (proj1 Hs)).
  destruct (Z.even (val b)) eqn:He; [|by rewrite andb_false_r]. rewrite andb_true_r.
  assert (0 ≤ val a ^ val b) as Hp by (apply Z.pow_even_nonneg; by apply Z.even_spec).
  assert (mag s = val a ^ val b) as Em by (unfold val at 1 in Hv; destruct (sign s); lia).
  unfold val at 1. change (mag (mk_mp (sign a) (dp s))) with (mag s). rewrite Em. cbn [sign].
  destruct (Z.ltb_spec (val a) 0) as [Hn|Hn]; destruct (sign a) eqn:Hsa; try done.
  - unfold val in Hn. rewrite Hsa in Hn. lia.
  - assert (mag a = 0) as Hz by (unfold val in Hn; rewrite Hsa in Hn; lia). apply Ha in Hz. congruence.
Qed.

Lemma mp_expt_value_witness :
  mp_norm (mk_mp NEG [2]) ∧ mp_norm (mk_mp ZPOS [2]) ∧
  ∃ c, mp_expt (mk_mp NEG [2]) (mk_mp ZPOS [2]) = Ok c ∧ val c = - 4.
Proof.
  assert (mp_norm (mk_mp NEG [2])) as Ha by (apply mp_normb_sound; reflexivity).
  assert (mp_norm (mk_mp ZPOS [2])) as Hb by (apply mp_normb_sound; reflexivity).
  split; [exact Ha|]. split; [exact Hb|].
  destruct (mp_expt_value _ _ Ha Hb) as (c & E & Ev); [done|]. exists c. exact (conj E Ev).
Defined.

(** mp_div_d divides magnitudes exactly.  The quotient keeps the sign of
    the dividend, except that it is never negative when the dividend has two
    or more digits and the divisor is not a power of two. *)
Theorem mp_div_d_value a d : mp_norm a → 0 < d < B →
  ∃ q r, mp_div_d a d = Ok (q, r) ∧ mp_norm q ∧ r = mag a mod d ∧
    val q = if (s_mp_ispow2d d <? 0) && Nat.ltb 1 (used a) then mag a / d else signed (sign a) (mag a / d).
Proof.
  intros Ha Hd. destruct (mp_div_d_spec a d Ha) as (q & r & E & Hq & Hm & Hr & Hs); [unfold is_digit; lia|lia|].
  exists q, r. split_and!; try done. unfold val. rewrite Hm in *.
  destruct (decide (mag a / d = 0)) as [Hz|Hz].
  - rewrite Hz. by destruct (sign q), (sign a), (_ && _).
  - rewrite (Hs Hz). by destruct (_ && _).
Qed.

Lemma mp_div_d_value_witness :
  mp_norm (mk_mp NEG [1; 2]) ∧
  ∃ q r, mp_div_d (mk_mp NEG [1; 2]) 3 = Ok (q, r) ∧ val q = 12297829382473034411.
Proof.
  assert (mp_norm (mk_mp NEG [1; 2])) as Ha by (apply mp_normb_sound; reflexivity).
  split; [exact Ha|]. destruct (mp_div_d_value _ 3 Ha) as (q & r & E & _ & _ & Ev); [done|].
  exists q, r. exact (conj E Ev).
Defined.

(** The residue mp_mod_d returns is a mod d only when |a| < d or a > d:
    for |a| = d it is d or 0 by the sign of a, and for a negative a with
    |a| > d it is |a| mod d. *)
Theorem mp_mod_d_value a d : mp_norm a → 0 < d < B →
  mp_mod_d a d = Ok (if mag a =? d then (match sign a with ZPOS => d | NEG => 0 end)
                     else if mag a <? d then val a mod d else mag a mod d).
Proof.
  intros Ha Hd. pose proof (mag_range a (proj1 Ha)). unfold mp_mod_d.
  assert (is_digit d) as Hdd by (unfold is_digit; lia).
  destruct (cmp_d_cases a d Ha Hdd) as [(-> & Hc & Hdp)|[(-> & Hc & Hdp)|(-> & Hc)]].
  - rewrite (proj2 (Z.eqb_neq _ _)), (proj2 (Z.ltb_lt _ _)) by lia. f_equal. rewrite Hdp.
    change ([mag a] !!! 0%nat) with (mag a). unfold val. destruct (sign a) eqn:Hs.
    + rewrite Z.mod_small; lia.
    + assert (mag a ≠ 0) by (intros Hz; apply Ha in Hz; congruence).
      rewrite u64_small by (unfold is_digit; lia). apply Z.mod_unique with (-1); lia.
  - rewrite (proj2 (Z.eqb_eq _ _)) by lia. f_equal. rewrite Hdp. change ([mag a] !!! 0%nat) with (mag a).
    destruct (sign a); [done|]. rewrite Hc, Z.sub_diag. done.
  - rewrite (proj2 (Z.eqb_neq _ _)), (proj2 (Z.ltb_ge _ _)) by lia.
    destruct (mp_div_d_spec a d Ha Hdd ltac:(lia)) as (q & r & -> & _ & _ & -> & _). done.
Qed.

Lemma mp_mod_d_value_witness : mp_norm (mk_mp ZPOS [5]) ∧ mp_mod_d (mk_mp ZPOS [5]) 5 = Ok 5.
Proof.
  assert (mp_norm (mk_mp ZPOS [5])) as Ha by (apply mp_normb_sound; reflexivity).
  split; [exact Ha|]. exact (mp_mod_d_value _ 5 Ha ltac:(split; reflexivity)).
Defined.
