(* ===== verification/MpiMont.v ===== *)
(** Montgomery arithmetic: lib/freebl/mpi/mpmontg.c (s_mp_redc, s_mp_mul_mont,
    mp_to_mont) and the constant-time variant of mpi.c (mp_subCT,
    mp_selectCT, mp_reduceCT, mp_mulmontmodCT).

    R is radix^n for an odd modulus N of n digits; [n0prime] is -1/N modulo
    the radix. *)

From stdpp Require Import base numbers list.
From S2P Require Import Prelude MpiBase MpiMul MpiDiv MpiArith.

(** ** Operations *)

(** T *= 2 - (P * T) *)
Definition invmod_newton (P T : Z) : Z := u64 (T * u64 (2 - u64 (P * T))).

Definition s_mp_invmod_radix (P : Z) : Z :=
  let T := P in
  let T := invmod_newton P T in
  let T := invmod_newton P T in
  let T := invmod_newton P T in
  let T := invmod_newton P T in
  let T := invmod_newton P T in
  invmod_newton P T.

Definition mp_calculate_mont_n0i (N : mp_int) : Z := u64 (0 - s_mp_invmod_radix (dp N !!! 0%nat)).

Record mp_mont_modulus := mk_mmm { mmN : mp_int; n0prime : Z }.

(** T += N * m_i * radix^i with m_i = T[i] * n0' *)
Definition mont_clear_digit (mmm : mp_mont_modulus) (i : nat) (T : list Z) : mp_res (list Z) :=
  let m_i := u64 (T !!! i * n0prime mmm) in
  at_offset i (s_mpv_mul_d_add_prop (dp (mmN mmm)) m_i) T.

(** Digits i, ..., i + k - 1. *)
Fixpoint mont_clear_loop (mmm : mp_mont_modulus) (k i : nat) (T : list Z) : mp_res (list Z) :=
  match k with
  | O => Ok T
  | S k => T ← mont_clear_digit mmm i T; mont_clear_loop mmm k (S i) T
  end.

(** Division by R and the final conditional subtraction. *)
Definition mont_finish (mmm : mp_mont_modulus) (s : mp_sign) (T : list Z) : mp_res mp_int :=
  let T := s_mp_rshd (s_mp_clamp (mk_mp s T)) (used (mmN mmm)) in
  match s_mp_cmp T (mmN mmm) with
  | MP_LT => Ok T
  | _ => s_mp_sub T (mmN mmm)
  end.

Definition s_mp_redc (T : mp_int) (mmm : mp_mont_modulus) : mp_res mp_int :=
  let n := used (mmN mmm) in
  let T' := pad_dp (dp T) (2 * n + 1) in
  l ← mont_clear_loop mmm n 0 T';
  mont_finish mmm (sign T) l.

(** Outer loop over the digits of [b] after the first. *)
Fixpoint mul_mont_loop (mmm : mp_mont_modulus) (a pb : list Z) (ib : nat) (c : list Z) : mp_res (list Z) :=
  match pb with
  | [] => Ok c
  | b_i :: pb =>
      c ← (if b_i =? 0 then Ok c else at_offset ib (s_mpv_mul_d_add_prop a b_i) c);
      c ← mont_clear_digit mmm ib c;
      mul_mont_loop mmm a pb (S ib) c
  end.

Definition s_mp_mul_mont (a b : mp_int) (mmm : mp_mont_modulus) : mp_res mp_int :=
  let '(a, b) := if Nat.ltb (used a) (used b) then (b, a) else (a, b) in
  let n := used (mmN mmm) in
  let ib := (2 * n + 1)%nat in
  let c := pad_dp [0] ib in
  match dp b with
  | [] => UB
  | b_0 :: pb =>
      c ← s_mpv_mul_d (dp a) b_0 c;
      let c := take (used a + 1) c ++ replicate (ib - (used a + 1)) 0 in
      c ← mont_clear_digit mmm 0 c;
      c ← mul_mont_loop mmm (dp a) pb 1 c;
      c ← mont_clear_loop mmm (n - used b) (used b) c;
      mont_finish mmm ZPOS c
  end.

Definition mp_to_mont (x N : mp_int) : mp_res mp_int :=
  '(_, r) ← mp_div (s_mp_lshd x (used N)) N; Ok r.

(** *** Constant time *)

(** (ret, borrow) *)
Definition s_mp_subCT_d (a b borrow : Z) : Z * Z :=
  let ret := u64 (u64 (a - b) - borrow) in
  (ret, Z.lor (MP_CT_LTU a ret) (Z.land (MP_CT_EQ a ret) borrow)).

Fixpoint subCT_loop (la lb : list Z) (borrow : Z) : list Z * Z :=
  match la, lb with
  | a :: la, b :: lb =>
      let '(ret, borrow) := s_mp_subCT_d a b borrow in
      let '(r, bo) := subCT_loop la lb borrow in (ret :: r, bo)
  | _, _ => ([], borrow)
  end.

(** The first used_a digits of a - b, and the borrow. *)
Definition mp_subCT (a b : mp_int) : list Z * Z :=
  subCT_loop (dp a) (pad_dp (dp b) (used a)) 0.

Definition mp_selectCT (cond : Z) (a b : list Z) : mp_res (list Z) :=
  let cond := u64 (cond * MP_DIGIT_MAX) in
  if Nat.eqb (length a) (length b) then Ok (zip_with (MP_CT_SEL cond) a b) else Err MP_BADARG.

(** s_mpv_mul_d_add_propCT at successive offsets. *)
Fixpoint reduceCT_loop (m : list Z) (n0i : Z) (k i : nat) (c : list Z) : mp_res (list Z) :=
  match k with
  | O => Ok c
  | S k =>
      let m_i := u64 (c !!! i * n0i) in
      c ← at_offset i (s_mpv_mul_d_add_propCT m m_i) c;
      reduceCT_loop m n0i k (S i) c
  end.

Definition mp_reduceCT (a m : mp_int) (n0i : Z) : mp_res mp_int :=
  let used_m := used m in
  let c := pad_dp (dp a) (used_m * 2 + 1) in
  c ← reduceCT_loop (dp m) n0i used_m 0 c;
  let c := dp (s_mp_rshd (mk_mp (sign a) c) used_m) in
  let carry := c !!! used_m in
  let c := take used_m c in
  let '(sub, borrow) := mp_subCT (mk_mp ZPOS c) m in
  r ← mp_selectCT (Z.lxor borrow carry) c sub;
  Ok (mk_mp (sign a) r).

Definition mp_mulmontmodCT (a b m : mp_int) (n0i : Z) : mp_res mp_int :=
  c ← mp_mulCT a b (used m);
  mp_reduceCT c m n0i.

(** ** Inverse of a digit *)

Lemma u64_eq_mod x : ∃ k, u64 x = x + k * B.
Proof. exists (- (x / B)). rewrite u64_B. pose proof (Z.div_mod x B ltac:(pose_B; lia)). lia. Qed.

Lemma newton_doubles n P T : 0 ≤ n → (2 ^ n | P * T - 1) →
  ∀ k, 0 ≤ k → k ≤ 2 * n → k ≤ 64 → (2 ^ k | P * invmod_newton P T - 1).
Proof.
  intros Hn [c Hc] k Hk Hk2 Hk64. unfold invmod_newton.
  destruct (u64_eq_mod (P * T)) as [k1 ->]. destruct (u64_eq_mod (2 - (P * T + k1 * B))) as [k2 ->].
  destruct (u64_eq_mod (T * (2 - (P * T + k1 * B) + k2 * B))) as [k3 ->].
  assert (B = 2 ^ (64 - k) * 2 ^ k) as HB by (unfold B; rewrite <- Z.pow_add_r by lia; f_equal; lia).
  assert (2 ^ n * 2 ^ n = 2 ^ (2 * n - k) * 2 ^ k) as Hnn by (rewrite <- !Z.pow_add_r by lia; f_equal; lia).
  assert (P * (T * (2 - (P * T + k1 * B) + k2 * B) + k3 * B) - 1 =
    - ((P * T - 1) * (P * T - 1)) + (P * T * k2 - P * T * k1 + P * k3) * B) as -> by ring.
  rewrite Hc. exists (- (c * c * 2 ^ (2 * n - k)) + (P * T * k2 - P * T * k1 + P * k3) * 2 ^ (64 - k)).
  replace (- (c * 2 ^ n * (c * 2 ^ n))) with (- (c * c) * (2 ^ n * 2 ^ n)) by ring. rewrite Hnn, HB at 1. ring.
Qed.

Lemma s_mp_invmod_radix_spec P : Z.odd P = true → is_digit P →
  is_digit (s_mp_invmod_radix P) ∧ (P * s_mp_invmod_radix P) mod B = 1.
Proof.
  intros Hodd HP. split; [apply u64_digit|].
  assert (2 ^ 3 | P * P - 1) as H3.
  { apply Z.odd_spec in Hodd as [h ->]. destruct (Z.Even_or_Odd h) as [[g ->]|[g ->]].
    - exists (2 * g * g + g). change (2 ^ 3) with 8. ring.
    - exists (2 * g * g + 3 * g + 1). change (2 ^ 3) with 8. ring. }
  assert (2 ^ 64 | P * s_mp_invmod_radix P - 1) as [c Hc].
  { unfold s_mp_invmod_radix.
    pose proof (newton_doubles 3 P P ltac:(lia) H3 6 ltac:(lia) ltac:(lia) ltac:(lia)) as H6.
    pose proof (newton_doubles 6 P _ ltac:(lia) H6 12 ltac:(lia) ltac:(lia) ltac:(lia)) as H12.
    pose proof (newton_doubles 12 P _ ltac:(lia) H12 24 ltac:(lia) ltac:(lia) ltac:(lia)) as H24.
    pose proof (newton_doubles 24 P _ ltac:(lia) H24 48 ltac:(lia) ltac:(lia) ltac:(lia)) as H48.
    pose proof (newton_doubles 48 P _ ltac:(lia) H48 64 ltac:(lia) ltac:(lia) ltac:(lia)) as H64.
    exact (newton_doubles 64 P _ ltac:(lia) H64 64 ltac:(lia) ltac:(lia) ltac:(lia)). }
  symmetry. apply Z.mod_unique with c; [left; unfold B; lia|]. fold B in Hc. lia.
Qed.

(** What the reductions need of modulus and n0'. *)
Definition mont_ok (mmm : mp_mont_modulus) : Prop :=
  mp_norm (mmN mmm) ∧ sign (mmN mmm) = ZPOS ∧ 0 < mag (mmN mmm) ∧ is_digit (n0prime mmm) ∧
  (mag (mmN mmm) * n0prime mmm + 1) mod B = 0.

Lemma mont_ok_n0i N : mp_norm N → sign N = ZPOS → Z.odd (mag N) = true → mont_ok (mk_mmm N (mp_calculate_mont_n0i N)).
Proof.
  intros HN Hs Hodd. pose proof HN as [[Hd Hne] _]. pose proof (mag_range N (proj1 HN)).
  split_and!; try done.
  - simpl. destruct (decide (mag N = 0)) as [E|]; [by rewrite E in Hodd|lia].
  - apply u64_digit.
  - simpl. unfold mp_calculate_mont_n0i, mag in *. destruct (dp N) as [|x l]; [done|].
    change ((x :: l) !!! 0%nat) with x. apply Forall_cons in Hd as [Hx _].
    assert (Z.odd x = true) as Hox by (cbn [eval] in Hodd; rewrite Z.odd_add, Z.odd_mul in Hodd; simpl in Hodd; by rewrite xorb_false_r in Hodd).
    destruct (s_mp_invmod_radix_spec x Hox Hx) as [_ Hinv]. set (i := s_mp_invmod_radix x) in *.
    destruct (u64_eq_mod (0 - i)) as [k ->]. cbn [eval].
    pose proof (Z.div_mod (x * i) B ltac:(pose_B; lia)) as E. rewrite Hinv in E.
    apply Z.mod_divide; [pose_B; lia|]. exists (- (x * i / B) + x * k + eval l * (0 - i + k * B)). lia.
Qed.

(** ** Clearing digits *)

Lemma head_digit l : l ≠ [] → digits l → (l !!! 0%nat) = eval l mod B.
Proof.
  destruct l as [|x l]; [done|]. intros _ Hl. apply Forall_cons in Hl as [Hx _]. cbn [eval].
  rewrite (Z.mul_comm B), Z.mod_add by (pose_B; lia). rewrite Z.mod_small by done. done.
Qed.

Lemma lookup_drop_head (l : list Z) i : (i < length l)%nat → l !!! i = drop i l !!! 0%nat.
Proof. intros Hi. rewrite !list_lookup_total_alt, lookup_drop. by rewrite Nat.add_0_r. Qed.

(** The multiple of N that clears the next digit. *)
Lemma mont_digit mmm x : mont_ok mmm → 
  let m := u64 (x * n0prime mmm) in is_digit m ∧ (x + mag (mmN mmm) * m) mod B = 0.
Proof.
  intros (_ & _ & _ & Hd & H0). split; [apply u64_digit|]. destruct (u64_eq_mod (x * n0prime mmm)) as [k Hk]. rewrite Hk.
  apply Z.mod_divide in H0 as [c Hc]; [|pose_B; lia]. apply Z.mod_divide; [pose_B; lia|].
  exists (x * c + mag (mmN mmm) * k).
  replace (x + mag (mmN mmm) * (x * n0prime mmm + k * B)) with (x * (mag (mmN mmm) * n0prime mmm + 1) + mag (mmN mmm) * k * B) by ring.
  rewrite Hc. ring.
Qed.

(** [at_offset] on a vector whose low digits stay. *)
Lemma at_offset_spec off f c r : f (drop off c) = Ok r → at_offset off f c = Ok (take off c ++ r).
Proof. intros H. unfold at_offset. by rewrite H. Qed.

(** State between steps: [i] low digits clear, value [v]. *)
Definition cleared (T : list Z) (len i : nat) (v : Z) : Prop :=
  digits T ∧ length T = len ∧ eval T = v ∧ v mod B ^ Z.of_nat i = 0.

Lemma add_at_spec a b i T len v : digits a → is_digit b → cleared T len i v → (i + length a ≤ len)%nat →
  v + B ^ Z.of_nat i * (eval a * b) < B ^ Z.of_nat len →
  ∃ T', at_offset i (s_mpv_mul_d_add_prop a b) T = Ok T' ∧ cleared T' len i (v + B ^ Z.of_nat i * (eval a * b)).
Proof.
  intros Ha Hb (Hd & Hl & He & Hz) Hlen Hlt. pose proof (B_pow i) as HBi.
  pose proof (eval_take_drop i T ltac:(lia)) as Htd. rewrite He in Htd.
  pose proof (eval_range (take i T) ltac:(by apply Forall_take)) as Hr. rewrite length_take, Nat.min_l in Hr by lia.
  assert (B ^ len = B ^ i * B ^ (len - i)%nat) as Hsplit by (rewrite <- Z.pow_add_r by lia; f_equal; lia).
  destruct (s_mpv_mul_d_add_prop_spec a b (drop i T) Ha Hb) as (r & Er & R1 & R2 & R3).
  - by apply Forall_drop.
  - rewrite length_drop. lia.
  - rewrite length_drop, Hl. nia.
  - rewrite length_drop, Hl in R2. rewrite (at_offset_spec i _ T r Er). eexists. split; [done|]. split_and!.
    + apply Forall_app; split; [by apply Forall_take|done].
    + rewrite length_app, length_take. lia.
    + rewrite eval_app, R3, length_take, Nat.min_l by lia. lia.
    + rewrite Z.add_mod, (Z.mul_comm (B ^ i)), Z.mod_mul, Hz by lia. done.
Qed.

Lemma mont_clear_digit_spec mmm i T len v : mont_ok mmm → cleared T len i v →
  (i + used (mmN mmm) ≤ len)%nat → v + B ^ Z.of_nat i * (mag (mmN mmm) * (B - 1)) < B ^ Z.of_nat len →
  ∃ T' m, mont_clear_digit mmm i T = Ok T' ∧ is_digit m ∧
    cleared T' len (S i) (v + B ^ Z.of_nat i * (mag (mmN mmm) * m)).
Proof.
  intros Hm HT Hlen Hlt. pose proof Hm as (HN & _ & Hpos & _ & _). pose proof HT as (Hd & Hl & He & Hz).
  pose proof (mp_ok_used (mmN mmm) (proj1 HN)) as Hu. pose proof (B_pow i) as HBi. pose_B.
  unfold mont_clear_digit. destruct (mont_digit mmm (T !!! i) Hm) as [Hmd Hm0]. cbn zeta in *.
  set (m := u64 (T !!! i * n0prime mmm)) in *. unfold is_digit in Hmd.
  destruct (add_at_spec (dp (mmN mmm)) m i T len v ltac:(apply HN) Hmd HT Hlen) as (T' & -> & (D1 & D2 & D3 & D4)).
  { fold (mag (mmN mmm)). nia. }
  fold (mag (mmN mmm)) in *. exists T', m. split; [done|]. split; [done|]. split_and!; try done.
  rewrite Nat2Z.inj_succ, Z.pow_succ_r by lia. rewrite (lookup_drop_head T i) in Hm0 by lia.
  rewrite head_digit in Hm0; [|intros E; apply (f_equal length) in E; rewrite length_drop in E; simpl in E; lia|by apply Forall_drop].
  rewrite eval_drop, He in Hm0 by done.
  apply Z.mod_divide in Hz as [w Hw]; [|lia]. rewrite Hw in *. rewrite Z.div_mul in Hm0 by lia.
  rewrite <- Zplus_mod_idemp_l, Z.mod_mod, Zplus_mod_idemp_l in Hm0 by lia.
  apply Z.mod_divide in Hm0 as [y Hy]; [|lia]. apply Z.mod_divide; [nia|]. exists y.
  transitivity (B ^ i * (w + mag (mmN mmm) * m)); [ring|]. rewrite Hy. ring.
Qed.

(** Adding at most radix - 1 times N at each position. *)
Lemma mont_clear_loop_spec mmm len k : mont_ok mmm → ∀ i T v, cleared T len i v →
  (0 < k → i + k - 1 + used (mmN mmm) ≤ len)%nat →
  v + mag (mmN mmm) * (B ^ Z.of_nat (i + k) - B ^ Z.of_nat i) < B ^ Z.of_nat len →
  ∃ T' M, mont_clear_loop mmm k i T = Ok T' ∧ 0 ≤ M < B ^ Z.of_nat k ∧
    cleared T' len (i + k) (v + mag (mmN mmm) * (B ^ Z.of_nat i * M)).
Proof.
  intros Hm. pose proof Hm as (_ & _ & Hpos & _ & _). set (N := mag (mmN mmm)) in *.
  induction k as [|k IH]; intros i T v HT Hl2 Hlt; cbn [mont_clear_loop].
  { exists T, 0. split; [done|]. split; [simpl; lia|]. rewrite Nat.add_0_r.
    by replace (v + N * (B ^ i * 0)) with v by lia. }
  pose proof (B_pow i) as HBi. pose proof (B_pow k) as HBk. pose_B.
  replace (i + S k)%nat with (S i + k)%nat in * by lia.
  assert (B ^ (S i + k)%nat = B ^ i * (B * B ^ k)) as Hp.
  { rewrite !Nat2Z.inj_add, Nat2Z.inj_succ, !Z.pow_add_r, Z.pow_succ_r by lia. lia. }
  assert (0 < N * B ^ i) as HNB by nia. assert (0 ≤ N * B ^ i * B) by nia.
  destruct (mont_clear_digit_spec mmm i T len v Hm HT) as (T1 & m & -> & Hmd & HT1); [lia| |].
  { fold N. rewrite Hp in Hlt. assert (N * B ^ i * B * 1 ≤ N * B ^ i * B * B ^ k) by (apply Z.mul_le_mono_nonneg_l; lia). lia. }
  cbn [mbind res_bind]. fold N in HT1. unfold is_digit in Hmd.
  assert (N * B ^ i * m ≤ N * B ^ i * (B - 1)) by (apply Z.mul_le_mono_nonneg_l; lia).
  destruct (IH (S i) T1 _ HT1 ltac:(lia)) as (T2 & M & -> & HM & HT2).
  { rewrite (B_pow_S i). lia. }
  exists T2, (m + B * M). rewrite (B_pow_S k), (B_pow_S i) in *. split; [done|]. split; [nia|].
  replace (v + N * (B ^ i * (m + B * M))) with (v + B ^ i * (N * m) + N * (B * B ^ i * M)) by ring. exact HT2.
Qed.

(** ** Reduction *)

(** Dividing by R and subtracting N once leaves a residue. *)
Lemma mont_finish_spec mmm T len v : mont_ok mmm → cleared T len (used (mmN mmm)) v → (used (mmN mmm) < len)%nat →
  v < 2 * mag (mmN mmm) * B ^ used (mmN mmm) →
  ∃ r, mont_finish mmm ZPOS T = Ok r ∧ norm_mag r ZPOS (mag r) ∧ mag r < mag (mmN mmm) ∧
    (mag r * B ^ used (mmN mmm)) mod mag (mmN mmm) = v mod mag (mmN mmm).
Proof.
  intros Hm (Hd & Hl & He & Hz) Hlen Hlt. pose proof Hm as (HN & HsN & Hpos & _ & _).
  set (n := used (mmN mmm)) in *. set (N := mag (mmN mmm)) in *. pose proof (B_pow n) as HR.
  unfold mont_finish. fold n.
  assert (mp_ok (mk_mp ZPOS T)) as Hok.
  { split; [done|]. simpl. intros E. rewrite E in Hl. simpl in Hl. lia. }
  destruct (s_mp_clamp_spec (mk_mp ZPOS T) Hok) as (Cn & Cm & _ & _ & _).
  destruct (s_mp_rshd_norm (s_mp_clamp (mk_mp ZPOS T)) n Cn) as [Sn Sm].
  set (S := s_mp_rshd (s_mp_clamp (mk_mp ZPOS T)) n) in *. rewrite Cm in Sm. change (mag (mk_mp ZPOS T)) with (eval T) in Sm.
  rewrite He in Sm. apply Z.mod_divide in Hz as [w Hw]; [|lia]. rewrite Hw, Z.div_mul in Sm by lia.
  assert (sign S = ZPOS) as HsS.
  { apply rshd_pos. unfold s_mp_clamp. simpl. by destruct (_ && _). }
  destruct (s_mp_cmp_norm S (mmN mmm) Sn HN) as [[-> Hc]|Hc].
  - exists S. split; [done|]. split; [by apply nonneg_norm_mag|]. split; [done|]. rewrite Sm, Hw. done.
  - fold N in Hc. assert (N ≤ mag S) as Hge by (destruct Hc as [[_ ?]|[_ ?]]; lia).
    destruct (s_mp_sub_spec S (mmN mmm) Sn HN Hge) as (r & Er & Hr). rewrite HsS in Hr. fold N in Hr.
    exists r. split; [by destruct Hc as [[-> _]|[-> _]]|]. pose proof (proj1 (proj2 Hr)) as Emr. rewrite Emr.
    split; [done|]. split; [rewrite Sm in *; nia|]. rewrite Sm, Hw.
    replace ((w - N) * B ^ n) with (w * B ^ n + (- B ^ n) * N) by lia. by rewrite Z.mod_add by lia.
Qed.

(** [r] is the Montgomery reduction of [t]: r = t / R modulo N, reduced. *)
Definition mont_red (mmm : mp_mont_modulus) (r : mp_int) (t : Z) : Prop :=
  norm_mag r ZPOS (mag r) ∧ mag r < mag (mmN mmm) ∧
  (mag r * B ^ used (mmN mmm)) mod mag (mmN mmm) = t mod mag (mmN mmm).

(** A bound on the working vector that every reduction uses. *)
Lemma mont_room n N v : 0 < N < B ^ Z.of_nat n → v < N * B ^ Z.of_nat n →
  v + N * (B ^ Z.of_nat n - 1) < B ^ Z.of_nat (2 * n + 1) ∧ v + N * (B ^ Z.of_nat n - 1) < 2 * N * B ^ Z.of_nat n.
Proof.
  intros HN Hv. pose proof (B_pow n) as HR. pose_B.
  assert (B ^ Z.of_nat (2 * n + 1) = B * (B ^ n * B ^ n)) as ->.
  { replace (2 * n + 1)%nat with (S (n + n)) by lia. rewrite B_pow_S, Nat2Z.inj_add, Z.pow_add_r by lia. done. }
  assert (N * B ^ n < B ^ n * B ^ n) by nia. split; [|nia].
  assert (2 * (B ^ n * B ^ n) ≤ B * (B ^ n * B ^ n)) by (apply Z.mul_le_mono_nonneg_r; [nia|unfold B; lia]). nia.
Qed.

Lemma mont_N_range mmm : mont_ok mmm → 0 < mag (mmN mmm) < B ^ used (mmN mmm) ∧ (0 < used (mmN mmm))%nat.
Proof. intros (HN & _ & Hp & _). pose proof (mag_range _ (proj1 HN)). pose proof (mp_ok_used _ (proj1 HN)). lia. Qed.

Lemma add_mul_mod v N x : N ≠ 0 → (v + N * x) mod N = v mod N.
Proof. intros H. by rewrite (Z.mul_comm N), Z.mod_add by done. Qed.

Lemma s_mp_redc_spec T mmm : mont_ok mmm → mp_norm T → sign T = ZPOS →
  mag T < mag (mmN mmm) * B ^ used (mmN mmm) → ∃ r, s_mp_redc T mmm = Ok r ∧ mont_red mmm r (mag T).
Proof.
  intros Hm HT Hs Hlt. destruct (mont_N_range mmm Hm) as [HN Hn]. unfold s_mp_redc, mont_red.
  set (n := used (mmN mmm)) in *. set (N := mag (mmN mmm)) in *. destruct (mont_room n N (mag T) HN Hlt) as [Hr1 Hr2].
  pose proof (mag_range T (proj1 HT)) as HrT. pose proof (B_pow n).
  assert (used T ≤ 2 * n + 1)%nat as Hu.
  { destruct (norm_lower T HT) as [|Hl]; [lia|]. destruct (decide (used T ≤ 2 * n + 1)%nat); [done|exfalso].
    assert (B ^ (2 * n + 1)%nat ≤ B ^ (used T - 1)%nat) by (apply Z.pow_le_mono_r; [apply B_pos|plia]).
    assert (0 ≤ N * (B ^ n - 1)) by (apply Z.mul_nonneg_nonneg; lia). lia. }
  destruct (pad_dp_spec (dp T) (2 * n + 1) ltac:(apply HT)) as (P1 & P2 & P3).
  assert (cleared (pad_dp (dp T) (2 * n + 1)) (2 * n + 1) 0 (mag T)) as Hc.
  { split_and!; try done; [unfold used in Hu; lia|]. by rewrite Z.pow_0_r, Z.mod_1_r. }
  destruct (mont_clear_loop_spec mmm (2 * n + 1) n Hm 0 _ _ Hc) as (T' & M & -> & HM & HT'); [fold n; lia|fold N; change (0 + n)%nat with n; rewrite Z.pow_0_r; lia|].
  cbn [mbind res_bind]. rewrite Hs. fold N in HT'. rewrite Z.pow_0_r, Z.mul_1_l in HT'. change (0 + n)%nat with n in HT'.
  destruct (mont_finish_spec mmm T' (2 * n + 1) _ Hm HT') as (r & -> & R1 & R2 & R3); [fold n; plia| |].
  { fold N n. assert (N * M ≤ N * (B ^ n - 1)) by (apply Z.mul_le_mono_nonneg_l; lia). lia. }
  exists r. split; [done|]. fold N n in R2, R3. split_and!; try done. rewrite R3. apply add_mul_mod. lia.
Qed.

Lemma mul_mont_loop_spec mmm a len pb : mont_ok mmm → digits a → digits pb → ∀ ib c v, cleared c len ib v →
  (ib + length pb + length a ≤ len)%nat → (ib + length pb + used (mmN mmm) ≤ len)%nat →
  v + B ^ Z.of_nat ib * (eval a * eval pb) + mag (mmN mmm) * (B ^ Z.of_nat (ib + length pb) - B ^ Z.of_nat ib) < B ^ Z.of_nat len →
  ∃ c' M, mul_mont_loop mmm a pb ib c = Ok c' ∧ 0 ≤ M < B ^ Z.of_nat (length pb) ∧
    cleared c' len (ib + length pb) (v + B ^ Z.of_nat ib * (eval a * eval pb) + mag (mmN mmm) * (B ^ Z.of_nat ib * M)).
Proof.
  intros Hm Ha Hpb. pose proof Hm as (_ & _ & Hpos & _ & _). set (N := mag (mmN mmm)) in *. pose proof (eval_range a Ha) as HA.
  induction Hpb as [|b pb Hb Hpb IH]; intros ib c v Hc Hl1 Hl2 Hlt; cbn [mul_mont_loop].
  { exists c, 0. split; [done|]. split; [simpl; lia|]. simpl. rewrite Nat.add_0_r.
    by replace (v + B ^ ib * (eval a * 0) + N * (B ^ ib * 0)) with v by lia. }
  pose proof (B_pow ib) as HBi. pose proof (B_pow (length pb)) as HBk. pose_B. pose proof (eval_range pb Hpb) as HP.
  cbn [length] in *. replace (ib + S (length pb))%nat with (S ib + length pb)%nat in * by lia.
  assert (B ^ (S ib + length pb)%nat = B ^ ib * (B * B ^ length pb)) as Hp.
  { rewrite !Nat2Z.inj_add, Nat2Z.inj_succ, !Z.pow_add_r, Z.pow_succ_r by lia. lia. }
  assert (0 ≤ B ^ ib * (eval a * eval pb) * B) as Hnn by (repeat apply Z.mul_nonneg_nonneg; lia).
  assert (0 < N * B ^ ib) as HNB by nia. assert (N * B ^ ib * 1 ≤ N * B ^ ib * B) as HNB1 by (apply Z.mul_le_mono_nonneg_l; lia).
  assert (N * B ^ ib * B * 1 ≤ N * B ^ ib * B * B ^ length pb) as Hkb by (apply Z.mul_le_mono_nonneg_l; lia).
  cbn [eval] in *. rewrite Hp in Hlt. unfold is_digit in Hb.
  assert (∃ c1, (if b =? 0 then Ok c else at_offset ib (s_mpv_mul_d_add_prop a b) c) = Ok c1 ∧
    cleared c1 len ib (v + B ^ ib * (eval a * b))) as (c1 & -> & Hc1).
  { destruct (Z.eqb_spec b 0) as [->|Hb0].
    - exists c. split; [done|]. by rewrite Z.mul_0_r, Z.mul_0_r, Z.add_0_r.
    - apply add_at_spec; try done; [lia|]. lia. }
  cbn [mbind res_bind].
  destruct (mont_clear_digit_spec mmm ib c1 len _ Hm Hc1) as (c2 & m & -> & Hmd & Hc2); [lia|fold N; lia|].
  fold N in Hc2. cbn [mbind res_bind]. unfold is_digit in Hmd.
  assert (N * B ^ ib * m ≤ N * B ^ ib * (B - 1)) by (apply Z.mul_le_mono_nonneg_l; lia).
  destruct (IH (S ib) c2 _ Hc2 ltac:(lia) ltac:(lia)) as (c3 & M & -> & HM & Hc3).
  { rewrite Hp, B_pow_S. lia. }
  exists c3, (m + B * M). split; [done|]. rewrite B_pow_S in Hc3. split; [rewrite B_pow_S; nia|].
  match type of Hc3 with cleared _ _ _ ?x => match goal with |- cleared _ _ _ ?y => replace y with x by ring end end.
  exact Hc3.
Qed.

Lemma s_mp_mul_mont_spec a b mmm : mont_ok mmm → mp_norm a → mp_norm b → sign a = ZPOS → sign b = ZPOS →
  mag a < mag (mmN mmm) → mag b < mag (mmN mmm) → ∃ r, s_mp_mul_mont a b mmm = Ok r ∧ mont_red mmm r (mag a * mag b).
Proof.
  intros Hm Ha Hb Hsa Hsb Hla Hlb. destruct (mont_N_range mmm Hm) as [HN Hn]. pose proof Hm as (HNn & _).
  pose proof (norm_used_le a (mmN mmm) Ha (proj1 HNn) ltac:(lia)) as Hua.
  pose proof (norm_used_le b (mmN mmm) Hb (proj1 HNn) ltac:(lia)) as Hub. unfold s_mp_mul_mont.
  set (n := used (mmN mmm)) in *. set (N := mag (mmN mmm)) in *.
  assert (∃ x y, (if Nat.ltb (used a) (used b) then (b, a) else (a, b)) = (x, y) ∧ mp_norm x ∧ mp_norm y ∧
    mag x < N ∧ mag y < N ∧ (used x ≤ n)%nat ∧ (used y ≤ n)%nat ∧ mag x * mag y = mag a * mag b)
    as (x & y & -> & Hx & Hy & Hlx & Hly & Hux & Huy & <-).
  { destruct (Nat.ltb (used a) (used b)); [exists b, a|exists a, b]; split_and!; try done; lia. }
  pose proof (mag_range x (proj1 Hx)) as Hrx. pose proof (mag_range y (proj1 Hy)) as Hry. pose proof (B_pow n) as HR.
  assert (mag x * mag y < N * B ^ n) as Hxy by nia.
  destruct (mont_room n N (mag x * mag y) HN Hxy) as [Hr1 Hr2].
  assert (used y = length (dp y)) as Huy' by done. assert (mag y = eval (dp y)) as Ey by done.
  rewrite Ey in *. clear Ey Hly.
  destruct Hy as [[Hdy Hny] _]. destruct (dp y) as [|b0 pb]; [done|]. apply Forall_cons in Hdy as [Hb0 Hpb].
  destruct (pad_dp_spec [0] (2 * n + 1) ltac:(apply (digits_zeros 1))) as (P1 & P2 & P3). change (length [0]) with 1%nat in P3.
  destruct (s_mpv_mul_d_spec (dp x) b0 (pad_dp [0] (2 * n + 1)) ltac:(apply Hx) Hb0) as (p & -> & Q1 & Q2 & Q3); [unfold used in *; lia|].
  cbn [mbind res_bind]. cbn zeta. rewrite take_app_length' by (unfold used; lia).
  assert (cleared (p ++ replicate (2 * n + 1 - (used x + 1)) 0) (2 * n + 1) 0 (eval (dp x) * b0)) as Hc0.
  { split_and!; [apply Forall_app; auto with nss|rewrite length_app, length_replicate; unfold used in *; lia| |by rewrite Z.pow_0_r, Z.mod_1_r].
    rewrite eval_app, eval_zeros, Q3. lia. }
  cbn [length] in Huy'. cbn [eval] in *. pose proof (eval_range pb Hpb) as Hrp. fold (mag x) in *. pose_B.
  assert (B ^ n = B ^ Z.of_nat (S (n - 1))) as HnS by (f_equal; lia). rewrite B_pow_S in HnS.
  pose proof (B_pow (n - 1)) as HR1. assert (0 ≤ mag x * eval pb * B) by (repeat apply Z.mul_nonneg_nonneg; lia).
  assert (N * B * 1 ≤ N * B * B ^ (n - 1)%nat) as HNb by (apply Z.mul_le_mono_nonneg_l; nia).
  destruct (mont_clear_digit_spec mmm 0 _ (2 * n + 1) _ Hm Hc0) as (c1 & m0 & -> & Hm0 & Hc1); [fold n; lia|fold N; rewrite Z.pow_0_r; lia|].
  cbn [mbind res_bind]. fold N in Hc1. rewrite Z.pow_0_r in Hc1. unfold is_digit in Hm0.
  assert (N * m0 ≤ N * (B - 1)) by (apply Z.mul_le_mono_nonneg_l; lia).
  assert (B * B ^ length pb ≤ B ^ n) as Hpbn.
  { rewrite <- B_pow_S. apply Z.pow_le_mono_r; lia. }
  assert (N * (B * B ^ length pb) ≤ N * B ^ n) by (apply Z.mul_le_mono_nonneg_l; lia).
  destruct (mul_mont_loop_spec mmm (dp x) (2 * n + 1) pb Hm ltac:(apply Hx) Hpb 1 c1 _ Hc1) as (c2 & M & -> & HM & Hc2).
  { unfold used in *. lia. } { fold n. lia. }
  { fold N (mag x). change (1 + length pb)%nat with (S (length pb)). change (Z.of_nat 1) with 1.
    rewrite B_pow_S, Z.pow_1_r. lia. }
  cbn [mbind res_bind]. fold N (mag x) in Hc2. change (1 + length pb)%nat with (S (length pb)) in Hc2. rewrite Huy'. change (Z.of_nat 1) with 1 in Hc2. rewrite Z.pow_1_r in Hc2.
  assert (N * B * M ≤ N * B * (B ^ length pb - 1)) by (apply Z.mul_le_mono_nonneg_l; nia).
  destruct (mont_clear_loop_spec mmm (2 * n + 1) (n - S (length pb)) Hm (S (length pb)) c2 _ Hc2) as (c3 & M' & -> & HM' & Hc3).
  { fold n. lia. }
  { fold N. replace (S (length pb) + (n - S (length pb)))%nat with n by lia. rewrite B_pow_S. lia. }
  cbn [mbind res_bind]. replace (S (length pb) + (n - S (length pb)))%nat with n in Hc3 by lia. fold N in Hc3.
  destruct (mont_finish_spec mmm c3 (2 * n + 1) _ Hm Hc3) as (r & -> & R1 & R2 & R3); [fold n; lia| |].
  { fold N n. assert (B ^ S (length pb) * M' ≤ B ^ n - B ^ S (length pb)) as HM2.
    { assert (B ^ n = B ^ S (length pb) * B ^ (n - S (length pb))%nat) as -> by (rewrite <- Z.pow_add_r by lia; f_equal; plia).
      pose proof (B_pow (S (length pb))) as HBS.
      assert (B ^ S (length pb) * M' ≤ B ^ S (length pb) * (B ^ (n - S (length pb))%nat - 1)) by (apply Z.mul_le_mono_nonneg_l; lia).
      lia. }
    assert (N * (B ^ S (length pb) * M') ≤ N * (B ^ n - B ^ S (length pb))) by (apply Z.mul_le_mono_nonneg_l; lia).
    rewrite B_pow_S in *. lia. }
  exists r. split; [done|]. fold n N in R2, R3. split_and!; try done. fold n N. rewrite R3.
  match goal with |- ?l mod N = ?r mod N => replace l with (r + N * (m0 + B * M + B ^ S (length pb) * M')) by (rewrite ?Z.mul_1_l; ring) end.
  apply add_mul_mod. lia.
Qed.

Lemma s_mp_lshd_spec x p : mp_norm x → norm_mag (s_mp_lshd x p) (sign x) (mag x * B ^ Z.of_nat p).
Proof.
  intros Hx. unfold s_mp_lshd. destruct (Nat.eqb_spec p 0) as [->|Hp].
  { rewrite Z.pow_0_r, Z.mul_1_r. by apply norm_mag_self. }
  pose proof (mp_ok_used x (proj1 Hx)) as Hu. pose proof (mag_range x (proj1 Hx)) as Hr. pose proof (B_pow p) as HB.
  destruct ((Nat.eqb (used x) 1) && (dp x !!! 0%nat =? 0)) eqn:Hc.
  - apply andb_prop in Hc as [H1 H2]. apply Nat.eqb_eq in H1. apply Z.eqb_eq in H2.
    assert (mag x = 0) as E.
    { unfold mag, used in *. destruct (dp x) as [|y [|]]; simpl in H1; try lia. change ([y] !!! 0%nat) with y in H2. cbn [eval]. lia. }
    rewrite E, Z.mul_0_l. destruct (norm_mag_self x Hx) as (A1 & A2 & A3). rewrite E in *. split_and!; done.
  - assert (eval (replicate p 0 ++ dp x) = mag x * B ^ p) as He by (rewrite eval_app, eval_zeros, length_replicate; unfold mag; lia).
    split_and!; [apply mk_norm| |]; try done.
    + apply Forall_app; split; [auto with nss|apply Hx].
    + intros E. apply app_nil in E as [_ E]. by apply Hx.
    + rewrite He, length_app, length_replicate. right.
      replace (p + length (dp x) - 1)%nat with (used x - 1 + p)%nat by (unfold used in *; lia).
      rewrite Nat2Z.inj_add, Z.pow_add_r by lia. apply Z.mul_le_mono_nonneg_r; [lia|].
      destruct (norm_lower x Hx) as [Hl|]; [|done]. replace (used x - 1)%nat with O by lia. rewrite Z.pow_0_r.
      destruct (decide (mag x = 0)) as [E|]; [exfalso|lia].
      apply andb_false_iff in Hc as [Hc|Hc]; [apply Nat.eqb_neq in Hc; lia|]. apply Z.eqb_neq in Hc. apply Hc.
      unfold mag, used in *. destruct Hx as [[Hd _] _]. destruct (dp x) as [|y [|]]; simpl in Hl; try (simpl in Hu; lia).
      change ([y] !!! 0%nat) with y. cbn [eval] in E. lia.
    + rewrite He. intros E. apply Hx. nia.
Qed.

(** Conversion to Montgomery form multiplies by R. *)
Lemma mp_to_mont_spec x N : mp_norm x → sign x = ZPOS → mp_norm N → sign N = ZPOS → 0 < mag N →
  ∃ r, mp_to_mont x N = Ok r ∧ norm_mag r ZPOS ((mag x * B ^ used N) mod mag N).
Proof.
  intros Hx Hs HN HsN Hp. pose proof (s_mp_lshd_spec x (used N) Hx) as Hl. rewrite Hs in Hl. unfold mp_to_mont.
  destruct (mp_div_spec _ N (proj1 Hl) HN ltac:(lia)) as (q & r & -> & _ & Hr). cbn [mbind res_bind].
  exists r. split; [done|]. by rewrite (norm_mag_pos _ _ Hl), (proj1 (proj2 Hl)) in Hr.
Qed.

(** ** Constant time *)

Lemma subCT_digit a b borrow : is_digit a → is_digit b → bit borrow →
  let '(ret, bo) := s_mp_subCT_d a b borrow in
  a - b - borrow = ret - B * bo ∧ bit bo ∧ is_digit ret.
Proof.
  intros Ha Hb Hbr. unfold s_mp_subCT_d. set (ret := u64 (u64 (a - b) - borrow)).
  assert (is_digit ret) as Hret by apply u64_digit. rewrite ct_ltu, ct_eq by done.
  assert (ret = u64 (a - b - borrow)) as Er.
  { unfold ret. rewrite !u64_B. pose_B. by rewrite Zminus_mod_idemp_l. }
  unfold is_digit in *. pose_B.
  assert (∃ k, a - b - borrow = ret - B * k ∧ bit k) as (k & Ek & Hk).
  { rewrite Er, u64_B. unfold bit in *. destruct (decide (0 ≤ a - b - borrow)).
    - exists 0. rewrite Z.mod_small by lia. lia.
    - exists 1. replace ((a - b - borrow) mod B) with (a - b - borrow + B) by (apply Z.mod_unique with (-1); lia). lia. }
  assert (Z.lor (Z.b2z (a <? ret)) (Z.land (Z.b2z (a =? ret)) borrow) = k) as ->; [|done].
  unfold bit in *. destruct Hbr as [->| ->], Hk as [->| ->], (Z.ltb_spec a ret), (Z.eqb_spec a ret); (reflexivity || (exfalso; lia)).
Qed.

Lemma subCT_loop_spec la lb borrow : digits la → digits lb → bit borrow → length la = length lb →
  borrowed la (eval la - eval lb - borrow) (subCT_loop la lb borrow).
Proof.
  intros Hla. revert lb borrow. induction Hla as [|a la Ha Hla IH]; intros [|b lb] borrow Hlb Hbr Hl; try done.
  { simpl. replace (0 - 0 - borrow) with (- borrow) by lia. by apply borrowed_nil. }
  apply Forall_cons in Hlb as [Hb Hlb]. cbn [subCT_loop].
  pose proof (subCT_digit a b borrow Ha Hb Hbr) as H. destruct (s_mp_subCT_d a b borrow) as [ret bo]. destruct H as (E & Hbo & Hr).
  specialize (IH lb bo Hlb Hbo ltac:(simpl in Hl; lia)). destruct (subCT_loop la lb bo) as [r c].
  pose proof (borrowed_cons la _ a ret (r, c) IH Hr) as HC. simpl in HC. cbn [eval].
  match type of HC with borrowed _ ?t _ => match goal with |- borrowed _ ?u _ => replace u with t by lia end end. exact HC.
Qed.

Lemma mp_selectCT_spec cond a b : bit cond → digits a → digits b → length a = length b →
  mp_selectCT cond a b = Ok (if cond =? 1 then a else b).
Proof.
  intros Hc Ha Hb Hl. unfold mp_selectCT. rewrite (proj2 (Nat.eqb_eq _ _) Hl). f_equal.
  destruct Hc as [->| ->]; simpl (_ =? _); cbn iota.
  - change (u64 (0 * MP_DIGIT_MAX)) with 0. revert b Hb Hl. induction a as [|x a IH]; intros [|y b] Hb Hl; try done.
    simpl. rewrite ct_sel_zero. f_equal. apply Forall_cons in Ha as [_ Ha], Hb as [_ Hb]. apply IH; try done. simpl in Hl. lia.
  - change (u64 (1 * MP_DIGIT_MAX)) with MP_DIGIT_MAX. revert b Hb Hl.
    induction a as [|x a IH]; intros [|y b] Hb Hl; try done.
    apply Forall_cons in Ha as [Hx Ha], Hb as [Hy Hb]. simpl. rewrite ct_sel_ones by done. f_equal. apply IH; try done. simpl in Hl. lia.
Qed.

(** The constant-time loop adds the same multiples as [mont_clear_loop]. *)
Lemma reduceCT_loop_spec mmm len k : mont_ok mmm → ∀ i T v, cleared T len i v →
  (0 < k → i + k - 1 + used (mmN mmm) ≤ len)%nat →
  v + mag (mmN mmm) * (B ^ Z.of_nat (i + k) - B ^ Z.of_nat i) < B ^ Z.of_nat len →
  reduceCT_loop (dp (mmN mmm)) (n0prime mmm) k i T = mont_clear_loop mmm k i T.
Proof.
  intros Hm. pose proof Hm as (HN & _ & Hpos & _ & _). set (N := mag (mmN mmm)) in *.
  induction k as [|k IH]; intros i T v HT Hl Hlt; [done|]. cbn [mont_clear_loop reduceCT_loop].
  pose proof (B_pow i) as HBi. pose proof (B_pow k) as HBk. pose_B.
  replace (i + S k)%nat with (S i + k)%nat in * by lia.
  assert (B ^ (S i + k)%nat = B ^ i * (B * B ^ k)) as Hp.
  { rewrite !Nat2Z.inj_add, Nat2Z.inj_succ, !Z.pow_add_r, Z.pow_succ_r by lia. lia. }
  assert (0 < N * B ^ i) as HNB by nia. assert (0 ≤ N * B ^ i * B) by nia.
  assert (v + B ^ i * (N * (B - 1)) < B ^ len) as Hroom.
  { rewrite Hp in Hlt. assert (N * B ^ i * B * 1 ≤ N * B ^ i * B * B ^ k) by (apply Z.mul_le_mono_nonneg_l; lia). lia. }
  destruct (mont_clear_digit_spec mmm i T len v Hm HT) as (T1 & m & E1 & Hmd & HT1); [lia|done|].
  assert (at_offset i (s_mpv_mul_d_add_propCT (dp (mmN mmm)) (u64 (T !!! i * n0prime mmm))) T = Ok T1) as Ect.
  { revert E1. unfold mont_clear_digit. cbn zeta. pose proof HT as (Hd & Hln & He & _).
    set (mi := u64 (T !!! i * n0prime mmm)). assert (is_digit mi) as Hmi by apply u64_digit.
    pose proof (eval_take_drop i T ltac:(lia)) as Htd. rewrite He in Htd.
    pose proof (eval_range (take i T) ltac:(by apply Forall_take)) as Hr. rewrite length_take, Nat.min_l in Hr by lia.
    assert (B ^ len = B ^ i * B ^ (len - i)%nat) as Hsplit by (rewrite <- Z.pow_add_r by lia; f_equal; lia).
    assert (digits (drop i T)) as Hdd by (by apply Forall_drop). unfold is_digit in Hmi.
    assert (eval (drop i T) + eval (dp (mmN mmm)) * mi < B ^ (length (drop i T))) as Hfit.
    { rewrite length_drop, Hln. fold (mag (mmN mmm)). fold N.
      assert (N * B ^ i * mi ≤ N * B ^ i * (B - 1)) by (apply Z.mul_le_mono_nonneg_l; lia). nia. }
    destruct (s_mpv_mul_d_add_prop_spec (dp (mmN mmm)) mi (drop i T) ltac:(apply HN) Hmi Hdd) as (r & Er & R1 & R2 & R3);
      [rewrite length_drop; unfold used in *; lia|done|].
    destruct (s_mpv_mul_d_add_propCT_spec (dp (mmN mmm)) mi (drop i T) ltac:(apply HN) Hmi Hdd) as (r' & Er' & R1' & R2' & R3');
      [rewrite length_drop; unfold used in *; lia|].
    rewrite (at_offset_spec _ _ _ _ Er), (at_offset_spec _ _ _ _ Er'). intros E1. rewrite <- E1. do 2 f_equal.
    apply eval_inj; try done; [lia|]. rewrite R3, R3', Z.mod_small; [done|].
    split; [|done]. pose proof (eval_range (drop i T) Hdd). fold (mag (mmN mmm)). fold N. nia. }
  rewrite Ect, E1. cbn [mbind res_bind]. unfold is_digit in Hmd. fold N in HT1.
  assert (N * B ^ i * m ≤ N * B ^ i * (B - 1)) by (apply Z.mul_le_mono_nonneg_l; lia).
  apply (IH (S i) T1 _ HT1); [lia|]. rewrite (B_pow_S i). lia.
Qed.

(** Constant-time Montgomery reduction: same residue, padded to the length of
    the modulus. *)
Lemma mp_reduceCT_spec a mmm : mont_ok mmm → mp_ok a → sign a = ZPOS → (used a ≤ 2 * used (mmN mmm) + 1)%nat →
  mag a < mag (mmN mmm) * B ^ used (mmN mmm) →
  ∃ r, mp_reduceCT a (mmN mmm) (n0prime mmm) = Ok r ∧ mp_ok r ∧ used r = used (mmN mmm) ∧ mag r < mag (mmN mmm) ∧
    (mag r * B ^ used (mmN mmm)) mod mag (mmN mmm) = mag a mod mag (mmN mmm).
Proof.
  intros Hm Ha Hs Hu Hlt. destruct (mont_N_range mmm Hm) as [HN Hn]. pose proof Hm as (HNn & _). unfold mp_reduceCT.
  set (n := used (mmN mmm)) in *. set (N := mag (mmN mmm)) in *. destruct (mont_room n N (mag a) HN Hlt) as [Hr1 Hr2].
  pose proof (B_pow n) as HR. pose proof (mag_range a Ha) as Hra. replace (n * 2 + 1)%nat with (2 * n + 1)%nat by lia.
  destruct (pad_dp_spec (dp a) (2 * n + 1) ltac:(apply Ha)) as (P1 & P2 & P3).
  assert (cleared (pad_dp (dp a) (2 * n + 1)) (2 * n + 1) 0 (mag a)) as Hc.
  { split_and!; try done; [unfold used in Hu; lia|]. by rewrite Z.pow_0_r, Z.mod_1_r. }
  assert (mag a + N * (B ^ (0 + n)%nat - B ^ Z.of_nat 0) < B ^ (2 * n + 1)%nat) as Hroom
    by (change (0 + n)%nat with n; rewrite Z.pow_0_r; lia).
  rewrite (reduceCT_loop_spec mmm (2 * n + 1) n Hm 0 _ _ Hc) by (done || (fold n; lia)).
  destruct (mont_clear_loop_spec mmm (2 * n + 1) n Hm 0 _ _ Hc) as (T & M & -> & HM & (T1 & T2 & T3 & T4)); [fold n; lia|done|].
  cbn [mbind res_bind]. fold N in T3, T4. rewrite Z.pow_0_r, Z.mul_1_l in T3, T4. change (0 + n)%nat with n in T4.
  assert (dp (s_mp_rshd (mk_mp (sign a) T) n) = drop n T) as ->.
  { unfold s_mp_rshd. destruct (Nat.eqb_spec n 0); [lia|]. destruct (Nat.leb_spec (used (mk_mp (sign a) T)) n); [|done].
    unfold used in *. simpl in *. lia. }
  assert (eval (drop n T) * B ^ n = mag a + N * M) as ED.
  { rewrite eval_drop, T3 by done. apply Z.mod_divide in T4 as [w Hw]; [|lia]. rewrite Hw, Z.div_mul by lia. done. }
  assert (length (drop n T) = S n) as HlD by (rewrite length_drop; plia).
  set (D := drop n T) in *. assert (digits D) as HD by (by apply Forall_drop).
  pose proof (eval_S_take D n ltac:(plia)) as HS. rewrite take_ge in HS by plia.
  pose proof (lookup_total_digit D n HD ltac:(plia)) as Hcar. set (carry := D !!! n) in *. set (C := take n D) in *.
  assert (digits C) as HC by (by apply Forall_take). assert (length C = n) as HlC by (unfold C; rewrite length_take; plia).
  pose proof (eval_range C HC) as HrC. rewrite HlC in HrC. cbn zeta.
  assert (N * M ≤ N * (B ^ n - 1)) as HNM by (apply Z.mul_le_mono_nonneg_l; lia).
  assert (eval D < 2 * N) as HD2 by (apply (Z.mul_lt_mono_pos_r (B ^ n)); lia). unfold is_digit in Hcar.
  assert (carry < 2) as Hc2 by (apply (Z.mul_lt_mono_pos_l (B ^ n)); lia).
  assert (bit carry) as Hbc by (unfold bit; lia).
  unfold mp_subCT. change (used (mk_mp ZPOS C)) with (length C). cbn [dp]. rewrite HlC.
  destruct (pad_dp_spec (dp (mmN mmm)) n ltac:(apply HNn)) as (M1 & M2 & M3).
  pose proof (subCT_loop_spec C (pad_dp (dp (mmN mmm)) n) 0 HC M1 ltac:(by left) ltac:(unfold n, used in *; plia)) as Hsub.
  destruct (subCT_loop C _ 0) as [sb bo]. destruct Hsub as (S1 & S2 & S3 & S4). cbn [fst snd] in *.
  rewrite M2, Z.sub_0_r in S4. fold (mag (mmN mmm)) in S4. fold N in S4. rewrite HlC in S4.
  assert (bit (Z.lxor bo carry)) as Hx by (destruct S3 as [->| ->], Hbc as [->| ->]; simpl; (by left) || (by right)).
  rewrite mp_selectCT_spec by (done || lia). cbn [mbind res_bind]. eexists. split; [done|].
  pose proof (eval_range sb S2) as Hrs. rewrite S1, HlC in Hrs.
  assert (∃ e, eval (if Z.lxor bo carry =? 1 then C else sb) = e ∧ e < N ∧ (e = eval D ∨ e = eval D - N)) as (e & Ee & HeN & Hed).
  { eexists. split; [done|]. destruct S3 as [Eb|Eb], Hbc as [Ec|Ec]; rewrite Eb, Ec in *; simpl (Z.lxor _ _); simpl (_ =? _); cbn iota; lia. }
  assert (digits (if Z.lxor bo carry =? 1 then C else sb)) as Hdd by (by destruct (_ =? _)).
  assert (length (if Z.lxor bo carry =? 1 then C else sb) = n) as Hll by (destruct (_ =? _); plia).
  split_and!.
  - split; [done|]. simpl. intros E. rewrite E in Hll. simpl in Hll. plia.
  - exact Hll.
  - unfold mag at 1. cbn [dp]. rewrite Ee. exact HeN.
  - unfold mag at 1. cbn [dp]. rewrite Ee. fold N.
    transitivity ((mag a + N * M) mod N); [|apply add_mul_mod; lia]. rewrite <- ED.
    destruct Hed as [-> | ->]; [done|]. replace ((eval D - N) * B ^ n) with (eval D * B ^ n + N * (- B ^ n)) by ring.
    apply add_mul_mod. lia.
Qed.

(** The radix is invertible modulo N, so the reduction is determined by its value. *)
Lemma mont_cancel mmm n : mont_ok mmm → ∀ z, (mag (mmN mmm) | z * B ^ Z.of_nat n) → (mag (mmN mmm) | z).
Proof.
  intros (_ & _ & _ & _ & H0). apply Z.mod_divide in H0 as [c Hc]; [|pose_B; lia].
  induction n as [|n IH]; intros z Hz; [by rewrite Z.pow_0_r, Z.mul_1_r in Hz|].
  rewrite B_pow_S, Z.mul_assoc in Hz. apply IH in Hz as [k Hk]. set (N := mag (mmN mmm)) in *.
  exists (k * c - z * n0prime mmm).
  replace ((k * c - z * n0prime mmm) * N) with (k * N * c - z * (N * n0prime mmm)) by ring. rewrite <- Hk.
  replace (z * B * c) with (z * (c * B)) by ring. rewrite <- Hc. ring.
Qed.

Lemma mont_unique mmm x y : mont_ok mmm → 0 ≤ x < mag (mmN mmm) → 0 ≤ y < mag (mmN mmm) →
  (x * B ^ used (mmN mmm)) mod mag (mmN mmm) = (y * B ^ used (mmN mmm)) mod mag (mmN mmm) → x = y.
Proof.
  intros Hm Hx Hy E. set (N := mag (mmN mmm)) in *. set (R := B ^ used (mmN mmm)) in *.
  assert (N | (x - y) * R) as Hd.
  { apply Z.mod_divide; [lia|]. replace ((x - y) * R) with (x * R - y * R) by ring.
    rewrite Zminus_mod, E, Z.sub_diag, Z.mod_0_l by lia. done. }
  apply mont_cancel in Hd as [k Hk]; [|done]. fold N in Hk. clear E.
  assert (k = 0 ∨ 1 ≤ k ∨ k ≤ -1) as [->|[Hk1|Hk1]] by lia; [lia|..]; nia.
Qed.

(** The projections as equations, so that no proof unfolds the inverse. *)
Lemma mmm_N N n0 : mmN (mk_mmm N n0) = N.
Proof. done. Qed.
Lemma mmm_n0prime N n0 : n0prime (mk_mmm N n0) = n0.
Proof. done. Qed.

Lemma mulmontmodCT_spec a b mmm m n0 : mont_ok mmm → mmN mmm = m → n0prime mmm = n0 → mp_norm a → sign a = ZPOS → mp_norm b → sign b = ZPOS →
  mag a < mag m → mag b < mag m →
  ∃ r, mp_mulmontmodCT a b m n0 = Ok r ∧
    used r = used m ∧ mag r < mag m ∧
    (mag r * B ^ used m) mod mag m = (mag a * mag b) mod mag m ∧
    ∃ r', s_mp_mul_mont a b mmm = Ok r' ∧ val r' = mag r.
Proof.
  intros Hmm Em En Ha Hsa Hb Hsb Hla Hlb. destruct (mont_N_range mmm Hmm) as [HN Hn]. pose proof Hmm as (Hm & _).
  rewrite Em in *.
  pose proof (norm_used_le a m Ha (proj1 Hm) ltac:(lia)) as Hua. pose proof (norm_used_le b m Hb (proj1 Hm) ltac:(lia)) as Hub.
  pose proof (mag_range a (proj1 Ha)). pose proof (mag_range b (proj1 Hb)).
  destruct (mp_mulCT_spec a b (used m) (proj1 Ha) (proj1 Hb) Hua Hub) as (c & Ec & Hc & Huc & Hmc & Hsc & _).
  unfold mp_mulmontmodCT. rewrite Ec. cbn [mbind res_bind].
  destruct (mp_reduceCT_spec c _ Hmm Hc (Hsc ltac:(congruence))) as (r & Er & R1 & R2 & R3 & R4).
  { rewrite Em. lia. } { rewrite Em, Hmc. nia. }
  rewrite Em, ?En in *. rewrite Hmc in R4. exists r. split_and!; try done.
  destruct (s_mp_mul_mont_spec a b _ Hmm Ha Hb Hsa Hsb) as (r' & Er' & N1 & N2 & N3); [by rewrite Em..|].
  rewrite Em in *. exists r'. split; [done|]. rewrite (norm_mag_val _ _ _ N1). cbn [signed].
  pose proof (mag_range r R1). pose proof (norm_mag_ok _ _ _ N1) as [_ ?].
  apply (mont_unique _ _ _ Hmm); rewrite Em; [lia|lia|]. congruence.
Qed.

(** [C9] The constant-time modular product mp_mulmontmodCT on operands below
    an odd modulus returns a number of exactly as many digits as the modulus
    (the length does not depend on the operands), which is below the modulus
    and congruent to a*b/R; and it is the same number that the variable-time
    interleaved product s_mp_mul_mont computes. *)
Theorem mp_mulmontmodCT_correct a b m :
  mp_norm a → sign a = ZPOS → mp_norm b → sign b = ZPOS → mp_norm m → sign m = ZPOS →
  Z.odd (mag m) = true → mag a < mag m → mag b < mag m →
  ∃ r, mp_mulmontmodCT a b m (mp_calculate_mont_n0i m) = Ok r ∧
    used r = used m ∧ mag r < mag m ∧ (mag r * B ^ used m) mod mag m = (mag a * mag b) mod mag m ∧
    ∃ r', s_mp_mul_mont a b (mk_mmm m (mp_calculate_mont_n0i m)) = Ok r' ∧ val r' = mag r.
Proof.
  intros Ha Hsa Hb Hsb Hm Hsm Hodd Hla Hlb. pose proof (mont_ok_n0i m Hm Hsm Hodd) as Hmm.
  exact (mulmontmodCT_spec a b _ m _ Hmm (mmm_N m _) (mmm_n0prime m _) Ha Hsa Hb Hsb Hla Hlb).
Qed.

Lemma mp_mulmontmodCT_correct_witness :
  let a := mk_mp ZPOS [12345; 6] in
  let m := mk_mp ZPOS [7; 9] in
  mag a < mag m ∧ ∃ r, mp_mulmontmodCT a a m (mp_calculate_mont_n0i m) = Ok r ∧ used r = used m.
Proof.
  cbn zeta. assert (mp_norm (mk_mp ZPOS [12345; 6])) as Ha by (apply mp_normb_sound; reflexivity).
  assert (mp_norm (mk_mp ZPOS [7; 9])) as Hm by (apply mp_normb_sound; reflexivity).
  split; [reflexivity|].
  destruct (mp_mulmontmodCT_correct _ _ _ Ha eq_refl Ha eq_refl Hm eq_refl) as (r & E & Hu & _); [reflexivity..|].
  exists r. exact (conj E Hu).
Defined.
