(* ===== verification/Base64Enc.v ===== *)
(** lib/util/nssb64e.c: base64 encoding.

    The encoder keeps the one or two octets that do not fill a group of three
    between calls, inserts CRLF line breaks, and stages its text in an output
    buffer that is either handed to an output function whenever it is full
    (streaming) or is the caller's whole result (buffer operation).  The
    output function is the caller's code: it is a field of the encoder, a
    function on the caller's state that returns a status.  The main results:
    any sequence of updates hands over exactly the reference encoding of the
    concatenated input, and the buffer operation fills exactly the space
    [PL_Base64MaxEncodedLength] asks for. *)

From Stdlib Require Import Ascii String Lia ZArith List.
From stdpp Require Import base numbers list list_numbers tactics.
From S2P Require Import Prelude Port.

(** Status codes and the errors the base64 code sets; an output function sets
    an error of its own. *)
Inductive PRErrorCode :=
| PR_BUFFER_OVERFLOW_ERROR
| PR_INVALID_ARGUMENT_ERROR
| PR_OUT_OF_MEMORY_ERROR
| SEC_ERROR (e : SECErrorCode)
| OUTPUT_FN_ERROR (code : Z).

Inductive PRStatus := PR_SUCCESS | PR_FAILURE (e : option PRErrorCode).

(** ** The encoder *)

Definition ascii_codes (s : String.string) : list Z :=
  (fun a => Z.of_N (Ascii.N_of_ascii a)) <$> String.list_ascii_of_string s.

Definition base64_valuetocode : list Z :=
  ascii_codes "ABCDEFGHIJKLMNOPQRSTUVWXYZabcdefghijklmnopqrstuvwxyz0123456789+/"%string.

Definition B64_PAD : Z := 61.
Definition B64_CR : Z := 13.
Definition B64_LF : Z := 10.

Record PLBase64Encoder (A : Type) := mk_PLBase64Encoder {
  in_buffer : list Z;
  in_buffer_count : nat;
  line_length : Z;
  current_column : Z;
  output_fn : option (A → list Z → A * Z);
  output_arg : A;
  output_buffer : list Z;
  output_buflen : Z;
  output_length : Z;
}.
Arguments mk_PLBase64Encoder {A}.
Arguments in_buffer {A}. Arguments in_buffer_count {A}. Arguments line_length {A}.
Arguments current_column {A}. Arguments output_fn {A}. Arguments output_arg {A}.
Arguments output_buffer {A}. Arguments output_buflen {A}. Arguments output_length {A}.

Section Encoder.
  Context {A : Type}.
  Implicit Types data : PLBase64Encoder A.

Definition set_pending data (b : list Z) (c : nat) : PLBase64Encoder A :=
  mk_PLBase64Encoder b c (line_length data) (current_column data) (output_fn data)
    (output_arg data) (output_buffer data) (output_buflen data) (output_length data).
Definition set_column data (c : Z) : PLBase64Encoder A :=
  mk_PLBase64Encoder (in_buffer data) (in_buffer_count data) (line_length data) c
    (output_fn data) (output_arg data) (output_buffer data) (output_buflen data)
    (output_length data).
Definition set_output data (a : A) (b : list Z) (l : Z) : PLBase64Encoder A :=
  mk_PLBase64Encoder (in_buffer data) (in_buffer_count data) (line_length data)
    (current_column data) (output_fn data) a b (output_buflen data) l.

(** The pointer [out] is always [output_buffer + output_length]. *)
Definition put data (bs : list Z) : mem_res (PLBase64Encoder A) :=
  b ← mem_write (output_buffer data) (Z.to_nat (output_length data)) bs;
  Ok (set_output data (output_arg data) b (u32 (output_length data + length bs))).

Definition line_break data : mem_res (PLBase64Encoder A) :=
  if (0 <? line_length data) && (current_column data >=? line_length data)
  then put (set_column data 0) [B64_CR; B64_LF] else Ok data.

(** [for (j = 18; j >= 0; j -= 6)] *)
Definition codes (n : Z) : list Z :=
  (fun j => base64_valuetocode !!! Z.to_nat (Z.land (Z.shiftr n j) 0x3F)) <$> [18; 12; 6; 0].

(** [while (i < 3) n = (n << 8) | *in++]: [turns] is [3 - i]. *)
Fixpoint fill (turns : nat) (n : Z) (p : nat) (inp : list Z) : mem_res (Z * nat) :=
  match turns with
  | O => Ok (n, p)
  | S turns => match inp !! p with
               | Some b => fill turns (u32 (Z.lor (Z.shiftl n 8) b)) (S p) inp
               | None => UB
               end
  end.

(** [output_fn(output_arg, output_buffer, output_length)] *)
Definition call_output data (f : A → list Z → A * Z) : A * Z :=
  f (output_arg data) (take (Z.to_nat (output_length data)) (output_buffer data)).

(** [while (in < end)]: every turn takes a group of three octets. *)
Fixpoint encode_loop (fuel : nat) data (inp : list Z) (p e i : nat) (n : Z)
    : mem_res (PRStatus * PLBase64Encoder A) :=
  match fuel with
  | O => UB
  | S fuel =>
      if decide (p < e)%nat then
        '(n, p) ← fill (3 - i) n p inp;
        data ← line_break data;
        let data := if 0 <? line_length data
                    then set_column data (u32 (current_column data + 4)) else data in
        data ← put data (codes n);
        if output_length data >=? u32 (output_buflen data - 3) then
          match output_fn data with
          | Some f =>
              let '(a, r) := call_output data f in
              if r <? 0
              then Ok (PR_FAILURE (Some (OUTPUT_FN_ERROR r)),
                       set_output data a (output_buffer data) (output_length data))
              else encode_loop fuel (set_output data a (output_buffer data) 0) inp p e 0 0
          | None =>
              if decide (p < e)%nat
              then Ok (PR_FAILURE (Some PR_BUFFER_OVERFLOW_ERROR), data)
              else encode_loop fuel data inp p e 0 0
          end
        else encode_loop fuel data inp p e 0 0
      else Ok (PR_SUCCESS, data)
  end.

Definition get (l : list Z) (i : nat) : mem_res Z :=
  match l !! i with Some b => Ok b | None => UB end.

(** The octets that were put back last time. *)
Definition put_back_value data : Z :=
  if decide (0 < in_buffer_count data)%nat then
    let n := in_buffer data !!! 0%nat in
    if decide (1 < in_buffer_count data)%nat
    then u32 (Z.lor (Z.shiftl n 8) (in_buffer data !!! 1%nat)) else n
  else 0.

Definition pl_base64_encode_buffer data (inp : list Z) (size : Z)
    : mem_res (PRStatus * PLBase64Encoder A) :=
  let i := in_buffer_count data in
  if size <? 3 - i then
    b0 ← get inp 0;
    let buf := <[i := b0]> (in_buffer data) in
    if size >? 1 then
      b1 ← get inp 1;
      Ok (PR_SUCCESS, set_pending data (<[S i := b1]> buf) (S (S i)))
    else Ok (PR_SUCCESS, set_pending data buf (S i))
  else
    let n := put_back_value data in
    let off := u32 (size + i) mod 3 in
    if 0 <? off then
      b0 ← get inp (Z.to_nat (size - off));
      let buf := <[0%nat := b0]> (in_buffer data) in
      buf ← (if 1 <? off then b1 ← get inp (Z.to_nat (size - off + 1)); Ok (<[1%nat := b1]> buf)
             else Ok buf);
      encode_loop (S (Z.to_nat size)) (set_pending data buf (Z.to_nat off)) inp
        0 (Z.to_nat (size - off)) i n
    else
      encode_loop (S (Z.to_nat size)) (set_pending data (in_buffer data) 0) inp
        0 (Z.to_nat size) i n.

(** A padded token for the pending octets. *)
Definition flush_pending data : mem_res (PLBase64Encoder A) :=
  let i := in_buffer_count data in
  if decide (0 < i)%nat then
    let n := Z.shiftl (in_buffer data !!! 0%nat) 16 in
    let n := if decide (1 < i)%nat
             then Z.lor n (Z.shiftl (in_buffer data !!! 1%nat) 8) else n in
    data ← line_break (set_pending data (in_buffer data) 0);
    let out := codes n in
    let out := if decide (i = 1%nat) then <[2%nat := B64_PAD]> out else out in
    put data (<[3%nat := B64_PAD]> out)
  else Ok data.

Definition pl_base64_encode_flush data : mem_res (PRStatus * PLBase64Encoder A) :=
  if bool_decide (in_buffer_count data = 0%nat) && (output_length data =? 0)
  then Ok (PR_SUCCESS, data) else
  data ← flush_pending data;
  match output_fn data with
  | Some f =>
      let '(a, r) := call_output data f in
      Ok (if r <? 0 then PR_FAILURE (Some (OUTPUT_FN_ERROR r)) else PR_SUCCESS,
          set_output data a (output_buffer data) 0)
  | None => Ok (PR_SUCCESS, data)
  end.

Definition PL_Base64MaxEncodedLength (size line_length : Z) : Z :=
  if size >? 0x3fffffff then 0 else
  let tokens := u32 (size + 2) / 3 in
  if line_length =? 0 then u32 (tokens * 4) else
  let line_length := if line_length <? 4 then 4 else line_length in
  let tokens_per_line := line_length / 4 in
  let full_lines := tokens / tokens_per_line in
  let remainder := u32 (u32 (tokens - u32 (full_lines * tokens_per_line)) * 4) in
  let line_break_chars := u32 (full_lines * 2) in
  let line_break_chars := if remainder =? 0 then u32 (line_break_chars - 2) else line_break_chars in
  u32 (u32 (u32 (u32 (full_lines * tokens_per_line) * 4) + line_break_chars) + remainder).

(** [None] for the buffer is NULL; the result [None] is a failed allocation. *)
Definition pl_base64_create_encoder `{NSPRHeap} (arg : A) (line_length : Z)
    (buffer : option (list Z)) (buflen : Z) : option (PLBase64Encoder A) :=
  _ ← PR_Calloc 1 48;
  let line_length := if (line_length >? 0) && (line_length <? 4) then 4 else line_length in
  let line_length := line_length / 4 * 4 in
  let buflen := match buffer with
                | None => if buflen =? 0 then
                            if line_length >? 0 then u32 (line_length + 2) else 64
                          else buflen
                | Some _ => buflen
                end in
  b ← (match buffer with None => PR_Malloc buflen | Some b => Some b end);
  Some (mk_PLBase64Encoder [0; 0] 0 line_length 0 None arg b buflen 0).

Definition PL_CreateBase64Encoder `{NSPRHeap} (fn : option (A → list Z → A * Z)) (arg : A)
    (ll : Z) : option (PLBase64Encoder A) :=
  f ← fn;
  data ← pl_base64_create_encoder arg ll None 0;
  Some (mk_PLBase64Encoder (in_buffer data) (in_buffer_count data) (line_length data)
          (current_column data) (Some f) arg (output_buffer data) (output_buflen data)
          (output_length data)).

Definition PL_UpdateBase64Encoder data (buffer : list Z) (size : Z)
    : mem_res (PRStatus * PLBase64Encoder A) :=
  if size =? 0 then Ok (PR_FAILURE (Some PR_INVALID_ARGUMENT_ERROR), data)
  else pl_base64_encode_buffer data buffer size.

(** The encoder is released; what remains is the caller's state. *)
Definition PL_DestroyBase64Encoder data (abort_p : bool) : mem_res (PRStatus * A) :=
  if abort_p then Ok (PR_SUCCESS, output_arg data)
  else '(status, data) ← pl_base64_encode_flush data; Ok (status, output_arg data).

(** The NSS cover functions: an NSSBase64Encoder holds nothing but a pointer
    to the encoder; lines are 64 characters long. *)
Definition NSSBase64Encoder_Create `{NSPRHeap} (fn : option (A → list Z → A * Z)) (arg : A)
    : option (PLBase64Encoder A) :=
  match PORT_ZAlloc 8 with
  | Ok _ => PL_CreateBase64Encoder fn arg 64
  | _ => None
  end.

Definition NSSBase64Encoder_Update data (buffer : list Z) (size : Z)
    : mem_res (PRStatus * PLBase64Encoder A) :=
  PL_UpdateBase64Encoder data buffer size.

Definition NSSBase64Encoder_Destroy data (abort_p : bool) : mem_res (PRStatus * A) :=
  PL_DestroyBase64Encoder data abort_p.

(** A client that pushes its chunks and then destroys the encoder, aborting
    at the first failure. *)
Fixpoint encode_chunks data (chunks : list (list Z)) : mem_res (PRStatus * A) :=
  match chunks with
  | [] => NSSBase64Encoder_Destroy data false
  | c :: chunks =>
      '(status, data) ← NSSBase64Encoder_Update data c (Z.of_nat (length c));
      match status with
      | PR_SUCCESS => encode_chunks data chunks
      | PR_FAILURE e => '(_, a) ← NSSBase64Encoder_Destroy data true; Ok (PR_FAILURE e, a)
      end
  end.
End Encoder.

(** The result is the buffer and its populated length; [destlen] is the value
    of [*output_destlen] before the call.  The buffer operation has no output
    function, so the caller's state is [unit]. *)
Definition PL_Base64EncodeBuffer `{NSPRHeap} (src : list Z) (srclen ll : Z)
    (dest : option (list Z)) (maxdestlen destlen : Z)
    : res (option PRErrorCode) (option (list Z) * Z) :=
  if srclen =? 0 then Ok (dest, destlen) else
  let need_length := PL_Base64MaxEncodedLength srclen ll in
  if need_length =? 0 then Err (Some (SEC_ERROR SEC_ERROR_INVALID_ARGS)) else
  if bool_decide (is_Some dest) && (maxdestlen <? need_length)
  then Err (Some PR_BUFFER_OVERFLOW_ERROR) else
  let maxdestlen := match dest with Some _ => maxdestlen | None => need_length end in
  match pl_base64_create_encoder tt ll dest maxdestlen with
  | None => Err (Some PR_OUT_OF_MEMORY_ERROR)
  | Some data =>
      '(status, data) ← lift (pl_base64_encode_buffer data src srclen);
      '(status, data) ← (match status with
                         | PR_SUCCESS => lift (pl_base64_encode_flush data)
                         | _ => Ok (status, data)
                         end);
      match status with
      | PR_FAILURE e => Err e
      | PR_SUCCESS =>
          '(status, _) ← lift (PL_DestroyBase64Encoder
                                 (set_output data tt [] (output_length data)) false);
          match status with
          | PR_FAILURE e => Err e
          | PR_SUCCESS => Ok (Some (output_buffer data), output_length data)
          end
      end
  end.

(** An item: [None] is a NULL data pointer. *)
Record SECItem := mk_SECItem { item_data : option (list Z); item_len : Z }.

(** An arena is its allocator; marks and releases do not change the result. *)
Definition arena_or_heap `{NSPRHeap} (arenaOpt : option (Z → option (list Z))) (n : Z)
    : option (list Z) :=
  match arenaOpt with
  | Some arena => arena n
  | None => match PORT_Alloc n with Ok b => Some b | _ => None end
  end.

Definition NSSBase64_EncodeItem `{NSPRHeap} (arenaOpt : option (Z → option (list Z)))
    (outStrOpt : option (list Z)) (maxOutLen : Z) (inItem : option SECItem)
    : res (option PRErrorCode) (list Z) :=
  match inItem with
  | Some (mk_SECItem (Some idata) ilen) =>
      if ilen =? 0 then Err (Some (SEC_ERROR SEC_ERROR_INVALID_ARGS)) else
      let max_out_len := PL_Base64MaxEncodedLength ilen 64 in
      if max_out_len =? 0 then Err (Some (SEC_ERROR SEC_ERROR_INVALID_ARGS)) else
      '(out_string, max_out_len) ←
        (match outStrOpt with
         | None =>
             match arena_or_heap arenaOpt (u32 (max_out_len + 1)) with
             | Some b => Ok (b, max_out_len)
             | None => Err (Some PR_OUT_OF_MEMORY_ERROR)
             end
         | Some b =>
             if u32 (max_out_len + 1) >? maxOutLen
             then Err (Some (SEC_ERROR SEC_ERROR_OUTPUT_LEN)) else Ok (b, maxOutLen)
         end);
      '(out, out_len) ← PL_Base64EncodeBuffer idata ilen 64 (Some out_string) max_out_len 0;
      match out with
      | None => Err None
      | Some out_string => mem_write out_string (Z.to_nat out_len) [0]
      end
  | _ => Err (Some (SEC_ERROR SEC_ERROR_INVALID_ARGS))
  end.

(** ** Reference encoding

    Groups of three octets are tokens of four letters, a last shorter group is
    padded, and a line break goes before a token that would start past the
    line length. *)

Definition letter (v : Z) : Z := base64_valuetocode !!! Z.to_nat v.

Definition quad (n : Z) : list Z :=
  [letter (n / 2 ^ 18 mod 64); letter (n / 2 ^ 12 mod 64);
   letter (n / 2 ^ 6 mod 64); letter (n mod 64)].

#[global] Arguments codes : simpl never.
#[global] Arguments quad : simpl never.
#[global] Arguments letter : simpl never.

Definition last_token (l : list Z) : list (list Z) :=
  match l with
  | [a] => [take 2 (quad (be_val [a; 0; 0])) ++ [B64_PAD; B64_PAD]]
  | [a; b] => [take 3 (quad (be_val [a; b; 0])) ++ [B64_PAD]]
  | _ => []
  end.

Fixpoint full_tokens (l : list Z) : list (list Z) :=
  match l with
  | a :: b :: c :: l => quad (be_val [a; b; c]) :: full_tokens l
  | _ => []
  end.

Fixpoint leftover (l : list Z) : list Z :=
  match l with
  | _ :: _ :: _ :: l => leftover l
  | l => l
  end.

Definition b64_tokens (l : list Z) : list (list Z) := full_tokens l ++ last_token (leftover l).

Fixpoint layout (L col : Z) (ts : list (list Z)) : list Z :=
  match ts with
  | [] => []
  | t :: ts =>
      if (0 <? L) && (col >=? L) then [B64_CR; B64_LF] ++ t ++ layout L 4 ts
      else t ++ layout L (col + 4) ts
  end.

Definition b64_text (L : Z) (l : list Z) : list Z := layout L 0 (b64_tokens l).

(** The column after a number of tokens; it is only kept when lines are
    broken. *)
Fixpoint col_after (L col : Z) (ts : list (list Z)) : Z :=
  match ts with
  | [] => col
  | _ :: ts => if 0 <? L then col_after L (if col >=? L then 4 else col + 4) ts
               else col_after L col ts
  end.

Lemma list3_ind (P : list Z → Prop) :
  P [] → (∀ a, P [a]) → (∀ a b, P [a; b]) → (∀ a b c l, P l → P (a :: b :: c :: l)) →
  ∀ l, P l.
Proof.
  intros H0 H1 H2 H3. fix IH 1. intros [|a [|b [|c l]]]; [done|apply H1|apply H2|].
  apply H3, IH.
Qed.

Lemma full_tokens_app x y : full_tokens (x ++ y) = full_tokens x ++ full_tokens (leftover x ++ y).
Proof. induction x using list3_ind; simpl; [done..|]. by f_equal. Qed.

Lemma leftover_app x y : leftover (x ++ y) = leftover (leftover x ++ y).
Proof. by induction x using list3_ind. Qed.

Lemma length_leftover x : (length (leftover x) = length x mod 3)%nat.
Proof.
  induction x as [| | |a b c l IH] using list3_ind; [done..|]. cbn [leftover length]. rewrite IH.
  replace (S (S (S (length l)))) with (length l + 1 * 3)%nat by lia. by rewrite Nat.Div0.mod_add.
Qed.

Lemma leftover_lt x : (length (leftover x) < 3)%nat.
Proof. rewrite length_leftover. apply Nat.mod_upper_bound. lia. Qed.

Lemma leftover_short x : (length x < 3)%nat → leftover x = x.
Proof. destruct x as [|a [|b [|c l]]]; simpl; [done..|lia]. Qed.

Lemma full_tokens_short x : (length x < 3)%nat → full_tokens x = [].
Proof. destruct x as [|a [|b [|c l]]]; simpl; [done..|lia]. Qed.

Lemma leftover_drop x : leftover x = drop (length x - length x mod 3) x.
Proof.
  induction x as [| | |a b c l IH] using list3_ind; [done..|].
  cbn [leftover]. rewrite IH.
  replace (length (a :: b :: c :: l)) with (length l + 1 * 3)%nat by (simpl; lia).
  rewrite Nat.Div0.mod_add.
  assert (length l mod 3 ≤ length l)%nat by (apply Nat.Div0.mod_le).
  replace (length l + 1 * 3 - length l mod 3)%nat with (S (S (S (length l - length l mod 3)))) by lia.
  done.
Qed.

Lemma full_tokens_take x : full_tokens x = full_tokens (take (length x - length x mod 3) x).
Proof.
  pose proof (leftover_drop x) as Hd. pose proof (Nat.Div0.mod_le (length x) 3) as Hle.
  rewrite <- (firstn_skipn (length x - length x mod 3) x) at 1.
  rewrite full_tokens_app, <- Hd.
  assert (Hl : leftover (take (length x - length x mod 3) x) = []).
  { apply nil_length_inv. rewrite length_leftover, length_take, Nat.min_l by lia.
    rewrite (Nat.Div0.div_mod (length x) 3) at 1.
    replace (3 * (length x `div` 3) + length x mod 3 - length x mod 3)%nat
      with (length x `div` 3 * 3)%nat by lia. apply Nat.Div0.mod_mul. }
  rewrite Hl. simpl. rewrite (full_tokens_short (leftover x)) by apply leftover_lt.
  by rewrite app_nil_r.
Qed.

(** Without line breaks the column does not matter. *)
Lemma layout_unbroken L c c' ts : L ≤ 0 → layout L c ts = layout L c' ts.
Proof.
  intros HL. revert c c'. induction ts as [|t ts IH]; intros c c'; [done|]. cbn [layout].
  rewrite (proj2 (Z.ltb_ge 0 L)) by lia. cbn [andb]. f_equal. apply IH.
Qed.

Lemma layout_app L col ts1 ts2 :
  layout L col (ts1 ++ ts2) = layout L col ts1 ++ layout L (col_after L col ts1) ts2.
Proof.
  revert col. induction ts1 as [|t ts1 IH]; intros col; [done|]. cbn [layout col_after app].
  destruct (Z.ltb_spec 0 L); cbn [andb].
  - destruct (col >=? L); rewrite IH; simpl; by rewrite <- app_assoc.
  - rewrite IH, <- app_assoc. f_equal. f_equal.
    by apply layout_unbroken.
Qed.

Section EncoderProofs.
  Context {A : Type}.
  Implicit Types data : PLBase64Encoder A.

(** ** The loop as a walk over tokens *)

Definition emit_one data (t : list Z) : mem_res (PLBase64Encoder A) :=
  data ← line_break data;
  let data := if 0 <? line_length data
              then set_column data (u32 (current_column data + 4)) else data in
  put data t.

Fixpoint emit_all data (ts : list (list Z)) : mem_res (PRStatus * PLBase64Encoder A) :=
  match ts with
  | [] => Ok (PR_SUCCESS, data)
  | t :: ts =>
      data ← emit_one data t;
      if output_length data >=? u32 (output_buflen data - 3) then
        match output_fn data with
        | Some f =>
            let '(a, r) := call_output data f in
            if r <? 0
            then Ok (PR_FAILURE (Some (OUTPUT_FN_ERROR r)),
                     set_output data a (output_buffer data) (output_length data))
            else emit_all (set_output data a (output_buffer data) 0) ts
        | None => if decide (ts = []) then Ok (PR_SUCCESS, data)
                  else Ok (PR_FAILURE (Some PR_BUFFER_OVERFLOW_ERROR), data)
        end
      else emit_all data ts
  end.

Lemma codes_quad n : codes n = quad n.
Proof.
  unfold codes, quad, letter. cbn [fmap list_fmap].
  change 0x3F with (2 ^ 6 - 1). rewrite !land_ones_mod, !Z.shiftr_div_pow2 by lia.
  by rewrite Z.pow_0_r, Z.div_1_r.
Qed.

Lemma fill_spec turns pend p (inp : list Z) :
  bytes pend → bytes inp → (length pend + turns ≤ 3)%nat → (p + turns ≤ length inp)%nat →
  fill turns (be_val pend) p inp = Ok (be_val (pend ++ take turns (drop p inp)), (p + turns)%nat).
Proof.
  revert pend p. induction turns as [|turns IH]; intros pend p Hp Hi Hl Hlen; cbn [fill].
  - rewrite take_0, app_nil_r, Nat.add_0_r. done.
  - destruct (lookup_lt_is_Some_2 inp p) as [b Hb]; [lia|]. rewrite Hb.
    assert (Hbb : is_byte b) by (eapply Forall_lookup_1; eauto). unfold is_byte in Hbb.
    pose proof (be_val_range pend Hp) as Hr.
    assert (256 ^ length pend ≤ 256 ^ 2) by (apply Z.pow_le_mono_r; lia).
    rewrite lor_shift_add by lia. change (2 ^ 8) with 256. rewrite <- be_val_snoc.
    assert (Hpb : bytes (pend ++ [b])) by (apply Forall_app; split; [done|by constructor]).
    rewrite wrap_small.
    2: { rewrite be_val_snoc. change (2 ^ 32) with 4294967296. change (256 ^ 2) with 65536 in *. lia. }
    rewrite IH; [|done|done|rewrite length_app; simpl; lia|lia].
    rewrite <- app_assoc. do 2 f_equal; [|lia]. f_equal. f_equal.
    rewrite (drop_S _ b p) by done. done.
Qed.

Lemma full_tokens_group g r : length g = 3%nat → full_tokens (g ++ r) = quad (be_val g) :: full_tokens r.
Proof. intros H. destruct g as [|a [|b [|c [|]]]]; simplify_eq/=. done. Qed.

Lemma full_tokens_nil r : (length r mod 3 = 0)%nat → (full_tokens r = [] ↔ length r = 0%nat).
Proof.
  destruct r as [|a [|b [|c r]]]; intros H; simpl in *; [done|discriminate H..|]. split; done.
Qed.

Lemma encode_loop_emit k : ∀ fuel data inp p e pend,
  bytes pend → bytes inp → (length pend < 3)%nat → (e ≤ length inp)%nat → (p ≤ e)%nat →
  (length pend + (e - p) = 3 * k)%nat → (k < fuel)%nat →
  encode_loop fuel data inp p e (length pend) (be_val pend) =
  emit_all data (full_tokens (pend ++ take (e - p) (drop p inp))).
Proof.
  induction k as [|k IH]; intros [|fuel] data inp p e pend Hp Hi Hl He Hpe Hk Hf; try lia;
    cbn [encode_loop].
  - rewrite decide_False by lia. replace (e - p)%nat with 0%nat by lia.
    rewrite take_0, app_nil_r. destruct pend; [done|simpl in Hk; lia].
  - rewrite decide_True by lia. rewrite fill_spec by (done || lia). cbn [mbind res_bind].
    set (t := (3 - length pend)%nat). set (p' := (p + t)%nat).
    set (g := pend ++ take t (drop p inp)).
    assert (Hg : length g = 3%nat).
    { unfold g. rewrite length_app, length_take, length_drop. unfold t. lia. }
    assert (Hsplit : pend ++ take (e - p) (drop p inp) = g ++ take (e - p') (drop p' inp)).
    { unfold g. rewrite <- app_assoc. f_equal. rewrite <- (firstn_skipn t (take (e - p) _)).
      rewrite take_take, skipn_firstn_comm, drop_drop. unfold p', t in *. do 2 f_equal; lia. }
    rewrite Hsplit, full_tokens_group by done. cbn [emit_all]. unfold emit_one.
    destruct (line_break data) as [data1|[]|]; cbn [mbind res_bind]; [|done].
    rewrite codes_quad.
    destruct (put _ _) as [data2|[]|]; cbn [mbind res_bind]; [|done].
    assert (Hrec : ∀ d, encode_loop fuel d inp p' e 0 0 =
                        emit_all d (full_tokens (take (e - p') (drop p' inp)))).
    { intros d. apply (IH fuel d inp p' e []); try done; try (simpl; unfold p', t; lia). }
    assert (Hnil : (p' < e)%nat ↔ full_tokens (take (e - p') (drop p' inp)) ≠ []).
    { rewrite full_tokens_nil; rewrite length_take, length_drop, Nat.min_l by (unfold p', t; lia); [lia|].
      replace (e - p')%nat with (k * 3)%nat by (unfold p', t; lia). apply Nat.Div0.mod_mul. }
    destruct (_ >=? _); [|apply Hrec].
    destruct (output_fn data2) as [f|].
    + destruct (call_output data2 f) as [a r]. case_match; [done|apply Hrec].
    + destruct (decide (p' < e)%nat) as [Hlt|Hlt]; case_decide as Hn; [tauto|done| |tauto].
      rewrite Hrec.
      replace (e - p')%nat with 0%nat by (unfold p', t in *; lia). done.
Qed.

(** ** Updates *)

Definition pending data : list Z := take (in_buffer_count data) (in_buffer data).

Record pending_wf data : Prop := mk_pending_wf {
  pw_len : length (in_buffer data) = 2%nat;
  pw_bytes : bytes (in_buffer data);
  pw_count : (in_buffer_count data ≤ 2)%nat;
}.

Lemma get_Some (l : list Z) i b : l !! i = Some b → get l i = Ok b.
Proof. unfold get. by intros ->. Qed.

(** The octets put back: at most two, at the front of the input buffer. *)
Lemma put_back (inp : list Z) (e : nat) (buf rest : list Z) :
  length buf = 2%nat → bytes buf → bytes inp → drop e inp = rest → (length rest ≤ 2)%nat →
  rest ≠ [] →
  ∃ b0 buf', get inp e = Ok b0 ∧
    (if 1 <? Z.of_nat (length rest) then b1 ← get inp (S e); Ok (<[1%nat := b1]> (<[0%nat := b0]> buf))
     else Ok (<[0%nat := b0]> buf)) = Ok (E:=Empty_set) buf' ∧
    length buf' = 2%nat ∧ bytes buf' ∧ take (length rest) buf' = rest.
Proof.
  intros Hl Hb Hi Hd Hr Hne. destruct buf as [|x [|y [|]]]; simplify_eq/=.
  apply Forall_cons_1 in Hb as [Hx [Hy _]%Forall_cons_1].
  assert (Hlk : ∀ j, drop e inp !! j = inp !! (e + j)%nat) by (intros; apply lookup_drop).
  assert (Hd' : bytes (drop e inp)) by (by apply Forall_drop).
  destruct (drop e inp) as [|b0 [|b1 [|]]] eqn:E; try done; simplify_eq/=; [| |lia].
  - pose proof (Hlk 0%nat) as H0. rewrite Nat.add_0_r in H0. simpl in H0.
    apply Forall_cons_1 in Hd' as [? _].
    exists b0, [b0; y]. rewrite (get_Some _ _ _ (eq_sym H0)). split_and!; try done.
    repeat (apply Forall_cons_2; [done|]); constructor.
  - pose proof (Hlk 0%nat) as H0. pose proof (Hlk 1%nat) as H1.
    rewrite Nat.add_0_r in H0. rewrite Nat.add_1_r in H1. simpl in H0, H1.
    apply Forall_cons_1 in Hd' as [? [? _]%Forall_cons_1].
    exists b0, [b0; b1]. rewrite (get_Some _ _ _ (eq_sym H0)), (get_Some _ _ _ (eq_sym H1)).
    split_and!; try done. repeat (apply Forall_cons_2; [done|]); constructor.
Qed.

Lemma pending_value data :
  pending_wf data →
  put_back_value data = be_val (pending data) ∧ length (pending data) = in_buffer_count data.
Proof.
  intros [Hl Hb Hc]. unfold pending, put_back_value.
  destruct (in_buffer data) as [|x [|y [|]]]; simplify_eq/=.
  apply Forall_cons_1 in Hb as [Hx [Hy _]%Forall_cons_1]. unfold is_byte in *.
  destruct (in_buffer_count data) as [|[|[|c]]]; [done|done| |lia].
  split; [|done]. rewrite !decide_True by lia. cbn [list_lookup_total lookup_total].
  unfold be_val. cbn [take fold_left]. rewrite lor_shift_add by lia.
  change (2 ^ 8) with 256. rewrite wrap_small; [lia|]. change (2 ^ 32) with 4294967296. lia.
Qed.

Lemma encode_buffer_short data inp (size := Z.of_nat (length inp)) (y := pending data ++ inp) :
  pending_wf data → bytes inp → inp ≠ [] → size < 3 - in_buffer_count data →
  ∃ buf', length buf' = 2%nat ∧ bytes buf' ∧ take (length y) buf' = y ∧ (length y < 3)%nat ∧
    pl_base64_encode_buffer data inp size = Ok (PR_SUCCESS, set_pending data buf' (length y)).
Proof.
  intros [Hl Hb Hc] Hi Hne Hs. unfold pl_base64_encode_buffer.
  rewrite (proj2 (Z.ltb_lt size _)) by lia. unfold y, size, pending in *.
  destruct (in_buffer data) as [|u [|v [|]]]; simplify_eq/=.
  apply Forall_cons_1 in Hb as [Hu [Hv _]%Forall_cons_1].
  destruct inp as [|b0 [|b1 inp]]; [done| |]; apply Forall_cons_1 in Hi as [Hb0 Hi].
  - destruct (in_buffer_count data) as [|[|c]]; simpl; [| |simpl in Hs; lia].
    + exists [b0; v]. split_and!; [done|repeat (apply Forall_cons_2; [done|]); constructor|done|lia|done].
    + exists [u; b0]. split_and!; [done|repeat (apply Forall_cons_2; [done|]); constructor|done|lia|done].
  - apply Forall_cons_1 in Hi as [Hb1 _].
    destruct inp as [|b2 inp]; [|simpl in Hs; lia].
    destruct (in_buffer_count data) as [|c]; simpl; [|simpl in Hs; lia].
    exists [b0; b1]. split_and!; [done|repeat (apply Forall_cons_2; [done|]); constructor|done|lia|done].
Qed.

Lemma encode_buffer_emit data inp (size := Z.of_nat (length inp)) (y := pending data ++ inp) :
  pending_wf data → bytes inp → inp ≠ [] → size + 2 < 2 ^ 32 →
  ∃ buf', length buf' = 2%nat ∧ bytes buf' ∧ take (length (leftover y)) buf' = leftover y ∧
    pl_base64_encode_buffer data inp size =
    emit_all (set_pending data buf' (length (leftover y))) (full_tokens y).
Proof.
  intros Hwf Hi Hne Hsz. destruct (decide (size < 3 - in_buffer_count data)) as [Hs|Hs].
  { destruct (encode_buffer_short data inp Hwf Hi Hne Hs) as (buf' & ? & ? & Ht & Hy & He).
    exists buf'. unfold y. rewrite leftover_short, full_tokens_short by done. done. }
  destruct (pending_value data Hwf) as [Hn Hpl]. destruct Hwf as [Hl Hb Hc].
  assert (Hpb : bytes (pending data)) by (by apply Forall_take).
  unfold pl_base64_encode_buffer. rewrite (proj2 (Z.ltb_ge size _)) by lia. rewrite Hn.
  assert (Hsize : size = length inp) by done.
  assert (Hylen : length y = (in_buffer_count data + length inp)%nat)
    by (unfold y; rewrite length_app; lia).
  set (r := (length y mod 3)%nat).
  assert (Hr : (r < 3)%nat) by (apply Nat.mod_upper_bound; lia).
  assert (Hoff : u32 (size + in_buffer_count data) mod 3 = r).
  { rewrite wrap_small by lia. unfold r, size. rewrite Nat2Z.inj_mod. do 2 f_equal. lia. }
  rewrite Hoff. set (e := (length inp - r)%nat).
  pose proof (Nat.Div0.div_mod (length y) 3) as Hdm. fold r in Hdm.
  assert (Hq : (1 ≤ length y / 3)%nat).
  { apply Nat.div_le_lower_bound; lia. }
  assert (Hle : leftover y = drop e inp).
  { rewrite leftover_drop. fold r. rewrite Hylen. unfold y. rewrite drop_app_ge by lia. f_equal. unfold e. lia. }
  assert (Hlr : length (leftover y) = r) by apply length_leftover.
  assert (Hloop : ∀ d, encode_loop (S (Z.to_nat size)) d inp 0 e (in_buffer_count data)
                         (be_val (pending data)) = emit_all d (full_tokens y)).
  { intros d. rewrite <- Hpl. rewrite (encode_loop_emit (length y / 3)); try done; try (unfold e; lia).
    rewrite drop_0, Nat.sub_0_r, (full_tokens_take y). fold r. rewrite Hylen. unfold y.
    rewrite take_app_ge by lia. do 4 f_equal. unfold e. lia. }
  rewrite Hlr. destruct (Z.ltb_spec 0 r) as [Hr0|Hr0].
  - destruct (put_back inp e (in_buffer data) (leftover y)) as (b0 & buf' & Hg0 & Hbuf & ? & ? & Ht);
      [done..| |intros Hnil; rewrite Hnil in Hlr; simpl in Hlr; lia|]; [lia|].
    exists buf'. rewrite Hlr in Ht, Hbuf. split_and!; try done.
    replace (Z.to_nat (size - r)) with e by (unfold e, size; lia).
    replace (Z.to_nat (size - r + 1)) with (S e) by (unfold e, size; lia).
    rewrite Hg0. cbn [mbind res_bind]. rewrite Hbuf. cbn [mbind res_bind].
    rewrite Nat2Z.id. apply Hloop.
  - exists (in_buffer data). split_and!; try done.
    { replace r with 0%nat by lia. rewrite take_0.
      symmetry. apply nil_length_inv. lia. }
    replace r with 0%nat by lia.
    replace (Z.to_nat size) with e at 2 by (unfold e, size; lia). apply Hloop.
Qed.

(** ** Output *)

Definition text data : list Z := take (Z.to_nat (output_length data)) (output_buffer data).

Record out_wf data : Prop := mk_out_wf {
  ow_buf : output_buflen data ≤ Z.of_nat (length (output_buffer data));
  ow_len : 0 ≤ output_length data ≤ output_buflen data;
  ow_buflen : 4 ≤ output_buflen data < 2 ^ 32;
  ow_line : 0 ≤ line_length data ≤ 2 ^ 32 - 4;
  ow_col : 0 ≤ current_column data;
}.

(** What emitting text leaves alone. *)
Record frame data data' : Prop := mk_frame {
  fr_in : in_buffer data' = in_buffer data;
  fr_count : in_buffer_count data' = in_buffer_count data;
  fr_line : line_length data' = line_length data;
  fr_fn : output_fn data' = output_fn data;
  fr_buflen : output_buflen data' = output_buflen data;
  fr_block : length (output_buffer data') = length (output_buffer data);
}.

#[global] Instance frame_preorder : PreOrder frame.
Proof.
  split; [by intros d|]. intros d1 d2 d3 [] []. split; congruence.
Qed.

Lemma put_spec data bs :
  out_wf data → output_length data + length bs ≤ output_buflen data →
  ∃ data', put data bs = Ok data' ∧ out_wf data' ∧ frame data data' ∧
    text data' = text data ++ bs ∧ output_length data' = output_length data + length bs ∧
    output_arg data' = output_arg data ∧ current_column data' = current_column data.
Proof.
  intros [Hb Hl Hn HL Hc] Hfit. unfold put.
  destruct (mem_write (E:=Empty_set) (output_buffer data) (Z.to_nat (output_length data)) bs)
    as [b|[]|] eqn:Hw.
  2: { unfold mem_write in Hw. case_decide; [done|lia]. }
  cbn [mbind res_bind]. rewrite (wrap_small 32 (_ + _)) by lia.
  eexists. split; [done|]. pose proof (mem_write_length _ _ _ _ Hw) as Hlen.
  apply mem_write_take in Hw.
  split; [split; simpl; lia|]. split; [by split|]. unfold text. simpl.
  rewrite Z2Nat.inj_add, Nat2Z.id, Hw by lia. done.
Qed.

Definition breaks data : bool := (0 <? line_length data) && (current_column data >=? line_length data).

Definition next_column data : Z :=
  if 0 <? line_length data then
    if current_column data >=? line_length data then 4 else current_column data + 4
  else current_column data.

Lemma line_break_spec data :
  out_wf data → (breaks data = true → output_length data + 2 ≤ output_buflen data) →
  ∃ data', line_break data = Ok data' ∧ out_wf data' ∧ frame data data' ∧
    text data' = text data ++ (if breaks data then [B64_CR; B64_LF] else []) ∧
    output_length data' = output_length data + (if breaks data then 2 else 0) ∧
    output_arg data' = output_arg data ∧
    current_column data' = (if breaks data then 0 else current_column data).
Proof.
  intros Hwf Hfit. unfold line_break. fold (breaks data). destruct (breaks data).
  - destruct (put_spec (set_column data 0) [B64_CR; B64_LF]) as (d & -> & ? & Hfr & ? & ? & ? & ?).
    + destruct Hwf. by split.
    + simpl. specialize (Hfit eq_refl). lia.
    + exists d. split_and!; try done. destruct Hfr. by split.
  - exists data. rewrite app_nil_r, Z.add_0_r. done.
Qed.

Lemma emit_one_spec data t :
  out_wf data → length t = 4%nat →
  output_length data + (if breaks data then 6 else 4) ≤ output_buflen data →
  ∃ data', emit_one data t = Ok data' ∧ out_wf data' ∧ frame data data' ∧
    text data' = text data ++ (if breaks data then [B64_CR; B64_LF] else []) ++ t ∧
    output_length data' = output_length data + (if breaks data then 6 else 4) ∧
    output_arg data' = output_arg data ∧ current_column data' = next_column data.
Proof.
  intros Hwf Ht Hfit. unfold emit_one.
  destruct (line_break_spec data Hwf) as (d1 & -> & Hwf1 & Hfr1 & Ht1 & Hl1 & Ha1 & Hc1).
  { intros Hbr. rewrite Hbr in Hfit. lia. }
  cbn [mbind res_bind]. pose proof (fr_line _ _ Hfr1) as HL.
  set (d2 := if 0 <? line_length d1 then _ else _).
  assert (Hd2 : d2 = set_column d1 (next_column data)).
  { unfold d2, next_column. rewrite HL.
    destruct (Z.ltb_spec 0 (line_length data)).
    - rewrite Hc1. unfold breaks. rewrite (proj2 (Z.ltb_lt 0 (line_length data))) by lia. cbn [andb].
      destruct Hwf. rewrite Z.geb_leb. destruct (Z.leb_spec (line_length data) (current_column data)).
      + by rewrite wrap_small by lia.
      + by rewrite wrap_small by lia.
    - destruct d1. simpl in *. unfold breaks in Hc1.
      rewrite (proj2 (Z.ltb_ge 0 (line_length data))) in Hc1 by lia. cbn [andb] in Hc1. by subst. }
  rewrite Hd2. pose proof (fr_buflen _ _ Hfr1).
  destruct (put_spec (set_column d1 (next_column data)) t) as (d3 & -> & ? & Hfr3 & Ht3 & Hl3 & ? & ?).
  - destruct Hwf1. split; try done. simpl. unfold next_column. destruct Hwf. repeat case_match; lia.
  - simpl. rewrite Ht, Hl1. destruct (breaks data); lia.
  - exists d3. split; [done|]. split; [done|]. split.
    { transitivity d1; [done|]. destruct Hfr3. by split. }
    rewrite Ht3, Hl3. unfold text in *. simpl in *. rewrite Ht1, Hl1, Ht, <- app_assoc.
    split_and!; try done; [destruct (breaks data); simpl; lia|congruence].
Qed.

Lemma layout_step data t ts :
  layout (line_length data) (current_column data) (t :: ts) =
  (if breaks data then [B64_CR; B64_LF] else []) ++ t ++
  layout (line_length data) (next_column data) ts.
Proof.
  cbn [layout]. unfold breaks, next_column. destruct (Z.ltb_spec 0 (line_length data)); cbn [andb].
  - by destruct (current_column data >=? line_length data).
  - simpl. f_equal. by apply layout_unbroken.
Qed.

Lemma col_after_step data t ts :
  col_after (line_length data) (current_column data) (t :: ts) =
  col_after (line_length data) (next_column data) ts.
Proof. cbn [col_after]. unfold next_column. by case_match. Qed.
End EncoderProofs.

Section Flush.
  Context {A : Type}.
  Implicit Types data : PLBase64Encoder A.

(** The padded token is the last token of the reference encoding. *)
Lemma flush_code data :
  pending_wf data → pending data ≠ [] →
  let i := in_buffer_count data in
  let n := Z.shiftl (in_buffer data !!! 0%nat) 16 in
  let n := if decide (1 < i)%nat then Z.lor n (Z.shiftl (in_buffer data !!! 1%nat) 8) else n in
  let out := codes n in
  let out := if decide (i = 1%nat) then <[2%nat := B64_PAD]> out else out in
  last_token (pending data) = [<[3%nat := B64_PAD]> out].
Proof.
  intros [Hl Hb Hc] Hne. unfold pending in *.
  destruct (in_buffer data) as [|x [|y [|]]]; try discriminate Hl.
  apply Forall_cons_1 in Hb as [Hx [Hy _]%Forall_cons_1]. unfold is_byte in *.
  destruct (in_buffer_count data) as [|[|[|c]]]; [done| | |lia]; rewrite codes_quad;
    cbn -[quad be_val Z.shiftl Z.lor].
  - unfold be_val. cbn -[quad Z.mul Z.shiftl]. rewrite Z.shiftl_mul_pow2 by lia.
    replace (((0 * 256 + x) * 256 + 0) * 256 + 0) with (x * 2 ^ 16) by lia. done.
  - unfold be_val. cbn -[quad Z.mul Z.shiftl Z.lor].
    rewrite (Z.shiftl_mul_pow2 y) by lia. rewrite lor_shift_add by lia.
    replace (((0 * 256 + x) * 256 + y) * 256 + 0) with (x * 2 ^ 16 + y * 2 ^ 8) by lia. done.
Qed.

Lemma flush_pending_spec data :
  out_wf data → pending_wf data →
  (pending data ≠ [] → output_length data + (if breaks data then 6 else 4) ≤ output_buflen data) →
  ∃ data', flush_pending data = Ok data' ∧ out_wf data' ∧
    text data' = text data ++
      layout (line_length data) (current_column data) (last_token (pending data)) ∧
    output_fn data' = output_fn data ∧ output_arg data' = output_arg data ∧
    in_buffer_count data' = 0%nat ∧
    length (output_buffer data') = length (output_buffer data).
Proof.
  intros Hwf Hpw Hfit. unfold flush_pending.
  destruct (pending_value data Hpw) as [_ Hpl].
  destruct (decide (0 < in_buffer_count data)%nat) as [Hi|Hi].
  - assert (Hne : pending data ≠ []) by (intros E; rewrite E in Hpl; simpl in Hpl; lia).
    rewrite (flush_code data Hpw Hne). specialize (Hfit Hne).
    set (t := <[3%nat := B64_PAD]> _).
    assert (Ht : length t = 4%nat).
    { unfold t. rewrite length_insert. case_decide; rewrite ?length_insert; done. }
    clearbody t. set (d0 := set_pending data (in_buffer data) 0).
    assert (Hb0 : breaks d0 = breaks data) by done.
    destruct (line_break_spec d0) as (d1 & -> & Hwf1 & Hfr1 & Ht1 & Hl1 & Ha1 & Hc1).
    { destruct Hwf. by split. }
    { rewrite Hb0. intros Hbr. rewrite Hbr in Hfit. cbn. lia. }
    cbn [mbind res_bind]. rewrite Hb0 in *. pose proof (fr_buflen _ _ Hfr1) as HB.
    pose proof (fr_fn _ _ Hfr1) as HF. pose proof (fr_count _ _ Hfr1) as HC.
    pose proof (fr_block _ _ Hfr1) as HK. cbn in Hl1, HB, HF, Ha1, HC, HK.
    destruct (put_spec d1 t Hwf1) as (d2 & -> & ? & Hfr2 & Ht2 & Hl2 & ? & ?).
    { rewrite Ht, Hl1, HB. destruct (breaks data); lia. }
    exists d2. split; [done|]. split; [done|].
    rewrite layout_step, Ht2, Ht1, <- app_assoc. cbn [layout]. rewrite app_nil_r.
    destruct Hfr2. split_and!; [done|congruence..].
  - assert (in_buffer_count data = 0%nat) as H0 by lia. rewrite H0 in Hpl.
    apply nil_length_inv in Hpl. rewrite Hpl. cbn [last_token layout].
    exists data. rewrite app_nil_r. done.
Qed.

(** Flushing hands over (or leaves in the buffer) the text of the last token. *)
Lemma encode_flush_skip data :
  in_buffer_count data = 0%nat → output_length data = 0 →
  pl_base64_encode_flush data = Ok (PR_SUCCESS, data).
Proof. intros H1 H2. unfold pl_base64_encode_flush. by rewrite H1, H2. Qed.
End Flush.

(** ** Streaming *)

(** The caller's output function, and the text it has been handed; a
    non-negative result means it took the whole buffer. *)
Class Base64Sink (A : Type) := {
  sink_fn : A → list Z → A * Z;
  sink_sent : A → list Z;
  sink_law a buf : 0 ≤ (sink_fn a buf).2 → sink_sent (sink_fn a buf).1 = sink_sent a ++ buf;
}.

Section Streaming.
  Context {A : Type} `{Base64Sink A}.
  Implicit Types data : PLBase64Encoder A.

(** The output buffer is emptied exactly at line ends, so a line break always
    finds it empty. *)
Record stream_inv data : Prop := mk_stream_inv {
  si_wf : out_wf data;
  si_fn : output_fn data = Some sink_fn;
  si_shape :
    if 0 <? line_length data then
      output_buflen data = line_length data + 2 ∧ line_length data mod 4 = 0 ∧
      current_column data mod 4 = 0 ∧ current_column data ≤ line_length data ∧
      if current_column data =? line_length data then output_length data = 0
      else output_length data = current_column data ∨ output_length data = current_column data + 2
    else output_buflen data = 64 ∧ output_length data mod 4 = 0 ∧ output_length data ≤ 60;
}.

Definition stream_out data : list Z := sink_sent (output_arg data) ++ text data.

Lemma stream_inv_room data :
  stream_inv data → output_length data + (if breaks data then 6 else 4) ≤ output_buflen data.
Proof.
  intros [[? ? ? ? ?] _ Hs]. unfold breaks. destruct (Z.ltb_spec 0 (line_length data)); cbn [andb]; [|lia].
  destruct Hs as (? & ? & ? & ? & Hs). rewrite Z.geb_leb.
  destruct (Z.eqb_spec (current_column data) (line_length data)); case_match;
    Z.to_euclidean_division_equations; lia.
Qed.

(** After a token: the buffer is handed over exactly when a line is complete
    (or the 64 characters are full). *)
Lemma stream_inv_step data data' :
  stream_inv data → out_wf data' → frame data data' →
  output_length data' = output_length data + (if breaks data then 6 else 4) →
  current_column data' = next_column data →
  if output_length data' >=? u32 (output_buflen data' - 3)
  then ∀ a b, length b = length (output_buffer data') → stream_inv (set_output data' a b 0)
  else stream_inv data'.
Proof.
  intros [[? ? ? ? ?] Hfn Hs] [? ? ? ? ?] [_ _ HL Hfn' Hbl _] Hl Hc.
  rewrite wrap_small by lia.
  assert (Hshape : ∀ d, line_length d = line_length data' → output_buflen d = output_buflen data' →
            current_column d = current_column data' → output_fn d = output_fn data' →
            output_length d = (if output_length data' >=? output_buflen data' - 3 then 0
                               else output_length data') → out_wf d → stream_inv d).
  { intros d EL EB EC EF EO Hd. split; [done|congruence|].
    rewrite EL, EB, EC, EO, HL, Hbl, Hc, Hl. clear EO. unfold breaks, next_column in *.
    destruct (Z.ltb_spec 0 (line_length data)); cbn [andb] in *.
    - destruct Hs as (? & ? & ? & ? & Hs). rewrite !Z.geb_leb in *.
      destruct (Z.eqb_spec (current_column data) (line_length data)) as [He|He].
      + destruct (Z.leb_spec (line_length data) (current_column data)); [|lia].
        split_and!; [done|done|done|Z.to_euclidean_division_equations; lia|].
        destruct (Z.eqb_spec 4 (line_length data)); destruct (_ <=? _) eqn:?;
          Z.to_euclidean_division_equations; lia.
      + destruct (Z.leb_spec (line_length data) (current_column data)); [lia|].
        split_and!; [done|done| |Z.to_euclidean_division_equations; lia|].
        { Z.to_euclidean_division_equations; lia. }
        destruct (Z.eqb_spec (current_column data + 4) (line_length data));
          destruct (_ <=? _) eqn:?; Z.to_euclidean_division_equations; lia.
    - destruct Hs as (? & ? & ?). split_and!; [lia| |].
      + case_match; [done|]. Z.to_euclidean_division_equations; lia.
      + rewrite Z.geb_leb. case_match; [lia|]. Z.to_euclidean_division_equations; lia. }
  destruct (output_length data' >=? output_buflen data' - 3) eqn:E.
  - intros a b Hb. apply Hshape; try done. split; simpl; try lia; done.
  - by apply Hshape.
Qed.

Definition sink_failed (st : PRStatus) : Prop :=
  ∃ r, r < 0 ∧ st = PR_FAILURE (Some (OUTPUT_FN_ERROR r)).

Lemma emit_all_stream ts : ∀ data,
  stream_inv data → Forall (fun t => length t = 4%nat) ts →
  ∃ st data', emit_all data ts = Ok (st, data') ∧
    (sink_failed st ∨
     st = PR_SUCCESS ∧ stream_inv data' ∧ frame data data' ∧
     stream_out data' = stream_out data ++ layout (line_length data) (current_column data) ts ∧
     current_column data' = col_after (line_length data) (current_column data) ts).
Proof.
  induction ts as [|t ts IH]; intros data Hinv Hts.
  { exists PR_SUCCESS, data. split; [done|]. right. cbn [layout col_after]. by rewrite app_nil_r. }
  apply Forall_cons_1 in Hts as [Ht Hts]. cbn [emit_all].
  destruct (emit_one_spec data t (si_wf _ Hinv) Ht (stream_inv_room _ Hinv))
    as (d1 & -> & Hwf1 & Hfr1 & Ht1 & Hl1 & Ha1 & Hc1). cbn [mbind res_bind].
  pose proof (stream_inv_step data d1 Hinv Hwf1 Hfr1 Hl1 Hc1) as Hstep.
  pose proof (fr_line _ _ Hfr1) as HL1.
  assert (Hnext : ∀ d2, stream_inv d2 → frame d1 d2 → current_column d2 = current_column d1 →
    stream_out d2 = stream_out d1 →
    ∃ st data', emit_all d2 ts = Ok (st, data') ∧
    (sink_failed st ∨ st = PR_SUCCESS ∧ stream_inv data' ∧ frame data data' ∧
     stream_out data' = stream_out data ++ layout (line_length data) (current_column data) (t :: ts) ∧
     current_column data' = col_after (line_length data) (current_column data) (t :: ts))).
  { intros d2 Hd2 Hfr2 Hc2 Ho2. destruct (IH d2 Hd2 Hts) as (st & d3 & -> & [Hf|(? & ? & Hfr3 & Ho3 & Hc3)]).
    - exists st, d3. by split; [|left].
    - pose proof (fr_line _ _ Hfr2) as HL2.
      exists st, d3. split; [done|]. right. split; [done|]. split; [done|].
      split; [by transitivity d1; [|transitivity d2]|].
      rewrite layout_step, col_after_step, Ho3, Hc3, HL2, HL1, Hc2, Hc1, Ho2. split; [|done].
      unfold stream_out. rewrite Ha1, Ht1, <- !app_assoc. done. }
  destruct (output_length d1 >=? u32 (output_buflen d1 - 3)).
  - rewrite (fr_fn _ _ Hfr1), (si_fn _ Hinv). unfold call_output. fold (text d1).
    destruct (sink_fn (output_arg d1) (text d1)) as [a r] eqn:Hcall.
    destruct (Z.ltb_spec r 0).
    + eexists _, _. split; [done|]. left. by exists r.
    + apply Hnext; [by apply Hstep|done|done|]. unfold stream_out. cbn.
      rewrite app_nil_r. pose proof (sink_law (output_arg d1) (text d1)) as Hs. rewrite Hcall in Hs.
      by apply Hs.
  - by apply Hnext.
Qed.

(** An encoder that has taken in the octets [x], with [s0] sent before. *)
Record encodes (s0 : list Z) data (x : list Z) : Prop := mk_encodes {
  en_inv : stream_inv data;
  en_pend : pending_wf data;
  en_left : pending data = leftover x;
  en_col : current_column data = col_after (line_length data) 0 (full_tokens x);
  en_out : stream_out data = s0 ++ layout (line_length data) 0 (full_tokens x);
}.

Lemma full_tokens_len x : Forall (fun t => length t = 4%nat) (full_tokens x).
Proof. induction x using list3_ind; simpl; auto. Qed.

Lemma col_after_app L c ts1 ts2 : col_after L c (ts1 ++ ts2) = col_after L (col_after L c ts1) ts2.
Proof.
  revert c. induction ts1 as [|t ts1 IH]; intros c; [done|]. cbn [app col_after].
  case_match; apply IH.
Qed.

Lemma Update_stream s0 data x inp :
  encodes s0 data x → bytes inp → inp ≠ [] → Z.of_nat (length inp) + 2 < 2 ^ 32 →
  ∃ st data', NSSBase64Encoder_Update data inp (Z.of_nat (length inp)) = Ok (st, data') ∧
    (sink_failed st ∨
     st = PR_SUCCESS ∧ encodes s0 data' (x ++ inp) ∧ line_length data' = line_length data).
Proof.
  intros [Hinv Hpw Hleft Hcol Hout] Hi Hne Hsz.
  unfold NSSBase64Encoder_Update, PL_UpdateBase64Encoder.
  destruct (Z.eqb_spec (length inp) 0) as [H0|_]; [by destruct inp|].
  destruct (encode_buffer_emit data inp Hpw Hi Hne Hsz) as (buf & Hbl & Hbb & Hbt & ->).
  set (d0 := set_pending data buf _).
  assert (Hinv0 : stream_inv d0) by (destruct Hinv as [[] ? ?]; by split).
  destruct (emit_all_stream _ d0 Hinv0 (full_tokens_len (pending data ++ inp)))
    as (st & d1 & -> & [Hf|(-> & Hinv1 & Hfr & Ho & Hc)]).
  - exists st, d1. by split; [|left].
  - exists PR_SUCCESS, d1. split; [done|]. right. split; [done|].
    pose proof (fr_line _ _ Hfr) as HL. pose proof (fr_in _ _ Hfr) as HB.
    pose proof (fr_count _ _ Hfr) as HC. cbn in HL, HB, HC. split; [|done].
    rewrite Hleft in HC, Ho, Hc, Hbt. pose proof (leftover_lt (leftover x ++ inp)) as Hlt.
    assert (Hft : full_tokens (x ++ inp) = full_tokens x ++ full_tokens (leftover x ++ inp))
      by apply full_tokens_app.
    split; [done| | | |].
    + split; rewrite ?HB, ?HC; [done|done|lia].
    + unfold pending. rewrite HB, HC, Hbt. symmetry. apply leftover_app.
    + rewrite Hc, HL, Hft, col_after_app. cbn. by rewrite Hcol.
    + rewrite Ho, HL, Hft, layout_app. cbn.
      change (stream_out d0) with (stream_out data). by rewrite Hout, Hcol, <- app_assoc.
Qed.

Lemma Destroy_stream s0 data x :
  encodes s0 data x →
  ∃ st a, NSSBase64Encoder_Destroy data false = Ok (st, a) ∧
    (sink_failed st ∨ st = PR_SUCCESS ∧ sink_sent a = s0 ++ b64_text (line_length data) x).
Proof.
  intros [Hinv Hpw Hleft Hcol Hout].
  assert (Hb : b64_text (line_length data) x =
    layout (line_length data) 0 (full_tokens x) ++
    layout (line_length data) (current_column data) (last_token (pending data))).
  { unfold b64_text, b64_tokens. by rewrite layout_app, Hcol, Hleft. }
  rewrite Hb, app_assoc, <- Hout.
  destruct (flush_pending_spec data (si_wf _ Hinv) Hpw) as (d1 & Hfl & Hwf1 & Ht1 & HF & HA & _ & _).
  { intros _. by apply stream_inv_room. }
  unfold NSSBase64Encoder_Destroy, PL_DestroyBase64Encoder, pl_base64_encode_flush.
  destruct (bool_decide (in_buffer_count data = 0%nat) && (output_length data =? 0)) eqn:E.
  - apply andb_true_iff in E as [E1%bool_decide_eq_true E2%Z.eqb_eq]. cbn [mbind res_bind].
    exists PR_SUCCESS, (output_arg data). split; [done|]. right. split; [done|].
    unfold stream_out, text, pending. rewrite E1, E2. cbn. by rewrite !app_nil_r.
  - rewrite Hfl. cbn [mbind res_bind]. rewrite HF, (si_fn _ Hinv). unfold call_output. fold (text d1).
    destruct (sink_fn (output_arg d1) (text d1)) as [a r] eqn:Hcall. cbn [mbind res_bind].
    eexists _, _. split; [done|]. destruct (Z.ltb_spec r 0); [left; by exists r|]. right.
    split; [done|]. pose proof (sink_law (output_arg d1) (text d1)) as Hs. rewrite Hcall in Hs.
    cbn [output_arg set_output] in *. cbn in Hs. rewrite Hs by done. unfold stream_out.
    by rewrite HA, Ht1, <- app_assoc.
Qed.

Lemma encode_chunks_stream s0 chunks : ∀ data x,
  encodes s0 data x → Forall bytes chunks → Forall (fun c => c ≠ []) chunks →
  Forall (fun c => Z.of_nat (length c) + 2 < 2 ^ 32) chunks →
  ∃ st a, encode_chunks data chunks = Ok (st, a) ∧
    (sink_failed st ∨
     st = PR_SUCCESS ∧ sink_sent a = s0 ++ b64_text (line_length data) (x ++ concat chunks)).
Proof.
  induction chunks as [|c chunks IH]; intros data x He Hb Hn Hs; cbn [encode_chunks concat].
  { rewrite app_nil_r. by apply Destroy_stream. }
  apply Forall_cons_1 in Hb as [Hb0 Hb], Hn as [Hn0 Hn], Hs as [Hs0 Hs].
  destruct (Update_stream s0 data x c He Hb0 Hn0 Hs0) as (st & d1 & -> & [Hf|(-> & He1 & HL)]);
    cbn [mbind res_bind].
  - destruct Hf as (r & Hr & ->). eexists _, _. split; [done|]. left. by exists r.
  - rewrite app_assoc, <- HL. by apply IH.
Qed.

Lemma Create_encodes `{NSPRHeap} (arg : A) data :
  NSSBase64Encoder_Create (Some sink_fn) arg = Some data →
  encodes (sink_sent arg) data [] ∧ line_length data = 64.
Proof.
  unfold NSSBase64Encoder_Create, PL_CreateBase64Encoder, pl_base64_create_encoder.
  destruct (PORT_ZAlloc 8); try done. cbn. change (64 `div` 4 * 4) with 64. cbn.
  destruct (PR_Calloc 1 48); [|done]. cbn.
  change (u32 (64 + 2)) with 66. destruct (PR_Malloc 66) as [b|] eqn:HM; [|done]. intros [= <-].
  apply PR_Malloc_size in HM as [HM _]; [|done].
  split; [|done]. split; try done.
  - split; [|done|cbn; split_and!; (done || by left)]. split; cbn; lia.
  - split; cbn; [done| |lia]. repeat (apply Forall_cons_2; [done|]). constructor.
Qed.
End Streaming.

(** ** Buffer operation *)

Lemma length_layout (t : Z) ts : ∀ c,
  0 < t → 0 ≤ c ≤ t → Forall (fun x => length x = 4%nat) ts → ts ≠ [] →
  Z.of_nat (length (layout (4 * t) (4 * c) ts)) =
  4 * length ts + 2 * ((c + length ts - 1) / t).
Proof.
  induction ts as [|x ts IH]; intros c Ht Hc Hts Hne; [done|].
  apply Forall_cons_1 in Hts as [Hx Hts]. cbn [layout].
  rewrite (proj2 (Z.ltb_lt 0 (4 * t))) by lia. cbn [andb]. rewrite Z.geb_leb.
  destruct (Z.leb_spec (4 * t) (4 * c)).
  - assert (c = t) as -> by lia. rewrite !length_app, Hx. cbn [length].
    replace (t + Z.of_nat (S (length ts)) - 1) with (Z.of_nat (length ts) + 1 * t) by lia.
    rewrite Z.div_add by lia.
    destruct ts as [|y ts]; [cbn; rewrite Z.div_0_l; lia|].
    specialize (IH 1 Ht ltac:(lia) Hts ltac:(done)). change (4 * 1) with 4 in IH.
    rewrite !Nat2Z.inj_add, IH. replace (1 + Z.of_nat (length (y :: ts)) - 1) with (Z.of_nat (length (y :: ts))) by lia.
    lia.
  - rewrite length_app, Hx. replace (4 * c + 4) with (4 * (c + 1)) by lia.
    destruct ts as [|y ts].
    + cbn. rewrite Z.div_small; lia.
    + specialize (IH (c + 1) Ht ltac:(lia) Hts ltac:(done)). rewrite Nat2Z.inj_add, IH.
      cbn [length]. replace (c + 1 + Z.of_nat (S (length ts)) - 1)
        with (c + Z.of_nat (S (S (length ts))) - 1) by lia. lia.
Qed.

Lemma length_layout_unbroken ts : ∀ c,
  Forall (fun x => length x = 4%nat) ts → length (layout 0 c ts) = (4 * length ts)%nat.
Proof.
  induction ts as [|x ts IH]; intros c Hts; [done|]. apply Forall_cons_1 in Hts as [Hx Hts].
  cbn [layout andb Z.ltb Z.compare]. rewrite length_app, IH, Hx by done. cbn [length]. lia.
Qed.

Lemma b64_tokens_len x : Forall (fun t => length t = 4%nat) (b64_tokens x).
Proof.
  apply Forall_app. split; [apply full_tokens_len|].
  destruct (leftover x) as [|a [|b [|]]]; cbn; repeat constructor.
Qed.

Lemma length_b64_tokens x : Z.of_nat (length (b64_tokens x)) = (length x + 2) / 3.
Proof.
  induction x as [|a|a b|a b c l IH] using list3_ind; [done..|].
  change (length (b64_tokens (a :: b :: c :: l))) with (S (length (b64_tokens l))).
  rewrite Nat2Z.inj_succ, IH. cbn [length].
  replace (Z.of_nat (S (S (S (length l)))) + 2) with (Z.of_nat (length l) + 2 + 1 * 3) by lia.
  rewrite Z.div_add by lia. lia.
Qed.

(** The line length the encoder uses. *)
Definition rounded (ll : Z) : Z :=
  (if (ll >? 0) && (ll <? 4) then 4 else ll) / 4 * 4.

Lemma rounded_range ll : 0 ≤ ll < 2 ^ 32 → 0 ≤ rounded ll ≤ 2 ^ 32 - 4.
Proof.
  intros Hll. unfold rounded. case_match; [by vm_compute|].
  assert (ll / 4 < 2 ^ 30) by (apply Z.div_lt_upper_bound; lia).
  pose proof (Z.div_pos ll 4). lia.
Qed.

(** The size estimate is exact. *)
Lemma MaxEncodedLength_exact x ll :
  0 < Z.of_nat (length x) ≤ 0x3fffffff → 0 ≤ ll < 2 ^ 32 →
  PL_Base64MaxEncodedLength (Z.of_nat (length x)) ll = Z.of_nat (length (b64_text (rounded ll) x)) ∧
  4 ≤ Z.of_nat (length (b64_text (rounded ll) x)) < 2 ^ 32 - 1.
Proof.
  intros Hx Hll. unfold PL_Base64MaxEncodedLength, b64_text.
  rewrite Z.gtb_ltb, (proj2 (Z.ltb_ge _ _)) by lia. rewrite (wrap_small 32 (_ + 2)) by lia.
  pose proof (length_b64_tokens x) as Hk. pose proof (b64_tokens_len x) as Hlen.
  set (k := Z.of_nat (length (b64_tokens x))) in *. rewrite <- Hk.
  assert (Hk1 : 1 ≤ k ≤ 357913942).
  { rewrite Hk. split; [apply Z.div_le_lower_bound; lia|]. apply Z.div_le_upper_bound; lia. }
  assert (Hne : b64_tokens x ≠ []) by (intros E; unfold k in Hk1; rewrite E in Hk1; cbn in Hk1; lia).
  destruct (Z.eqb_spec ll 0) as [->|Hne0].
  - change (rounded 0) with 0. rewrite length_layout_unbroken by done.
    rewrite Nat2Z.inj_mul. fold k. rewrite wrap_small; lia.
  - set (l' := if ll <? 4 then 4 else ll).
    assert (Hl' : 4 ≤ l' < 2 ^ 32) by (unfold l'; case_match; lia).
    assert (Hr : rounded ll = l' / 4 * 4).
    { unfold rounded, l'. rewrite Z.gtb_ltb, (proj2 (Z.ltb_lt 0 ll)) by lia. done. }
    set (t := l' / 4) in *. assert (Ht : 1 ≤ t) by (apply Z.div_le_lower_bound; lia).
    assert (t < 2 ^ 30) by (apply Z.div_lt_upper_bound; lia).
    rewrite Hr, (Z.mul_comm t 4).
    pose proof (length_layout t (b64_tokens x) 0 ltac:(lia) ltac:(lia) Hlen Hne) as HL.
    change (4 * 0) with 0 in HL. rewrite HL. fold k.
    pose proof (Z.div_mod k t ltac:(lia)) as Hdm. pose proof (Z.mod_pos_bound k t ltac:(lia)) as Hm.
    set (f := k / t) in *. set (m := k mod t) in *.
    assert (0 ≤ f) by (apply Z.div_pos; lia).
    assert (f * t ≤ k) by lia. assert (f ≤ k) by nia.
    assert (Hb : (0 + k - 1) / t = if m =? 0 then f - 1 else f).
    { destruct (Z.eqb_spec m 0) as [Hm0|Hm0].
      - symmetry. apply (Z.div_unique_pos _ _ _ (t - 1)); lia.
      - symmetry. apply (Z.div_unique_pos _ _ _ (m - 1)); lia. }
    rewrite Hb, !(wrap_small 32 (f * t)) by lia.
    replace (k - f * t) with m by lia. rewrite (wrap_small 32 m), (wrap_small 32 (m * 4)) by lia.
    rewrite (wrap_small 32 (f * 2)), (wrap_small 32 (f * t * 4)) by lia.
    destruct (Z.eqb_spec (m * 4) 0) as [Hm0|Hm0]; destruct (Z.eqb_spec m 0) as [Hm1|Hm1]; try lia.
    + assert (1 ≤ f) by nia. rewrite (wrap_small 32 (f * 2 - 2)) by lia.
      rewrite (wrap_small 32 (f * t * 4 + (f * 2 - 2))) by lia. rewrite wrap_small; lia.
    + rewrite (wrap_small 32 (f * t * 4 + f * 2)) by lia. rewrite wrap_small; lia.
Qed.

Lemma length_layout_ge L c ts :
  Forall (fun x => length x = 4%nat) ts → ts ≠ [] → (4 ≤ length (layout L c ts))%nat.
Proof.
  destruct ts as [|t ts]; [done|]. intros [Ht _]%Forall_cons_1 _. cbn [layout].
  case_match; rewrite ?length_app; cbn [length]; lia.
Qed.

Lemma emit_all_buffer {A} ts : ∀ data : PLBase64Encoder A,
  out_wf data → output_fn data = None → Forall (fun t => length t = 4%nat) ts →
  output_length data + length (layout (line_length data) (current_column data) ts) ≤ output_buflen data →
  ∃ data', emit_all data ts = Ok (PR_SUCCESS, data') ∧ out_wf data' ∧ frame data data' ∧
    text data' = text data ++ layout (line_length data) (current_column data) ts ∧
    output_length data' = output_length data + length (layout (line_length data) (current_column data) ts) ∧
    current_column data' = col_after (line_length data) (current_column data) ts.
Proof.
  induction ts as [|t ts IH]; intros data Hwf Hfn Hts Hfit.
  { exists data. cbn [emit_all layout col_after length]. rewrite app_nil_r, Z.add_0_r. done. }
  apply Forall_cons_1 in Hts as [Ht Hts]. rewrite layout_step, col_after_step in *.
  rewrite !length_app in *. cbn [emit_all].
  assert (Hsep : Z.of_nat (length (if breaks data then [B64_CR; B64_LF] else [])) =
                 if breaks data then 2 else 0) by (by destruct (breaks data)).
  destruct (emit_one_spec data t Hwf Ht) as (d1 & -> & Hwf1 & Hfr1 & Ht1 & Hl1 & _ & Hc1).
  { destruct (breaks data); cbn in *; lia. }
  cbn [mbind res_bind]. pose proof (fr_line _ _ Hfr1) as HL. pose proof (fr_buflen _ _ Hfr1) as HB.
  destruct (IH d1 Hwf1) as (d2 & Hall & ? & Hfr2 & Ht2 & Hl2 & Hc2); [by rewrite (fr_fn _ _ Hfr1)|done| |].
  { rewrite HL, Hc1, HB, Hl1. destruct (breaks data); cbn in *; lia. }
  assert (Hgoal : emit_all d1 ts = Ok (PR_SUCCESS, d2)) by done.
  exists d2. split.
  - destruct (Z.geb_spec (output_length d1) (u32 (output_buflen d1 - 3))) as [Hge|]; [|done].
    rewrite (fr_fn _ _ Hfr1), Hfn. destruct Hwf. rewrite wrap_small in Hge by lia.
    destruct (decide (ts = [])) as [->|Hne]; [done|].
    pose proof (length_layout_ge (line_length data) (next_column data) ts Hts Hne).
    destruct (breaks data); cbn in *; lia.
  - split; [done|]. split; [by transitivity d1|].
    rewrite Ht2, Hl2, Hc2, HL, Hc1, Ht1, Hl1, <- !app_assoc. split; [done|]. split; [|done].
    destruct (breaks data); cbn in *; lia.
Qed.

Lemma create_encoder_ok `{NSPRHeap} ll b buflen data :
  pl_base64_create_encoder tt ll (Some b) buflen = Some data →
  data = mk_PLBase64Encoder [0; 0] 0 (rounded ll) 0 None tt b buflen 0.
Proof.
  unfold pl_base64_create_encoder. destruct (PR_Calloc 1 48); [|done]. cbn.
  intros [= <-]. done.
Qed.

Lemma length_text {A} (data : PLBase64Encoder A) :
  out_wf data → Z.of_nat (length (text data)) = output_length data.
Proof. intros []. unfold text. rewrite length_take. lia. Qed.

(** The room the last token needs. *)
Lemma length_layout_last {A} (data : PLBase64Encoder A) l :
  l ≠ [] → (length l < 3)%nat →
  Z.of_nat (length (layout (line_length data) (current_column data) (last_token l))) =
  if breaks data then 6 else 4.
Proof.
  intros Hne Hl. destruct l as [|a [|b [|]]]; [done| | |cbn in Hl; lia]; cbn [last_token];
    rewrite layout_step, !length_app; cbn [layout length]; by destruct (breaks data).
Qed.

(** One whole input through a fresh encoder: the buffer holds the reference
    text and a second flush would do nothing. *)
Lemma encode_flush_buffer {A} (data : PLBase64Encoder A) x (t := b64_text (line_length data) x) :
  out_wf data → pending_wf data → pending data = [] → current_column data = 0 →
  output_length data = 0 → output_fn data = None → bytes x → x ≠ [] →
  Z.of_nat (length x) + 2 < 2 ^ 32 → Z.of_nat (length t) ≤ output_buflen data →
  ∃ d1 d2, pl_base64_encode_buffer data x (Z.of_nat (length x)) = Ok (PR_SUCCESS, d1) ∧
    pl_base64_encode_flush d1 = Ok (PR_SUCCESS, d2) ∧ text d2 = t ∧ out_wf d2 ∧
    length (output_buffer d2) = length (output_buffer data) ∧
    in_buffer_count d2 = 0%nat ∧ output_fn d2 = None.
Proof.
  intros Hwf Hpw Hp0 Hc0 Hl0 Hfn Hb Hne Hsz Hfit.
  destruct (encode_buffer_emit data x Hpw Hb Hne Hsz) as (buf & Hb1 & Hb2 & Hb3 & ->).
  rewrite Hp0 in *. cbn [app] in *. set (d0 := set_pending data buf _).
  assert (Hwf0 : out_wf d0) by (destruct Hwf; by split).
  set (c := col_after (line_length data) 0 (full_tokens x)).
  assert (Ht : t = layout (line_length data) 0 (full_tokens x) ++
                   layout (line_length data) c (last_token (leftover x))) by apply layout_app.
  assert (Ht0 : text data = []) by (unfold text; by rewrite Hl0).
  rewrite Ht, length_app in Hfit.
  destruct (emit_all_buffer (full_tokens x) d0 Hwf0 Hfn (full_tokens_len x))
    as (d1 & -> & Hwf1 & Hfr & Ht1 & Hl1 & Hc1); [cbn; rewrite Hc0, Hl0; lia|].
  destruct Hfr as [HI HC HL HF HB HK]. cbn in HI, HC, HL, HF, HB, HK, Hc1, Hl1.
  change (text d0) with (text data) in Ht1. rewrite Ht0 in Ht1. cbn in Ht1.
  rewrite Hc0 in Ht1, Hc1, Hl1. fold c in Hc1.
  assert (Hp1 : pending d1 = leftover x) by (unfold pending; by rewrite HI, HC).
  destruct (flush_pending_spec d1 Hwf1) as (d2 & Hfl & Hwf2 & Ht2 & HF2 & _ & HC2 & HK2).
  { pose proof (leftover_lt x). split; rewrite ?HI, ?HC; [done|done|lia]. }
  { rewrite Hp1, HB. intros Hne1.
    rewrite <- (length_layout_last d1 (leftover x) Hne1 (leftover_lt x)), HL, Hc1. lia. }
  rewrite Hp1, HL, Hc1, Ht1 in Ht2. rewrite <- Ht in Ht2.
  exists d1. unfold pl_base64_encode_flush.
  destruct (bool_decide (in_buffer_count d1 = 0%nat) && (output_length d1 =? 0)) eqn:E.
  - apply andb_true_iff in E as [E1%bool_decide_eq_true _]. exists d1.
    unfold flush_pending in Hfl. rewrite decide_False in Hfl by lia. simplify_eq.
    rewrite HF. done.
  - exists d2. rewrite Hfl. cbn [mbind res_bind]. rewrite HF2, HF, Hfn.
    split_and!; (done || congruence).
Qed.

Lemma EncodeBuffer_text `{NSPRHeap} x ll b maxdestlen destlen (t := b64_text (rounded ll) x) :
  bytes x → 0 < Z.of_nat (length x) ≤ 0x3fffffff → 0 ≤ ll < 2 ^ 32 →
  Z.of_nat (length t) ≤ maxdestlen < 2 ^ 32 → maxdestlen ≤ Z.of_nat (length b) →
  PR_Calloc 1 48 = None ∧
    PL_Base64EncodeBuffer x (Z.of_nat (length x)) ll (Some b) maxdestlen destlen =
    Err (Some PR_OUT_OF_MEMORY_ERROR) ∨
  ∃ b', PL_Base64EncodeBuffer x (Z.of_nat (length x)) ll (Some b) maxdestlen destlen =
        Ok (Some b', Z.of_nat (length t)) ∧ length b' = length b ∧ take (length t) b' = t.
Proof.
  intros Hb Hx Hll Hmax Hbl. unfold PL_Base64EncodeBuffer.
  rewrite (proj2 (Z.eqb_neq _ _)) by lia.
  destruct (MaxEncodedLength_exact x ll Hx Hll) as [-> Hrange]. fold t in Hrange |- *.
  rewrite (proj2 (Z.eqb_neq _ _)) by lia.
  rewrite bool_decide_eq_true_2 by done. cbn [andb].
  rewrite (proj2 (Z.ltb_ge _ _)) by lia.
  destruct (pl_base64_create_encoder tt ll (Some b) maxdestlen) as [data|] eqn:Hc.
  2: { left. split; [|done]. unfold pl_base64_create_encoder in Hc.
       by destruct (PR_Calloc 1 48). }
  right. apply create_encoder_ok in Hc.
  pose proof (rounded_range ll Hll) as HL.
  assert (Ht : t = b64_text (line_length data) x) by (by rewrite Hc).
  destruct (encode_flush_buffer data x) as (d1 & d2 & -> & Hfl & Ht2 & Hwf2 & Hlen & HC & HF);
    rewrite ?Hc; try done; try lia.
  { split; cbn; lia. }
  { split; cbn; [done| |lia]. repeat (apply Forall_cons_2; [done|]). constructor. }
  { intros ->. cbn in Hx. lia. }
  { cbn. fold t. lia. }
  rewrite <- Ht in Ht2. pose proof (length_text d2 Hwf2) as Hl2. rewrite Ht2 in Hl2.
  cbn [lift mbind res_bind]. rewrite Hfl. cbn [lift mbind res_bind]. rewrite <- Hl2.
  assert (Hagain : PL_DestroyBase64Encoder (set_output d2 tt [] (Z.of_nat (length t))) false =
                   Ok (PR_SUCCESS, tt)).
  { unfold PL_DestroyBase64Encoder, pl_base64_encode_flush, flush_pending.
    cbn [in_buffer_count output_length set_output]. rewrite HC, (proj2 (Z.eqb_neq _ _)) by lia.
    rewrite andb_false_r, decide_False by lia. cbn. by rewrite HF. }
  rewrite Hagain. cbn [lift mbind res_bind]. exists (output_buffer d2).
  split; [done|]. split; [by rewrite Hlen, Hc|]. rewrite <- Ht2 at 2. unfold text.
  by rewrite <- Hl2, Nat2Z.id.
Qed.

(** ** Main results *)

(** [C12] Streaming base64 encoder (nssb64e.c): for any chunks pushed through
    NSSBase64Encoder_Create/_Update/_Destroy, no memory outside the output
    buffer is touched, and unless the output function reports a failure what
    it has been handed in total is the reference base64 text of the
    concatenated chunks, in lines of 64 characters, however the input was
    cut. *)
Theorem encoder_streams_reference {A} `{Base64Sink A} `{NSPRHeap} (arg : A) data chunks :
  NSSBase64Encoder_Create (Some sink_fn) arg = Some data →
  Forall bytes chunks → Forall (fun c => c ≠ []) chunks →
  Forall (fun c => Z.of_nat (length c) + 2 < 2 ^ 32) chunks →
  ∃ st a, encode_chunks data chunks = Ok (st, a) ∧
    (sink_failed st ∨
     st = PR_SUCCESS ∧ sink_sent a = sink_sent arg ++ b64_text 64 (concat chunks)).
Proof.
  intros [He HL]%Create_encodes Hb Hn Hs. rewrite <- HL.
  by apply (encode_chunks_stream _ chunks data []).
Qed.

(** A sink that collects the text. *)
#[global] Instance collect_sink : Base64Sink (list Z).
Proof.
  refine {| sink_fn a buf := (a ++ buf, 0); sink_sent a := a |}. done.
Defined.

Lemma encoder_streams_reference_witness :
  ∃ st a, encode_chunks (mk_PLBase64Encoder [0; 0] 0 64 0 (Some (@sink_fn (list Z) _)) []
             (replicate 66 0) 66 0) [[77]; [97; 110; 77]] = Ok (st, a) ∧
    (sink_failed st ∨
     st = PR_SUCCESS ∧
     sink_sent a = sink_sent ([] : list Z) ++ b64_text 64 (concat [[77]; [97; 110; 77]])).
Proof.
  apply (encoder_streams_reference (A:=list Z) [] _ [[77]; [97; 110; 77]]); [vm_compute; reflexivity|..].
  - repeat (apply Forall_cons_2 || apply Forall_nil_2); unfold is_byte; lia.
  - repeat (apply Forall_cons_2 || apply Forall_nil_2); done.
  - repeat (apply Forall_cons_2 || apply Forall_nil_2); done.
Defined.

(** NSSBase64_EncodeItem (nssb64e.c): for an item of up to 0x3fffffff
    octets the result is the reference base64 text in lines of 64 characters
    with a terminating NUL, inside the allocated or provided block; the only
    failures are a failed allocation and a provided block that is shorter
    than that text and its NUL. *)
Theorem EncodeItem_correct `{NSPRHeap} arenaOpt outStrOpt maxOutLen x (t := b64_text 64 x) :
  bytes x → 0 < Z.of_nat (length x) ≤ 0x3fffffff →
  (∀ arena n b, arenaOpt = Some arena → arena n = Some b → Z.of_nat (length b) = n) →
  (∀ b, outStrOpt = Some b → Z.of_nat (length b) = maxOutLen ∧ maxOutLen < 2 ^ 32) →
  match NSSBase64_EncodeItem arenaOpt outStrOpt maxOutLen
          (Some (mk_SECItem (Some x) (Z.of_nat (length x)))) with
  | Ok b => take (S (length t)) b = t ++ [0]
  | Err e =>
      e = Some PR_OUT_OF_MEMORY_ERROR ∧
        (PR_Calloc 1 48 = None ∨
         outStrOpt = None ∧ arena_or_heap arenaOpt (Z.of_nat (length t) + 1) = None) ∨
      e = Some (SEC_ERROR SEC_ERROR_OUTPUT_LEN) ∧ is_Some outStrOpt ∧
        maxOutLen < Z.of_nat (length t) + 1
  | UB => False
  end.
Proof.
  intros Hb Hx Harena Hout. unfold NSSBase64_EncodeItem.
  rewrite (proj2 (Z.eqb_neq _ _)) by lia.
  destruct (MaxEncodedLength_exact x 64 Hx ltac:(lia)) as [-> Hrange].
  change (rounded 64) with 64 in *. fold t in Hrange |- *.
  rewrite (proj2 (Z.eqb_neq _ _)), (wrap_small 32 (_ + 1)) by lia.
  assert (Hmain : ∀ b n, Z.of_nat (length t) ≤ n < 2 ^ 32 → n ≤ Z.of_nat (length b) →
            Z.of_nat (length t) + 1 ≤ Z.of_nat (length b) →
            match '(out, out_len) ← PL_Base64EncodeBuffer x (Z.of_nat (length x)) 64 (Some b) n 0;
                  match out with
                  | None => Err None
                  | Some out_string => mem_write out_string (Z.to_nat out_len) [0]
                  end with
            | Ok b => take (S (length t)) b = t ++ [0]
            | Err e => e = Some PR_OUT_OF_MEMORY_ERROR ∧ PR_Calloc 1 48 = None
            | UB => False
            end).
  { intros b n Hn Hbl Hb1.
    destruct (EncodeBuffer_text x 64 b n 0 Hb Hx ltac:(lia) Hn Hbl) as [[? ->]|(b' & -> & Hl' & Ht')];
      [done|]. change (rounded 64) with 64 in *. fold t in Ht' |- *. cbn [mbind res_bind].
    rewrite Nat2Z.id, mem_write_same by (cbn; lia).
    rewrite Ht', app_assoc, take_app_length'; [done|]. rewrite length_app. cbn. lia. }
  destruct outStrOpt as [b|].
  - specialize (Hout b eq_refl). rewrite Z.gtb_ltb. destruct (Z.ltb_spec maxOutLen (Z.of_nat (length t) + 1)).
    + cbn. by right.
    + cbn [mbind res_bind]. specialize (Hmain b maxOutLen ltac:(lia) ltac:(lia) ltac:(lia)).
      case_match; [done| |done]. left. tauto.
  - destruct (arena_or_heap arenaOpt (Z.of_nat (length t) + 1)) as [b|] eqn:Hal; cbn [mbind res_bind].
    + assert (Hlb : Z.of_nat (length b) = Z.of_nat (length t) + 1).
      { unfold arena_or_heap in Hal. destruct arenaOpt as [arena|]; [by eapply Harena|].
        destruct (PORT_Alloc (Z.of_nat (length t) + 1)) eqn:HP; simplify_eq.
        apply PORT_Alloc_Ok in HP as (HP & _ & _); [|lia]. rewrite (proj2 (Z.eqb_neq _ _)) in HP; lia. }
      specialize (Hmain b (Z.of_nat (length t)) ltac:(lia) ltac:(lia) ltac:(lia)).
      case_match; [done| |done]. left. tauto.
    + left. split; [done|]. by right.
Qed.

Lemma EncodeItem_correct_witness :
  match NSSBase64_EncodeItem None (Some (replicate 9 0)) 9 (Some (mk_SECItem (Some [77; 97; 110; 77]) 4)) with
  | Ok b => take (S (length (b64_text 64 [77; 97; 110; 77]))) b = b64_text 64 [77; 97; 110; 77] ++ [0]
  | Err e =>
      e = Some PR_OUT_OF_MEMORY_ERROR ∧
        (PR_Calloc 1 48 = None ∨
         Some (replicate 9 0) = None ∧
         arena_or_heap None (Z.of_nat (length (b64_text 64 [77; 97; 110; 77])) + 1) = None) ∨
      e = Some (SEC_ERROR SEC_ERROR_OUTPUT_LEN) ∧ is_Some (Some (replicate 9 0)) ∧
        9 < Z.of_nat (length (b64_text 64 [77; 97; 110; 77])) + 1
  | UB => False
  end.
Proof.
  apply (EncodeItem_correct None (Some (replicate 9 0)) 9 [77; 97; 110; 77]).
  - repeat (apply Forall_cons_2 || apply Forall_nil_2); unfold is_byte; lia.
  - cbn; lia.
  - done.
  - intros b [= <-]. by vm_compute.
Defined.


