(* ===== verification/Base64Dec.v ===== *)
(** lib/util/nssb64d.c: base64 decoding.

    The decoder skips everything that is not a base64 letter or a pad, keeps
    the up to three characters of an incomplete token between calls, and
    accepts a missing padding at the end.  Its character table is computed
    without branches.  The main results: on every input the decoder is the
    reference decoder below and never writes outside its output buffer, and
    it inverts the encoder however either side cuts its data. *)

From Stdlib Require Import Lia ZArith.
From stdpp Require Import base numbers list list_numbers tactics.
From S2P Require Import Prelude Port Base64Enc.

(** ** The character table *)

(** The operands are [int]s, so the shift keeps the sign. *)
Definition ct_u8_in_range (x a b : Z) : Z :=
  u8 (Z.shiftr (Z.land (a - x - 1) (x - b - 1)) 8).

Definition pl_base64_codetovaluep1 (code : Z) : Z :=
  let res := 0 in
  let mask := ct_u8_in_range code 65 90 in
  let res := u8 (Z.lor res (Z.land mask (code - 65 + 1))) in
  let mask := ct_u8_in_range code 97 122 in
  let res := u8 (Z.lor res (Z.land mask (code - 97 + 27))) in
  let mask := ct_u8_in_range code 48 57 in
  let res := u8 (Z.lor res (Z.land mask (code - 48 + 53))) in
  let mask := ct_u8_in_range code 43 43 in
  let res := u8 (Z.lor res (Z.land mask 63)) in
  let mask := ct_u8_in_range code 47 47 in
  u8 (Z.lor res (Z.land mask 64)).

(** ** Tokens: [None] is the result -1 *)

Definition push_bits (num : option Z) (c : Z) : option Z :=
  num ← num;
  let bits := pl_base64_codetovaluep1 c in
  if bits =? 0 then None else Some (u32 (Z.lor (Z.shiftl num 6) (bits - 1))).

Definition pl_base64_decode_4to3 (inp : list Z) : option (list Z) :=
  num ← fold_left push_bits ((fun j : nat => inp !!! j) <$> [0; 1; 2; 3]%nat) (Some 0);
  Some [u8 (Z.shiftr num 16); Z.land (Z.shiftr num 8) 0xFF; Z.land num 0xFF].

Definition pl_base64_decode_3to2 (inp : list Z) : option (list Z) :=
  let bits1 := pl_base64_codetovaluep1 (inp !!! 0%nat) in
  let bits2 := pl_base64_codetovaluep1 (inp !!! 1%nat) in
  let bits3 := pl_base64_codetovaluep1 (inp !!! 2%nat) in
  if (bits1 =? 0) || (bits2 =? 0) || (bits3 =? 0) then None else
  let num := Z.shiftl (bits1 - 1) 10 in
  let num := Z.lor num (Z.shiftl (bits2 - 1) 4) in
  let num := Z.lor num (Z.shiftr (bits3 - 1) 2) in
  Some [u8 (Z.shiftr num 8); Z.land num 0xFF].

Definition pl_base64_decode_2to1 (inp : list Z) : option (list Z) :=
  let bits1 := pl_base64_codetovaluep1 (inp !!! 0%nat) in
  let bits2 := pl_base64_codetovaluep1 (inp !!! 1%nat) in
  if (bits1 =? 0) || (bits2 =? 0) then None else
  let num := Z.shiftl (bits1 - 1) 2 in
  let num := Z.lor num (Z.shiftr (bits2 - 1) 4) in
  Some [u8 num].

Definition pl_base64_decode_token (inp : list Z) : option (list Z) :=
  if negb (inp !!! 3%nat =? B64_PAD) then pl_base64_decode_4to3 inp
  else if inp !!! 2%nat =? B64_PAD then pl_base64_decode_2to1 inp
  else pl_base64_decode_3to2 inp.

(** ** The decoder *)

Record PLBase64Decoder (A : Type) := mk_PLBase64Decoder {
  token : list Z;
  token_size : nat;
  d_output_fn : option (A → list Z → A * Z);
  d_output_arg : A;
  d_output_buffer : option (list Z);
  d_output_buflen : Z;
  d_output_length : Z;
}.
Arguments mk_PLBase64Decoder {A}.
Arguments token {A}. Arguments token_size {A}. Arguments d_output_fn {A}.
Arguments d_output_arg {A}. Arguments d_output_buffer {A}. Arguments d_output_buflen {A}.
Arguments d_output_length {A}.

(** A character that goes into a token. *)
Definition keep (c : Z) : bool := (0 <? pl_base64_codetovaluep1 c) || (c =? B64_PAD).

(** [while (i < 4 && length > 0)]: the token, its size and the input left. *)
Fixpoint take_token (inp tok : list Z) (i : nat) : list Z * nat * list Z :=
  match inp with
  | [] => (tok, i, [])
  | c :: rest =>
      if decide (i < 4)%nat then
        if keep c then take_token rest (<[i := c]> tok) (S i) else take_token rest tok i
      else (tok, i, inp)
  end.

(** Stores through the output pointer; it may be NULL. *)
Definition store (b : option (list Z)) (off : nat) (bs : list Z) : mem_res (option (list Z)) :=
  match b with
  | Some b => b ← mem_write b off bs; Ok (Some b)
  | None => UB
  end.

(** [while (length > 0)]: whether it was left on a token that did not decode,
    the token, [token_size], the number of octets written, the buffer and the
    input left. *)
Fixpoint decode_loop (fuel : nat) (inp tok : list Z) (i out : nat) (b : option (list Z))
    : mem_res (bool * list Z * nat * nat * option (list Z) * list Z) :=
  match fuel with
  | O => UB
  | S fuel =>
      match inp with
      | [] => Ok (false, tok, 0%nat, out, b, [])
      | _ =>
          let '(tok, i, inp) := take_token inp tok i in
          if decide (i < 4)%nat then Ok (false, tok, i, out, b, inp) else
          match pl_base64_decode_4to3 tok with
          | None => Ok (true, tok, 0%nat, out, b, inp)
          | Some bs =>
              b ← store b out bs;
              decode_loop fuel inp tok 0 (out + length bs) b
          end
      end
  end.

Section Decoder.
  Context {A : Type}.
  Implicit Types data : PLBase64Decoder A.

Definition set_token data (tok : list Z) (n : nat) (b : option (list Z)) (len : Z)
    : PLBase64Decoder A :=
  mk_PLBase64Decoder tok n (d_output_fn data) (d_output_arg data) b (d_output_buflen data) len.

Definition pl_base64_decode_buffer data (inp : list Z) : mem_res (PRStatus * PLBase64Decoder A) :=
  '(err, tok, n, out, b, rest) ←
    decode_loop (S (length inp)) inp (token data) (token_size data) 0 (d_output_buffer data);
  '(ok, out, b) ← (if (err : bool) then
                     match pl_base64_decode_token tok with
                     | None => Ok (false, out, b)
                     | Some bs => b ← store b out bs; Ok (true, out + length bs, b)%nat
                     end
                   else Ok (true, out, b));
  if negb ok || existsb (fun c => 0 <? pl_base64_codetovaluep1 c) rest
  then Ok (PR_FAILURE None, set_token data tok n b (d_output_length data))
  else Ok (PR_SUCCESS, set_token data tok n b (Z.of_nat out)).

Definition pl_base64_decode_flush data : mem_res (PRStatus * PLBase64Decoder A) :=
  if bool_decide (token_size data = 0%nat) || (token data !!! 0%nat =? B64_PAD)
  then Ok (PR_SUCCESS, data) else
  match d_output_buffer data with
  | None => Ok (PR_FAILURE None, data)
  | Some _ =>
      let tok := take (token_size data) (token data) ++ replicate (4 - token_size data) B64_PAD in
      let data := set_token data tok 0 (d_output_buffer data) (d_output_length data) in
      match pl_base64_decode_token tok with
      | None => Ok (PR_FAILURE None, data)
      | Some bs =>
          b ← store (d_output_buffer data) (Z.to_nat (d_output_length data)) bs;
          let data := set_token data tok 0 b (d_output_length data) in
          match d_output_fn data with
          | Some f =>
              let '(a, r) := f (d_output_arg data) (take (length bs) (default [] b)) in
              let data := mk_PLBase64Decoder tok 0 (d_output_fn data) a b (d_output_buflen data)
                            (d_output_length data) in
              Ok (if r <? 0 then PR_FAILURE (Some (OUTPUT_FN_ERROR r)) else PR_SUCCESS, data)
          | None => Ok (PR_SUCCESS, set_token data tok 0 b
                                      (u32 (d_output_length data + length bs)))
          end
      end
  end.

Definition PL_Base64MaxDecodedLength (size : Z) : Z := u32 (u64 (size * 3) / 4).

Definition pl_base64_create_decoder `{NSPRHeap} (arg : A) : option (PLBase64Decoder A) :=
  _ ← PR_Calloc 1 40;
  Some (mk_PLBase64Decoder [0; 0; 0; 0] 0 None arg None 0 0).

Definition PL_CreateBase64Decoder `{NSPRHeap} (fn : option (A → list Z → A * Z)) (arg : A)
    : option (PLBase64Decoder A) :=
  f ← fn;
  data ← pl_base64_create_decoder arg;
  Some (mk_PLBase64Decoder (token data) (token_size data) (Some f) arg (d_output_buffer data)
          (d_output_buflen data) (d_output_length data)).

Definition PL_UpdateBase64Decoder `{NSPRHeap} data (buffer : list Z) (size : Z)
    : mem_res (PRStatus * PLBase64Decoder A) :=
  if size =? 0 then Ok (PR_FAILURE (Some PR_INVALID_ARGUMENT_ERROR), data) else
  if size >? 2 ^ 32 - 1 - token_size data
  then Ok (PR_FAILURE (Some PR_INVALID_ARGUMENT_ERROR), data) else
  let need_length := PL_Base64MaxDecodedLength (u32 (size + token_size data)) in
  match (if need_length >? d_output_buflen data then
           match (match d_output_buffer data with
                  | Some b => PR_Realloc b need_length
                  | None => PR_Malloc need_length
                  end) with
           | Some b => Some (Some b, need_length)
           | None => None
           end
         else Some (d_output_buffer data, d_output_buflen data)) with
  | None => Ok (PR_FAILURE (Some PR_OUT_OF_MEMORY_ERROR), data)
  | Some (b, buflen) =>
      let data := mk_PLBase64Decoder (token data) (token_size data) (d_output_fn data)
                    (d_output_arg data) b buflen 0 in
      inp ← mem_read buffer 0 (Z.to_nat size);
      '(status, data) ← pl_base64_decode_buffer data inp;
      '(status, a) ←
        (match status with
         | PR_SUCCESS =>
             if d_output_length data >? 0 then
               match d_output_fn data with
               | None => UB
               | Some f =>
                   let '(a, r) := f (d_output_arg data)
                                    (take (Z.to_nat (d_output_length data))
                                       (default [] (d_output_buffer data))) in
                   Ok (if r <? 0 then PR_FAILURE (Some (OUTPUT_FN_ERROR r)) else PR_SUCCESS, a)
               end
             else Ok (status, d_output_arg data)
         | _ => Ok (status, d_output_arg data)
         end);
      Ok (status, mk_PLBase64Decoder (token data) (token_size data) (d_output_fn data) a
                    (d_output_buffer data) (d_output_buflen data) 0)
  end.

Definition PL_DestroyBase64Decoder data (abort_p : bool) : mem_res (PRStatus * A) :=
  if abort_p then Ok (PR_SUCCESS, d_output_arg data)
  else '(status, data) ← pl_base64_decode_flush data; Ok (status, d_output_arg data).

Definition NSSBase64Decoder_Create `{NSPRHeap} (fn : option (A → list Z → A * Z)) (arg : A)
    : option (PLBase64Decoder A) :=
  match PORT_ZAlloc 8 with
  | Ok _ => PL_CreateBase64Decoder fn arg
  | _ => None
  end.

Definition NSSBase64Decoder_Update `{NSPRHeap} data (buffer : list Z) (size : Z)
    : mem_res (PRStatus * PLBase64Decoder A) :=
  PL_UpdateBase64Decoder data buffer size.

Definition NSSBase64Decoder_Destroy data (abort_p : bool) : mem_res (PRStatus * A) :=
  PL_DestroyBase64Decoder data abort_p.

(** A client that pushes its chunks and then destroys the decoder, aborting at
    the first failure. *)
Fixpoint decode_chunks `{NSPRHeap} data (chunks : list (list Z)) : mem_res (PRStatus * A) :=
  match chunks with
  | [] => NSSBase64Decoder_Destroy data false
  | c :: chunks =>
      '(status, data) ← NSSBase64Decoder_Update data c (Z.of_nat (length c));
      match status with
      | PR_SUCCESS => decode_chunks data chunks
      | PR_FAILURE e => '(_, a) ← NSSBase64Decoder_Destroy data true; Ok (PR_FAILURE e, a)
      end
  end.
End Decoder.

(** ** Buffer operations *)

(** The result is the buffer and the decoded length. *)
Definition PL_Base64DecodeBuffer `{NSPRHeap} (src : list Z) (srclen : Z) (dest : option (list Z))
    (maxdestlen : Z) : res (option PRErrorCode) (list Z * Z) :=
  if srclen =? 0 then Err (Some PR_INVALID_ARGUMENT_ERROR) else
  let need_length := PL_Base64MaxDecodedLength srclen in
  '(buffer, maxdestlen) ←
    (match dest with
     | Some d => if maxdestlen <? need_length then Err (Some PR_BUFFER_OVERFLOW_ERROR)
                 else Ok (d, maxdestlen)
     | None => match PR_Malloc need_length with
               | Some b => Ok (b, need_length)
               | None => Err (Some PR_OUT_OF_MEMORY_ERROR)
               end
     end);
  match pl_base64_create_decoder tt with
  | None => Err (Some PR_OUT_OF_MEMORY_ERROR)
  | Some data =>
      let data := mk_PLBase64Decoder (token data) (token_size data) None tt (Some buffer)
                    maxdestlen (d_output_length data) in
      inp ← mem_read src 0 (Z.to_nat srclen);
      '(status, data) ← lift (pl_base64_decode_buffer data inp);
      '(status, data) ← (match status with
                         | PR_SUCCESS => lift (pl_base64_decode_flush data)
                         | _ => Ok (status, data)
                         end);
      match status with
      | PR_FAILURE e => Err e
      | PR_SUCCESS =>
          '(status, _) ← lift (PL_DestroyBase64Decoder
                                 (set_token data (token data) (token_size data) None
                                    (d_output_length data)) false);
          match status with
          | PR_FAILURE e => Err e
          | PR_SUCCESS => Ok (default [] (d_output_buffer data), d_output_length data)
          end
      end
  end.

(** lib/util/secitem.c, SECITEM_AllocItem: the item and its block. *)
Definition SECITEM_AllocItem `{NSPRHeap} (arena : option (Z → option (list Z)))
    (item : option SECItem) (len : Z) : option SECItem :=
  _ ← (match item with
       | None => match arena with
                 | Some _ => arena_or_heap arena 24
                 | None => match PORT_ZAlloc 24 with Ok b => Some b | _ => None end
                 end
       | Some _ => Some []
       end);
  if len =? 0 then Some (mk_SECItem None len) else
  d ← arena_or_heap arena len;
  Some (mk_SECItem (Some d) len).

Definition NSSBase64_DecodeBuffer `{NSPRHeap} (arenaOpt : option (Z → option (list Z)))
    (outItemOpt : option SECItem) (inStr : list Z) (inLen : Z)
    : res (option PRErrorCode) SECItem :=
  if match outItemOpt with Some i => bool_decide (is_Some (item_data i)) | None => false end
     || (inLen =? 0)
  then Err (Some (SEC_ERROR SEC_ERROR_INVALID_ARGS)) else
  let max_out_len := PL_Base64MaxDecodedLength inLen in
  if max_out_len =? 0 then Err None else
  match SECITEM_AllocItem arenaOpt outItemOpt max_out_len with
  | None => Err (Some (SEC_ERROR SEC_ERROR_NO_MEMORY))
  | Some out_item =>
      '(d, len) ← PL_Base64DecodeBuffer inStr inLen (item_data out_item) max_out_len;
      Ok (mk_SECItem (Some d) len)
  end.

(** ** The reference decoder *)

(** Whole tokens up to the first one that is not four letters; what is left. *)
Fixpoint dec (fuel : nat) (s : list Z) : list Z * list Z :=
  match fuel, s with
  | S fuel, a :: b :: c :: d :: r =>
      match pl_base64_decode_4to3 [a; b; c; d] with
      | Some bs => let '(o, r) := dec fuel r in (bs ++ o, r)
      | None => ([], s)
      end
  | _, _ => ([], s)
  end.

Definition decode_stream (s : list Z) : list Z * list Z := dec (length s) s.

(** What a piece of input does to a decoder with the characters [pend]
    pending: the octets it yields and the characters that stay pending, or a
    failure. *)
Definition decode_piece (pend inp : list Z) : option (list Z * list Z) :=
  let '(o, r) := decode_stream (pend ++ filter (fun c => keep c) inp) in
  if decide (length r < 4)%nat then Some (o, r) else
  bs ← pl_base64_decode_token (take 4 r);
  if existsb (fun c => 0 <? pl_base64_codetovaluep1 c) (drop 4 r) then None
  else Some (o ++ bs, []).

(** What the end of input does: missing padding is supplied. *)
Definition decode_end (pend : list Z) : option (list Z) :=
  match pend with
  | [] => Some []
  | c :: _ => if c =? B64_PAD then Some []
              else pl_base64_decode_token (pend ++ replicate (4 - length pend) B64_PAD)
  end.

#[global] Arguments pl_base64_codetovaluep1 : simpl never.
#[global] Arguments pl_base64_decode_4to3 : simpl never.
#[global] Arguments pl_base64_decode_token : simpl never.
#[global] Arguments keep : simpl never.
#[global] Arguments decode_stream : simpl never.

(** The computed table inverts the encoder's. *)
Lemma code_pad : pl_base64_codetovaluep1 B64_PAD = 0.
Proof. vm_compute. reflexivity. Qed.

Lemma code_letter v : 0 ≤ v < 64 → pl_base64_codetovaluep1 (letter v) = v + 1.
Proof.
  intros Hv. assert (Hall : Forall (fun v => pl_base64_codetovaluep1 (letter v) = v + 1) (seqZ 0 64)).
  { apply (bool_decide_unpack _). vm_compute. done. }
  rewrite Forall_forall in Hall. apply Hall, list_elem_of_In, elem_of_seqZ. lia.
Qed.

#[global] Opaque pl_base64_codetovaluep1.

Lemma list4_ind (P : list Z → Prop) :
  (∀ l, (length l < 4)%nat → P l) → (∀ a b c d l, P l → P (a :: b :: c :: d :: l)) → ∀ l, P l.
Proof.
  intros H0 H1. fix IH 1.
  intros [|a [|b [|c [|d l]]]]; [apply H0; simpl; lia..|apply H1, IH].
Qed.

Lemma dec_S f a b c d r :
  dec (S f) (a :: b :: c :: d :: r) =
  match pl_base64_decode_4to3 [a; b; c; d] with
  | Some bs => let '(o, r) := dec f r in (bs ++ o, r)
  | None => ([], a :: b :: c :: d :: r)
  end.
Proof. reflexivity. Qed.

Lemma dec_fuel f1 : ∀ f2 s, (length s ≤ f1)%nat → (length s ≤ f2)%nat → dec f1 s = dec f2 s.
Proof.
  induction f1 as [|f1 IH]; intros f2 s H1 H2.
  - destruct s; [|simpl in H1; lia]. by destruct f2.
  - destruct f2 as [|f2]; [destruct s; [done|simpl in H2; lia]|].
    destruct s as [|a [|b [|c [|d s]]]]; [done..|]. rewrite !dec_S.
    rewrite (IH f2 s) by (simpl in *; lia). done.
Qed.

Lemma decode_stream_short s : (length s < 4)%nat → decode_stream s = ([], s).
Proof.
  unfold decode_stream. destruct s as [|a [|b [|c [|d s]]]]; intros H; [done..|cbn [length] in H; lia].
Qed.

Lemma decode_stream_token a b c d r :
  decode_stream (a :: b :: c :: d :: r) =
  match pl_base64_decode_4to3 [a; b; c; d] with
  | Some bs => let '(o, r) := decode_stream r in (bs ++ o, r)
  | None => ([], a :: b :: c :: d :: r)
  end.
Proof.
  unfold decode_stream. change (length (a :: b :: c :: d :: r)) with (S (S (S (S (length r))))).
  rewrite dec_S. destruct (pl_base64_decode_4to3 _); [|done].
  by rewrite (dec_fuel (S (S (S (length r)))) (length r) r) by lia.
Qed.

Lemma decode_4to3_len t bs : pl_base64_decode_4to3 t = Some bs → length bs = 3%nat.
Proof. unfold pl_base64_decode_4to3. destruct (fold_left _ _ _); naive_solver. Qed.

Lemma decode_token_len t bs :
  pl_base64_decode_4to3 t = None → pl_base64_decode_token t = Some bs → (length bs ≤ 2)%nat.
Proof.
  intros H4. unfold pl_base64_decode_token, pl_base64_decode_2to1, pl_base64_decode_3to2.
  rewrite H4. destruct (negb _); [done|].
  destruct (_ =? B64_PAD); destruct (_ || _); intros [= <-]; cbn [length]; lia.
Qed.

(** Three octets for four characters. *)
Lemma decode_stream_len s :
  (4 * length (decode_stream s).1 + 3 * length (decode_stream s).2 = 3 * length s)%nat.
Proof.
  induction s as [l Hl|a b c d l IH] using list4_ind; [by rewrite decode_stream_short|].
  rewrite decode_stream_token. destruct (pl_base64_decode_4to3 [a; b; c; d]) as [bs|] eqn:E; [|done].
  apply decode_4to3_len in E. destruct (decode_stream l). cbn in *. rewrite length_app. lia.
Qed.

Lemma decode_stream_app s w :
  (length (decode_stream s).2 < 4)%nat →
  decode_stream (s ++ w) =
  ((decode_stream s).1 ++ (decode_stream ((decode_stream s).2 ++ w)).1,
   (decode_stream ((decode_stream s).2 ++ w)).2).
Proof.
  induction s as [l Hl|a b c d l IH] using list4_ind; intros H.
  - rewrite (decode_stream_short l) by done. cbn. by destruct (decode_stream (l ++ w)).
  - cbn [app]. rewrite !decode_stream_token in *.
    destruct (pl_base64_decode_4to3 [a; b; c; d]) as [bs|]; [|cbn in H; lia].
    destruct (decode_stream l) as [o r] eqn:E. cbn in H, IH |- *. rewrite IH by done. cbn.
    by rewrite <- app_assoc.
Qed.

(** A token that is not four letters stops the walk. *)
Lemma decode_stream_stuck s w :
  (4 ≤ length (decode_stream s).2)%nat →
  decode_stream (s ++ w) = ((decode_stream s).1, (decode_stream s).2 ++ w).
Proof.
  induction s as [l Hl|a b c d l IH] using list4_ind; intros H.
  - rewrite decode_stream_short in H by done. cbn in H. lia.
  - cbn [app]. rewrite !decode_stream_token in *.
    destruct (pl_base64_decode_4to3 [a; b; c; d]) as [bs|]; [|done].
    destruct (decode_stream l) as [o r] eqn:E. cbn in H, IH |- *. rewrite IH by done. done.
Qed.

Lemma decode_stream_stop s :
  (4 ≤ length (decode_stream s).2)%nat → pl_base64_decode_4to3 (take 4 (decode_stream s).2) = None.
Proof.
  induction s as [l Hl|a b c d l IH] using list4_ind; intros H.
  - rewrite decode_stream_short in H by done. cbn in H. lia.
  - rewrite !decode_stream_token in *.
    destruct (pl_base64_decode_4to3 [a; b; c; d]) as [bs|] eqn:E4; [|by cbn; rewrite take_0].
    destruct (decode_stream l) as [o r] eqn:E. cbn in H, IH |- *. by apply IH.
Qed.

(** ** The loops *)

Definition kept (l : list Z) : list Z := filter (fun c => keep c) l.

Lemma kept_cons c l : kept (c :: l) = if keep c then c :: kept l else kept l.
Proof. unfold kept. rewrite filter_cons. destruct (keep c); by case_decide. Qed.

Lemma kept_app l1 l2 : kept (l1 ++ l2) = kept l1 ++ kept l2.
Proof.
  induction l1 as [|c l1 IH]; [done|]. cbn [app]. rewrite !kept_cons, IH. by destruct (keep c).
Qed.

Lemma length_kept l : (length (kept l) ≤ length l)%nat.
Proof.
  induction l as [|c l IH]; [done|]. rewrite kept_cons. destruct (keep c); cbn [length]; lia.
Qed.

Lemma existsb_kept l :
  existsb (fun c => 0 <? pl_base64_codetovaluep1 c) l =
  existsb (fun c => 0 <? pl_base64_codetovaluep1 c) (kept l).
Proof.
  induction l as [|c l IH]; [done|]. rewrite kept_cons. cbn [existsb]. rewrite IH.
  unfold keep. destruct (0 <? pl_base64_codetovaluep1 c) eqn:E; cbn [orb].
  - cbn [existsb]. by rewrite E.
  - destruct (c =? B64_PAD); [|done]. cbn [existsb]. by rewrite E.
Qed.

Lemma take_token_spec inp : ∀ tok i,
  length tok = 4%nat → (i ≤ 4)%nat →
  ∃ tok' rest, take_token inp tok i = (tok', (4 `min` (i + length (kept inp)))%nat, rest) ∧
    length tok' = 4%nat ∧
    take (4 `min` (i + length (kept inp))) tok' = take i tok ++ take (4 - i) (kept inp) ∧
    kept rest = drop (4 - i) (kept inp) ∧
    ((i + length (kept inp) < 4)%nat → rest = []) ∧ (length rest ≤ length inp)%nat ∧
    ((i < 4)%nat → inp ≠ [] → (length rest < length inp)%nat).
Proof.
  induction inp as [|c inp IH]; intros tok i Htok Hi.
  - exists tok, []. change (kept []) with (@nil Z). rewrite take_nil, drop_nil, app_nil_r.
    replace (4 `min` (i + length (@nil Z)))%nat with i by (cbn [length]; lia). done.
  - cbn [take_token]. rewrite kept_cons. destruct (decide (i < 4)%nat) as [Hlt|Hge].
    + destruct (keep c) eqn:Hk.
      * destruct (IH (<[i:=c]> tok) (S i)) as (tok' & rest & E & Hl & Ht & Hr & Hn & Hle & Hs);
          [by rewrite length_insert|lia|].
        exists tok', rest. cbn [length]. rewrite E. replace (i + S (length (kept inp)))%nat
          with (S i + length (kept inp))%nat by lia.
        split; [done|]. split; [done|].
        replace (4 - i)%nat with (S (4 - S i)) by lia. cbn [take drop].
        split; [|split; [done|]; split; [intros; apply Hn; lia|]; split; [lia|intros; lia]].
        rewrite Ht, (take_S_r _ _ c) by (apply list_lookup_insert_eq; lia).
        rewrite take_insert_ge by lia. by rewrite <- app_assoc.
      * destruct (IH tok i Htok Hi) as (tok' & rest & E & Hl & Ht & Hr & Hn & Hle & Hs).
        exists tok', rest. rewrite E. cbn [length]. split_and!; try done; [lia|intros; lia].
    + assert (i = 4%nat) as -> by lia. exists tok, (c :: inp).
      rewrite Nat.sub_diag, take_0, drop_0, app_nil_r, Nat.min_l by lia.
      rewrite kept_cons. split_and!; try done; try lia.
Qed.

(** ** Writing into the output buffer *)

Definition blen (b : option (list Z)) : nat := length (default [] b).

(** [b'] is [b] with [o] written at [out]. *)
Definition wrote (b : option (list Z)) (out : nat) (o : list Z) (b' : option (list Z)) : Prop :=
  match b, b' with
  | Some m, Some m' => length m' = length m ∧ take (out + length o) m' = take out m ++ o
  | None, None => o = []
  | _, _ => False
  end.

Lemma wrote_nil b out : wrote b out [] b.
Proof. destruct b; cbn; [|done]. by rewrite Nat.add_0_r, app_nil_r. Qed.

Lemma wrote_app b out o1 b1 o2 b2 :
  wrote b out o1 b1 → wrote b1 (out + length o1) o2 b2 → wrote b out (o1 ++ o2) b2.
Proof.
  destruct b, b1, b2; cbn; try done.
  - intros [H1 H2] [H3 H4]. split; [congruence|].
    rewrite length_app, Nat.add_assoc, H4, H2. by rewrite app_assoc.
  - by intros -> ->.
Qed.

Lemma wrote_blen b out o b' : wrote b out o b' → blen b' = blen b.
Proof. destruct b, b'; cbn; try done. by intros [-> _]. Qed.

Lemma store_ok b out bs :
  (out + length bs ≤ blen b)%nat → bs ≠ [] →
  ∃ b', store b out bs = Ok b' ∧ wrote b out bs b' ∧ is_Some b'.
Proof.
  destruct b as [m|]; unfold blen; cbn; intros Hfit Hne.
  - destruct (mem_write (E:=Empty_set) m out bs) as [m'|[]|] eqn:Hw.
    + exists (Some m'). cbn. split; [done|]. split; [|done].
      split; [by eapply mem_write_length|by apply mem_write_take in Hw].
    + unfold mem_write in Hw. case_decide; [done|lia].
  - destruct bs; [done|cbn in Hfit; lia].
Qed.

(** ** The decoder is the reference decoder *)

Lemma decode_loop_spec fuel : ∀ inp tok i out b,
  (length inp < fuel)%nat → length tok = 4%nat → (i < 4)%nat → (inp = [] → i = 0%nat) →
  let s := take i tok ++ kept inp in
  let o := (decode_stream s).1 in let r := (decode_stream s).2 in
  (out + length o ≤ blen b)%nat →
  ∃ tok' rest b',
    decode_loop fuel inp tok i out b =
      Ok (bool_decide (4 ≤ length r)%nat, tok',
          if decide (4 ≤ length r)%nat then 0%nat else length r, (out + length o)%nat, b', rest) ∧
    length tok' = 4%nat ∧ wrote b out o b' ∧
    if decide (4 ≤ length r)%nat then tok' = take 4 r ∧ kept rest = drop 4 r
    else take (length r) tok' = r ∧ rest = [].
Proof.
  induction fuel as [|fuel IH]; intros inp tok i out b Hf Htok Hi Hnil s o r Hfit; [lia|].
  cbn [decode_loop]. destruct inp as [|c inp].
  { assert (Hs0 : s = []) by (unfold s; by rewrite Hnil).
    exists tok, [], b. unfold o, r. rewrite Hs0, decode_stream_short by (cbn; lia).
    cbn [fst snd length]. rewrite Nat.add_0_r. split_and!; try done. apply wrote_nil. }
  destruct (take_token_spec (c :: inp) tok i Htok ltac:(lia))
    as (tok1 & rest & -> & Htok1 & Ht & Hr & Hn & _ & Hs).
  set (w := kept (c :: inp)) in *.
  destruct (decide (4 `min` (i + length w) < 4)%nat) as [Hlt|Hge].
  - rewrite Nat.min_r in * by lia. rewrite Hn by lia.
    rewrite (take_ge w) in Ht by lia. fold s in Ht.
    assert (Hsl : length s = (i + length w)%nat).
    { unfold s. rewrite length_app, length_take. lia. }
    assert (Hd : decode_stream s = ([], s)) by (apply decode_stream_short; lia).
    unfold o, r. rewrite Hd. cbn [fst snd length].
    exists tok1, [], b. rewrite Nat.add_0_r, Hsl.
    rewrite bool_decide_eq_false_2, !decide_False by lia.
    split_and!; try done. apply wrote_nil.
  - assert (Hw4 : (4 ≤ i + length w)%nat) by lia. rewrite Nat.min_l in Ht by lia.
    rewrite (take_ge tok1) in Ht by lia.
    assert (Hs4 : s = tok1 ++ kept rest).
    { unfold s. rewrite Ht, Hr, <- app_assoc, take_drop. done. }
    destruct tok1 as [|t0 [|t1 [|t2 [|t3 [|]]]]]; try (cbn in Htok1; lia). clear Htok1.
    unfold o, r in *. clear o r. rewrite Hs4 in *. cbn [app] in *.
    rewrite decode_stream_token in *.
    destruct (pl_base64_decode_4to3 [t0; t1; t2; t3]) as [bs|] eqn:E4.
    + pose proof (decode_4to3_len _ _ E4) as H3.
      destruct (decode_stream (kept rest)) as [o r] eqn:Ed. cbn [fst snd] in *.
      rewrite length_app in *.
      destruct (store_ok b out bs) as (b1 & -> & Hw1 & _); [lia|by destruct bs|].
      cbn [mbind res_bind].
      specialize (IH rest [t0; t1; t2; t3] 0%nat (out + length bs)%nat b1).
      cbn [take app] in IH. rewrite Ed in IH. cbn [fst snd] in IH.
      specialize (Hs Hi ltac:(done)). cbn [length] in Hs, Hf.
      destruct IH as (tok' & rest' & b' & -> & ? & Hw2 & ?); try done; try lia.
      { rewrite (wrote_blen _ _ _ _ Hw1). lia. }
      exists tok', rest', b'. rewrite Nat.add_assoc. split_and!; try done.
      by eapply wrote_app.
    + cbn [fst snd length]. exists [t0; t1; t2; t3], rest, b.
      rewrite bool_decide_eq_true_2, !decide_True by lia. rewrite Nat.add_0_r.
      split; [done|]. split; [done|]. split; [apply wrote_nil|]. cbn [take drop]. by rewrite take_0.
Qed.

Record dec_wf {A} (data : PLBase64Decoder A) : Prop := mk_dec_wf {
  dw_token : length (token data) = 4%nat;
  dw_size : (token_size data < 4)%nat;
}.

Definition dpending {A} (data : PLBase64Decoder A) : list Z := take (token_size data) (token data).

Lemma length_dpending {A} (data : PLBase64Decoder A) :
  dec_wf data → length (dpending data) = token_size data.
Proof. intros []. unfold dpending. rewrite length_take. lia. Qed.

Lemma room_whole k o n : (4 * o + 3 * k ≤ 3 * n)%nat → (o ≤ 3 * n / 4)%nat.
Proof. intros H. apply Nat.div_le_lower_bound; lia. Qed.

Lemma decode_token_ne t bs : pl_base64_decode_token t = Some bs → bs ≠ [].
Proof.
  unfold pl_base64_decode_token, pl_base64_decode_2to1, pl_base64_decode_3to2.
  destruct (negb _); [intros H%decode_4to3_len ->; done|].
  destruct (_ =? B64_PAD); destruct (_ || _); by intros [= <-].
Qed.

Lemma decode_buffer_spec {A} (data : PLBase64Decoder A) inp :
  dec_wf data → inp ≠ [] →
  (3 * (token_size data + length inp) / 4 ≤ blen (d_output_buffer data))%nat →
  match decode_piece (dpending data) inp with
  | Some (o, r) =>
      ∃ tok b, pl_base64_decode_buffer data inp =
        Ok (PR_SUCCESS, set_token data tok (length r) b (Z.of_nat (length o))) ∧
        length tok = 4%nat ∧ (length r < 4)%nat ∧ take (length r) tok = r ∧
        (length r ≤ token_size data + length inp)%nat ∧
        wrote (d_output_buffer data) 0 o b
  | None =>
      ∃ tok n b, pl_base64_decode_buffer data inp =
        Ok (PR_FAILURE None, set_token data tok n b (d_output_length data))
  end.
Proof.
  intros Hwf Hne Hroom. pose proof (length_dpending data Hwf) as Hpl.
  unfold pl_base64_decode_buffer, decode_piece. fold (kept inp).
  set (s := dpending data ++ kept inp).
  assert (Hsl : (length s ≤ token_size data + length inp)%nat).
  { unfold s. rewrite length_app, Hpl. pose proof (length_kept inp). lia. }
  pose proof (decode_stream_len s) as Hdl.
  assert (Hfit : (length (decode_stream s).1 ≤ blen (d_output_buffer data))%nat).
  { etransitivity; [|exact Hroom]. apply (room_whole (length (decode_stream s).2)). lia. }
  destruct (decode_loop_spec (S (length inp)) inp (token data) (token_size data) 0 (d_output_buffer data))
    as (tok & rest & b & -> & Htok & Hw & Hif); try (destruct Hwf; lia); try done.
  fold (dpending data) in Hw, Hif |- *. fold s in Hw, Hif |- *.
  pose proof (decode_stream_stop s) as Hstop.
  destruct (decode_stream s) as [o r]. cbn [fst snd mbind res_bind Nat.add] in *.
  destruct (decide (4 ≤ length r)%nat) as [H4|H4].
  - rewrite bool_decide_eq_true_2, decide_False by lia. destruct Hif as [-> Hrest].
    specialize (Hstop H4).
    destruct (pl_base64_decode_token (take 4 r)) as [bs|] eqn:Et; cbn [mbind option_bind res_bind];
      [|by eexists _, _, _].
    pose proof (decode_token_len _ _ Hstop Et) as H2.
    destruct (store_ok b (length o) bs) as (b' & -> & Hw' & _); [|by eapply decode_token_ne|].
    { rewrite (wrote_blen _ _ _ _ Hw). etransitivity; [|exact Hroom].
      apply (room_whole 0). lia. }
    cbn [mbind res_bind negb orb]. rewrite (existsb_kept rest), Hrest.
    destruct (existsb _ (drop 4 r)); [by eexists _, _, _|].
    eexists _, _. rewrite length_app. cbn [length take].
    split_and!; try done; try lia. by eapply wrote_app.
  - rewrite bool_decide_eq_false_2, decide_True by lia. destruct Hif as [Ht ->].
    cbn [mbind res_bind negb orb existsb]. eexists _, _. split_and!; try done; lia.
Qed.

(** ** The end of input *)

Lemma decode_end_len r bs :
  (length r < 4)%nat → decode_end r = Some bs → bs ≠ [] → (length bs < length r)%nat.
Proof.
  unfold decode_end. destruct r as [|c r]; intros Hr; [by intros [= <-]|].
  destruct (c =? B64_PAD) eqn:Ec; [by intros [= <-]|].
  unfold pl_base64_decode_token. intros Ht _.
  destruct r as [|c1 [|c2 [|]]]; [| | |cbn in Hr; lia]; cbn in Ht;
    unfold pl_base64_decode_2to1, pl_base64_decode_3to2 in Ht; cbn in Ht.
  - rewrite code_pad, Z.eqb_refl, orb_true_r in Ht. done.
  - destruct (_ || _); [done|]. injection Ht as <-. cbn. lia.
  - destruct (c2 =? B64_PAD); destruct (_ || _); try done; injection Ht as <-; cbn; lia.
Qed.

Lemma decode_flush_spec {A} (data : PLBase64Decoder A) :
  dec_wf data → 0 ≤ d_output_length data →
  (Z.to_nat (d_output_length data) + (token_size data - 1) ≤ blen (d_output_buffer data))%nat →
  match decode_end (dpending data) with
  | None => ∃ data', pl_base64_decode_flush data = Ok (PR_FAILURE None, data')
  | Some [] => pl_base64_decode_flush data = Ok (PR_SUCCESS, data)
  | Some bs =>
      ∃ tok b, wrote (d_output_buffer data) (Z.to_nat (d_output_length data)) bs b ∧
        pl_base64_decode_flush data =
        match d_output_fn data with
        | None => Ok (PR_SUCCESS, set_token data tok 0 b (u32 (d_output_length data + length bs)))
        | Some f =>
            let '(a, r) := f (d_output_arg data) (take (length bs) (default [] b)) in
            Ok (if r <? 0 then PR_FAILURE (Some (OUTPUT_FN_ERROR r)) else PR_SUCCESS,
                mk_PLBase64Decoder tok 0 (d_output_fn data) a b (d_output_buflen data)
                  (d_output_length data))
        end
  end.
Proof.
  intros Hwf Hl0 Hroom. pose proof (length_dpending data Hwf) as Hpl. unfold pl_base64_decode_flush.
  destruct (dpending data) as [|c pend] eqn:Ep.
  { cbn in Hpl |- *. rewrite bool_decide_eq_true_2 by lia. done. }
  assert (Hc : token data !!! 0%nat = c).
  { unfold dpending in Ep. destruct (token data), (token_size data); try discriminate Ep.
    by injection Ep as -> _. }
  rewrite bool_decide_eq_false_2 by (cbn in Hpl; lia). rewrite Hc.
  pose proof (decode_end_len (c :: pend)) as Hel. fold (dpending data). rewrite Ep, <- Hpl.
  unfold decode_end in *. cbn [orb]. destruct (c =? B64_PAD); [done|].
  set (tok := (c :: pend) ++ replicate (4 - length (c :: pend)) B64_PAD) in *.
  destruct (pl_base64_decode_token tok) as [bs|] eqn:Et.
  - assert (Hbs : bs ≠ []) by (by eapply decode_token_ne).
    specialize (Hel bs ltac:(destruct Hwf; lia) eq_refl Hbs).
    destruct bs as [|x bs]; [done|].
    destruct (store_ok (d_output_buffer data) (Z.to_nat (d_output_length data)) (x :: bs))
      as (b & Hs & Hw & [m Hm]); [lia|done|].
    exists tok, b. split; [done|].
    destruct (d_output_buffer data) as [m0|] eqn:Eb; [|by subst].
    cbn [set_token d_output_buffer d_output_length]. rewrite Hs. done.
  - destruct (d_output_buffer data); by eexists.
Qed.

(** ** Decoding what the encoder wrote *)

Lemma push_letter num v : 0 ≤ num < 2 ^ 18 → 0 ≤ v < 64 →
  push_bits (Some num) (letter v) = Some (num * 64 + v).
Proof.
  intros Hn Hv. unfold push_bits. cbn [mbind option_bind]. rewrite code_letter by done.
  rewrite (proj2 (Z.eqb_neq _ _)) by lia. replace (v + 1 - 1) with v by lia.
  rewrite lor_shift_add by lia. change (2 ^ 6) with 64. rewrite wrap_small; [done|lia].
Qed.

Lemma byte_split n : 0 ≤ n < 2 ^ 24 →
  n = ((n / 2 ^ 18 mod 64 * 64 + n / 2 ^ 12 mod 64) * 64 + n / 2 ^ 6 mod 64) * 64 + n mod 64.
Proof. intros Hn. Z.to_euclidean_division_equations. lia. Qed.

Lemma be_val_3 a b c : be_val [a; b; c] = a * 65536 + b * 256 + c.
Proof. unfold be_val. cbn [fold_left]. lia. Qed.

Lemma decode_quad a b c :
  is_byte a → is_byte b → is_byte c → pl_base64_decode_4to3 (quad (be_val [a; b; c])) = Some [a; b; c].
Proof.
  unfold is_byte. intros Ha Hb Hc. rewrite be_val_3. set (n := a * 65536 + b * 256 + c).
  assert (Hn : 0 ≤ n < 2 ^ 24) by (unfold n; lia). pose proof (byte_split n Hn) as Hs.
  unfold quad, pl_base64_decode_4to3.
  set (v0 := n / 2 ^ 18 mod 64) in *. set (v1 := n / 2 ^ 12 mod 64) in *.
  set (v2 := n / 2 ^ 6 mod 64) in *. set (v3 := n mod 64) in *.
  assert (0 ≤ v0 < 64 ∧ 0 ≤ v1 < 64 ∧ 0 ≤ v2 < 64 ∧ 0 ≤ v3 < 64) as (? & ? & ? & ?).
  { split_and!; apply Z.mod_pos_bound; lia. }
  cbn [fmap list_fmap lookup_total list_lookup_total fold_left].
  rewrite push_letter by lia. rewrite push_letter by lia. rewrite push_letter by lia.
  rewrite push_letter by lia. cbn [mbind option_bind].
  replace (((((0 * 64 + v0) * 64 + v1) * 64 + v2) * 64 + v3)) with n by lia.
  change 0xFF with (2 ^ 8 - 1). rewrite !land_ones_mod, !Z.shiftr_div_pow2 by lia.
  unfold wrap. clearbody v0 v1 v2 v3. unfold n. clear Hs Hn.
  do 2 f_equal; [|f_equal; [|f_equal]]; Z.to_euclidean_division_equations; lia.
Qed.

Lemma decode_last_2 a b :
  is_byte a → is_byte b →
  pl_base64_decode_token (take 3 (quad (be_val [a; b; 0])) ++ [B64_PAD]) = Some [a; b].
Proof.
  unfold is_byte. intros Ha Hb. rewrite be_val_3. set (n := a * 65536 + b * 256 + 0).
  unfold quad, pl_base64_decode_token, pl_base64_decode_3to2.
  assert (0 ≤ n / 2 ^ 18 mod 64 < 64 ∧ 0 ≤ n / 2 ^ 12 mod 64 < 64 ∧ 0 ≤ n / 2 ^ 6 mod 64 < 64)
    as (? & ? & ?) by (split_and!; apply Z.mod_pos_bound; lia).
  cbn [take app lookup_total list_lookup_total]. rewrite Z.eqb_refl. cbn [negb].
  rewrite (proj2 (Z.eqb_neq (letter _) B64_PAD)).
  2: { intros E. apply (f_equal pl_base64_codetovaluep1) in E. rewrite code_pad, code_letter in E; lia. }
  rewrite !code_letter by lia. rewrite !(proj2 (Z.eqb_neq _ 0)) by lia. cbn [orb].
  rewrite !Z.add_simpl_r.
  assert (E : Z.lor (Z.lor (Z.shiftl (n / 2 ^ 18 mod 64) 10) (Z.shiftl (n / 2 ^ 12 mod 64) 4))
            (Z.shiftr (n / 2 ^ 6 mod 64) 2) = a * 256 + b).
  { rewrite Z.shiftr_div_pow2, (Z.shiftl_mul_pow2 (n / 2 ^ 12 mod 64)) by lia.
    rewrite lor_shift_add by lia.
    replace (n / 2 ^ 18 mod 64 * 2 ^ 10 + n / 2 ^ 12 mod 64 * 2 ^ 4)
      with ((n / 2 ^ 18 mod 64 * 64 + n / 2 ^ 12 mod 64) * 2 ^ 4) by lia.
    rewrite <- Z.shiftl_mul_pow2, lor_shift_add by (try lia; Z.to_euclidean_division_equations; lia).
    unfold n. Z.to_euclidean_division_equations; lia. }
  rewrite E. change 0xFF with (2 ^ 8 - 1). rewrite land_ones_mod, Z.shiftr_div_pow2 by lia.
  unfold wrap. do 2 f_equal; [|f_equal]; Z.to_euclidean_division_equations; lia.
Qed.

Lemma decode_last_1 a :
  is_byte a →
  pl_base64_decode_token (take 2 (quad (be_val [a; 0; 0])) ++ [B64_PAD; B64_PAD]) = Some [a].
Proof.
  unfold is_byte. intros Ha. rewrite be_val_3. set (n := a * 65536 + 0 * 256 + 0).
  unfold quad, pl_base64_decode_token, pl_base64_decode_2to1.
  assert (0 ≤ n / 2 ^ 18 mod 64 < 64 ∧ 0 ≤ n / 2 ^ 12 mod 64 < 64)
    as (? & ?) by (split_and!; apply Z.mod_pos_bound; lia).
  cbn [take app lookup_total list_lookup_total]. rewrite !Z.eqb_refl. cbn [negb].
  rewrite !code_letter by lia. rewrite !(proj2 (Z.eqb_neq _ 0)) by lia. cbn [orb].
  rewrite !Z.add_simpl_r.
  rewrite Z.shiftr_div_pow2, lor_shift_add by (try lia; Z.to_euclidean_division_equations; lia).
  unfold wrap, n. do 2 f_equal. Z.to_euclidean_division_equations; lia.
Qed.

(** ** Streaming *)

(** The reference decoder on a sequence of chunks. *)
Fixpoint decode_reference (pend : list Z) (chunks : list (list Z)) : option (list Z) :=
  match chunks with
  | [] => decode_end pend
  | c :: chunks =>
      '(o, r) ← decode_piece pend c;
      o' ← decode_reference r chunks;
      Some (o ++ o')
  end.

Section StreamDecoder.
  Context {A : Type} `{Base64Sink A} `{NSPRHeap}.
  Implicit Types data : PLBase64Decoder A.

Record stream_dec data : Prop := mk_stream_dec {
  sd_wf : dec_wf data;
  sd_fn : d_output_fn data = Some sink_fn;
  sd_len : d_output_length data = 0;
  sd_buf : d_output_buflen data = Z.of_nat (blen (d_output_buffer data));
  sd_room : (token_size data - 1 ≤ blen (d_output_buffer data))%nat;
}.

(** The text that makes a decoder give up is not the sink's or the heap's. *)
Definition outside_failure (st : PRStatus) : Prop :=
  sink_failed st ∨ st = PR_FAILURE (Some PR_OUT_OF_MEMORY_ERROR).

Lemma MaxDecodedLength_val n : 0 ≤ n < 2 ^ 32 → PL_Base64MaxDecodedLength n = 3 * n / 4.
Proof.
  intros Hn. unfold PL_Base64MaxDecodedLength. rewrite (wrap_small 64) by lia.
  rewrite (Z.mul_comm n 3). apply wrap_small. split; [apply Z.div_pos; lia|].
  apply Z.div_lt_upper_bound; lia.
Qed.

(** Growing the output buffer. *)
Definition grow data (need_length : Z) : option (option (list Z) * Z) :=
  if need_length >? d_output_buflen data then
    match (match d_output_buffer data with
           | Some b => PR_Realloc b need_length
           | None => PR_Malloc need_length
           end) with
    | Some b => Some (Some b, need_length)
    | None => None
    end
  else Some (d_output_buffer data, d_output_buflen data).

Lemma grow_ok data n b buflen :
  stream_dec data → 0 ≤ n → grow data n = Some (b, buflen) →
  buflen = Z.of_nat (blen b) ∧ n ≤ buflen ∧ Z.of_nat (blen (d_output_buffer data)) ≤ buflen.
Proof.
  intros [_ _ _ Hb _] Hn. unfold grow. rewrite Z.gtb_ltb.
  destruct (Z.ltb_spec (d_output_buflen data) n).
  - destruct (d_output_buffer data) as [m|] eqn:E.
    + destruct (PR_Realloc m n) as [m'|] eqn:Em; [|done]. intros [= <- <-].
      apply PR_Realloc_keeps in Em as (? & _ & _); [|lia]. cbn in *. lia.
    + destruct (PR_Malloc n) as [m'|] eqn:Em; [|done]. intros [= <- <-].
      apply PR_Malloc_size in Em as (? & _); [|lia]. cbn in *. lia.
  - intros [= <- <-]. lia.
Qed.

Lemma Update_decodes data c :
  stream_dec data → c ≠ [] → Z.of_nat (length c) < 2 ^ 32 - 4 →
  ∃ st data', NSSBase64Decoder_Update data c (Z.of_nat (length c)) = Ok (st, data') ∧
    (outside_failure st ∨
     match decode_piece (dpending data) c with
     | Some (o, r) =>
         st = PR_SUCCESS ∧ stream_dec data' ∧ dpending data' = r ∧
         sink_sent (d_output_arg data') = sink_sent (d_output_arg data) ++ o
     | None => st = PR_FAILURE None ∧ d_output_arg data' = d_output_arg data
     end).
Proof.
  intros Hsd Hne Hsz. pose proof Hsd as [Hwf Hfn Hlen Hbuf Hroom].
  pose proof (dw_size _ Hwf) as Hts. set (n := Z.of_nat (length c)) in *.
  assert (Hn0 : 0 < n) by (unfold n; destruct c; [done|cbn; lia]).
  unfold NSSBase64Decoder_Update, PL_UpdateBase64Decoder.
  rewrite (proj2 (Z.eqb_neq n 0)) by lia.
  rewrite Z.gtb_ltb, (proj2 (Z.ltb_ge _ _)) by lia.
  rewrite (wrap_small 32 (n + _)), MaxDecodedLength_val by lia.
  set (need := 3 * (n + Z.of_nat (token_size data)) / 4). fold (grow data need).
  destruct (grow data need) as [[b buflen]|] eqn:Hg.
  2: { eexists _, _. split; [done|]. left. by right. }
  apply grow_ok in Hg as (-> & Hneed & Hge); [|done|apply Z.div_pos; lia].
  unfold mem_read. rewrite decide_True by (unfold n; lia). rewrite drop_0, take_ge by (unfold n; lia).
  cbn [mbind res_bind]. set (d0 := mk_PLBase64Decoder _ _ _ _ _ _ _).
  assert (Hfit : (3 * (token_size d0 + length c) / 4 ≤ blen (d_output_buffer d0))%nat).
  { apply Nat2Z.inj_le. rewrite Nat2Z.inj_div. cbn. unfold need, n in Hneed.
    etransitivity; [|exact Hneed]. apply Z.eq_le_incl. f_equal. lia. }
  pose proof (decode_buffer_spec d0 c ltac:(by destruct Hwf; split) Hne Hfit) as Hspec.
  change (dpending d0) with (dpending data) in Hspec. change (token_size d0) with (token_size data) in *.
  destruct (decode_piece (dpending data) c) as [[o r]|].
  - destruct Hspec as (tok & b' & -> & Htok & Hr4 & Htk & Hrl & Hw). cbn [mbind res_bind].
    assert (Hsd' : ∀ a, stream_dec (mk_PLBase64Decoder tok (length r) (d_output_fn d0) a b'
                                  (d_output_buflen d0) 0)).
    { intros a. pose proof (wrote_blen _ _ _ _ Hw) as Hbl. cbn [d0 d_output_buffer] in Hbl, Hfit.
      split; cbn [d_output_fn d_output_length d_output_buflen d_output_buffer token_size d0];
        [by split|done|done|by rewrite Hbl|].
      rewrite Hbl. etransitivity; [|exact Hfit]. apply Nat.div_le_lower_bound; lia. }
    cbn [d_output_length set_token d_output_fn d_output_arg d_output_buffer token token_size d_output_buflen].
    destruct (Z.gtb_spec (Z.of_nat (length o)) 0) as [Ho|Ho].
    + unfold d0. cbn [d_output_fn d_output_arg d_output_buflen]. rewrite Hfn, Nat2Z.id.
      assert (Hout : take (length o) (default [] b') = o).
      { destruct b as [m|], b' as [m'|]; cbn in Hw |- *; try done;
          [by destruct Hw as [_ ->]|subst; cbn in Ho; lia]. }
      rewrite Hout. destruct (sink_fn (d_output_arg data) o) as [a q] eqn:Hcall.
      cbn [mbind res_bind]. eexists _, _. split; [done|].
      destruct (Z.ltb_spec q 0); [left; left; by exists q|]. right.
      split; [done|]. unfold d0 in Hsd'. cbn in Hsd'. rewrite Hfn in Hsd'. split; [apply Hsd'|].
      split; [done|]. pose proof (sink_law (d_output_arg data) o) as Hs. rewrite Hcall in Hs. by apply Hs.
    + cbn [mbind res_bind]. eexists _, _. split; [done|]. right. split; [done|].
      split; [apply Hsd'|]. split; [done|]. destruct o; [|cbn in Ho; lia]. cbn. by rewrite app_nil_r.
  - destruct Hspec as (tok & m & b' & ->). cbn [mbind res_bind]. eexists _, _. split; [done|]. by right.
Qed.

Lemma Destroy_decodes data :
  stream_dec data →
  ∃ st a, NSSBase64Decoder_Destroy data false = Ok (st, a) ∧
    (outside_failure st ∨
     match decode_end (dpending data) with
     | Some o => st = PR_SUCCESS ∧ sink_sent a = sink_sent (d_output_arg data) ++ o
     | None => st = PR_FAILURE None
     end).
Proof.
  intros [Hwf Hfn Hlen Hbuf Hroom]. unfold NSSBase64Decoder_Destroy, PL_DestroyBase64Decoder.
  pose proof (decode_flush_spec data Hwf ltac:(lia) ltac:(rewrite Hlen; cbn; lia)) as Hspec.
  destruct (decode_end (dpending data)) as [[|x bs]|].
  - rewrite Hspec. cbn [mbind res_bind]. eexists _, _. split; [done|]. right. by rewrite app_nil_r.
  - destruct Hspec as (tok & b & Hw & ->). rewrite Hfn.
    assert (Hout : take (length (x :: bs)) (default [] b) = x :: bs).
    { rewrite Hlen in Hw. destruct (d_output_buffer data), b; cbn [wrote] in Hw; try done.
      destruct Hw as [_ Hw]. exact Hw. }
    rewrite Hout. destruct (sink_fn (d_output_arg data) (x :: bs)) as [a q] eqn:Hcall.
    cbn [mbind res_bind]. eexists _, _. split; [done|].
    destruct (Z.ltb_spec q 0); [left; left; by exists q|]. right. split; [done|].
    pose proof (sink_law (d_output_arg data) (x :: bs)) as Hs. rewrite Hcall in Hs. by apply Hs.
  - destruct Hspec as (data' & ->). cbn [mbind res_bind]. eexists _, _. split; [done|]. by right.
Qed.

Lemma decode_chunks_reference chunks : ∀ data,
  stream_dec data → Forall (fun c => c ≠ []) chunks →
  Forall (fun c => Z.of_nat (length c) < 2 ^ 32 - 4) chunks →
  ∃ st a, decode_chunks data chunks = Ok (st, a) ∧
    (outside_failure st ∨
     match decode_reference (dpending data) chunks with
     | Some o => st = PR_SUCCESS ∧ sink_sent a = sink_sent (d_output_arg data) ++ o
     | None => st = PR_FAILURE None
     end).
Proof.
  induction chunks as [|c chunks IH]; intros data Hsd Hn Hs; cbn [decode_chunks decode_reference].
  { by apply Destroy_decodes. }
  apply Forall_cons_1 in Hn as [Hn0 Hn], Hs as [Hs0 Hs].
  destruct (Update_decodes data c Hsd Hn0 Hs0) as (st & d1 & -> & [Hf|Hr]); cbn [mbind res_bind].
  - destruct st as [|e]; [by destruct Hf as [(?&?&?)|?]|].
    eexists _, _. split; [done|]. by left.
  - destruct (decode_piece (dpending data) c) as [[o r]|]; cbn [mbind option_bind].
    + destruct Hr as (-> & Hsd1 & Hp & Hsent).
      destruct (IH d1 Hsd1 Hn Hs) as (st & a & -> & [Hf|Hm]); eexists _, _; (split; [done|]); [by left|].
      right. rewrite Hp in Hm. destruct (decode_reference r chunks); [|done]. cbn.
      destruct Hm as [-> Hm]. by rewrite Hm, Hsent, app_assoc.
    + destruct Hr as [-> _]. eexists _, _. split; [done|]. by right.
Qed.

Lemma Create_stream_dec (arg : A) data :
  NSSBase64Decoder_Create (Some sink_fn) arg = Some data →
  stream_dec data ∧ dpending data = [] ∧ d_output_arg data = arg.
Proof.
  unfold NSSBase64Decoder_Create, PL_CreateBase64Decoder, pl_base64_create_decoder.
  destruct (PORT_ZAlloc 8); try done. cbn. destruct (PR_Calloc 1 40); [|done]. intros [= <-].
  split; [|done]. split; cbn; [split; cbn; lia|done|done|done|lia].
Qed.
End StreamDecoder.

(** ** The buffer operation *)

Lemma decode_piece_len pend inp o r :
  decode_piece pend inp = Some (o, r) →
  (4 * length o + 3 * length r ≤ 3 * (length pend + length inp))%nat.
Proof.
  unfold decode_piece. fold (kept inp). set (s := pend ++ kept inp).
  assert (Hs : (length s ≤ length pend + length inp)%nat).
  { unfold s. rewrite length_app. pose proof (length_kept inp). lia. }
  pose proof (decode_stream_len s) as Hl. pose proof (decode_stream_stop s) as Hstop.
  destruct (decode_stream s) as [o' r']. cbn [fst snd] in *. case_decide as H4; [intros [= <- <-]; lia|].
  specialize (Hstop ltac:(lia)).
  destruct (pl_base64_decode_token (take 4 r')) as [bs|] eqn:Et; [|done]. cbn [mbind option_bind].
  destruct (existsb _ _); [done|]. intros [= <- <-].
  pose proof (decode_token_len _ _ Hstop Et). rewrite length_app. cbn [length]. lia.
Qed.

Lemma decode_end_nil r : decode_end r = Some [] → r = [] ∨ ∃ r', r = B64_PAD :: r'.
Proof.
  unfold decode_end. destruct r as [|c r]; [by left|].
  destruct (Z.eqb_spec c B64_PAD) as [-> | _]; [right; by eexists|].
  by intros H%decode_token_ne.
Qed.

(** Destroying a decoder that has been flushed does nothing more. *)
Lemma Destroy_settled {A} (data : PLBase64Decoder A) :
  (token_size data = 0%nat ∨ token data !!! 0%nat = B64_PAD) →
  PL_DestroyBase64Decoder data false = Ok (PR_SUCCESS, d_output_arg data).
Proof.
  intros Hor. unfold PL_DestroyBase64Decoder, pl_base64_decode_flush.
  replace (bool_decide (token_size data = 0%nat) || (token data !!! 0%nat =? B64_PAD)) with true; [done|].
  symmetry. apply orb_true_iff.
  destruct Hor as [-> | ->]; [by left|right; apply Z.eqb_refl].
Qed.

Lemma DecodeBuffer_reference `{NSPRHeap} src d maxdestlen :
  src ≠ [] → Z.of_nat (length src) < 2 ^ 32 → 3 * Z.of_nat (length src) / 4 ≤ maxdestlen →
  maxdestlen ≤ Z.of_nat (length d) →
  PR_Calloc 1 40 = None ∧
    PL_Base64DecodeBuffer src (Z.of_nat (length src)) (Some d) maxdestlen =
    Err (Some PR_OUT_OF_MEMORY_ERROR) ∨
  match decode_reference [] [src] with
  | Some o => ∃ d', PL_Base64DecodeBuffer src (Z.of_nat (length src)) (Some d) maxdestlen =
                    Ok (d', Z.of_nat (length o)) ∧ length d' = length d ∧ take (length o) d' = o
  | None => PL_Base64DecodeBuffer src (Z.of_nat (length src)) (Some d) maxdestlen = Err None
  end.
Proof.
  intros Hne Hsz Hneed Hmax. unfold PL_Base64DecodeBuffer.
  assert (Hpos : 0 < Z.of_nat (length src)) by (destruct src; [done|cbn; lia]).
  rewrite (proj2 (Z.eqb_neq _ _)), MaxDecodedLength_val by lia.
  rewrite (proj2 (Z.ltb_ge _ _)) by lia. cbn [mbind res_bind].
  unfold pl_base64_create_decoder. destruct (PR_Calloc 1 40) as [blk|]; [right|by left].
  cbn [mbind option_bind]. unfold mem_read. rewrite Nat2Z.id, decide_True by lia.
  rewrite drop_0, take_ge by lia. cbn [mbind res_bind token token_size d_output_length].
  set (d0 := mk_PLBase64Decoder _ _ _ _ _ _ _).
  assert (Hwf0 : dec_wf d0) by (split; cbn; lia).
  assert (Hfit : (3 * (token_size d0 + length src) / 4 ≤ blen (d_output_buffer d0))%nat).
  { apply Nat2Z.inj_le. rewrite Nat2Z.inj_div. change (blen (d_output_buffer d0)) with (length d).
    change (token_size d0) with 0%nat.
    replace (Z.of_nat (3 * (0 + length src))) with (3 * Z.of_nat (length src)) by lia. lia. }
  pose proof (decode_buffer_spec d0 src Hwf0 Hne Hfit) as Hspec.
  change (dpending d0) with (@nil Z) in Hspec. cbn [decode_reference].
  pose proof (decode_piece_len [] src) as Hlen.
  destruct (decode_piece [] src) as [[o r]|]; cbn [mbind option_bind].
  2: { destruct Hspec as (tok & n & b & ->). done. }
  destruct Hspec as (tok & b & -> & Htok & Hr4 & Htk & Hrl & Hw). cbn [lift mbind res_bind].
  specialize (Hlen o r eq_refl). cbn [length Nat.add] in Hlen.
  set (d1 := set_token d0 tok (length r) b (Z.of_nat (length o))).
  assert (Hp1 : dpending d1 = r) by done.
  assert (Hbl : blen b = length d) by (apply wrote_blen in Hw; exact Hw).
  assert (Hroom : (length o + (length r - 1) ≤ length d)%nat).
  { apply Nat2Z.inj_le. etransitivity; [|exact Hmax]. etransitivity; [|exact Hneed].
    apply Z.div_le_lower_bound; lia. }
  pose proof (decode_flush_spec d1) as Hfl. rewrite Hp1 in Hfl.
  cbn [d1 set_token d_output_length d_output_buffer token_size d_output_fn d0] in Hfl.
  rewrite Nat2Z.id, Hbl in Hfl. specialize (Hfl ltac:(by split) ltac:(lia) Hroom).
  destruct (decode_end r) as [bs|] eqn:He; cbn [mbind option_bind].
  - assert (Hend : ∃ t n b', pl_base64_decode_flush d1 =
        Ok (PR_SUCCESS, set_token d0 t n b' (Z.of_nat (length (o ++ bs)))) ∧
        wrote (Some d) 0 (o ++ bs) b' ∧ (n = 0%nat ∨ t !!! 0%nat = B64_PAD)).
    { destruct bs as [|x bs].
      - exists tok, (length r), b. rewrite app_nil_r. split_and!; [done|done|].
        apply decode_end_nil in He as [-> | [r' ->]]; [by left|right].
        destruct tok; [done|]. cbn in Htk. by injection Htk as -> _.
      - destruct Hfl as (t & b' & Hw' & ->). exists t, 0%nat, b'. split_and!; [|by eapply wrote_app|by left].
        rewrite <- Nat2Z.inj_add, <- length_app, wrap_small; [done|].
        apply decode_end_len in He; [|done|done]. rewrite length_app. lia. }
    destruct Hend as (t & n & b' & -> & Hw' & Hor). cbn [lift mbind res_bind].
    unfold set_token at 1. rewrite Destroy_settled by done. cbn [lift mbind res_bind].
    cbn [d_output_buffer d_output_length set_token].
    destruct b' as [d'|]; [|done]. destruct Hw' as [Hl' Ht']. exists d'. done.
  - destruct Hfl as [data' ->]. done.
Qed.


(** ** Round trip *)

Lemma decode_4to3_pad a b c : pl_base64_decode_4to3 [a; b; c; B64_PAD] = None.
Proof.
  unfold pl_base64_decode_4to3. cbn [fmap list_fmap lookup_total list_lookup_total fold_left].
  assert (Hp : ∀ n, push_bits n B64_PAD = None).
  { intros [n|]; [|done]. unfold push_bits. cbn [mbind option_bind]. by rewrite code_pad. }
  by rewrite Hp.
Qed.

Lemma decode_last l :
  bytes l → (length l < 3)%nat →
  decode_stream (concat (last_token l)) = ([], concat (last_token l)) ∧
  (l = [] ∨ length (concat (last_token l)) = 4%nat ∧
            pl_base64_decode_token (concat (last_token l)) = Some l).
Proof.
  intros Hb Hl. destruct l as [|a [|b [|]]]; [by split; [|left]| | |cbn in Hl; lia];
    apply Forall_cons_1 in Hb as [Ha Hb]; cbn [last_token concat]; rewrite app_nil_r.
  - split; [|right; split; [done|by apply decode_last_1]].
    unfold quad. cbn [take app]. by rewrite decode_stream_token, decode_4to3_pad.
  - apply Forall_cons_1 in Hb as [Hb _].
    split; [|right; split; [done|by apply decode_last_2]].
    unfold quad. cbn [take app]. by rewrite decode_stream_token, decode_4to3_pad.
Qed.

Lemma decode_full x l :
  bytes x →
  ∃ bd, x = bd ++ leftover x ∧
    decode_stream (concat (full_tokens x) ++ l) = (bd ++ (decode_stream l).1, (decode_stream l).2).
Proof.
  induction x as [|a|a b|a b c x IH] using list3_ind; intros Hb;
    [exists []; cbn; by destruct (decode_stream l)..|].
  apply Forall_cons_1 in Hb as [Ha [Hb [Hc Hx]%Forall_cons_1]%Forall_cons_1].
  destruct (IH Hx) as (bd & Hbd & Hd). exists (a :: b :: c :: bd).
  cbn [full_tokens concat leftover]. split; [by rewrite Hbd at 1|].
  pose proof (decode_quad a b c Ha Hb Hc) as Hq. unfold quad in *. cbn [app].
  rewrite decode_stream_token, Hq, Hd. done.
Qed.

Lemma decode_tokens x :
  bytes x →
  ∃ bd, x = bd ++ leftover x ∧
    decode_stream (concat (b64_tokens x)) = (bd, concat (last_token (leftover x))).
Proof.
  intros Hx. destruct (decode_full x (concat (last_token (leftover x))) Hx) as (bd & Hbd & Hd).
  exists bd. split; [done|]. unfold b64_tokens. rewrite concat_app, Hd.
  assert (Hl : bytes (leftover x)) by (rewrite Hbd in Hx; by apply Forall_app in Hx as [_ ?]).
  destruct (decode_last (leftover x) Hl (leftover_lt x)) as [-> _]. cbn. by rewrite app_nil_r.
Qed.

Lemma decode_reference_skipped chunks :
  kept (concat chunks) = [] → decode_reference [] chunks = Some [].
Proof.
  induction chunks as [|c chunks IH]; [done|]. cbn [concat decode_reference]. rewrite kept_app.
  intros [Hc Hcs]%app_nil. unfold decode_piece. fold (kept c).
  rewrite Hc, decode_stream_short by (cbn; lia).
  rewrite decide_True by (cbn; lia). cbn. by rewrite IH.
Qed.

(** Whatever is between the tokens and however the text is cut, decoding the
    reference encoding gives the data back. *)
Lemma decode_reference_tokens x chunks : ∀ P pend o,
  bytes x → concat (b64_tokens x) = P ++ kept (concat chunks) →
  decode_stream P = (o, pend) → (length pend < 4)%nat →
  ∃ o', decode_reference pend chunks = Some o' ∧ o ++ o' = x.
Proof.
  induction chunks as [|c chunks IH]; intros P pend o Hx HS HP Hl;
    destruct (decode_tokens x Hx) as (bd & Hbd & Hd);
    assert (Hlb : bytes (leftover x)) by (rewrite Hbd in Hx; by apply Forall_app in Hx as [_ ?]);
    destruct (decode_last (leftover x) Hlb (leftover_lt x)) as [_ Hlast].
  - cbn [concat] in HS. change (kept []) with (@nil Z) in HS. rewrite app_nil_r in HS.
    rewrite HS, HP in Hd. injection Hd as -> ->.
    destruct Hlast as [E|[E _]]; [|lia]. rewrite E in *. cbn. exists []. by rewrite Hbd.
  - cbn [concat] in HS. rewrite kept_app, app_assoc in HS. cbn [decode_reference].
    pose proof (decode_stream_app P (kept c)) as Happ. rewrite HP in Happ. specialize (Happ Hl).
    unfold decode_piece. fold (kept c). cbn [fst snd] in Happ.
    destruct (decode_stream (pend ++ kept c)) as [o2 r2]. cbn [fst snd] in Happ.
    destruct (decide (length r2 < 4)%nat) as [H4|H4]; cbn [mbind option_bind].
    + destruct (IH (P ++ kept c) r2 (o ++ o2) Hx HS Happ H4) as (o' & -> & Ho').
      cbn. exists (o2 ++ o'). by rewrite app_assoc.
    + pose proof (decode_stream_stuck (P ++ kept c) (kept (concat chunks))) as Hst.
      rewrite Happ, <- HS, Hd in Hst. cbn [fst snd] in Hst. specialize (Hst ltac:(lia)).
      injection Hst as Hbd' Hr. destruct Hlast as [E|[E Ht]].
      { rewrite E in Hr. cbn in Hr. symmetry in Hr. apply app_nil in Hr as [-> _]. cbn in H4. lia. }
      assert (Hrest : kept (concat chunks) = []).
      { apply nil_length_inv. apply (f_equal length) in Hr. rewrite length_app, E in Hr. lia. }
      rewrite Hrest, app_nil_r in Hr. subst r2. rewrite take_ge, Ht by lia. cbn [mbind option_bind].
      rewrite drop_ge by lia. cbn [existsb mbind option_bind]. rewrite decode_reference_skipped by done.
      cbn. eexists. split; [done|]. by rewrite app_nil_r, app_assoc, <- Hbd', <- Hbd.
Qed.

(** Line breaks are skipped; letters and pads are kept. *)
Lemma kept_id l : Forall (fun c => keep c = true) l → kept l = l.
Proof. induction 1 as [|c l Hc _ IH]; [done|]. by rewrite kept_cons, Hc, IH. Qed.

Lemma keep_letter v : 0 ≤ v < 64 → keep (letter v) = true.
Proof. intros Hv. unfold keep. rewrite code_letter by done. rewrite (proj2 (Z.ltb_lt _ _)); [done|lia]. Qed.

Lemma keep_quad n : Forall (fun c => keep c = true) (quad n).
Proof.
  unfold quad. repeat (apply Forall_cons_2; [apply keep_letter, Z.mod_pos_bound; lia|]). constructor.
Qed.

Lemma keep_tokens x : Forall (Forall (fun c => keep c = true)) (b64_tokens x).
Proof.
  apply Forall_app. split.
  - induction x using list3_ind; cbn; auto using keep_quad.
  - assert (Hp : keep B64_PAD = true) by done.
    assert (Hq : ∀ n k p, Forall (fun c => keep c = true) p →
              Forall (fun c => keep c = true) (take k (quad n) ++ p)).
    { intros n k p H. apply Forall_app. split; [apply Forall_take, keep_quad|done]. }
    destruct (leftover x) as [|a [|b [|]]]; cbn [last_token];
      try (apply Forall_cons_2; [apply Hq; auto|]); apply Forall_nil_2.
Qed.

Lemma kept_layout L c ts :
  Forall (Forall (fun c => keep c = true)) ts → kept (layout L c ts) = concat ts.
Proof.
  intros Hts. revert c. induction Hts as [|t ts Ht _ IH]; intros c; [done|].
  cbn [layout concat]. assert (Hcr : kept [B64_CR; B64_LF] = []) by done.
  destruct (_ && _); rewrite !kept_app, ?Hcr, IH, kept_id by done; done.
Qed.

Lemma kept_text L x : kept (b64_text L x) = concat (b64_tokens x).
Proof. apply kept_layout, keep_tokens. Qed.

(** ** Main results *)

(** [C13] Streaming base64 decoder (nssb64d.c): for any chunks of any
    characters, NSSBase64Decoder_Create/_Update/_Destroy never write outside
    the output buffer, and unless the heap or the output function fails, they
    behave as the reference decoder: they fail exactly when it rejects the
    text, and otherwise have handed over exactly its octets. *)
Theorem decoder_streams_reference {A} `{Base64Sink A} `{NSPRHeap} (arg : A) data chunks :
  NSSBase64Decoder_Create (Some sink_fn) arg = Some data →
  Forall (fun c => c ≠ []) chunks →
  Forall (fun c => Z.of_nat (length c) < 2 ^ 32 - 4) chunks →
  ∃ st a, decode_chunks data chunks = Ok (st, a) ∧
    (outside_failure st ∨
     match decode_reference [] chunks with
     | Some o => st = PR_SUCCESS ∧ sink_sent a = sink_sent arg ++ o
     | None => st = PR_FAILURE None
     end).
Proof.
  intros (Hsd & Hp & Ha)%Create_stream_dec Hn Hs.
  pose proof (decode_chunks_reference chunks data Hsd Hn Hs) as Hrun. by rewrite Hp, Ha in Hrun.
Qed.

Lemma decoder_streams_reference_witness :
  ∃ st a, decode_chunks (mk_PLBase64Decoder [0; 0; 0; 0] 0 (Some (@sink_fn (list Z) _)) []
             None 0 0) [[84]; [87; 10; 70; 117]] = Ok (st, a) ∧
    (outside_failure st ∨
     match decode_reference [] [[84]; [87; 10; 70; 117]] with
     | Some o => st = PR_SUCCESS ∧ sink_sent a = sink_sent ([] : list Z) ++ o
     | None => st = PR_FAILURE None
     end).
Proof.
  apply (decoder_streams_reference (A:=list Z) [] _ [[84]; [87; 10; 70; 117]]);
    [vm_compute; reflexivity|..].
  - repeat (apply Forall_cons_2 || apply Forall_nil_2); done.
  - repeat (apply Forall_cons_2 || apply Forall_nil_2); done.
Defined.

(** [C11] Base64 round trip (nssb64e.c with nssb64d.c): the text the encoder
    produces for [x], cut into chunks anywhere and with any other characters
    inserted that are neither letters nor pads, streams through the decoder as
    exactly [x]. *)
Theorem base64_round_trip {A} `{Base64Sink A} `{NSPRHeap} (arg : A) data L x chunks :
  NSSBase64Decoder_Create (Some sink_fn) arg = Some data →
  bytes x → kept (concat chunks) = kept (b64_text L x) →
  Forall (fun c => c ≠ []) chunks →
  Forall (fun c => Z.of_nat (length c) < 2 ^ 32 - 4) chunks →
  ∃ st a, decode_chunks data chunks = Ok (st, a) ∧
    (outside_failure st ∨ st = PR_SUCCESS ∧ sink_sent a = sink_sent arg ++ x).
Proof.
  intros (Hsd & Hp & <-)%Create_stream_dec Hx Hk Hn Hs. rewrite kept_text in Hk.
  destruct (decode_reference_tokens x chunks [] [] []) as (o & Ho & Hox); [done|by symmetry|done|cbn; lia|].
  destruct (decode_chunks_reference chunks data Hsd Hn Hs) as (st & a & Hrun & Hres).
  rewrite Hp, Ho in Hres. exists st, a. split; [done|]. cbn in Hox. by subst.
Qed.

Lemma base64_round_trip_witness :
  ∃ st a, decode_chunks (mk_PLBase64Decoder [0; 0; 0; 0] 0 (Some (@sink_fn (list Z) _)) []
             None 0 0) [[84; 81]; [13; 10; 61]; [61]] = Ok (st, a) ∧
    (outside_failure st ∨ st = PR_SUCCESS ∧ sink_sent a = sink_sent ([] : list Z) ++ [77]).
Proof.
  apply (base64_round_trip (A:=list Z) [] _ 64 [77] [[84; 81]; [13; 10; 61]; [61]]);
    [vm_compute; reflexivity|..].
  - repeat (apply Forall_cons_2 || apply Forall_nil_2); unfold is_byte; lia.
  - vm_compute; reflexivity.
  - repeat (apply Forall_cons_2 || apply Forall_nil_2); done.
  - repeat (apply Forall_cons_2 || apply Forall_nil_2); done.
Defined.

Lemma AllocItem_block `{NSPRHeap} arena item n it :
  (∀ f k b, arena = Some f → f k = Some b → Z.of_nat (length b) = k) → 0 < n →
  SECITEM_AllocItem arena item n = Some it →
  ∃ b, it = mk_SECItem (Some b) n ∧ Z.of_nat (length b) = n.
Proof.
  intros Harena Hn. unfold SECITEM_AllocItem.
  destruct (match item with Some _ => _ | None => _ end); [|done]. cbn [mbind option_bind].
  rewrite (proj2 (Z.eqb_neq n 0)) by lia.
  destruct (arena_or_heap arena n) as [b|] eqn:E; [|done]. cbn. intros [= <-]. exists b. split; [done|].
  unfold arena_or_heap in E. destruct arena as [f|]; [by eapply Harena|].
  destruct (PORT_Alloc n) eqn:HP; simplify_eq.
  apply PORT_Alloc_Ok in HP as (HP & _ & _); [|lia]. rewrite (proj2 (Z.eqb_neq n 0)) in HP; lia.
Qed.

(** NSSBase64_DecodeBuffer (nssb64d.c) inverts NSSBase64_EncodeItem: given
    the encoded text of [x], with or without line breaks, it returns an item
    that holds exactly [x], and can only fail by a failed allocation. *)
Theorem DecodeBuffer_inverts_EncodeItem `{NSPRHeap} arenaOpt L x
    (text := b64_text L x) (n := 3 * Z.of_nat (length text) / 4) :
  bytes x → x ≠ [] → Z.of_nat (length text) < 2 ^ 32 →
  (∀ f k b, arenaOpt = Some f → f k = Some b → Z.of_nat (length b) = k) →
  match NSSBase64_DecodeBuffer arenaOpt None text (Z.of_nat (length text)) with
  | Ok it => ∃ b, it = mk_SECItem (Some b) (Z.of_nat (length x)) ∧ take (length x) b = x
  | Err e => e = Some (SEC_ERROR SEC_ERROR_NO_MEMORY) ∧ SECITEM_AllocItem arenaOpt None n = None ∨
             e = Some PR_OUT_OF_MEMORY_ERROR ∧ PR_Calloc 1 40 = None
  | UB => False
  end.
Proof.
  intros Hx Hne Hsz Harena. unfold NSSBase64_DecodeBuffer. cbn [orb].
  assert (Hlen : (4 ≤ length text)%nat).
  { unfold text, b64_text. apply length_layout_ge; [apply b64_tokens_len|].
    intros E. pose proof (length_b64_tokens x) as Hl. rewrite E in Hl. cbn [length] in Hl.
    assert (1 ≤ (Z.of_nat (length x) + 2) / 3); [|lia].
    apply Z.div_le_lower_bound; [lia|]. destruct x; [done|cbn; lia]. }
  rewrite (proj2 (Z.eqb_neq _ _)), MaxDecodedLength_val by lia. fold n.
  assert (Hn : 0 < n) by (apply Z.div_str_pos; lia). rewrite (proj2 (Z.eqb_neq n 0)) by lia.
  destruct (SECITEM_AllocItem arenaOpt None n) as [it|] eqn:Ha; [|by left].
  apply AllocItem_block in Ha as (b & -> & Hb); [|done|done]. cbn [item_data].
  destruct (decode_reference_tokens x [text] [] [] []) as (o & Ho & Hox); [done| |done|cbn; lia|].
  { cbn [concat]. rewrite app_nil_r. symmetry. apply kept_text. }
  destruct (DecodeBuffer_reference text b n) as [[Hc ->]|Hok]; try lia.
  { intros E. rewrite E in Hlen. cbn in Hlen. lia. }
  - cbn. by right.
  - rewrite Ho in Hok. destruct Hok as (d' & -> & _ & Ht). cbn in Hox. subst o.
    cbn [mbind res_bind]. by exists d'.
Qed.

Lemma DecodeBuffer_inverts_EncodeItem_witness :
  match NSSBase64_DecodeBuffer None None (b64_text 64 [77; 97]) (Z.of_nat (length (b64_text 64 [77; 97]))) with
  | Ok it => ∃ b, it = mk_SECItem (Some b) 2 ∧ take 2 b = [77; 97]
  | Err e => e = Some (SEC_ERROR SEC_ERROR_NO_MEMORY) ∧ SECITEM_AllocItem None None 3 = None ∨
             e = Some PR_OUT_OF_MEMORY_ERROR ∧ PR_Calloc 1 40 = None
  | UB => False
  end.
Proof.
  apply (DecodeBuffer_inverts_EncodeItem None 64 [77; 97]).
  - repeat (apply Forall_cons_2 || apply Forall_nil_2); unfold is_byte; lia.
  - done.
  - vm_compute. done.
  - done.
Defined.



