(* ===== verification/HandshakeIn.v ===== *)
(** Reassembly of handshake messages on the receiving side, for the TLS byte
    stream: ssl3_HandleHandshake and the tail of ssl3_HandleHandshakeMessage
    (lib/ssl/ssl3con.c).  DtlsReassembly.v has the DTLS side.

    What happens to a complete message (the per-message handlers, hashing,
    alerts, retransmission and acknowledgements) is another component: the
    class [HandshakeUpper] says what this one asks of it.  The result: messages
    come out the same however the stream is cut into records. *)

From stdpp Require Import base numbers list.
From S2P Require Import Prelude Port SslEncode.

(** The outcome of a handler: SECSuccess, SECFailure with
    PR_WOULD_BLOCK_ERROR, or SECFailure with another error. *)
Inductive SSLError :=
| SSL_ERROR_RX_MALFORMED_HANDSHAKE
| SSL_SEC_ERROR (e : SECErrorCode)
| SSL_OTHER_ERROR (code : Z).

Inductive hs_status := HsOk | HsWouldBlock | HsFail (e : SSLError).

#[global] Instance SSLError_eq_dec : EqDecision SSLError.
Proof. solve_decision. Defined.
#[global] Instance hs_status_eq_dec : EqDecision hs_status.
Proof. solve_decision. Defined.

(** What a message handler leaves behind: the state above, recvMessageSeq (a
    rehandshake or a cookie resets it), the outcome, and whether it returned
    before the common tail of ssl3_HandleHandshakeMessage. *)
Record handled (U : Type) := mk_handled {
  h_upper : U;
  h_seq : Z;
  h_status : hs_status;
  h_early : bool;
}.
Arguments mk_handled {U}. Arguments h_upper {U}. Arguments h_seq {U}.
Arguments h_status {U}. Arguments h_early {U}.

(** What reassembly asks of the handshake layer above it.  [delivered] is the
    messages handed to the per-message handlers so far, with their types. *)
Class HandshakeUpper (U : Type) := {
  handle_message : U → Z → Z → list Z → bool → handled U;
  decode_error : U → U;
  retransmit_detected : U → U * hs_status;
  expects_client_hello : U → bool;
  set_helloRetry : U → U;
  set_endOfFlight : U → bool → U;
  maybeTls13 : U → bool;
  remember_fragment : U → Z → Z → U * hs_status;
  setup_acks : U → U * hs_status;
  delivered : U → list (Z * list Z);
  handle_delivers u s t b l :
    delivered (h_upper (handle_message u s t b l)) = delivered u ++ [(t, b)];
  decode_error_delivers u : delivered (decode_error u) = delivered u;
  retransmit_delivers u : delivered (retransmit_detected u).1 = delivered u;
  helloRetry_delivers u : delivered (set_helloRetry u) = delivered u;
  endOfFlight_delivers u b : delivered (set_endOfFlight u b) = delivered u;
  remember_delivers u e s : delivered (remember_fragment u e s).1 = delivered u;
  acks_delivers u : delivered (setup_acks u).1 = delivered u;
}.

Definition MAX_HANDSHAKE_MSG_LEN : Z := 0x1ffff.
Definition ssl_hs_client_hello : Z := 1.

(** The part of [ss->ssl3.hs] these functions use; msg_len is an unsigned
    long, of 64 bits. *)
Record hsIn (U : Type) := mk_hsIn {
  header_bytes : Z;
  msg_type : Z;
  msg_len : Z;
  msg_body : sslBuffer;
  recvMessageSeq : Z;
  recvdHighWater : Z;
  recvdFragments : sslBuffer;
  upper : U;
}.
Arguments mk_hsIn {U}. Arguments header_bytes {U}. Arguments msg_type {U}.
Arguments msg_len {U}. Arguments msg_body {U}. Arguments recvMessageSeq {U}.
Arguments recvdHighWater {U}. Arguments recvdFragments {U}. Arguments upper {U}.

Section HandshakeIn.
  Context {U : Type} `{HandshakeUpper U} `{NSPRHeap}.
  Implicit Types ss : hsIn U.

Definition set_upper ss (u : U) : hsIn U :=
  mk_hsIn (header_bytes ss) (msg_type ss) (msg_len ss) (msg_body ss) (recvMessageSeq ss)
    (recvdHighWater ss) (recvdFragments ss) u.
Definition set_header ss (hb t l : Z) : hsIn U :=
  mk_hsIn hb t l (msg_body ss) (recvMessageSeq ss) (recvdHighWater ss) (recvdFragments ss) (upper ss).
Definition set_body ss (b : sslBuffer) : hsIn U :=
  mk_hsIn (header_bytes ss) (msg_type ss) (msg_len ss) b (recvMessageSeq ss)
    (recvdHighWater ss) (recvdFragments ss) (upper ss).
Definition set_seq ss (s : Z) : hsIn U :=
  mk_hsIn (header_bytes ss) (msg_type ss) (msg_len ss) (msg_body ss) s
    (recvdHighWater ss) (recvdFragments ss) (upper ss).
Definition set_water ss (w : Z) : hsIn U :=
  mk_hsIn (header_bytes ss) (msg_type ss) (msg_len ss) (msg_body ss) (recvMessageSeq ss)
    w (recvdFragments ss) (upper ss).
Definition set_fragments ss (b : sslBuffer) : hsIn U :=
  mk_hsIn (header_bytes ss) (msg_type ss) (msg_len ss) (msg_body ss) (recvMessageSeq ss)
    (recvdHighWater ss) b (upper ss).

(** The message handlers, then the common tail of ssl3_HandleHandshakeMessage:
    a DTLS message that was handled (or will be, once unblocked) moves the
    expected sequence number on.  The result says whether the tail taints the
    message. *)
Definition ssl3_HandleHandshakeMessage (dtls : bool) ss (b : list Z) (endOfRecord : bool)
    : hsIn U * hs_status * bool :=
  let h := handle_message (upper ss) (recvMessageSeq ss) (msg_type ss) b endOfRecord in
  let ss := set_seq (set_upper ss (h_upper h)) (h_seq h) in
  if h_early h then (ss, h_status h, false) else
  let ss := match h_status h with
            | HsFail _ => ss
            | _ => if dtls then set_seq ss (u16 (recvMessageSeq ss + 1)) else ss
            end in
  (ss, h_status h, true).

(** [PORT_Memset(b, 'N', length)] on a message that sits in msg_body. *)
Definition taint ss (n : Z) (tail : bool) : mem_res (hsIn U) :=
  if negb tail then Ok ss else
  match buf (msg_body ss) with
  | Some m => m ← mem_write m 0 (replicate (Z.to_nat n) 78);
              Ok (set_body ss (mk_sslBuffer (Some m) (len (msg_body ss)) (space (msg_body ss))
                                 (fixed (msg_body ss))))
  | None => if n =? 0 then Ok ss else UB
  end.

(** ** TLS *)

(** What a turn of the loop does next. *)
Inductive turn := Continue | Break | Loser (rv : hs_status).

(** The octets of a header, one per turn. *)
Definition header_step ss (t : Z) : hsIn U * option turn :=
  let hb := header_bytes ss in
  let ss := if hb =? 0 then set_header ss (hb + 1) t (msg_len ss)
            else set_header ss (hb + 1) (msg_type ss) (u64 (u64 (Z.shiftl (msg_len ss) 8) + t)) in
  if header_bytes ss <? 4 then (ss, Some Continue) else
  if msg_len ss >? MAX_HANDSHAKE_MSG_LEN
  then (set_upper ss (decode_error (upper ss)), Some (Loser (HsFail SSL_ERROR_RX_MALFORMED_HANDSHAKE)))
  else if 0 <? msg_len ss then (ss, Some Continue) else (ss, None).

(** The body: handled in place when the record holds all of it, otherwise
    gathered in msg_body. *)
Definition body_step ss (b : list Z) : mem_res (hsIn U * list Z * turn) :=
  let n := msg_len ss in
  if (len (msg_body ss) =? 0) && (Z.of_nat (length b) >=? n) then
    let '(ss, rv, _) := ssl3_HandleHandshakeMessage false ss (take (Z.to_nat n) b)
                          (Z.of_nat (length b) =? n) in
    let ss := set_header ss 0 (msg_type ss) 0 in
    Ok (ss, drop (Z.to_nat n) b, match rv with HsOk => Continue | _ => Loser rv end)
  else
    let bytes := Z.min (Z.of_nat (length b)) (u64 (n - len (msg_body ss))) in
    match sslBuffer_Grow (msg_body ss) n with
    | UB => UB
    | Err e => Ok (ss, b, Loser (HsFail (SSL_SEC_ERROR e)))
    | Ok body =>
        match buffer_store body (len body) (take (Z.to_nat bytes) b) with
        | Ok body =>
            let ss := set_body ss (set_len body (len body + bytes)) in
            let b := drop (Z.to_nat bytes) b in
            if len (msg_body ss) =? n then
              let '(ss, rv, tail) := ssl3_HandleHandshakeMessage false ss (contents (msg_body ss))
                                       (Z.of_nat (length b) =? 0) in
              ss ← taint ss n tail;
              let ss := set_body ss (set_len (msg_body ss) 0) in
              let ss := set_header ss 0 (msg_type ss) 0 in
              Ok (ss, b, match rv with HsOk => Continue | _ => Loser rv end)
            else Ok (ss, b, Break)
        | _ => UB
        end
    end.

(** [while (buf.len > 0)]; every turn consumes at least one octet. *)
Fixpoint hs_loop (fuel : nat) ss (b : list Z) : mem_res (hsIn U * hs_status * list Z) :=
  match fuel with
  | O => UB
  | S fuel =>
      match b with
      | [] => Ok (ss, HsOk, [])
      | t :: rest =>
          let '(ss, b, next) :=
            if header_bytes ss <? 4
            then let '(ss, next) := header_step ss t in (ss, rest, next)
            else (ss, b, None) in
          '(ss, b, next) ← (match next with
                            | Some next => Ok (ss, b, next)
                            | None => body_step ss b
                            end);
          match next with
          | Continue => hs_loop fuel ss b
          | Break => Ok (ss, HsOk, [])
          | Loser rv => Ok (ss, rv, b)
          end
      end
  end.

(** The record's contents; the octets that are left for the next call. *)
Definition ssl3_HandleHandshake ss (origBuf : list Z) : mem_res (hsIn U * hs_status * list Z) :=
  hs_loop (S (length origBuf)) ss origBuf.

(** ** The TLS stream as messages *)

Definition enc_message (m : Z * list Z) : list Z := m.1 :: be_bytes 3 (length m.2) ++ m.2.

(** The octets of the message that is being gathered. *)
Definition pend ss : list Z :=
  if header_bytes ss =? 0 then []
  else msg_type ss :: be_bytes (Z.to_nat (header_bytes ss - 1)) (msg_len ss) ++ contents (msg_body ss).

Record hs_wf ss : Prop := mk_hs_wf {
  hw_header : 0 ≤ header_bytes ss ≤ 4;
  hw_body : wf (msg_body ss);
  hw_heap : fixed (msg_body ss) = false;
  hw_len : 0 ≤ msg_len ss < 256 ^ (Z.max 0 (header_bytes ss - 1));
  hw_gather : header_bytes ss = 4 → len (msg_body ss) < msg_len ss ≤ MAX_HANDSHAKE_MSG_LEN;
  hw_none : header_bytes ss < 4 → len (msg_body ss) = 0;
}.

(** A message is not complete before its header and its announced length are
    there. *)
Definition incomplete (p : list Z) : Prop :=
  (length p < 4)%nat ∨
  ∃ n : nat, Z.of_nat n ≤ MAX_HANDSHAKE_MSG_LEN ∧ (length p < 4 + n)%nat ∧
             take 3 (drop 1 p) = be_bytes 3 n.

Definition too_long (p : list Z) : Prop :=
  length p = 4%nat ∧ MAX_HANDSHAKE_MSG_LEN < be_val (drop 1 p).

Lemma contents_empty b : len b = 0 → contents b = [].
Proof. intros E. unfold contents. by rewrite E. Qed.

Lemma be_bytes_snoc n v t : 0 ≤ t < 256 → 0 ≤ v →
  be_bytes (S n) (v * 256 + t) = be_bytes n v ++ [t].
Proof.
  intros Ht Hv. cbn [be_bytes]. rewrite Z.div_add_l, (Z.div_small t), Z.add_0_r by lia.
  rewrite Z.add_comm, Z.mod_add, Z.mod_small by lia. done.
Qed.

Lemma pend_incomplete ss : hs_wf ss → incomplete (pend ss).
Proof.
  intros [Hh Hb _ Hl Hg Hn]. unfold pend, incomplete.
  destruct (Z.eqb_spec (header_bytes ss) 0); [left; cbn; lia|].
  pose proof (length_contents _ Hb) as Hc. cbn [length]. rewrite length_app, length_be_bytes.
  destruct (Z.eqb_spec (header_bytes ss) 4) as [E4|E4].
  - right. exists (Z.to_nat (msg_len ss)). specialize (Hg E4). destruct Hb. rewrite E4. split_and!; [lia|lia|].
    cbn [drop]. change (Z.to_nat (4 - 1)) with 3%nat. rewrite drop_0.
    rewrite take_app_length' by (by rewrite length_be_bytes). by rewrite Z2Nat.id by lia.
  - left. specialize (Hn ltac:(lia)). destruct Hb. lia.
Qed.

(** What the header octets do. *)
Lemma header_step_spec ss t :
  hs_wf ss → header_bytes ss < 4 → is_byte t →
  let '(ss', next) := header_step ss t in
  match next with
  | Some Continue => hs_wf ss' ∧ pend ss' = pend ss ++ [t] ∧ upper ss' = upper ss
  | None => hs_wf (set_header ss' 0 (msg_type ss') 0) ∧ pend ss' = pend ss ++ [t] ∧
            upper ss' = upper ss ∧ header_bytes ss' = 4 ∧ msg_len ss' = 0 ∧ len (msg_body ss') = 0
  | Some (Loser rv) => rv = HsFail SSL_ERROR_RX_MALFORMED_HANDSHAKE ∧
                       too_long (pend ss ++ [t]) ∧ delivered (upper ss') = delivered (upper ss)
  | Some Break => False
  end.
Proof.
  intros [Hh Hb Hf Hl _ Hg] Hlt Ht. unfold is_byte in Ht. unfold header_step. specialize (Hg Hlt).
  pose proof (contents_empty _ Hg) as Hc0.
  destruct (Z.eqb_spec (header_bytes ss) 0) as [E0|E0].
  - cbn. rewrite E0 in *. change (256 ^ Z.max 0 (0 - 1)) with 1 in Hl. assert (msg_len ss = 0) as HL0 by lia.
    split_and!; [|unfold pend; cbn; rewrite E0, Hc0; done|done].
    split; cbn; try done; lia.
  - assert (Hbits : msg_len ss < 256 ^ 2).
    { destruct Hl as [_ Hl]. eapply Z.lt_le_trans; [exact Hl|]. apply Z.pow_le_mono_r; lia. }
    rewrite Z.shiftl_mul_pow2 by lia. change (2 ^ 8) with 256 in *. change (256 ^ 2) with 65536 in *.
    rewrite (wrap_small 64 (_ * 256)), (wrap_small 64) by lia.
    set (ss1 := set_header _ _ _ _).
    assert (Hp1 : pend ss1 = pend ss ++ [t]).
    { unfold pend, ss1. cbn. rewrite (proj2 (Z.eqb_neq (header_bytes ss) 0)) by lia.
      rewrite (proj2 (Z.eqb_neq _ 0)) by lia. rewrite Hc0, !app_nil_r. cbn [app]. f_equal.
      replace (Z.to_nat (header_bytes ss + 1 - 1)) with (S (Z.to_nat (header_bytes ss - 1))) by lia.
      apply be_bytes_snoc; lia. }
    assert (Hl1 : 0 ≤ msg_len ss1 < 256 ^ (header_bytes ss1 - 1)).
    { unfold ss1. cbn. replace (header_bytes ss + 1 - 1) with (header_bytes ss - 1 + 1) by lia.
      rewrite Z.pow_add_r, Z.pow_1_r by lia.
      replace (Z.max 0 (header_bytes ss - 1)) with (header_bytes ss - 1) in Hl by lia. lia. }
    assert (Hh1 : header_bytes ss1 = header_bytes ss + 1) by done.
    assert (Hl2 : 0 ≤ msg_len ss1 < 256 ^ (Z.max 0 (header_bytes ss1 - 1))).
    { by replace (Z.max 0 (header_bytes ss1 - 1)) with (header_bytes ss1 - 1) by lia. }
    change (msg_body ss) with (msg_body ss1) in Hb, Hf, Hg, Hc0.
    destruct (Z.ltb_spec (header_bytes ss1) 4).
    + split_and!; [|done|done]. split; try done; lia.
    + rewrite Z.gtb_ltb. destruct (Z.ltb_spec MAX_HANDSHAKE_MSG_LEN (msg_len ss1)) as [Hbig|Hok].
      * split_and!; [done| |apply decode_error_delivers].
        rewrite <- Hp1. unfold pend, too_long. rewrite (proj2 (Z.eqb_neq _ 0)) by lia.
        replace (header_bytes ss1 - 1) with 3 in * by lia.
        rewrite Hc0, app_nil_r. split; [done|]. cbn [drop]. rewrite drop_0, be_val_be_bytes.
        change (Z.of_nat (Z.to_nat 3)) with 3. rewrite Z.mod_small by lia. done.
      * destruct (Z.ltb_spec 0 (msg_len ss1)).
        -- split_and!; [|done|done]. split; try done; lia.
        -- split_and!; (done || lia || (split; (done || cbn; lia))).
Qed.

(** ** What the body does *)

Record body_ready ss (b : list Z) : Prop := mk_body_ready {
  br_header : header_bytes ss = 4;
  br_body : wf (msg_body ss);
  br_heap : fixed (msg_body ss) = false;
  br_len : 0 ≤ msg_len ss ≤ MAX_HANDSHAKE_MSG_LEN;
  br_gather : len (msg_body ss) < msg_len ss ∨ msg_len ss = 0 ∧ len (msg_body ss) = 0;
  br_input : 0 < msg_len ss → b ≠ [];
}.

(** [rv] is what the handler of the message [m] answered. *)
Definition answered (rv : hs_status) (m : Z * list Z) : Prop :=
  ∃ u s l, rv = h_status (handle_message u s m.1 m.2 l).

(** A message has been handed to its handler, which answered [rv]. *)
Definition one_delivered ss b ss' (b' : list Z) (rv : hs_status) : Prop :=
  hs_wf ss' ∧ pend ss' = [] ∧ (∃ n, b' = drop n b) ∧
  ∃ body, pend ss ++ b = enc_message (msg_type ss, body) ++ b' ∧
    Z.of_nat (length body) ≤ MAX_HANDSHAKE_MSG_LEN ∧ answered rv (msg_type ss, body) ∧
    delivered (upper ss') = delivered (upper ss) ++ [(msg_type ss, body)].

Lemma Message_spec dtls ss b l :
  let '(ss', rv, tail) := ssl3_HandleHandshakeMessage dtls ss b l in
  delivered (upper ss') = delivered (upper ss) ++ [(msg_type ss, b)] ∧
  answered rv (msg_type ss, b) ∧ msg_type ss' = msg_type ss ∧ msg_len ss' = msg_len ss ∧ msg_body ss' = msg_body ss ∧
  recvdHighWater ss' = recvdHighWater ss ∧ recvdFragments ss' = recvdFragments ss.
Proof.
  unfold ssl3_HandleHandshakeMessage.
  pose proof (handle_delivers (upper ss) (recvMessageSeq ss) (msg_type ss) b l) as Hd.
  assert (Ha : answered (h_status (handle_message (upper ss) (recvMessageSeq ss) (msg_type ss) b l))
                 (msg_type ss, b)) by (eexists _, _, _; done).
  destruct (handle_message _ _ _ _ _) as [u q rv early]. cbn in Hd, Ha |- *.
  destruct early, rv, dtls; done.
Qed.

Lemma body_in_place ss b :
  body_ready ss b → len (msg_body ss) = 0 → msg_len ss ≤ Z.of_nat (length b) →
  let n := Z.to_nat (msg_len ss) in
  let '(ss', rv, tail) := ssl3_HandleHandshakeMessage false ss (take n b) (Z.of_nat (length b) =? msg_len ss) in
  one_delivered ss b (set_header ss' 0 (msg_type ss') 0) (drop n b) rv.
Proof.
  intros [Hh Hw Hf Hl Hg Hi] Hb Hn n.
  pose proof (Message_spec false ss (take n b) (Z.of_nat (length b) =? msg_len ss)) as HM.
  destruct (ssl3_HandleHandshakeMessage _ _ _ _) as [[ss1 rv] tail].
  destruct HM as (Hd & Hans & Ht & Hlen & Hbody & _ & _).
  split; [|split_and!; [done|by eexists|]].
  - split; cbn; rewrite ?Hbody; try done; lia.
  - exists (take n b). unfold pend, enc_message. rewrite Hh. cbn [Z.eqb Pos.eqb fst snd app].
    rewrite (contents_empty _ Hb), app_nil_r, length_take, Nat.min_l by lia.
    split_and!; [|lia|done|done]. rewrite <- app_assoc, take_drop. unfold n. rewrite Z2Nat.id by lia. done.
Qed.

Lemma taint_spec ss n tail :
  wf (msg_body ss) → 0 ≤ n ≤ length (storage (msg_body ss)) →
  ∃ ss', taint ss n tail = Ok ss' ∧ wf (msg_body ss') ∧ fixed (msg_body ss') = fixed (msg_body ss) ∧
    upper ss' = upper ss ∧ msg_type ss' = msg_type ss ∧
    space (msg_body ss') = space (msg_body ss) ∧ recvMessageSeq ss' = recvMessageSeq ss ∧
    recvdHighWater ss' = recvdHighWater ss ∧ recvdFragments ss' = recvdFragments ss.
Proof.
  intros [Hl Hs Hb Hlf Hsf Hh] Hn. unfold taint. destruct tail; cbn [negb]; [|by exists ss].
  unfold storage in *.
  destruct (msg_body ss) as [[m|] l sp f] eqn:E; cbn in *.
  - rewrite mem_write_same by (rewrite length_replicate; cbn; lia). cbn [mbind res_bind].
    eexists. split; [done|]. cbn. split_and!; try done.
    assert (Hlen : length (take 0 m ++ replicate (Z.to_nat n) 78 ++
                     drop (0 + length (replicate (Z.to_nat n) 78)) m) = length m).
    { rewrite take_0, !length_app, length_drop, length_replicate. cbn [length]. lia. }
    cbn [Nat.add] in Hlen.
    split; unfold storage; cbn; rewrite ?Hlen; try done.
    apply Forall_app. split; [by apply Forall_take|].
    apply Forall_app. split; [by apply Forall_replicate|by apply Forall_drop].
  - rewrite (proj2 (Z.eqb_eq n 0)) by lia. exists ss. rewrite E. split_and!; done.
Qed.

Lemma set_len_0 b : wf b → wf (set_len b 0) ∧ len (set_len b 0) = 0.
Proof.
  intros [Hl Hs Hb Hlf Hsf Hh]. split; [|done].
  split; cbn; rewrite ?wrap_small by lia; try done; lia.
Qed.

Lemma body_gather ss b :
  body_ready ss b → ¬ (len (msg_body ss) = 0 ∧ msg_len ss ≤ Z.of_nat (length b)) → bytes b →
  ∃ ss' b' next, body_step ss b = Ok (ss', b', next) ∧
    match next with
    | Continue => one_delivered ss b ss' b' HsOk ∧ (length b' < length b)%nat
    | Break => b' = [] ∧ hs_wf ss' ∧ pend ss' = pend ss ++ b ∧ upper ss' = upper ss
    | Loser rv => rv ≠ HsOk ∧ (one_delivered ss b ss' b' rv ∨
        rv = HsFail (SSL_SEC_ERROR SEC_ERROR_NO_MEMORY) ∧ ss' = ss ∧ b' = b)
    end.
Proof.
  intros [Hh Hw Hf Hl Hg Hi] Hplace Hb. unfold body_step. set (n := msg_len ss) in *.
  assert (Hpos : len (msg_body ss) < n) by (destruct Hg as [?|[? ?]]; [done|lia]).
  pose proof Hw as [Hwl _ _ _ _ _]. assert (Hmax : n < 2 ^ 32) by (unfold MAX_HANDSHAKE_MSG_LEN in Hl; lia).
  specialize (Hi ltac:(lia)).
  replace ((len (msg_body ss) =? 0) && (Z.of_nat (length b) >=? n)) with false.
  2: { symmetry. apply andb_false_iff. rewrite Z.geb_leb.
       destruct (Z.eqb_spec (len (msg_body ss)) 0); [right; apply Z.leb_gt; lia|by left]. }
  rewrite (wrap_small 64 (n - _)) by lia.
  set (k := Z.min (Z.of_nat (length b)) (n - len (msg_body ss))).
  assert (Hk : 0 < k ≤ Z.of_nat (length b)) by (unfold k; destruct b; [done|cbn; lia]).
  pose proof (sslBuffer_Grow_spec (msg_body ss) n Hw ltac:(lia)) as HG.
  destruct (sslBuffer_Grow (msg_body ss) n) as [b1|e|]; [| |done].
  2: { eexists _, _, _. split; [done|]. cbn. split; [done|]. right.
       destruct HG as [(Hx & _)|(_ & -> & _)]; [congruence|done]. }
  destruct HG as (Hw1 & Hl1 & Hc1 & Hf1 & Hn1 & _).
  set (piece := take (Z.to_nat k) b).
  assert (Hpl : Z.of_nat (length piece) = k) by (unfold piece; rewrite length_take; lia).
  destruct (buffer_store_next b1 piece) as (b2 & -> & Hl2 & _ & Hf2 & Hw2 & Hc2);
    [done|by apply Forall_take|intros E; rewrite E in Hpl; cbn in Hpl; lia|rewrite Hpl, Hl1; unfold k; lia|].
  rewrite Hpl in Hw2, Hc2. rewrite Hl2, Hl1 in *. set (b3 := set_len b2 (len (msg_body ss) + k)) in *.
  assert (Hb3 : len b3 = len (msg_body ss) + k) by (unfold b3; cbn; rewrite wrap_small; unfold k; lia).
  change (len (msg_body (set_body ss b3))) with (len b3).
  change (msg_body (set_body ss b3)) with b3. rewrite Hc2, Hc1.
  assert (Hpend : pend ss ++ b = msg_type ss :: be_bytes 3 n ++ (contents (msg_body ss) ++ piece) ++ drop (Z.to_nat k) b).
  { unfold pend. rewrite Hh. cbn [Z.eqb Pos.eqb app]. f_equal. rewrite <- !app_assoc.
    unfold piece. by rewrite take_drop. }
  rewrite Hb3. destruct (Z.eqb_spec (len (msg_body ss) + k) n) as [Efull|Epart].
  - pose proof (Message_spec false (set_body ss b3) (contents (msg_body ss) ++ piece)
                  (Z.of_nat (length (drop (Z.to_nat k) b)) =? 0)) as HM.
    destruct (ssl3_HandleHandshakeMessage _ _ _ _) as [[ss1 rv] tail].
    destruct HM as (Hd & Hans & Ht & _ & Hbody & _ & _). cbn in Hd, Ht, Hbody.
    destruct (taint_spec ss1 n tail) as (ss2 & -> & Hw3 & Hf3 & Hu & Ht2 & _); [by rewrite Hbody|rewrite Hbody; destruct Hw2; lia|].
    cbn [mbind res_bind]. destruct (set_len_0 _ Hw3) as [Hw4 Hl4].
    assert (Hone : one_delivered ss b
              (set_header (set_body ss2 (set_len (msg_body ss2) 0)) 0
                 (msg_type (set_body ss2 (set_len (msg_body ss2) 0))) 0) (drop (Z.to_nat k) b) rv).
    { split; [|split_and!; [done|by eexists|]].
      - split; cbn; try done; try lia. rewrite Hf3, Hbody. unfold b3. cbn. congruence.
      - exists (contents (msg_body ss) ++ piece).
        assert (Hlen : Z.of_nat (length (contents (msg_body ss) ++ piece)) = n).
        { rewrite length_app, (length_contents _ Hw). lia. }
        split_and!; [|lia|done|cbn; by rewrite Hu, Hd].
        rewrite Hpend. unfold enc_message. cbn [fst snd app]. rewrite Hlen, <- !app_assoc. done. }
    eexists _, _, _. split; [done|]. destruct rv; [|split; [done|by left]..].
    split; [done|]. rewrite length_drop. lia.
  - assert (Hall : drop (Z.to_nat k) b = []) by (apply drop_ge; unfold k in *; lia).
    rewrite Hall in *. rewrite !app_nil_r in Hpend.
    eexists _, _, _. split; [done|]. split; [done|]. split_and!; [| |done].
    + assert (Hpow : 256 ^ Z.max 0 (4 - 1) = 16777216) by done. unfold MAX_HANDSHAKE_MSG_LEN in *.
      assert (Hf3 : fixed b3 = false) by (unfold b3; cbn; congruence).
      split; cbn [set_body header_bytes msg_body msg_len]; fold n; rewrite ?Hb3, ?Hh, ?Hpow; try done; unfold MAX_HANDSHAKE_MSG_LEN, k in *; lia.
    + rewrite Hpend. unfold pend. cbn [set_body header_bytes msg_type msg_len msg_body]. rewrite Hh.
      cbn [Z.eqb Pos.eqb]. by rewrite Hc2, Hc1.
Qed.

(** ** The loop

    [stopped p b ss' rv b']: reading [b] after the pending octets [p] delivered
    the messages [ms] and came to the state [ss'] with the outcome [rv]. *)
Definition stopped (p b : list Z) (ms : list (Z * list Z)) ss' (rv : hs_status) (b' : list Z) : Prop :=
  (rv = HsOk ∧ b' = [] ∧ hs_wf ss' ∧ p ++ b = concat (enc_message <$> ms) ++ pend ss') ∨
  (rv ≠ HsOk ∧ (∃ m, last ms = Some m ∧ answered rv m) ∧ hs_wf ss' ∧ pend ss' = [] ∧ p ++ b = concat (enc_message <$> ms) ++ b') ∨
  (rv = HsFail SSL_ERROR_RX_MALFORMED_HANDSHAKE ∧
   ∃ h, too_long h ∧ p ++ b = concat (enc_message <$> ms) ++ h ++ b') ∨
  (rv = HsFail (SSL_SEC_ERROR SEC_ERROR_NO_MEMORY) ∧ hs_wf ss' ∧
   p ++ b = concat (enc_message <$> ms) ++ pend ss' ++ b').

Definition small_message (m : Z * list Z) : Prop := Z.of_nat (length m.2) ≤ MAX_HANDSHAKE_MSG_LEN.

Lemma stopped_cons p b p1 b1 m ms ss' rv b' :
  p ++ b = enc_message m ++ p1 ++ b1 → stopped p1 b1 ms ss' rv b' → stopped p b (m :: ms) ss' rv b'.
Proof.
  intros E HS. unfold stopped in *. rewrite E. cbn [fmap list_fmap concat].
  destruct HS as [(-> & -> & ? & ->)|[(? & [m' [Hl ?]] & ? & ? & ->)|[(-> & h & ? & ->)|(-> & ? & ->)]]].
  - left. by rewrite app_assoc.
  - right; left. rewrite app_assoc. split_and!; try done. exists m'. split; [|done].
    rewrite last_cons, Hl. done.
  - do 2 right; left. split; [done|]. exists h. by rewrite app_assoc.
  - do 3 right. by rewrite app_assoc.
Qed.

Lemma body_step_spec ss b :
  body_ready ss b → bytes b →
  ∃ ss' b' next, body_step ss b = Ok (ss', b', next) ∧
    match next with
    | Continue => one_delivered ss b ss' b' HsOk ∧ (length b' ≤ length b)%nat ∧
                  (0 < msg_len ss → (length b' < length b)%nat)
    | Break => b' = [] ∧ hs_wf ss' ∧ pend ss' = pend ss ++ b ∧ upper ss' = upper ss
    | Loser rv => rv ≠ HsOk ∧ (one_delivered ss b ss' b' rv ∨
        rv = HsFail (SSL_SEC_ERROR SEC_ERROR_NO_MEMORY) ∧ ss' = ss ∧ b' = b ∧ 0 < msg_len ss)
    end.
Proof.
  intros Hr Hb.
  destruct (decide (len (msg_body ss) = 0 ∧ msg_len ss ≤ Z.of_nat (length b))) as [[H1 H2]|Hn].
  - pose proof (body_in_place ss b Hr H1 H2) as HP. cbn zeta in HP. unfold body_step.
    rewrite H1, Z.geb_leb, (proj2 (Z.leb_le _ _) H2). cbn [Z.eqb andb].
    destruct (ssl3_HandleHandshakeMessage _ _ _ _) as [[ss1 rv] tail].
    eexists _, _, _. split; [done|]. destruct rv; [|split; [done|by left]..].
    rewrite length_drop. split_and!; [done|lia|lia].
  - destruct (body_gather ss b Hr Hn Hb) as (ss' & b' & next & E & HP).
    exists ss', b', next. split; [done|]. destruct next as [| |rv]; [|done|].
    + destruct HP. split_and!; [done|lia|lia].
    + destruct HP as [Hrv [Hone|(H1 & H2 & H3)]]; (split; [exact Hrv|]); [by left|].
      right. split_and!; try done. destruct Hr as [_ [[? _] _ _ _ _ _] _ _ [?|[? ?]] _]; lia.
Qed.

(** The rest of a turn once the header is there. *)
Lemma body_turn p b0 fuel ss b :
  (∀ ss b, hs_wf ss → bytes b → (length b < fuel)%nat →
     ∃ ss' rv b' ms, hs_loop fuel ss b = Ok (ss', rv, b') ∧
       stopped (pend ss) b ms ss' rv b' ∧ Forall small_message ms ∧
       delivered (upper ss') = delivered (upper ss) ++ ms) →
  body_ready ss b → bytes b → (length b ≤ fuel)%nat → (msg_len ss = 0 → (length b < fuel)%nat) →
  (0 < msg_len ss → hs_wf ss) → p ++ b0 = pend ss ++ b →
  ∃ ss' rv b' ms,
    ('(ss, b, next) ← body_step ss b;
     match next with
     | Continue => hs_loop fuel ss b
     | Break => Ok (ss, HsOk, [])
     | Loser rv => Ok (ss, rv, b)
     end) = Ok (ss', rv, b') ∧
    stopped p b0 ms ss' rv b' ∧ Forall small_message ms ∧
    delivered (upper ss') = delivered (upper ss) ++ ms.
Proof.
  intros IH Hr Hb Hf Hf0 Hw Hp.
  destruct (body_step_spec ss b Hr Hb) as (ss1 & b1 & next & -> & HB). cbn [mbind res_bind].
  destruct next as [| |rv].
  - destruct HB as [(Hw1 & Hp1 & [k Hk] & body & E & Hs & Hans & Hd) [Hle Hlt]].
    assert (Hb1 : bytes b1) by (rewrite Hk; by apply Forall_drop).
    destruct (IH ss1 b1 Hw1 Hb1) as (ss' & rv & b' & ms & E1 & HS & Hsm & Hd1).
    { destruct Hr as [_ _ _ Hl _ _]. destruct (decide (msg_len ss = 0)); [specialize (Hf0 ltac:(done)); lia|].
      specialize (Hlt ltac:(lia)). lia. }
    exists ss', rv, b', ((msg_type ss, body) :: ms). split_and!; [done| |by constructor|].
    + eapply stopped_cons; [|exact HS]. by rewrite Hp, E, Hp1.
    + by rewrite Hd1, Hd, <- app_assoc.
  - destruct HB as (-> & Hw1 & Hp1 & Hu). exists ss1, HsOk, [], [].
    split_and!; [done| |done|by rewrite Hu, app_nil_r]. left. by rewrite Hp, Hp1.
  - destruct HB as [Hrv [(Hw1 & Hp1 & [k Hk] & body & E & Hs & Hans & Hd)|(-> & -> & -> & Hpos)]].
    + exists ss1, rv, b1, [(msg_type ss, body)]. split_and!; [done| |by constructor|done].
      right. left. split_and!; try done; [by eexists|]. cbn. by rewrite app_nil_r, Hp, E.
    + exists ss, (HsFail (SSL_SEC_ERROR SEC_ERROR_NO_MEMORY)), b, [].
      split_and!; [done| |done|by rewrite app_nil_r]. do 3 right. split_and!; [done|by apply Hw|done].
Qed.

(** The loop consumes an octet per turn, never touches memory outside its
    buffers, and delivers exactly the messages the stream holds. *)
Lemma hs_loop_spec fuel ss b :
  hs_wf ss → bytes b → (length b < fuel)%nat →
  ∃ ss' rv b' ms, hs_loop fuel ss b = Ok (ss', rv, b') ∧
    stopped (pend ss) b ms ss' rv b' ∧ Forall small_message ms ∧
    delivered (upper ss') = delivered (upper ss) ++ ms.
Proof.
  revert ss b. induction fuel as [|fuel IH]; intros ss b Hw Hb Hf; [lia|].
  destruct b as [|t rest].
  { exists ss, HsOk, [], []. split_and!; [done| |done|by rewrite app_nil_r]. left. by rewrite app_nil_r. }
  pose proof (Forall_cons_1 _ _ _ Hb) as [Ht Hrest]. cbn [length] in Hf. cbn [hs_loop].
  destruct (Z.ltb_spec (header_bytes ss) 4) as [Hlt|Hge].
  - pose proof (header_step_spec ss t Hw Hlt Ht) as HS.
    destruct (header_step ss t) as [ss1 [[| |rv]|]]; cbn [mbind res_bind].
    + destruct HS as (Hw1 & Hp1 & Hu1).
      destruct (IH ss1 rest Hw1 Hrest ltac:(lia)) as (ss' & rv & b' & ms & -> & HS & ? & Hd).
      exists ss', rv, b', ms. rewrite <- Hu1. split_and!; try done.
      unfold stopped in *. by rewrite Hp1, <- app_assoc in HS.
    + done.
    + destruct HS as (-> & Hlong & Hd). exists ss1, (HsFail SSL_ERROR_RX_MALFORMED_HANDSHAKE), rest, [].
      split_and!; [done| |done|by rewrite app_nil_r]. do 2 right. left. split; [done|].
      exists (pend ss ++ [t]). split; [done|]. by rewrite <- app_assoc.
    + destruct HS as (Hw1 & Hp1 & Hu1 & Hh1 & Hl1 & Hb1). destruct Hw1. cbn in *.
      rewrite <- Hu1. apply body_turn; try done; try lia; [|by rewrite Hp1, <- app_assoc].
      split; try done; unfold MAX_HANDSHAKE_MSG_LEN; lia.
  - pose proof Hw as [Hh ? ? ? Hg ?]. assert (Hh4 : header_bytes ss = 4) by lia. specialize (Hg Hh4).
    pose proof (hw_body _ Hw) as [? _ _ _ _ _].
    apply body_turn; try done; cbn [length]; try lia. split; try done; lia.
Qed.

(** ** Records and the stream they carry *)

(** The handshake records of a connection, in order, up to the first that is
    not handled to its end. *)
Fixpoint handle_records ss (records : list (list Z)) : mem_res (hsIn U * hs_status) :=
  match records with
  | [] => Ok (ss, HsOk)
  | r :: records =>
      '(ss, rv, _) ← ssl3_HandleHandshake ss r;
      match rv with HsOk => handle_records ss records | _ => Ok (ss, rv) end
  end.

(** How a sequence of records ends, in terms of the stream [s] they carry. *)
Definition ended (s : list Z) (ms : list (Z * list Z)) ss' (rv : hs_status) : Prop :=
  (rv = HsOk ∧ hs_wf ss' ∧ s = concat (enc_message <$> ms) ++ pend ss') ∨
  rv ≠ HsOk ∧ ∃ rest, s = concat (enc_message <$> ms) ++ rest ∧
    ((∃ m, last ms = Some m ∧ answered rv m) ∨
     (rv = HsFail SSL_ERROR_RX_MALFORMED_HANDSHAKE ∧ ∃ h, too_long h ∧ h `prefix_of` rest) ∨
     rv = HsFail (SSL_SEC_ERROR SEC_ERROR_NO_MEMORY)).

Lemma handle_records_spec records ss :
  hs_wf ss → Forall bytes records →
  ∃ ss' rv ms, handle_records ss records = Ok (ss', rv) ∧
    ended (pend ss ++ concat records) ms ss' rv ∧ Forall small_message ms ∧
    delivered (upper ss') = delivered (upper ss) ++ ms.
Proof.
  revert ss. induction records as [|r records IH]; intros ss Hw Hb.
  { exists ss, HsOk, []. split_and!; [done| |done|by rewrite app_nil_r]. left. by rewrite app_nil_r. }
  apply Forall_cons_1 in Hb as [Hr Hb]. cbn [handle_records concat]. unfold ssl3_HandleHandshake.
  destruct (hs_loop_spec (S (length r)) ss r Hw Hr ltac:(lia)) as (ss1 & rv & b' & ms & -> & HS & Hsm & Hd).
  cbn [mbind res_bind]. rewrite app_assoc.
  destruct HS as [(-> & -> & Hw1 & E)|HS].
  - destruct (IH ss1 Hw1 Hb) as (ss' & rv & ms' & -> & HE & Hsm' & Hd').
    exists ss', rv, (ms ++ ms'). split_and!; [done| |by apply Forall_app|by rewrite Hd', Hd, app_assoc].
    rewrite E, <- app_assoc. unfold ended in *. rewrite fmap_app, concat_app.
    destruct HE as [(-> & ? & ->)|(? & rest & -> & HE)]; [left; by rewrite app_assoc|].
    right. split; [done|]. exists rest. split; [by rewrite app_assoc|].
    destruct HE as [[m [Hl ?]]|HE]; [left; exists m|by right]. by rewrite last_app, Hl.
  - assert (Hrv : rv ≠ HsOk) by (destruct HS as [[? _]|[[-> _]|[-> _]]]; done).
    exists ss1, rv, ms. split_and!; try done; [by destruct rv|]. right. split; [done|].
    destruct HS as [(_ & Hl & _ & _ & ->)|[(-> & h & Hh & ->)|(-> & _ & ->)]];
      rewrite <- !app_assoc; eexists; (split; [done|]); [by left|right; left..|by do 2 right].
    split; [done|]. exists h. split; [done|]. by apply prefix_app_r.
Qed.
End HandshakeIn.

(** What a handshake stream says: its complete messages, then the octets of an
    incomplete one or a header that announces too much. *)
Inductive stream_tail := Pending (s : list Z) | TooLong.

Fixpoint parse_messages (fuel : nat) (s : list Z) : list (Z * list Z) * stream_tail :=
  match fuel, s with
  | S fuel, t :: l1 :: l2 :: l3 :: body =>
      let n := be_val [l1; l2; l3] in
      if MAX_HANDSHAKE_MSG_LEN <? n then ([], TooLong)
      else if Z.of_nat (length body) <? n then ([], Pending s)
      else let '(ms, tail) := parse_messages fuel (drop (Z.to_nat n) body) in
           ((t, take (Z.to_nat n) body) :: ms, tail)
  | _, _ => ([], Pending s)
  end.

Definition messages (s : list Z) : list (Z * list Z) * stream_tail := parse_messages (length s) s.

Lemma parse_enc ms fuel s :
  Forall small_message ms → (length ms + length s ≤ fuel)%nat →
  parse_messages fuel (concat (enc_message <$> ms) ++ s) =
  let '(ms', tail) := parse_messages (fuel - length ms) s in (ms ++ ms', tail).
Proof.
  revert fuel. induction ms as [|[t b] ms IH]; intros fuel Hs Hf.
  { cbn. rewrite Nat.sub_0_r. by destruct (parse_messages fuel s). }
  apply Forall_cons_1 in Hs as [Hm Hs]. cbn [length] in *. destruct fuel as [|fuel]; [lia|].
  cbn [fmap list_fmap concat Nat.sub]. unfold enc_message at 1. cbn [fst snd].
  unfold small_message in Hm. cbn in Hm.
  destruct (be_bytes 3 (length b)) as [|l1 [|l2 [|l3 [|]]]] eqn:El;
    try (apply (f_equal length) in El; by rewrite length_be_bytes in El).
  cbn [app]. cbn [parse_messages]. rewrite <- El, be_val_be_bytes.
  rewrite Z.mod_small by (change (256 ^ 3%nat) with 16777216; unfold MAX_HANDSHAKE_MSG_LEN in Hm; lia).
  rewrite (proj2 (Z.ltb_ge _ _) Hm), (proj2 (Z.ltb_ge _ _)) by (rewrite !length_app; lia).
  rewrite Nat2Z.id, <- app_assoc, drop_app_length, take_app_length, IH by (done || lia).
  by destruct (parse_messages (fuel - length ms) s).
Qed.

Lemma parse_incomplete fuel s : incomplete s → parse_messages fuel s = ([], Pending s).
Proof.
  intros HI. destruct fuel as [|fuel]; [done|].
  destruct s as [|t [|l1 [|l2 [|l3 body]]]]; try done. cbn [parse_messages].
  destruct HI as [?|(n & Hn & Hl & E)]; [cbn in *; lia|]. cbn [drop take length] in E, Hl. rewrite ?drop_0 in E. cbn [take] in E. rewrite ?take_0 in E.
  rewrite E, be_val_be_bytes, Z.mod_small
    by (change (256 ^ 3%nat) with 16777216; unfold MAX_HANDSHAKE_MSG_LEN in Hn; lia).
  rewrite (proj2 (Z.ltb_ge _ _) Hn), (proj2 (Z.ltb_lt _ _)) by lia. done.
Qed.

Lemma parse_too_long fuel h s :
  too_long h → (4 ≤ fuel)%nat → parse_messages fuel (h ++ s) = ([], TooLong).
Proof.
  intros [Hl Hv] Hf. destruct fuel as [|fuel]; [lia|].
  destruct h as [|t [|l1 [|l2 [|l3 [|]]]]]; try done. cbn [app]. cbn [parse_messages]. cbn [drop] in Hv.
  by rewrite (proj2 (Z.ltb_lt _ _) Hv).
Qed.

Lemma length_enc ms : (length ms ≤ length (concat (enc_message <$> ms)))%nat.
Proof. induction ms; [done|]. cbn. rewrite !length_app. lia. Qed.

Lemma messages_enc ms s : Forall small_message ms →
  ∃ fuel, (length s ≤ fuel)%nat ∧
  messages (concat (enc_message <$> ms) ++ s) = let '(ms', tail) := parse_messages fuel s in (ms ++ ms', tail).
Proof.
  intros Hs. unfold messages. rewrite length_app. pose proof (length_enc ms).
  rewrite parse_enc by (done || lia). eexists. split; [|done]. lia.
Qed.

(** [C16] TLS handshake messages do not depend on how the peer cut the stream
    into records.  Starting between messages and handling any records, the
    code never touches memory outside its buffers and: if every record is
    handled, the messages handed to the handlers are exactly those the
    concatenation of the records holds, and what is left is its incomplete
    tail; otherwise the messages handed over are the first of the stream and
    either the handler of the last one refused it, or the next header
    announces more than MAX_HANDSHAKE_MSG_LEN octets, or memory ran out. *)
Theorem records_do_not_matter {U} `{HandshakeUpper U} `{NSPRHeap} (ss : hsIn U) (records : list (list Z)) :
  hs_wf ss → header_bytes ss = 0 → Forall bytes records →
  ∃ ss' rv ms, handle_records ss records = Ok (ss', rv) ∧
    delivered (upper ss') = delivered (upper ss) ++ ms ∧
    let '(all, tail) := messages (concat records) in
    match rv with
    | HsOk => ms = all ∧ tail = Pending (pend ss') ∧ hs_wf ss'
    | _ => ms `prefix_of` all ∧
           ((∃ m, last ms = Some m ∧ answered rv m) ∨
            rv = HsFail SSL_ERROR_RX_MALFORMED_HANDSHAKE ∧ ms = all ∧ tail = TooLong ∨
            rv = HsFail (SSL_SEC_ERROR SEC_ERROR_NO_MEMORY))
    end.
Proof.
  intros Hw Hh Hb. destruct (handle_records_spec records ss Hw Hb) as (ss' & rv & ms & E & HE & Hs & Hd).
  exists ss', rv, ms. split_and!; [done|done|].
  assert (Hp : pend ss = []) by (unfold pend; by rewrite Hh). rewrite Hp in HE. cbn [app] in HE.
  destruct HE as [(-> & Hw' & ->)|(Hrv & rest & -> & HE)].
  - destruct (messages_enc ms (pend ss') Hs) as (fuel & _ & ->).
    rewrite parse_incomplete by (by apply pend_incomplete). by rewrite app_nil_r.
  - destruct (messages_enc ms rest Hs) as (fuel & Hf & ->).
    destruct HE as [Ha|[(-> & h & Hh' & [k ->])| ->]].
    + destruct (parse_messages fuel rest) as [ms' tail]. destruct rv; [done|..];
        (split; [by apply prefix_app_r|by left]).
    + rewrite parse_too_long; [|done|rewrite length_app in Hf; destruct Hh'; lia].
      rewrite app_nil_r. split; [done|]. right. by left.
    + destruct (parse_messages fuel rest) as [ms' tail]. split; [by apply prefix_app_r|by do 2 right].
Qed.

(** A layer above that only keeps the messages, and refuses those of type 255;
    used to evaluate the models. *)
#[global] Instance log_upper : HandshakeUpper (list (Z * list Z)).
Proof.
  refine {| handle_message u s t b _ :=
              mk_handled (u ++ [(t, b)]) s (if t =? 255 then HsFail (SSL_OTHER_ERROR 0) else HsOk) false;
            decode_error u := u;
            retransmit_detected u := (u, HsOk);
            expects_client_hello _ := true;
            set_helloRetry u := u;
            set_endOfFlight u _ := u;
            maybeTls13 _ := true;
            remember_fragment u _ _ := (u, HsOk);
            setup_acks u := (u, HsOk);
            delivered u := u |}; done.
Defined.

Definition hs_idle : hsIn (list (Z * list Z)) :=
  mk_hsIn 0 0 0 SSL_BUFFER_EMPTY 0 (-1) SSL_BUFFER_EMPTY [].

Lemma hs_idle_wf : hs_wf hs_idle.
Proof. split; (apply SSL_BUFFER_EMPTY_wf || done || (cbn; lia)). Qed.

Lemma records_do_not_matter_witness :
  let records := [[1; 0; 0]; [5; 10; 20]; [30; 40; 50; 2; 0; 0; 0; 4; 0; 0; 9; 7]] in
  (∃ ss' rv ms, handle_records hs_idle records = Ok (ss', rv) ∧
     delivered (upper ss') = delivered (upper hs_idle) ++ ms ∧
     let '(all, tail) := messages (concat records) in
     match rv with
     | HsOk => ms = all ∧ tail = Pending (pend ss') ∧ hs_wf ss'
     | _ => ms `prefix_of` all ∧
            ((∃ m, last ms = Some m ∧ answered rv m) ∨
             rv = HsFail SSL_ERROR_RX_MALFORMED_HANDSHAKE ∧ ms = all ∧ tail = TooLong ∨
             rv = HsFail (SSL_SEC_ERROR SEC_ERROR_NO_MEMORY))
     end) ∧
  messages (concat records) = ([(1, [10; 20; 30; 40; 50]); (2, [])], Pending [4; 0; 0; 9; 7]).
Proof.
  intros records. split; [|reflexivity].
  apply (records_do_not_matter hs_idle records hs_idle_wf eq_refl).
  repeat (apply Forall_cons; split; [repeat constructor; done|]). apply Forall_nil_2.
Defined.

(** Refusing a message ends the handling. *)
Example refused_message :
  match handle_records hs_idle [[1; 0; 0; 1; 8; 255; 0]; [0; 1; 7; 2; 0; 0; 0]] with
  | Ok (ss', rv) => rv = HsFail (SSL_OTHER_ERROR 0) ∧ upper ss' = [(1, [8]); (255, [7])]
  | _ => False
  end.
Proof. vm_compute. done. Qed.
