(* ===== verification/DtlsReassembly.v ===== *)
(** dtls_HandleHandshake (lib/ssl/dtlscon.c): DTLS handshake records, whose
    fragments arrive in any order, overlap and repeat.

    The state is [hsIn] of HandshakeIn.v; recvdHighWater and the bit map in
    recvdFragments say which octets of the message are there.  The result: a
    message is handed over exactly when its fragments cover it, with exactly
    its octets, and no fragment makes the code touch memory outside its
    buffers. *)

From stdpp Require Import base numbers list.
From S2P Require Import Prelude Port SslEncode HandshakeIn.

(** ** Fragments *)

(** The fields of a fragment's header. *)
Record fragHeader := mk_fragHeader {
  type : Z;
  message_length : Z;
  message_seq : Z;
  fragment_offset : Z;
  fragment_length : Z;
}.

(** [(a << 16) | (b << 8) | c] *)
Definition uint24 (a b c : Z) : Z := Z.lor (Z.lor (Z.shiftl a 16) (Z.shiftl b 8)) c.

(** The twelve octets of the header and what follows them. *)
Definition parse_header (b : list Z) : option (fragHeader * list Z) :=
  match b with
  | b0 :: b1 :: b2 :: b3 :: b4 :: b5 :: b6 :: b7 :: b8 :: b9 :: b10 :: b11 :: rest =>
      Some (mk_fragHeader b0 (uint24 b1 b2 b3) (Z.lor (Z.shiftl b4 8) b5)
              (uint24 b6 b7 b8) (uint24 b9 b10 b11), rest)
  | _ => None
  end.

Definition OFFSET_BYTE (o : Z) : Z := o / 8.
Definition OFFSET_MASK (o : Z) : Z := Z.shiftl 1 (o mod 8).

Section DtlsReassembly.
  Context {U : Type} `{HandshakeUpper U} `{NSPRHeap}.
  Implicit Types ss : hsIn U.

(** [recvdFragments.buf[OFFSET_BYTE(offset)]], with its bounds. *)
Definition map_byte (m : sslBuffer) (o : Z) : mem_res Z :=
  match storage m !! Z.to_nat (OFFSET_BYTE o) with Some v => Ok v | None => UB end.

(** [for (offset = fragment_offset; offset < end; offset++) buf[..] |= ..]; [n]
    is the number of turns. *)
Fixpoint mark_fragment (n : nat) (m : sslBuffer) (o : Z) : mem_res sslBuffer :=
  match n with
  | O => Ok m
  | S n => v ← map_byte m o;
           let m := mk_sslBuffer (Some (<[Z.to_nat (OFFSET_BYTE o) := Z.lor v (OFFSET_MASK o)]> (storage m)))
                      (len m) (space m) (fixed m) in
           mark_fragment n m (o + 1)
  end.

(** [for (offset = recvdHighWater; offset < msg_len; offset++)], which counts
    the marked octets above the high water mark. *)
Fixpoint raise_water (n : nat) (m : sslBuffer) (w : Z) : mem_res Z :=
  match n with
  | O => Ok w
  | S n => v ← map_byte m w;
           if Z.land v (OFFSET_MASK w) =? 0 then Ok w else raise_water n m (w + 1)
  end.

(** A complete message, in the record or in msg_body. *)
Definition dtls_HandleHandshakeMessage ss (data : list Z) (last : bool) : hsIn U * hs_status * bool :=
  ssl3_HandleHandshakeMessage true (set_water ss (-1)) data last.

(** Making room for a new message. *)
Definition start_reassembly ss (h : fragHeader) : mem_res (hsIn U * hs_status) :=
  match sslBuffer_Grow (msg_body ss) (message_length h) with
  | UB => UB
  | Err e => Ok (ss, HsFail (SSL_SEC_ERROR e))
  | Ok body =>
      let ss := set_body ss body in
      match sslBuffer_Grow (recvdFragments ss) (OFFSET_BYTE (message_length h) + 1) with
      | UB => UB
      | Err e => Ok (ss, HsFail (SSL_SEC_ERROR e))
      | Ok fragments =>
          let ss := set_water (set_fragments ss fragments) 0 in
          match buf fragments with
          | None => UB
          | Some m =>
              m ← mem_write m 0 (replicate (Z.to_nat (space fragments)) 0);
              let ss := set_fragments ss (mk_sslBuffer (Some m) (len fragments) (space fragments)
                                            (fixed fragments)) in
              Ok (set_header ss (header_bytes ss) (type h) (message_length h), HsOk)
          end
      end
  end.

(** Copying a fragment of the message in progress into place, then counting
    what is there; [b] is what follows the fragment's header. *)
Definition store_fragment ss (h : fragHeader) (b : list Z) : mem_res (hsIn U * hs_status) :=
  let end_ := swrap 32 (u32 (fragment_offset h + fragment_length h)) in
  if negb (message_length h =? msg_len ss)
  then Ok (set_water ss (-1), HsFail SSL_ERROR_RX_MALFORMED_HANDSHAKE) else
  match (if recvdHighWater ss <? end_
         then buffer_store (msg_body ss) (fragment_offset h) (take (Z.to_nat (fragment_length h)) b)
         else Ok (msg_body ss)) with
  | Ok body =>
      let ss := set_body ss body in
      ss ← (if fragment_offset h <=? u32 (recvdHighWater ss)
            then Ok (if recvdHighWater ss <? end_ then set_water ss end_ else ss)
            else m ← mark_fragment (Z.to_nat (u32 end_ - fragment_offset h)) (recvdFragments ss)
                       (fragment_offset h);
                 Ok (set_fragments ss m));
      w ← raise_water (Z.to_nat (msg_len ss - recvdHighWater ss)) (recvdFragments ss)
            (recvdHighWater ss);
      let ss := set_water ss w in
      if u64 (recvdHighWater ss) =? msg_len ss then
        let n := msg_len ss in
        let '(ss, rv, tail) :=
          dtls_HandleHandshakeMessage ss (take (Z.to_nat n) (storage (msg_body ss)))
            (Z.of_nat (length b) =? fragment_length h) in
        ss ← taint ss n tail;
        Ok (ss, rv)
      else Ok (ss, HsOk)
  | _ => UB
  end.

(** Case 1: a part of the next message. *)
Definition buffer_fragment ss (h : fragHeader) (b : list Z) : mem_res (hsIn U * hs_status) :=
  '(ss, rv) ← (if recvdHighWater ss =? -1 then start_reassembly ss h else Ok (ss, HsOk));
  match rv with
  | HsOk => store_fragment ss h b
  | _ => Ok (ss, rv)
  end.

(** What a fragment leads to: the next one, with the message counted as
    discarded or not, or the end of the record. *)
Inductive dtls_turn := NextFragment (discarded : bool) | Leave (rv : hs_status).

(** One fragment; [b] is what follows its header. *)
Definition handle_fragment ss (discarded : bool) (h : fragHeader) (b : list Z)
    : mem_res (hsIn U * dtls_turn) :=
  let ss := if (recvMessageSeq ss <? message_seq h) && (message_seq h =? 1) &&
               (fragment_offset h =? 0) && expects_client_hello (upper ss) &&
               (type h =? ssl_hs_client_hello)
            then set_upper (set_seq ss 1) (set_helloRetry (upper ss)) else ss in
  if (message_seq h =? recvMessageSeq ss) && (fragment_offset h =? 0) &&
     (fragment_length h =? message_length h) then
    let ss := set_header ss (header_bytes ss) (type h) (message_length h) in
    let '(ss, rv, _) := dtls_HandleHandshakeMessage ss (take (Z.to_nat (message_length h)) b)
                          (Z.of_nat (length b) =? fragment_length h) in
    Ok (ss, match rv with HsOk => NextFragment discarded | _ => Leave rv end)
  else if message_seq h <? recvMessageSeq ss then
    let '(u, rv) := retransmit_detected (upper ss) in
    Ok (set_upper ss u, Leave rv)
  else if recvMessageSeq ss <? message_seq h then Ok (ss, NextFragment true)
  else
    '(ss, rv) ← buffer_fragment ss h b;
    Ok (ss, match rv with HsOk => NextFragment discarded | _ => Leave rv end).

(** [while (buf.len > 0)]; every turn consumes at least a header. *)
Fixpoint dtls_loop (fuel : nat) ss (discarded : bool) (b : list Z) : mem_res (hsIn U * dtls_turn) :=
  match fuel with
  | O => UB
  | S fuel =>
      match b with
      | [] => Ok (ss, NextFragment discarded)
      | _ =>
          match parse_header b with
          | None => Ok (ss, Leave (HsFail SSL_ERROR_RX_MALFORMED_HANDSHAKE))
          | Some (h, b) =>
              if message_length h >? MAX_HANDSHAKE_MSG_LEN
              then Ok (set_upper ss (decode_error (upper ss)),
                       Leave (HsFail SSL_ERROR_RX_MALFORMED_HANDSHAKE))
              else if Z.of_nat (length b) <? fragment_length h
              then Ok (ss, Leave (HsFail SSL_ERROR_RX_MALFORMED_HANDSHAKE))
              else if u32 (fragment_length h + fragment_offset h) >? message_length h
              then Ok (ss, Leave (HsFail SSL_ERROR_RX_MALFORMED_HANDSHAKE))
              else
                '(ss, next) ← handle_fragment ss discarded h b;
                match next with
                | NextFragment discarded =>
                    dtls_loop fuel ss discarded (drop (Z.to_nat (fragment_length h)) b)
                | Leave rv => Ok (ss, Leave rv)
                end
          end
      end
  end.

(** The end of the function: a record none of whose fragments was dropped is
    remembered for an acknowledgement. *)
Definition finish_record ss (epoch seqNum : Z) (discarded : bool) : hsIn U * hs_status :=
  let '(ss, rv) :=
    if negb discarded && maybeTls13 (upper ss)
    then let '(u, rv) := remember_fragment (upper ss) epoch seqNum in (set_upper ss u, rv)
    else (ss, HsOk) in
  match rv with
  | HsOk => let '(u, rv) := setup_acks (upper ss) in (set_upper ss u, rv)
  | _ => (ss, rv)
  end.

Definition dtls_HandleHandshake ss (epoch seqNum : Z) (origBuf : list Z) : mem_res (hsIn U * hs_status) :=
  let ss := set_upper ss (set_endOfFlight (upper ss) false) in
  '(ss, next) ← dtls_loop (S (length origBuf)) ss false origBuf;
  Ok (match next with
      | Leave rv => (ss, rv)
      | NextFragment discarded => finish_record ss epoch seqNum discarded
      end).

(** The records of a connection, each with its epoch and sequence number, up
    to the first that is not handled. *)
Fixpoint dtls_records ss (records : list (Z * Z * list Z)) : mem_res (hsIn U * hs_status) :=
  match records with
  | [] => Ok (ss, HsOk)
  | (epoch, seqNum, b) :: records =>
      '(ss, rv) ← dtls_HandleHandshake ss epoch seqNum b;
      match rv with HsOk => dtls_records ss records | _ => Ok (ss, rv) end
  end.

(** ** The bit map and the high water mark *)

Lemma map_byte_total m o :
  (Z.to_nat (o / 8) < length (storage m))%nat →
  map_byte m o = Ok (storage m !!! Z.to_nat (o / 8)).
Proof.
  intros Hl. unfold map_byte, OFFSET_BYTE. destruct (lookup_lt_is_Some_2 _ _ Hl) as [v Hv].
  by rewrite Hv, (list_lookup_total_correct _ _ _ Hv).
Qed.

Lemma mark_fragment_spec n m o :
  wf m → 0 ≤ o → (o + Z.of_nat n - 1) / 8 < length (storage m) →
  ∃ m', mark_fragment n m o = Ok m' ∧ wf m' ∧ length (storage m') = length (storage m) ∧
    space m' = space m ∧ fixed m' = fixed m ∧
    ∀ j, 0 ≤ j → bit_set (storage m') j ↔ o ≤ j < o + Z.of_nat n ∨ bit_set (storage m) j.
Proof.
  revert m o. induction n as [|n IH]; intros m o Hw Ho Hl.
  { exists m. split_and!; try done. intros j Hj. split; [by right|]. intros [?|?]; [lia|done]. }
  assert (Hlo : (Z.to_nat (o / 8) < length (storage m))%nat).
  { assert (o / 8 ≤ (o + Z.of_nat (S n) - 1) / 8) by (apply Z.div_le_mono; lia).
    pose proof (Z.div_pos o 8). lia. }
  cbn [mark_fragment]. rewrite map_byte_total by done. cbn [mbind res_bind].
  set (m1 := mk_sslBuffer _ _ _ _).
  assert (Hs1 : storage m1 = set_bit (storage m) o) by done.
  assert (Hl1 : length (storage m1) = length (storage m)) by (rewrite Hs1; apply length_insert).
  destruct (IH m1 (o + 1)) as (m' & -> & Hw' & Hl' & Hsp & Hf & Hb).
  { destruct Hw as [? ? Hb ? ? ?]. split; rewrite ?Hl1; try done. rewrite Hs1. by apply set_bit_bytes. }
  { lia. }
  { rewrite Hl1. replace (o + 1 + Z.of_nat n - 1) with (o + Z.of_nat (S n) - 1) by lia. done. }
  exists m'. split_and!; try done; [by rewrite Hl'|].
  intros j Hj. rewrite Hb, Hs1, set_bit_set by done.
  split; [intros [?|[?|?]]|intros [?|?]]; [left; lia|left; lia|by right| |by right; right].
  destruct (decide (o = j)); [by right; left|left; lia].
Qed.

Lemma raise_water_spec n m w :
  0 ≤ w → (w + Z.of_nat n - 1) / 8 < length (storage m) →
  ∃ w', raise_water n m w = Ok w' ∧ w ≤ w' ≤ w + Z.of_nat n ∧
    (∀ j, w ≤ j < w' → bit_set (storage m) j) ∧ (w' < w + Z.of_nat n → ¬ bit_set (storage m) w').
Proof.
  revert w. induction n as [|n IH]; intros w Hw Hl.
  { exists w. split_and!; try done; lia. }
  assert (Hlo : (Z.to_nat (w / 8) < length (storage m))%nat).
  { assert (w / 8 ≤ (w + Z.of_nat (S n) - 1) / 8) by (apply Z.div_le_mono; lia).
    pose proof (Z.div_pos w 8). lia. }
  cbn [raise_water]. rewrite map_byte_total by done. cbn [mbind res_bind]. unfold OFFSET_MASK.
  rewrite land_bit_zero by (apply Z.mod_pos_bound; lia).
  destruct (Z.testbit _ _) eqn:Hbit; cbn [negb].
  - destruct (IH (w + 1)) as (w' & -> & Hr & Hb & Hn); [lia| |].
    { by replace (w + 1 + Z.of_nat n - 1) with (w + Z.of_nat (S n) - 1) by lia. }
    exists w'. split_and!; [done|lia|lia| |intros ?; apply Hn; lia].
    intros j Hj. destruct (decide (j = w)) as [->|]; [done|apply Hb; lia].
  - exists w. split_and!; [done|lia|lia|intros j ?; lia|]. unfold bit_set. intros _. by rewrite Hbit.
Qed.

(** Storing inside the room of a buffer. *)
Lemma buffer_store_at b at_ src :
  wf b → fixed b = false → bytes src → 0 ≤ at_ → 0 < space b → at_ + length src ≤ space b →
  ∃ b', buffer_store b at_ src = Ok b' ∧ wf b' ∧ len b' = len b ∧ space b' = space b ∧
    fixed b' = false ∧
    ∀ i, storage b' !! i =
         (if decide (Z.to_nat at_ ≤ i < Z.to_nat at_ + length src)%nat
          then src !! (i - Z.to_nat at_)%nat else storage b !! i).
Proof.
  intros [Hl Hs Hb Hlf Hsf Hh] Hf Hsrc Ha Hpos Hroom. specialize (Hh Hf).
  unfold buffer_store, storage in *. destruct (buf b) as [m|] eqn:Em; cbn in *; [|lia].
  rewrite mem_write_same by lia. cbn [mbind res_bind]. eexists. split; [done|].
  assert (Hlen : length (take (Z.to_nat at_) m ++ src ++ drop (Z.to_nat at_ + length src) m) = length m).
  { rewrite !length_app, length_take, length_drop. lia. }
  split_and!; try done.
  - split; unfold storage; cbn; rewrite ?Hlen; try done.
    apply Forall_app. split; [by apply Forall_take|]. apply Forall_app. split; [done|by apply Forall_drop].
  - cbn. intros i. case_decide as Hi.
    + rewrite lookup_app_r by (rewrite length_take; lia). rewrite length_take, Nat.min_l by lia.
      by rewrite lookup_app_l by lia.
    + destruct (decide (i < Z.to_nat at_)%nat).
      * rewrite lookup_app_l by (rewrite length_take; lia). by rewrite lookup_take_lt by lia.
      * rewrite !lookup_app_r by (rewrite ?length_take; lia). rewrite length_take, Nat.min_l by lia.
        rewrite lookup_drop. f_equal. lia.
Qed.

(** ** The message in progress *)

(** [C] says which octets of the message [M] have been received. *)
Definition all_there (M : list Z) (C : Z → Prop) : Prop := ∀ o, 0 ≤ o < length M → C o.

Record asm_bufs ss : Prop := mk_asm_bufs {
  ab_body : wf (msg_body ss);
  ab_body_heap : fixed (msg_body ss) = false;
  ab_map : wf (recvdFragments ss);
  ab_map_heap : fixed (recvdFragments ss) = false;
}.

(** The mark and the map describe [C]; the octets of [C] are in place. *)
Record tracking ss (t : Z) (M : list Z) (C : Z → Prop) : Prop := mk_tracking {
  tr_bufs : asm_bufs ss;
  tr_type : msg_type ss = t;
  tr_len : msg_len ss = length M;
  tr_room : length M ≤ space (msg_body ss);
  tr_map : length M / 8 + 1 ≤ space (recvdFragments ss);
  tr_water : 0 ≤ recvdHighWater ss < length M;
  tr_gap : ¬ C (recvdHighWater ss);
  tr_covered o : 0 ≤ o < length M →
    C o ↔ o < recvdHighWater ss ∨ bit_set (storage (recvdFragments ss)) o;
  tr_octets (o : nat) : (o < length M)%nat → C o → storage (msg_body ss) !! o = M !! o;
}.

Record asm ss (s t : Z) (M : list Z) (C : Z → Prop) : Prop := mk_asm {
  am_bufs : asm_bufs ss;
  am_seq : recvMessageSeq ss = s;
  am_state : (recvdHighWater ss = -1 ∧ ∀ o, ¬ C o) ∨ tracking ss t M C;
}.

(** A header of a fragment that fits a message of the length of [M], followed
    in [b] by its data; the fragment is one of [M] itself. *)
Record fragment_fits (h : fragHeader) (b M : list Z) : Prop := mk_fragment_fits {
  ff_len : message_length h = length M;
  ff_off : 0 ≤ fragment_offset h;
  ff_flen : 0 ≤ fragment_length h ≤ length b;
  ff_inside : fragment_offset h + fragment_length h ≤ length M;
}.

Record fragment_of (h : fragHeader) (b : list Z) (s t : Z) (M : list Z) : Prop := mk_fragment_of {
  fo_fits : fragment_fits h b M;
  fo_type : type h = t;
  fo_seq : message_seq h = s;
  fo_data : take (Z.to_nat (fragment_length h)) b =
            take (Z.to_nat (fragment_length h)) (drop (Z.to_nat (fragment_offset h)) M);
}.

Definition add_fragment (C : Z → Prop) (h : fragHeader) (o : Z) : Prop :=
  C o ∨ fragment_offset h ≤ o < fragment_offset h + fragment_length h.

Definition message_ok (M : list Z) : Prop := bytes M ∧ length M ≤ MAX_HANDSHAKE_MSG_LEN.

Lemma storage_zero b : wf b → fixed b = false → 0 < space b →
  ∃ m, buf b = Some m ∧ Z.of_nat (length m) = space b.
Proof.
  intros [Hl Hs _ _ _ Hh] Hf Hp. specialize (Hh Hf). unfold storage in Hh.
  destruct (buf b) as [m|]; cbn in Hh; [|lia]. exists m. split; [done|lia].
Qed.

Lemma start_reassembly_spec ss s h M (C : Z → Prop) t :
  asm_bufs ss → recvMessageSeq ss = s → recvdHighWater ss = -1 → (∀ o, ¬ C o) →
  message_ok M → type h = t → message_length h = length M → (0 < length M)%nat →
  ∃ ss' rv, start_reassembly ss h = Ok (ss', rv) ∧ upper ss' = upper ss ∧ recvMessageSeq ss' = s ∧
    (rv = HsOk ∧ tracking ss' t M C ∨
     rv = HsFail (SSL_SEC_ERROR SEC_ERROR_NO_MEMORY) ∧ asm_bufs ss' ∧ recvdHighWater ss' = -1).
Proof.
  intros [Hb Hbf Hm Hmf] Hs Hw HC [HMb HM] Ht Hl Hpos. unfold MAX_HANDSHAKE_MSG_LEN in HM.
  unfold start_reassembly. rewrite Hl.
  pose proof (sslBuffer_Grow_spec (msg_body ss) (length M) Hb ltac:(lia)) as HG.
  destruct (sslBuffer_Grow (msg_body ss) (length M)) as [b1|e|]; [| |done].
  2: { destruct HG as [(Hx & _)|(_ & -> & _)]; [congruence|].
       eexists _, _. split; [done|]. split_and!; try done. by right. }
  destruct HG as (Hb1 & _ & _ & Hf1 & Hn1 & _).
  set (n := length M / 8 + 1).
  assert (Hn : 0 < n < 2 ^ 32).
  { unfold n. pose proof (Z.div_pos (length M) 8). pose proof (Z.div_le_upper_bound (length M) 8 131071). lia. }
  change (recvdFragments (set_body ss b1)) with (recvdFragments ss). unfold OFFSET_BYTE. fold n.
  pose proof (sslBuffer_Grow_spec (recvdFragments ss) n Hm ltac:(lia)) as HG.
  destruct (sslBuffer_Grow (recvdFragments ss) n) as [m1|e|]; [| |done].
  2: { destruct HG as [(Hx & _)|(_ & -> & _)]; [congruence|].
       eexists _, _. split; [done|]. split_and!; try done. right. split_and!; try done.
       split; cbn; try done. congruence. }
  destruct HG as (Hm1 & _ & _ & Hf2 & Hn2 & _).
  assert (Hf2' : fixed m1 = false) by congruence.
  destruct (storage_zero m1 Hm1 Hf2' ltac:(lia)) as (mm & Emm & Hlm). rewrite Emm.
  rewrite mem_write_same by (rewrite length_replicate; lia). cbn [mbind res_bind].
  rewrite length_replicate, take_0, drop_ge by lia. cbn [app]. rewrite app_nil_r.
  eexists _, _. split; [done|]. split_and!; try done. left. split; [done|].
  assert (Hz : ∀ o, ¬ bit_set (replicate (Z.to_nat (space m1)) 0) o ∨ space m1 ≤ o / 8).
  { intros o. destruct (decide (o / 8 < space m1)) as [Ho|]; [left|right; lia].
    unfold bit_set. rewrite lookup_total_replicate_2 by lia. by rewrite Z.bits_0. }
  split; cbn [set_header set_fragments set_water set_body msg_type msg_len msg_body recvdFragments recvdHighWater
               storage buf default space]; try done; try lia.
  - split; cbn; try done; [congruence|].
    destruct Hm1 as [? ? ? Hlf Hsf Hh]. destruct (Hh Hf2').
    split; cbn; rewrite ?length_replicate; try done; try lia.
    by apply Forall_replicate.
  - intros o Ho. split; [by intros ?%HC|]. intros [?|Hbit]; [lia|].
    destruct (Hz o) as [?|Hge]; [done|].
    assert (o / 8 ≤ length M / 8) by (apply Z.div_le_mono; lia). lia.
  - intros o _ ?%HC. done.
Qed.

(** What becomes of a fragment of [M]: lost for want of memory, kept, or the
    last one, in which case [M] is handed over. *)
Definition fragment_outcome ss s t M (C : Z → Prop) ss' rv : Prop :=
  (rv = HsFail (SSL_SEC_ERROR SEC_ERROR_NO_MEMORY) ∧ upper ss' = upper ss) ∨
  (rv = HsOk ∧ ¬ all_there M C ∧ upper ss' = upper ss ∧ asm ss' s t M C) ∨
  (all_there M C ∧ answered rv (t, M) ∧
   delivered (upper ss') = delivered (upper ss) ++ [(t, M)] ∧
   asm_bufs ss' ∧ recvdHighWater ss' = -1).

Lemma copied_octets ss t M C h b :
  tracking ss t M C → fragment_of h b (recvMessageSeq ss) t M → bytes M →
  ∃ body', (if recvdHighWater ss <? fragment_offset h + fragment_length h
            then buffer_store (msg_body ss) (fragment_offset h) (take (Z.to_nat (fragment_length h)) b)
            else Ok (msg_body ss)) = Ok body' ∧
    wf body' ∧ fixed body' = false ∧ space body' = space (msg_body ss) ∧
    ∀ o : nat, (o < length M)%nat → add_fragment C h o → storage body' !! o = M !! o.
Proof.
  intros [[Hb Hbf Hm Hmf] Ht Hl Hroom Hmap Hwat Hgap Hcov Hoct] [[_ Ho Hfl Hin] _ _ Hdata] HM.
  destruct (Z.ltb_spec (recvdHighWater ss) (fragment_offset h + fragment_length h)) as [Hlt|Hge].
  - rewrite Hdata. set (src := take _ (drop _ M)).
    assert (Hsrc : Z.of_nat (length src) = fragment_length h).
    { unfold src. rewrite length_take, length_drop. lia. }
    destruct (buffer_store_at (msg_body ss) (fragment_offset h) src) as (b' & -> & Hw' & _ & Hsp & Hf' & Hst);
      [done|done|by apply Forall_take, Forall_drop|done|lia|lia|].
    exists b'. split_and!; try done. intros o HoM Hadd. rewrite Hst. case_decide as Hr.
    + unfold src. rewrite lookup_take_lt, lookup_drop by lia. f_equal. lia.
    + apply Hoct; [done|]. destruct Hadd as [?|?]; [done|lia].
  - exists (msg_body ss). split_and!; try done. intros o HoM Hadd. apply Hoct; [done|].
    destruct Hadd as [?|?]; [done|]. apply Hcov; [lia|left; lia].
Qed.

(** The new mark and map count the fragment in. *)
Lemma counted_octets ss t M C h b :
  tracking ss t M C → fragment_fits h b M → length M ≤ MAX_HANDSHAKE_MSG_LEN →
  let e := fragment_offset h + fragment_length h in
  ∀ body, ∃ ss1 w,
    (if fragment_offset h <=? u32 (recvdHighWater (set_body ss body))
     then Ok (if recvdHighWater (set_body ss body) <? e then set_water (set_body ss body) e
              else set_body ss body)
     else m ← mark_fragment (Z.to_nat (u32 e - fragment_offset h)) (recvdFragments (set_body ss body))
                (fragment_offset h);
          Ok (set_fragments (set_body ss body) m)) = Ok (E:=Empty_set) ss1 ∧
    raise_water (Z.to_nat (msg_len ss1 - recvdHighWater ss1)) (recvdFragments ss1) (recvdHighWater ss1) = Ok w ∧
    upper ss1 = upper ss ∧ recvMessageSeq ss1 = recvMessageSeq ss ∧ msg_type ss1 = t ∧
    msg_len ss1 = length M ∧ msg_body ss1 = body ∧
    wf (recvdFragments ss1) ∧ fixed (recvdFragments ss1) = false ∧
    length M / 8 + 1 ≤ space (recvdFragments ss1) ∧ 0 ≤ w ≤ length M ∧
    (w < length M → ¬ add_fragment C h w) ∧
    ∀ o, 0 ≤ o < length M →
      add_fragment C h o ↔ o < w ∨ bit_set (storage (recvdFragments ss1)) o.
Proof.
  intros [[Hb Hbf Hm Hmf] Ht Hl Hroom Hmap Hwat Hgap Hcov Hoct] [_ Ho Hfl Hin] HM e body.
  unfold MAX_HANDSHAKE_MSG_LEN in HM. cbn [set_body recvdHighWater recvdFragments].
  rewrite (wrap_small 32 (recvdHighWater ss)), (wrap_small 32 e) by (unfold e; lia).
  replace (Z.to_nat (e - fragment_offset h)) with (Z.to_nat (fragment_length h)) by (unfold e; lia).
  assert (Hbits : ∀ x, x ≤ length M → (x - 1) / 8 < length M / 8 + 1).
  { intros x Hx. assert ((x - 1) / 8 ≤ length M / 8) by (apply Z.div_le_mono; lia). lia. }
  assert (HS : Z.of_nat (length (storage (recvdFragments ss))) = space (recvdFragments ss)).
  { destruct Hm as [? ? _ _ _ Hh]. destruct (Hh Hmf). lia. }
  assert (Hstep : ∃ ss1, (if fragment_offset h <=? recvdHighWater ss
     then Ok (if recvdHighWater ss <? e then set_water (set_body ss body) e else set_body ss body)
     else m ← mark_fragment (Z.to_nat (fragment_length h)) (recvdFragments ss) (fragment_offset h);
          Ok (set_fragments (set_body ss body) m)) = Ok (E:=Empty_set) ss1 ∧
     upper ss1 = upper ss ∧ recvMessageSeq ss1 = recvMessageSeq ss ∧ msg_type ss1 = msg_type ss ∧
     msg_len ss1 = msg_len ss ∧ msg_body ss1 = body ∧
     wf (recvdFragments ss1) ∧ fixed (recvdFragments ss1) = false ∧
     space (recvdFragments ss1) = space (recvdFragments ss) ∧
     length (storage (recvdFragments ss1)) = length (storage (recvdFragments ss)) ∧
     0 ≤ recvdHighWater ss1 ≤ length M ∧
     ∀ o, 0 ≤ o < length M →
      add_fragment C h o ↔ o < recvdHighWater ss1 ∨ bit_set (storage (recvdFragments ss1)) o).
  { unfold add_fragment. destruct (Z.leb_spec (fragment_offset h) (recvdHighWater ss)) as [Hle|Hgt].
    - eexists. split; [done|]. destruct (Z.ltb_spec (recvdHighWater ss) e);
        split_and!; cbn; try done; try lia; intros o Hox; rewrite Hcov by done; unfold e in *; intuition lia.
    - destruct (mark_fragment_spec (Z.to_nat (fragment_length h)) (recvdFragments ss) (fragment_offset h))
        as (m' & -> & Hw' & Hl' & Hsp' & Hf' & Hb'); [done|lia| |].
      { rewrite HS. specialize (Hbits e Hin). rewrite Z2Nat.id by lia. fold e. lia. }
      cbn [mbind res_bind]. eexists. split; [done|]. split_and!; cbn; try done; try lia; [congruence|].
      intros o Hox. rewrite Hb', Hcov by lia. rewrite Z2Nat.id by lia. tauto. }
  destruct Hstep as (ss1 & -> & Hu & Hq & Ht1 & Hl1 & Hb1 & Hw1 & Hf1 & Hsp1 & Hst1 & Hwat1 & Hcov1).
  destruct (raise_water_spec (Z.to_nat (msg_len ss1 - recvdHighWater ss1)) (recvdFragments ss1)
              (recvdHighWater ss1)) as (w & Ew & Hr & Hbit & Hnb); [lia| |].
  { rewrite Hst1, HS, Hl1, Hl. specialize (Hbits (length M)). rewrite Z2Nat.id by lia.
    replace (recvdHighWater ss1 + (length M - recvdHighWater ss1) - 1) with (length M - 1) by lia. lia. }
  exists ss1, w. rewrite Z2Nat.id in Hr, Hnb by lia. split_and!; try done; try congruence; try lia.
  - intros Hlt. rewrite Hcov1 by lia. intros [?|Hx]; [lia|]. apply Hnb; [lia|done].
  - intros o Hox. rewrite Hcov1 by done. split; (intros [?|?]; [|by right]).
    + left. lia.
    + destruct (decide (o < recvdHighWater ss1)); [by left|right; apply Hbit; lia].
Qed.

Lemma end_exact h b M : fragment_fits h b M → length M ≤ MAX_HANDSHAKE_MSG_LEN →
  swrap 32 (u32 (fragment_offset h + fragment_length h)) = fragment_offset h + fragment_length h.
Proof.
  intros [_ Ho Hfl Hin] HM. unfold MAX_HANDSHAKE_MSG_LEN in HM.
  rewrite wrap_small, swrap_small by lia. done.
Qed.

Lemma store_fragment_spec ss t M C h b :
  tracking ss t M C → fragment_of h b (recvMessageSeq ss) t M → message_ok M →
  ∃ ss' rv, store_fragment ss h b = Ok (ss', rv) ∧
    fragment_outcome ss (recvMessageSeq ss) t M (add_fragment C h) ss' rv.
Proof.
  intros HT HF [HMb HM]. pose proof (fo_fits _ _ _ _ _ HF) as HFF.
  unfold store_fragment. rewrite (end_exact _ _ _ HFF HM).
  rewrite (ff_len _ _ _ HFF), (tr_len _ _ _ _ HT), Z.eqb_refl. cbn [negb].
  destruct (copied_octets _ _ _ _ _ _ HT HF HMb) as (body & Eb & Hbw & Hbf & Hbs & Hoct).
  replace (if recvdHighWater ss <? fragment_offset h + fragment_length h then _ else _)
    with (Ok (E:=SECErrorCode) body).
  destruct (counted_octets _ _ _ _ _ _ HT HFF HM body)
    as (ss1 & w & E1 & Ew & Hu & Hq & Ht1 & Hl1 & Hb1 & Hmw & Hmf & Hmr & Hwr & Hgap & Hcov).
  cbn zeta in E1. rewrite E1. cbn [mbind res_bind]. rewrite Ew. cbn [mbind res_bind].
  cbn [set_water recvdHighWater msg_len]. unfold MAX_HANDSHAKE_MSG_LEN in HM. rewrite wrap_small by lia.
  pose proof (tr_room _ _ _ _ HT) as Hroom. rewrite Hl1. set (ss2 := set_water ss1 w).
  destruct (Z.eqb_spec w (length M)) as [Efull|Epart].
  - assert (Hall : all_there M (add_fragment C h)) by (intros o Hox; apply Hcov; [done|left; lia]).
    assert (HtakeM : take (Z.to_nat (length M)) (storage (msg_body ss2)) = M).
    { assert (Hlen : (length M ≤ length (storage body))%nat).
      { destruct Hbw as [? ? _ _ _ Hh]. destruct (Hh Hbf). lia. }
      rewrite Nat2Z.id. cbn [ss2 set_water msg_body]. rewrite Hb1. apply list_eq. intros i.
      destruct (decide (i < length M)%nat) as [Hi|Hi].
      - rewrite lookup_take_lt by done. apply Hoct; [done|apply Hall; lia].
      - rewrite !lookup_ge_None_2; [done|lia|rewrite length_take; lia]. }
    rewrite HtakeM. unfold dtls_HandleHandshakeMessage.
    pose proof (Message_spec true (set_water ss2 (-1)) M (Z.of_nat (length b) =? fragment_length h)) as HM'.
    destruct (ssl3_HandleHandshakeMessage _ _ _ _) as [[ss3 rv] tail].
    destruct HM' as (Hd & Hans & Ht3 & Hl3 & Hb3 & Hw3 & Hf3). cbn in Hd, Hans, Ht3, Hl3, Hb3, Hw3, Hf3.
    assert (Hst : length M ≤ length (storage body)).
    { destruct Hbw as [? ? _ _ _ Hh]. destruct (Hh Hbf). lia. }
    destruct (taint_spec ss3 (length M) tail) as (ss4 & -> & Hbw4 & Hbf4 & Hu4 & _ & _ & _ & Hw4 & Hf4).
    { by rewrite Hb3, Hb1. }
    { rewrite Hb3, Hb1. lia. }
    cbn [mbind res_bind]. eexists _, _. split; [done|]. do 2 right. rewrite Ht1 in *.
    split_and!; [done|done|by rewrite Hu4, Hd, Hu| |by rewrite Hw4].
    split; rewrite ?Hbf4, ?Hf4, ?Hf3, ?Hb3, ?Hb1; done.
  - eexists _, _. split; [done|]. right. left. split_and!; try done.
    + intros Hall. apply Hgap; [lia|]. apply Hall. lia.
    + assert (Hbufs : asm_bufs ss2) by (split; cbn; rewrite ?Hb1; done).
      split; [done|cbn; by rewrite Hq|]. right. split; cbn; rewrite ?Hb1, ?Hbs; try done; try lia.
      apply Hgap. lia.
Qed.

Lemma buffer_fragment_spec ss s t M C h b :
  asm ss s t M C → fragment_of h b s t M → message_ok M → (0 < length M)%nat →
  ∃ ss' rv, buffer_fragment ss h b = Ok (ss', rv) ∧ fragment_outcome ss s t M (add_fragment C h) ss' rv.
Proof.
  intros [Hb Hs Hst] HF HM Hpos. unfold buffer_fragment.
  destruct Hst as [[Hw HC]|HT].
  - rewrite Hw. destruct (start_reassembly_spec ss s h M C t) as (ss1 & rv & E & Hu & Hs1 & HO); try done;
      [by destruct HF|by destruct HF as [[] _ _ _]|].
    change (-1 =? -1) with true. rewrite E. cbn [mbind res_bind].
    destruct HO as [[-> HT]|(-> & _ & _)].
    + subst s. rewrite <- Hs1 in HF. destruct (store_fragment_spec ss1 t M C h b HT HF HM) as (ss' & rv & E' & HO).
      rewrite E'. exists ss', rv. split; [done|]. unfold fragment_outcome in *. by rewrite <- Hu, <- Hs1.
    + eexists _, _. split; [done|]. by left.
  - destruct (Z.eqb_spec (recvdHighWater ss) (-1)) as [E|_]; [destruct HT; lia|]. cbn [mbind res_bind].
    subst s. by apply store_fragment_spec.
Qed.

(** ** One fragment *)

Definition turn_of (discarded : bool) (rv : hs_status) : dtls_turn :=
  match rv with HsOk => NextFragment discarded | _ => Leave rv end.

Lemma handle_own ss s t M C h b d :
  asm ss s t M C → fragment_of h b s t M → message_ok M →
  ∃ ss' rv, handle_fragment ss d h b = Ok (ss', turn_of d rv) ∧
    fragment_outcome ss s t M (add_fragment C h) ss' rv.
Proof.
  intros HA HF HM. pose proof HF as [[Hl Ho Hfl Hin] Ht Hs Hdata]. unfold handle_fragment.
  rewrite Hs, (am_seq _ _ _ _ _ HA), Z.ltb_irrefl. cbn [andb].
  rewrite (am_seq _ _ _ _ _ HA), Z.ltb_irrefl, Z.eqb_refl. cbn [andb].
  destruct ((fragment_offset h =? 0) && (fragment_length h =? message_length h)) eqn:Ew.
  - apply andb_true_iff in Ew as [E0%Z.eqb_eq El%Z.eqb_eq]. rewrite El, Hl, E0 in *.
    rewrite drop_0, Nat2Z.id, firstn_all in Hdata. rewrite Nat2Z.id, Hdata.
    unfold dtls_HandleHandshakeMessage. set (ss1 := set_water _ (-1)).
    pose proof (Message_spec true ss1 M (length b =? length M)) as HM'.
    destruct (ssl3_HandleHandshakeMessage _ _ _ _) as [[ss2 rv] tail].
    destruct HM' as (Hd & Hans & _ & _ & Hb2 & Hw2 & Hf2). cbn in Hd, Hans, Hb2, Hw2, Hf2.
    exists ss2, rv. split; [done|]. do 2 right. rewrite Ht in *. split_and!; try done.
    + intros o Hox. right. lia.
    + destruct (am_bufs _ _ _ _ _ HA). split; rewrite ?Hb2, ?Hf2; done.
  - destruct (buffer_fragment_spec ss s t M C h b HA HF HM) as (ss' & rv & -> & HO).
    { apply andb_false_iff in Ew as [E%Z.eqb_neq|E%Z.eqb_neq]; lia. }
    exists ss', rv. split; [done|done].
Qed.

(** Fragments of later messages, but for the retried ClientHello, are dropped. *)
Definition later (s : Z) (h : fragHeader) : Prop :=
  s < message_seq h ∧ ¬ (message_seq h = 1 ∧ fragment_offset h = 0 ∧ type h = ssl_hs_client_hello).

Lemma handle_later ss h b d :
  later (recvMessageSeq ss) h → handle_fragment ss d h b = Ok (ss, NextFragment true).
Proof.
  intros [Hs Hn]. unfold handle_fragment.
  replace ((recvMessageSeq ss <? message_seq h) && (message_seq h =? 1) && (fragment_offset h =? 0) &&
           expects_client_hello (upper ss) && (type h =? ssl_hs_client_hello)) with false.
  - rewrite (proj2 (Z.eqb_neq _ _)), (proj2 (Z.ltb_ge _ _)), (proj2 (Z.ltb_lt _ _)) by lia. done.
  - symmetry. apply not_true_iff_false. rewrite !andb_true_iff, !Z.eqb_eq. tauto.
Qed.

Lemma handle_old ss h b d :
  message_seq h < recvMessageSeq ss →
  handle_fragment ss d h b = Ok (set_upper ss (retransmit_detected (upper ss)).1,
                                 Leave (retransmit_detected (upper ss)).2).
Proof.
  intros Hs. unfold handle_fragment. rewrite (proj2 (Z.ltb_ge (recvMessageSeq ss) _)) by lia.
  cbn [andb]. rewrite (proj2 (Z.eqb_neq _ _)), (proj2 (Z.ltb_lt _ _)) by lia. cbn [andb].
  by destruct (retransmit_detected (upper ss)).
Qed.

(** ** Fragments on the wire *)

Definition enc_fragment (f : fragHeader * list Z) : list Z :=
  let h := f.1 in
  type h :: be_bytes 3 (message_length h) ++ be_bytes 2 (message_seq h) ++
  be_bytes 3 (fragment_offset h) ++ be_bytes 3 (fragment_length h) ++ f.2.

Record fragment_ok (f : fragHeader * list Z) : Prop := mk_fragment_ok {
  fk_len : 0 ≤ message_length f.1 ≤ MAX_HANDSHAKE_MSG_LEN;
  fk_seq : 0 ≤ message_seq f.1 < 2 ^ 16;
  fk_off : 0 ≤ fragment_offset f.1;
  fk_flen : fragment_length f.1 = length f.2;
  fk_inside : fragment_offset f.1 + fragment_length f.1 ≤ message_length f.1;
}.

Lemma uint24_be v : 0 ≤ v < 2 ^ 24 →
  uint24 (v / 256 / 256 mod 256) (v / 256 mod 256) (v mod 256) = v.
Proof.
  intros Hv. unfold uint24.
  assert (H1 : Z.lor (Z.shiftl (v / 256 / 256 mod 256) 16) (Z.shiftl (v / 256 mod 256) 8) =
               Z.shiftl (v / 256) 8).
  { rewrite lor_shift_add by (rewrite ?Z.shiftl_mul_pow2 by lia; pose proof (Z.mod_pos_bound (v / 256) 256); lia).
    rewrite !Z.shiftl_mul_pow2 by lia. change (2 ^ 16) with (256 * 256). change (2 ^ 8) with 256.
    rewrite (Z.mod_small (v / 256 / 256)) by (Z.to_euclidean_division_equations; lia).
    pose proof (Z.div_mod (v / 256) 256). lia. }
  rewrite H1, lor_shift_add by (pose proof (Z.mod_pos_bound v 256); lia).
  pose proof (Z.div_mod v 256). lia.
Qed.

Lemma parse_enc_fragment f rest :
  fragment_ok f → parse_header (enc_fragment f ++ rest) = Some (f.1, f.2 ++ rest).
Proof.
  intros [Hl Hs Ho Hfl Hin]. destruct f as [[t l q o n] d]. cbn in *. unfold MAX_HANDSHAKE_MSG_LEN in Hl.
  rewrite !uint24_be by lia. rewrite lor_shift_add by (pose proof (Z.mod_pos_bound q 256); lia).
  rewrite (Z.mod_small (q / 256)) by (Z.to_euclidean_division_equations; lia).
  pose proof (Z.div_mod q 256). do 3 f_equal. lia.
Qed.

(** A turn of the loop on a fragment that passes the checks. *)
Lemma dtls_loop_fragment fuel ss d f rest :
  fragment_ok f →
  dtls_loop (S fuel) ss d (enc_fragment f ++ rest) =
  ('(ss, next) ← handle_fragment ss d f.1 (f.2 ++ rest);
   match next with
   | NextFragment d => dtls_loop fuel ss d rest
   | Leave rv => Ok (ss, Leave rv)
   end).
Proof.
  intros Hf. pose proof Hf as [Hl Hs Ho Hfl Hin]. unfold MAX_HANDSHAKE_MSG_LEN in Hl.
  cbn [dtls_loop]. destruct (enc_fragment f ++ rest) as [|x l] eqn:E; [by unfold enc_fragment in E|].
  rewrite <- E, parse_enc_fragment by done.
  rewrite Z.gtb_ltb, (proj2 (Z.ltb_ge _ _)) by (unfold MAX_HANDSHAKE_MSG_LEN; lia).
  rewrite (proj2 (Z.ltb_ge _ _)) by (rewrite length_app; lia).
  rewrite Z.gtb_ltb, (proj2 (Z.ltb_ge _ _)) by (rewrite wrap_small; lia).
  rewrite Hfl, Nat2Z.id, drop_app_length. done.
Qed.

Lemma fragment_of_app h b rest s t M : fragment_of h b s t M → fragment_of h (b ++ rest) s t M.
Proof.
  intros [[Hl Ho Hfl Hin] Ht Hs Hd]. split; [split; rewrite ?length_app; done || lia|done|done|].
  rewrite take_app_le by lia. done.
Qed.

(** ** Fragments of one message among others *)

Section OneMessage.
  Context (s t : Z) (M : list Z).
  Hypothesis HM : message_ok M.

(** A fragment of the message or of a later one. *)
Definition own (f : fragHeader * list Z) : Prop := fragment_ok f ∧ fragment_of f.1 f.2 s t M.
Definition own_or_later (f : fragHeader * list Z) : Prop := own f ∨ fragment_ok f ∧ later s f.1.

Definition covers (f : fragHeader * list Z) (o : Z) : Prop :=
  message_seq f.1 = s ∧ fragment_offset f.1 ≤ o < fragment_offset f.1 + fragment_length f.1.
Definition cover (C : Z → Prop) (fs : list (fragHeader * list Z)) (o : Z) : Prop :=
  C o ∨ ∃ f, f ∈ fs ∧ covers f o.

(** The fragments [fs], after those of [C], make up the message. *)
Definition complete (C : Z → Prop) (fs : list (fragHeader * list Z)) : Prop :=
  (∃ f, f ∈ fs ∧ message_seq f.1 = s) ∧ all_there M (cover C fs).

#[local] Instance asm_proper ss : Proper (pointwise_relation Z iff ==> iff) (asm ss s t M).
Proof.
  assert (Himp : ∀ C C' : Z → Prop, pointwise_relation Z iff C C' → asm ss s t M C → asm ss s t M C').
  { intros C C' E [Hb Hs [[Hw HC]|HT]]; split; try done; [left; split; [done|]; intros o; by rewrite <- (E o)|].
    right. destruct HT. split; try done.
    - by rewrite <- (E _).
    - intros o Ho. rewrite <- (E o). by apply tr_covered0.
    - intros o Ho Hc. apply tr_octets0; [done|]. by apply (E _). }
  intros C C' E. split; apply Himp; [done|by symmetry].
Qed.

Lemma asm_upper ss u C : asm ss s t M C → asm (set_upper ss u) s t M C.
Proof.
  intros [[? ? ? ?] Hs Hst]. split; [done|done|]. destruct Hst as [?|[[? ? ? ?] ? ? ? ? ? ? ? ?]]; [by left|].
  right. by split.
Qed.

Lemma cover_own C f fs : message_seq f.1 = s →
  pointwise_relation Z iff (cover (add_fragment C f.1) fs) (cover C (f :: fs)).
Proof.
  intros Hf o. unfold cover, add_fragment, covers. setoid_rewrite elem_of_cons. naive_solver.
Qed.

Lemma cover_other C f fs : message_seq f.1 ≠ s → pointwise_relation Z iff (cover C fs) (cover C (f :: fs)).
Proof. intros Hf o. unfold cover, covers. setoid_rewrite elem_of_cons. naive_solver. Qed.

Lemma all_there_iff C C' : pointwise_relation Z iff C C' → all_there M C → all_there M C'.
Proof. intros E HA o Ho. by apply (E o), HA. Qed.

Lemma incomplete_own C f fs : message_seq f.1 = s → ¬ complete C (f :: fs) →
  ¬ all_there M (add_fragment C f.1) ∧ ¬ complete (add_fragment C f.1) fs.
Proof.
  intros Hf Hn. split.
  - intros HA. apply Hn. split; [exists f; split; [by left|done]|].
    intros o Ho. apply (cover_own C f fs Hf o). left. by apply HA.
  - intros [(g & Hg & Hgs) HA]. apply Hn. split; [exists g; split; [by right|done]|].
    by apply (all_there_iff _ _ (cover_own C f fs Hf)).
Qed.

Lemma incomplete_other C f fs : message_seq f.1 ≠ s → ¬ complete C (f :: fs) → ¬ complete C fs.
Proof.
  intros Hf Hn [(g & Hg & Hgs) HA]. apply Hn. split; [exists g; split; [by right|done]|].
  by apply (all_there_iff _ _ (cover_other C f fs Hf)).
Qed.

Abbreviation NO_MEMORY := (HsFail (SSL_SEC_ERROR SEC_ERROR_NO_MEMORY)).

(** The fragments before the last one are kept. *)
Lemma loop_incomplete fs fuel ss d C rest :
  asm ss s t M C → Forall own_or_later fs → ¬ complete C fs →
  (length (concat (enc_fragment <$> fs) ++ rest) < fuel)%nat →
  (∃ ss', dtls_loop fuel ss d (concat (enc_fragment <$> fs) ++ rest) = Ok (ss', Leave NO_MEMORY) ∧
          upper ss' = upper ss) ∨
  ∃ fuel' ss' d', dtls_loop fuel ss d (concat (enc_fragment <$> fs) ++ rest) = dtls_loop fuel' ss' d' rest ∧
    asm ss' s t M (cover C fs) ∧ upper ss' = upper ss ∧ (length rest < fuel')%nat.
Proof.
  revert fuel ss d C. induction fs as [|f fs IH]; intros fuel ss d C HA Hfs Hn Hf.
  { right. exists fuel, ss, d. split_and!; try done. revert HA. apply asm_proper.
    intros o. unfold cover. setoid_rewrite elem_of_nil. naive_solver. }
  apply Forall_cons_1 in Hfs as [Hk Hfs]. cbn [fmap list_fmap concat] in *. rewrite <- app_assoc in *.
  destruct fuel as [|fuel]; [lia|].
  assert (Hlen : (length (concat (enc_fragment <$> fs) ++ rest) < fuel)%nat).
  { rewrite length_app in Hf. unfold enc_fragment in Hf at 1. cbn [length] in Hf. lia. }
  destruct Hk as [[Hok Hof]|[Hok Hlater]]; rewrite dtls_loop_fragment by done.
  - pose proof (fo_seq _ _ _ _ _ Hof) as Hseq.
    destruct (incomplete_own C f fs Hseq Hn) as [Hn1 Hn2].
    destruct (handle_own ss s t M C f.1 (f.2 ++ concat (enc_fragment <$> fs) ++ rest) d HA)
      as (ss1 & rv & -> & HO); [by apply fragment_of_app|done|].
    destruct HO as [[-> Hu]|[(-> & _ & Hu & HA1)|[? _]]]; [| |done]; cbn [turn_of mbind res_bind].
    + left. by exists ss1.
    + destruct (IH fuel ss1 d _ HA1 Hfs Hn2 Hlen) as [(ss' & E & Hu')|(fuel' & ss' & d' & E & HA' & Hu' & Hl)].
      * left. exists ss'. split; [done|congruence].
      * right. exists fuel', ss', d'. split_and!; try done; try congruence.
        revert HA'. apply asm_proper. symmetry. by apply cover_own.
  - assert (Hseq : message_seq f.1 ≠ s) by (destruct Hlater; lia).
    rewrite handle_later by (by rewrite (am_seq _ _ _ _ _ HA)). cbn [mbind res_bind].
    destruct (IH fuel ss true _ HA Hfs (incomplete_other _ _ _ Hseq Hn) Hlen)
      as [?|(fuel' & ss' & d' & E & HA' & ?)]; [by left|].
    right. exists fuel', ss', d'. split_and!; try done; try tauto.
    revert HA'. apply asm_proper. symmetry. by apply cover_other.
Qed.

(** ** Records *)

(** A record of fragments of this message and later ones; a fragment of an
    earlier message ends the handling of its record, whatever follows. *)
Record dtls_record := mk_dtls_record {
  r_epoch : Z;
  r_seqNum : Z;
  r_fragments : list (fragHeader * list Z);
  r_trailer : list Z;
}.

Definition record_bytes (r : dtls_record) : Z * Z * list Z :=
  (r_epoch r, r_seqNum r, concat (enc_fragment <$> r_fragments r) ++ r_trailer r).

Definition record_ok (r : dtls_record) : Prop :=
  Forall own_or_later (r_fragments r) ∧
  (r_trailer r = [] ∨
   ∃ f junk, fragment_ok f ∧ message_seq f.1 < s ∧ r_trailer r = enc_fragment f ++ junk).

(** Who answered [rv]: the allocator or the layer above. *)
Definition blame (rv : hs_status) : Prop :=
  rv = NO_MEMORY ∨ (∃ u, rv = (setup_acks u).2) ∨ (∃ u e n, rv = (remember_fragment u e n).2) ∨
  (∃ u, rv = (retransmit_detected u).2) ∨ answered rv (t, M).

Lemma finish_record_spec ss epoch seqNum d :
  ∃ u rv, finish_record ss epoch seqNum d = (set_upper ss u, rv) ∧
    delivered u = delivered (upper ss) ∧ blame rv.
Proof.
  unfold finish_record, blame.
  pose proof (remember_delivers (upper ss) epoch seqNum) as Hr.
  destruct (remember_fragment (upper ss) epoch seqNum) as [u rv] eqn:Er.
  set (ss1 := if negb d && _ then _ else _).
  assert (H1 : ∃ u1, ss1.1 = set_upper ss u1 ∧ delivered u1 = delivered (upper ss) ∧
            (ss1.2 = HsOk ∨ ∃ u e n, ss1.2 = (remember_fragment u e n).2)).
  { unfold ss1. destruct (negb d && maybeTls13 (upper ss)).
    - exists u. split_and!; [done|done|]. right. exists (upper ss), epoch, seqNum. by rewrite Er.
    - exists (upper ss). split_and!; [by destruct ss|done|by left]. }
  destruct ss1 as [ss2 rv2], H1 as (u1 & Hu1 & Hd & Hb). cbn in Hu1, Hb. subst ss2.
  pose proof (acks_delivers u1) as Ha. destruct (setup_acks u1) as [u2 rv3] eqn:Ea.
  destruct rv2; cbn [upper set_upper].
  - rewrite Ea. exists u2, rv3. split_and!; [done|by rewrite <- Hd, <- Ha|].
    right; left. exists u1. by rewrite Ea.
  - exists u1, HsWouldBlock. split_and!; try done. destruct Hb as [?|?]; [done|by right; right; left].
  - eexists u1, _. split_and!; try done. destruct Hb as [?|?]; [done|by right; right; left].
Qed.

Lemma record_incomplete r ss C :
  asm ss s t M C → record_ok r → ¬ complete C (r_fragments r) →
  ∃ ss' rv, dtls_HandleHandshake ss (r_epoch r) (r_seqNum r) (record_bytes r).2 = Ok (ss', rv) ∧
    delivered (upper ss') = delivered (upper ss) ∧ blame rv ∧
    (rv = HsOk → asm ss' s t M (cover C (r_fragments r))).
Proof.
  intros HA [Hfs Htr] Hn. unfold dtls_HandleHandshake, record_bytes. cbn [snd].
  set (ss0 := set_upper ss _).
  assert (HA0 : asm ss0 s t M C) by (by apply asm_upper).
  assert (Hd0 : delivered (upper ss0) = delivered (upper ss)) by apply endOfFlight_delivers.
  match goal with |- context [dtls_loop ?n] => set (fuel := n) end.
  destruct (loop_incomplete (r_fragments r) fuel ss0 false C (r_trailer r) HA0 Hfs Hn)
    as [(ss' & -> & Hu)|(fuel' & ss1 & d' & -> & HA1 & Hu & Hf)]; [unfold fuel; lia| |].
  { cbn [mbind res_bind]. exists ss', NO_MEMORY. split_and!; [done|by rewrite Hu|by left|done]. }
  destruct fuel' as [|fuel']; [lia|].
  destruct Htr as [->|(f & junk & Hok & Hlt & ->)].
  - cbn [dtls_loop mbind res_bind].
    destruct (finish_record_spec ss1 (r_epoch r) (r_seqNum r) d') as (u & rv & -> & Hd & Hb).
    eexists _, _. split; [done|]. cbn [set_upper upper]. rewrite Hd, Hu. split_and!; try done.
    intros _. by apply asm_upper.
  - rewrite dtls_loop_fragment, handle_old by (done || by rewrite (am_seq _ _ _ _ _ HA1)).
    cbn [mbind res_bind]. eexists _, _. split; [done|]. cbn [set_upper upper].
    rewrite retransmit_delivers, Hu. split_and!; try done; [|intros _; by apply asm_upper].
    do 3 right. left. by eexists.
Qed.

Lemma cover_app C fs gs : pointwise_relation Z iff (cover (cover C fs) gs) (cover C (fs ++ gs)).
Proof. intros o. unfold cover. setoid_rewrite elem_of_app. naive_solver. Qed.

Lemma incomplete_app C fs gs : ¬ complete C (fs ++ gs) → ¬ complete C fs ∧ ¬ complete (cover C fs) gs.
Proof.
  intros Hn. split; intros [(f & Hf & Hs) HA]; apply Hn; (split; [exists f; split; [apply elem_of_app; tauto|done]|]).
  - intros o Ho. apply (cover_app C fs gs o). left. by apply HA.
  - by apply (all_there_iff _ _ (cover_app C fs gs)).
Qed.

Abbreviation all_fragments records := (concat (r_fragments <$> records)).

Lemma records_incomplete records ss C more :
  asm ss s t M C → Forall record_ok records → ¬ complete C (all_fragments records) →
  ∃ ss' rv, delivered (upper ss') = delivered (upper ss) ∧
    (rv ≠ HsOk ∧ blame rv ∧ dtls_records ss ((record_bytes <$> records) ++ more) = Ok (ss', rv) ∨
     rv = HsOk ∧ asm ss' s t M (cover C (all_fragments records)) ∧
     dtls_records ss ((record_bytes <$> records) ++ more) = dtls_records ss' more).
Proof.
  revert ss C. induction records as [|r records IH]; intros ss C HA Hok Hn.
  { exists ss, HsOk. split; [done|]. right. split_and!; try done. revert HA. apply asm_proper.
    intros o. unfold cover. setoid_rewrite elem_of_nil. naive_solver. }
  apply Forall_cons_1 in Hok as [Hr Hok]. cbn [fmap list_fmap concat] in *.
  apply incomplete_app in Hn as [Hn1 Hn2].
  destruct (record_incomplete r ss C HA Hr Hn1) as (ss1 & rv & E & Hd & Hb & HA1).
  assert (Estep : dtls_records ss (record_bytes r :: (record_bytes <$> records) ++ more) =
                  match rv with HsOk => dtls_records ss1 ((record_bytes <$> records) ++ more) | _ => Ok (ss1, rv) end).
  { destruct (record_bytes r) as [[e n] b] eqn:Er. unfold record_bytes in Er. simplify_eq.
    cbn [dtls_records]. cbn [snd record_bytes] in E. by rewrite E. }
  cbn [app]. rewrite Estep. destruct (decide (rv = HsOk)) as [->|Hne].
  2: { exists ss1, rv. split; [done|]. left. by destruct rv. }
  destruct (IH ss1 _ (HA1 eq_refl) Hok Hn2) as (ss' & rv & Hd' & HO).
  exists ss', rv. split; [congruence|]. destruct HO as [?|(-> & HA' & ->)]; [by left|]. right. split_and!; try done.
  revert HA'. apply asm_proper. symmetry. apply cover_app.
Qed.

(** The record that completes the message. *)
Lemma record_complete ss C epoch seqNum fs f :
  asm ss s t M C → Forall own_or_later fs → own f → ¬ complete C fs → complete C (fs ++ [f]) →
  ∃ ss' rv, dtls_HandleHandshake ss epoch seqNum (concat (enc_fragment <$> (fs ++ [f]))) = Ok (ss', rv) ∧
    blame rv ∧
    (delivered (upper ss') = delivered (upper ss) ++ [(t, M)] ∨
     rv = NO_MEMORY ∧ delivered (upper ss') = delivered (upper ss)).
Proof.
  intros HA Hfs [Hok Hof] Hn [_ Hc]. unfold dtls_HandleHandshake. set (ss0 := set_upper ss _).
  assert (HA0 : asm ss0 s t M C) by (by apply asm_upper).
  assert (Hd0 : delivered (upper ss0) = delivered (upper ss)) by apply endOfFlight_delivers.
  rewrite fmap_app, concat_app. cbn [fmap list_fmap concat]. rewrite app_nil_r.
  match goal with |- context [dtls_loop ?n] => set (fuel := n) end.
  destruct (loop_incomplete fs fuel ss0 false C (enc_fragment f) HA0 Hfs Hn)
    as [(ss' & -> & Hu)|(fuel' & ss1 & d' & -> & HA1 & Hu & Hf)]; [unfold fuel; lia| |].
  { cbn [mbind res_bind]. exists ss', NO_MEMORY. split_and!; [done|by left|]. right. by rewrite Hu. }
  destruct fuel' as [|fuel']; [lia|].
  assert (Hf' : (0 < fuel')%nat) by (unfold enc_fragment in Hf; cbn [length] in Hf; lia).
  rewrite <- (app_nil_r (enc_fragment f)), dtls_loop_fragment by done.
  destruct (handle_own ss1 s t M _ f.1 (f.2 ++ []) d' HA1) as (ss2 & rv & -> & HO);
    [by apply fragment_of_app|done|].
  assert (Hall : all_there M (add_fragment (cover C fs) f.1)).
  { intros o Ho. destruct (Hc o Ho) as [?|(g & Hg & Hs & ?)]; [by do 2 left|].
    apply elem_of_app in Hg as [?| ->%list_elem_of_singleton]; [left; right; by exists g|by right]. }
  destruct HO as [[-> Hu2]|[(_ & ? & _)|(_ & Hans & Hd2 & _)]]; [|done|]; cbn [mbind res_bind turn_of].
  { exists ss2, NO_MEMORY. split_and!; [done|by left|]. right. by rewrite Hu2, Hu. }
  rewrite Hu, Hd0 in Hd2. destruct rv; cbn [mbind res_bind turn_of].
  - destruct fuel' as [|fuel']; [lia|]. cbn [dtls_loop mbind res_bind].
    destruct (finish_record_spec ss2 epoch seqNum d') as (u & rv & -> & Hd & Hb).
    eexists _, _. split; [done|]. split; [done|]. left. cbn. by rewrite Hd.
  - eexists _, _. split; [done|]. split; [by do 4 right|by left].
  - eexists _, _. split; [done|]. split; [by do 4 right|by left].
Qed.
End OneMessage.

(** ** Any input at all *)

(** What holds between records whatever the peer sends. *)
Record dtls_safe ss : Prop := mk_dtls_safe {
  ds_bufs : asm_bufs ss;
  ds_state : recvdHighWater ss = -1 ∨
    0 ≤ recvdHighWater ss < msg_len ss ∧ msg_len ss ≤ MAX_HANDSHAKE_MSG_LEN ∧
    msg_len ss ≤ space (msg_body ss) ∧ msg_len ss / 8 + 1 ≤ space (recvdFragments ss) ∧
    ¬ bit_set (storage (recvdFragments ss)) (recvdHighWater ss);
}.

(** In such a state the buffer holds some message of the announced length. *)
Lemma safe_tracking ss :
  dtls_safe ss → recvdHighWater ss ≠ -1 →
  ∃ M, message_ok M ∧ (0 < length M)%nat ∧
    tracking ss (msg_type ss) M
      (λ o, o < recvdHighWater ss ∨ bit_set (storage (recvdFragments ss)) o).
Proof.
  intros [[Hb Hbf Hm Hmf] [?|(Hw & Hl & Hr & Hmr & Hgap)]] Hne; [done|].
  exists (take (Z.to_nat (msg_len ss)) (storage (msg_body ss))).
  assert (Hlen : Z.of_nat (length (take (Z.to_nat (msg_len ss)) (storage (msg_body ss)))) = msg_len ss).
  { rewrite length_take. destruct Hb as [? ? _ _ _ Hh]. destruct (Hh Hbf). lia. }
  split_and!; [split; [apply Forall_take; by destruct Hb|lia]|lia|].
  split; rewrite ?Hlen; try done; [intros [?|?]; [lia|done]|].
  intros o Ho _. rewrite lookup_take_lt by lia. done.
Qed.

Lemma tracking_safe ss t M C : message_ok M → tracking ss t M C → dtls_safe ss.
Proof.
  intros [_ HM] [? Ht Hl Hr Hmr Hw Hg Hc Ho]. split; [done|]. right. rewrite Hl. split_and!; try done; try lia.
  intros Hbit. apply Hg, Hc; [lia|by right].
Qed.

Lemma Message_safe ss data l :
  asm_bufs ss → let '(ss', _, _) := dtls_HandleHandshakeMessage ss data l in
  asm_bufs ss' ∧ msg_body ss' = msg_body ss ∧ recvdHighWater ss' = -1.
Proof.
  intros [? ? ? ?]. unfold dtls_HandleHandshakeMessage.
  pose proof (Message_spec true (set_water ss (-1)) data l) as HS.
  destruct (ssl3_HandleHandshakeMessage _ _ _ _) as [[ss' rv] tail].
  destruct HS as (_ & _ & _ & _ & Hb & Hw & Hf). cbn in *. split_and!; [|done|done].
  split; rewrite ?Hb, ?Hf; done.
Qed.

Lemma store_fragment_safe ss h b :
  dtls_safe ss → recvdHighWater ss ≠ -1 → bytes b →
  0 ≤ fragment_offset h → 0 ≤ fragment_length h ≤ length b →
  fragment_offset h + fragment_length h ≤ message_length h →
  ∃ ss' rv, store_fragment ss h b = Ok (ss', rv) ∧ dtls_safe ss'.
Proof.
  intros HS Hw Hb Ho Hfl Hin. destruct (safe_tracking ss HS Hw) as (M & [HMb HM] & Hpos & HT).
  unfold store_fragment. destruct (Z.eqb_spec (message_length h) (msg_len ss)) as [El|]; cbn [negb].
  2: { eexists _, _. split; [done|]. destruct HS as [[? ? ? ?] _]. split; [done|by left]. }
  rewrite (tr_len _ _ _ _ HT) in El. rewrite El in Hin.
  assert (HFF : fragment_fits h b M) by done. rewrite (end_exact _ _ _ HFF HM).
  destruct (tr_bufs _ _ _ _ HT) as [Hbw Hbf Hmw Hmf]. pose proof (tr_room _ _ _ _ HT) as Hroom.
  assert (Hstore : ∃ body, (if recvdHighWater ss <? fragment_offset h + fragment_length h
            then buffer_store (msg_body ss) (fragment_offset h) (take (Z.to_nat (fragment_length h)) b)
            else Ok (msg_body ss)) = Ok body ∧ wf body ∧ fixed body = false ∧ space body = space (msg_body ss)).
  { destruct (recvdHighWater ss <? _); [|by eexists].
    destruct (buffer_store_at (msg_body ss) (fragment_offset h) (take (Z.to_nat (fragment_length h)) b))
      as (body & E & ? & _ & ? & ? & _); [done|done|by apply Forall_take|done|lia|rewrite length_take; lia|].
    by exists body. }
  destruct Hstore as (body & -> & Hbw' & Hbf' & Hbs).
  destruct (counted_octets _ _ _ _ _ _ HT HFF HM body)
    as (ss1 & w & E1 & Ew & _ & _ & _ & Hl1 & Hb1 & Hmw1 & Hmf1 & Hmr & Hwr & Hgap & Hcov).
  cbn zeta in E1. rewrite E1. cbn [mbind res_bind]. rewrite Ew. cbn [mbind res_bind].
  cbn [set_water recvdHighWater msg_len]. unfold MAX_HANDSHAKE_MSG_LEN in HM. rewrite wrap_small, Hl1 by lia.
  set (ss2 := set_water ss1 w). assert (Hb2 : asm_bufs ss2) by (split; cbn; rewrite ?Hb1; done).
  destruct (Z.eqb_spec w (length M)) as [|Hne].
  - match goal with |- context [dtls_HandleHandshakeMessage ss2 ?d ?l] =>
      pose proof (Message_safe ss2 d l Hb2) as HMs; destruct (dtls_HandleHandshakeMessage ss2 d l) as [[ss3 rv] tail]
    end.
    destruct HMs as ([? ? ? ?] & Hb3 & Hw3).
    destruct (taint_spec ss3 (length M) tail) as (ss4 & -> & ? & Hf4 & _ & _ & _ & _ & Hw4 & Hm4); [done| |].
    { rewrite Hb3. cbn. rewrite Hb1. destruct Hbw' as [? ? _ _ _ Hh]. destruct (Hh Hbf'). lia. }
    eexists _, _. split; [done|]. split; [split; rewrite ?Hm4, ?Hf4; done|left; congruence].
  - eexists _, _. split; [done|]. split; [done|]. right. cbn. rewrite Hb1, Hl1, Hbs.
    split_and!; try done; try (unfold MAX_HANDSHAKE_MSG_LEN; lia).
    intros Hbit. apply Hgap; [lia|]. apply Hcov; [lia|by right].
Qed.

Lemma handle_fragment_safe ss d h b :
  dtls_safe ss → bytes b → 0 ≤ message_length h ≤ MAX_HANDSHAKE_MSG_LEN →
  0 ≤ fragment_offset h → 0 ≤ fragment_length h ≤ length b →
  fragment_offset h + fragment_length h ≤ message_length h →
  ∃ ss' next, handle_fragment ss d h b = Ok (ss', next) ∧ dtls_safe ss'.
Proof.
  intros HS Hb Hl Ho Hfl Hin. unfold handle_fragment.
  set (ss1 := if _ && _ then _ else ss).
  assert (HS1 : dtls_safe ss1) by (unfold ss1; case_match; [|done]; destruct HS as [[? ? ? ?] ?]; done).
  clearbody ss1. destruct (_ && _ && _) eqn:Ec.
  - set (ss2 := set_header ss1 _ _ _).
    assert (Hb2 : asm_bufs ss2) by (destruct HS1 as [[? ? ? ?] _]; done).
    match goal with |- context [dtls_HandleHandshakeMessage ss2 ?d ?l] =>
      pose proof (Message_safe ss2 d l Hb2) as HMs; destruct (dtls_HandleHandshakeMessage ss2 d l) as [[ss3 rv] tail]
    end.
    destruct HMs as (? & _ & ?). eexists _, _. split; [done|]. split; [done|by left].
  - destruct (Z.ltb_spec (message_seq h) (recvMessageSeq ss1)).
    { destruct (retransmit_detected _) as [u rv]. eexists _, _. split; [done|].
      destruct HS1 as [[? ? ? ?] ?]; done. }
    destruct (Z.ltb_spec (recvMessageSeq ss1) (message_seq h)); [eexists _, _; done|].
    rewrite (proj2 (Z.eqb_eq (message_seq h) _)) in Ec by lia. cbn [andb] in Ec.
    assert (Hpos : 0 < message_length h) by (apply andb_false_iff in Ec as [?%Z.eqb_neq|?%Z.eqb_neq]; lia).
    unfold buffer_fragment.
    assert (Hst : ∃ ss2 rv, (if recvdHighWater ss1 =? -1 then start_reassembly ss1 h else Ok (ss1, HsOk)) = Ok (ss2, rv)
              ∧ dtls_safe ss2 ∧ (rv = HsOk → recvdHighWater ss2 ≠ -1)).
    { destruct (Z.eqb_spec (recvdHighWater ss1) (-1)) as [Ew|]; [|by eexists _, _].
      set (M := replicate (Z.to_nat (message_length h)) 0).
      assert (HlM : Z.of_nat (length M) = message_length h) by (unfold M; rewrite length_replicate; lia).
      assert (HM : message_ok M) by (split; [by apply Forall_replicate|lia]).
      destruct (start_reassembly_spec ss1 (recvMessageSeq ss1) h M (λ _, False) (type h))
        as (ss2 & rv & E & _ & _ & HO); [by destruct HS1|done|done|tauto|done|done|done|lia|].
      exists ss2, rv. split; [done|]. destruct HO as [[-> HT]|(-> & ? & ?)].
      - split; [by eapply tracking_safe|]. intros _. destruct HT; lia.
      - split; [split; [done|by left]|done]. }
    destruct Hst as (ss2 & rv & -> & HS2 & Hw2). cbn [mbind res_bind]. destruct rv.
    + destruct (store_fragment_safe ss2 h b) as (ss' & rv & -> & ?); try done; [by apply Hw2|].
      eexists _, _. split; [done|done].
    + eexists _, _. split; [done|done].
    + eexists _, _. split; [done|done].
Qed.

Lemma uint24_range a b c : is_byte a → is_byte b → is_byte c → 0 ≤ uint24 a b c < 2 ^ 24.
Proof.
  unfold is_byte, uint24. intros. apply lor_range; [lia| |lia].
  apply lor_range; [lia|rewrite Z.shiftl_mul_pow2; lia..].
Qed.

Lemma parse_header_range b h rest :
  bytes b → parse_header b = Some (h, rest) →
  0 ≤ message_length h < 2 ^ 24 ∧ 0 ≤ fragment_offset h < 2 ^ 24 ∧ 0 ≤ fragment_length h < 2 ^ 24 ∧
  bytes rest ∧ (length rest < length b)%nat.
Proof.
  intros Hb HP. do 12 (destruct b as [|? b]; [done|]; apply Forall_cons_1 in Hb as [? Hb]).
  cbn in HP. simplify_eq. cbn [message_length fragment_offset fragment_length length].
  split_and!; try done; try (apply uint24_range; done); lia.
Qed.

Lemma dtls_loop_safe fuel ss d b :
  dtls_safe ss → bytes b → (length b < fuel)%nat →
  ∃ ss' next, dtls_loop fuel ss d b = Ok (ss', next) ∧ dtls_safe ss'.
Proof.
  revert ss d b. induction fuel as [|fuel IH]; intros ss d b HS Hb Hf; [lia|].
  assert (Hleave : ∀ u rv, ∃ ss' next, Ok (E:=Empty_set) (set_upper ss u, Leave rv) = Ok (ss', next) ∧ dtls_safe ss').
  { intros u rv. eexists _, _. split; [done|]. destruct HS as [[? ? ? ?] ?]; done. }
  assert (Hleave' : ∀ rv, ∃ ss' next, Ok (E:=Empty_set) (ss, Leave rv) = Ok (ss', next) ∧ dtls_safe ss')
    by (intros; eexists _, _; done).
  destruct b as [|x l] eqn:Eb; [by eexists _, _|]. rewrite <- Eb in *.
  replace (dtls_loop (S fuel) ss d b) with
    (match parse_header b with
     | None => Ok (ss, Leave (HsFail SSL_ERROR_RX_MALFORMED_HANDSHAKE))
     | Some (h, b) =>
         if message_length h >? MAX_HANDSHAKE_MSG_LEN
         then Ok (set_upper ss (decode_error (upper ss)), Leave (HsFail SSL_ERROR_RX_MALFORMED_HANDSHAKE))
         else if Z.of_nat (length b) <? fragment_length h
         then Ok (ss, Leave (HsFail SSL_ERROR_RX_MALFORMED_HANDSHAKE))
         else if u32 (fragment_length h + fragment_offset h) >? message_length h
         then Ok (ss, Leave (HsFail SSL_ERROR_RX_MALFORMED_HANDSHAKE))
         else '(ss, next) ← handle_fragment ss d h b;
              match next with
              | NextFragment d => dtls_loop fuel ss d (drop (Z.to_nat (fragment_length h)) b)
              | Leave rv => Ok (ss, Leave rv)
              end
     end) by (by rewrite Eb).
  destruct (parse_header b) as [[h rest]|] eqn:EP; [|done].
  destruct (parse_header_range b h rest Hb EP) as (Hl & Ho & Hfl & Hr & Hlen).
  rewrite !Z.gtb_ltb, wrap_small by lia.
  destruct (Z.ltb_spec MAX_HANDSHAKE_MSG_LEN (message_length h)); [done|].
  destruct (Z.ltb_spec (Z.of_nat (length rest)) (fragment_length h)); [done|].
  destruct (Z.ltb_spec (message_length h) (fragment_length h + fragment_offset h)); [done|].
  destruct (handle_fragment_safe ss d h rest) as (ss1 & next & -> & HS1); try done; [lia..|].
  cbn [mbind res_bind]. destruct next as [d1|rv]; [|by eexists _, _].
  apply IH; [done|by apply Forall_drop|]. rewrite length_drop. lia.
Qed.
End DtlsReassembly.

(** [C15] Whatever octets a DTLS handshake record holds, handling it stops,
    reads and writes only inside the record, msg_body and recvdFragments, and
    leaves buffers and counters in a state from which the next record is
    handled just as safely. *)
Theorem dtls_HandleHandshake_safe {U} `{HandshakeUpper U} `{NSPRHeap} (ss : hsIn U) epoch seqNum b :
  dtls_safe ss → bytes b →
  ∃ ss' rv, dtls_HandleHandshake ss epoch seqNum b = Ok (ss', rv) ∧ dtls_safe ss'.
Proof.
  intros HS Hb. unfold dtls_HandleHandshake. set (ss0 := set_upper ss _).
  destruct (dtls_loop_safe (S (length b)) ss0 false b) as (ss1 & next & -> & HS1);
    [destruct HS as [[? ? ? ?] ?]; done|done|lia|].
  cbn [mbind res_bind]. eexists _, _. split; [by rewrite <- surjective_pairing|].
  destruct next as [d|rv]; [|done].
  destruct (finish_record_spec 0 [] ss1 epoch seqNum d) as (u & rv & -> & _ & _).
  destruct HS1 as [[? ? ? ?] ?]; done.
Qed.

Lemma hs_idle_safe : dtls_safe hs_idle.
Proof. split; [split; (apply SSL_BUFFER_EMPTY_wf || done)|by left]. Qed.

Lemma dtls_HandleHandshake_safe_witness :
  ∃ ss' rv, dtls_HandleHandshake hs_idle 0 7 [1; 0; 0; 3; 0; 0; 0; 0; 1; 0; 0; 2; 11; 12; 99] = Ok (ss', rv) ∧
    dtls_safe ss'.
Proof.
  apply (dtls_HandleHandshake_safe hs_idle 0 7 _ hs_idle_safe). repeat constructor; done.
Defined.

Lemma reassemble_records {U} `{HandshakeUpper U} `{NSPRHeap} (ss : hsIn U) s t M records epoch seqNum fs f :
  asm ss s t M (λ _, False) → message_ok M →
  Forall (record_ok s t M) records → Forall (own_or_later s t M) fs → own s t M f →
  let before := concat (r_fragments <$> records) ++ fs in
  ¬ complete s M (λ _, False) before → complete s M (λ _, False) (before ++ [f]) →
  ∃ ss' rv, dtls_records ss ((record_bytes <$> records) ++
               [(epoch, seqNum, concat (enc_fragment <$> (fs ++ [f])))]) = Ok (ss', rv) ∧
    match rv with
    | HsOk => delivered (upper ss') = delivered (upper ss) ++ [(t, M)]
    | _ => blame t M rv ∧
           (delivered (upper ss') = delivered (upper ss) ∨
            delivered (upper ss') = delivered (upper ss) ++ [(t, M)])
    end.
Proof.
  intros HA HM Hrs Hfs Hf before Hn Hc. destruct (incomplete_app s M _ _ _ Hn) as [Hn1 Hn2].
  destruct (records_incomplete s t M HM records ss _
              [(epoch, seqNum, concat (enc_fragment <$> (fs ++ [f])))] HA Hrs Hn1) as (ss1 & rv & Hd & HO).
  destruct HO as [(Hrv & Hb & ->)|(_ & HA1 & ->)].
  { exists ss1, rv. split; [done|]. destruct rv; [done|..]; (split; [done|by left]). }
  destruct (record_complete s t M HM ss1 _ epoch seqNum fs f HA1 Hfs Hf Hn2) as (ss' & rv' & E & Hb & HO).
  { destruct Hc as [_ HA']. split; [exists f; split; [apply elem_of_app; right; by left|by destruct Hf as [_ []]]|].
    revert HA'. apply all_there_iff. symmetry. unfold before. rewrite <- app_assoc. apply cover_app. }
  exists ss', rv'. cbn [dtls_records]. rewrite E. cbn [mbind res_bind]. split; [by destruct rv'|].
  rewrite Hd in HO. destruct rv'; [destruct HO as [?|[? _]]; done|..]; (split; [done|]); destruct HO as [?|[_ ?]];
    (by right) || by left.
Qed.


(** A fragment of a message of type [t], in the notation of its sender. *)
Definition fragment_at (t l s o : Z) (d : list Z) : fragHeader * list Z :=
  (mk_fragHeader t l s o (length d), d).


(** A server that has gathered part of a first ClientHello and then takes the
    retried one does not start over: the octets of the two messages mix. *)
Theorem retried_hello_mixes :
  let records := [(0, 1, enc_fragment (fragment_at 1 4 0 0 [1; 2; 3]));
                  (0, 2, enc_fragment (fragment_at 1 4 1 0 [11; 12]));
                  (0, 3, enc_fragment (fragment_at 1 4 1 2 [13; 14]))] in
  match dtls_records hs_idle records with
  | Ok (ss', rv) => rv = HsOk ∧ delivered (upper ss') = [(1, [1; 2; 13; 14])]
  | _ => False
  end.
Proof. vm_compute. done. Qed.
