(* ===== verification/DtlsAck.v ===== *)
(** lib/ssl/dtls13con.c: what DTLS 1.3 remembers of the handshake fragments it
    sent and received, and the ACK messages that report them.

    [unacked_range_correct] is the contract of dtls_NextUnackedRange, which
    decides what a retransmission holds; [ack_round_trip] says that the ACK a
    receiver builds marks exactly the fragments it reports at the sender. *)

From stdpp Require Import base numbers list.
From S2P Require Import Prelude Port SslEncode.

(** ** Remembered fragments *)

Record DTLSHandshakeRecordEntry := mk_entry {
  messageSeq : Z;
  e_offset : Z;
  e_length : Z;
  record : Z;
  acked : bool;
}.

Definition LENGTH_SEQ_NUMBER : Z := 48.
Definition RECORD_SEQ_MAX : Z := 2 ^ 48 - 1.
Definition RECORD_EPOCH_MAX : Z := 2 ^ 16 - 1.
Definition sizeof_entry : Z := 48.

Definition dtls_CombineSequenceNumber (epoch seqNum : Z) : Z :=
  Z.lor (u64 (Z.shiftl epoch LENGTH_SEQ_NUMBER)) seqNum.

Definition dtls13_RememberFragment `{NSPRHeap} (maybeTls13 : bool) (l : list DTLSHandshakeRecordEntry)
    (sequence offset length epoch rec : Z) : sec_res (list DTLSHandshakeRecordEntry) :=
  if negb maybeTls13 then Ok l else
  _ ← PORT_ZAlloc sizeof_entry;
  Ok (l ++ [mk_entry (u16 sequence) offset length (dtls_CombineSequenceNumber epoch rec) false]).

(** ** Unacknowledged ranges *)

(** [if (!entry->acked || msgSeq != entry->messageSeq) continue;] *)
Definition counts (msgSeq : Z) (e : DTLSHandshakeRecordEntry) : bool :=
  acked e && (msgSeq =? messageSeq e).

Fixpoint dtls_IsEmptyMessageAcknowledged (l : list DTLSHandshakeRecordEntry) (msgSeq : Z) : bool :=
  match l with
  | [] => false
  | e :: l => if counts msgSeq e && (e_length e =? 0) then true
              else dtls_IsEmptyMessageAcknowledged l msgSeq
  end.

(** The new start or end, when it moves. *)
Definition dtls_MoveUnackedStartForward (e : DTLSHandshakeRecordEntry) (start : Z) : option Z :=
  if start <? e_offset e then None
  else if start >=? u32 (e_offset e + e_length e) then None
  else Some (u32 (e_offset e + e_length e)).

Definition dtls_MoveUnackedEndBackward (e : DTLSHandshakeRecordEntry) (end_ : Z) : option Z :=
  if end_ >? u32 (e_offset e + e_length e) then None
  else if end_ <=? e_offset e then None
  else Some (e_offset e).

(** One pass over the entries, up to the first that moves the range. *)
Fixpoint unacked_pass (l : list DTLSHandshakeRecordEntry) (msgSeq start end_ : Z) : option (Z * Z) :=
  match l with
  | [] => None
  | e :: l =>
      if counts msgSeq e then
        match dtls_MoveUnackedStartForward e start with
        | Some start => Some (start, end_)
        | None =>
            match dtls_MoveUnackedEndBackward e end_ with
            | Some end_ => Some (start, end_)
            | None => unacked_pass l msgSeq start end_
            end
        end
      else unacked_pass l msgSeq start end_
  end.

(** [while (!done)]; [None] is the end of the fuel. *)
Fixpoint unacked_loop (fuel : nat) (l : list DTLSHandshakeRecordEntry) (msgSeq start end_ : Z)
    : option (option (Z * Z)) :=
  match fuel with
  | O => None
  | S fuel =>
      match unacked_pass l msgSeq start end_ with
      | None => Some (Some (start, end_))
      | Some (start, end_) =>
          if start >=? end_ then Some None else unacked_loop fuel l msgSeq start end_
      end
  end.

(** The outer option is the end of the fuel, the inner one PR_FALSE. *)
Definition dtls_NextUnackedRange (maybeTls13 : bool) (l : list DTLSHandshakeRecordEntry)
    (msgSeq offset len : Z) : option (option (Z * Z)) :=
  if negb maybeTls13 then Some (Some (offset, len))
  else if len =? 0
  then Some (if dtls_IsEmptyMessageAcknowledged l msgSeq then None else Some (offset, len))
  else unacked_loop (Z.to_nat (len - offset)) l msgSeq offset len.

(** ** The octets that are acknowledged *)

Definition entry_ok (e : DTLSHandshakeRecordEntry) : Prop :=
  0 ≤ e_offset e ∧ 0 ≤ e_length e ∧ e_offset e + e_length e < 2 ^ 32.

Definition acked_at (l : list DTLSHandshakeRecordEntry) (msgSeq o : Z) : Prop :=
  ∃ e, e ∈ l ∧ counts msgSeq e = true ∧ e_offset e ≤ o < e_offset e + e_length e.

Lemma acked_at_cons e l msgSeq o :
  acked_at (e :: l) msgSeq o ↔
  counts msgSeq e = true ∧ e_offset e ≤ o < e_offset e + e_length e ∨ acked_at l msgSeq o.
Proof.
  unfold acked_at. split.
  - intros (x & [->|?]%elem_of_cons & ?); [by left|right; by exists x].
  - intros [?|(x & ? & ?)]; [exists e|exists x]; rewrite elem_of_cons; auto.
Qed.

#[global] Instance acked_at_dec l msgSeq o : Decision (acked_at l msgSeq o).
Proof.
  refine (cast_if (decide (Exists (λ e, counts msgSeq e = true ∧ e_offset e ≤ o < e_offset e + e_length e) l)));
    rewrite Exists_exists in *; done.
Defined.

Lemma MoveStart_spec e start :
  entry_ok e →
  match dtls_MoveUnackedStartForward e start with
  | Some s => start < s ∧ ∀ o, start ≤ o < s → e_offset e ≤ o < e_offset e + e_length e
  | None => ¬ e_offset e ≤ start < e_offset e + e_length e
  end.
Proof.
  intros (Ho & Hl & Hs). unfold dtls_MoveUnackedStartForward. rewrite Z.geb_leb, wrap_small by lia.
  destruct (Z.ltb_spec start (e_offset e)); [lia|].
  destruct (Z.leb_spec (e_offset e + e_length e) start); [lia|]. split; [lia|]. intros o ?. lia.
Qed.

Lemma MoveEnd_spec e end_ :
  entry_ok e →
  match dtls_MoveUnackedEndBackward e end_ with
  | Some s => s < end_ ∧ 0 ≤ s ∧ ∀ o, s ≤ o < end_ → e_offset e ≤ o < e_offset e + e_length e
  | None => ¬ e_offset e ≤ end_ - 1 < e_offset e + e_length e
  end.
Proof.
  intros (Ho & Hl & Hs). unfold dtls_MoveUnackedEndBackward. rewrite Z.gtb_ltb, wrap_small by lia.
  destruct (Z.ltb_spec (e_offset e + e_length e) end_); [lia|].
  destruct (Z.leb_spec end_ (e_offset e)); [lia|]. split_and!; [lia|lia|]. intros o ?. lia.
Qed.

(** A pass moves one end of the range over acknowledged octets, or finds that
    the octets at both ends are not acknowledged. *)
Lemma unacked_pass_spec l msgSeq start end_ :
  Forall entry_ok l →
  match unacked_pass l msgSeq start end_ with
  | Some (s, e) =>
      (start < s ∧ e = end_ ∨ s = start ∧ 0 ≤ e < end_) ∧
      (∀ o, start ≤ o < s → acked_at l msgSeq o) ∧ (∀ o, e ≤ o < end_ → acked_at l msgSeq o)
  | None => ¬ acked_at l msgSeq start ∧ ¬ acked_at l msgSeq (end_ - 1)
  end.
Proof.
  induction 1 as [|e l He Hl IH]; cbn [unacked_pass].
  { split; intros (x & Hx%elem_of_nil & _); done. }
  assert (Hin : ∀ o, acked_at l msgSeq o → acked_at (e :: l) msgSeq o) by (intros; apply acked_at_cons; by right).
  destruct (counts msgSeq e) eqn:Hc.
  - pose proof (MoveStart_spec e start He) as HS. pose proof (MoveEnd_spec e end_ He) as HE.
    assert (Hat : ∀ o, e_offset e ≤ o < e_offset e + e_length e → acked_at (e :: l) msgSeq o)
      by (intros; apply acked_at_cons; by left).
    destruct (dtls_MoveUnackedStartForward e start) as [s|].
    { destruct HS as [? HS]. split_and!; [by left| |]; intros o ?; [auto|lia]. }
    destruct (dtls_MoveUnackedEndBackward e end_) as [s|].
    { destruct HE as (? & ? & HE). split_and!; [by right| |]; intros o ?; [lia|auto]. }
    destruct (unacked_pass l msgSeq start end_) as [[s e']|].
    + destruct IH as (? & H1 & H2). split_and!; [done| |]; auto.
    + rewrite !acked_at_cons. tauto.
  - destruct (unacked_pass l msgSeq start end_) as [[s e']|].
    + destruct IH as (? & H1 & H2). split_and!; [done| |]; auto.
    + rewrite !acked_at_cons. split; intros [[? _]|?]; try congruence; tauto.
Qed.

(** What the search returns. *)
Definition unacked_range (l : list DTLSHandshakeRecordEntry) (msgSeq offset len : Z)
    (r : option (Z * Z)) : Prop :=
  match r with
  | Some (start, end_) =>
      offset ≤ start < end_ ∧ end_ ≤ len ∧
      ¬ acked_at l msgSeq start ∧ ¬ acked_at l msgSeq (end_ - 1) ∧
      ∀ o, offset ≤ o < len → ¬ start ≤ o < end_ → acked_at l msgSeq o
  | None => ∀ o, offset ≤ o < len → acked_at l msgSeq o
  end.

Lemma unacked_loop_spec fuel l msgSeq offset len start end_ :
  Forall entry_ok l → (Z.to_nat (end_ - start) ≤ fuel)%nat → offset ≤ start < end_ → end_ ≤ len →
  (∀ o, offset ≤ o < start → acked_at l msgSeq o) → (∀ o, end_ ≤ o < len → acked_at l msgSeq o) →
  ∃ r, unacked_loop fuel l msgSeq start end_ = Some r ∧ unacked_range l msgSeq offset len r.
Proof.
  intros Hl. revert start end_. induction fuel as [|fuel IH]; intros start end_ Hf Hs He HS HE; [lia|].
  cbn [unacked_loop]. pose proof (unacked_pass_spec l msgSeq start end_ Hl) as HP.
  destruct (unacked_pass l msgSeq start end_) as [[s e]|].
  - destruct HP as (Hmove & H1 & H2). rewrite Z.geb_leb.
    assert (HS' : ∀ o, offset ≤ o < s → acked_at l msgSeq o).
    { intros o Ho. destruct (decide (o < start)); [apply HS|apply H1]; lia. }
    assert (HE' : ∀ o, e ≤ o < len → acked_at l msgSeq o).
    { intros o Ho. destruct (decide (o < end_)); [apply H2|apply HE]; lia. }
    destruct (Z.leb_spec e s) as [Hc|Hc].
    + exists None. split; [done|]. intros o Ho. destruct (decide (o < s)); [apply HS'|apply HE']; lia.
    + apply IH; try done; lia.
  - exists (Some (start, end_)). split; [done|]. cbn. split_and!; try lia; try tauto.
    intros o Ho Hn. destruct (decide (o < start)); [apply HS|apply HE]; lia.
Qed.

(** An empty message is acknowledged by an empty fragment. *)
Lemma IsEmptyMessageAcknowledged_spec l msgSeq :
  dtls_IsEmptyMessageAcknowledged l msgSeq = true ↔
  ∃ e, e ∈ l ∧ counts msgSeq e = true ∧ e_length e = 0.
Proof.
  induction l as [|e l IH]; cbn [dtls_IsEmptyMessageAcknowledged].
  { split; [done|]. intros (x & Hx%elem_of_nil & _). done. }
  destruct (counts msgSeq e && (e_length e =? 0)) eqn:Hc.
  - apply andb_true_iff in Hc as [Hc Hz%Z.eqb_eq]. split; [|done]. intros _. exists e. by rewrite elem_of_cons; auto.
  - rewrite IH. split; intros (x & Hx & Hcx & Hz); exists x; (split; [|done]); [by right|].
    apply elem_of_cons in Hx as [->|?]; [|done]. apply andb_false_iff in Hc as [?|?%Z.eqb_neq]; congruence.
Qed.

(** ** ACK messages *)

(** The loop over dtlsRcvdHandshake. *)
Fixpoint append_acks `{NSPRHeap} (b : sslBuffer) (l : list DTLSHandshakeRecordEntry) : sec_res sslBuffer :=
  match l with
  | [] => Ok b
  | e :: l =>
      let epoch := Z.shiftr (record e) 48 in
      let seqNum := Z.land (record e) 0xffffffffffff in
      b ← sslBuffer_AppendNumber b epoch 8;
      b ← sslBuffer_AppendNumber b seqNum 8;
      append_acks b l
  end.

(** The body of the ACK message that dtls13_SendAck sends. *)
Definition ack_message `{NSPRHeap} (l : list DTLSHandshakeRecordEntry) : sec_res sslBuffer :=
  '(b, offset) ← sslBuffer_Skip SSL_BUFFER_EMPTY 2;
  b ← append_acks b l;
  sslBuffer_InsertLength b offset 2.

(** What ssl3_ConsumeHandshakeNumber64 can answer: a library failure, or a
    decoding error, for which an alert is sent. *)
Inductive consumed :=
| Consumed (num : Z) (b : list Z)
| ConsumeLibraryFailure
| ConsumeDecodeError.

Definition ssl3_ConsumeHandshakeNumber64 (bytes : Z) (b : list Z) : consumed :=
  if bytes >? 8 then ConsumeLibraryFailure
  else if bytes >? Z.of_nat (length b) then ConsumeDecodeError
  else Consumed (fold_left (fun num x => u64 (u64 (Z.shiftl num 8) + x)) (take (Z.to_nat bytes) b) 0)
         (drop (Z.to_nat bytes) b).

Definition ssl3_ConsumeHandshakeNumber (bytes : Z) (b : list Z) : consumed :=
  if bytes >? 4 then ConsumeLibraryFailure else
  match ssl3_ConsumeHandshakeNumber64 bytes b with
  | Consumed num b => Consumed (Z.land num 0xffffffff) b
  | r => r
  end.

(** Installing new write keys is tls13_UpdateTrafficKeys. *)
Class KeyUpdater (W : Type) := tls13_UpdateTrafficKeys : W → W * bool.

Section HandleAck.
  Context {W : Type} `{KeyUpdater W}.

(** The part of the state an ACK changes: the fragments that were sent, and
    the key update that waits for its acknowledgement. *)
Record ackState := mk_ackState {
  sentHandshake : list DTLSHandshakeRecordEntry;
  isKeyUpdateInProgress : bool;
  dtlsHandhakeKeyUpdateMessage : Z;
  ack_world : W;
}.

Definition dtls13_maybeProcessKeyUpdateAck (inProgress : bool) (message : Z) (w : W) (entrySeq : Z)
    : bool * W * bool :=
  if inProgress && (entrySeq =? message) then
    let '(w, ok) := tls13_UpdateTrafficKeys w in
    if ok then (false, w, true) else (inProgress, w, false)
  else (inProgress, w, true).

Definition set_acked (e : DTLSHandshakeRecordEntry) : DTLSHandshakeRecordEntry :=
  mk_entry (messageSeq e) (e_offset e) (e_length e) (record e) true.

(** The loop over dtlsSentHandshake for one record number. *)
Fixpoint mark_record (seq message : Z) (l : list DTLSHandshakeRecordEntry) (ku : bool) (w : W)
    : list DTLSHandshakeRecordEntry * bool * W * bool :=
  match l with
  | [] => ([], ku, w, true)
  | e :: l =>
      if record e =? seq then
        let '(ku, w, ok) := dtls13_maybeProcessKeyUpdateAck ku message w (messageSeq e) in
        if ok then
          let '(l, ku, w, ok) := mark_record seq message l ku w in (set_acked e :: l, ku, w, ok)
        else (set_acked e :: l, ku, w, false)
      else let '(l, ku, w, ok) := mark_record seq message l ku w in (e :: l, ku, w, ok)
  end.

(** How the ACK's record numbers end: all handled, a key update that failed,
    or octets that do not parse. *)
Inductive ack_end := AckDone | AckKeyFailure | AckMalformed (alert : bool).

(** [while (l > 0)]; a turn consumes 16 octets. *)
Fixpoint ack_loop (fuel : nat) (b : list Z) (st : ackState) : option (ackState * ack_end) :=
  match fuel with
  | O => None
  | S fuel =>
      match b with
      | [] => Some (st, AckDone)
      | _ =>
          match ssl3_ConsumeHandshakeNumber64 8 b with
          | Consumed epoch b =>
              match ssl3_ConsumeHandshakeNumber64 8 b with
              | Consumed seq b =>
                  if epoch >? RECORD_EPOCH_MAX then ack_loop fuel b st
                  else if seq >? RECORD_SEQ_MAX then ack_loop fuel b st
                  else
                    let seq := dtls_CombineSequenceNumber epoch seq in
                    let '(l, ku, w, ok) :=
                      mark_record seq (dtlsHandhakeKeyUpdateMessage st) (sentHandshake st)
                        (isKeyUpdateInProgress st) (ack_world st) in
                    let st := mk_ackState l ku (dtlsHandhakeKeyUpdateMessage st) w in
                    if ok then ack_loop fuel b st else Some (st, AckKeyFailure)
              | ConsumeDecodeError => Some (st, AckMalformed true)
              | ConsumeLibraryFailure => Some (st, AckMalformed false)
              end
          | ConsumeDecodeError => Some (st, AckMalformed true)
          | ConsumeLibraryFailure => Some (st, AckMalformed false)
          end
      end
  end.

(** dtls13_HandleAck up to the flush of the flight. *)
Definition ack_records (databuf : list Z) (st : ackState) : option (ackState * ack_end) :=
  match ssl3_ConsumeHandshakeNumber 2 databuf with
  | Consumed length b =>
      if negb (length =? Z.of_nat (List.length b)) then Some (st, AckMalformed false)
      else ack_loop (S (List.length b)) b st
  | ConsumeDecodeError => Some (st, AckMalformed true)
  | ConsumeLibraryFailure => Some (st, AckMalformed false)
  end.

(** ** Reading numbers *)

Lemma consume_fold bs acc k :
  bytes bs → 0 ≤ acc < 256 ^ k → 0 ≤ k → k + length bs ≤ 8 →
  fold_left (fun num x => u64 (u64 (Z.shiftl num 8) + x)) bs acc = acc * 256 ^ length bs + be_val bs.
Proof.
  revert acc k. induction bs as [|b bs IH]; intros acc k Hb Ha Hk Hl.
  { cbn. change (256 ^ 0) with 1. unfold be_val. cbn. lia. }
  apply Forall_cons_1 in Hb as [Hbb Hb]. unfold is_byte in Hbb. cbn [fold_left length] in *.
  assert (Hp : 256 ^ (k + 1) ≤ 2 ^ 64).
  { change (2 ^ 64) with (256 ^ 8). apply Z.pow_le_mono_r; lia. }
  rewrite Z.pow_add_r in Hp by lia. change (256 ^ 1) with 256 in Hp.
  rewrite Z.shiftl_mul_pow2 by lia. change (2 ^ 8) with 256.
  rewrite (wrap_small 64 (acc * 256)), wrap_small by lia.
  rewrite (IH (acc * 256 + b) (k + 1)); [|done| |lia|lia].
  - change (b :: bs) with ([b] ++ bs). rewrite be_val_app.
    replace (be_val [b]) with b by (unfold be_val; cbn; lia).
    replace (Z.of_nat (S (length bs))) with (1 + Z.of_nat (length bs)) by lia.
    rewrite Z.pow_add_r by lia. change (256 ^ 1) with 256. lia.
  - rewrite Z.pow_add_r by lia. change (256 ^ 1) with 256. lia.
Qed.

Lemma consume_number n v rest :
  (n ≤ 8)%nat → 0 ≤ v < 256 ^ n →
  ssl3_ConsumeHandshakeNumber64 n (be_bytes n v ++ rest) = Consumed v rest.
Proof.
  intros Hn Hv. unfold ssl3_ConsumeHandshakeNumber64.
  rewrite !Z.gtb_ltb, (proj2 (Z.ltb_ge _ _)) by lia.
  rewrite (proj2 (Z.ltb_ge _ _)) by (rewrite length_app, length_be_bytes; lia).
  rewrite Nat2Z.id, take_app_length', drop_app_length' by (by rewrite length_be_bytes).
  rewrite (consume_fold _ 0 0), be_val_be_bytes, Z.mod_small; try done.
  - apply be_bytes_bytes.
  - rewrite length_be_bytes. lia.
Qed.

(** ** What an ACK marks *)

(** The entries with the record numbers [rs] marked. *)
Definition mark_all (rs : list Z) (l : list DTLSHandshakeRecordEntry) : list DTLSHandshakeRecordEntry :=
  (λ e, if decide (record e ∈ rs) then set_acked e else e) <$> l.

Lemma mark_all_nil l : mark_all [] l = l.
Proof.
  induction l as [|e l IH]; [done|]. unfold mark_all in *. cbn [fmap list_fmap]. rewrite IH.
  case_decide as Hd; [by apply elem_of_nil in Hd|done].
Qed.

Definition updates_fail : Prop := ∃ w : W, (tls13_UpdateTrafficKeys w).2 = false.

Lemma mark_record_spec seq message l ku w :
  let '(l', ku', w', ok) := mark_record seq message l ku w in
  if ok then l' = mark_all [seq] l ∧ (ku = false → ku' = false)
  else ku = true ∧ updates_fail.
Proof.
  revert ku w. induction l as [|e l IH]; intros ku w; cbn [mark_record]; [done|].
  assert (Hm : (if decide (record e ∈ [seq]) then set_acked e else e) =
               (if record e =? seq then set_acked e else e)).
  { destruct (Z.eqb_spec (record e) seq); case_decide as Hd; rewrite list_elem_of_singleton in Hd; done. }
  unfold mark_all in *. cbn [fmap list_fmap]. rewrite Hm.
  destruct (record e =? seq).
  - unfold dtls13_maybeProcessKeyUpdateAck. destruct (ku && (messageSeq e =? message)) eqn:Hk.
    + apply andb_true_iff in Hk as [-> _].
      assert (Hu : (tls13_UpdateTrafficKeys w).2 = false → updates_fail) by (intros; by exists w).
      destruct (tls13_UpdateTrafficKeys w) as [w1 [|]]; [|by split; [|apply Hu]].
      specialize (IH false w1). destruct (mark_record seq message l false w1) as [[[l' ku'] w'] [|]].
      * destruct IH as [-> ?]. done.
      * by destruct IH.
    + specialize (IH ku w). destruct (mark_record seq message l ku w) as [[[l' ku'] w'] [|]]; [|done].
      by destruct IH as [-> ?].
  - specialize (IH ku w). destruct (mark_record seq message l ku w) as [[[l' ku'] w'] [|]]; [|done].
    by destruct IH as [-> ?].
Qed.

Lemma mark_all_app rs1 rs2 l : mark_all rs2 (mark_all rs1 l) = mark_all (rs1 ++ rs2) l.
Proof.
  unfold mark_all. rewrite <- list_fmap_compose. apply list_fmap_ext. intros i e _. cbn.
  destruct (decide (record e ∈ rs1)), (decide (record e ∈ rs1 ++ rs2)) as [Hd|Hd], (decide (record _ ∈ rs2));
    rewrite ?elem_of_app in Hd; cbn in *; try done; tauto.
Qed.

(** A record number, as the epoch and sequence number an ACK has. *)
Definition enc_ack (r : Z) : list Z := be_bytes 8 (Z.shiftr r 48) ++ be_bytes 8 (Z.land r 0xffffffffffff).

Lemma combine_split r : 0 ≤ r < 2 ^ 64 →
  dtls_CombineSequenceNumber (Z.shiftr r 48) (Z.land r 0xffffffffffff) = r ∧
  0 ≤ Z.shiftr r 48 ≤ RECORD_EPOCH_MAX ∧ 0 ≤ Z.land r 0xffffffffffff ≤ RECORD_SEQ_MAX.
Proof.
  intros Hr. unfold dtls_CombineSequenceNumber, LENGTH_SEQ_NUMBER, RECORD_EPOCH_MAX, RECORD_SEQ_MAX.
  change 0xffffffffffff with (2 ^ 48 - 1). rewrite land_ones_mod, Z.shiftr_div_pow2 by lia.
  assert (Hd : 0 ≤ r / 2 ^ 48 < 2 ^ 16).
  { split; [apply Z.div_pos; lia|]. apply Z.div_lt_upper_bound; lia. }
  pose proof (Z.mod_pos_bound r (2 ^ 48) ltac:(lia)).
  rewrite wrap_small by (rewrite Z.shiftl_mul_pow2; lia). rewrite lor_shift_add by lia.
  pose proof (Z.div_mod r (2 ^ 48) ltac:(lia)). lia.
Qed.

Lemma length_enc_acks rs : length (concat (enc_ack <$> rs)) = (16 * length rs)%nat.
Proof.
  induction rs as [|r rs IH]; [done|]. cbn [fmap list_fmap concat length]. unfold enc_ack at 1.
  rewrite !length_app, !length_be_bytes, IH. lia.
Qed.

Lemma ack_loop_spec rs fuel st :
  Forall (λ r, 0 ≤ r < 2 ^ 64) rs → (length rs < fuel)%nat →
  ∃ st' e, ack_loop fuel (concat (enc_ack <$> rs)) st = Some (st', e) ∧
    (e = AckDone ∧ sentHandshake st' = mark_all rs (sentHandshake st) ∨
     e = AckKeyFailure ∧ isKeyUpdateInProgress st = true ∧ updates_fail).
Proof.
  revert fuel st. induction rs as [|r rs IH]; intros fuel st Hr Hf; (destruct fuel as [|fuel]; [cbn in Hf; lia|]).
  { exists st, AckDone. split; [done|]. left. by rewrite mark_all_nil. }
  apply Forall_cons_1 in Hr as [Hr1 Hr]. destruct (combine_split r Hr1) as (Hc & He & Hs).
  cbn [fmap list_fmap concat ack_loop].
  destruct (enc_ack r ++ concat (enc_ack <$> rs)) as [|x l] eqn:E.
  { apply (f_equal length) in E. rewrite length_app in E. unfold enc_ack in E. rewrite length_app, !length_be_bytes in E. cbn in E. lia. }
  rewrite <- E. unfold enc_ack at 1. rewrite <- app_assoc.
  unfold RECORD_EPOCH_MAX, RECORD_SEQ_MAX in *.
  change 8 with (Z.of_nat 8) at 1. rewrite consume_number by (change (256 ^ 8%nat) with (2 ^ 64); lia).
  change 8 with (Z.of_nat 8) at 1. rewrite consume_number by (change (256 ^ 8%nat) with (2 ^ 64); lia).
  rewrite !Z.gtb_ltb, !(proj2 (Z.ltb_ge _ _)) by lia. rewrite Hc.
  pose proof (mark_record_spec r (dtlsHandhakeKeyUpdateMessage st) (sentHandshake st)
                (isKeyUpdateInProgress st) (ack_world st)) as HM.
  destruct (mark_record _ _ _ _ _) as [[[l' ku'] w'] [|]].
  - destruct HM as [-> Hku].
    destruct (IH fuel (mk_ackState (mark_all [r] (sentHandshake st)) ku' (dtlsHandhakeKeyUpdateMessage st) w') Hr)
      as (st' & e & Eq & HO); [cbn in Hf; lia|].
    exists st', e. split; [done|]. cbn in HO. destruct HO as [[-> ->]|(-> & ? & ?)].
    + left. split; [done|]. apply (mark_all_app [r] rs).
    + right. split_and!; try done. destruct (isKeyUpdateInProgress st); [done|]. by rewrite Hku in *.
  - eexists _, _. split; [done|]. right. tauto.
Qed.
End HandleAck.

(** ** What an ACK holds *)

Lemma append_acks_spec `{NSPRHeap} l b :
  wf b → fixed b = false → len b + 16 * length l < 2 ^ 32 →
  match append_acks b l with
  | Ok b' => wf b' ∧ fixed b' = false ∧ contents b' = contents b ++ concat (enc_ack <$> (record <$> l))
  | Err e => e = SEC_ERROR_NO_MEMORY
  | UB => False
  end.
Proof.
  revert b. induction l as [|e l IH]; intros b Hw Hf Hl; cbn [append_acks fmap list_fmap concat length] in *.
  { by rewrite app_nil_r. }
  assert (Hstep : ∀ b v, wf b → fixed b = false → len b + 8 < 2 ^ 32 →
    match sslBuffer_AppendNumber b v 8 with
    | Ok b' => wf b' ∧ fixed b' = false ∧ contents b' = contents b ++ be_bytes 8 v ∧ len b' = len b + 8
    | Err e => e = SEC_ERROR_NO_MEMORY
    | UB => False
    end).
  { clear. intros b v Hw Hf Hl. pose proof (sslBuffer_AppendNumber_appends b v 8 Hw ltac:(lia) ltac:(lia)) as HA.
    unfold appends in HA. destruct (sslBuffer_AppendNumber b v 8) as [b'|er|]; [| |done].
    - destruct HA as (Hw' & Hc & Hf' & _). split_and!; [done|congruence|done|].
      pose proof (length_contents _ Hw') as Hx. rewrite Hc, length_app, (length_contents _ Hw), length_be_bytes in Hx.
      destruct Hw, Hw'. lia.
    - destruct HA as [[? _]|(_ & ? & _)]; [congruence|done]. }
  pose proof (Hstep b (Z.shiftr (record e) 48) Hw Hf ltac:(lia)) as H1.
  destruct (sslBuffer_AppendNumber b _ 8) as [b1|er|]; cbn [mbind res_bind]; [|done|done].
  destruct H1 as (Hw1 & Hf1 & Hc1 & Hl1).
  pose proof (Hstep b1 (Z.land (record e) 0xffffffffffff) Hw1 Hf1 ltac:(lia)) as H2.
  destruct (sslBuffer_AppendNumber b1 _ 8) as [b2|er|]; cbn [mbind res_bind]; [|done|done].
  destruct H2 as (Hw2 & Hf2 & Hc2 & Hl2).
  specialize (IH b2 Hw2 Hf2 ltac:(lia)). destruct (append_acks b2 l); [|done|done].
  destruct IH as (? & ? & ->). split_and!; try done.
  rewrite Hc2, Hc1. unfold enc_ack at 2. by rewrite <- !app_assoc.
Qed.

Lemma ack_message_spec `{NSPRHeap} l :
  length l < 2 ^ 27 →
  match ack_message l with
  | Ok b => 16 * length l < 2 ^ 16 ∧
            contents b = be_bytes 2 (16 * length l) ++ concat (enc_ack <$> (record <$> l))
  | Err e => e = SEC_ERROR_NO_MEMORY ∨ e = SEC_ERROR_LIBRARY_FAILURE ∧ 2 ^ 16 ≤ 16 * length l
  | UB => False
  end.
Proof.
  intros Hl. unfold ack_message.
  pose proof (sslBuffer_Skip_spec SSL_BUFFER_EMPTY 2 SSL_BUFFER_EMPTY_wf ltac:(lia) ltac:(cbn; lia)) as HS.
  destruct (sslBuffer_Skip SSL_BUFFER_EMPTY 2) as [[b at_]|e|]; cbn [mbind res_bind]; [| |done].
  2: { destruct HS as [[? _]|(_ & ? & _)]; [done|by left]. }
  destruct HS as (Hw & -> & Hf & hole & Hh & Hc). cbn in Hf.
  change (contents SSL_BUFFER_EMPTY) with (@nil Z) in Hc. cbn [app] in Hc.
  assert (Hlb : len b = 2).
  { pose proof (length_contents _ Hw) as Hx. rewrite Hc, Hh in Hx. destruct Hw. lia. }
  pose proof (append_acks_spec l b Hw Hf ltac:(lia)) as HA.
  destruct (append_acks b l) as [b1|e|]; cbn [mbind res_bind]; [|by left|done].
  destruct HA as (Hw1 & Hf1 & Hc1). rewrite Hc in Hc1.
  assert (Hlc : Z.of_nat (length (concat (enc_ack <$> (record <$> l)))) = 16 * length l).
  { rewrite length_enc_acks, length_fmap. lia. }
  change (len SSL_BUFFER_EMPTY) with 0. destruct (decide (16 * length l < 2 ^ 16)) as [Hfit|Hlong].
  - destruct (sslBuffer_InsertLength_fills b1 [] hole (concat (enc_ack <$> (record <$> l))) 2)
      as (b' & E & _ & Hc'); try done; [rewrite Hlc; exact Hfit|].
    change (Z.of_nat (length (@nil Z))) with 0 in E. rewrite E. split; [done|]. by rewrite Hc', Hlc.
  - assert (Hlb1 : len b1 = 2 + 16 * length l).
    { pose proof (length_contents _ Hw1) as Hx. rewrite Hc1, length_app, Hh in Hx. destruct Hw1. lia. }
    unfold sslBuffer_InsertLength. rewrite shl64_Ok by lia. cbn [mbind res_bind].
    rewrite (wrap_small 32 (0 + 2)), (wrap_small 32) by lia.
    destruct (Z.geb_spec (len b1 - (0 + 2)) (2 ^ (8 * 2))) as [|Hx]; [right; split; [done|lia]|].
    change (2 ^ (8 * 2)) with (2 ^ 16) in Hx. lia.
Qed.

(** [C17] The search for octets to retransmit.  It stops, and returns PR_FALSE
    exactly when every octet from [offset] on is acknowledged.  Otherwise it
    returns a range whose first and last octets are not acknowledged, outside
    which everything from [offset] on is; an empty message is acknowledged by
    an acknowledged empty fragment. *)
Theorem unacked_range_correct l msgSeq offset len :
  Forall entry_ok l → 0 ≤ offset < len ∨ offset = 0 ∧ len = 0 →
  ∃ r, dtls_NextUnackedRange true l msgSeq offset len = Some r ∧
    if len =? 0
    then (r = None ∧ (∃ e, e ∈ l ∧ counts msgSeq e = true ∧ e_length e = 0)) ∨
         (r = Some (0, 0) ∧ ¬ ∃ e, e ∈ l ∧ counts msgSeq e = true ∧ e_length e = 0)
    else unacked_range l msgSeq offset len r ∧
         (r = None ↔ ∀ o, offset ≤ o < len → acked_at l msgSeq o).
Proof.
  intros Hl Hr. unfold dtls_NextUnackedRange. cbn [negb].
  destruct (Z.eqb_spec len 0) as [E|Hne].
  - destruct Hr as [?|[-> ->]]; [lia|]. eexists. split; [done|].
    pose proof (IsEmptyMessageAcknowledged_spec l msgSeq) as HI.
    destruct (dtls_IsEmptyMessageAcknowledged l msgSeq); [left; split; [done|by apply HI]|right].
    split; [done|]. intros HE. by apply HI in HE.
  - destruct Hr as [Hr|[? ?]]; [|lia].
    destruct (unacked_loop_spec (Z.to_nat (len - offset)) l msgSeq offset len offset len)
      as (r & E & HR); try done; try lia; [intros o ?; lia..|].
    exists r. split; [done|]. split; [done|]. destruct r as [[start end_]|]; [|done].
    split; [done|]. intros HA. destruct HR as (? & ? & Hn & _). destruct Hn. apply HA. lia.
Qed.

Lemma unacked_range_correct_witness :
  let l := [mk_entry 3 0 10 1 true; mk_entry 3 10 10 2 false; mk_entry 3 20 10 3 true; mk_entry 4 10 10 9 true] in
  (∃ r, dtls_NextUnackedRange true l 3 0 30 = Some r ∧
     if 30 =? 0
     then (r = None ∧ (∃ e, e ∈ l ∧ counts 3 e = true ∧ e_length e = 0)) ∨
          (r = Some (0, 0) ∧ ¬ ∃ e, e ∈ l ∧ counts 3 e = true ∧ e_length e = 0)
     else unacked_range l 3 0 30 r ∧ (r = None ↔ ∀ o, 0 ≤ o < 30 → acked_at l 3 o)) ∧
  dtls_NextUnackedRange true l 3 0 30 = Some (Some (10, 20)).
Proof.
  intros l. split; [|reflexivity]. apply (unacked_range_correct l 3 0 30); [|left; lia].
  repeat (apply Forall_cons_2; [unfold entry_ok; cbn; lia|]). apply Forall_nil_2.
Defined.

(** The range may hold acknowledged octets between unacknowledged ones. *)
Example range_is_not_contiguous :
  let l := [mk_entry 3 10 10 2 true] in
  dtls_NextUnackedRange true l 3 0 30 = Some (Some (0, 30)) ∧ acked_at l 3 15.
Proof.
  split; [reflexivity|]. exists (mk_entry 3 10 10 2 true). split; [by left|]. split; [done|]. cbn. lia.
Qed.

(** [C18] ACK messages round trip.  The message a receiver builds from the
    records it remembers, handled by the sender, marks exactly the fragments
    that were sent in one of those records; nothing else changes, unless
    installing the keys of an acknowledged key update fails.  Building it
    fails only for want of memory or when more than 4095 records wait. *)
Theorem ack_round_trip {W} `{KeyUpdater W} `{NSPRHeap} (rcvd : list DTLSHandshakeRecordEntry) (st : ackState (W:=W)) :
  Forall (λ e, 0 ≤ record e < 2 ^ 64) rcvd → length rcvd < 2 ^ 27 →
  match ack_message rcvd with
  | Ok b =>
      ∃ st' e, ack_records (contents b) st = Some (st', e) ∧
        (e = AckDone ∧ sentHandshake st' = mark_all (record <$> rcvd) (sentHandshake st) ∨
         e = AckKeyFailure ∧ isKeyUpdateInProgress st = true ∧ updates_fail (W:=W))
  | Err e => e = SEC_ERROR_NO_MEMORY ∨ e = SEC_ERROR_LIBRARY_FAILURE ∧ 4095 < length rcvd
  | UB => False
  end.
Proof.
  intros Hr Hl. pose proof (ack_message_spec rcvd Hl) as HM.
  destruct (ack_message rcvd) as [b|e|]; [| |done].
  2: { destruct HM as [?|[? ?]]; [by left|right; split; [done|lia]]. }
  destruct HM as [Hfit ->]. unfold ack_records, ssl3_ConsumeHandshakeNumber.
  change (2 >? 4) with false. cbn match.
  pose proof (consume_number 2 (16 * length rcvd) (concat (enc_ack <$> (record <$> rcvd)))) as Hc.
  change (Z.of_nat 2) with 2 in Hc. rewrite Hc by (change (256 ^ 2) with (2 ^ 16); lia).
  change 0xffffffff with (2 ^ 32 - 1). rewrite land_ones_mod, Z.mod_small by lia.
  rewrite length_enc_acks, length_fmap, (proj2 (Z.eqb_eq _ _)) by lia. cbn [negb].
  apply ack_loop_spec; [by apply Forall_fmap|]. rewrite length_fmap. lia.
Qed.

#[global] Instance no_keys : KeyUpdater unit := λ w, (w, true).

Lemma ack_round_trip_witness :
  let rcvd := [mk_entry 0 0 0 (2 ^ 49 + 7) false; mk_entry 0 0 0 (2 ^ 49 + 9) false] in
  let st := mk_ackState [mk_entry 1 0 5 (2 ^ 49 + 7) false; mk_entry 1 5 5 (2 ^ 49 + 8) false] false 0 tt in
  match ack_message rcvd with
  | Ok b =>
      ∃ st' e, ack_records (contents b) st = Some (st', e) ∧
        (e = AckDone ∧ sentHandshake st' = mark_all (record <$> rcvd) (sentHandshake st) ∨
         e = AckKeyFailure ∧ isKeyUpdateInProgress st = true ∧ updates_fail (W:=unit))
  | Err e => e = SEC_ERROR_NO_MEMORY ∨ e = SEC_ERROR_LIBRARY_FAILURE ∧ 4095 < length rcvd
  | UB => False
  end.
Proof.
  intros rcvd st. apply (ack_round_trip rcvd st); [|cbn; lia].
  repeat (apply Forall_cons_2; [cbn; lia|]). apply Forall_nil_2.
Defined.
