(* ===== verification/DtlsFlight.v ===== *)
(** lib/ssl/dtlscon.c and dtls13con.c: the sending side of the DTLS handshake.

    Messages queue up in lastMessageFlight; a flight is sent by cutting each
    message into fragments that fit the MTU, skipping what the peer has
    acknowledged; timers send it again.  Building and writing records is the
    record layer's business: the class [DtlsOut] says what is asked of it.

    [FragmentHandshake_correct] is the contract of dtls_FragmentHandshake;
    [flight_reaches_peer] puts it together with DtlsReassembly.v. *)

From stdpp Require Import base numbers list.
From S2P Require Import Prelude Port SslEncode HandshakeIn DtlsReassembly DtlsAck.

(** ** State *)

(** The fields of a cipher spec that do not change; [spec_id] stands for the
    pointer. *)
Record ssl3CipherSpec := mk_spec { spec_id : Z; spec_epoch : Z; recordSizeLimit : Z }.

Record DTLSQueuedMessage := mk_queued {
  cwSpec : ssl3CipherSpec;
  q_type : Z;
  q_data : list Z;
  q_len : Z;
}.

Inductive DTLSTimerCb := RetransmitTimerExpiredCb | FinishedTimerCb | SendAckCb | HolddownTimerCb.
Record dtlsTimer := mk_timer { cb : option DTLSTimerCb; started : Z; timeout : Z }.

(** What the flight asks of the record layer, the clock and the handshake.
    [out_records] is the records built so far: cipher spec, sequence number,
    content type and plaintext.  Writing them out clears pendingBuf or fails. *)
Class DtlsOut (W : Type) := {
  ssl3_SendRecord : W → option ssl3CipherSpec → Z → list Z → W * Z;
  ssl_SendSavedWriteData : W → W * Z;
  pendingBuf_len : W → Z;
  nextSeqNum : W → ssl3CipherSpec → Z;
  PR_IntervalNow : W → Z;
  PR_MillisecondsToInterval : Z → Z;
  send_alert : W → W;
  release_handshake_keys : W → W;
  out_records : W → list (ssl3CipherSpec * Z * Z * list Z);
  SendRecord_out w sp ct d w' : ssl3_SendRecord w (Some sp) ct d = (w', Z.of_nat (length d)) →
    out_records w' = out_records w ++ [(sp, nextSeqNum w sp, ct, d)];
  SendSaved_out w : out_records (ssl_SendSavedWriteData w).1 = out_records w;
  pending_range w : 0 ≤ pendingBuf_len w < 2 ^ 31;
  nextSeqNum_range w sp : 0 ≤ nextSeqNum w sp ≤ RECORD_SEQ_MAX;
}.

Record flight (W : Type) := mk_flight {
  lastMessageFlight : list DTLSQueuedMessage;
  dtlsSentHandshake : list DTLSHandshakeRecordEntry;
  dtlsRcvdHandshake : list DTLSHandshakeRecordEntry;
  mtu : Z;
  maxMessageSent : Z;
  rtTimer : dtlsTimer;
  ackTimer : dtlsTimer;
  hdTimer : dtlsTimer;
  rtRetries : Z;
  fl_tls13 : bool;
  world : W;
}.
Arguments mk_flight {W}. Arguments lastMessageFlight {W}. Arguments dtlsSentHandshake {W}.
Arguments dtlsRcvdHandshake {W}. Arguments mtu {W}. Arguments maxMessageSent {W}.
Arguments rtTimer {W}. Arguments ackTimer {W}. Arguments hdTimer {W}. Arguments rtRetries {W}.
Arguments fl_tls13 {W}. Arguments world {W}.

Definition DTLS_HS_HDR_LEN : Z := 12.
Definition DTLS_RECORD_HEADER_LENGTH : Z := 13.
Definition DTLS_MAX_EXPANSION : Z := DTLS_RECORD_HEADER_LENGTH + 16 + 16 + 32.
Definition DTLS_MIN_FRAGMENT : Z := DTLS_HS_HDR_LEN + 1 + DTLS_MAX_EXPANSION.
Definition DTLS_MAX_MTU : Z := 1500.
Definition DTLS_RETRANSMIT_INITIAL_MS : Z := 50.
Definition DTLS_RETRANSMIT_MAX_MS : Z := 10000.
Definition DTLS_RETRANSMIT_FINISHED_MS : Z := 30000.
Definition ssl_ct_handshake : Z := 22.
Definition ssl_ct_ack : Z := 26.
Definition COMMON_MTU_VALUES : list Z := [1500 - 28; 1280 - 28; 576 - 28; 256 - 28].
Definition sizeof_queued : Z := 48.

Section DtlsFlight.
  Context {W : Type} `{DtlsOut W} `{NSPRHeap}.
  Implicit Types ss : flight W.

Definition set_flight ss (l : list DTLSQueuedMessage) : flight W :=
  mk_flight l (dtlsSentHandshake ss) (dtlsRcvdHandshake ss) (mtu ss) (maxMessageSent ss) (rtTimer ss)
    (ackTimer ss) (hdTimer ss) (rtRetries ss) (fl_tls13 ss) (world ss).
Definition set_sent ss (l : list DTLSHandshakeRecordEntry) : flight W :=
  mk_flight (lastMessageFlight ss) l (dtlsRcvdHandshake ss) (mtu ss) (maxMessageSent ss) (rtTimer ss)
    (ackTimer ss) (hdTimer ss) (rtRetries ss) (fl_tls13 ss) (world ss).
Definition set_rcvd ss (l : list DTLSHandshakeRecordEntry) : flight W :=
  mk_flight (lastMessageFlight ss) (dtlsSentHandshake ss) l (mtu ss) (maxMessageSent ss) (rtTimer ss)
    (ackTimer ss) (hdTimer ss) (rtRetries ss) (fl_tls13 ss) (world ss).
Definition set_mtu ss (m : Z) : flight W :=
  mk_flight (lastMessageFlight ss) (dtlsSentHandshake ss) (dtlsRcvdHandshake ss) m (maxMessageSent ss)
    (rtTimer ss) (ackTimer ss) (hdTimer ss) (rtRetries ss) (fl_tls13 ss) (world ss).
Definition set_max ss (m : Z) : flight W :=
  mk_flight (lastMessageFlight ss) (dtlsSentHandshake ss) (dtlsRcvdHandshake ss) (mtu ss) m
    (rtTimer ss) (ackTimer ss) (hdTimer ss) (rtRetries ss) (fl_tls13 ss) (world ss).
Definition set_rt ss (t : dtlsTimer) (r : Z) : flight W :=
  mk_flight (lastMessageFlight ss) (dtlsSentHandshake ss) (dtlsRcvdHandshake ss) (mtu ss) (maxMessageSent ss)
    t (ackTimer ss) (hdTimer ss) r (fl_tls13 ss) (world ss).
Definition set_ack ss (t : dtlsTimer) : flight W :=
  mk_flight (lastMessageFlight ss) (dtlsSentHandshake ss) (dtlsRcvdHandshake ss) (mtu ss) (maxMessageSent ss)
    (rtTimer ss) t (hdTimer ss) (rtRetries ss) (fl_tls13 ss) (world ss).
Definition set_hd ss (t : dtlsTimer) : flight W :=
  mk_flight (lastMessageFlight ss) (dtlsSentHandshake ss) (dtlsRcvdHandshake ss) (mtu ss) (maxMessageSent ss)
    (rtTimer ss) (ackTimer ss) t (rtRetries ss) (fl_tls13 ss) (world ss).
Definition set_world ss (w : W) : flight W :=
  mk_flight (lastMessageFlight ss) (dtlsSentHandshake ss) (dtlsRcvdHandshake ss) (mtu ss) (maxMessageSent ss)
    (rtTimer ss) (ackTimer ss) (hdTimer ss) (rtRetries ss) (fl_tls13 ss) w.

(** ** Queueing messages *)

Definition dtls_AllocQueuedMessage (spec : ssl3CipherSpec) (ct : Z) (data : list Z) (len : Z)
    : sec_res DTLSQueuedMessage :=
  _ ← PORT_ZAlloc sizeof_queued;
  m ← PORT_Alloc len;
  src ← mem_read data 0 (Z.to_nat len);
  m ← mem_write m 0 src;
  Ok (mk_queued spec ct m (u16 len)).

(** The state and SECSuccess or SECFailure. *)
Definition dtls_QueueMessage ss (spec : ssl3CipherSpec) (ct : Z) (pIn : list Z) (nIn : Z)
    : mem_res (flight W * bool) :=
  match dtls_AllocQueuedMessage spec ct pIn nIn with
  | Ok msg => Ok (set_flight ss (lastMessageFlight ss ++ [msg]), true)
  | Err _ => Ok (ss, false)
  | UB => UB
  end.

(** The result holds the emptied sendBuf. *)
Definition dtls_StageHandshakeMessage ss (spec : ssl3CipherSpec) (sendBuf : sslBuffer)
    : mem_res (flight W * sslBuffer * bool) :=
  match buf sendBuf with
  | Some m =>
      if len sendBuf =? 0 then Ok (ss, sendBuf, true) else
      '(ss, rv) ← dtls_QueueMessage ss spec ssl_ct_handshake m (len sendBuf);
      Ok (ss, set_len sendBuf 0, rv)
  | None => Ok (ss, sendBuf, true)
  end.

(** ** Fragments *)

(** Flushing pendingBuf and keeping the largest datagram sent. *)
Definition dtls_SendSavedWriteData ss : flight W * bool :=
  let '(w, sent) := ssl_SendSavedWriteData (world ss) in
  let ss := set_world ss w in
  if sent <? 0 then (ss, false)
  else if pendingBuf_len w >? 0 then (ss, false)
  else ((if sent >? maxMessageSent ss then set_max ss (u16 sent) else ss), true).

Definition dtls_SendFragment ss (msg : DTLSQueuedMessage) (data : list Z) : flight W * bool :=
  let '(w, sent) := ssl3_SendRecord (world ss) (Some (cwSpec msg)) (q_type msg) data in
  let ss := set_world ss w in
  if negb (sent =? Z.of_nat (length data)) then (ss, false)
  else if mtu ss <? u32 (pendingBuf_len w + DTLS_MIN_FRAGMENT) then dtls_SendSavedWriteData ss
  else (ss, true).

(** How much of [start, end_) goes into the next record. *)
Definition fragment_size ss (msg : DTLSQueuedMessage) (contentLen start end_ : Z) : Z :=
  let fragmentLen := u32 (Z.min end_ contentLen - start) in
  let fragmentLen := Z.min fragmentLen (u32 (recordSizeLimit (cwSpec msg) - DTLS_HS_HDR_LEN)) in
  Z.min fragmentLen
    (u32 (mtu ss - pendingBuf_len (world ss) - DTLS_MAX_EXPANSION - DTLS_HS_HDR_LEN)).

(** The fragment's octets: the message itself, or a copy of its header with
    another offset and length, in a buffer of DTLS_MAX_MTU octets. *)
Definition fragment_octets (msg : DTLSQueuedMessage) (contentLen start fragmentLen : Z) : sec_res (list Z) :=
  if fragmentLen =? contentLen
  then mem_read (q_data msg) 0 (Z.to_nat (fragmentLen + DTLS_HS_HDR_LEN))
  else
    let tmp := SSL_BUFFER_FIXED (replicate (Z.to_nat DTLS_MAX_MTU) 0) DTLS_MAX_MTU in
    tmp ← sslBuffer_Append tmp (q_data msg) 6;
    tmp ← sslBuffer_AppendNumber tmp start 3;
    tmp ← sslBuffer_AppendNumber tmp fragmentLen 3;
    tmp ← sslBuffer_Append tmp (drop (Z.to_nat (DTLS_HS_HDR_LEN + start)) (q_data msg)) fragmentLen;
    mem_read (storage tmp) 0 (Z.to_nat (fragmentLen + DTLS_HS_HDR_LEN)).

(** [do { ... } while (fragmentOffset < contentLen)]; the result says whether
    it succeeded and whether a fragment was written. *)
Fixpoint fragment_loop (fuel : nat) ss (msg : DTLSQueuedMessage) (msgSeq contentLen start : Z)
    (written : bool) : mem_res (flight W * bool * bool) :=
  match fuel with
  | O => UB
  | S fuel =>
      match dtls_NextUnackedRange (fl_tls13 ss) (dtlsSentHandshake ss) msgSeq start contentLen with
      | None => UB
      | Some None => Ok (ss, true, written)
      | Some (Some (start, end_)) =>
          let fragmentLen := fragment_size ss msg contentLen start end_ in
          if fragmentLen >=? DTLS_MAX_MTU - DTLS_HS_HDR_LEN then Ok (ss, false, written) else
          match fragment_octets msg contentLen start fragmentLen with
          | UB => UB
          | Err _ => Ok (ss, false, written)
          | Ok fragment =>
              match dtls13_RememberFragment (fl_tls13 ss) (dtlsSentHandshake ss) msgSeq start fragmentLen
                      (spec_epoch (cwSpec msg)) (nextSeqNum (world ss) (cwSpec msg)) with
              | UB => UB
              | Err _ => Ok (ss, false, written)
              | Ok l =>
                  let '(ss, ok) := dtls_SendFragment (set_sent ss l) msg fragment in
                  if negb ok then Ok (ss, false, written) else
                  let start := u32 (start + fragmentLen) in
                  if start <? contentLen then fragment_loop fuel ss msg msgSeq contentLen start true
                  else Ok (ss, true, true)
              end
          end
      end
  end.

(** The result says whether the message stays in the flight. *)
Definition dtls_FragmentHandshake ss (msg : DTLSQueuedMessage) : mem_res (flight W * bool * bool) :=
  let contentLen := u32 (q_len msg - DTLS_HS_HDR_LEN) in
  match q_data msg !! 4%nat, q_data msg !! 5%nat with
  | Some d4, Some d5 =>
      let msgSeq := u16 (Z.lor (Z.shiftl d4 8) d5) in
      fragment_loop (S (Z.to_nat contentLen)) ss msg msgSeq contentLen 0 false
  | _, _ => UB
  end.

(** One message of the flight. *)
Definition transmit_one ss (msg : DTLSQueuedMessage) : mem_res (flight W * bool * bool) :=
  if q_type msg =? ssl_ct_handshake then dtls_FragmentHandshake ss msg
  else data ← mem_read (q_data msg) 0 (Z.to_nat (q_len msg));
       let '(ss, ok) := dtls_SendFragment ss msg data in
       Ok (ss, ok, true).

(** The messages in turn; those not to be sent any more are dropped. *)
Fixpoint transmit_messages ss (kept todo : list DTLSQueuedMessage) : mem_res (flight W * bool) :=
  match todo with
  | [] => Ok (set_flight ss kept, true)
  | msg :: todo =>
      '(ss, ok, written) ← transmit_one ss msg;
      if negb ok then Ok (set_flight ss (kept ++ msg :: todo), false)
      else transmit_messages ss (if (written : bool) then kept ++ [msg] else kept) todo
  end.

Definition dtls_TransmitMessageFlight ss : mem_res (flight W * bool) :=
  '(ss, ok) ← transmit_messages ss [] (lastMessageFlight ss);
  Ok (if (ok : bool) then dtls_SendSavedWriteData ss else (ss, false)).

(** ** Timers *)

Definition dtls_StartTimer ss (time : Z) (c : DTLSTimerCb) : dtlsTimer :=
  mk_timer (Some c) (PR_IntervalNow (world ss)) time.
Definition dtls_RestartTimer ss (t : dtlsTimer) : dtlsTimer :=
  mk_timer (cb t) (PR_IntervalNow (world ss)) (timeout t).
Definition dtls_CancelTimer (t : dtlsTimer) : dtlsTimer := mk_timer None (started t) (timeout t).

Definition dtls_StartRetransmitTimer ss : flight W :=
  match cb (rtTimer ss) with
  | Some c => set_rt ss (mk_timer (Some c) (PR_IntervalNow (world ss)) DTLS_RETRANSMIT_INITIAL_MS) 0
  | None => set_rt ss (dtls_StartTimer ss DTLS_RETRANSMIT_INITIAL_MS RetransmitTimerExpiredCb) 0
  end.

Definition dtls_CancelAllTimers ss : flight W :=
  set_hd (set_ack (set_rt ss (dtls_CancelTimer (rtTimer ss)) (rtRetries ss)) (dtls_CancelTimer (ackTimer ss)))
    (dtls_CancelTimer (hdTimer ss)).

(** [advancing]: the test on the state of the handshake and the version. *)
Definition dtls_ReceivedFirstMessageInFlight ss (advancing : bool) : flight W :=
  let ss := if advancing then
              let ss := set_flight ss [] in
              let t := dtls_CancelTimer (rtTimer ss) in
              set_rt ss (if rtRetries ss =? 0 then mk_timer (cb t) (started t) DTLS_RETRANSMIT_INITIAL_MS else t)
                (rtRetries ss)
            else ss in
  set_rcvd ss [].

Definition dtls_StartHolddownTimer ss : flight W :=
  set_hd ss (dtls_StartTimer ss DTLS_RETRANSMIT_FINISHED_MS FinishedTimerCb).

(** The loop over COMMON_MTU_VALUES, with the smallest as the fallback. *)
Definition dtls_SetMTU ss (advertised : Z) : flight W :=
  if advertised =? 0 then set_mtu ss (1500 - 28) else
  match list_find (λ v, v ≤ advertised) COMMON_MTU_VALUES with
  | Some (_, v) => set_mtu ss v
  | None => set_mtu ss (256 - 28)
  end.

Definition dtls_RetransmitTimerExpiredCb ss : mem_res (flight W) :=
  let ss := set_rt ss (rtTimer ss) (u32 (rtRetries ss + 1)) in
  let ss := if rtRetries ss mod 3 =? 0 then dtls_SetMTU ss (u16 (maxMessageSent ss - 1)) else ss in
  '(ss, ok) ← dtls_TransmitMessageFlight ss;
  if negb ok then Ok ss else
  let t := u32 (timeout (rtTimer ss) * 2) in
  let t := if t >? DTLS_RETRANSMIT_MAX_MS then DTLS_RETRANSMIT_MAX_MS else t in
  Ok (set_rt ss (mk_timer (Some RetransmitTimerExpiredCb) (PR_IntervalNow (world ss)) t) (rtRetries ss)).

Definition dtls_FlushHandshakeMessages ss (spec : ssl3CipherSpec) (sendBuf : sslBuffer)
    (force_into_buffer no_retransmit : bool) : mem_res (flight W * sslBuffer * bool) :=
  '(ss, sendBuf, ok) ← dtls_StageHandshakeMessage ss spec sendBuf;
  if negb ok then Ok (ss, sendBuf, false)
  else if force_into_buffer then Ok (ss, sendBuf, true)
  else
    '(ss, ok) ← dtls_TransmitMessageFlight ss;
    if negb ok then Ok (ss, sendBuf, false)
    else Ok (if no_retransmit then ss else dtls_StartRetransmitTimer ss, sendBuf, true).

(** dtls_RetransmitDetected; the clock's ticks are compared with a quarter of
    the timeout in milliseconds. *)
Definition dtls_RetransmitDetected ss : mem_res (flight W * bool) :=
  match cb (rtTimer ss), cb (hdTimer ss) with
  | Some RetransmitTimerExpiredCb, _ =>
      if u32 (PR_IntervalNow (world ss) - started (rtTimer ss)) >? timeout (rtTimer ss) / 4
      then ss ← dtls_RetransmitTimerExpiredCb (set_rt ss (dtls_CancelTimer (rtTimer ss)) (rtRetries ss));
           Ok (ss, true)
      else Ok (ss, true)
  | _, Some FinishedTimerCb =>
      '(ss, ok) ← dtls_TransmitMessageFlight (set_hd ss (dtls_CancelTimer (hdTimer ss)));
      Ok (if (ok : bool) then dtls_StartHolddownTimer ss else ss, ok)
  | _, _ => Ok (ss, true)
  end.

(** ** Acknowledgements *)

Definition dtls13_SendAck ss : mem_res (flight W * bool) :=
  match ack_message (dtlsRcvdHandshake ss) with
  | Ok b =>
      let '(w, sent) := ssl3_SendRecord (world ss) None ssl_ct_ack (contents b) in
      Ok (set_world ss w, sent =? len b)
  | Err _ => Ok (ss, false)
  | UB => UB
  end.

(** [version13], [endOfFlight], [server_idle]: the tests on ss->version,
    ss->ssl3.hs.endOfFlight, and on the state and side of the handshake. *)
Definition dtls13_SetupAcks ss (version13 endOfFlight server_idle : bool) : mem_res (flight W * bool) :=
  if negb version13 then Ok (ss, true)
  else if endOfFlight then
    let ss := set_ack ss (dtls_CancelTimer (ackTimer ss)) in
    if server_idle then dtls13_SendAck ss else Ok (ss, true)
  else match cb (ackTimer ss) with
       | None => Ok (set_ack ss (dtls_StartTimer ss (DTLS_RETRANSMIT_INITIAL_MS / 4) SendAckCb), true)
       | Some _ => Ok (ss, true)
       end.

(** dtls13_HandleAck: the marked fragments, what is left of the flight, and
    the timers.  [client_idle] is the test on the side and the state of the
    handshake. *)
Definition dtls13_HandleAck `{KeyUpdater W} ss (databuf : list Z) (inProgress : bool) (message : Z)
    (client_idle : bool)
    : mem_res (flight W * bool * bool) :=
  if negb (fl_tls13 ss) then Ok (set_world ss (send_alert (world ss)), inProgress, false) else
  match ack_records databuf (mk_ackState (dtlsSentHandshake ss) inProgress message (world ss)) with
  | None => UB
  | Some (st, e) =>
      let ku := isKeyUpdateInProgress st in
      let ss := set_world (set_sent ss (sentHandshake st)) (ack_world st) in
      match e with
      | AckDone =>
          '(ss, ok) ← dtls_TransmitMessageFlight ss;
          if negb ok then Ok (ss, ku, false) else
          let ss := match cb (rtTimer ss) with
                    | Some _ => set_rt ss (dtls_RestartTimer ss (rtTimer ss)) (rtRetries ss)
                    | None => ss
                    end in
          Ok (match lastMessageFlight ss with
              | [] =>
                  let ss := set_sent (set_rt ss (dtls_CancelTimer (rtTimer ss)) (rtRetries ss)) [] in
                  if client_idle then set_world ss (release_handshake_keys (world ss)) else ss
              | _ => ss
              end, ku, true)
      | AckMalformed true => Ok (set_world ss (send_alert (world ss)), ku, false)
      | _ => Ok (ss, ku, false)
      end
  end.

(** ** The clock *)

Definition timer_due ss (t : dtlsTimer) : bool :=
  u32 (PR_IntervalNow (world ss) - started t) >=? PR_MillisecondsToInterval (timeout t).

Definition run_cb ss (c : DTLSTimerCb) : mem_res (flight W) :=
  match c with
  | RetransmitTimerExpiredCb => dtls_RetransmitTimerExpiredCb ss
  | FinishedTimerCb => Ok (set_flight ss [])
  | SendAckCb => '(ss, _) ← dtls13_SendAck ss; Ok ss
  | HolddownTimerCb => Ok (set_rcvd (set_world ss (release_handshake_keys (world ss))) [])
  end.

(** The three timers in the order of ss->ssl3.hs.timers; a timer that is due is
    cancelled before its callback runs. *)
Definition dtls_CheckTimer ss : mem_res (flight W) :=
  ss ← match cb (rtTimer ss) with
       | Some c => if timer_due ss (rtTimer ss)
                   then run_cb (set_rt ss (dtls_CancelTimer (rtTimer ss)) (rtRetries ss)) c else Ok ss
       | None => Ok ss
       end;
  ss ← match cb (ackTimer ss) with
       | Some c => if timer_due ss (ackTimer ss)
                   then run_cb (set_ack ss (dtls_CancelTimer (ackTimer ss))) c else Ok ss
       | None => Ok ss
       end;
  match cb (hdTimer ss) with
  | Some c => if timer_due ss (hdTimer ss)
              then run_cb (set_hd ss (dtls_CancelTimer (hdTimer ss))) c else Ok ss
  | None => Ok ss
  end.

(** DTLS_GetHandshakeTimeout: the loop over the timers; [None] is
    SSL_ERROR_NO_TIMERS_FOUND. *)
Definition PR_INTERVAL_NO_WAIT : Z := 0.
Definition PR_INTERVAL_NO_TIMEOUT : Z := 0xffffffff.

Fixpoint timeout_loop (now : Z) (timers : list dtlsTimer) (found : bool) (timeout_ : Z) : option Z :=
  match timers with
  | [] => if found then Some timeout_ else None
  | t :: timers =>
      match cb t with
      | None => timeout_loop now timers found timeout_
      | Some _ =>
          let elapsed := u32 (now - started t) in
          let desired := PR_MillisecondsToInterval (timeout t) in
          if elapsed >? desired then Some PR_INTERVAL_NO_WAIT
          else let to := u32 (desired - elapsed) in
               timeout_loop now timers true (if timeout_ >? to then to else timeout_)
      end
  end.

Definition DTLS_GetHandshakeTimeout ss : option Z :=
  timeout_loop (PR_IntervalNow (world ss)) [rtTimer ss; ackTimer ss; hdTimer ss] false PR_INTERVAL_NO_TIMEOUT.

(** ** One fragment *)

(** Appending to a fixed buffer that has the room. *)
Lemma fixed_appends b src r :
  wf b → fixed b = true → len b + length src ≤ space b → appends b src r →
  ∃ b', r = Ok b' ∧ wf b' ∧ fixed b' = true ∧ space b ≤ space b' ∧
    contents b' = contents b ++ src ∧ len b' = len b + length src.
Proof.
  intros Hw Hf Hl HA. destruct r as [b'|e|]; cbn in HA; [| |done].
  - destruct HA as (Hw' & Hc & Hf' & Hs). exists b'. split_and!; try done; [congruence|].
    pose proof (length_contents _ Hw') as Hx. rewrite Hc, length_app, (length_contents _ Hw) in Hx.
    destruct Hw, Hw'. lia.
  - destruct HA as [(_ & ? & ?)|[? _]]; [lia|congruence].
Qed.

(** The message [M] of type [t] and number [s], as it is queued. *)
Record queued_as (msg : DTLSQueuedMessage) (s t : Z) (M : list Z) : Prop := mk_queued_as {
  qa_type : q_type msg = ssl_ct_handshake;
  qa_data : q_data msg = enc_fragment (mk_fragHeader t (length M) s 0 (length M), M);
  qa_len : q_len msg = 12 + length M;
  qa_bound : 12 + length M < 2 ^ 16;
  qa_byte : is_byte t;
  qa_bytes : bytes M;
  qa_seq : 0 ≤ s < 2 ^ 16;
  qa_limit : 12 < recordSizeLimit (cwSpec msg) < 2 ^ 16;
}.

(** The room that the MTU leaves. *)
Record flight_ok ss : Prop := mk_flight_ok {
  fl_mtu : DTLS_MIN_FRAGMENT ≤ mtu ss ≤ 1500 - 28;
  fl_pending : pendingBuf_len (world ss) + DTLS_MIN_FRAGMENT ≤ mtu ss;
  fl_entries : Forall entry_ok (dtlsSentHandshake ss);
}.

(** The fragment of [M] at [start] with [k] octets. *)
Definition piece (s t : Z) (M : list Z) (start k : Z) : fragHeader * list Z :=
  (mk_fragHeader t (length M) s start k, take (Z.to_nat k) (drop (Z.to_nat start) M)).

Lemma piece_own s t M start k :
  0 ≤ start → 0 ≤ k → start + k ≤ length M → length M ≤ MAX_HANDSHAKE_MSG_LEN → 0 ≤ s < 2 ^ 16 →
  own s t M (piece s t M start k).
Proof.
  intros H1 H2 H3 H4 H5.
  assert (Hl : Z.of_nat (length (piece s t M start k).2) = k).
  { cbn. rewrite length_take, length_drop. lia. }
  split.
  - split; cbn -[MAX_HANDSHAKE_MSG_LEN piece]; rewrite ?Hl; try done; cbn; lia.
  - split; [split; rewrite ?Hl; cbn; lia || done|done|done|]. cbn. by rewrite take_take, Nat.min_id.
Qed.

Lemma fragment_size_spec ss msg s t M start end_ :
  flight_ok ss → queued_as msg s t M → 0 ≤ start → start ≤ end_ ≤ length M →
  let k := fragment_size ss msg (length M) start end_ in
  0 ≤ k ≤ end_ - start ∧ (start < end_ → 0 < k) ∧ k < DTLS_MAX_MTU - DTLS_HS_HDR_LEN ∧
  k + DTLS_HS_HDR_LEN ≤ recordSizeLimit (cwSpec msg) ∧
  pendingBuf_len (world ss) + k + DTLS_HS_HDR_LEN + DTLS_MAX_EXPANSION ≤ mtu ss.
Proof.
  intros [Hm Hp _] [_ _ _ Hb _ _ _ Hlim] Hs He. pose proof (pending_range (world ss)).
  unfold fragment_size, DTLS_MIN_FRAGMENT, DTLS_MAX_EXPANSION, DTLS_HS_HDR_LEN, DTLS_RECORD_HEADER_LENGTH,
    DTLS_MAX_MTU in *.
  rewrite (Z.min_l end_) by lia. rewrite !wrap_small by lia. lia.
Qed.

Lemma fragment_octets_spec msg s t M start k :
  queued_as msg s t M → 0 ≤ start → 0 ≤ k → start + k ≤ length M → k < DTLS_MAX_MTU - DTLS_HS_HDR_LEN →
  fragment_octets msg (length M) start k = Ok (enc_fragment (piece s t M start k)).
Proof.
  intros [_ Hd Hl Hb Ht HM Hs _] H1 H2 H3 H4. unfold DTLS_MAX_MTU, DTLS_HS_HDR_LEN in *.
  unfold fragment_octets. set (hd := t :: be_bytes 3 (length M) ++ be_bytes 2 s).
  assert (Hdata : q_data msg = hd ++ be_bytes 3 0 ++ be_bytes 3 (length M) ++ M).
  { rewrite Hd. unfold enc_fragment, hd. cbn [fst snd type message_length message_seq fragment_offset fragment_length].
    cbn [app]. by rewrite <- !app_assoc. }
  assert (Henc : enc_fragment (piece s t M start k) =
                 hd ++ be_bytes 3 start ++ be_bytes 3 k ++ take (Z.to_nat k) (drop (Z.to_nat start) M)).
  { unfold enc_fragment, piece, hd. cbn [fst snd type message_length message_seq fragment_offset fragment_length].
    cbn [app]. by rewrite <- !app_assoc. }
  assert (Hhd : length hd = 6%nat) by (unfold hd; cbn [length]; by rewrite length_app, !length_be_bytes).
  assert (Hbd : bytes (q_data msg)).
  { rewrite Hdata. unfold hd. cbn [app]. apply Forall_cons_2; [done|].
    rewrite !Forall_app. split_and!; auto using be_bytes_bytes. }
  destruct (Z.eqb_spec k (length M)) as [E|Hne].
  - unfold mem_read. rewrite decide_True by (rewrite Hdata, !length_app, !length_be_bytes; unfold DTLS_HS_HDR_LEN; lia).
    rewrite drop_0, Henc, Hdata. assert (start = 0) as -> by lia. rewrite drop_0, (take_ge M) by lia.
    rewrite take_ge; [by rewrite E|]. rewrite !length_app, !length_be_bytes, Hhd. unfold DTLS_HS_HDR_LEN. lia.
  - set (tmp := SSL_BUFFER_FIXED _ _).
    assert (Hw : wf tmp).
    { apply SSL_BUFFER_FIXED_wf; [by apply Forall_replicate|unfold DTLS_MAX_MTU; lia|].
      rewrite length_replicate. unfold DTLS_MAX_MTU. lia. }
    assert (Hlt : len tmp = 0 ∧ space tmp = 1500 ∧ contents tmp = []) by done. destruct Hlt as (Hl0 & Hs0 & Hc0).
    destruct (fixed_appends tmp (take (Z.to_nat 6) (q_data msg)) (sslBuffer_Append tmp (q_data msg) 6))
      as (b1 & -> & Hw1 & Hf1 & Hs1 & Hc1 & Hl1); [done|done|rewrite length_take; lia|
        apply sslBuffer_Append_appends; [done|done|rewrite Hdata, length_app; lia|lia]|].
    assert (Et6 : take (Z.to_nat 6) (q_data msg) = hd) by (rewrite Hdata; by apply take_app_length').
    rewrite Et6, Hc0 in Hc1. rewrite Et6, Hhd in Hl1. cbn [app] in Hc1. cbn [mbind res_bind].
    destruct (fixed_appends b1 (be_bytes 3 start) (sslBuffer_AppendNumber b1 start 3))
      as (b2 & -> & Hw2 & Hf2 & Hs2 & Hc2 & Hl2); [done|done|rewrite length_be_bytes; lia|
        apply (sslBuffer_AppendNumber_appends b1 start 3); [done|lia|lia]|].
    rewrite length_be_bytes in Hl2. cbn [mbind res_bind].
    destruct (fixed_appends b2 (be_bytes 3 k) (sslBuffer_AppendNumber b2 k 3))
      as (b3 & -> & Hw3 & Hf3 & Hs3 & Hc3 & Hl3); [done|done|rewrite length_be_bytes; lia|
        apply (sslBuffer_AppendNumber_appends b2 k 3); [done|lia|lia]|].
    rewrite length_be_bytes in Hl3. cbn [mbind res_bind].
    assert (Hdrop : drop (Z.to_nat (DTLS_HS_HDR_LEN + start)) (q_data msg) = drop (Z.to_nat start) M).
    { rewrite Hdata, !app_assoc. rewrite drop_app_ge by (rewrite !length_app, !length_be_bytes, Hhd; unfold DTLS_HS_HDR_LEN; lia).
      rewrite !length_app, !length_be_bytes, Hhd. f_equal. unfold DTLS_HS_HDR_LEN. lia. }
    rewrite Hdrop. set (d := take (Z.to_nat k) (drop (Z.to_nat start) M)).
    assert (Hld : Z.of_nat (length d) = k) by (unfold d; rewrite length_take, length_drop; lia).
    destruct (fixed_appends b3 d (sslBuffer_Append b3 (drop (Z.to_nat start) M) k))
      as (b4 & -> & Hw4 & Hf4 & Hs4 & Hc4 & Hl4); [done|done|lia|
        apply sslBuffer_Append_appends; [done|by apply Forall_drop|rewrite length_drop; lia|lia]|].
    cbn [mbind res_bind]. unfold mem_read. rewrite decide_True by (destruct Hw4; unfold DTLS_HS_HDR_LEN; lia).
    rewrite drop_0, Henc. f_equal. fold d.
    transitivity (contents b4); [unfold contents; f_equal; unfold DTLS_HS_HDR_LEN; lia|].
    by rewrite Hc4, Hc3, Hc2, Hc1, <- !app_assoc.
Qed.

(** ** Sending *)

(** Only the record layer and the largest datagram sent have changed. *)
Definition same_but_out ss ss' : Prop :=
  ss' = set_max (set_world ss (world ss')) (maxMessageSent ss').

Lemma same_but_out_trans ss1 ss2 ss3 : same_but_out ss1 ss2 → same_but_out ss2 ss3 → same_but_out ss1 ss3.
Proof. unfold same_but_out. intros E1 E2. rewrite E1 in E2. destruct ss3. done. Qed.

Lemma SendSavedWriteData_spec ss :
  let '(ss', ok) := dtls_SendSavedWriteData ss in
  same_but_out ss ss' ∧ out_records (world ss') = out_records (world ss) ∧
  (ok = true → pendingBuf_len (world ss') = 0).
Proof.
  unfold dtls_SendSavedWriteData, same_but_out. pose proof (SendSaved_out (world ss)) as Ho.
  destruct (ssl_SendSavedWriteData (world ss)) as [w n]. cbn in Ho. pose proof (pending_range w).
  destruct (n <? 0); [done|]. destruct (Z.gtb_spec (pendingBuf_len w) 0); [done|].
  destruct (n >? maxMessageSent (set_world ss w)); (split_and!; [done|done|cbn; intros _; lia]).
Qed.

Lemma SendFragment_spec ss msg d :
  DTLS_MIN_FRAGMENT ≤ mtu ss ≤ 1500 - 28 →
  let '(ss', ok) := dtls_SendFragment ss msg d in
  same_but_out ss ss' ∧
  (ok = true → pendingBuf_len (world ss') + DTLS_MIN_FRAGMENT ≤ mtu ss' ∧
     out_records (world ss') = out_records (world ss) ++ [(cwSpec msg, nextSeqNum (world ss) (cwSpec msg), q_type msg, d)]).
Proof.
  intros Hm. unfold dtls_SendFragment.
  pose proof (SendRecord_out (world ss) (cwSpec msg) (q_type msg) d) as Ho.
  destruct (ssl3_SendRecord _ _ _ _) as [w n].
  destruct (Z.eqb_spec n (length d)) as [->|]; cbn [negb]; [|done]. specialize (Ho w eq_refl).
  pose proof (pending_range w). unfold DTLS_MIN_FRAGMENT, DTLS_MAX_EXPANSION, DTLS_HS_HDR_LEN, DTLS_RECORD_HEADER_LENGTH in *.
  rewrite wrap_small by lia. destruct (Z.ltb_spec (mtu (set_world ss w)) (pendingBuf_len w + (12 + 1 + (13 + 16 + 16 + 32)))) as [|Hroom].
  - pose proof (SendSavedWriteData_spec (set_world ss w)) as HS.
    destruct (dtls_SendSavedWriteData (set_world ss w)) as [ss' ok]. destruct HS as (Hsame & Hout & Hp).
    split; [exact (same_but_out_trans ss (set_world ss w) ss' eq_refl Hsame)|].
    intros Hok. rewrite (Hp Hok), Hout. cbn [set_world world]. split; [|done]. rewrite Hsame. cbn. lia.
  - split; [done|]. intros _. split; [exact Hroom|done].
Qed.

(** [nfs]: the fragments sent, each with its record's sequence number. *)
Definition sent_entry (s : Z) (spec : ssl3CipherSpec) (nf : Z * (fragHeader * list Z)) : DTLSHandshakeRecordEntry :=
  mk_entry s (fragment_offset nf.2.1) (fragment_length nf.2.1)
    (dtls_CombineSequenceNumber (spec_epoch spec) nf.1) false.

Record sent_as ss ss' (msg : DTLSQueuedMessage) (s : Z) (nfs : list (Z * (fragHeader * list Z))) : Prop := mk_sent_as {
  sa_out : out_records (world ss') = out_records (world ss) ++
             ((λ nf, (cwSpec msg, nf.1, q_type msg, enc_fragment nf.2)) <$> nfs);
  sa_sent : dtlsSentHandshake ss' = dtlsSentHandshake ss ++
              (if fl_tls13 ss then sent_entry s (cwSpec msg) <$> nfs else []);
  sa_same : same_but_out (set_sent ss (dtlsSentHandshake ss')) ss';
}.

Lemma sent_as_nil ss msg s : sent_as ss ss msg s [].
Proof.
  split; [by rewrite app_nil_r|by destruct (fl_tls13 ss); rewrite app_nil_r|by destruct ss].
Qed.

Lemma sent_as_cons ss ss1 ss' msg s nf nfs :
  sent_as ss ss1 msg s [nf] → sent_as ss1 ss' msg s nfs → sent_as ss ss' msg s (nf :: nfs).
Proof.
  intros [Ho1 Hs1 Hm1] [Ho2 Hs2 Hm2].
  assert (Ht : fl_tls13 ss1 = fl_tls13 ss) by (rewrite Hm1; done). split.
  - rewrite Ho2, Ho1. cbn [fmap list_fmap]. by rewrite <- app_assoc.
  - rewrite Hs2, Hs1, Ht. destruct (fl_tls13 ss); [|by rewrite !app_nil_r].
    cbn [fmap list_fmap]. by rewrite <- app_assoc.
  - unfold same_but_out in *. rewrite Hm1 in Hm2. destruct ss'. done.
Qed.

(** What counts as acknowledged: nothing before DTLS 1.3. *)
Definition acks ss : list DTLSHandshakeRecordEntry := if fl_tls13 ss then dtlsSentHandshake ss else [].

Lemma acked_at_unacked l es s o : Forall (λ e, acked e = false) es → acked_at (l ++ es) s o ↔ acked_at l s o.
Proof.
  intros Hes. split; intros (e & He & Hc & Ho); exists e; (split; [|done]); [|apply elem_of_app; by left].
  apply elem_of_app in He as [?|He]; [done|]. rewrite Forall_forall in Hes.
  assert (acked e = false) as Ha by (by apply Hes). unfold counts in Hc. by rewrite Ha in Hc.
Qed.

Lemma sent_acks ss ss' msg s nfs o :
  sent_as ss ss' msg s nfs → acked_at (acks ss') s o ↔ acked_at (acks ss) s o.
Proof.
  intros [_ Hs Hm]. unfold acks. rewrite Hm. cbn. destruct (fl_tls13 ss); [|done]. rewrite Hs.
  apply acked_at_unacked, Forall_fmap, Forall_true. done.
Qed.

(** What the next turn sends. *)
Lemma next_range ss s start (M : list Z) :
  flight_ok ss → 0 ≤ start < length M ∨ start = 0 ∧ length M = 0%nat →
  ∃ r, dtls_NextUnackedRange (fl_tls13 ss) (dtlsSentHandshake ss) s start (length M) = Some r ∧
    match r with
    | Some (b, e) => start ≤ b ≤ e ∧ e ≤ length M ∧ (b < e ∨ length M = 0%nat ∧ b = 0) ∧
        (∀ o, start ≤ o < length M → ¬ b ≤ o < e → acked_at (acks ss) s o)
    | None => (length M = 0%nat → ∃ e, e ∈ acks ss ∧ counts s e = true ∧ e_length e = 0) ∧
              ∀ o, start ≤ o < length M → acked_at (acks ss) s o
    end.
Proof.
  intros Hok Hr. unfold dtls_NextUnackedRange, acks. destruct (fl_tls13 ss); cbn [negb].
  2: { exists (Some (start, Z.of_nat (length M))). split; [done|]. split_and!; lia. }
  destruct (Z.eqb_spec (length M) 0) as [E|Hne].
  - destruct Hr as [?|[-> HM]]; [lia|]. eexists. split; [done|].
    pose proof (IsEmptyMessageAcknowledged_spec (dtlsSentHandshake ss) s) as HI.
    destruct (dtls_IsEmptyMessageAcknowledged _ s).
    + split; [intros _; by apply HI|]. intros o ?. lia.
    + split_and!; lia.
  - destruct Hr as [Hr|[? ?]]; [|lia].
    destruct (unacked_loop_spec (Z.to_nat (length M - start)) (dtlsSentHandshake ss) s start (length M) start (length M))
      as (r & E & HR); try done; try lia; [by destruct Hok|intros o ?; lia..|].
    exists r. split; [done|]. destruct r as [[b e]|].
    + destruct HR as (H1 & H2 & _ & _ & H3). split_and!; try lia; done.
    + split; [lia|done].
Qed.

(** Increasing, disjoint fragments from [lo] on. *)
Fixpoint chain (lo : Z) (fs : list (fragHeader * list Z)) : Prop :=
  match fs with
  | [] => True
  | f :: fs => lo ≤ fragment_offset f.1 ∧ chain (fragment_offset f.1 + fragment_length f.1) fs
  end.

(** What a message's fragments amount to: they are its own, disjoint and in
    order, as small as the record size asks, and hold every octet from [start]
    on that is not acknowledged. *)
Record fragmented ss (msg : DTLSQueuedMessage) (s t : Z) (M : list Z) (start : Z) (fs : list (fragHeader * list Z))
    : Prop := mk_fragmented {
  fr_own : Forall (own s t M) fs;
  fr_limit : Forall (λ f, length (enc_fragment f) ≤ recordSizeLimit (cwSpec msg)) fs;
  fr_chain : chain start fs;
  fr_filled : (0 < length M)%nat → Forall (λ f, 0 < fragment_length f.1) fs;
  fr_covers o : start ≤ o < length M → ¬ acked_at (acks ss) s o → ∃ f, f ∈ fs ∧ covers s f o;
  fr_empty : length M = 0%nat → (length fs ≤ 1)%nat ∧
    (fs = [] → ∃ e, e ∈ acks ss ∧ counts s e = true ∧ e_length e = 0);
}.

Lemma fragmented_cons ss ss1 msg s t M start b e k n fs :
  sent_as ss ss1 msg s [(n, piece s t M b k)] → queued_as msg s t M →
  0 ≤ start ≤ b → b + k ≤ e → e ≤ length M → 0 ≤ k → (b < e → 0 < k) → (b < e ∨ length M = 0%nat ∧ b = 0) →
  k + DTLS_HS_HDR_LEN ≤ recordSizeLimit (cwSpec msg) →
  (∀ o, start ≤ o < length M → ¬ b ≤ o < e → acked_at (acks ss) s o) →
  (b + k < length M → fragmented ss1 msg s t M (b + k) fs) → (¬ b + k < length M → fs = []) →
  fragmented ss msg s t M start (piece s t M b k :: fs).
Proof.
  intros HS Hq Hs Hbk He Hk Hkpos Hbe Hlim Hcov Hmore Hnil. unfold DTLS_HS_HDR_LEN in Hlim.
  assert (Hown : own s t M (piece s t M b k)).
  { destruct Hq. apply piece_own; unfold MAX_HANDSHAKE_MSG_LEN; lia. }
  assert (Hlen : length (enc_fragment (piece s t M b k)) ≤ recordSizeLimit (cwSpec msg)).
  { unfold enc_fragment, piece. cbn [fst snd length]. rewrite !length_app, !length_be_bytes, length_take, length_drop. lia. }
  destruct (decide (b + k < length M)) as [Hlt|Hge].
  - destruct (Hmore Hlt) as [H1 H2 H3 H4 H5 H6]. split.
    + by apply Forall_cons_2.
    + by apply Forall_cons_2.
    + split; [cbn; lia|exact H3].
    + intros HM. apply Forall_cons_2; [cbn; lia|by apply H4].
    + intros o Ho Hn. destruct (decide (b ≤ o < e)) as [Hin|]; [|by destruct Hn; apply Hcov].
      destruct (decide (o < b + k)).
      * exists (piece s t M b k). split; [by left|]. split; [done|cbn; lia].
      * destruct (H5 o) as (f & Hf & ?); [lia|by rewrite (sent_acks _ _ _ _ _ _ HS)|].
        exists f. split; [by right|done].
    + lia.
  - rewrite (Hnil Hge). split.
    + by apply Forall_cons_2; [|apply Forall_nil_2].
    + by apply Forall_cons_2; [|apply Forall_nil_2].
    + split; [cbn; lia|done].
    + intros HM. apply Forall_cons_2; [cbn; lia|apply Forall_nil_2].
    + intros o Ho Hn. destruct (decide (b ≤ o < e)) as [Hin|]; [|by destruct Hn; apply Hcov].
      exists (piece s t M b k). split; [by left|]. split; [done|cbn; lia].
    + intros _. split; [cbn; lia|done].
Qed.

(** The state after one fragment. *)
Lemma sent_one ss ss1 msg s t M b k l n :
  queued_as msg s t M → flight_ok ss → 0 ≤ b → 0 ≤ k → b + k ≤ length M →
  dtls13_RememberFragment (fl_tls13 ss) (dtlsSentHandshake ss) s b k (spec_epoch (cwSpec msg)) n = Ok l →
  same_but_out (set_sent ss l) ss1 →
  pendingBuf_len (world ss1) + DTLS_MIN_FRAGMENT ≤ mtu ss1 →
  out_records (world ss1) = out_records (world ss) ++ [(cwSpec msg, n, q_type msg, enc_fragment (piece s t M b k))] →
  sent_as ss ss1 msg s [(n, piece s t M b k)] ∧ flight_ok ss1.
Proof.
  intros Hq Hok Hb Hk Hbk ER Hsame Hp Hout. destruct Hq as [_ _ _ Hbound _ _ Hs _].
  assert (Hl : l = dtlsSentHandshake ss ++ (if fl_tls13 ss then [sent_entry s (cwSpec msg) (n, piece s t M b k)] else [])).
  { unfold dtls13_RememberFragment in ER. destruct (fl_tls13 ss); cbn [negb] in ER.
    - apply bind_Ok in ER as (? & _ & [= <-]). by rewrite wrap_small.
    - injection ER as <-. by rewrite app_nil_r. }
  assert (Hs1 : dtlsSentHandshake ss1 = l) by (rewrite Hsame; done). split.
  - split; [done|by rewrite Hs1, Hl|by rewrite Hs1].
  - destruct Hok as [Hm _ He]. assert (Hm1 : mtu ss1 = mtu ss) by (rewrite Hsame; done).
    split; [by rewrite Hm1|done|]. rewrite Hs1, Hl. apply Forall_app. split; [done|].
    destruct (fl_tls13 ss); [|apply Forall_nil_2]. apply Forall_cons_2; [|apply Forall_nil_2].
    unfold entry_ok. cbn. lia.
Qed.

Lemma fragment_loop_spec fuel ss msg s t M start written :
  flight_ok ss → queued_as msg s t M →
  0 ≤ start < length M ∨ start = 0 ∧ length M = 0%nat → (Z.to_nat (length M - start) < fuel)%nat →
  ∃ ss' ok w', fragment_loop fuel ss msg s (length M) start written = Ok (ss', ok, w') ∧
    (ok = true → ∃ nfs, sent_as ss ss' msg s nfs ∧ flight_ok ss' ∧ fragmented ss msg s t M start nfs.*2 ∧
       w' = written || negb (bool_decide (nfs = []))).
Proof.
  revert ss start written. induction fuel as [|fuel IH]; intros ss start written Hok Hq Hst Hf; [lia|].
  cbn [fragment_loop]. destruct (next_range ss s start M Hok Hst) as (r & -> & Hr).
  destruct r as [[b e]|].
  2: { exists ss, true, written. split; [done|]. intros _. exists []. destruct Hr as [Hr0 Hr].
       split_and!; [apply sent_as_nil|done| |by rewrite orb_false_r].
       split; try done; [intros o Ho Hn; by destruct Hn; apply Hr|intros; split; [cbn; lia|auto]]. }
  destruct Hr as (Hb & Hem & Hbe & Hcov).
  destruct (fragment_size_spec ss msg s t M b e Hok Hq ltac:(lia) ltac:(lia)) as (Hk & Hkpos & Hkmtu & Hklim & _).
  set (k := fragment_size ss msg (length M) b e) in *.
  rewrite Z.geb_leb, (proj2 (Z.leb_gt _ _)) by lia.
  rewrite (fragment_octets_spec msg s t M) by (done || lia).
  destruct (dtls13_RememberFragment _ _ _ _ _ _ _) as [l|er|] eqn:ER.
  2: { eexists _, _, _. split; [done|done]. }
  2: { exfalso. unfold dtls13_RememberFragment in ER. destruct (fl_tls13 ss); cbn [negb] in ER; [|done].
       destruct (PORT_ZAlloc sizeof_entry) eqn:EZ; try done. unfold PORT_ZAlloc in EZ. by case_match. }
  set (n := nextSeqNum (world ss) (cwSpec msg)) in *.
  pose proof (SendFragment_spec (set_sent ss l) msg (enc_fragment (piece s t M b k)) (fl_mtu _ Hok)) as HS.
  destruct (dtls_SendFragment (set_sent ss l) msg _) as [ss1 ok1].
  destruct HS as [Hsame HS]. destruct ok1; cbn [negb]; [|eexists _, _, _; split; [done|done]].
  destruct (HS eq_refl) as [Hp1 Hout]. cbn [set_sent world] in Hout. clear HS.
  destruct (sent_one ss ss1 msg s t M b k l n Hq Hok ltac:(lia) ltac:(lia) ltac:(lia) ER Hsame Hp1 Hout) as [HS1 Hok1].
  pose proof (qa_bound _ _ _ _ Hq). rewrite wrap_small by lia.
  destruct (Z.ltb_spec (b + k) (length M)) as [Hlt|Hge].
  - destruct (IH ss1 (b + k) true Hok1 Hq ltac:(left; lia) ltac:(lia)) as (ss' & ok & w' & E & HI).
    exists ss', ok, w'. split; [done|]. intros Hokt. destruct (HI Hokt) as (nfs & HS2 & Hok2 & HF & Hw).
    exists ((n, piece s t M b k) :: nfs). split_and!; [by eapply sent_as_cons|done| |].
    + cbn [fmap list_fmap snd]. eapply (fragmented_cons ss ss1 msg s t M start b e k n); try done; lia.
    + by rewrite Hw, orb_true_r.
  - eexists ss1, true, true. split; [done|]. intros _. exists [(n, piece s t M b k)].
    split_and!; [done|done| |by rewrite orb_true_r].
    cbn [fmap list_fmap snd]. eapply (fragmented_cons ss ss1 msg s t M start b e k n); try done; lia.
Qed.

Lemma FragmentHandshake_loop ss msg s t M :
  queued_as msg s t M →
  dtls_FragmentHandshake ss msg = fragment_loop (S (length M)) ss msg s (length M) 0 false.
Proof.
  intros [_ Hd Hl Hb _ _ Hs _]. unfold dtls_FragmentHandshake, DTLS_HS_HDR_LEN.
  rewrite Hl, wrap_small by lia. replace (12 + length M - 12) with (Z.of_nat (length M)) by lia.
  rewrite Nat2Z.id, Hd. cbn [enc_fragment fst snd type message_length message_seq fragment_offset fragment_length
    be_bytes app lookup list_lookup]. 
  rewrite lor_shift_add by (pose proof (Z.mod_pos_bound s 256); lia).
  rewrite (Z.mod_small (s / 256)) by (Z.to_euclidean_division_equations; lia).
  pose proof (Z.div_mod s 256). change (2 ^ 8) with 256.
  replace (s / 256 * 256 + s mod 256) with s by lia. by rewrite wrap_small by lia.
Qed.

Lemma FragmentHandshake_spec ss msg s t M :
  flight_ok ss → queued_as msg s t M →
  ∃ ss' ok written, dtls_FragmentHandshake ss msg = Ok (ss', ok, written) ∧
    (ok = true → ∃ nfs, sent_as ss ss' msg s nfs ∧ flight_ok ss' ∧ fragmented ss msg s t M 0 nfs.*2 ∧
       written = negb (bool_decide (nfs = []))).
Proof.
  intros Hok Hq. rewrite (FragmentHandshake_loop ss msg s t M Hq).
  apply (fragment_loop_spec _ ss msg s t M 0 false); [done|done|lia|lia].
Qed.

(** ** The peer *)

Lemma chain_lower lo fs f :
  chain lo fs → Forall (λ g, 0 ≤ fragment_length g.1) fs → f ∈ fs → lo ≤ fragment_offset f.1.
Proof.
  revert lo. induction fs as [|g fs IH]; intros lo Hc Hl Hf; [by apply elem_of_nil in Hf|].
  destruct Hc as [H1 H2]. apply Forall_cons_1 in Hl as [Hg Hl].
  apply elem_of_cons in Hf as [->|Hf]; [done|]. specialize (IH _ H2 Hl Hf). lia.
Qed.

Lemma chain_before lo fs f g :
  chain lo (fs ++ [f]) → Forall (λ g, 0 ≤ fragment_length g.1) (fs ++ [f]) → g ∈ fs →
  fragment_offset g.1 + fragment_length g.1 ≤ fragment_offset f.1.
Proof.
  revert lo. induction fs as [|x fs IH]; intros lo Hc Hl Hg; [by apply elem_of_nil in Hg|].
  destruct Hc as [H1 H2]. apply Forall_cons_1 in Hl as [Hx Hl].
  apply elem_of_cons in Hg as [->|Hg]; [|by apply (IH _ H2)].
  apply (chain_lower _ (fs ++ [f])); [done|done|]. apply elem_of_app. right. by left.
Qed.

(** The fragments of a message no part of which is acknowledged complete it
    with the last one. *)
Lemma fragments_complete ss msg s t M fs f :
  fragmented ss msg s t M 0 (fs ++ [f]) → (∀ e, e ∈ acks ss → counts s e = false) →
  ¬ complete s M (λ _, False) fs ∧ complete s M (λ _, False) (fs ++ [f]).
Proof.
  intros [Hown _ Hch Hfill Hcov Hemp] Hno.
  assert (Hnoack : ∀ o, ¬ acked_at (acks ss) s o).
  { intros o (e & He & Hc & _). by rewrite (Hno e He) in Hc. }
  pose proof Hown as Hown'. apply Forall_app in Hown' as [_ Hf]. apply Forall_cons_1 in Hf as [[_ Hf] _].
  pose proof (fo_seq _ _ _ _ _ Hf) as Hseq. destruct Hf as [[_ Hfo Hfl Hfi] _ _ _]. split.
  - intros [(g & Hg & Hgs) Hall]. destruct (decide (length M = 0%nat)) as [E|Hne].
    + destruct (Hemp E) as [Hl _]. rewrite length_app in Hl. destruct fs; [by apply elem_of_nil in Hg|cbn in Hl; lia].
    + specialize (Hfill ltac:(lia)). pose proof Hfill as Hf'. apply Forall_app in Hf' as [_ Hf'].
      apply Forall_cons_1 in Hf' as [Hpos _].
      destruct (Hall (fragment_offset f.1) ltac:(lia)) as [?|(h & Hh & _ & Hr)]; [done|].
      pose proof (chain_before 0 fs f h Hch) as Hle.
      assert (Hnn : Forall (λ g, 0 ≤ fragment_length g.1) (fs ++ [f])).
      { eapply Forall_impl; [exact Hfill|]. cbn. intros x ?. lia. }
      specialize (Hle Hnn Hh). lia.
  - split; [exists f; split; [apply elem_of_app; right; by left|done]|].
    intros o Ho. right. apply Hcov; [lia|apply Hnoack].
Qed.

(** ** Flights *)

(** What a flight can hold: handshake messages, and others (ChangeCipherSpec)
    that go out as they are. *)
Definition sendable (msg : DTLSQueuedMessage) : Prop :=
  (∃ s t M, queued_as msg s t M) ∨
  q_type msg ≠ ssl_ct_handshake ∧ 0 ≤ q_len msg ≤ length (q_data msg).

(** [sent_flight ss msgs ss' kept]: the messages went out in order, each as its
    fragments or as it is; [kept] are those that may be needed again. *)
Inductive sent_flight : flight W → list DTLSQueuedMessage → flight W → list DTLSQueuedMessage → Prop :=
| sf_nil ss : sent_flight ss [] ss []
| sf_acked ss ss1 ss' msg msgs kept s t M :
    queued_as msg s t M → sent_as ss ss1 msg s [] → fragmented ss msg s t M 0 [] →
    sent_flight ss1 msgs ss' kept → sent_flight ss (msg :: msgs) ss' kept
| sf_message ss ss1 ss' msg msgs kept s t M nfs :
    queued_as msg s t M → nfs ≠ [] → sent_as ss ss1 msg s nfs → fragmented ss msg s t M 0 nfs.*2 →
    sent_flight ss1 msgs ss' kept → sent_flight ss (msg :: msgs) ss' (msg :: kept)
| sf_other ss ss1 ss' msg msgs kept n :
    q_type msg ≠ ssl_ct_handshake → same_but_out ss ss1 →
    out_records (world ss1) = out_records (world ss) ++
      [(cwSpec msg, n, q_type msg, take (Z.to_nat (q_len msg)) (q_data msg))] →
    sent_flight ss1 msgs ss' kept → sent_flight ss (msg :: msgs) ss' (msg :: kept).

(** What sending leaves alone. *)
Definition keeps ss ss' : Prop :=
  rtTimer ss' = rtTimer ss ∧ ackTimer ss' = ackTimer ss ∧ hdTimer ss' = hdTimer ss ∧
  rtRetries ss' = rtRetries ss ∧ mtu ss' = mtu ss ∧ fl_tls13 ss' = fl_tls13 ss ∧
  dtlsRcvdHandshake ss' = dtlsRcvdHandshake ss.

Lemma keeps_trans ss1 ss2 ss3 : keeps ss1 ss2 → keeps ss2 ss3 → keeps ss1 ss3.
Proof. unfold keeps. intuition congruence. Qed.
Lemma same_keeps ss ss' : same_but_out ss ss' → keeps ss ss'.
Proof. unfold same_but_out, keeps. intros ->. done. Qed.

Lemma SendFragment_keeps ss msg d : keeps ss (dtls_SendFragment ss msg d).1.
Proof.
  unfold dtls_SendFragment. destruct (ssl3_SendRecord _ _ _ _) as [w n].
  destruct (negb _); [done|]. destruct (_ <? _); [|done].
  pose proof (SendSavedWriteData_spec (set_world ss w)) as HS.
  destruct (dtls_SendSavedWriteData (set_world ss w)) as [ss' ok]. destruct HS as [HS _].
  exact (keeps_trans _ (set_world ss w) _ ltac:(done) (same_keeps _ _ HS)).
Qed.

Lemma fragment_loop_keeps fuel ss msg s contentLen start written ss' ok w :
  fragment_loop fuel ss msg s contentLen start written = Ok (ss', ok, w) → keeps ss ss'.
Proof.
  revert ss start written. induction fuel as [|fuel IH]; intros ss start written; [done|]. cbn [fragment_loop].
  destruct (dtls_NextUnackedRange _ _ _ _ _) as [[[b e]|]|]; [|by intros [= <- _ _]|done].
  destruct (_ >=? _); [by intros [= <- _ _]|].
  destruct (fragment_octets _ _ _ _) as [d| |]; [|by intros [= <- _ _]|done].
  destruct (dtls13_RememberFragment _ _ _ _ _ _ _) as [l| |]; [|by intros [= <- _ _]|done].
  pose proof (SendFragment_keeps (set_sent ss l) msg d) as HK.
  destruct (dtls_SendFragment (set_sent ss l) msg d) as [ss1 ok1]. cbn in HK.
  assert (HK1 : keeps ss ss1) by exact (keeps_trans _ (set_sent ss l) _ ltac:(done) HK).
  destruct ok1; cbn [negb]; [|by intros [= <- _ _]].
  destruct (_ <? contentLen); [|by intros [= <- _ _]]. intros E. eapply keeps_trans; [exact HK1|by eapply IH].
Qed.

Lemma transmit_one_spec ss msg :
  flight_ok ss → sendable msg →
  ∃ ss' ok written, transmit_one ss msg = Ok (ss', ok, written) ∧ keeps ss ss' ∧
    (ok = true → flight_ok ss' ∧
       ∀ msgs ss2 kept, sent_flight ss' msgs ss2 kept →
         sent_flight ss (msg :: msgs) ss2 (if written then msg :: kept else kept)).
Proof.
  intros Hok [(s & t & M & Hq)|[Hty Hlen]]; unfold transmit_one.
  - rewrite (qa_type _ _ _ _ Hq). change (ssl_ct_handshake =? ssl_ct_handshake) with true. cbn match.
    destruct (FragmentHandshake_spec ss msg s t M Hok Hq) as (ss' & ok & w & E & HI).
    exists ss', ok, w. split; [done|]. split.
    + rewrite (FragmentHandshake_loop _ _ _ _ _ Hq) in E. by eapply fragment_loop_keeps.
    + intros Hokt. destruct (HI Hokt) as (nfs & HS & Hok' & HF & ->). split; [done|].
      intros msgs ss2 kept HSF. destruct (decide (nfs = [])) as [E0|Hne].
      * rewrite bool_decide_eq_true_2 by done. rewrite E0 in HS, HF. by eapply sf_acked.
      * rewrite bool_decide_eq_false_2 by done. by eapply sf_message.
  - rewrite (proj2 (Z.eqb_neq _ _) Hty). unfold mem_read. rewrite decide_True by lia. cbn [mbind res_bind].
    rewrite drop_0. set (d := take _ _).
    pose proof (SendFragment_spec ss msg d (fl_mtu _ Hok)) as HS.
    destruct (dtls_SendFragment ss msg d) as [ss' ok]. destruct HS as [Hsame HS].
    exists ss', ok, true. split; [done|]. split; [by apply same_keeps|]. intros Hokt.
    destruct (HS Hokt) as [Hp Hout]. split.
    + destruct Hok as [Hm _ He]. split; [|done|]; rewrite Hsame; done.
    + intros msgs ss2 kept HSF. by eapply sf_other.
Qed.

Lemma transmit_messages_spec todo kept ss :
  flight_ok ss → Forall sendable todo →
  ∃ ss' ok, transmit_messages ss kept todo = Ok (ss', ok) ∧ keeps ss ss' ∧
    (ok = true → flight_ok ss' ∧ ∃ ss1 kept', sent_flight ss todo ss1 kept' ∧ ss' = set_flight ss1 (kept ++ kept')).
Proof.
  revert kept ss. induction todo as [|msg todo IH]; intros kept ss Hok Ht; cbn [transmit_messages].
  { eexists _, _. split; [done|]. split; [done|]. intros _. split; [by destruct Hok|].
    exists ss, []. split; [constructor|by rewrite app_nil_r]. }
  apply Forall_cons_1 in Ht as [Hm Ht].
  destruct (transmit_one_spec ss msg Hok Hm) as (ss1 & ok & w & -> & HK & HI). cbn [mbind res_bind].
  destruct ok; cbn [negb]; [|eexists _, _; split; [done|split; [exact HK|done]]].
  destruct (HI eq_refl) as [Hok1 HSF].
  destruct (IH (if w then kept ++ [msg] else kept) ss1 Hok1 Ht) as (ss' & ok & -> & HK' & HI').
  exists ss', ok. split; [done|]. split; [by eapply keeps_trans|]. intros Hokt.
  destruct (HI' Hokt) as (Hok' & ss2 & kept' & HS & ->). split; [done|].
  eexists ss2, _. split; [by apply HSF|]. f_equal. destruct w; [by rewrite <- app_assoc|done].
Qed.

Lemma TransmitMessageFlight_spec ss :
  flight_ok ss → Forall sendable (lastMessageFlight ss) →
  ∃ ss' ok, dtls_TransmitMessageFlight ss = Ok (ss', ok) ∧ keeps ss ss' ∧
    (ok = true → flight_ok ss' ∧ pendingBuf_len (world ss') = 0 ∧
       ∃ ss1, sent_flight ss (lastMessageFlight ss) ss1 (lastMessageFlight ss') ∧
         out_records (world ss') = out_records (world ss1) ∧
         dtlsSentHandshake ss' = dtlsSentHandshake ss1).
Proof.
  intros Hok Hs. unfold dtls_TransmitMessageFlight.
  destruct (transmit_messages_spec (lastMessageFlight ss) [] ss Hok Hs) as (ss1 & ok & -> & HK & HI).
  cbn [mbind res_bind]. destruct ok; [|eexists _, _; split; [done|split; [done|done]]].
  destruct (HI eq_refl) as (Hok1 & ss2 & kept & HSF & E).
  pose proof (SendSavedWriteData_spec ss1) as HS.
  destruct (dtls_SendSavedWriteData ss1) as [ss' ok']. destruct HS as (Hsame & Hout & Hp).
  exists ss', ok'. split; [done|]. split; [eapply keeps_trans; [exact HK|by apply same_keeps]|].
  intros Hok'. specialize (Hp Hok'). split_and!; [|done|].
  - destruct Hok1 as [Hm _ He]. split; rewrite ?Hp; rewrite Hsame; cbn; try done. lia.
  - exists ss2. split_and!; [by rewrite Hsame; cbn; rewrite E|by rewrite Hout, E|by rewrite Hsame, E].
Qed.

(** ** Retransmission *)

(** The MTU is always one of the common values. *)
Lemma SetMTU_spec ss adv :
  mtu (dtls_SetMTU ss adv) ∈ COMMON_MTU_VALUES ∧
  (256 - 28 ≤ adv → mtu (dtls_SetMTU ss adv) ≤ adv ∧
     ∀ v, v ∈ COMMON_MTU_VALUES → v ≤ adv → v ≤ mtu (dtls_SetMTU ss adv)).
Proof.
  assert (Hmem : ∀ v, v ∈ COMMON_MTU_VALUES ↔ v = 1472 ∨ v = 1252 ∨ v = 548 ∨ v = 228).
  { intros v. unfold COMMON_MTU_VALUES. rewrite !elem_of_cons, elem_of_nil. change (1500 - 28) with 1472.
    change (1280 - 28) with 1252. change (576 - 28) with 548. change (256 - 28) with 228. tauto. }
  unfold dtls_SetMTU. destruct (Z.eqb_spec adv 0) as [->|].
  { split; [by apply Hmem; left|lia]. }
  simpl. repeat case_decide; simpl; (split; [apply Hmem; lia|]); intros; (split; [lia|]);
    intros v Hv%Hmem ?; lia.
Qed.

(** Between transmissions: nothing waits in pendingBuf. *)
Record ready ss : Prop := mk_ready {
  rd_mtu : mtu ss ∈ COMMON_MTU_VALUES;
  rd_pending : pendingBuf_len (world ss) = 0;
  rd_entries : Forall entry_ok (dtlsSentHandshake ss);
  rd_queue : Forall sendable (lastMessageFlight ss);
}.

Lemma common_mtu v : v ∈ COMMON_MTU_VALUES → DTLS_MIN_FRAGMENT ≤ v ≤ 1500 - 28.
Proof.
  unfold COMMON_MTU_VALUES, DTLS_MIN_FRAGMENT, DTLS_MAX_EXPANSION, DTLS_HS_HDR_LEN, DTLS_RECORD_HEADER_LENGTH.
  rewrite !elem_of_cons, elem_of_nil. lia.
Qed.

Lemma ready_ok ss : ready ss → flight_ok ss.
Proof. intros [Hm Hp He _]. pose proof (common_mtu _ Hm). split; [done|lia|done]. Qed.

Lemma sent_flight_kept ss msgs ss' kept : sent_flight ss msgs ss' kept → Forall sendable msgs → Forall sendable kept.
Proof.
  induction 1; intros HF; [done|..]; apply Forall_cons_1 in HF as [? HF]; [by auto|apply Forall_cons_2; auto..].
Qed.

(** The timer fires, if it is armed, as dtls_CheckTimer makes it fire. *)
Definition fire ss : mem_res (flight W) :=
  match cb (rtTimer ss) with
  | Some c => run_cb (set_rt ss (dtls_CancelTimer (rtTimer ss)) (rtRetries ss)) c
  | None => Ok ss
  end.

Fixpoint fire_n (k : nat) ss : mem_res (flight W) :=
  match k with O => Ok ss | S k => ss ← fire_n k ss; fire ss end.

(** The timer is off, or armed for [t] after [r] retransmissions. *)
Definition armed_for ss (t r : Z) : Prop :=
  cb (rtTimer ss) = None ∨
  (cb (rtTimer ss) = Some RetransmitTimerExpiredCb ∧ ready ss ∧ timeout (rtTimer ss) = t ∧ rtRetries ss = r).

Lemma fire_spec ss t r :
  armed_for ss t r → 0 ≤ t ≤ DTLS_RETRANSMIT_MAX_MS →
  ∃ ss', fire ss = Ok ss' ∧ armed_for ss' (Z.min DTLS_RETRANSMIT_MAX_MS (2 * t)) (u32 (r + 1)).
Proof.
  unfold DTLS_RETRANSMIT_MAX_MS. intros [Ha|(Ha & Hr & Ht & Hrr)] Hb; unfold fire; rewrite Ha.
  { eexists. split; [done|by left]. }
  cbn [run_cb]. unfold dtls_RetransmitTimerExpiredCb. set (ss1 := set_rt _ _ (u32 _)).
  set (ss2 := if rtRetries ss1 mod 3 =? 0 then _ else ss1).
  assert (H2 : ready ss2 ∧ rtTimer ss2 = dtls_CancelTimer (rtTimer ss) ∧ rtRetries ss2 = u32 (r + 1)).
  { destruct Hr as [Hm Hp He Hq]. unfold ss2. destruct (rtRetries ss1 mod 3 =? 0).
    - unfold dtls_SetMTU at 1 2 3. pose proof (SetMTU_spec ss1 (u16 (maxMessageSent ss1 - 1))) as [Hmem _].
      split; [split; [exact Hmem|..]|]; unfold dtls_SetMTU; repeat case_match; try done; cbn; by rewrite Hrr.
    - split; [by split|]. cbn. by rewrite Hrr. }
  destruct H2 as (Hr2 & Ht2 & Hr2'). clearbody ss2.
  destruct (TransmitMessageFlight_spec ss2 (ready_ok _ Hr2) (rd_queue _ Hr2)) as (ss3 & ok & -> & HK & HI).
  cbn [mbind res_bind]. destruct HK as (Hk1 & _ & _ & Hk2 & Hk3 & _).
  destruct ok; cbn [negb].
  2: { eexists. split; [done|]. left. by rewrite Hk1, Ht2. }
  eexists. split; [done|]. right. cbn [set_rt rtTimer cb timeout rtRetries].
  rewrite Hk1, Ht2, Hk2, Hr2'. cbn [dtls_CancelTimer timeout]. rewrite Ht, wrap_small by lia.
  split_and!; [done| |unfold DTLS_RETRANSMIT_MAX_MS; destruct (Z.gtb_spec (t * 2) 10000); lia|done].
  destruct (HI eq_refl) as (Hok3 & Hp3 & ss4 & HSF & _). destruct Hr2 as [Hm2 _ _ Hq2].
  split; cbn; [by rewrite Hk3|done|by destruct Hok3|by eapply sent_flight_kept].
Qed.

Lemma fire_n_spec k ss r0 :
  armed_for ss DTLS_RETRANSMIT_INITIAL_MS r0 →
  ∃ ss', fire_n k ss = Ok ss' ∧
    armed_for ss' (Z.min DTLS_RETRANSMIT_MAX_MS (DTLS_RETRANSMIT_INITIAL_MS * 2 ^ k)) (Nat.iter k (λ r, u32 (r + 1)) r0).
Proof.
  intros Ha. unfold DTLS_RETRANSMIT_MAX_MS, DTLS_RETRANSMIT_INITIAL_MS in *.
  induction k as [|k (ss1 & E & IH)]; cbn [fire_n].
  { exists ss. split; [done|]. exact Ha. }
  rewrite E. cbn [mbind res_bind]. destruct (fire_spec ss1 _ _ IH) as (ss' & E' & HA).
  { unfold DTLS_RETRANSMIT_MAX_MS. pose proof (Z.pow_pos_nonneg 2 k). lia. }
  exists ss'. split; [done|]. revert HA. unfold DTLS_RETRANSMIT_MAX_MS.
  replace (Z.of_nat (S k)) with (1 + Z.of_nat k) by lia. rewrite Z.pow_add_r, Z.pow_1_r by lia.
  replace (10000 `min` (2 * (10000 `min` (50 * 2 ^ k)))) with (10000 `min` (50 * (2 * 2 ^ k))) by lia. done.
Qed.
End DtlsFlight.

(** A record as the peer's record layer passes it on. *)
Definition wire (r : ssl3CipherSpec * Z * Z * list Z) : Z * Z * list Z :=
  (spec_epoch r.1.1.1, r.1.1.2, r.2).

(** Cutting a handshake message into DTLS fragments.  For a queued message
    of any length the code stops and stays inside its buffers.  When it
    succeeds, the records it built are fragments of the message, disjoint, in
    order, not longer than the record size limit, and hold every octet the
    peer has not acknowledged; each is remembered under the number of its
    record; and the message is dropped from the flight only if the peer has
    acknowledged all of it. *)
Theorem FragmentHandshake_correct {W} `{DtlsOut W} `{NSPRHeap} (ss : flight W) msg s t M :
  flight_ok ss → queued_as msg s t M →
  ∃ ss' ok written, dtls_FragmentHandshake ss msg = Ok (ss', ok, written) ∧
    (ok = true → ∃ nfs, sent_as ss ss' msg s nfs ∧ flight_ok ss' ∧ fragmented ss msg s t M 0 nfs.*2 ∧
       (written = false ↔ nfs = []) ∧
       (written = false → (∀ o, 0 ≤ o < length M → acked_at (acks ss) s o) ∧
          (length M = 0%nat → ∃ e, e ∈ acks ss ∧ counts s e = true ∧ e_length e = 0))).
Proof.
  intros Hok Hq. destruct (FragmentHandshake_spec ss msg s t M Hok Hq) as (ss' & ok & w & E & HI).
  exists ss', ok, w. split; [done|]. intros Hokt. destruct (HI Hokt) as (nfs & HS & Hok' & HF & ->).
  exists nfs. rewrite negb_false_iff, bool_decide_eq_true. split_and!; try done.
  intros ->. destruct HF as [_ _ _ _ Hcov Hemp]. split.
  - intros o Ho. destruct (decide (acked_at (acks ss) s o)) as [|Hn]; [done|].
    destruct (Hcov o Ho Hn) as (f & Hf & _). by apply elem_of_nil in Hf.
  - intros HM. by apply Hemp.
Qed.

(** [C19] Sender and receiver together.  A handshake message none of which is
    acknowledged yet, cut into records by dtls_FragmentHandshake and handled
    record by record by a peer that expects it, comes out at the peer exactly
    once, with its type and exactly its octets, unless the peer runs out of
    memory or its upper layer refuses. *)
Theorem message_reaches_peer {W} `{DtlsOut W} {U} `{HandshakeUpper U} `{NSPRHeap}
    (ss : flight W) msg s t M (peer : hsIn U) :
  flight_ok ss → queued_as msg s t M → (∀ e, e ∈ acks ss → counts s e = false) →
  asm_bufs peer → recvMessageSeq peer = s → recvdHighWater peer = -1 →
  ∃ ss' ok written, dtls_FragmentHandshake ss msg = Ok (ss', ok, written) ∧
    (ok = true → ∃ recs, out_records (world ss') = out_records (world ss) ++ recs ∧
       ∃ peer' rv, dtls_records peer (wire <$> recs) = Ok (peer', rv) ∧
         match rv with
         | HsOk => delivered (upper peer') = delivered (upper peer) ++ [(t, M)]
         | _ => blame t M rv ∧
                (delivered (upper peer') = delivered (upper peer) ∨
                 delivered (upper peer') = delivered (upper peer) ++ [(t, M)])
         end).
Proof.
  intros Hok Hq Hno Hpb Hps Hpw.
  destruct (FragmentHandshake_spec ss msg s t M Hok Hq) as (ss' & ok & w & E & HI).
  exists ss', ok, w. split; [done|]. intros Hokt. destruct (HI Hokt) as (nfs & [Ho _ _] & _ & HF & _).
  eexists. split; [exact Ho|].
  destruct nfs as [|[n f] nfs _] using rev_ind.
  { exfalso. destruct HF as [_ _ _ _ Hcov Hemp]. destruct (decide (length M = 0%nat)) as [EM|].
    - destruct (Hemp EM) as [_ He]. destruct (He eq_refl) as (e & He' & Hc & _). by rewrite (Hno e He') in Hc.
    - destruct (Hcov 0) as (g & Hg & _); [lia| |by apply elem_of_nil in Hg].
      intros (e & He & Hc & _). by rewrite (Hno e He) in Hc. }
  rewrite fmap_app in HF. cbn [fmap list_fmap snd] in HF.
  destruct (fragments_complete _ _ _ _ _ _ _ HF Hno) as [Hn Hc].
  pose proof (fr_own _ _ _ _ _ _ _ HF) as Hown. apply Forall_app in Hown as [Hown Hf].
  apply Forall_cons_1 in Hf as [Hf _].
  set (records := (λ nf : Z * (fragHeader * list Z), mk_dtls_record (spec_epoch (cwSpec msg)) nf.1 [nf.2] []) <$> nfs).
  assert (Hfs : concat (r_fragments <$> records) = nfs.*2).
  { unfold records. clear. induction nfs as [|nf nfs IH]; [done|]. cbn. by rewrite IH. }
  assert (Hwire : wire <$> ((λ nf : Z * (fragHeader * list Z), (cwSpec msg, nf.1, q_type msg, enc_fragment nf.2)) <$> nfs ++ [(n, f)]) =
    (record_bytes <$> records) ++ [(spec_epoch (cwSpec msg), n, concat (enc_fragment <$> ([] ++ [f])))]).
  { unfold records. rewrite !fmap_app. cbn [fmap list_fmap app concat]. rewrite app_nil_r. f_equal.
    clear. induction nfs as [|nf nfs IH]; [done|]. cbn [fmap list_fmap]. rewrite IH. f_equal.
    unfold wire, record_bytes. cbn. by rewrite !app_nil_r. }
  rewrite Hwire. apply (reassemble_records peer s t M records (spec_epoch (cwSpec msg)) n [] f); try done.
  - split; [done|done|]. left. split; [done|tauto].
  - destruct Hq. split; [done|]. unfold MAX_HANDSHAKE_MSG_LEN. lia.
  - unfold records. apply Forall_fmap, Forall_forall. intros x Hx. split; [|by left]. apply Forall_cons_2; [|apply Forall_nil_2]. left.
    rewrite Forall_forall in Hown. apply Hown. apply list_elem_of_fmap. by exists x.
  - by rewrite Hfs, app_nil_r.
  - by rewrite Hfs, app_nil_r.
Qed.

(** A flight goes out in order: each handshake message as the fragments
    that hold what the peer has not acknowledged, every other message as it
    is, and then pendingBuf is flushed; only messages the peer has wholly
    acknowledged are dropped.  The code stops and stays inside its buffers
    whatever the flight holds. *)
Theorem flight_transmitted {W} `{DtlsOut W} `{NSPRHeap} (ss : flight W) :
  flight_ok ss → Forall sendable (lastMessageFlight ss) →
  ∃ ss' ok, dtls_TransmitMessageFlight ss = Ok (ss', ok) ∧ keeps ss ss' ∧
    (ok = true → flight_ok ss' ∧ pendingBuf_len (world ss') = 0 ∧
       ∃ ss1, sent_flight ss (lastMessageFlight ss) ss1 (lastMessageFlight ss') ∧
         out_records (world ss') = out_records (world ss1) ∧
         dtlsSentHandshake ss' = dtlsSentHandshake ss1).
Proof. apply TransmitMessageFlight_spec. Qed.

(** Retransmission backs off.  After the timer has fired [k] times, either
    a transmission failed and the timer is off, or it is armed for twice the
    time of the last round, starting from DTLS_RETRANSMIT_INITIAL_MS and never
    above DTLS_RETRANSMIT_MAX_MS, with the flight ready to be sent again. *)
Theorem retransmit_backoff {W} `{DtlsOut W} `{NSPRHeap} (ss : flight W) k :
  ready ss → cb (rtTimer ss) = None ∨ cb (rtTimer ss) = Some RetransmitTimerExpiredCb →
  ∃ ss', fire_n k (dtls_StartRetransmitTimer ss) = Ok ss' ∧
    armed_for ss' (Z.min DTLS_RETRANSMIT_MAX_MS (DTLS_RETRANSMIT_INITIAL_MS * 2 ^ k))
      (Nat.iter k (λ r, u32 (r + 1)) 0).
Proof.
  intros [? ? ? ?] Hc. apply fire_n_spec. right. unfold dtls_StartRetransmitTimer.
  destruct Hc as [-> | ->]; done.
Qed.

(** The loop over the timers, started with the least time found so far. *)
Lemma timeout_loop_spec {W} `{DtlsOut W} now timers found best :
  Forall (λ t, 0 ≤ PR_MillisecondsToInterval (timeout t) < 2 ^ 31) timers →
  found = true ∨ best = PR_INTERVAL_NO_TIMEOUT →
  match timeout_loop now timers found best with
  | None => found = false ∧ Forall (λ t, cb t = None) timers
  | Some to =>
      (to = best ∧ found = true ∨
       ∃ t, t ∈ timers ∧ cb t ≠ None ∧ 0 ≤ to < 2 ^ 31 ∧
         PR_MillisecondsToInterval (timeout t) ≤ u32 (now - started t) + to) ∧
      (to = 0 ∨ to ≤ best ∧ ∀ t, t ∈ timers → cb t ≠ None →
         u32 (now - started t) + to ≤ PR_MillisecondsToInterval (timeout t))
  end.
Proof.
  revert found best. induction timers as [|t timers IH]; intros found best Hd Hf; cbn [timeout_loop].
  { destruct found; [|done]. split; [by left|]. right. split; [lia|]. intros t Ht. by apply elem_of_nil in Ht. }
  apply Forall_cons_1 in Hd as [Ht Hd]. destruct (cb t) as [c|] eqn:Ec.
  - pose proof (wrap_range 32 (now - started t) ltac:(lia)) as Hw.
    destruct (Z.gtb_spec (u32 (now - started t)) (PR_MillisecondsToInterval (timeout t))) as [Hgt|Hle].
    { unfold PR_INTERVAL_NO_WAIT. split; [|by left]. right. exists t. split_and!; [by left|by rewrite Ec|lia|lia|lia]. }
    rewrite (wrap_small 32 (PR_MillisecondsToInterval _ - _)) by lia.
    set (to := PR_MillisecondsToInterval (timeout t) - u32 (now - started t)).
    specialize (IH true (if best >? to then to else best) Hd ltac:(by left)).
    destruct (timeout_loop now timers true _) as [r|]; [|by destruct IH].
    destruct IH as [H1 H2]. rewrite Z.gtb_ltb in *. split.
    + destruct H1 as [[-> _]|(x & Hx & ?)]; [|right; exists x; split; [by right|done]].
      destruct (Z.ltb_spec to best); [|left; split; [done|]; destruct Hf as [?|Hf]; [done|unfold PR_INTERVAL_NO_TIMEOUT, to in *; lia]].
      right. exists t. split_and!; [by left|by rewrite Ec|unfold to; lia..].
    + destruct H2 as [->|[Hb H2]]; [by left|right]. split; [destruct (Z.ltb_spec to best); lia|].
      intros x [->|Hx]%elem_of_cons Hc; [|by apply H2]. destruct (Z.ltb_spec to best); unfold to in *; lia.
  - specialize (IH found best Hd Hf). destruct (timeout_loop now timers found best) as [r|].
    + destruct IH as [H1 H2]. split.
      * destruct H1 as [?|(x & Hx & ?)]; [by left|right; exists x; split; [by right|done]].
      * destruct H2 as [?|[? H2]]; [by left|right]. split; [done|]. intros x [->|Hx]%elem_of_cons Hc; [done|by apply H2].
    + destruct IH as [-> IH]. split; [done|by apply Forall_cons_2].
Qed.

(** [C20] DTLS_GetHandshakeTimeout is exact.  It fails only when no timer is
    armed; waiting for the time it returns makes dtls_CheckTimer fire a timer,
    and none is due before. *)
Theorem handshake_timeout_exact {W} `{DtlsOut W} (now : Z) (timers : list dtlsTimer) :
  Forall (λ t, 0 ≤ PR_MillisecondsToInterval (timeout t) < 2 ^ 31) timers →
  match timeout_loop now timers false PR_INTERVAL_NO_TIMEOUT with
  | None => Forall (λ t, cb t = None) timers
  | Some to =>
      0 ≤ to < 2 ^ 31 ∧
      (∃ t, t ∈ timers ∧ cb t ≠ None ∧
         PR_MillisecondsToInterval (timeout t) ≤ u32 (now - started t) + to) ∧
      ∀ t, t ∈ timers → cb t ≠ None → to = 0 ∨
         u32 (now - started t) + to ≤ PR_MillisecondsToInterval (timeout t)
  end.
Proof.
  intros Hd. pose proof (timeout_loop_spec now timers false PR_INTERVAL_NO_TIMEOUT Hd ltac:(by right)) as HS.
  destruct (timeout_loop _ _ _ _) as [to|]; [|by destruct HS].
  destruct HS as [[[_ ?]|(t & Ht & Hc & Hr & Hdue)] H2]; [done|].
  split_and!; [lia|lia|by exists t|]. intros x Hx Hcx. destruct H2 as [?|[_ H2]]; [by left|right; by apply H2].
Qed.

(** A record layer that keeps what it is given; used to evaluate the models. *)
Record sock := mk_sock { s_out : list (ssl3CipherSpec * Z * Z * list Z); s_pending : Z }.

#[global] Instance sock_out : DtlsOut sock.
Proof.
  refine {| ssl3_SendRecord w sp ct d :=
              (mk_sock (match sp with
                        | Some sp => s_out w ++ [(sp, length (s_out w) mod 2 ^ 48, ct, d)]
                        | None => s_out w
                        end) (s_pending w + 13 + length d), Z.of_nat (length d));
            ssl_SendSavedWriteData w := (mk_sock (s_out w) 0, s_pending w mod 2 ^ 31);
            pendingBuf_len w := s_pending w mod 2 ^ 31;
            nextSeqNum w _ := length (s_out w) mod 2 ^ 48;
            PR_IntervalNow _ := 0;
            PR_MillisecondsToInterval t := t;
            send_alert w := w;
            release_handshake_keys w := w;
            out_records := s_out |}.
  - intros w sp ct d w' [= <-]. done.
  - done.
  - intros w. apply Z.mod_pos_bound. lia.
  - intros w _. pose proof (Z.mod_pos_bound (length (s_out w)) (2 ^ 48) ltac:(lia)). unfold RECORD_SEQ_MAX. lia.
Defined.

Definition no_timer : dtlsTimer := mk_timer None 0 0.
Definition fresh_flight (sent : list DTLSHandshakeRecordEntry) (tls13 : bool) : flight sock :=
  mk_flight [] sent [] 228 0 no_timer no_timer no_timer 0 tls13 (mk_sock [] 0).
Definition sample_message : list Z := [10; 20; 30; 40; 50; 60; 70].
Definition sample_queued : DTLSQueuedMessage :=
  mk_queued (mk_spec 0 2 15) ssl_ct_handshake (enc_fragment (mk_fragHeader 2 7 5 0 7, sample_message)) 19.

Lemma sample_queued_as : queued_as sample_queued 5 2 sample_message.
Proof. split; try done. repeat constructor; done. Qed.

Lemma fresh_flight_ok sent tls13 : Forall entry_ok sent → flight_ok (fresh_flight sent tls13).
Proof. intros. by split. Qed.

Lemma FragmentHandshake_correct_witness :
  let ss := fresh_flight [mk_entry 5 3 3 77 true] true in
  (∃ ss' ok written, dtls_FragmentHandshake ss sample_queued = Ok (ss', ok, written) ∧
    (ok = true → ∃ nfs, sent_as ss ss' sample_queued 5 nfs ∧ flight_ok ss' ∧
       fragmented ss sample_queued 5 2 sample_message 0 nfs.*2 ∧
       (written = false ↔ nfs = []) ∧
       (written = false → (∀ o, 0 ≤ o < length sample_message → acked_at (acks ss) 5 o) ∧
          (length sample_message = 0%nat → ∃ e, e ∈ acks ss ∧ counts 5 e = true ∧ e_length e = 0)))) ∧
  match dtls_FragmentHandshake ss sample_queued with
  | Ok (ss', ok, _) => ok = true ∧ out_records (world ss') =
      [(mk_spec 0 2 15, 0, 22, enc_fragment (fragment_at 2 7 5 0 [10; 20; 30]));
       (mk_spec 0 2 15, 1, 22, enc_fragment (fragment_at 2 7 5 6 [70]))]
  | _ => False
  end.
Proof.
  intros ss. split.
  - apply (FragmentHandshake_correct ss sample_queued 5 2 sample_message); [|exact sample_queued_as].
    apply fresh_flight_ok. apply Forall_cons_2; [unfold entry_ok; cbn; lia|apply Forall_nil_2].
  - vm_compute. done.
Defined.

Lemma message_reaches_peer_witness :
  let ss := fresh_flight [] true in
  let peer := set_seq hs_idle 5 in
  ∃ ss' ok written, dtls_FragmentHandshake ss sample_queued = Ok (ss', ok, written) ∧
    (ok = true → ∃ recs, out_records (world ss') = out_records (world ss) ++ recs ∧
       ∃ peer' rv, dtls_records peer (wire <$> recs) = Ok (peer', rv) ∧
         match rv with
         | HsOk => delivered (upper peer') = delivered (upper peer) ++ [(2, sample_message)]
         | _ => blame 2 sample_message rv ∧
                (delivered (upper peer') = delivered (upper peer) ∨
                 delivered (upper peer') = delivered (upper peer) ++ [(2, sample_message)])
         end).
Proof.
  intros ss peer. apply (message_reaches_peer ss sample_queued 5 2 sample_message peer).
  - apply fresh_flight_ok, Forall_nil_2.
  - exact sample_queued_as.
  - intros e He. by apply elem_of_nil in He.
  - destruct hs_idle_safe as [[? ? ? ?] _]. done.
  - done.
  - done.
Defined.

Lemma flight_transmitted_witness :
  let ss := set_flight (fresh_flight [] true) [sample_queued; mk_queued (mk_spec 0 2 15) 20 [1] 1] in
  (∃ ss' ok, dtls_TransmitMessageFlight ss = Ok (ss', ok) ∧ keeps ss ss' ∧
    (ok = true → flight_ok ss' ∧ pendingBuf_len (world ss') = 0 ∧
       ∃ ss1, sent_flight ss (lastMessageFlight ss) ss1 (lastMessageFlight ss') ∧
         out_records (world ss') = out_records (world ss1) ∧
         dtlsSentHandshake ss' = dtlsSentHandshake ss1)) ∧
  match dtls_TransmitMessageFlight ss with
  | Ok (ss', ok) => ok = true ∧ length (out_records (world ss')) = 4%nat
  | _ => False
  end.
Proof.
  intros ss. split.
  - apply (flight_transmitted ss).
    + by split.
    + apply Forall_cons_2; [left; eexists _, _, _; exact sample_queued_as|].
      apply Forall_cons_2; [by right|apply Forall_nil_2].
  - vm_compute. done.
Defined.

Lemma retransmit_backoff_witness :
  let ss := set_flight (fresh_flight [] true) [sample_queued] in
  (∃ ss', fire_n 9 (dtls_StartRetransmitTimer ss) = Ok ss' ∧
     armed_for ss' (Z.min DTLS_RETRANSMIT_MAX_MS (DTLS_RETRANSMIT_INITIAL_MS * 2 ^ 9))
       (Nat.iter 9 (λ r, u32 (r + 1)) 0)) ∧
  match fire_n 9 (dtls_StartRetransmitTimer ss) with
  | Ok ss' => cb (rtTimer ss') = Some RetransmitTimerExpiredCb ∧ timeout (rtTimer ss') = 10000
  | _ => False
  end.
Proof.
  intros ss. split.
  - apply (retransmit_backoff ss 9); [|by left].
    split; [unfold COMMON_MTU_VALUES; rewrite !elem_of_cons; cbn; lia|done|apply Forall_nil_2|].
    apply Forall_cons_2; [left; eexists _, _, _; exact sample_queued_as|apply Forall_nil_2].
  - vm_compute. done.
Defined.

Lemma handshake_timeout_exact_witness :
  let timers := [mk_timer (Some RetransmitTimerExpiredCb) 5 100; mk_timer None 0 7; mk_timer (Some SendAckCb) 40 30] in
  match timeout_loop (W:=sock) 50 timers false PR_INTERVAL_NO_TIMEOUT with
  | None => Forall (λ t, cb t = None) timers
  | Some to =>
      0 ≤ to < 2 ^ 31 ∧
      (∃ t, t ∈ timers ∧ cb t ≠ None ∧
         PR_MillisecondsToInterval (timeout t) ≤ u32 (50 - started t) + to) ∧
      ∀ t, t ∈ timers → cb t ≠ None → to = 0 ∨
         u32 (50 - started t) + to ≤ PR_MillisecondsToInterval (timeout t)
  end.
Proof.
  intros timers. apply (handshake_timeout_exact (W:=sock) 50 timers).
  repeat (apply Forall_cons_2; [cbn; lia|]). apply Forall_nil_2.
Defined.
