(* ===== verification/ConstTime.v ===== *)
(** lib/util/secport.h: selecting and comparing without branches.

    A mask is all ones for true and zero for false.  The macros compute masks
    by spreading the top bit of a 32-bit value; [CT_ZERO_mask] and its siblings
    say which comparison each of them makes.  PORT_CT_GT and the macros built on
    it look at the top bit of the difference, so that they compare as intended
    only when the two values are less than 2^31 apart. *)

From stdpp Require Import base numbers.
From S2P Require Import Prelude.

Definition not32 (x : Z) : Z := 2 ^ 32 - 1 - x.
Definition PORT_CT_DUPLICATE_MSB_TO_ALL (x : Z) : Z := u32 (Z.shiftr (swrap 32 (u32 x)) 31).
Definition PORT_CT_SEL (m l r : Z) : Z := Z.lor (Z.land m l) (Z.land (not32 m) r).
Definition PORT_CT_NOT_ZERO (x : Z) : Z := PORT_CT_DUPLICATE_MSB_TO_ALL (Z.lor x (u32 (0 - x))).
Definition PORT_CT_ZERO (x : Z) : Z := not32 (PORT_CT_DUPLICATE_MSB_TO_ALL (Z.lor x (u32 (0 - x)))).
Definition PORT_CT_EQ (a b : Z) : Z := PORT_CT_ZERO (u32 (a - b)).
Definition PORT_CT_NE (a b : Z) : Z := PORT_CT_NOT_ZERO (u32 (a - b)).
Definition PORT_CT_GT (a b : Z) : Z := PORT_CT_DUPLICATE_MSB_TO_ALL (u32 (b - a)).
Definition PORT_CT_LT (a b : Z) : Z := PORT_CT_DUPLICATE_MSB_TO_ALL (u32 (a - b)).
Definition PORT_CT_GE (a b : Z) : Z := not32 (PORT_CT_LT a b).
Definition PORT_CT_LE (a b : Z) : Z := not32 (PORT_CT_GT a b).
Definition PORT_CT_TRUE : Z := 2 ^ 32 - 1.

Definition mask (b : bool) : Z := if b then 2 ^ 32 - 1 else 0.

Lemma land_mask a b : Z.land (mask a) (mask b) = mask (a && b).
Proof. by destruct a, b. Qed.

Lemma SEL_mask m l r : PORT_CT_SEL (mask m) (mask l) (mask r) = mask (if m then l else r).
Proof. by destruct m, l, r. Qed.

Lemma not32_mask b : not32 (mask b) = mask (negb b).
Proof. by destruct b. Qed.

Lemma mask_zero b : (mask b =? 0) = negb b.
Proof. by destruct b. Qed.

Lemma DUPLICATE_MSB_mask x : 0 ≤ x < 2 ^ 32 → PORT_CT_DUPLICATE_MSB_TO_ALL x = mask (2 ^ 31 <=? x).
Proof.
  intros Hx. unfold PORT_CT_DUPLICATE_MSB_TO_ALL. rewrite (wrap_small 32 x) by done. unfold swrap.
  change (2 ^ (32 - 1)) with (2 ^ 31). rewrite Z.shiftr_div_pow2 by lia.
  destruct (Z.leb_spec (2 ^ 31) x) as [Hle|Hgt].
  - replace ((x + 2 ^ 31) mod 2 ^ 32) with (x - 2 ^ 31) by (apply Z.mod_unique with 1; lia).
    replace ((x - 2 ^ 31 - 2 ^ 31) / 2 ^ 31) with (-1) by (apply Z.div_unique with (x - 2 ^ 31); lia). done.
  - rewrite Z.mod_small by lia. replace ((x + 2 ^ 31 - 2 ^ 31) / 2 ^ 31) with 0 by (apply Z.div_unique with x; lia). done.
Qed.

Lemma testbit_msb x : 0 ≤ x < 2 ^ 32 → Z.testbit x 31 = (2 ^ 31 <=? x).
Proof.
  intros Hx. destruct (Z.leb_spec (2 ^ 31) x).
  - rewrite Z.testbit_true by lia. replace (x / 2 ^ 31) with 1 by (apply Z.div_unique with (x - 2 ^ 31); lia). done.
  - apply (testbit_high x 31); lia.
Qed.

Lemma CT_ZERO_mask x : 0 ≤ x < 2 ^ 32 → PORT_CT_ZERO x = mask (x =? 0).
Proof.
  intros Hx. unfold PORT_CT_ZERO. pose proof (wrap_range 32 (0 - x) ltac:(lia)) as Hw.
  pose proof (lor_range x (u32 (0 - x)) 32 ltac:(lia) Hx Hw) as Hl.
  rewrite DUPLICATE_MSB_mask, not32_mask, <- testbit_msb by done. f_equal.
  rewrite Z.lor_spec, !testbit_msb by done. destruct (Z.eqb_spec x 0) as [->|Hne]; [done|].
  apply negb_false_iff, orb_true_iff. unfold wrap. rewrite !Z.leb_le.
  destruct (decide (2 ^ 31 ≤ x)); [by left|right]. rewrite <- (Z.mod_unique (0 - x) (2 ^ 32) (-1) (2 ^ 32 - x)); lia.
Qed.

Lemma CT_EQ_mask a b : 0 ≤ a < 2 ^ 32 → 0 ≤ b < 2 ^ 32 → PORT_CT_EQ a b = mask (a =? b).
Proof.
  intros Ha Hb. unfold PORT_CT_EQ. rewrite CT_ZERO_mask by (apply wrap_range; lia). f_equal. unfold wrap.
  destruct (Z.eqb_spec a b) as [->|Hne]; [by rewrite Z.sub_diag|]. apply Z.eqb_neq.
  destruct (decide (a < b)).
  - rewrite <- (Z.mod_unique (a - b) (2 ^ 32) (-1) (a - b + 2 ^ 32)); lia.
  - rewrite Z.mod_small; lia.
Qed.

Lemma CT_GT_mask a b : PORT_CT_GT a b = mask (2 ^ 31 <=? u32 (b - a)).
Proof. unfold PORT_CT_GT. apply DUPLICATE_MSB_mask, wrap_range. lia. Qed.

Lemma CT_NOT_ZERO_mask x : 0 ≤ x < 2 ^ 32 → PORT_CT_NOT_ZERO x = mask (negb (x =? 0)).
Proof.
  intros Hx. assert (Hn : ∀ y, y = not32 (not32 y)) by (intros y; unfold not32; lia).
  rewrite (Hn (PORT_CT_NOT_ZERO x)), <- not32_mask. f_equal. by apply CT_ZERO_mask.
Qed.

Lemma CT_NE_mask a b : 0 ≤ a < 2 ^ 32 → 0 ≤ b < 2 ^ 32 → PORT_CT_NE a b = mask (negb (a =? b)).
Proof.
  intros Ha Hb. assert (Hn : ∀ y, y = not32 (not32 y)) by (intros y; unfold not32; lia).
  rewrite (Hn (PORT_CT_NE a b)), <- not32_mask. f_equal. by apply CT_EQ_mask.
Qed.

(** Comparisons of values that are less than 2^31 apart. *)
Lemma CT_LT_near a b : - 2 ^ 31 ≤ a - b < 2 ^ 31 → PORT_CT_LT a b = mask (a <? b).
Proof.
  intros Hab. unfold PORT_CT_LT. rewrite DUPLICATE_MSB_mask by (apply wrap_range; lia). f_equal. unfold wrap.
  destruct (Z.ltb_spec a b).
  - rewrite <- (Z.mod_unique (a - b) (2 ^ 32) (-1) (a - b + 2 ^ 32)) by lia. apply Z.leb_le. lia.
  - rewrite Z.mod_small by lia. apply Z.leb_gt. lia.
Qed.

Lemma CT_GT_near a b : - 2 ^ 31 ≤ b - a < 2 ^ 31 → PORT_CT_GT a b = mask (b <? a).
Proof. apply (CT_LT_near b a). Qed.

Lemma CT_GE_near a b : - 2 ^ 31 ≤ a - b < 2 ^ 31 → PORT_CT_GE a b = mask (b <=? a).
Proof. intros Hab. unfold PORT_CT_GE. rewrite CT_LT_near, not32_mask by done. by rewrite <- Z.leb_antisym. Qed.
