(* ===== verification/KeyWrap.v ===== *)
(** lib/freebl/aeskeywrap.c: AES key wrap (RFC 3394) and key wrap with padding
    (RFC 5649), as compiled for little-endian machines.

    The block cipher is the class [AESBlock]: encryption and decryption of one
    block with a context's key, inverse to each other.  64-bit values are kept
    as the eight octets they occupy in memory, most significant first, and the
    counter is stepped octet by octet as the code does.

    [KeyWrap_reference] says that the code computes the algorithm of the
    RFC, [KeyWrap_round_trip] and [KWP_round_trip] that unwrapping inverts
    wrapping, [DecryptKWP_decides] that the constant-time check of the padding
    accepts exactly what it should and that nothing leaks when it does not. *)

From stdpp Require Import base numbers list.
From S2P Require Import Prelude Port ConstTime.

Definition AES_BLOCK_SIZE : Z := 16.
Definition AES_KEY_WRAP_BLOCK_SIZE : Z := AES_BLOCK_SIZE / 2.
Definition AES_KEY_WRAP_IV_BYTES : Z := AES_KEY_WRAP_BLOCK_SIZE.

(** AES_Encrypt and AES_Decrypt on one block: they succeed on 16 octets and are
    inverse to each other. *)
Class AESBlock := {
  AES_Encrypt : list Z → list Z + SECErrorCode;
  AES_Decrypt : list Z → list Z + SECErrorCode;
  AES_Encrypt_block b : length b = 16%nat → bytes b →
    ∃ c, AES_Encrypt b = inl c ∧ length c = 16%nat ∧ bytes c ∧ AES_Decrypt c = inl b;
  AES_Decrypt_block c : length c = 16%nat → bytes c →
    ∃ b, AES_Decrypt c = inl b ∧ length b = 16%nat ∧ bytes b ∧ AES_Encrypt b = inl c;
}.

(** ** 64-bit values in memory *)

(** [if (!++T[7]) if (!++T[6]) ...]: an octet that becomes zero carries into the
    one before it. *)
Fixpoint incr_octets (n : nat) (T : list Z) : list Z :=
  match n with
  | O => T
  | S n => let v := u8 (T !!! n + 1) in
           let T := <[n := v]> T in
           if v =? 0 then incr_octets n T else T
  end.

(** [if (!TP[7]--) if (!TP[6]--) ...]: an octet that was zero borrows. *)
Fixpoint decr_octets (n : nat) (T : list Z) : list Z :=
  match n with
  | O => T
  | S n => let v := T !!! n in
           let T := <[n := u8 (v - 1)]> T in
           if v =? 0 then decr_octets n T else T
  end.

(** The new A and T. *)
Definition increment_and_xor (A T : list Z) : list Z * list Z :=
  let T := incr_octets 8 T in (zip_with Z.lxor A T, T).

(** A PRUint64 read from and written to memory by a little-endian machine. *)
Fixpoint le_val (l : list Z) : Z :=
  match l with [] => 0 | b :: l => b + 256 * le_val l end.
Fixpoint le_bytes (n : nat) (v : Z) : list Z :=
  match n with O => [] | S n => v mod 256 :: le_bytes n (v / 256) end.

(** The masks as the code writes them, the one of the fifth term included. *)
Definition xor_masked (A T : Z) : Z :=
  let m k := u64 (Z.shiftl 0xFF k) in
  Z.lor (Z.lor (Z.lor (Z.lor (Z.lor (Z.lor (Z.lor
    (Z.lxor (Z.land A (m 56)) (Z.land T (m 56)))
    (Z.lxor (Z.land A (m 48)) (Z.land T (m 48))))
    (Z.lxor (Z.land A (m 40)) (Z.land T (m 40))))
    (Z.lxor (Z.land A (m 32)) (Z.land T (m 32))))
    (Z.lxor (Z.land A (m 24)) (Z.land T (m 23))))
    (Z.lxor (Z.land A (m 16)) (Z.land T (m 16))))
    (Z.lxor (Z.land A (m 8)) (Z.land T (m 8))))
    (Z.lxor (Z.land A (m 0)) (Z.land T (m 0))).

Definition xor_and_decrement (A T : list Z) : list Z * list Z :=
  (le_bytes 8 (xor_masked (le_val A) (le_val T)), decr_octets 8 T).

Definition set_t (t : Z) : list Z := be_bytes 8 (u64 t).

Definition encode_PRUint32_BE (val : Z) : list Z := be_bytes 4 (u32 val).
Definition decode_PRUint32_BE (data : list Z) : Z :=
  fold_left (fun val b => Z.lor (u32 (Z.shiftl val 8)) b) (take 4 data) 0.

Section KeyWrap.
  Context `{AESBlock} `{NSPRHeap}.

(** ** W and its inverse *)

(** What a call leaves in the output block and returns. *)
Inductive kw_status := KwOk (outputLen : Z) | KwErr (e : SECErrorCode).

(** [for (i = 1; i <= nBlocks; ++i)]: the new A, t and R[1..], and the status of
    the last encryption.  A failure leaves this loop only. *)
Fixpoint wrap_pass (A T : list Z) (R : list (list Z)) (s : option SECErrorCode) {struct R}
    : list Z * list Z * list (list Z) * option SECErrorCode :=
  match R with
  | [] => (A, T, [], s)
  | r :: R =>
      match AES_Encrypt (A ++ r) with
      | inl B =>
          let AT := increment_and_xor (take 8 B) T in
          let '(A, T, R, s) := wrap_pass AT.1 AT.2 R None in
          (A, T, drop 8 B :: R, s)
      | inr e => (A, T, r :: R, Some e)
      end
  end.

(** [for (j = 0; j < 6; ++j)] *)
Fixpoint wrap_passes (j : nat) (A T : list Z) (R : list (list Z)) (s : option SECErrorCode) {struct j}
    : list Z * list Z * list (list Z) * option SECErrorCode :=
  match j with
  | O => (A, T, R, s)
  | S j => let '(A, T, R, s) := wrap_pass A T R s in wrap_passes j A T R s
  end.

(** R[1], R[2], ...: the input in words of eight octets. *)
Fixpoint words (n : nat) (l : list Z) : list (list Z) :=
  match n with O => [] | S n => take 8 l :: words n (drop 8 l) end.

Definition AESKeyWrap_W (iv output : list Z) (maxOutputLen : Z) (input : list Z) (inputLen : Z)
    : mem_res (list Z * kw_status) :=
  let outLen := u32 (inputLen + AES_KEY_WRAP_BLOCK_SIZE) in
  if (inputLen <? 2 * AES_KEY_WRAP_BLOCK_SIZE) || negb (inputLen mod AES_KEY_WRAP_BLOCK_SIZE =? 0)
  then Ok (output, KwErr SEC_ERROR_INPUT_LEN)
  else if maxOutputLen <? outLen then Ok (output, KwErr SEC_ERROR_OUTPUT_LEN)
  else
    let nBlocks := inputLen / AES_KEY_WRAP_BLOCK_SIZE in
    match PORT_Alloc (8 * (nBlocks + 1)) with
    | UB => UB
    | Err e => Ok (output, KwErr e)
    | Ok _ =>
        A ← mem_read iv 0 (Z.to_nat AES_KEY_WRAP_IV_BYTES);
        src ← mem_read input 0 (Z.to_nat inputLen);
        let '(A, _, R, s) := wrap_passes 6 A (replicate 8 0) (words (Z.to_nat nBlocks) src)
                               (Some SEC_ERROR_LIBRARY_FAILURE) in
        match s with
        | None => output ← mem_write output 0 (take (Z.to_nat outLen) (A ++ concat R));
                  Ok (output, KwOk outLen)
        | Some e => Ok (output, KwErr e)
        end
    end.

(** [for (i = nBlocks; i; --i)]: [R] holds the words from the last to the first. *)
Fixpoint unwrap_pass (A T : list Z) (R : list (list Z)) (s : option SECErrorCode) {struct R}
    : list Z * list Z * list (list Z) * option SECErrorCode :=
  match R with
  | [] => (A, T, [], s)
  | r :: R =>
      let AT := xor_and_decrement A T in
      match AES_Decrypt (AT.1 ++ r) with
      | inl B =>
          let '(A, T, R, s) := unwrap_pass (take 8 B) AT.2 R None in
          (A, T, drop 8 B :: R, s)
      | inr e => (AT.1, AT.2, r :: R, Some e)
      end
  end.

Fixpoint unwrap_passes (j : nat) (A T : list Z) (R : list (list Z)) (s : option SECErrorCode) {struct j}
    : list Z * list Z * list (list Z) * option SECErrorCode :=
  match j with
  | O => (A, T, R, s)
  | S j => let '(A, T, R, s) := unwrap_pass A T R s in unwrap_passes j A T R s
  end.

(** [iv] is the value to check, if any; the result also holds what is stored
    in ivOut. *)
Definition AESKeyWrap_Winv (iv : option (list Z)) (output : list Z) (maxOutputLen : Z) (input : list Z)
    (inputLen : Z) : mem_res (list Z * list Z * kw_status) :=
  if (inputLen <? 3 * AES_KEY_WRAP_BLOCK_SIZE) || negb (inputLen mod AES_KEY_WRAP_BLOCK_SIZE =? 0)
  then Ok (output, [], KwErr SEC_ERROR_INPUT_LEN)
  else
    let outLen := inputLen - AES_KEY_WRAP_BLOCK_SIZE in
    if maxOutputLen <? outLen then Ok (output, [], KwErr SEC_ERROR_OUTPUT_LEN)
    else
      let nBlocks := inputLen / AES_KEY_WRAP_BLOCK_SIZE in
      match PORT_Alloc (8 * nBlocks) with
      | UB => UB
      | Err e => Ok (output, [], KwErr e)
      | Ok _ =>
          let nBlocks := nBlocks - 1 in
          src ← mem_read input 0 (Z.to_nat inputLen);
          let '(A, _, R, s) := unwrap_passes 6 (take 8 src) (set_t (6 * nBlocks))
                                 (reverse (words (Z.to_nat nBlocks) (drop 8 src)))
                                 (Some SEC_ERROR_LIBRARY_FAILURE) in
          match s with
          | None =>
              if (match iv with Some iv => bool_decide (A = take 8 iv) | None => true end)
              then output ← mem_write output 0 (take (Z.to_nat outLen) (concat (reverse R)));
                   Ok (output, A, KwOk outLen)
              else Ok (output, [], KwErr SEC_ERROR_BAD_DATA)
          | Some e => Ok (output, [], KwErr e)
          end
      end.

(** [cx->iv] is the context's initial value. *)
Definition AESKeyWrap_Encrypt (cx_iv output : list Z) (maxOutputLen : Z) (input : list Z) (inputLen : Z)
    : mem_res (list Z * kw_status) :=
  AESKeyWrap_W cx_iv output maxOutputLen input inputLen.

Definition AESKeyWrap_Decrypt (cx_iv output : list Z) (maxOutputLen : Z) (input : list Z) (inputLen : Z)
    : mem_res (list Z * kw_status) :=
  '(output, _, s) ← AESKeyWrap_Winv (Some cx_iv) output maxOutputLen input inputLen;
  Ok (output, s).

(** ** Key wrap with padding *)

Definition BLOCK_PAD_POWER2 (x bs : Z) : Z := Z.land (u32 (bs - Z.land x (bs - 1))) (bs - 1).
Definition AES_KEY_WRAP_ICV2 : list Z := [0xa6; 0x59; 0x59; 0xa6].
Definition AES_KEY_WRAP_ICV2_INT32 : Z := 0xa65959a6.

Definition AESKeyWrap_EncryptKWP (output : list Z) (maxOutputLen : Z) (input : list Z) (inputLen : Z)
    : mem_res (list Z * kw_status) :=
  if inputLen >? 2 ^ 32 - 1 - (2 * AES_KEY_WRAP_BLOCK_SIZE - 1)
  then Ok (output, KwErr SEC_ERROR_INPUT_LEN)
  else
    let padLen := BLOCK_PAD_POWER2 inputLen AES_KEY_WRAP_BLOCK_SIZE in
    let paddedInputLen := inputLen + padLen in
    let outLen := paddedInputLen + AES_KEY_WRAP_BLOCK_SIZE in
    if maxOutputLen <? outLen then Ok (output, KwErr SEC_ERROR_OUTPUT_LEN)
    else
      let iv := AES_KEY_WRAP_ICV2 ++ encode_PRUint32_BE inputLen ++ replicate 8 0 in
      src ← mem_read input 0 (Z.to_nat inputLen);
      if outLen =? AES_BLOCK_SIZE then
        block ← mem_write iv 8 src;
        match AES_Encrypt block with
        | inl c => output ← mem_write output 0 c; Ok (output, KwOk outLen)
        | inr e => Ok (output, KwErr e)
        end
      else
        match PORT_ZAlloc paddedInputLen with
        | Ok newBuf =>
            newBuf ← mem_write newBuf 0 src;
            AESKeyWrap_W iv output maxOutputLen newBuf paddedInputLen
        | Err e => Ok (output, KwErr e)
        | UB => UB
        end.

(** Where DecryptKWP unwraps to: the stack, the caller's buffer, or a block of
    its own. *)
Inductive kwp_place := OnStack | InOutput | InBlock.
#[global] Instance kwp_place_eq_dec : EqDecision kwp_place.
Proof. solve_decision. Defined.

(** The unwrapped value, before it is checked: where it is, the initial value
    and the padded data, or an error. *)
Definition kwp_unwrap (output : list Z) (maxOutputLen : Z) (input : list Z) (inputLen : Z)
    : mem_res (list Z * (kwp_place * list Z * list Z * Z + kwp_place * SECErrorCode)) :=
  let paddedLen := u32 (inputLen - AES_KEY_WRAP_BLOCK_SIZE) in
  if inputLen =? AES_BLOCK_SIZE then
    src ← mem_read input 0 16;
    match AES_Decrypt src with
    | inl iv => Ok (output, inl (OnStack, iv, drop 8 iv, u32 (inputLen - AES_KEY_WRAP_BLOCK_SIZE)))
    | inr e => Ok (output, inr (OnStack, e))
    end
  else if maxOutputLen <? paddedLen then
    match PORT_Alloc paddedLen with
    | Ok block =>
        '(block, iv, s) ← AESKeyWrap_Winv None block paddedLen input inputLen;
        match s with
        | KwOk outLen => Ok (output, inl (InBlock, iv, block, outLen))
        | KwErr e => Ok (output, inr (InBlock, e))
        end
    | Err e => Ok (output, inr (InBlock, e))
    | UB => UB
    end
  else
    '(output, iv, s) ← AESKeyWrap_Winv None output paddedLen input inputLen;
    match s with
    | KwOk outLen => Ok (output, inl (InOutput, iv, output, outLen))
    | KwErr e => Ok (output, inr (InOutput, e))
    end.

(** [for (i = 0; i < AES_KEY_WRAP_BLOCK_SIZE; i++)]: the octets of the padding
    are zero; [n] is the number of turns left. *)
Fixpoint padding_check (n : nat) (newBuf : list Z) (paddedLen padLen i good : Z) : mem_res Z :=
  match n with
  | O => Ok good
  | S n =>
      match newBuf !! Z.to_nat (u32 (paddedLen - i - 1)) with
      | Some b =>
          let doTest := PORT_CT_GT padLen i in
          let result := PORT_CT_ZERO b in
          padding_check n newBuf paddedLen padLen (i + 1) (Z.land good (PORT_CT_SEL doTest result PORT_CT_TRUE))
      | None => UB
      end
  end.

(** The length found and the mask. *)
Definition kwp_check (iv newBuf : list Z) (paddedLen : Z) : mem_res (Z * Z) :=
  let magic := decode_PRUint32_BE iv in
  let good := PORT_CT_EQ magic AES_KEY_WRAP_ICV2_INT32 in
  let outLen := decode_PRUint32_BE (drop 4 iv) in
  let good := Z.land good (PORT_CT_LE outLen paddedLen) in
  let padLen := u32 (paddedLen - outLen) in
  let padLen2 := BLOCK_PAD_POWER2 outLen AES_KEY_WRAP_BLOCK_SIZE in
  let good := Z.land good (PORT_CT_EQ padLen padLen2) in
  good ← padding_check 8 newBuf paddedLen padLen 0 good;
  Ok (outLen, good).

(** [PORT_SafeZero(newBuf, paddedLen)] when the caller's buffer was used. *)
Definition kwp_loser (output : list Z) (place : kwp_place) (paddedLen : Z) (e : SECErrorCode)
    : mem_res (list Z * kw_status) :=
  match place with
  | InOutput => output ← mem_write output 0 (replicate (Z.to_nat paddedLen) 0); Ok (output, KwErr e)
  | _ => Ok (output, KwErr e)
  end.

(** What follows the unwrapping: the check, and the copy to the caller. *)
Definition kwp_finish (output : list Z) (maxOutputLen paddedLen : Z) (place : kwp_place) (iv newBuf : list Z)
    (outLen : Z) : mem_res (list Z * kw_status) :=
  if negb (outLen =? paddedLen) then kwp_loser output place paddedLen SEC_ERROR_LIBRARY_FAILURE else
  '(outLen, good) ← kwp_check iv newBuf paddedLen;
  if good =? 0 then kwp_loser output place paddedLen SEC_ERROR_BAD_DATA
  else if maxOutputLen <? outLen then kwp_loser output place paddedLen SEC_ERROR_OUTPUT_LEN
  else match place with
       | InOutput => Ok (output, KwOk outLen)
       | _ => src ← mem_read newBuf 0 (Z.to_nat outLen);
              output ← mem_write output 0 src;
              Ok (output, KwOk outLen)
       end.

Definition AESKeyWrap_DecryptKWP (output : list Z) (maxOutputLen : Z) (input : list Z) (inputLen : Z)
    : mem_res (list Z * kw_status) :=
  let paddedLen := u32 (inputLen - AES_KEY_WRAP_BLOCK_SIZE) in
  '(output, r) ← kwp_unwrap output maxOutputLen input inputLen;
  match r with
  | inr (place, e) => kwp_loser output place paddedLen e
  | inl (place, iv, newBuf, outLen) => kwp_finish output maxOutputLen paddedLen place iv newBuf outLen
  end.
End KeyWrap.

(** ** Counters *)

Lemma incr_octets_be n v rest :
  incr_octets n (be_bytes n v ++ rest) = be_bytes n (v + 1) ++ rest.
Proof.
  revert v rest. induction n as [|n IH]; intros v rest; [done|]. cbn [incr_octets be_bytes].
  rewrite <- !app_assoc. cbn [app].
  rewrite list_lookup_total_alt, lookup_app_r by (by rewrite length_be_bytes).
  rewrite length_be_bytes, Nat.sub_diag. cbn [lookup list_lookup default id].
  rewrite insert_app_r_alt, length_be_bytes, Nat.sub_diag by (by rewrite length_be_bytes). cbn [insert list_insert].
  assert (Hv : wrap 8 (v mod 256 + 1) = (v + 1) mod 256) by (unfold wrap; change (2 ^ 8) with 256; by rewrite Zplus_mod_idemp_l).
  rewrite Hv. destruct (Z.eqb_spec ((v + 1) mod 256) 0) as [E|Hne].
  - rewrite IH. do 2 f_equal. Z.to_euclidean_division_equations; lia.
  - do 2 f_equal. Z.to_euclidean_division_equations; lia.
Qed.

Lemma decr_octets_be n v rest :
  decr_octets n (be_bytes n v ++ rest) = be_bytes n (v - 1) ++ rest.
Proof.
  revert v rest. induction n as [|n IH]; intros v rest; [done|]. cbn [decr_octets be_bytes].
  rewrite <- !app_assoc. cbn [app].
  rewrite list_lookup_total_alt, lookup_app_r by (by rewrite length_be_bytes).
  rewrite length_be_bytes, Nat.sub_diag. cbn [lookup list_lookup default id].
  rewrite insert_app_r_alt, length_be_bytes, Nat.sub_diag by (by rewrite length_be_bytes). cbn [insert list_insert].
  assert (Hv : wrap 8 (v mod 256 - 1) = (v - 1) mod 256) by (unfold wrap; change (2 ^ 8) with 256; by rewrite Zminus_mod_idemp_l).
  rewrite Hv. destruct (Z.eqb_spec (v mod 256) 0) as [E|Hne].
  - rewrite IH. do 2 f_equal. Z.to_euclidean_division_equations; lia.
  - do 2 f_equal. Z.to_euclidean_division_equations; lia.
Qed.

(** ** Exclusive or of words *)

Definition word (w : list Z) : Prop := length w = 8%nat ∧ bytes w.
Abbreviation xor8 := xor_octets.

Lemma le_bytes_le_val l : bytes l → le_bytes (length l) (le_val l) = l.
Proof.
  induction 1 as [|b l Hb Hl IH]; [done|]. unfold is_byte in Hb. cbn [length le_bytes le_val].
  rewrite (Z.mul_comm 256), Z.mod_add, Z.div_add, Z.mod_small, Z.div_small, Z.add_0_l by lia. by rewrite IH.
Qed.

Lemma le_val_range l : bytes l → 0 ≤ le_val l < 256 ^ length l.
Proof.
  induction 1 as [|b l Hb Hl IH]; [cbn; lia|]. unfold is_byte in Hb. cbn [length le_val].
  replace (Z.of_nat (S (length l))) with (1 + Z.of_nat (length l)) by lia. rewrite Z.pow_add_r, Z.pow_1_r by lia. lia.
Qed.

Lemma lxor_low a b x y : is_byte a → is_byte b →
  Z.lxor (a + 256 * x) (b + 256 * y) = Z.lxor a b + 256 * Z.lxor x y.
Proof.
  intros Ha Hb. unfold is_byte in *.
  assert (Hs : ∀ c z, 0 ≤ c < 256 → c + 256 * z = Z.lor (Z.shiftl z 8) c).
  { intros c z Hc. rewrite (lor_shift_add z c 8) by (change (2 ^ 8) with 256; lia). lia. }
  pose proof (lxor_range a b 8 ltac:(lia) ltac:(lia) ltac:(lia)).
  rewrite (Hs a x), (Hs b y), (Hs (Z.lxor a b)) by lia.
  apply Z.bits_inj'. intros n Hn. rewrite !Z.lxor_spec, !Z.lor_spec, !Z.shiftl_spec, !Z.lxor_spec by lia.
  destruct (decide (n < 8)).
  - rewrite !(Z.testbit_neg_r _ (n - 8)) by lia. cbn. done.
  - rewrite (testbit_high a 8), (testbit_high b 8) by lia. by rewrite !orb_false_r.
Qed.

Lemma le_val_xor a b : length a = length b → bytes a → bytes b →
  le_val (xor8 a b) = Z.lxor (le_val a) (le_val b).
Proof.
  revert b. induction a as [|x a IH]; intros [|y b] Hl Ha Hb; try done.
  apply Forall_cons_1 in Ha as [Hx Ha]. apply Forall_cons_1 in Hb as [Hy Hb]. injection Hl as Hl.
  cbn [zip_with le_val]. by rewrite lxor_low, IH.
Qed.

Lemma xor8_word a b : word a → word b → word (xor8 a b).
Proof. intros [La Ha] [Lb Hb]. split; [rewrite length_zip_with; lia|by apply xor_bytes]. Qed.

(** The masks pick out every octet of A and T as long as the low half of T, in
    the machine's order, is empty. *)
Lemma xor_masked_lxor A T : 0 ≤ A < 2 ^ 64 → 0 ≤ T < 2 ^ 64 → T mod 2 ^ 32 = 0 → xor_masked A T = Z.lxor A T.
Proof.
  intros HA HT H0. unfold xor_masked.
  assert (Hm : ∀ k n, 0 ≤ k ≤ 56 → 0 ≤ n → Z.testbit (u64 (Z.shiftl 255 k)) n = bool_decide (k ≤ n < k + 8)).
  { intros k n Hk Hn. change 255 with (Z.ones 8). rewrite Z.shiftl_mul_pow2 by lia.
    rewrite wrap_small.
    - rewrite <- Z.shiftl_mul_pow2, Z.shiftl_spec by lia. destruct (decide (n < k)).
      + rewrite Z.testbit_neg_r by lia. symmetry. apply bool_decide_eq_false_2. lia.
      + rewrite Z.testbit_ones_nonneg by lia. destruct (Z.ltb_spec (n - k) 8); symmetry;
          [apply bool_decide_eq_true_2|apply bool_decide_eq_false_2]; lia.
    - change (Z.ones 8) with 255. split; [lia|].
      assert (2 ^ k ≤ 2 ^ 56) by (apply Z.pow_le_mono_r; lia). lia. }
  apply Z.bits_inj'. intros n Hn.
  rewrite !Z.lor_spec, !Z.lxor_spec, !Z.land_spec, !Hm by lia.
  assert (HTl : n < 32 → Z.testbit T n = false).
  { intros Hl. rewrite <- (Z.mod_pow2_bits_low T 32 n) by lia. by rewrite H0, Z.bits_0. }
  destruct (decide (64 ≤ n)) as [Hh|Hh].
  { rewrite (testbit_high A 64), (testbit_high T 64) by lia. done. }
  destruct (decide (n < 32)) as [Hl|Hl].
  - rewrite (HTl Hl). cbn [andb xorb]. destruct (Z.testbit A n); [|done]. cbn [andb xorb].
    repeat case_bool_decide; try done; lia.
  - rewrite (bool_decide_eq_false_2 (24 ≤ n < 24 + 8)), (bool_decide_eq_false_2 (23 ≤ n < 23 + 8)) by lia.
    destruct (Z.testbit A n), (Z.testbit T n); cbn [andb xorb]; repeat case_bool_decide; try done; lia.
Qed.

Lemma length_le_bytes n v : length (le_bytes n v) = n.
Proof. revert v. induction n as [|n IH]; intros v; [done|]. cbn. by rewrite IH. Qed.

Lemma le_val_app a b : le_val (a ++ b) = le_val a + 256 ^ length a * le_val b.
Proof.
  induction a as [|x a IH]; cbn [app le_val length]; [rewrite Z.pow_0_r; lia|]. rewrite IH.
  rewrite Nat2Z.inj_succ, Z.pow_succ_r by lia. lia.
Qed.

Lemma be_word t : word (be_bytes 8 t).
Proof. split; [apply length_be_bytes|apply be_bytes_bytes]. Qed.

Lemma increment_and_xor_be A t :
  increment_and_xor A (be_bytes 8 t) = (xor8 A (be_bytes 8 (t + 1)), be_bytes 8 (t + 1)).
Proof.
  unfold increment_and_xor. pose proof (incr_octets_be 8 t []) as Hi. rewrite !app_nil_r in Hi. by rewrite Hi.
Qed.

(** Counters of the algorithm stay below 2^32, where the masks are harmless. *)
Lemma xor_and_decrement_be A t : word A → 0 ≤ t < 2 ^ 32 →
  xor_and_decrement A (be_bytes 8 t) = (xor8 A (be_bytes 8 t), be_bytes 8 (t - 1)).
Proof.
  intros HA Ht. unfold xor_and_decrement.
  pose proof (decr_octets_be 8 t []) as Hd. rewrite !app_nil_r in Hd. rewrite Hd. f_equal.
  destruct (be_word t) as [Lt Bt]. destruct HA as [LA BA].
  rewrite xor_masked_lxor.
  - rewrite <- le_val_xor by congruence.
    assert (Hw : word (xor8 A (be_bytes 8 t))) by by apply xor8_word.
    destruct Hw as [Lw Bw]. rewrite <- Lw at 1. by apply le_bytes_le_val.
  - pose proof (le_val_range A BA) as HR. rewrite LA in HR. exact HR.
  - pose proof (le_val_range _ Bt) as HR. rewrite Lt in HR. exact HR.
  - change 8%nat with (4 + 4)%nat. rewrite be_bytes_add, le_val_app, length_be_bytes.
    change (256 ^ 4%nat) with (2 ^ 32). rewrite Z.div_small by done.
    change (le_val (be_bytes 4 0)) with 0. rewrite Z.add_0_l, Z.mul_comm. by apply Z.mod_mul.
Qed.

(** ** The algorithm of RFC 3394 *)

Section RFC3394.
  Context `{AESBlock}.

(** AES(K, B) and AES-1(K, B). *)
Definition enc (b : list Z) : list Z := match AES_Encrypt b with inl c => c | inr _ => b end.
Definition dec (c : list Z) : list Z := match AES_Decrypt c with inl b => b | inr _ => c end.

(** Section 2.2.1, step 2: [B = AES(K, A | R[i]); A = MSB(64, B) ^ (n*j)+i;
    R[i] = LSB(64, B)] for i from [i] on. *)
Fixpoint rfc_pass (n j i : Z) (A : list Z) (R : list (list Z)) : list Z * list (list Z) :=
  match R with
  | [] => (A, [])
  | r :: R => let B := enc (A ++ r) in
              let AR := rfc_pass n j (i + 1) (xor8 (take 8 B) (be_bytes 8 (n * j + i))) R in
              (AR.1, drop 8 B :: AR.2)
  end.

(** The passes j, ..., j + k - 1. *)
Fixpoint rfc_wrap (k : nat) (n j : Z) (A : list Z) (R : list (list Z)) : list Z * list (list Z) :=
  match k with
  | O => (A, R)
  | S k => let AR := rfc_pass n j 1 A R in rfc_wrap k n (j + 1) AR.1 AR.2
  end.

(** Section 2.2.2, step 2: [B = AES-1(K, (A ^ t) | R[i])] for i down to [i]. *)
Fixpoint rfc_unpass (n j i : Z) (A : list Z) (R : list (list Z)) : list Z * list (list Z) :=
  match R with
  | [] => (A, [])
  | r :: R => let AR := rfc_unpass n j (i + 1) A R in
              let B := dec (xor8 AR.1 (be_bytes 8 (n * j + i)) ++ r) in
              (take 8 B, drop 8 B :: AR.2)
  end.

(** The passes j - 1, ..., j - k. *)
Fixpoint rfc_unwrap (k : nat) (n j : Z) (A : list Z) (R : list (list Z)) : list Z * list (list Z) :=
  match k with
  | O => (A, R)
  | S k => let AR := rfc_unpass n (j - 1) 1 A R in rfc_unwrap k n (j - 1) AR.1 AR.2
  end.

Lemma block_words A r : word A → word r → length (A ++ r) = 16%nat ∧ bytes (A ++ r).
Proof. intros [LA BA] [Lr Br]. rewrite length_app. split; [lia|by apply Forall_app]. Qed.

Lemma words_block b : length b = 16%nat → bytes b → word (take 8 b) ∧ word (drop 8 b).
Proof.
  intros Hl Hb. split; split; [rewrite length_take; lia|by apply Forall_take|
    rewrite length_drop; lia|by apply Forall_drop].
Qed.

Lemma enc_block b : length b = 16%nat → bytes b →
  AES_Encrypt b = inl (enc b) ∧ length (enc b) = 16%nat ∧ bytes (enc b) ∧ dec (enc b) = b.
Proof. intros Hl Hb. destruct (AES_Encrypt_block b Hl Hb) as (c & E & Lc & Bc & D). unfold dec, enc. rewrite E, D. done. Qed.

Lemma dec_block c : length c = 16%nat → bytes c →
  AES_Decrypt c = inl (dec c) ∧ length (dec c) = 16%nat ∧ bytes (dec c) ∧ enc (dec c) = c.
Proof. intros Hl Hb. destruct (AES_Decrypt_block c Hl Hb) as (b & E & Lc & Bc & D). unfold dec, enc. rewrite E, D. done. Qed.

Definition state_ok (AR : list Z * list (list Z)) : Prop := word AR.1 ∧ Forall word AR.2.

Lemma rfc_pass_ok n j i A R : word A → Forall word R →
  state_ok (rfc_pass n j i A R) ∧ length (rfc_pass n j i A R).2 = length R.
Proof.
  intros HA HR. revert i A HA. induction HR as [|r R Hr HR IH]; intros i A HA; [done|].
  cbn [rfc_pass]. set (B := enc (A ++ r)).
  destruct (block_words A r HA Hr) as [Lb Bb]. destruct (enc_block _ Lb Bb) as (_ & LB & BB & _).
  destruct (words_block B LB BB) as [H1 H2].
  destruct (IH (i + 1) _ (xor8_word _ _ H1 (be_word (n * j + i)))) as [[G1 G2] G3].
  unfold state_ok. cbn [fst snd length]. rewrite G3. split; [split|]; [done|by apply Forall_cons_2|done].
Qed.

Lemma rfc_unpass_ok n j i A R : word A → Forall word R →
  state_ok (rfc_unpass n j i A R) ∧ length (rfc_unpass n j i A R).2 = length R.
Proof.
  intros HA HR. revert i. induction HR as [|r R Hr HR IH]; intros i; [done|].
  cbn [rfc_unpass]. destruct (IH (i + 1)) as [[G1 G2] G3].
  destruct (block_words _ r (xor8_word _ _ G1 (be_word (n * j + i))) Hr) as [Lb Bb].
  destruct (dec_block _ Lb Bb) as (_ & LB & BB & _). destruct (words_block _ LB BB) as [H1 H2].
  unfold state_ok. cbn [fst snd length]. rewrite G3. split; [split|]; [done|by apply Forall_cons_2|done].
Qed.

Lemma unpass_pass n j i A R : word A → Forall word R →
  rfc_unpass n j i (rfc_pass n j i A R).1 (rfc_pass n j i A R).2 = (A, R).
Proof.
  intros HA HR. revert i A HA. induction HR as [|r R Hr HR IH]; intros i A HA; [done|].
  cbn [rfc_pass fst snd rfc_unpass].
  destruct (block_words A r HA Hr) as [Lb Bb]. destruct (enc_block _ Lb Bb) as (_ & LB & BB & Hd).
  destruct (words_block _ LB BB) as [H1 H2]. rewrite IH by (by apply xor8_word, be_word).
  cbn [fst snd]. rewrite xor_cancel by by rewrite length_be_bytes; destruct H1.
  rewrite take_drop, Hd. destruct HA as [LA _].
  by rewrite take_app_length', drop_app_length' by done.
Qed.

Lemma pass_unpass n j i A R : word A → Forall word R →
  rfc_pass n j i (rfc_unpass n j i A R).1 (rfc_unpass n j i A R).2 = (A, R).
Proof.
  intros HA HR. revert i. induction HR as [|r R Hr HR IH]; intros i; [done|].
  cbn [rfc_unpass fst snd rfc_pass]. destruct (rfc_unpass_ok n j (i + 1) A R HA HR) as [[G1 _] _].
  assert (HX := xor8_word _ _ G1 (be_word (n * j + i))).
  destruct (block_words _ r HX Hr) as [Lb Bb]. destruct (dec_block _ Lb Bb) as (_ & LB & BB & He).
  rewrite take_drop, He. destruct HX as [LX _].
  rewrite take_app_length', drop_app_length' by done.
  rewrite xor_cancel, IH; [done|]. rewrite length_be_bytes. by destruct G1.
Qed.

Lemma rfc_wrap_ok k n j A R : word A → Forall word R →
  state_ok (rfc_wrap k n j A R) ∧ length (rfc_wrap k n j A R).2 = length R.
Proof.
  revert j A R. induction k as [|k IH]; intros j A R HA HR; [done|]. cbn [rfc_wrap].
  destruct (rfc_pass_ok n j 1 A R HA HR) as [[H1 H2] H3].
  destruct (IH (j + 1) _ _ H1 H2) as [G1 G2]. split; [done|congruence].
Qed.

Lemma rfc_unwrap_ok k n j A R : word A → Forall word R →
  state_ok (rfc_unwrap k n j A R) ∧ length (rfc_unwrap k n j A R).2 = length R.
Proof.
  revert j A R. induction k as [|k IH]; intros j A R HA HR; [done|]. cbn [rfc_unwrap].
  destruct (rfc_unpass_ok n (j - 1) 1 A R HA HR) as [[H1 H2] H3].
  destruct (IH (j - 1) _ _ H1 H2) as [G1 G2]. split; [done|congruence].
Qed.

Lemma rfc_unwrap_snoc k n j A R :
  rfc_unwrap (S k) n j A R =
  let AR := rfc_unwrap k n j A R in rfc_unpass n (j - k - 1) 1 AR.1 AR.2.
Proof.
  revert j A R. induction k as [|k IH]; intros j A R.
  - cbn. rewrite Z.sub_0_r. by destruct (rfc_unpass _ _ _ _ _).
  - remember (S k) as k' eqn:Hk. cbn [rfc_unwrap]. subst k'. rewrite IH. cbn zeta. cbn [rfc_unwrap].
    by replace (j - 1 - k - 1) with (j - S k - 1) by lia.
Qed.

Lemma rfc_wrap_snoc k n j A R :
  rfc_wrap (S k) n j A R = let AR := rfc_wrap k n j A R in rfc_pass n (j + k) 1 AR.1 AR.2.
Proof.
  revert j A R. induction k as [|k IH]; intros j A R.
  - cbn. rewrite Z.add_0_r. by destruct (rfc_pass _ _ _ _ _).
  - remember (S k) as k' eqn:Hk. cbn [rfc_wrap]. subst k'. rewrite IH. cbn zeta. cbn [rfc_wrap].
    by replace (j + 1 + k) with (j + S k) by lia.
Qed.

Lemma unwrap_wrap k n j A R : word A → Forall word R →
  rfc_unwrap k n (j + k) (rfc_wrap k n j A R).1 (rfc_wrap k n j A R).2 = (A, R).
Proof.
  revert j A R. induction k as [|k IH]; intros j A R HA HR; [done|].
  rewrite rfc_unwrap_snoc. cbn [rfc_wrap]. destruct (rfc_pass_ok n j 1 A R HA HR) as [[H1 H2] _].
  replace (j + S k) with (j + 1 + k) by lia. rewrite IH by done. cbn [fst snd].
  replace (j + 1 + k - k - 1) with j by lia. by apply unpass_pass.
Qed.

Lemma wrap_unwrap k n j A R : word A → Forall word R →
  rfc_wrap k n (j - k) (rfc_unwrap k n j A R).1 (rfc_unwrap k n j A R).2 = (A, R).
Proof.
  revert j A R. induction k as [|k IH]; intros j A R HA HR; [done|].
  rewrite rfc_wrap_snoc. cbn [rfc_unwrap]. destruct (rfc_unpass_ok n (j - 1) 1 A R HA HR) as [[H1 H2] _].
  replace (j - S k) with (j - 1 - k) by lia. rewrite IH by done. cbn [fst snd].
  replace (j - 1 - k + k) with (j - 1) by lia. by apply pass_unpass.
Qed.
End RFC3394.

(** ** The loops compute the reference *)

Section Loops.
  Context `{AESBlock}.

Lemma wrap_pass_rfc n j i A R s : word A → Forall word R →
  wrap_pass A (be_bytes 8 (n * j + i - 1)) R s =
  let AR := rfc_pass n j i A R in
  (AR.1, be_bytes 8 (n * j + i - 1 + length R), AR.2, if decide (R = []) then s else None).
Proof.
  intros HA HR. revert i A s HA. induction HR as [|r R Hr HR IH]; intros i A s HA.
  { cbn. by rewrite Z.add_0_r. }
  cbn [wrap_pass rfc_pass]. destruct (block_words A r HA Hr) as [Lb Bb].
  destruct (enc_block _ Lb Bb) as (-> & LB & BB & _). destruct (words_block _ LB BB) as [H1 H2].
  rewrite increment_and_xor_be. cbn [fst snd].
  replace (n * j + i - 1 + 1) with (n * j + (i + 1) - 1) by lia.
  rewrite IH by by apply xor8_word, be_word. cbn zeta. cbn [fst snd length].
  replace (n * j + (i + 1) - 1) with (n * j + i) by lia.
  replace (n * j + i + length R) with (n * j + i - 1 + S (length R)) by lia.
  rewrite (decide_False (P := r :: R = [])) by done. by destruct (decide (R = [])).
Qed.

Lemma wrap_passes_rfc (k : nat) (n j : Z) A R s : word A → Forall word R → n = length R → R ≠ [] →
  wrap_passes k A (be_bytes 8 (n * j)) R s =
  let AR := rfc_wrap k n j A R in (AR.1, be_bytes 8 (n * (j + k)), AR.2, if decide (k = 0%nat) then s else None).
Proof.
  intros HA HR Hn Hne. revert j A R s HA HR Hn Hne. induction k as [|k IH]; intros j A R s HA HR Hn Hne.
  { cbn. by rewrite Z.add_0_r. }
  cbn [wrap_passes rfc_wrap]. pose proof (wrap_pass_rfc n j 1 A R s HA HR) as Hp.
  replace (n * j + 1 - 1) with (n * j) in Hp by lia. rewrite Hp. cbn zeta. rewrite (decide_False (P := R = [])) by done.
  destruct (rfc_pass_ok n j 1 A R HA HR) as [[H1 H2] H3]. rewrite <- Hn.
  replace (n * j + n) with (n * (j + 1)) by lia. rewrite IH; [|done..|congruence|].
  - cbn zeta. rewrite (decide_False (P := S k = 0%nat)) by done. replace (j + 1 + k) with (j + S k) by lia.
    by destruct (decide (k = 0%nat)).
  - intros E. rewrite E in H3. destruct R; done.
Qed.

(** One word at a time from the last one: after the words of [R] comes [r]. *)
Lemma unwrap_pass_snoc t A R r s : word A → Forall word R → word r → length R < t < 2 ^ 32 →
  ∃ A' R', unwrap_pass A (be_bytes 8 t) R s = (A', be_bytes 8 (t - length R), R', if decide (R = []) then s else None) ∧
  word A' ∧
  (let B := dec (xor8 A' (be_bytes 8 (t - length R)) ++ r) in
   unwrap_pass A (be_bytes 8 t) (R ++ [r]) s = (take 8 B, be_bytes 8 (t - S (length R)), R' ++ [drop 8 B], None)).
Proof.
  intros HA HR Hr. revert t A s HA. induction HR as [|r0 R Hr0 HR IH]; intros t A s HA Ht.
  - exists A, []. cbn [length] in *. rewrite Z.sub_0_r. split; [done|]. split; [done|]. cbn zeta.
    cbn [app unwrap_pass]. rewrite xor_and_decrement_be by (done || lia). cbn [fst snd].
    destruct (block_words _ r (xor8_word _ _ HA (be_word t)) Hr) as [Lb Bb].
    destruct (dec_block _ Lb Bb) as (-> & _). done.
  - cbn [length] in Ht. cbn [app unwrap_pass]. rewrite xor_and_decrement_be by (done || lia). cbn [fst snd].
    destruct (block_words _ r0 (xor8_word _ _ HA (be_word t)) Hr0) as [Lb Bb].
    destruct (dec_block _ Lb Bb) as (-> & LB & BB & _). destruct (words_block _ LB BB) as [H1 H2].
    destruct (IH (t - 1) _ None H1 ltac:(lia)) as (A' & R' & E1 & HA' & E2). cbn zeta in E2.
    rewrite E1, E2. exists A', (drop 8 (dec (xor8 A (be_bytes 8 t) ++ r0)) :: R'). cbn [length].
    replace (t - 1 - length R) with (t - S (length R)) by lia.
    replace (t - 1 - S (length R)) with (t - S (S (length R))) by lia.
    rewrite (decide_False (P := r0 :: R = [])) by done. split; [by destruct (decide (R = []))|]. done.
Qed.

Lemma unwrap_pass_rfc n j i A R s : word A → Forall word R → 0 ≤ n * j + i - 1 →
  n * j + i - 1 + length R < 2 ^ 32 →
  unwrap_pass A (be_bytes 8 (n * j + i - 1 + length R)) (reverse R) s =
  let AR := rfc_unpass n j i A R in
  (AR.1, be_bytes 8 (n * j + i - 1), reverse AR.2, if decide (R = []) then s else None).
Proof.
  intros HA HR. revert i. induction HR as [|r R Hr HR IH]; intros i Ht Hm.
  { cbn. by rewrite Z.add_0_r. }
  rewrite reverse_cons. cbn [length] in *.
  destruct (unwrap_pass_snoc (n * j + i - 1 + S (length R)) A (reverse R) r s HA) as (A' & R' & E1 & HA' & E2);
    [by apply Forall_reverse|done|rewrite length_reverse; lia|].
  cbn zeta in E2. rewrite E2. specialize (IH (i + 1) ltac:(lia) ltac:(lia)). cbn zeta in IH.
  replace (n * j + (i + 1) - 1 + length R) with (n * j + i - 1 + S (length R)) in IH by lia.
  rewrite E1 in IH. apply pair_eq in IH as [IH _]. apply pair_eq in IH as [IH ->]. apply pair_eq in IH as [-> _]. rewrite length_reverse. cbn [rfc_unpass fst snd].
  rewrite reverse_cons, decide_False by done.
  replace (n * j + i - 1 + S (length R) - length R) with (n * j + i) by lia.
  by replace (n * j + i - 1 + S (length R) - S (length R)) with (n * j + i - 1) by lia.
Qed.

Lemma unwrap_passes_rfc (k : nat) (n j : Z) A R s : word A → Forall word R → n = length R → R ≠ [] → k ≤ j → n * j < 2 ^ 32 →
  unwrap_passes k A (be_bytes 8 (n * j)) (reverse R) s =
  let AR := rfc_unwrap k n j A R in
  (AR.1, be_bytes 8 (n * (j - k)), reverse AR.2, if decide (k = 0%nat) then s else None).
Proof.
  intros HA HR Hn Hne. revert j A R s HA HR Hn Hne. induction k as [|k IH]; intros j A R s HA HR Hn Hne Hk Hj.
  { cbn. by rewrite Z.sub_0_r. }
  cbn [unwrap_passes rfc_unwrap].
  pose proof (unwrap_pass_rfc n (j - 1) 1 A R s HA HR ltac:(nia) ltac:(nia)) as Hp.
  rewrite <- Hn in Hp. replace (n * (j - 1) + 1 - 1 + n) with (n * j) in Hp by lia.
  replace (n * (j - 1) + 1 - 1) with (n * (j - 1)) in Hp by lia. rewrite Hp.
  cbn zeta. rewrite (decide_False (P := R = [])) by done.
  destruct (rfc_unpass_ok n (j - 1) 1 A R HA HR) as [[H1 H2] H3].
  rewrite IH; [|done..|congruence| |lia|nia].
  - cbn zeta. rewrite (decide_False (P := S k = 0%nat)) by done. replace (j - 1 - k) with (j - S k) by lia.
    by destruct (decide (k = 0%nat)).
  - intros E. rewrite E in H3. destruct R; done.
Qed.
End Loops.

(** ** Words and octets *)

Lemma words_spec n l : length l = (8 * n)%nat → bytes l →
  Forall word (words n l) ∧ length (words n l) = n ∧ concat (words n l) = l.
Proof.
  revert l. induction n as [|n IH]; intros l Hl Hb.
  { destruct l; [|done]. split_and!; [constructor|done|done]. }
  cbn [words concat length]. destruct (IH (drop 8 l)) as (H1 & H2 & H3);
    [rewrite length_drop; lia|by apply Forall_drop|].
  rewrite H2, H3, take_drop. split_and!; [|done|done]. apply Forall_cons_2; [|done].
  split; [rewrite length_take; lia|by apply Forall_take].
Qed.

Lemma words_concat R : Forall word R → words (length R) (concat R) = R ∧ length (concat R) = (8 * length R)%nat ∧ bytes (concat R).
Proof.
  induction 1 as [|r R [Lr Br] HR (H1 & H2 & H3)]; [done|]. cbn [length words concat].
  rewrite take_app_length', drop_app_length' by done. rewrite H1, length_app. split_and!; [done|lia|by apply Forall_app].
Qed.

(** ** W and its inverse against the reference *)

(** The ciphertext of RFC 3394 for the initial value [iv], and the initial
    value and plaintext a ciphertext holds. *)
Definition rfc3394_W `{AESBlock} (iv p : list Z) : list Z :=
  let n := (length p / 8)%nat in
  let AR := rfc_wrap 6 n 0 iv (words n p) in AR.1 ++ concat AR.2.

Definition rfc3394_Winv `{AESBlock} (c : list Z) : list Z * list Z :=
  let n := (length c / 8 - 1)%nat in
  let AR := rfc_unwrap 6 n 6 (take 8 c) (words n (drop 8 c)) in (AR.1, concat AR.2).

Lemma whole_words (l : list Z) : Z.of_nat (length l) mod 8 = 0 → length l = (8 * (length l / 8))%nat ∧ Z.of_nat (length l / 8) = Z.of_nat (length l) / 8.
Proof.
  intros Hm. pose proof (Nat2Z.inj_div (length l) 8) as Hd. split; [|done]. change (Z.of_nat 8) with 8 in Hd.
  pose proof (Z.div_mod (length l) 8 ltac:(lia)). lia.
Qed.

Section Specs.
  Context `{AESBlock}.

Lemma rfc3394_W_length iv p : word iv → bytes p → length p mod 8 = 0 →
  length (rfc3394_W iv p) = (length p + 8)%nat ∧ bytes (rfc3394_W iv p).
Proof.
  intros Hiv Hp Hm. destruct (whole_words p Hm) as [Hl _]. unfold rfc3394_W.
  set (n := (length p / 8)%nat) in *. destruct (words_spec n p Hl Hp) as (Hw & Hn & _).
  destruct (rfc_wrap_ok 6 n 0 iv _ Hiv Hw) as [[[L1 B1] H2] H3]. destruct (words_concat _ H2) as (_ & H4 & H5).
  rewrite length_app. split; [lia|by apply Forall_app].
Qed.

Lemma rfc3394_Winv_length c : bytes c → length c mod 8 = 0 → 8 ≤ length c →
  word (rfc3394_Winv c).1 ∧ length (rfc3394_Winv c).2 = (length c - 8)%nat ∧ bytes (rfc3394_Winv c).2.
Proof.
  intros Hc Hm Hge. destruct (whole_words c Hm) as [Hl _]. unfold rfc3394_Winv. cbn [fst snd].
  set (n := (length c / 8 - 1)%nat).
  destruct (words_spec n (drop 8 c)) as (Hw & Hn & _); [rewrite length_drop; lia|by apply Forall_drop|].
  destruct (rfc_unwrap_ok 6 n 6 (take 8 c) (words n (drop 8 c))) as [[H1 H2] H3]; [|done|].
  { split; [rewrite length_take; lia|by apply Forall_take]. }
  destruct (words_concat _ H2) as (_ & H4 & H5). split_and!; [done|lia|done].
Qed.

Lemma rfc3394_Winv_W iv p : word iv → bytes p → length p mod 8 = 0 → rfc3394_Winv (rfc3394_W iv p) = (iv, p).
Proof.
  intros Hiv Hp Hm. destruct (rfc3394_W_length iv p Hiv Hp Hm) as [HL _].
  destruct (whole_words p Hm) as [Hl _]. unfold rfc3394_Winv. rewrite HL.
  replace ((length p + 8) / 8 - 1)%nat with (length p / 8)%nat
    by (change (length p + 8)%nat with (length p + 1 * 8)%nat; rewrite Nat.div_add by lia; lia).
  unfold rfc3394_W. set (n := (length p / 8)%nat) in *. destruct (words_spec n p Hl Hp) as (Hw & Hn & Hc).
  destruct (rfc_wrap_ok 6 n 0 iv _ Hiv Hw) as [[[L1 _] H2] H3]. destruct (words_concat _ H2) as (H4 & _ & _).
  rewrite take_app_length', drop_app_length' by done. rewrite H3, Hn in H4. rewrite H4.
  pose proof (unwrap_wrap 6 n 0 iv _ Hiv Hw) as Hu. change (0 + 6%nat) with 6 in Hu. rewrite Hu. cbn [fst snd]. by rewrite Hc.
Qed.

Lemma rfc3394_W_Winv c : bytes c → length c mod 8 = 0 → 8 ≤ length c →
  rfc3394_W (rfc3394_Winv c).1 (rfc3394_Winv c).2 = c.
Proof.
  intros Hc Hm Hge. destruct (rfc3394_Winv_length c Hc Hm Hge) as (_ & HL & _).
  destruct (whole_words c Hm) as [Hl _]. unfold rfc3394_W. rewrite HL.
  replace ((length c - 8) / 8)%nat with (length c / 8 - 1)%nat
    by (rewrite Hl at 2; replace (8 * (length c / 8) - 8)%nat with ((length c / 8 - 1) * 8)%nat by lia;
        by rewrite Nat.div_mul).
  unfold rfc3394_Winv. cbn [fst snd]. set (n := (length c / 8 - 1)%nat).
  destruct (words_spec n (drop 8 c)) as (Hw & Hn & Hcc); [rewrite length_drop; lia|by apply Forall_drop|].
  assert (HA : word (take 8 c)) by (split; [rewrite length_take; lia|by apply Forall_take]).
  destruct (rfc_unwrap_ok 6 n 6 (take 8 c) (words n (drop 8 c)) HA Hw) as [[H1 H2] H3].
  destruct (words_concat _ H2) as (H4 & _ & _). rewrite H3, Hn in H4. rewrite H4.
  pose proof (wrap_unwrap 6 n 6 (take 8 c) _ HA Hw) as Hu. change (6 - 6%nat) with 0 in Hu. rewrite Hu. cbn [fst snd].
  by rewrite Hcc, take_drop.
Qed.
End Specs.

Section Whole.
  Context `{AESBlock} `{NSPRHeap}.

(** What W returns, for every input that fits an unsigned int. *)
Definition W_result (iv output : list Z) (maxOutputLen : Z) (p : list Z) : list Z * kw_status :=
  let len := Z.of_nat (length p) in
  if (len <? 16) || negb (len mod 8 =? 0) then (output, KwErr SEC_ERROR_INPUT_LEN)
  else if maxOutputLen <? u32 (len + 8) then (output, KwErr SEC_ERROR_OUTPUT_LEN)
  else match PORT_Alloc (len + 8) with
       | Ok _ => (rfc3394_W iv p ++ drop (length p + 8) output, KwOk (len + 8))
       | _ => (output, KwErr SEC_ERROR_NO_MEMORY)
       end.

(** What its inverse returns when it is to check [iv], or not to check. *)
Definition Winv_result (iv : option (list Z)) (output : list Z) (maxOutputLen : Z) (c : list Z)
    : list Z * list Z * kw_status :=
  let len := Z.of_nat (length c) in
  if (len <? 24) || negb (len mod 8 =? 0) then (output, [], KwErr SEC_ERROR_INPUT_LEN)
  else if maxOutputLen <? len - 8 then (output, [], KwErr SEC_ERROR_OUTPUT_LEN)
  else match PORT_Alloc len with
       | Ok _ => let '(A, p) := rfc3394_Winv c in
                 if (match iv with Some iv => bool_decide (A = iv) | None => true end)
                 then (p ++ drop (length c - 8) output, A, KwOk (len - 8))
                 else (output, [], KwErr SEC_ERROR_BAD_DATA)
       | _ => (output, [], KwErr SEC_ERROR_NO_MEMORY)
       end.

Lemma PORT_Alloc_cases n : 0 < n → (∃ m, PORT_Alloc n = Ok m ∧ n ≤ MAX_SIZE) ∨ PORT_Alloc n = Err SEC_ERROR_NO_MEMORY.
Proof.
  intros Hn. destruct (PORT_Alloc n) as [m|e|] eqn:E.
  - left. exists m. split; [done|]. apply PORT_Alloc_Ok in E; [tauto|lia].
  - right. unfold PORT_Alloc in E. case_match; congruence.
  - by apply PORT_Alloc_no_UB in E.
Qed.

Lemma AESKeyWrap_W_spec iv output max p : word (take 8 iv) → bytes p → length p < 2 ^ 32 → 0 ≤ max ≤ length output →
  AESKeyWrap_W iv output max p (length p) = Ok (W_result (take 8 iv) output max p).
Proof.
  intros Hiv Hp Hlen Hmax. unfold AESKeyWrap_W, W_result.
  change (2 * AES_KEY_WRAP_BLOCK_SIZE) with 16. change AES_KEY_WRAP_BLOCK_SIZE with 8.
  destruct (Z.ltb_spec (length p) 16) as [|Hge]; [done|]. destruct (Z.eqb_spec (length p mod 8) 0) as [Hm|]; [|done].
  cbn [orb negb]. destruct (Z.ltb_spec max (u32 (length p + 8))) as [|Hfit]; [done|].
  destruct (whole_words p Hm) as [Hl Hd]. replace (8 * (length p / 8 + 1)) with (length p + 8) by lia.
  destruct (PORT_Alloc_cases (length p + 8)) as [(m & -> & Hms)| ->]; [lia| |done].
  rewrite MAX_SIZE_val in Hms. rewrite wrap_small in Hfit by lia. rewrite wrap_small by lia.
  assert (Hri : mem_read (E:=Empty_set) iv 0 (Z.to_nat AES_KEY_WRAP_IV_BYTES) = Ok (take 8 iv)).
  { destruct Hiv as [Hiv _]. rewrite length_take in Hiv. change (Z.to_nat AES_KEY_WRAP_IV_BYTES) with 8%nat.
    unfold mem_read. rewrite decide_True by lia. by rewrite drop_0. }
  rewrite Hri. cbn [mbind res_bind]. rewrite mem_read_all. cbn [mbind res_bind].
  rewrite <- Hd, Nat2Z.id. destruct (words_spec _ p Hl Hp) as (Hw & Hn & _).
  assert (Hne : words (length p / 8) p ≠ []) by (intros E; apply (f_equal length) in E; rewrite Hn in E; cbn [length] in E; lia).
  rewrite zeros_be. replace 0 with ((length p / 8)%nat * 0) at 1 by lia.
  rewrite wrap_passes_rfc by (done || by rewrite Hn). cbn zeta. cbn [decide].
  rewrite decide_False by done. fold (rfc3394_W (take 8 iv) p).
  destruct (rfc3394_W_length (take 8 iv) p Hiv Hp Hm) as [HL _].
  rewrite take_ge by lia. rewrite mem_write_front by lia. cbn [mbind res_bind]. by rewrite HL.
Qed.

Lemma AESKeyWrap_Winv_spec iv output max c : (∀ v, iv = Some v → word v) → bytes c → length c < 2 ^ 32 →
  0 ≤ max ≤ length output →
  AESKeyWrap_Winv iv output max c (length c) = Ok (Winv_result iv output max c).
Proof.
  intros Hiv Hc Hlen Hmax. unfold AESKeyWrap_Winv, Winv_result.
  change (3 * AES_KEY_WRAP_BLOCK_SIZE) with 24. change AES_KEY_WRAP_BLOCK_SIZE with 8.
  destruct (Z.ltb_spec (length c) 24) as [|Hge]; [done|]. destruct (Z.eqb_spec (length c mod 8) 0) as [Hm|]; [|done].
  cbn [orb negb]. destruct (Z.ltb_spec max (length c - 8)) as [|Hfit]; [done|].
  destruct (whole_words c Hm) as [Hl Hd]. replace (8 * (length c / 8)) with (Z.of_nat (length c)) by lia.
  destruct (PORT_Alloc_cases (length c)) as [(m & -> & Hms)| ->]; [lia| |done].
  rewrite MAX_SIZE_val in Hms. rewrite mem_read_all. cbn [mbind res_bind].
  rewrite <- Hd. replace (Z.to_nat ((length c / 8)%nat - 1)) with (length c / 8 - 1)%nat by lia.
  set (n := (length c / 8 - 1)%nat). replace (6 * ((length c / 8)%nat - 1)) with (n * 6) by lia.
  destruct (words_spec n (drop 8 c)) as (Hw & Hn & _); [rewrite length_drop; lia|by apply Forall_drop|].
  assert (Hne : words n (drop 8 c) ≠ []) by (intros E; apply (f_equal length) in E; rewrite Hn in E; cbn [length] in E; lia).
  assert (HA : word (take 8 c)) by (split; [rewrite length_take; lia|by apply Forall_take]).
  assert (Hn8 : (8 * n + 8 = length c)%nat) by lia.
  unfold set_t. rewrite wrap_small by lia.
  rewrite unwrap_passes_rfc by (done || lia || by rewrite Hn). cbn zeta.
  rewrite decide_False by done. destruct (rfc3394_Winv_length c Hc Hm ltac:(lia)) as (_ & HL & _).
  unfold rfc3394_Winv in *. cbn [fst snd] in HL. fold n in HL. fold n. rewrite reverse_involutive.
  assert (Hchk : (match iv with Some iv => bool_decide ((rfc_unwrap 6 n 6 (take 8 c) (words n (drop 8 c))).1 = take 8 iv) | None => true end) =
    (match iv with Some iv => bool_decide ((rfc_unwrap 6 n 6 (take 8 c) (words n (drop 8 c))).1 = iv) | None => true end)).
  { destruct iv as [v|]; [|done]. destruct (Hiv v eq_refl) as [Lv _]. by rewrite (take_ge v) by lia. }
  rewrite Hchk. clear Hchk. match goal with |- (if ?b then _ else _) = _ => destruct b end; [|done].
  rewrite (take_ge (concat _)) by lia. rewrite mem_write_front by lia. cbn [mbind res_bind]. by rewrite HL.
Qed.
End Whole.

(** ** Lengths *)

Lemma decode_PRUint32_BE_val l : bytes l → decode_PRUint32_BE l = be_val (take 4 l).
Proof.
  intros Hb. unfold decode_PRUint32_BE, be_val.
  assert (Ht := Forall_take is_byte 4 l Hb). assert (Hl : (length (take 4 l) ≤ 4)%nat) by (rewrite length_take; lia).
  revert Ht Hl. generalize (take 4 l). clear. intros l Hb Hl.
  enough (Hg : ∀ k l v, bytes l → (length l + k ≤ 4)%nat → 0 ≤ v < 256 ^ k →
    fold_left (fun val b => Z.lor (u32 (Z.shiftl val 8)) b) l v = fold_left (fun acc b => acc * 256 + b) l v)
    by (apply (Hg 0%nat); [done|lia|cbn; lia]).
  clear. intros k l. revert k. induction l as [|b l IH]; intros k v Hb Hl Hv; [done|].
  apply Forall_cons_1 in Hb as [Hb0 Hb]. unfold is_byte in Hb0. cbn [fold_left length] in *.
  assert (Hp : 256 ^ S k = 256 * 256 ^ k) by (rewrite Nat2Z.inj_succ, Z.pow_succ_r; lia).
  assert (Hk : 256 * 256 ^ k ≤ 2 ^ 32) by (rewrite <- Hp; change (2 ^ 32) with (256 ^ 4); apply Z.pow_le_mono_r; lia).
  rewrite wrap_small by (rewrite Z.shiftl_mul_pow2 by lia; lia).
  rewrite lor_shift_add by lia. change (2 ^ 8) with 256. apply (IH (S k)); [done|lia|lia].
Qed.

Lemma BLOCK_PAD_mod x : BLOCK_PAD_POWER2 x 8 = (- x) mod 8.
Proof.
  unfold BLOCK_PAD_POWER2. change (8 - 1) with (2 ^ 3 - 1). rewrite !land_ones_mod by lia. change (2 ^ 3) with 8.
  rewrite wrap_small by (pose proof (Z.mod_pos_bound x 8 ltac:(lia)); lia). Z.to_euclidean_division_equations; lia.
Qed.

(** ** The check of the padding *)

(** What turn [k] of the loop accepts. *)
Definition pad_octet_ok (newBuf : list Z) (paddedLen padLen k : Z) : bool :=
  if 2 ^ 31 <=? u32 (k - padLen) then newBuf !!! Z.to_nat (paddedLen - k - 1) =? 0 else true.

Lemma padding_check_mask (n : nat) newBuf paddedLen padLen i g :
  bytes newBuf → 0 ≤ i → i + n ≤ paddedLen < 2 ^ 32 → paddedLen ≤ length newBuf →
  padding_check n newBuf paddedLen padLen i (mask g) =
  Ok (mask (g && forallb (pad_octet_ok newBuf paddedLen padLen) (seqZ i n))).
Proof.
  intros Hb. revert i g. induction n as [|n IH]; intros i g Hi Hn Hl.
  { cbn. by rewrite andb_true_r. }
  cbn [padding_check]. rewrite wrap_small by lia.
  destruct (lookup_lt_is_Some_2 newBuf (Z.to_nat (paddedLen - i - 1))) as [b Hlk]; [lia|]. rewrite Hlk.
  pose proof (Forall_lookup_1 _ _ _ _ Hb Hlk) as Hbb. unfold is_byte in Hbb.
  rewrite CT_GT_mask, CT_ZERO_mask by lia. change PORT_CT_TRUE with (mask true).
  rewrite SEL_mask, land_mask, IH by lia. rewrite (seqZ_cons i) by lia. cbn [forallb].
  replace (Z.succ i) with (i + 1) by lia. replace (Z.pred (S n)) with (Z.of_nat n) by lia.
  rewrite andb_assoc. unfold pad_octet_ok at 2. by rewrite (list_lookup_total_correct _ _ _ Hlk).
Qed.

Lemma pad_octets_zero newBuf paddedLen padLen : 0 ≤ padLen < 8 → 8 ≤ paddedLen ≤ length newBuf →
  forallb (pad_octet_ok newBuf paddedLen padLen) (seqZ 0 8) = true ↔
  drop (Z.to_nat (paddedLen - padLen)) (take (Z.to_nat paddedLen) newBuf) = replicate (Z.to_nat padLen) 0.
Proof.
  intros Hp Hl. rewrite forallb_forall.
  assert (Hk : ∀ k, 0 ≤ k < 8 → (2 ^ 31 <=? u32 (k - padLen)) = (k <? padLen)).
  { intros k Hk. unfold wrap. destruct (Z.ltb_spec k padLen).
    - rewrite <- (Z.mod_unique (k - padLen) (2 ^ 32) (-1) (k - padLen + 2 ^ 32)) by lia. apply Z.leb_le. lia.
    - rewrite Z.mod_small by lia. apply Z.leb_gt. lia. }
  split.
  - intros Hf. apply list_eq_same_length with (Z.to_nat padLen); [by rewrite length_replicate|len|].
    intros j x y Hj Hx Hy. rewrite lookup_replicate in Hy. destruct Hy as [-> _].
    rewrite lookup_drop, lookup_take_Some in Hx. destruct Hx as [Hx _].
    specialize (Hf (padLen - 1 - j)). unfold pad_octet_ok in Hf. rewrite Hk in Hf by lia.
    rewrite (proj2 (Z.ltb_lt _ _)) in Hf by lia.
    replace (Z.to_nat (paddedLen - (padLen - 1 - j) - 1)) with (Z.to_nat (paddedLen - padLen) + j)%nat in Hf by lia.
    rewrite (list_lookup_total_correct _ _ _ Hx) in Hf. apply Z.eqb_eq, Hf, list_elem_of_In, elem_of_seqZ. lia.
  - intros Hz k Hin%list_elem_of_In%elem_of_seqZ. unfold pad_octet_ok. rewrite Hk by lia.
    destruct (Z.ltb_spec k padLen) as [Hlt|]; [|done]. apply Z.eqb_eq.
    destruct (lookup_lt_is_Some_2 newBuf (Z.to_nat (paddedLen - k - 1))) as [b Hb]; [lia|].
    rewrite (list_lookup_total_correct _ _ _ Hb).
    apply (f_equal (.!! Z.to_nat (padLen - 1 - k))) in Hz. rewrite lookup_drop in Hz.
    replace (Z.to_nat (paddedLen - padLen) + Z.to_nat (padLen - 1 - k))%nat with (Z.to_nat (paddedLen - k - 1)) in Hz by lia.
    rewrite lookup_take_lt, Hb, lookup_replicate_2 in Hz by lia. by injection Hz.
Qed.

(** What the code accepts: the magic number, a length that leaves less than a
    word of padding, and padding of zeros. *)
Definition kwp_good (iv newBuf : list Z) (paddedLen : Z) : Prop :=
  let outLen := be_val (take 4 (drop 4 iv)) in
  take 4 iv = AES_KEY_WRAP_ICV2 ∧ 0 ≤ paddedLen - outLen < 8 ∧
  drop (Z.to_nat outLen) (take (Z.to_nat paddedLen) newBuf) = replicate (Z.to_nat (paddedLen - outLen)) 0.

#[global] Instance kwp_good_dec iv newBuf paddedLen : Decision (kwp_good iv newBuf paddedLen).
Proof. unfold kwp_good. apply _. Defined.

Lemma kwp_check_good iv newBuf paddedLen :
  bytes iv → (8 ≤ length iv)%nat → bytes newBuf → 8 ≤ paddedLen < 2 ^ 32 → paddedLen mod 8 = 0 → paddedLen ≤ length newBuf →
  kwp_check iv newBuf paddedLen =
  Ok (be_val (take 4 (drop 4 iv)), mask (bool_decide (kwp_good iv newBuf paddedLen))).
Proof.
  intros Hiv Liv Hb Hp Hm Hl. unfold kwp_check. change AES_KEY_WRAP_BLOCK_SIZE with 8.
  rewrite !decode_PRUint32_BE_val by (done || by apply Forall_drop). set (L := be_val (take 4 (drop 4 iv))).
  assert (Ht : bytes (take 4 iv)) by by apply Forall_take.
  assert (HL : 0 ≤ L < 2 ^ 32).
  { pose proof (be_val_range (take 4 (drop 4 iv)) ltac:(by apply Forall_take, Forall_drop)) as HR.
    rewrite length_take, length_drop, Nat.min_l in HR by lia. exact HR. }
  assert (HM : 0 ≤ be_val (take 4 iv) < 2 ^ 32).
  { pose proof (be_val_range _ Ht) as HR. rewrite length_take, Nat.min_l in HR by lia. exact HR. }
  pose proof (wrap_range 32 (paddedLen - L) ltac:(lia)) as Hw.
  rewrite !CT_EQ_mask, BLOCK_PAD_mod by (done || rewrite ?BLOCK_PAD_mod; Z.to_euclidean_division_equations; lia).
  unfold PORT_CT_LE. rewrite CT_GT_mask, not32_mask, !land_mask, padding_check_mask by (done || lia).
  cbn [mbind res_bind]. do 3 f_equal. apply eq_true_iff_eq. rewrite bool_decide_eq_true.
  assert (Hmagic : be_val (take 4 iv) = AES_KEY_WRAP_ICV2_INT32 ↔ take 4 iv = AES_KEY_WRAP_ICV2).
  { split; [|by intros ->]. intros E. pose proof (be_bytes_be_val _ Ht) as HR.
    rewrite length_take, Nat.min_l, E in HR by lia. by rewrite <- HR. }
  unfold kwp_good. fold L. rewrite !andb_true_iff, !Z.eqb_eq, Hmagic. unfold wrap in *.
  split.
  - intros [[[H1 _] H3] H4]. assert (H5 : paddedLen - L = (paddedLen - L) mod 2 ^ 32).
    { symmetry. apply Z.mod_small. rewrite H3 in Hw.
      destruct (decide (L ≤ paddedLen)); [lia|]. exfalso.
      rewrite <- (Z.mod_unique (paddedLen - L) (2 ^ 32) (-1) (paddedLen - L + 2 ^ 32)) in H3 by lia.
      pose proof (Z.mod_pos_bound (- L) 8 ltac:(lia)). lia. }
    pose proof (Z.mod_pos_bound (- L) 8 ltac:(lia)). split_and!; [done|lia|lia|].
    rewrite <- H5 in H4. apply pad_octets_zero in H4; [|lia|lia]. by replace (paddedLen - (paddedLen - L)) with L in H4 by lia.
  - intros (H1 & H2 & H3). rewrite (Z.mod_small (paddedLen - L)) in * by lia. split_and!; [done| | |].
    + apply negb_true_iff, Z.leb_gt. lia.
    + Z.to_euclidean_division_equations; lia.
    + apply pad_octets_zero; [lia|lia|]. by replace (paddedLen - (paddedLen - L)) with L by lia.
Qed.

(** ** The algorithm of RFC 5649 *)

Definition kwp_pad (p : list Z) : list Z := p ++ replicate (Z.to_nat ((- length p) mod 8)) 0.
Definition kwp_iv (p : list Z) : list Z := AES_KEY_WRAP_ICV2 ++ be_bytes 4 (length p).

Definition rfc5649_wrap `{AESBlock} (p : list Z) : list Z :=
  if decide (length (kwp_pad p) = 8)%nat then enc (kwp_iv p ++ kwp_pad p) else rfc3394_W (kwp_iv p) (kwp_pad p).

(** The initial value and the padded plaintext in a ciphertext. *)
Definition rfc5649_open `{AESBlock} (c : list Z) : list Z * list Z :=
  if decide (length c = 16)%nat then (take 8 (dec c), drop 8 (dec c)) else rfc3394_Winv c.

Lemma length_kwp_pad p : length (kwp_pad p) = (length p + Z.to_nat ((- length p) mod 8))%nat ∧
  length (kwp_pad p) mod 8 = 0 ∧ length (kwp_pad p) - length p < 8.
Proof.
  unfold kwp_pad. rewrite length_app, length_replicate. pose proof (Z.mod_pos_bound (- length p) 8 ltac:(lia)).
  split_and!; [done| |lia]. rewrite Nat2Z.inj_add, Z2Nat.id by lia. Z.to_euclidean_division_equations; lia.
Qed.

Lemma kwp_pad_bytes p : bytes p → bytes (kwp_pad p).
Proof. intros Hp. apply Forall_app. split; [done|]. apply Forall_replicate. unfold is_byte. lia. Qed.

Lemma kwp_iv_word p : word (kwp_iv p).
Proof.
  split; [by cbn -[be_bytes]; rewrite length_be_bytes|]. apply Forall_app. split; [|apply be_bytes_bytes].
  repeat (apply Forall_cons_2; [unfold is_byte; lia|]). by apply Forall_nil_2.
Qed.

(** What passes the check is the padding of a plaintext. *)
Lemma kwp_good_iff iv P : word iv → length P mod 8 = 0 → 8 ≤ length P < 2 ^ 32 →
  kwp_good iv P (length P) ↔
  ∃ p, iv = kwp_iv p ∧ P = kwp_pad p ∧ p = take (Z.to_nat (be_val (take 4 (drop 4 iv)))) P ∧
       be_val (take 4 (drop 4 iv)) = length p ∧ p ≠ [].
Proof.
  intros [Liv Biv] Hm HP. unfold kwp_good. set (L := be_val (take 4 (drop 4 iv))).
  rewrite Nat2Z.id, firstn_all. split.
  - intros (H1 & H2 & H3). exists (take (Z.to_nat L) P).
    assert (Hl : length (take (Z.to_nat L) P) = Z.to_nat L) by (rewrite length_take; lia).
    split_and!; [| |done|lia|].
    + unfold kwp_iv. rewrite Hl, Z2Nat.id by lia. rewrite <- H1, <- (take_drop 4 iv) at 1. f_equal.
      pose proof (be_bytes_be_val (take 4 (drop 4 iv)) ltac:(by apply Forall_take, Forall_drop)) as Hr.
      fold L in Hr. rewrite (take_ge (drop 4 iv)) in Hr by (rewrite length_drop; lia).
      rewrite length_drop, Liv in Hr. symmetry. exact Hr.
    + unfold kwp_pad. rewrite Hl, Z2Nat.id by lia. rewrite <- (take_drop (Z.to_nat L) P) at 1. f_equal.
      rewrite H3. f_equal. f_equal. Z.to_euclidean_division_equations; lia.
    + intros E. rewrite E in Hl. cbn in Hl. lia.
  - intros (p & E1 & -> & Ep & EL & _). destruct (length_kwp_pad p) as (H1 & H2 & H3).
    rewrite EL, E1. split_and!; [done|lia|lia|]. rewrite Nat2Z.id. unfold kwp_pad at 1.
    rewrite drop_app_length. f_equal. lia.
Qed.

Lemma be_val_kwp_iv p : length p < 2 ^ 32 → be_val (take 4 (drop 4 (kwp_iv p))) = length p.
Proof.
  intros Hp. unfold kwp_iv. rewrite drop_app_length' by done. rewrite take_ge by (rewrite length_be_bytes; lia).
  rewrite be_val_be_bytes. apply Z.mod_small. change (256 ^ 4%nat) with (2 ^ 32). lia.
Qed.

Section KWP.
  Context `{AESBlock}.

Lemma rfc5649_wrap_length p : bytes p → p ≠ [] →
  length (rfc5649_wrap p) = (length (kwp_pad p) + 8)%nat ∧ bytes (rfc5649_wrap p) ∧
  16 ≤ length (rfc5649_wrap p) ∧ length (rfc5649_wrap p) mod 8 = 0.
Proof.
  intros Hp Hne. destruct (length_kwp_pad p) as (H1 & H2 & H3). pose proof (kwp_iv_word p) as [Lv Bv].
  pose proof (kwp_pad_bytes p Hp) as Hb. assert (length p ≠ 0)%nat by (by destruct p).
  assert (Hl : length (rfc5649_wrap p) = (length (kwp_pad p) + 8)%nat ∧ bytes (rfc5649_wrap p)).
  { unfold rfc5649_wrap. case_decide as E.
    - destruct (enc_block (kwp_iv p ++ kwp_pad p)) as (_ & L & B & _); [rewrite length_app; lia|by apply Forall_app|]. split; [lia|done].
    - by apply rfc3394_W_length. }
  destruct Hl as [Hl Hbb]. split_and!; [done|done| |]; rewrite Hl; [|Z.to_euclidean_division_equations; lia].
  Z.to_euclidean_division_equations; lia.
Qed.

Lemma rfc5649_open_wrap p : bytes p → p ≠ [] → rfc5649_open (rfc5649_wrap p) = (kwp_iv p, kwp_pad p).
Proof.
  intros Hp Hne. destruct (rfc5649_wrap_length p Hp Hne) as (Hl & _). unfold rfc5649_open. rewrite Hl.
  destruct (length_kwp_pad p) as (H1 & H2 & H3). pose proof (kwp_iv_word p) as [Lv Bv].
  pose proof (kwp_pad_bytes p Hp) as Hb. unfold rfc5649_wrap. case_decide as E1; case_decide as E2; try lia.
  - destruct (enc_block (kwp_iv p ++ kwp_pad p)) as (_ & L & B & ->); [rewrite length_app; lia|by apply Forall_app|].
    by rewrite take_app_length', drop_app_length' by done.
  - by apply rfc3394_Winv_W.
Qed.

Lemma rfc5649_wrap_inj p q : bytes p → p ≠ [] → bytes q → q ≠ [] → length (rfc5649_wrap p) < 2 ^ 32 →
  rfc5649_wrap p = rfc5649_wrap q → p = q.
Proof.
  intros Hp Hpn Hq Hqn Hl E. destruct (rfc5649_wrap_length p Hp Hpn) as (Lp & _). destruct (rfc5649_wrap_length q Hq Hqn) as (Lq & _).
  destruct (length_kwp_pad p) as (Pp & _). destruct (length_kwp_pad q) as (Pq & _).
  assert (Ho := rfc5649_open_wrap p Hp Hpn). rewrite E, (rfc5649_open_wrap q Hq Hqn) in Ho. apply pair_eq in Ho as [E1 E2].
  pose proof (be_val_kwp_iv p ltac:(lia)) as Hv. rewrite <- E1, be_val_kwp_iv in Hv by (rewrite E in Hl; lia).
  apply (f_equal (take (length p))) in E2. unfold kwp_pad in E2. rewrite take_app_length in E2.
  rewrite take_app_length' in E2 by lia. done.
Qed.

Lemma rfc5649_wrap_open c p : bytes c → length c mod 8 = 0 → 16 ≤ length c →
  rfc5649_open c = (kwp_iv p, kwp_pad p) → rfc5649_wrap p = c.
Proof.
  intros Hc Hm Hge. unfold rfc5649_open, rfc5649_wrap. case_decide as E1; intros Ho.
  - apply pair_eq in Ho as [Ho1 Ho2]. destruct (dec_block c E1 Hc) as (_ & L & _ & He).
    rewrite <- Ho1, <- Ho2, take_drop, He. rewrite length_drop, L. by rewrite decide_True.
  - destruct (rfc3394_Winv_length c Hc Hm ltac:(lia)) as (_ & HL & _). rewrite Ho in HL. cbn [snd] in HL.
    rewrite decide_False by lia. pose proof (rfc3394_W_Winv c Hc Hm ltac:(lia)) as Hw. by rewrite Ho in Hw.
Qed.
End KWP.

(** What DecryptKWP may do to the caller: hand over the plaintext whose wrapping
    it was given, or fail with nothing of it left in the caller's buffer. *)
Definition no_memory_for `{NSPRHeap} (c : list Z) (e : SECErrorCode) : Prop :=
  e = SEC_ERROR_NO_MEMORY ∧ ∃ n, 0 < n ≤ length c ∧ PORT_Alloc n = Err SEC_ERROR_NO_MEMORY.

Definition kwp_outcome `{AESBlock} `{NSPRHeap} (c output : list Z) (max : Z) (r : list Z * kw_status) : Prop :=
  let '(output', s) := r in
  length output' = length output ∧
  match s with
  | KwOk L => ∃ p, bytes p ∧ p ≠ [] ∧ c = rfc5649_wrap p ∧ L = length p ∧ L ≤ max ∧ take (length p) output' = p
  | KwErr e =>
      (output' = output ∨ ∃ n, output' = replicate n 0 ++ drop n output) ∧
      (no_memory_for c e ∨
       ∀ p, bytes p → p ≠ [] → c = rfc5649_wrap p → e = SEC_ERROR_OUTPUT_LEN ∧ max < length p)
  end.

Section DecryptKWP.
  Context `{AESBlock} `{NSPRHeap}.

Lemma kwp_loser_outcome c output0 output max place n e :
  (place ≠ InOutput → output = output0) →
  (place = InOutput → 0 ≤ n ≤ length output ∧ length output = length output0 ∧
     drop (Z.to_nat n) output = drop (Z.to_nat n) output0) →
  (no_memory_for c e ∨
   ∀ p, bytes p → p ≠ [] → c = rfc5649_wrap p → e = SEC_ERROR_OUTPUT_LEN ∧ max < length p) →
  ∃ r, kwp_loser output place n e = Ok r ∧ kwp_outcome c output0 max r.
Proof.
  intros Hno Hin He. unfold kwp_loser. destruct place.
  1, 3: rewrite Hno by done; eexists; split; [done|]; split; [done|]; split; [by left|done].
  destruct (Hin eq_refl) as (Hn & Hl & Hd). rewrite mem_write_front by (rewrite length_replicate; lia).
  cbn [mbind res_bind]. eexists. split; [done|]. rewrite length_replicate, Hd.
  split; [rewrite length_app, length_replicate, length_drop; lia|]. split; [right; by exists (Z.to_nat n)|done].
Qed.

Lemma kwp_finish_outcome c output0 output max place iv newBuf A P :
  bytes c → length c mod 8 = 0 → 16 ≤ length c < 2 ^ 32 → 0 ≤ max ≤ length output0 →
  rfc5649_open c = (A, P) → word A → bytes P → length P = (length c - 8)%nat →
  bytes iv → (8 ≤ length iv)%nat → take 8 iv = A →
  bytes newBuf → take (length P) newBuf = P →
  (place ≠ InOutput → output = output0) →
  (place = InOutput → output = newBuf ∧ newBuf = P ++ drop (length P) output0 ∧ length P ≤ length output0) →
  ∃ r, kwp_finish output max (length P) place iv newBuf (length P) = Ok r ∧ kwp_outcome c output0 max r.
Proof.
  intros Hc Hm Hlen Hmax Ho HA HP LP Biv Liv Ht Hb Hn Hno Hin.
  assert (HmP : length P mod 8 = 0) by (Z.to_euclidean_division_equations; lia).
  assert (LnP : (length P ≤ length newBuf)%nat) by (rewrite <- Hn at 1; rewrite length_take; lia).
  assert (Htk : take 4 iv = take 4 A ∧ take 4 (drop 4 iv) = take 4 (drop 4 A)).
  { rewrite <- Ht, take_take, Nat.min_l by lia. split; [done|]. rewrite skipn_firstn_comm, take_take. done. }
  destruct Htk as [Ht1 Ht2]. unfold kwp_finish. rewrite Z.eqb_refl. cbn [negb].
  rewrite kwp_check_good by (done || lia). cbn [mbind res_bind]. rewrite mask_zero.
  assert (Hg : kwp_good iv newBuf (length P) ↔ kwp_good A P (length P)).
  { unfold kwp_good. rewrite Ht1, Ht2, Nat2Z.id, Hn. by rewrite (firstn_all P). }
  rewrite (bool_decide_ext _ _ Hg), Ht2. clear Hg. pose proof (kwp_good_iff A P HA HmP ltac:(lia)) as Hgood.
  assert (Hl : place = InOutput → 0 ≤ length P ≤ length output ∧ length output = length output0 ∧
     drop (Z.to_nat (length P)) output = drop (Z.to_nat (length P)) output0).
  { intros Hpl. destruct (Hin Hpl) as (-> & -> & Hle). rewrite Nat2Z.id, drop_app_length.
    rewrite length_app, length_drop. split_and!; [lia..|done]. }
  assert (Huniq : ∀ p, bytes p → p ≠ [] → c = rfc5649_wrap p → A = kwp_iv p ∧ P = kwp_pad p ∧ be_val (take 4 (drop 4 A)) = length p).
  { intros p Hp Hne Hcp. rewrite Hcp, (rfc5649_open_wrap p Hp Hne) in Ho. apply pair_eq in Ho as [<- <-].
    destruct (length_kwp_pad p) as (E & _). split_and!; [done..|]. apply be_val_kwp_iv. lia. }
  case_bool_decide as Hgd; cbn [negb].
  - apply Hgood in Hgd as (p & E1 & E2 & E3 & E4 & Hne). rewrite E4. rewrite E4, Nat2Z.id in E3.
    assert (Hp : bytes p) by (rewrite E3; by apply Forall_take).
    assert (Hcp : rfc5649_wrap p = c) by (apply rfc5649_wrap_open; [done|done|lia|by rewrite Ho, E1, E2]).
    assert (Hpp : (length p ≤ length P)%nat) by (rewrite E3, length_take; lia).
    destruct (Z.ltb_spec max (length p)) as [Hlt|Hge].
    { apply kwp_loser_outcome; [done|done|]. right. intros q Hq Hqn Hcq. split; [done|].
      destruct (Huniq q Hq Hqn Hcq) as (_ & _ & E5). lia. }
    assert (Hnp : take (length p) newBuf = p).
    { transitivity (take (length p) (take (length P) newBuf)); [rewrite take_take; f_equal; lia|]. by rewrite Hn, <- E3. }
    destruct place.
    2: { destruct (Hin eq_refl) as (-> & -> & Hle). eexists. split; [done|].
         split; [rewrite length_app, length_drop; lia|]. by exists p. }
    all: unfold mem_read; rewrite Nat2Z.id, decide_True by lia; cbn [mbind res_bind];
      rewrite drop_0, Hnp, mem_write_front by (rewrite Hno by done; lia); cbn [mbind res_bind]; rewrite Hno by done;
      eexists; split; [done|]; split; [rewrite length_app, length_drop; lia|];
      exists p; rewrite take_app_length; done.
  - apply kwp_loser_outcome; [done|done|]. right. intros p Hp Hne Hcp. destruct Hgd. apply Hgood.
    destruct (Huniq p Hp Hne Hcp) as (-> & -> & ->). exists p. split_and!; [done..| |done|done].
    rewrite Nat2Z.id. unfold kwp_pad. by rewrite take_app_length.
Qed.

(** A ciphertext of another length is refused. *)
Lemma kwp_unwrap_bad_length output max c :
  bytes c → length c < 2 ^ 32 → 0 ≤ max ≤ length output →
  ¬ (16 ≤ length c ∧ length c mod 8 = 0) → length c ≠ 16%nat →
  ∃ place e, kwp_unwrap output max c (length c) = Ok (output, inr (place, e)) ∧
    (place = InOutput → u32 (length c - 8) ≤ max).
Proof.
  intros Hc Hlc Hmax Hbad Hne. unfold kwp_unwrap. change AES_KEY_WRAP_BLOCK_SIZE with 8. change AES_BLOCK_SIZE with 16.
  rewrite (proj2 (Z.eqb_neq (length c) 16)) by lia. pose proof (wrap_range 32 (length c - 8) ltac:(lia)) as Hw.
  assert (HW : ∀ out max, Winv_result None out max c = (out, [], KwErr SEC_ERROR_INPUT_LEN)).
  { intros out max'. unfold Winv_result. destruct (Z.ltb_spec (length c) 24); [done|].
    destruct (Z.eqb_spec (length c mod 8) 0); [|done]. destruct Hbad. split; [lia|done]. }
  destruct (Z.ltb_spec max (u32 (length c - 8))) as [Hlt|Hge].
  - destruct (PORT_Alloc (u32 (length c - 8))) as [block|e|] eqn:Hal; [|by exists InBlock, e|by apply PORT_Alloc_no_UB in Hal].
    apply PORT_Alloc_Ok in Hal as (Hbl & _ & _); [|lia].
    rewrite AESKeyWrap_Winv_spec; [|done|done|done|case_match; lia]. rewrite HW. cbn [mbind res_bind]. by eexists _, _.
  - rewrite AESKeyWrap_Winv_spec; [|done|done|done|lia]. rewrite HW. cbn [mbind res_bind]. by eexists _, _.
Qed.

(** One of the right length is unwrapped, unless memory is short. *)
Lemma kwp_unwrap_open output max c A P :
  bytes c → 16 ≤ length c < 2 ^ 32 → length c mod 8 = 0 → 0 ≤ max ≤ length output →
  rfc5649_open c = (A, P) →
  (∃ place e, kwp_unwrap output max c (length c) = Ok (output, inr (place, e)) ∧ no_memory_for c e ∧
     (place = InOutput → length c - 8 ≤ max)) ∨
  (∃ output' place iv newBuf,
     kwp_unwrap output max c (length c) = Ok (output', inl (place, iv, newBuf, Z.of_nat (length c - 8))) ∧
     bytes iv ∧ (8 ≤ length iv)%nat ∧ take 8 iv = A ∧ take (length c - 8) newBuf = P ∧
     (place ≠ InOutput → output' = output ∧ newBuf = P) ∧
     (place = InOutput → output' = newBuf ∧ newBuf = P ++ drop (length c - 8) output ∧ length c - 8 ≤ length output)).
Proof.
  intros Hc Hlc Hmod Hmax Ho. unfold kwp_unwrap, rfc5649_open in *.
  change AES_KEY_WRAP_BLOCK_SIZE with 8. change AES_BLOCK_SIZE with 16. rewrite wrap_small by lia.
  case_decide as E16.
  { right. rewrite E16. change (Z.of_nat 16 =? 16) with true. cbn match.
    pose proof (mem_read_all (E:=Empty_set) c) as Hr. rewrite E16 in Hr. change (Z.to_nat 16%nat) with 16%nat in Hr.
    rewrite Hr. cbn [mbind res_bind]. destruct (dec_block c E16 Hc) as (-> & Ld & Bd & _).
    apply pair_eq in Ho as [<- <-]. exists output, OnStack, (dec c), (drop 8 (dec c)).
    split; [done|]. split_and!; [done|lia|done| |done|done]. apply take_ge. rewrite length_drop. lia. }
  rewrite (proj2 (Z.eqb_neq (length c) 16)) by lia.
  assert (HW : ∀ out max, length c - 8 ≤ max → Winv_result None out max c = (out, [], KwErr SEC_ERROR_NO_MEMORY) ∧
       no_memory_for c SEC_ERROR_NO_MEMORY ∨
     Winv_result None out max c = (P ++ drop (length c - 8) out, A, KwOk (length c - 8))).
  { intros out max' Hm'. unfold Winv_result. rewrite (proj2 (Z.ltb_ge (length c) 24)) by (Z.to_euclidean_division_equations; lia).
    rewrite Hmod. cbn [orb negb Z.eqb]. rewrite (proj2 (Z.ltb_ge _ _)) by lia.
    destruct (PORT_Alloc_cases (length c)) as [(m & -> & Hms)|E]; [lia|right; by rewrite Ho|].
    rewrite E. left. split; [done|]. split; [done|]. exists (length c). split; [lia|done]. }
  destruct (rfc3394_Winv_length c Hc Hmod ltac:(lia)) as ([LA BA] & LP & BP). rewrite Ho in LA, BA, LP, BP. cbn [fst snd] in *.
  assert (HPt : ∀ l, take (length c - 8) (P ++ l) = P) by (intros l; by rewrite take_app_length').
  assert (HAt : take 8 A = A) by (apply take_ge; lia).
  destruct (Z.ltb_spec max (length c - 8)) as [Hlt|Hge].
  - destruct (PORT_Alloc_cases (length c - 8)) as [(block & Hal & _)|E]; [lia| |].
    + rewrite Hal. apply PORT_Alloc_Ok in Hal as (Hbl & _ & _); [|lia].
      rewrite (proj2 (Z.eqb_neq (length c - 8) 0)) in Hbl by lia.
      rewrite AESKeyWrap_Winv_spec by (done || lia). destruct (HW block (length c - 8) ltac:(lia)) as [[-> Hnm]| ->]; cbn [mbind res_bind].
      * left. exists InBlock, SEC_ERROR_NO_MEMORY. split; [done|]. split; [done|]. intros [=].
      * right. exists output, InBlock, A, P. rewrite drop_ge, app_nil_r by lia.
        replace (length c - 8) with (Z.of_nat (length c - 8)) by lia. split; [done|].
        split_and!; [done|lia|done| |done|done]. apply take_ge. lia.
    + rewrite E. left. exists InBlock, SEC_ERROR_NO_MEMORY. split; [done|]. split; [|intros [=]].
      split; [done|]. exists (length c - 8). split; [lia|done].
  - rewrite AESKeyWrap_Winv_spec by (done || lia). destruct (HW output (length c - 8) ltac:(lia)) as [[-> Hnm]| ->]; cbn [mbind res_bind].
    + left. exists InOutput, SEC_ERROR_NO_MEMORY. split; [done|]. split; [done|]. lia.
    + right. exists (P ++ drop (length c - 8) output), InOutput, A, (P ++ drop (length c - 8) output).
      replace (length c - 8) with (Z.of_nat (length c - 8)) by lia. split; [done|].
      split_and!; [done|lia|done|done|done|]. intros _. split_and!; [done|done|lia].
Qed.

Lemma rfc5649_open_parts c A P : bytes c → length c mod 8 = 0 → 16 ≤ length c → rfc5649_open c = (A, P) →
  word A ∧ bytes P ∧ length P = (length c - 8)%nat.
Proof.
  intros Hc Hm Hge. unfold rfc5649_open. case_decide as E; intros Ho.
  - apply pair_eq in Ho as [<- <-]. destruct (dec_block c E Hc) as (_ & L & B & _).
    destruct (words_block _ L B) as [H1 [H2 H3]]. split; [done|]. split; [done|lia].
  - destruct (rfc3394_Winv_length c Hc Hm ltac:(lia)) as (H1 & H2 & H3). by rewrite Ho in H1, H2, H3.
Qed.

Lemma DecryptKWP_outcome output max c : bytes output → bytes c → length c < 2 ^ 32 → 0 ≤ max ≤ length output →
  ∃ r, AESKeyWrap_DecryptKWP output max c (length c) = Ok r ∧ kwp_outcome c output max r.
Proof.
  intros Hout Hc Hlc Hmax. unfold AESKeyWrap_DecryptKWP. change AES_KEY_WRAP_BLOCK_SIZE with 8.
  pose proof (wrap_range 32 (length c - 8) ltac:(lia)) as Hw.
  destruct (decide (16 ≤ length c ∧ length c mod 8 = 0)) as [[Hge Hmod]|Hbad].
  - rewrite (wrap_small 32 (length c - 8)) by lia. destruct (rfc5649_open c) as [A P] eqn:Ho.
    destruct (rfc5649_open_parts c A P Hc Hmod Hge Ho) as (HA & BP & LP).
    destruct (kwp_unwrap_open output max c A P Hc ltac:(lia) Hmod Hmax Ho) as
      [(place & e & -> & Hnm & Hin)|(output' & place & iv & newBuf & -> & Biv & Liv & HtA & HtP & Hno & Hin)];
      cbn [mbind res_bind].
    + apply kwp_loser_outcome; [done| |by left]. intros Hp. specialize (Hin Hp). split_and!; [lia..|done|done].
    + rewrite <- LP in *. replace (length c - 8) with (Z.of_nat (length P)) by lia.
      apply (kwp_finish_outcome c output output' max place iv newBuf A P); try done; [|intros Hp; by destruct (Hno Hp)|].
      * destruct (decide (place = InOutput)) as [Hp|Hp]; [destruct (Hin Hp) as (_ & -> & _)|by destruct (Hno Hp) as [_ ->]].
        apply Forall_app. split; [done|by apply Forall_drop].
      * intros Hp. destruct (Hin Hp) as (H1 & H2 & H3). split_and!; [done|done|lia].
  - destruct (decide (length c = 16)%nat) as [E|Hne]; [destruct Hbad; rewrite E; by split|].
    destruct (kwp_unwrap_bad_length output max c Hc Hlc Hmax Hbad Hne) as (place & e & -> & Hin). cbn [mbind res_bind].
    apply kwp_loser_outcome; [done| |].
    + intros Hp. specialize (Hin Hp). split_and!; [lia..|done|done].
    + right. intros p Hp Hpn ->. destruct (rfc5649_wrap_length p Hp Hpn) as (_ & _ & H1 & H2). destruct Hbad. by split.
Qed.
End DecryptKWP.

(** What a successful call says. *)
Section Success.
  Context `{AESBlock} `{NSPRHeap}.

Lemma W_result_KwOk iv out max p o L : W_result iv out max p = (o, KwOk L) →
  16 ≤ length p ∧ length p mod 8 = 0 ∧ L = length p + 8 ∧ L ≤ MAX_SIZE ∧
  o = rfc3394_W iv p ++ drop (length p + 8) out.
Proof.
  unfold W_result. destruct (Z.ltb_spec (length p) 16); [done|].
  destruct (Z.eqb_spec (length p mod 8) 0) as [Hm|]; [|done]. cbn [orb negb].
  destruct (Z.ltb_spec max (u32 (length p + 8))); [done|].
  destruct (PORT_Alloc_cases (length p + 8)) as [(m & -> & Hms)| ->]; [lia| |done].
  intros [E1 E2]%pair_eq. injection E2 as <-. split_and!; [lia|done|done|done|by symmetry].
Qed.

Lemma Winv_result_KwOk iv out max c o A L : Winv_result (Some iv) out max c = (o, A, KwOk L) →
  24 ≤ length c ∧ length c mod 8 = 0 ∧ L = length c - 8 ∧
  (rfc3394_Winv c).1 = iv ∧ o = (rfc3394_Winv c).2 ++ drop (length c - 8) out.
Proof.
  unfold Winv_result. destruct (Z.ltb_spec (length c) 24); [done|].
  destruct (Z.eqb_spec (length c mod 8) 0) as [Hm|]; [|done]. cbn [orb negb].
  destruct (Z.ltb_spec max (length c - 8)); [done|]. destruct (PORT_Alloc (length c)); [|done|done].
  destruct (rfc3394_Winv c) as [A' P]. case_bool_decide; [|done].
  intros [[E1 _]%pair_eq E2]%pair_eq. injection E2 as <-. split_and!; [lia|done|done|done|by symmetry].
Qed.

(** On a wrapping the inverse succeeds if the buffer has room and memory is
    available. *)
Lemma Winv_result_W iv A0 out max p m : word iv → bytes p → 16 ≤ length p → length p mod 8 = 0 → length p ≤ max →
  (A0 = Some iv ∨ A0 = None) → PORT_Alloc (length p + 8) = Ok m →
  Winv_result A0 out max (rfc3394_W iv p) = (p ++ drop (length p) out, iv, KwOk (length p)).
Proof.
  intros Hiv Hp Hge Hmod Hfit HA Hal. destruct (rfc3394_W_length iv p Hiv Hp Hmod) as [HL _].
  unfold Winv_result. rewrite HL, (rfc3394_Winv_W iv p) by done.
  replace (Z.of_nat (length p + 8)) with (length p + 8) by lia. rewrite Hal.
  rewrite (proj2 (Z.ltb_ge _ _)) by lia. replace ((length p + 8) mod 8) with 0 by (Z.to_euclidean_division_equations; lia).
  cbn [orb negb Z.eqb]. rewrite (proj2 (Z.ltb_ge _ _)) by lia.
  replace (length p + 8 - 8)%nat with (length p) by lia. replace (length p + 8 - 8) with (Z.of_nat (length p)) by lia.
  destruct HA as [-> | ->]; [by rewrite bool_decide_eq_true_2 by done|done].
Qed.
End Success.

(** ** Theorems *)

Section Theorems.
  Context `{AESBlock}.

(** [C21] AESKeyWrap_Encrypt and AESKeyWrap_Decrypt, with their counters stepped
    octet by octet and the masked exclusive or, compute on every input the
    wrapping and unwrapping of RFC 3394 or the documented error, stay inside the
    caller's buffers and touch nothing else in them. *)
Theorem KeyWrap_reference `{NSPRHeap} (iv output input : list Z) (maxOutputLen : Z) :
  word iv → bytes input → length input < 2 ^ 32 → 0 ≤ maxOutputLen ≤ length output →
  AESKeyWrap_Encrypt iv output maxOutputLen input (length input) = Ok (W_result iv output maxOutputLen input) ∧
  AESKeyWrap_Decrypt iv output maxOutputLen input (length input) =
  (let '(output', _, s) := Winv_result (Some iv) output maxOutputLen input in Ok (output', s)).
Proof.
  intros Hiv Hi Hl Hm. pose proof Hiv as [Liv _]. split.
  - unfold AESKeyWrap_Encrypt. rewrite AESKeyWrap_W_spec; rewrite ?take_ge by lia; done.
  - unfold AESKeyWrap_Decrypt. rewrite AESKeyWrap_Winv_spec; [|by intros v [= ->]|done..].
    cbn [mbind res_bind]. by destruct (Winv_result _ _ _ _) as [[? ?] ?].
Qed.

(** Whatever AESKeyWrap_Encrypt produced, AESKeyWrap_Decrypt returns the key
    that was wrapped; and whatever AESKeyWrap_Decrypt accepts is the wrapping of
    what it returns, so no other ciphertext is accepted.  The two calls may run
    in different processes, hence two heaps. *)
Theorem KeyWrap_round_trip (heap1 heap2 : NSPRHeap) (iv p out1 out2 : list Z) (max1 max2 : Z) :
  word iv → bytes p → length p < 2 ^ 32 → 0 ≤ max1 ≤ length out1 → 0 ≤ max2 ≤ length out2 →
  (∀ o1 L m, @AESKeyWrap_Encrypt _ heap1 iv out1 max1 p (length p) = Ok (o1, KwOk L) →
     length p ≤ max2 → @PORT_Alloc heap2 L = Ok m →
     @AESKeyWrap_Decrypt _ heap2 iv out2 max2 (take (Z.to_nat L) o1) L =
     Ok (p ++ drop (length p) out2, KwOk (length p))) ∧
  (∀ c o2 L, bytes c → length c < 2 ^ 32 →
     @AESKeyWrap_Decrypt _ heap2 iv out2 max2 c (length c) = Ok (o2, KwOk L) →
     rfc3394_W iv (take (Z.to_nat L) o2) = c).
Proof.
  intros Hiv Hp Hlp Hm1 Hm2. pose proof Hiv as [Liv _]. split.
  - intros o1 L m HE Hfit Hal. unfold AESKeyWrap_Encrypt in HE.
    rewrite AESKeyWrap_W_spec in HE by (rewrite ?take_ge by lia; done). rewrite take_ge in HE by lia.
    apply Ok_inj, W_result_KwOk in HE as (Hge & Hmod & -> & Hms & ->). rewrite MAX_SIZE_val in Hms.
    destruct (rfc3394_W_length iv p Hiv Hp Hmod) as [HL HB]. rewrite take_app_length' by lia.
    replace (length p + 8) with (Z.of_nat (length (rfc3394_W iv p))) by lia.
    unfold AESKeyWrap_Decrypt. rewrite AESKeyWrap_Winv_spec; [|by intros v [= ->]|done|lia|done].
    rewrite (Winv_result_W iv _ out2 max2 p m) by (done || by left). done.
  - intros c o2 L Hc Hlc HD. unfold AESKeyWrap_Decrypt in HD.
    rewrite AESKeyWrap_Winv_spec in HD; [|by intros v [= ->]|done..]. cbn [mbind res_bind] in HD.
    destruct (Winv_result (Some iv) out2 max2 c) as [[o A] s] eqn:EW.
    apply Ok_inj, pair_eq in HD as [-> ->].
    apply Winv_result_KwOk in EW as (Hge & Hmod & -> & E & ->).
    destruct (rfc3394_Winv_length c Hc Hmod ltac:(lia)) as (_ & HL & _).
    rewrite take_app_length' by lia. rewrite <- E. apply rfc3394_W_Winv; [done|done|lia].
Qed.

(** Given any octets, AESKeyWrap_DecryptKWP either returns the non-empty
    plaintext of which they are the RFC 5649 wrapping, in the front of the
    buffer, or fails leaving the buffer as it was or overwritten with zeros; a
    wrapping is refused only for want of memory or of room.  The constant-time
    check thus accepts exactly the valid paddings. *)
Theorem DecryptKWP_decides `{NSPRHeap} (output c : list Z) (maxOutputLen : Z) :
  bytes output → bytes c → length c < 2 ^ 32 → 0 ≤ maxOutputLen ≤ length output →
  ∃ r, AESKeyWrap_DecryptKWP output maxOutputLen c (length c) = Ok r ∧ kwp_outcome c output maxOutputLen r.
Proof. apply DecryptKWP_outcome. Qed.

Lemma EncryptKWP_KwOk `{NSPRHeap} output max p o L : bytes p → length p < 2 ^ 32 → 0 ≤ max ≤ length output →
  AESKeyWrap_EncryptKWP output max p (length p) = Ok (o, KwOk L) →
  p ≠ [] ∧ L = length (rfc5649_wrap p) ∧ L < 2 ^ 32 ∧ o = rfc5649_wrap p ++ drop (length (rfc5649_wrap p)) output.
Proof.
  intros Hp Hlp Hmax. unfold AESKeyWrap_EncryptKWP. change AES_KEY_WRAP_BLOCK_SIZE with 8. change AES_BLOCK_SIZE with 16.
  destruct (Z.gtb_spec (length p) (2 ^ 32 - 1 - (2 * 8 - 1))) as [|Hsm]; [done|].
  rewrite BLOCK_PAD_mod. destruct (length_kwp_pad p) as (HL & HM & HD).
  assert (Hpl : length p + (- length p) mod 8 = length (kwp_pad p)).
  { rewrite HL. pose proof (Z.mod_pos_bound (- length p) 8 ltac:(lia)). lia. }
  rewrite Hpl. destruct (Z.ltb_spec max (length (kwp_pad p) + 8)) as [|Hfit]; [done|].
  rewrite mem_read_all. cbn [mbind res_bind]. unfold encode_PRUint32_BE. rewrite wrap_small by lia.
  rewrite app_assoc. fold (kwp_iv p). pose proof (kwp_iv_word p) as [Lv Bv].
  destruct (Z.eqb_spec (length (kwp_pad p) + 8) 16) as [E16|Hne16].
  - assert (Hne : p ≠ []) by (by intros ->). destruct (rfc5649_wrap_length p Hp Hne) as (HLw & _).
    assert (Hw : mem_write (E:=Empty_set) (kwp_iv p ++ replicate 8 0) 8 p = Ok (kwp_iv p ++ kwp_pad p)).
    { rewrite mem_write_same by (rewrite length_app, length_replicate; lia). rewrite take_app_length' by lia.
      rewrite drop_app_ge, drop_replicate by lia. unfold kwp_pad. do 4 f_equal. rewrite Lv. lia. }
    rewrite Hw. cbn [mbind res_bind].
    destruct (enc_block (kwp_iv p ++ kwp_pad p)) as (-> & Le & _);
      [rewrite length_app; lia|apply Forall_app; split; [done|by apply kwp_pad_bytes]|].
    rewrite mem_write_front by lia. cbn [mbind res_bind]. intros [<- E2]%Ok_inj%pair_eq. injection E2 as <-.
    assert (Er : rfc5649_wrap p = enc (kwp_iv p ++ kwp_pad p)) by (unfold rfc5649_wrap; by rewrite decide_True by lia).
    rewrite Er, Le. split_and!; [done|lia|lia|done].
  - destruct (PORT_ZAlloc (length (kwp_pad p))) as [newBuf|e|] eqn:Hz; [|done|done].
    apply PORT_ZAlloc_Ok in Hz; [|lia].
    destruct (Z.eqb_spec (length (kwp_pad p)) 0) as [E0|Hn0].
    { rewrite Hz, E0. rewrite mem_write_front by (rewrite length_replicate; lia). cbn [mbind res_bind].
      unfold AESKeyWrap_W. done. }
    assert (Hne : p ≠ []) by (by intros ->). destruct (rfc5649_wrap_length p Hp Hne) as (HLw & _).
    rewrite Nat2Z.id in Hz. subst newBuf. rewrite mem_write_front by (rewrite length_replicate; lia). cbn [mbind res_bind].
    rewrite drop_replicate. replace (length (kwp_pad p) - length p)%nat with (Z.to_nat ((- length p) mod 8)) by lia. fold (kwp_pad p).
    rewrite AESKeyWrap_W_spec; [|by rewrite take_app_length'|by apply kwp_pad_bytes|lia|done].
    rewrite take_app_length' by done. intros (H1 & _ & -> & Hms & ->)%Ok_inj%W_result_KwOk. rewrite MAX_SIZE_val in Hms.
    assert (Er : rfc5649_wrap p = rfc3394_W (kwp_iv p) (kwp_pad p)) by (unfold rfc5649_wrap; by rewrite decide_False by lia).
    rewrite HLw. split_and!; [done|lia|lia|by rewrite Er].
Qed.

(** Whatever AESKeyWrap_EncryptKWP produced for a plaintext of any length,
    AESKeyWrap_DecryptKWP returns that plaintext to a caller with room for it
    (if only just), provided memory is available. *)
Theorem KWP_round_trip (heap1 heap2 : NSPRHeap) (p out1 out2 o1 : list Z) (max1 max2 L : Z) :
  bytes p → length p < 2 ^ 32 → 0 ≤ max1 ≤ length out1 → bytes out2 → length p ≤ max2 ≤ length out2 →
  (∀ n, 0 < n ≤ L → PORT_Alloc (H:=heap2) n ≠ Err SEC_ERROR_NO_MEMORY) →
  AESKeyWrap_EncryptKWP (H0:=heap1) out1 max1 p (length p) = Ok (o1, KwOk L) →
  ∃ o2, AESKeyWrap_DecryptKWP (H0:=heap2) out2 max2 (take (Z.to_nat L) o1) L = Ok (o2, KwOk (length p)) ∧
        take (length p) o2 = p.
Proof.
  intros Hp Hlp Hm1 Ho2 Hm2 Hmem HE. apply EncryptKWP_KwOk in HE as (Hne & -> & HL & ->); [|done..].
  rewrite Nat2Z.id, take_app_length. destruct (rfc5649_wrap_length p Hp Hne) as (_ & Hb & _).
  destruct (DecryptKWP_outcome out2 max2 (rfc5649_wrap p)) as ([o2 s] & E & Ho & Hs); [done|done|done|lia|].
  rewrite E. destruct s as [n|e].
  - destruct Hs as (q & Hq & Hqn & Hpq & -> & Hfit & Ht). exists o2.
    apply rfc5649_wrap_inj in Hpq as <-; [done..|lia].
  - destruct Hs as [_ [(-> & n & Hn & Hal)|Hs]]; [by destruct (Hmem n Hn)|]. destruct (Hs p Hp Hne eq_refl). lia.
Qed.
End Theorems.

(** ** Evaluations

    A block cipher to evaluate with: exclusive or with a key, then reversal. *)

Definition toy_key : list Z := (λ i, (i * 37 + 11) mod 256) <$> seqZ 0 16.
Definition toy_block (f : list Z → list Z) (b : list Z) : list Z + SECErrorCode :=
  if decide (length b = 16)%nat then inl (f b) else inr SEC_ERROR_INPUT_LEN.
Definition toy_enc (b : list Z) : list Z := reverse (xor8 b toy_key).
Definition toy_dec (c : list Z) : list Z := xor8 (reverse c) toy_key.

Lemma toy_key_bytes : bytes toy_key.
Proof. apply Forall_fmap, Forall_true. intros i. apply Z.mod_pos_bound. lia. Qed.

#[local] Instance toy_aes : AESBlock.
Proof.
  refine {| AES_Encrypt := toy_block toy_enc; AES_Decrypt := toy_block toy_dec |}.
  - intros b Hl Hb. exists (toy_enc b). unfold toy_block, toy_enc, toy_dec.
    assert (Lx : length (xor8 b toy_key) = 16%nat) by (rewrite length_zip_with, Hl; done).
    rewrite length_reverse, !decide_True, reverse_involutive by done. split; [done|]. split; [done|].
    split; [by apply Forall_reverse, xor_bytes, toy_key_bytes|]. f_equal. by apply xor_cancel.
  - intros c Hl Hc. exists (toy_dec c). unfold toy_block, toy_enc, toy_dec.
    assert (Lr : length (reverse c) = 16%nat) by by rewrite length_reverse.
    assert (Lx : length (xor8 (reverse c) toy_key) = 16%nat) by (rewrite length_zip_with, Lr; done).
    rewrite !decide_True by done. split; [done|]. split; [done|].
    split; [apply xor_bytes; [by apply Forall_reverse|apply toy_key_bytes]|].
    rewrite xor_cancel, reverse_involutive by done. done.
Defined.

Definition demo_iv : list Z := replicate 8 0xA6.
Definition demo_key (n : Z) : list Z := (λ i, i mod 256) <$> seqZ 1 n.
Definition demo_room : list Z := replicate 48 0xEE.

Lemma demo_key_bytes n : bytes (demo_key n).
Proof. apply Forall_fmap, Forall_true. intros i. apply Z.mod_pos_bound. lia. Qed.
Lemma demo_iv_word : word demo_iv.
Proof. split; [done|]. apply Forall_replicate. unfold is_byte. lia. Qed.
Lemma demo_room_bytes : bytes demo_room.
Proof. apply Forall_replicate. unfold is_byte. lia. Qed.

Definition stored (r : mem_res (list Z * kw_status)) : list Z :=
  match r with Ok (o, KwOk L) => take (Z.to_nat L) o | _ => [] end.

Definition buffer_of (r : mem_res (list Z * kw_status)) : list Z := match r with Ok (o, _) => o | _ => [] end.

Example demo_wrap : stored (AESKeyWrap_Decrypt demo_iv demo_room 48
    (stored (AESKeyWrap_Encrypt demo_iv demo_room 48 (demo_key 24) 24)) 32) = demo_key 24.
Proof. vm_compute. reflexivity. Qed.

Example demo_kwp : stored (AESKeyWrap_DecryptKWP demo_room 20
    (stored (AESKeyWrap_EncryptKWP demo_room 48 (demo_key 20) 20)) 32) = demo_key 20.
Proof. vm_compute. reflexivity. Qed.

Example demo_kwp_short : stored (AESKeyWrap_DecryptKWP demo_room 7
    (stored (AESKeyWrap_EncryptKWP demo_room 16 (demo_key 7) 7)) 16) = demo_key 7.
Proof. vm_compute. reflexivity. Qed.

(** A ciphertext that is not the wrapping of anything: the buffer is cleared. *)
Example demo_kwp_bad : AESKeyWrap_DecryptKWP demo_room 48 (replicate 24 1) 24 =
  Ok (replicate 16 0 ++ replicate 32 0xEE, KwErr SEC_ERROR_BAD_DATA).
Proof. vm_compute. reflexivity. Qed.

Lemma KeyWrap_reference_witness :
  AESKeyWrap_Encrypt demo_iv demo_room 48 (demo_key 24) (length (demo_key 24)) =
  Ok (W_result demo_iv demo_room 48 (demo_key 24)).
Proof.
  refine (proj1 (KeyWrap_reference demo_iv demo_room (demo_key 24) 48 _ _ _ _));
    [exact demo_iv_word|apply demo_key_bytes|reflexivity|split; [done|done]].
Defined.

Lemma KeyWrap_round_trip_witness :
  let c := buffer_of (AESKeyWrap_Encrypt demo_iv demo_room 48 (demo_key 24) (length (demo_key 24))) in
  AESKeyWrap_Decrypt demo_iv demo_room 48 (take (Z.to_nat 32) c) 32 =
  Ok (demo_key 24 ++ drop (length (demo_key 24)) demo_room, KwOk (length (demo_key 24))).
Proof.
  destruct (KeyWrap_round_trip zero_heap zero_heap demo_iv (demo_key 24) demo_room demo_room 48 48) as [Hd _];
    [exact demo_iv_word|apply demo_key_bytes|reflexivity|split; [done|done]|split; [done|done]|].
  intros c. apply (Hd c 32 (replicate 32 0)); [vm_compute; reflexivity|vm_compute; discriminate|vm_compute; reflexivity].
Defined.

Lemma DecryptKWP_decides_witness :
  ∃ r, AESKeyWrap_DecryptKWP demo_room 48 (demo_key 24) (length (demo_key 24)) = Ok r ∧
       kwp_outcome (demo_key 24) demo_room 48 r.
Proof.
  apply (DecryptKWP_decides demo_room (demo_key 24) 48);
    [exact demo_room_bytes|apply demo_key_bytes|reflexivity|split; [done|done]].
Defined.

Lemma KWP_round_trip_witness :
  let c := buffer_of (AESKeyWrap_EncryptKWP demo_room 48 (demo_key 20) (length (demo_key 20))) in
  ∃ o2, AESKeyWrap_DecryptKWP demo_room 20 (take (Z.to_nat 32) c) 32 = Ok (o2, KwOk (length (demo_key 20))) ∧
        take (length (demo_key 20)) o2 = demo_key 20.
Proof.
  intros c. apply (KWP_round_trip zero_heap zero_heap (demo_key 20) demo_room demo_room c 48 20 32);
    [apply demo_key_bytes|reflexivity|split; [done|done]|exact demo_room_bytes|split; [done|done]| |vm_compute; reflexivity].
  intros n Hn. unfold PORT_Alloc. rewrite MAX_SIZE_val, (proj2 (Z.leb_le _ _)) by lia. discriminate.
Defined.
