(* ===== verification/Hmac.v ===== *)
(** lib/freebl/alghmac.c: HMAC over any hash of lib/freebl/rawhash.c.

    A hash is a [SECHashObject]: the operations of the C struct on a context,
    which C passes as a void pointer and which is a parameter here, with the
    contract the callers rely on, that hashing a text in pieces gives the digest
    of the text.

    [HMAC_reference] says that a keyed context computes the HMAC of RFC 2104 of
    any sequence of pieces, any number of times and after a change of key. *)

From stdpp Require Import base numbers list relations.
From S2P Require Import Prelude Port.

(** lib/util/hasht.h *)
Inductive HASH_HashType :=
| HASH_AlgNULL | HASH_AlgMD2 | HASH_AlgMD5 | HASH_AlgSHA1 | HASH_AlgSHA256 | HASH_AlgSHA384
| HASH_AlgSHA512 | HASH_AlgSHA224 | HASH_AlgSHA3_224 | HASH_AlgSHA3_256 | HASH_AlgSHA3_384 | HASH_AlgSHA3_512.

#[export] Instance HASH_HashType_eq_dec : EqDecision HASH_HashType.
Proof. solve_decision. Defined.

Definition HASH_LENGTH_MAX : Z := 64.
Definition HASH_BLOCK_LENGTH_MAX : Z := 144.
Definition HMAC_PAD_SIZE : Z := HASH_BLOCK_LENGTH_MAX.

(** [hash_create] is [None] when memory is short; [digest] is the function the
    hash computes. *)
Record SECHashObject {hctx : Type} := {
  hash_type : HASH_HashType;
  hash_length : Z;
  hash_blocklength : Z;
  hash_create : option hctx;
  hash_begin : hctx → hctx;
  hash_update : hctx → list Z → hctx;
  hash_end : hctx → hctx * list Z;
  digest : list Z → list Z;
  hash_end_digest c chunks :
    (hash_end (fold_left hash_update chunks (hash_begin c))).2 = digest (concat chunks);
  digest_length m : Z.of_nat (length (digest m)) = hash_length;
  digest_bytes m : bytes (digest m);
  hash_sizes : 0 < hash_length ≤ HASH_LENGTH_MAX ∧ hash_length ≤ hash_blocklength ≤ HMAC_PAD_SIZE;
}.
Arguments SECHashObject hctx : clear implicits.

Section HMAC.
  Context {hctx : Type} `{NSPRHeap}.

Record HMACContext := {
  hmac_hash : hctx;
  hmac_hashobj : SECHashObject hctx;
  wasAllocated : bool;
  ipad : list Z;
  opad : list Z;
}.

(** The loop [cx->ipad[i] ^= secret[i]]. *)
Fixpoint fold_secret (pad secret : list Z) {struct secret} : mem_res (list Z) :=
  match secret with
  | [] => Ok pad
  | s :: secret => match pad with
                   | [] => UB
                   | b :: pad => pad ← fold_secret pad secret; Ok (Z.lxor b s :: pad)
                   end
  end.

Definition hmac_initKey (cx : HMACContext) (secret : list Z) (isFIPS : bool) : sec_res HMACContext :=
  let h := hmac_hashobj cx in
  if isFIPS && (length secret <? hash_length h / 2) then Err SEC_ERROR_INVALID_ARGS else
  let '(hash, secret, ok) :=
    if length secret >? hash_blocklength h
    then let r := hash_end h (hash_update h (hash_begin h (hmac_hash cx)) secret) in
         (r.1, r.2, length r.2 =? hash_length h)
    else (hmac_hash cx, secret, true) in
  if negb ok then Err SEC_ERROR_LIBRARY_FAILURE else
  ipad ← mem_write (ipad cx) 0 (replicate (Z.to_nat (hash_blocklength h)) 0x36);
  opad ← mem_write (opad cx) 0 (replicate (Z.to_nat (hash_blocklength h)) 0x5c);
  ipad ← lift (fold_secret ipad secret);
  opad ← lift (fold_secret opad secret);
  Ok {| hmac_hash := hash; hmac_hashobj := h; wasAllocated := wasAllocated cx; ipad := ipad; opad := opad |}.

(** The context's own memory is given; only its hash context is created. *)
Definition HMAC_Init (cx : HMACContext) (hash_obj : SECHashObject hctx) (secret : list Z) (isFIPS : bool)
    : sec_res HMACContext :=
  match hash_create hash_obj with
  | None => Err SEC_ERROR_NO_MEMORY
  | Some hash => hmac_initKey {| hmac_hash := hash; hmac_hashobj := hash_obj; wasAllocated := false;
                                 ipad := ipad cx; opad := opad cx |} secret isFIPS
  end.

(** sizeof(HMACContext): three pointer-sized fields and two pads. *)
Definition sizeof_HMACContext : Z := 3 * 8 + 2 * HMAC_PAD_SIZE.

(** PORT_ZNew clears the pads. *)
Definition HMAC_Create (hash_obj : SECHashObject hctx) (secret : list Z) (isFIPS : bool) : sec_res HMACContext :=
  _ ← PORT_ZAlloc sizeof_HMACContext;
  match hash_create hash_obj with
  | None => Err SEC_ERROR_NO_MEMORY
  | Some hash =>
      cx ← hmac_initKey {| hmac_hash := hash; hmac_hashobj := hash_obj; wasAllocated := false;
                           ipad := replicate (Z.to_nat HMAC_PAD_SIZE) 0;
                           opad := replicate (Z.to_nat HMAC_PAD_SIZE) 0 |} secret isFIPS;
      Ok {| hmac_hash := hmac_hash cx; hmac_hashobj := hmac_hashobj cx; wasAllocated := true;
            ipad := ipad cx; opad := opad cx |}
  end.

(** Hash objects are entries of one table, so that a pointer tells the type. *)
Definition HMAC_ReInit (cx : HMACContext) (hash_obj : SECHashObject hctx) (secret : list Z) (isFIPS : bool)
    : sec_res HMACContext :=
  if decide (hash_type (hmac_hashobj cx) = hash_type hash_obj) then hmac_initKey cx secret isFIPS
  else
    let was := wasAllocated cx in
    let zero := replicate (Z.to_nat HMAC_PAD_SIZE) 0 in
    cx ← HMAC_Init {| hmac_hash := hmac_hash cx; hmac_hashobj := hmac_hashobj cx; wasAllocated := false;
                      ipad := zero; opad := zero |} hash_obj secret isFIPS;
    Ok {| hmac_hash := hmac_hash cx; hmac_hashobj := hmac_hashobj cx; wasAllocated := was;
          ipad := ipad cx; opad := opad cx |}.

Definition set_hash (cx : HMACContext) (hash : hctx) : HMACContext :=
  {| hmac_hash := hash; hmac_hashobj := hmac_hashobj cx; wasAllocated := wasAllocated cx;
     ipad := ipad cx; opad := opad cx |}.

Definition HMAC_Begin (cx : HMACContext) : HMACContext :=
  let h := hmac_hashobj cx in
  set_hash cx (hash_update h (hash_begin h (hmac_hash cx)) (take (Z.to_nat (hash_blocklength h)) (ipad cx))).

Definition HMAC_Update (cx : HMACContext) (data : list Z) : HMACContext :=
  set_hash cx (hash_update (hmac_hashobj cx) (hmac_hash cx) data).

(** The context and the octets stored in the result. *)
Definition HMAC_Finish (cx : HMACContext) (max_result_len : Z) : sec_res (HMACContext * list Z) :=
  let h := hmac_hashobj cx in
  if max_result_len <? hash_length h then Err SEC_ERROR_INVALID_ARGS else
  let r := hash_end h (hmac_hash cx) in
  if negb (length r.2 =? hash_length h) then Err SEC_ERROR_LIBRARY_FAILURE else
  let c := hash_update h (hash_begin h r.1) (take (Z.to_nat (hash_blocklength h)) (opad cx)) in
  let r := hash_end h (hash_update h c r.2) in
  Ok (set_hash cx r.1, r.2).
End HMAC.
Arguments HMACContext hctx : clear implicits.

(** ** RFC 2104 *)

Section Reference.
  Context {hctx : Type}.

(** The key, hashed if it is longer than a block, as a block. *)
Definition hmac_key (h : SECHashObject hctx) (K : list Z) : list Z :=
  let K := if length K >? hash_blocklength h then digest h K else K in
  K ++ replicate (Z.to_nat (hash_blocklength h) - length K) 0.

Definition hmac_ref (h : SECHashObject hctx) (K text : list Z) : list Z :=
  digest h ((Z.lxor 0x5c <$> hmac_key h K) ++ digest h ((Z.lxor 0x36 <$> hmac_key h K) ++ text)).

(** A context ready to compute with key [K]. *)
Definition keyed (h : SECHashObject hctx) (K : list Z) (cx : HMACContext hctx) : Prop :=
  hmac_hashobj cx = h ∧ length (ipad cx) = Z.to_nat HMAC_PAD_SIZE ∧ length (opad cx) = Z.to_nat HMAC_PAD_SIZE ∧
  take (Z.to_nat (hash_blocklength h)) (ipad cx) = Z.lxor 0x36 <$> hmac_key h K ∧
  take (Z.to_nat (hash_blocklength h)) (opad cx) = Z.lxor 0x5c <$> hmac_key h K.

(** One computation: begin, the pieces, finish. *)
Definition hmac_run (cx : HMACContext hctx) (chunks : list (list Z)) (max : Z)
    : sec_res (HMACContext hctx * list Z) :=
  HMAC_Finish (fold_left HMAC_Update chunks (HMAC_Begin cx)) max.

Lemma length_hmac_key h K : length (hmac_key h K) = Z.to_nat (hash_blocklength h).
Proof.
  unfold hmac_key. rewrite length_app, length_replicate. destruct (hash_sizes h).
  destruct (Z.gtb_spec (length K) (hash_blocklength h)); [|lia].
  pose proof (digest_length h K). lia.
Qed.

Lemma fold_secret_spec v n secret rest : (length secret ≤ n)%nat →
  fold_secret (replicate n v ++ rest) secret = Ok ((Z.lxor v <$> (secret ++ replicate (n - length secret) 0)) ++ rest).
Proof.
  revert n. induction secret as [|s secret IH]; intros n Hl.
  - cbn [fold_secret length]. rewrite Nat.sub_0_r. cbn [app]. by rewrite fmap_replicate, Z.lxor_0_r.
  - destruct n as [|n]; cbn [length] in Hl; [lia|]. cbn [fold_secret replicate app length Nat.sub fmap list_fmap].
    rewrite IH by lia. done.
Qed.

Lemma hmac_initKey_keyed h K cx isFIPS : hmac_hashobj cx = h →
  length (ipad cx) = Z.to_nat HMAC_PAD_SIZE → length (opad cx) = Z.to_nat HMAC_PAD_SIZE →
  if isFIPS && (length K <? hash_length h / 2) then hmac_initKey cx K isFIPS = Err SEC_ERROR_INVALID_ARGS
  else ∃ cx', hmac_initKey cx K isFIPS = Ok cx' ∧ keyed h K cx' ∧ wasAllocated cx' = wasAllocated cx.
Proof.
  intros Hh Hi Ho. unfold hmac_initKey. rewrite Hh.
  destruct (isFIPS && (length K <? hash_length h / 2)); [done|]. pose proof (hash_sizes h) as [Hl Hb].
  set (K' := if length K >? hash_blocklength h then digest h K else K).
  assert (HK' : (length K' ≤ Z.to_nat (hash_blocklength h))%nat).
  { unfold K'. destruct (Z.gtb_spec (length K) (hash_blocklength h)); [|lia]. pose proof (digest_length h K). lia. }
  assert (Hr : ∃ hash, (if length K >? hash_blocklength h
      then (let r := hash_end h (hash_update h (hash_begin h (hmac_hash cx)) K) in (r.1, r.2, length r.2 =? hash_length h))
      else (hmac_hash cx, K, true)) = (hash, K', true)).
  { unfold K'. destruct (Z.gtb_spec (length K) (hash_blocklength h)); [|by eexists].
    pose proof (hash_end_digest h (hmac_hash cx) [K]) as Hd. cbn in Hd. rewrite app_nil_r in Hd.
    cbn zeta. rewrite Hd, (proj2 (Z.eqb_eq _ _)) by apply digest_length. by eexists. }
  destruct Hr as [hash Hr]. cbn zeta in Hr. rewrite Hr. cbn [negb].
  rewrite !mem_write_same by (rewrite length_replicate; lia). cbn [mbind res_bind].
  rewrite !take_0, !app_nil_l, !fold_secret_spec by done. cbn [mbind res_bind lift]. eexists. split; [done|]. split; [|done].
  assert (Lk : length (hmac_key h K) = Z.to_nat (hash_blocklength h)) by apply length_hmac_key.
  unfold hmac_key in Lk. fold K' in Lk. unfold keyed, hmac_key. fold K'.
  cbn [hmac_hashobj ipad opad]. rewrite !length_app, !length_fmap, Lk, !length_drop, !length_replicate.
  rewrite !take_app_length' by (by rewrite length_fmap). split_and!; [done|lia|lia|done|done].
Qed.

Lemma fold_HMAC_Update chunks (cx : HMACContext hctx) :
  fold_left HMAC_Update chunks cx =
  set_hash cx (fold_left (hash_update (hmac_hashobj cx)) chunks (hmac_hash cx)).
Proof.
  revert cx. induction chunks as [|x chunks IH]; intros cx; [by destruct cx|]. cbn [fold_left]. by rewrite IH.
Qed.

(** A keyed context computes the HMAC and stays keyed. *)
Lemma hmac_run_keyed h K cx chunks max : keyed h K cx → hash_length h ≤ max →
  ∃ cx', hmac_run cx chunks max = Ok (cx', hmac_ref h K (concat chunks)) ∧ keyed h K cx'.
Proof.
  intros (Hh & Hi & Ho & Ti & To) Hm. unfold hmac_run. rewrite fold_HMAC_Update. unfold HMAC_Finish, HMAC_Begin.
  cbn [set_hash hmac_hashobj hmac_hash opad ipad]. rewrite Hh, Ti, To.
  rewrite (proj2 (Z.ltb_ge _ _)) by done.
  set (ki := Z.lxor 0x36 <$> hmac_key h K). set (ko := Z.lxor 0x5c <$> hmac_key h K).
  pose proof (hash_end_digest h (hmac_hash cx) (ki :: chunks)) as Hd. cbn [fold_left concat] in Hd.
  set (r := hash_end h _) in *. rewrite Hd, (proj2 (Z.eqb_eq _ _)) by apply digest_length. cbn [negb].
  pose proof (hash_end_digest h r.1 [ko; digest h (ki ++ concat chunks)]) as Hd2. cbn [fold_left concat] in Hd2.
  rewrite app_nil_r in Hd2. rewrite Hd2. eexists. split; [done|]. by split_and!.
Qed.

(** What may happen to a keyed context: a computation, or a new key. *)
Inductive hmac_step (max : Z) : SECHashObject hctx * list Z * HMACContext hctx → SECHashObject hctx * list Z * HMACContext hctx → Prop :=
| step_run h K cx chunks out cx' : hmac_run cx chunks max = Ok (cx', out) → hmac_step max (h, K, cx) (h, K, cx')
| step_rekey h K cx h' K' isFIPS cx' : (hash_type h = hash_type h' → h = h') →
    HMAC_ReInit cx h' K' isFIPS = Ok cx' → hmac_step max (h, K, cx) (h', K', cx').

Lemma HMAC_Init_keyed h K cx isFIPS cx' :
  length (ipad cx) = Z.to_nat HMAC_PAD_SIZE → length (opad cx) = Z.to_nat HMAC_PAD_SIZE →
  HMAC_Init cx h K isFIPS = Ok cx' → keyed h K cx'.
Proof.
  intros Hi Ho. unfold HMAC_Init. destruct (hash_create h) as [c|]; [|done]. intros HE.
  pose proof (hmac_initKey_keyed h K {| hmac_hash := c; hmac_hashobj := h; wasAllocated := false; ipad := ipad cx; opad := opad cx |}
    isFIPS eq_refl Hi Ho) as Hk. destruct (isFIPS && (length K <? hash_length h / 2)); [congruence|].
  destruct Hk as (cx2 & E & Hk & _). by rewrite HE in E; simplify_eq.
Qed.

Lemma hmac_step_keyed max h K cx h' K' cx' : hash_length h ≤ max →
  keyed h K cx → hmac_step max (h, K, cx) (h', K', cx') → keyed h' K' cx'.
Proof.
  intros Hm Hk Hs. inversion Hs as [? ? ? chunks out ? Hr|? ? ? ? ? isFIPS ? Hty HE]; subst.
  - destruct (hmac_run_keyed h' K' cx chunks max Hk Hm) as (cx2 & E & Hk2). by rewrite Hr in E; simplify_eq.
  - unfold HMAC_ReInit in HE. destruct Hk as (Hh & Hi & Ho & _). rewrite Hh in HE. case_decide as Ht.
    + specialize (Hty Ht). subst h'. pose proof (hmac_initKey_keyed h K' cx isFIPS Hh Hi Ho) as Hk.
      destruct (isFIPS && (length K' <? hash_length h / 2)); [congruence|].
      destruct Hk as (cx2 & E & Hk & _). by rewrite HE in E; simplify_eq.
    + apply bind_Ok in HE as (cx2 & HE & Heq). apply HMAC_Init_keyed in HE; [|done..].
      simplify_eq/=. by destruct HE as (H1 & H2 & H3 & H4 & H5).
Qed.

Lemma HMAC_Create_keyed `{NSPRHeap} (h : SECHashObject hctx) K isFIPS cx : HMAC_Create h K isFIPS = Ok cx → keyed h K cx.
Proof.
  unfold HMAC_Create. intros HC. apply bind_Ok in HC as (m & _ & HC). destruct (hash_create h) as [c|]; [|done].
  apply bind_Ok in HC as (cx1 & HE & Heq). simplify_eq/=.
  match type of HE with hmac_initKey ?c0 _ _ = _ =>
    pose proof (hmac_initKey_keyed h K c0 isFIPS eq_refl ltac:(done) ltac:(done)) as Hk end.
  destruct (isFIPS && (length K <? hash_length h / 2)); [congruence|].
  destruct Hk as (cx2 & E & (H1 & H2 & H3 & H4 & H5) & _). rewrite HE in E. simplify_eq. by split_and!.
Qed.

Lemma HMAC_Create_Ok `{NSPRHeap} (h : SECHashObject hctx) K m c : PORT_ZAlloc sizeof_HMACContext = Ok m → hash_create h = Some c →
  hash_length h / 2 ≤ length K → ∃ cx, HMAC_Create h K true = Ok cx.
Proof.
  intros Hz Hc Hl. unfold HMAC_Create. rewrite Hz, Hc. cbn [mbind res_bind].
  match goal with |- context [hmac_initKey ?c0 _ _] =>
    pose proof (hmac_initKey_keyed h K c0 true eq_refl ltac:(done) ltac:(done)) as Hk end.
  rewrite (proj2 (Z.ltb_ge _ _)) in Hk by lia. cbn [andb] in Hk. destruct Hk as (cx & -> & _). by eexists.
Qed.

Lemma HMAC_ReInit_Ok (h : SECHashObject hctx) K K' cx : keyed h K cx → hash_length h / 2 ≤ length K' →
  ∃ cx', HMAC_ReInit cx h K' true = Ok cx' ∧ keyed h K' cx'.
Proof.
  intros (Hh & Hi & Ho & _) Hl. unfold HMAC_ReInit. rewrite Hh, decide_True by done.
  pose proof (hmac_initKey_keyed h K' cx true Hh Hi Ho) as Hk. rewrite (proj2 (Z.ltb_ge _ _)) in Hk by lia.
  cbn [andb] in Hk. destruct Hk as (cx' & E & Hk & _). by exists cx'.
Qed.
End Reference.

(** [C22] A context that HMAC_Create or HMAC_ReInit keyed computes HMAC as RFC 2104
    defines it, over any hash, whatever the pieces the text comes in, and does so
    again for every later text and every later key; only a buffer shorter than
    the digest is refused. *)
Theorem HMAC_reference {hctx : Type} `{NSPRHeap} (h h' : SECHashObject hctx) (K K' : list Z) (isFIPS : bool)
    (cx cx' : HMACContext hctx) (chunks : list (list Z)) (max max' : Z) :
  HMAC_Create h K isFIPS = Ok cx →
  HASH_LENGTH_MAX ≤ max →
  rtc (hmac_step max) (h, K, cx) (h', K', cx') →
  if max' <? hash_length h' then hmac_run cx' chunks max' = Err SEC_ERROR_INVALID_ARGS
  else ∃ cx'', hmac_run cx' chunks max' = Ok (cx'', hmac_ref h' K' (concat chunks)).
Proof.
  intros HC Hm Hs. pose proof (HMAC_Create_keyed _ _ _ _ HC) as Hk.
  clear HC. remember (h, K, cx) as s1 eqn:E1. remember (h', K', cx') as s2 eqn:E2. revert h K cx E1 Hk.
  induction Hs as [s|s [[h1 K1] cx1] s' Hstep Hs IH]; intros h K cx -> Hk.
  - simplify_eq. destruct (Z.ltb_spec max' (hash_length h')).
    + unfold hmac_run. rewrite fold_HMAC_Update. unfold HMAC_Finish. cbn. destruct Hk as (-> & _).
      by rewrite (proj2 (Z.ltb_lt _ _)) by done.
    + destruct (hmac_run_keyed h' K' cx' chunks max' Hk) as (cx2 & E & _); [lia|]. by exists cx2.
  - apply (IH E2 h1 K1 cx1 eq_refl). destruct (hash_sizes h) as [[_ Hl] _].
    eapply hmac_step_keyed; [|exact Hk|exact Hstep]. lia.
Qed.

(** ** Evaluations

    A hash to evaluate with: the sum of the octets, weighted by their position,
    in four octets. *)

Definition toy_digest (m : list Z) : list Z :=
  be_bytes 4 (fold_left (fun acc b => acc * 31 + b + 7) m 1).

Lemma toy_chunks (c : list Z) chunks : toy_digest (fold_left (fun c d => c ++ d) chunks c) = toy_digest (c ++ concat chunks).
Proof.
  f_equal. revert c. induction chunks as [|x chunks IH]; intros c; cbn; [by rewrite app_nil_r|]. by rewrite IH, app_assoc.
Qed.

Lemma toy_length m : Z.of_nat (length (toy_digest m)) = 4.
Proof. unfold toy_digest. by rewrite length_be_bytes. Qed.

Lemma toy_bytes m : bytes (toy_digest m).
Proof. apply be_bytes_bytes. Qed.

Lemma toy_sizes : 0 < 4 ≤ HASH_LENGTH_MAX ∧ 4 ≤ 8 ≤ HMAC_PAD_SIZE.
Proof. done. Qed.

Definition toy_hash : SECHashObject (list Z) :=
  {| hash_type := HASH_AlgSHA256; hash_length := 4; hash_blocklength := 8; hash_create := Some [];
     hash_begin _ := []; hash_update c d := c ++ d; hash_end c := (c, toy_digest c); digest := toy_digest;
     hash_end_digest _ chunks := toy_chunks [] chunks; digest_length := toy_length; digest_bytes := toy_bytes;
     hash_sizes := toy_sizes |}.

Definition ctx_of (r : sec_res (HMACContext (list Z))) : HMACContext (list Z) :=
  match r with Ok cx => cx | _ => {| hmac_hash := []; hmac_hashobj := toy_hash; wasAllocated := false; ipad := []; opad := [] |} end.
Definition mac_of (r : sec_res (HMACContext (list Z) * list Z)) : list Z :=
  match r with Ok (_, m) => m | _ => [] end.

(** A key longer than a block; the text in three pieces. *)
Example hmac_demo :
  mac_of (hmac_run (ctx_of (HMAC_Create toy_hash (seqZ 1 12) false)) [[1; 2]; []; [3]] 4) =
  hmac_ref toy_hash (seqZ 1 12) [1; 2; 3].
Proof. vm_compute. reflexivity. Qed.

Lemma HMAC_reference_witness :
  let cx := ctx_of (HMAC_Create toy_hash [1; 2; 3] false) in
  let cx' := ctx_of (HMAC_ReInit cx toy_hash [4; 5] false) in
  ∃ cx'', hmac_run cx' [[1]; [2; 3]] 64 = Ok (cx'', hmac_ref toy_hash [4; 5] (concat [[1]; [2; 3]])).
Proof.
  intros cx cx'. apply (HMAC_reference toy_hash toy_hash [1; 2; 3] [4; 5] false cx cx' [[1]; [2; 3]] 64 64).
  - reflexivity.
  - done.
  - eapply rtc_l; [|apply rtc_refl]. apply (step_rekey 64 _ _ _ _ _ false); [done|]. reflexivity.
Defined.
