(* ===== verification/RsaPad.v ===== *)
(** lib/freebl/rsapkcs.c: PKCS #1 v1.5 blocks for encryption and signatures.

    The operations on integers (lib/freebl/rsa.c), the hashes and the random
    number generator are classes.  [EncryptBlock_round_trip] is about the random
    padding, [DecryptBlock_implicit_rejection] about decryption that never
    tells a good block from a bad one, [CheckSign_exact] about signatures. *)

From stdpp Require Import base numbers list relations.
From S2P Require Import Prelude Port ConstTime Hmac.

Definition RSA_BLOCK_MIN_PAD_LEN : Z := 8.
Definition RSA_BLOCK_FIRST_OCTET : Z := 0x00.
Definition RSA_BLOCK_PRIVATE_PAD_OCTET : Z := 0xff.
Definition RSA_BLOCK_AFTER_PAD_OCTET : Z := 0x00.

Inductive RSA_BlockType := RSA_BlockPrivate | RSA_BlockPublic | RSA_BlockRaw.
Definition blockType_octet (t : RSA_BlockType) : Z :=
  match t with RSA_BlockPrivate => 1 | RSA_BlockPublic => 2 | RSA_BlockRaw => 4 end.

(** What the functions use of a key: modulus and private exponent as SECItems. *)
Record RSAKey := { modulus : list Z; privateExponent : list Z }.

Definition rsa_modulusLen (modulus : list Z) : Z :=
  match modulus with
  | [] => 0
  | byteZero :: _ => u32 (length modulus - (if byteZero =? 0 then 1 else 0))
  end.

(** [while (byteZero > 0) { numBits++; byteZero >>= 1; }], an octet. *)
Fixpoint count_bits (n : nat) (byteZero numBits : Z) : Z :=
  match n with
  | O => numBits
  | S n => if byteZero >? 0 then count_bits n (Z.shiftr byteZero 1) (u32 (numBits + 1)) else numBits
  end.

Definition rsa_modulusBits (modulus : list Z) : Z :=
  match modulus with
  | [] => 0
  | byteZero :: rest =>
      let numBits := u32 (u32 (length modulus - 1) * 8) in
      if (byteZero =? 0) && (length modulus =? 1) then 0
      else if byteZero =? 0 then count_bits 8 (hd 0 rest) (u32 (numBits - 8))
      else count_bits 8 byteZero numBits
  end.

(** The number of a modulus, and blocks that stand for smaller numbers: memcmp
    of input and modulus. *)
Definition below_modulus (key : RSAKey) (input : list Z) : bool :=
  be_val input <? be_val (modulus key).

(** lib/freebl/rsa.c.  The private operation also returns what it leaves in the
    buffer when it fails; both are inverse to each other on blocks that stand
    for numbers below the modulus. *)
Class RSAOps := {
  RSA_PublicKeyOp : RSAKey → list Z → sec_res (list Z);
  RSA_PrivateKeyOp : RSAKey → list Z → list Z → option SECErrorCode * list Z;
  RSA_PrivateKeyOpDoubleChecked : RSAKey → list Z → list Z → option SECErrorCode * list Z;
  rsa_key_ok : RSAKey → Prop;
  RSA_PublicKeyOp_block key m : rsa_key_ok key → bytes m →
    Z.of_nat (length m) = rsa_modulusLen (modulus key) → below_modulus key m = true →
    ∃ c, RSA_PublicKeyOp key m = Ok c ∧ length c = length m ∧ bytes c ∧ below_modulus key c = true ∧
         ∀ buf, length buf = length m → RSA_PrivateKeyOp key buf c = (None, m) ∧
                                        RSA_PrivateKeyOpDoubleChecked key buf c = (None, m);
  RSA_PrivateKeyOp_block key buf c : rsa_key_ok key → bytes c → bytes buf → length buf = length c →
    Z.of_nat (length c) = rsa_modulusLen (modulus key) → below_modulus key c = true →
    ∃ m, RSA_PrivateKeyOp key buf c = (None, m) ∧ RSA_PrivateKeyOpDoubleChecked key buf c = (None, m) ∧
         length m = length c ∧ bytes m ∧ below_modulus key m = true ∧ RSA_PublicKeyOp key m = Ok c;
  RSA_PublicKeyOp_total key m : RSA_PublicKeyOp key m ≠ UB;
  RSA_PublicKeyOp_length key m c : RSA_PublicKeyOp key m = Ok c →
    Z.of_nat (length c) = rsa_modulusLen (modulus key) ∧ bytes c;
  RSA_PrivateKeyOp_buffer key buf c : bytes buf →
    length (RSA_PrivateKeyOp key buf c).2 = length buf ∧ bytes (RSA_PrivateKeyOp key buf c).2;
}.

(** RNG_GenerateGlobalRandomBytes (lib/freebl/drbg.c): the octets, unless the
    generator fails, and its next state. *)
Class RNG := {
  rng : Type;
  RNG_GenerateGlobalRandomBytes : rng → nat → option (list Z) * rng;
  RNG_length g n l g' : RNG_GenerateGlobalRandomBytes g n = (Some l, g') → length l = n ∧ bytes l;
}.

(** ** Formatting *)

Section Format.
  Context `{heap : NSPRHeap} `{rand : RNG}.

(** [do { repl = bp[--j]; } while (repl == 0 && j > padLen)] *)
Fixpoint next_repl (bp : list Z) (padLen j : nat) : mem_res (Z * nat) :=
  match j with
  | O => UB
  | S j => match bp !! j with
           | None => UB
           | Some repl => if (repl =? RSA_BLOCK_AFTER_PAD_OCTET) && (padLen <? j)%nat
                          then next_repl bp padLen j else Ok (repl, j)
           end
  end.

(** How the padding loop ends: with the block, with the generator failing, or
    still running after the given number of turns. *)
Inductive pad_result := PadDone (bp : list Z) (g : rng) | PadFail (g : rng) | PadRunning.

(** One turn of the loop [for (i = 0; i < padLen;)] over the random octets [bp]. *)
Definition pad_turn (bp : list Z) (padLen i j : nat) (g : rng) : mem_res (pad_result + list Z * nat * nat * rng) :=
  if (padLen <=? i)%nat then Ok (inl (PadDone bp g)) else
  match bp !! i with
  | None => UB
  | Some b =>
      if negb (b =? RSA_BLOCK_AFTER_PAD_OCTET) then Ok (inr (bp, i + 1, j, g)%nat) else
      let '(refill, g) :=
        if (j <=? padLen)%nat
        then RNG_GenerateGlobalRandomBytes g (length bp - padLen)
        else (Some (drop padLen bp), g) in
      match refill with
      | None => Ok (inl (PadFail g))
      | Some supply =>
          let j := if (j <=? padLen)%nat then length bp else j in
          let bp := take padLen bp ++ supply in
          '(repl, j) ← next_repl bp padLen j;
          if negb (repl =? RSA_BLOCK_AFTER_PAD_OCTET)
          then Ok (inr (<[i := repl]> bp, i + 1, j, g)%nat)
          else Ok (inr (bp, i, j, g))
      end
  end.

Fixpoint pad_loop (fuel : nat) (bp : list Z) (padLen i j : nat) (g : rng) : mem_res pad_result :=
  match fuel with
  | O => Ok PadRunning
  | S fuel =>
      r ← pad_turn bp padLen i j g;
      match r with
      | inl r => Ok r
      | inr (bp, i, j, g) => pad_loop fuel bp padLen i j g
      end
  end.

(** [None] when the padding loop is still running. *)
Definition rsa_FormatOneBlock (fuel : nat) (modulusLen : Z) (blockType : RSA_BlockType) (data : list Z) (g : rng)
    : mem_res (option (option (list Z) * rng)) :=
  match PORT_Alloc modulusLen with
  | UB => UB
  | Err _ => Ok (Some (None, g))
  | Ok block =>
      block ← mem_write block 0 [RSA_BLOCK_FIRST_OCTET; blockType_octet blockType];
      match blockType with
      | RSA_BlockPrivate =>
          let padLen := u32 (modulusLen - length data - 3) in
          if padLen <? RSA_BLOCK_MIN_PAD_LEN then Ok (Some (None, g)) else
          block ← mem_write block 2 (replicate (Z.to_nat padLen) RSA_BLOCK_PRIVATE_PAD_OCTET);
          block ← mem_write block (2 + Z.to_nat padLen) [RSA_BLOCK_AFTER_PAD_OCTET];
          block ← mem_write block (3 + Z.to_nat padLen) data;
          Ok (Some (Some block, g))
      | RSA_BlockPublic =>
          let padLen := u32 (modulusLen - (length data + 3)) in
          if padLen <? RSA_BLOCK_MIN_PAD_LEN then Ok (Some (None, g)) else
          let j := Z.to_nat (u32 (modulusLen - 2)) in
          match RNG_GenerateGlobalRandomBytes g j with
          | (None, g) => Ok (Some (None, g))
          | (Some octets, g) =>
              block ← mem_write block 2 octets;
              r ← pad_loop fuel (take j (drop 2 block)) (Z.to_nat padLen) 0 j g;
              match r with
              | PadRunning => Ok None
              | PadFail g => Ok (Some (None, g))
              | PadDone bp g =>
                  block ← mem_write block 2 bp;
                  block ← mem_write block (2 + Z.to_nat padLen) [RSA_BLOCK_AFTER_PAD_OCTET];
                  block ← mem_write block (3 + Z.to_nat padLen) data;
                  Ok (Some (Some block, g))
              end
          end
      | RSA_BlockRaw => Ok (Some (None, g))
      end
  end.

Definition rsa_FormatBlock (fuel : nat) (modulusLen : Z) (blockType : RSA_BlockType) (data : list Z) (g : rng)
    : mem_res (option (option (list Z) * rng)) :=
  match blockType with
  | RSA_BlockPrivate | RSA_BlockPublic =>
      if (modulusLen <? 3 + RSA_BLOCK_MIN_PAD_LEN) || (length data >? modulusLen - (3 + RSA_BLOCK_MIN_PAD_LEN))
      then Ok (Some (None, g))
      else rsa_FormatOneBlock fuel modulusLen blockType data g
  | RSA_BlockRaw =>
      if length data >? modulusLen then Ok (Some (None, g)) else
      match PORT_ZAlloc modulusLen with
      | Ok block => block ← mem_write block (Z.to_nat (modulusLen - length data)) data; Ok (Some (Some block, g))
      | _ => UB
      end
  end.
End Format.

(** memcmp, negative, zero or positive. *)
Fixpoint memcmp (a b : list Z) : comparison :=
  match a, b with
  | x :: a, y :: b => if x =? y then memcmp a b else x ?= y
  | _, _ => Eq
  end.

(** The number of octets stored, or the error if one is set. *)
Abbreviation rsa_status := (Z + option SECErrorCode)%type.

Section Raw.
  Context `{heap : NSPRHeap} `{rand : RNG} `{ops : RSAOps}.

Definition rsa_done (rv : option SECErrorCode) (len : Z) : rsa_status :=
  match rv with None => inl len | Some e => inr (Some e) end.

Definition RSA_SignRaw (key : RSAKey) (output : list Z) (maxOutputLen : Z) (data : list Z) (g : rng)
    : mem_res (list Z * rsa_status) :=
  let modulusLen := rsa_modulusLen (modulus key) in
  if maxOutputLen <? modulusLen then Ok (output, inr None) else
  r ← rsa_FormatBlock 0 modulusLen RSA_BlockRaw data g;
  match r with
  | Some (Some formatted, _) =>
      let op := RSA_PrivateKeyOpDoubleChecked key (take (Z.to_nat modulusLen) output) formatted in
      output ← mem_write output 0 op.2;
      Ok (output, rsa_done op.1 modulusLen)
  | _ => Ok (output, inr None)
  end.

Definition RSA_CheckSignRaw (key : RSAKey) (sig hash : list Z) : mem_res bool :=
  let modulusLen := rsa_modulusLen (modulus key) in
  if negb (length sig =? modulusLen) then Ok false
  else if length hash >? modulusLen then Ok false
  else match PORT_Alloc (u32 (modulusLen + 1)) with
       | UB => UB
       | Err _ => Ok false
       | Ok buffer =>
           match RSA_PublicKeyOp key sig with
           | UB => UB
           | Err _ => Ok false
           | Ok m =>
               buffer ← mem_write buffer 0 m;
               got ← mem_read buffer (Z.to_nat (modulusLen - length hash)) (length hash);
               Ok (match memcmp got hash with Eq => true | _ => false end)
           end
       end.

Definition RSA_CheckSignRecoverRaw (key : RSAKey) (data : list Z) (maxDataLen : Z) (sig : list Z)
    : mem_res (list Z * rsa_status) :=
  let modulusLen := rsa_modulusLen (modulus key) in
  if negb (length sig =? modulusLen) then Ok (data, inr None)
  else if maxDataLen <? modulusLen then Ok (data, inr None)
  else match RSA_PublicKeyOp key sig with
       | UB => UB
       | Err e => Ok (data, inr (Some e))
       | Ok m => data ← mem_write data 0 m; Ok (data, inl modulusLen)
       end.

(** Encryption of a formatted block: the end of RSA_EncryptRaw and
    RSA_EncryptBlock. *)
Definition encrypt_formatted (key : RSAKey) (output formatted : list Z) : mem_res (list Z * rsa_status) :=
  match RSA_PublicKeyOp key formatted with
  | UB => UB
  | Err e => Ok (output, inr (Some e))
  | Ok c => output ← mem_write output 0 c; Ok (output, inl (rsa_modulusLen (modulus key)))
  end.

Definition RSA_EncryptRaw (key : RSAKey) (output : list Z) (maxOutputLen : Z) (input : list Z) (g : rng)
    : mem_res (list Z * rsa_status) :=
  let modulusLen := rsa_modulusLen (modulus key) in
  if maxOutputLen <? modulusLen then Ok (output, inr None) else
  r ← rsa_FormatBlock 0 modulusLen RSA_BlockRaw input g;
  match r with
  | Some (Some formatted, _) => encrypt_formatted key output formatted
  | _ => Ok (output, inr None)
  end.

Definition RSA_DecryptRaw (key : RSAKey) (output : list Z) (maxOutputLen : Z) (input : list Z)
    : mem_res (list Z * rsa_status) :=
  let modulusLen := rsa_modulusLen (modulus key) in
  if modulusLen >? maxOutputLen then Ok (output, inr None)
  else if negb (length input =? modulusLen) then Ok (output, inr None)
  else let op := RSA_PrivateKeyOp key (take (Z.to_nat modulusLen) output) input in
       output ← mem_write output 0 op.2;
       Ok (output, rsa_done op.1 modulusLen).

(** [None] while the padding loop has not ended. *)
Definition RSA_EncryptBlock (fuel : nat) (key : RSAKey) (output : list Z) (maxOutputLen : Z) (input : list Z) (g : rng)
    : mem_res (option (list Z * rsa_status)) :=
  let modulusLen := rsa_modulusLen (modulus key) in
  if maxOutputLen <? modulusLen then Ok (Some (output, inr None)) else
  r ← rsa_FormatBlock fuel modulusLen RSA_BlockPublic input g;
  match r with
  | None => Ok None
  | Some (Some formatted, _) => r ← encrypt_formatted key output formatted; Ok (Some r)
  | Some (None, _) => Ok (Some (output, inr None))
  end.

(** ** Signatures *)

Definition RSA_Sign (key : RSAKey) (output : list Z) (maxOutputLen : Z) (input : list Z) (g : rng)
    : mem_res (list Z * rsa_status) :=
  let modulusLen := rsa_modulusLen (modulus key) in
  if maxOutputLen <? modulusLen then Ok (output, inr (Some SEC_ERROR_OUTPUT_LEN)) else
  r ← rsa_FormatBlock 0 modulusLen RSA_BlockPrivate input g;
  match r with
  | Some (Some formatted, _) =>
      let op := RSA_PrivateKeyOpDoubleChecked key (take (Z.to_nat modulusLen) output) formatted in
      output ← mem_write output 0 op.2;
      Ok (output, rsa_done op.1 modulusLen)
  | _ => Ok (output, inr (Some SEC_ERROR_LIBRARY_FAILURE))
  end.

(** [for (i = 2; i < modulusLen - dataLen - 1; i++)] from [i], [n] turns left. *)
Fixpoint pad_octets_ok (n : nat) (buffer : list Z) (i : nat) : mem_res bool :=
  match n with
  | O => Ok true
  | S n => match buffer !! i with
           | None => UB
           | Some b => if negb (b =? RSA_BLOCK_PRIVATE_PAD_OCTET) then Ok false
                       else pad_octets_ok n buffer (i + 1)
           end
  end.

(** [None] is SECSuccess; a mismatch of the data sets no error. *)
Definition RSA_CheckSign (key : RSAKey) (sig data : list Z) : mem_res (option (option SECErrorCode)) :=
  let modulusLen := rsa_modulusLen (modulus key) in
  let bad := Ok (Some (Some SEC_ERROR_BAD_SIGNATURE)) in
  if negb (length sig =? modulusLen) then bad
  else if length data >? u32 (modulusLen - (3 + RSA_BLOCK_MIN_PAD_LEN)) then Ok (Some (Some SEC_ERROR_BAD_DATA))
  else match PORT_Alloc (u32 (modulusLen + 1)) with
       | UB => UB
       | Err _ => Ok (Some (Some SEC_ERROR_NO_MEMORY))
       | Ok buffer =>
           match RSA_PublicKeyOp key sig with
           | UB => UB
           | Err _ => bad
           | Ok m =>
               buffer ← mem_write buffer 0 m;
               first ← mem_read buffer 0 2;
               if negb (bool_decide (first = [RSA_BLOCK_FIRST_OCTET; blockType_octet RSA_BlockPrivate])) then bad else
               let stop := u32 (modulusLen - length data - 1) in
               good ← pad_octets_ok (Z.to_nat (stop - 2)) buffer 2;
               if negb (good : bool) then bad else
               match buffer !! Nat.max 2 (Z.to_nat stop) with
               | None => UB
               | Some b =>
                   if negb (b =? RSA_BLOCK_AFTER_PAD_OCTET) then bad else
                   got ← mem_read buffer (Z.to_nat (u32 (modulusLen - length data))) (length data);
                   Ok (match memcmp got data with Eq => None | _ => Some None end)
               end
           end
       end.

(** [for (i = 2; i < modulusLen; i++)]: where the loop stopped, at a zero or at
    the end, or that another octet was met. *)
Fixpoint recover_pad (n : nat) (buffer : list Z) (i : nat) : mem_res (option (nat * bool)) :=
  match n with
  | O => Ok (Some (i, false))
  | S n => match buffer !! i with
           | None => UB
           | Some b => if b =? RSA_BLOCK_AFTER_PAD_OCTET then Ok (Some (i, true))
                       else if negb (b =? RSA_BLOCK_PRIVATE_PAD_OCTET) then Ok None
                       else recover_pad n buffer (i + 1)
           end
  end.

Definition RSA_CheckSignRecover (key : RSAKey) (output : list Z) (maxOutputLen : Z) (sig : list Z)
    : mem_res (list Z * rsa_status) :=
  let modulusLen := rsa_modulusLen (modulus key) in
  let bad := Ok (output, inr (Some SEC_ERROR_BAD_SIGNATURE)) in
  if negb (length sig =? modulusLen) then bad
  else match PORT_Alloc (u32 (modulusLen + 1)) with
       | UB => UB
       | Err _ => Ok (output, inr (Some SEC_ERROR_NO_MEMORY))
       | Ok buffer =>
           match RSA_PublicKeyOp key sig with
           | UB => UB
           | Err _ => bad
           | Ok m =>
               buffer ← mem_write buffer 0 m;
               first ← mem_read buffer 0 2;
               if negb (bool_decide (first = [RSA_BLOCK_FIRST_OCTET; blockType_octet RSA_BlockPrivate])) then bad else
               r ← recover_pad (Z.to_nat (modulusLen - 2)) buffer 2;
               match r with
               | None => bad
               | Some (i, found) =>
                   let outputLen := if found : bool then modulusLen - Z.of_nat i - 1 else 0 in
                   if Z.of_nat i - 2 <? RSA_BLOCK_MIN_PAD_LEN then bad
                   else if outputLen =? 0 then bad
                   else if outputLen >? maxOutputLen then Ok (output, inr (Some SEC_ERROR_OUTPUT_LEN))
                   else src ← mem_read buffer (Z.to_nat (modulusLen - outputLen)) (Z.to_nat outputLen);
                        output ← mem_write output 0 src;
                        Ok (output, inl outputLen)
               end
           end
       end.
End Raw.

(** ** Decryption with implicit rejection *)

Section Decrypt.
  Context `{heap : NSPRHeap} `{ops : RSAOps} {hctx : Type}.

(** [while (padLen > sizeof(keyHash))], updating with zeros; [n] bounds the turns. *)
Fixpoint zero_updates (n : nat) (h : SECHashObject hctx) (c : hctx) (padLen : Z) : hctx * Z :=
  match n with
  | O => (c, padLen)
  | S n => if padLen >? HASH_LENGTH_MAX
           then zero_updates n h (hash_update h c (replicate (Z.to_nat HASH_LENGTH_MAX) 0)) (padLen - HASH_LENGTH_MAX)
           else (c, padLen)
  end.

Definition rsa_GetHMACContext (h : SECHashObject hctx) (key : RSAKey) (input : list Z)
    : sec_res (HMACContext hctx) :=
  match hash_create h with
  | None => Err SEC_ERROR_NO_MEMORY
  | Some c =>
      let c := hash_begin h c in
      let privKeyLen := Z.of_nat (length (privateExponent key)) in
      let c := if privKeyLen <? length input
               then let r := zero_updates (length input) h c (length input - privKeyLen) in
                    hash_update h r.1 (replicate (Z.to_nat r.2) 0)
               else c in
      let r := hash_end h (hash_update h c (privateExponent key)) in
      hmac ← HMAC_Create h r.2 true;
      '(hmac, keyHash) ← HMAC_Finish (HMAC_Update (HMAC_Begin hmac) input) HASH_LENGTH_MAX;
      HMAC_ReInit hmac h keyHash true
  end.

(** One block of the PRF: the iterator, the label, the length in bits. *)
Definition prf_block (hmac : HMACContext hctx) (iterator label encodedLen : list Z) (max : Z)
    : sec_res (HMACContext hctx * list Z) :=
  HMAC_Finish (HMAC_Update (HMAC_Update (HMAC_Update (HMAC_Begin hmac) iterator) label) encodedLen) max.

(** [iterator[1]++; if (iterator[1] == 0) iterator[0]++;] *)
Definition next_iterator (iterator : list Z) : list Z :=
  match iterator with
  | [hi; lo] => let lo := u8 (lo + 1) in [if lo =? 0 then u8 (hi + 1) else hi; lo]
  | _ => iterator
  end.

(** [while (left > hashLength)] and the rest: the octets stored. *)
Fixpoint prf_loop (n : nat) (hmac : HMACContext hctx) (iterator label encodedLen : list Z) (hashLength left : Z)
    : sec_res (HMACContext hctx * list Z) :=
  match n with
  | O => UB
  | S n =>
      if left >? hashLength then
        '(hmac, out) ← prf_block hmac iterator label encodedLen hashLength;
        '(hmac, rest) ← prf_loop n hmac (next_iterator iterator) label encodedLen hashLength (left - hashLength);
        Ok (hmac, out ++ rest)
      else if negb (left =? 0) then
        '(hmac, out) ← prf_block hmac iterator label encodedLen HASH_LENGTH_MAX;
        Ok (hmac, take (Z.to_nat left) out)
      else Ok (hmac, [])
  end.

Definition rsa_HMACPrf (hmac : HMACContext hctx) (label : list Z) (hashLength len : Z)
    : sec_res (HMACContext hctx * list Z) :=
  let encodedLen := [Z.land (Z.shiftr len 5) 0xff; Z.land (Z.shiftl len 3) 0xff] in
  prf_loop (S (Z.to_nat len)) hmac [0; 0] label encodedLen hashLength len.

Definition makeMask16 (len : Z) : Z :=
  let len := Z.lor len (Z.shiftr len 1) in
  let len := Z.lor len (Z.shiftr len 2) in
  let len := Z.lor len (Z.shiftr len 4) in
  Z.lor len (Z.shiftr len 8).

(** [for (outp = out; ...; outp += 2)] *)
Fixpoint pick_length (out : list Z) (lengthMask maxLegalLen outLength : Z) : Z :=
  match out with
  | a :: b :: out =>
      let candidate := Z.land (Z.lor (Z.shiftl a 8) b) lengthMask in
      pick_length out lengthMask maxLegalLen (PORT_CT_SEL (PORT_CT_LT candidate maxLegalLen) candidate outLength)
  | _ => outLength
  end.

Definition label_length : list Z := [108; 101; 110; 103; 116; 104].
Definition label_message : list Z := [109; 101; 115; 115; 97; 103; 101].

Definition rsa_GetErrorLength (hmac : HMACContext hctx) (hashLen maxLegalLen : Z) : sec_res (HMACContext hctx * Z) :=
  '(hmac, out) ← rsa_HMACPrf hmac label_length hashLen (128 * 2);
  Ok (hmac, pick_length out (makeMask16 maxLegalLen) maxLegalLen 0).

(** [for (i = 2; i < 10; i++) fail |= ...] *)
Fixpoint min_pad_fail (n i : nat) (buffer : list Z) (fail : Z) : mem_res Z :=
  match n with
  | O => Ok fail
  | S n => match buffer !! i with
           | None => UB
           | Some b => min_pad_fail n (i + 1) buffer (Z.lor fail (PORT_CT_EQ b RSA_BLOCK_AFTER_PAD_OCTET))
           end
  end.

(** [for (i = 10; i < modulusLen; i++)]: the length of what follows the first
    zero. *)
Fixpoint find_zero (n i : nat) (buffer : list Z) (modulusLen outLen : Z) : mem_res Z :=
  match n with
  | O => Ok outLen
  | S n => match buffer !! i with
           | None => UB
           | Some b =>
               let newLen := u32 (modulusLen - i - 1) in
               let condition := Z.land (PORT_CT_EQ b RSA_BLOCK_AFTER_PAD_OCTET) (PORT_CT_EQ outLen modulusLen) in
               find_zero n (i + 1) buffer modulusLen (PORT_CT_SEL condition newLen outLen)
           end
  end.

(** The mask [fail] and the length, after the checks. *)
Definition block_fail (rv : option SECErrorCode) (buffer : list Z) (modulusLen : Z) : mem_res (Z * Z) :=
  first ← mem_read buffer 0 2;
  let fail := PORT_CT_NE (match rv with None => 0 | Some _ => u32 (-1) end) 0 in
  let fail := Z.lor fail (Z.lor (PORT_CT_NE (first !!! 0%nat) RSA_BLOCK_FIRST_OCTET)
                                (PORT_CT_NE (first !!! 1%nat) (blockType_octet RSA_BlockPublic))) in
  fail ← min_pad_fail 8 2 buffer fail;
  outLen ← find_zero (Z.to_nat modulusLen - 10) 10 buffer modulusLen modulusLen;
  Ok (Z.lor fail (PORT_CT_GE outLen modulusLen), outLen).

(** [output[i] = PORT_CT_SEL(fail, ep[i], bp[i])], stored as an octet. *)
Fixpoint select_octets (fail : Z) (ep bp : list Z) : list Z :=
  match ep, bp with
  | e :: ep, b :: bp => u8 (PORT_CT_SEL fail e b) :: select_octets fail ep bp
  | _, _ => []
  end.

Definition RSA_DecryptBlock (SHA256 : option (SECHashObject hctx)) (key : RSAKey) (output : list Z) (maxOutputLen : Z)
    (input : list Z) : mem_res (list Z * rsa_status) :=
  let modulusLen := rsa_modulusLen (modulus key) in
  let maxLegalLen := u32 (modulusLen - 10) in
  if negb (length input =? modulusLen) || (modulusLen <? 10) then Ok (output, inr (Some SEC_ERROR_INVALID_ARGS)) else
  n ← mem_read (modulus key) (Z.to_nat (length (modulus key) - modulusLen)) (Z.to_nat modulusLen);
  if (match memcmp input n with Lt => false | _ => true end) then Ok (output, inr (Some SEC_ERROR_INVALID_ARGS)) else
  let fake :=
    buffer ← PORT_ZAlloc modulusLen;
    errorBuffer ← PORT_ZAlloc modulusLen;
    match SHA256 with
    | None => Err SEC_ERROR_INVALID_ARGS
    | Some h =>
        hmac ← rsa_GetHMACContext h key input;
        '(hmac, errorLength) ← rsa_GetErrorLength hmac (hash_length h) maxLegalLen;
        '(hmac, message) ← rsa_HMACPrf hmac label_message (hash_length h) modulusLen;
        errorBuffer ← mem_write errorBuffer 0 message;
        Ok (buffer, errorBuffer, errorLength)
    end in
  match fake with
  | UB => UB
  | Err e => Ok (output, inr (Some e))
  | Ok (buffer, errorBuffer, errorLength) =>
      let op := RSA_PrivateKeyOp key buffer input in
      '(fail, outLen) ← block_fail op.1 op.2 modulusLen;
      let outLen := PORT_CT_SEL fail errorLength outLen in
      let n := Z.to_nat (if outLen >? maxOutputLen then maxOutputLen else outLen) in
      bp ← mem_read op.2 (Z.to_nat (modulusLen - outLen)) n;
      ep ← mem_read errorBuffer (Z.to_nat (modulusLen - outLen)) n;
      output ← mem_write output 0 (select_octets fail ep bp);
      Ok (output, inl (Z.of_nat n))
  end.
End Decrypt.

(** ** Blocks of PKCS #1 *)

Definition pkcs1_block (t : RSA_BlockType) (PS data : list Z) : list Z :=
  RSA_BLOCK_FIRST_OCTET :: blockType_octet t :: PS ++ RSA_BLOCK_AFTER_PAD_OCTET :: data.

Abbreviation nonzero := (Forall (λ b : Z, b ≠ 0)).

Section FormatLemmas.
  Context `{heap : NSPRHeap} `{rand : RNG}.

Lemma next_repl_spec bp padLen j : (padLen < j ≤ length bp)%nat →
  ∃ repl j', next_repl bp padLen j = Ok (repl, j') ∧ (padLen ≤ j' < j)%nat ∧ bp !! j' = Some repl ∧
    (repl = 0 → j' = padLen ∧ ∀ i b, (padLen ≤ i < j)%nat → bp !! i = Some b → b = 0).
Proof.
  induction j as [|j IH]; intros Hj; [lia|]. cbn [next_repl].
  destruct (lookup_lt_is_Some_2 bp j) as [repl Hr]; [lia|]. rewrite Hr. unfold RSA_BLOCK_AFTER_PAD_OCTET.
  destruct (Z.eqb_spec repl 0) as [->|Hne]; cbn [andb].
  - destruct (Nat.ltb_spec padLen j).
    + destruct IH as (repl & j' & -> & Hj' & Hl & Hz); [lia|]. exists repl, j'. split_and!; [done|lia|lia|done|].
      intros Hz0. destruct (Hz Hz0) as [-> Hall]. split; [done|]. intros i b Hi Hb.
      destruct (decide (i = j)) as [->|]; [congruence|]. apply (Hall i b); [lia|done].
    + exists 0, j. split_and!; [done|lia|lia|done|]. intros _. split; [lia|]. intros i b Hi Hb.
      assert (i = j) as -> by lia. congruence.
  - exists repl, j. split_and!; [done|lia|lia|done|done].
Qed.

(** The octets before [i] are padding already. *)
Definition pad_inv (N padLen : nat) (bp : list Z) (i j : nat) : Prop :=
  length bp = N ∧ bytes bp ∧ (i ≤ padLen < N)%nat ∧ (j ≤ N)%nat ∧ nonzero (take i bp).

Lemma pad_inv_next N padLen bp i j b : pad_inv N padLen bp i j → (i < padLen)%nat → bp !! i = Some b → b ≠ 0 →
  pad_inv N padLen bp (i + 1) j.
Proof.
  intros (Hl & Hb & Hi & Hj & Hn) Hlt Hx Hne. split_and!; [done|done|lia|lia|done|].
  rewrite Nat.add_1_r, (take_S_r _ _ _ Hx). apply Forall_app. split; [done|]. by apply Forall_singleton.
Qed.

Lemma pad_inv_replace N padLen bp i j j' repl :
  pad_inv N padLen bp i j → (i < padLen)%nat → (j' ≤ N)%nat → is_byte repl → repl ≠ 0 →
  pad_inv N padLen (<[i := repl]> bp) (i + 1) j'.
Proof.
  intros (Hl & Hb & Hi & Hj & Hn) Hlt Hj' Hr Hne.
  assert (Hx : <[i := repl]> bp !! i = Some repl) by (apply list_lookup_insert_eq; lia).
  apply (pad_inv_next _ _ _ i j' repl); [|done|done|done]. split_and!; [by rewrite length_insert|by apply Forall_insert|lia|lia|done|].
  by rewrite take_insert_ge by lia.
Qed.

Lemma pad_inv_refill N padLen bp i j supply :
  pad_inv N padLen bp i j → length supply = (N - padLen)%nat → bytes supply →
  pad_inv N padLen (take padLen bp ++ supply) i N.
Proof.
  intros (Hl & Hb & Hi & Hj & Hn) Hs Hbs. split_and!; [|by apply Forall_app; split; [apply Forall_take|]|lia|lia|done|].
  - rewrite length_app, length_take. lia.
  - by rewrite take_app_le, take_take, Nat.min_l by (rewrite ?length_take; lia).
Qed.

(** One turn ends the loop, moves on without new random octets, or draws some,
    in which case it moves on unless they are all zero. *)
Lemma pad_turn_spec N padLen bp i j g : pad_inv N padLen bp i j →
  ∃ r, pad_turn bp padLen i j g = Ok r ∧
  match r with
  | inl (PadDone bp' g') => bp' = bp ∧ (padLen ≤ i)%nat
  | inl (PadFail g') => RNG_GenerateGlobalRandomBytes g (N - padLen) = (None, g')
  | inl PadRunning => False
  | inr (bp', i', j', g') => pad_inv N padLen bp' i' j' ∧ (i < padLen)%nat ∧
      (g' = g ∧ (i ≤ i')%nat ∧ (padLen - i' + j' < padLen - i + j)%nat ∨
       ∃ l, RNG_GenerateGlobalRandomBytes g (N - padLen) = (Some l, g') ∧
            (i' = (i + 1)%nat ∨ i' = i ∧ Forall (λ b, b = 0) l))
  end.
Proof.
  intros Hinv. pose proof Hinv as (Hl & Hb & Hi & Hj & Hn). unfold pad_turn. rewrite Hl.
  destruct (Nat.leb_spec padLen i) as [Hge|Hlt]; [by eexists|].
  destruct (lookup_lt_is_Some_2 bp i) as [b Hx]; [lia|]. rewrite Hx. unfold RSA_BLOCK_AFTER_PAD_OCTET.
  destruct (Z.eqb_spec b 0) as [->|Hne]; cbn [negb].
  2: { eexists. split; [done|]. cbn. split; [by apply (pad_inv_next _ _ _ _ _ b)|]. split; [done|]. left. split_and!; [done|lia|lia]. }
  destruct (if (j <=? padLen)%nat then RNG_GenerateGlobalRandomBytes g (N - padLen) else (Some (drop padLen bp), g))
    as [[supply|] g'] eqn:Eg; [|eexists; split; [done|]; cbn; by destruct (j <=? padLen)%nat].
  assert (Hs : length supply = (N - padLen)%nat ∧ bytes supply).
  { destruct (j <=? padLen)%nat; [by apply RNG_length in Eg|]. simplify_eq. rewrite length_drop. split; [lia|by apply Forall_drop]. }
  destruct Hs as (Ls & Bs). set (bp2 := take padLen bp ++ supply). set (j2 := if (j <=? padLen)%nat then N else j).
  assert (Hinv2 : pad_inv N padLen bp2 i N) by by eapply pad_inv_refill.
  pose proof Hinv2 as (Hl2 & Hb2 & Hi2 & _ & Hn2).
  assert (Hgt : (padLen < j2 ≤ N)%nat) by (unfold j2; destruct (Nat.leb_spec j padLen); lia).
  destruct (next_repl_spec bp2 padLen j2) as (repl & j' & -> & Hj' & Hr & Hz); [lia|]. cbn [mbind res_bind].
  destruct (Z.eqb_spec repl 0) as [->|Hne]; cbn [negb].
  - eexists. split; [done|]. cbn. split; [split_and!; (done || lia)|]. split; [done|].
    destruct (Hz eq_refl) as [-> Hall]. unfold j2 in *. destruct (Nat.leb_spec j padLen); [right|left; simplify_eq; split_and!; [done|lia|lia]].
    exists supply. split; [done|]. right. split; [done|]. apply Forall_lookup. intros k x Hk. apply (Hall (padLen + k)%nat x).
    + apply lookup_lt_Some in Hk. lia.
    + unfold bp2. rewrite lookup_app_r, length_take by (rewrite length_take; lia).
      by replace (padLen + k - padLen `min` length bp)%nat with k by lia.
  - eexists. split; [done|]. cbn. split; [|split; [done|]].
    + apply (pad_inv_replace _ _ _ _ N); [done|done|lia| |done]. by apply (Forall_lookup_1 _ _ _ _ Hb2 Hr).
    + unfold j2 in *. destruct (Nat.leb_spec j padLen); [right|left; simplify_eq; split_and!; [done|lia|lia]].
      exists supply. split; [done|by left].
Qed.

(** The loop stays in its buffer and ends with padding. *)
Lemma pad_loop_safe fuel N padLen bp i j g : pad_inv N padLen bp i j →
  ∃ r, pad_loop fuel bp padLen i j g = Ok r ∧
       (∀ bp' g', r = PadDone bp' g' → length bp' = N ∧ bytes bp' ∧ nonzero (take padLen bp')).
Proof.
  revert bp i j g. induction fuel as [|fuel IH]; intros bp i j g Hinv; [by eexists|]. cbn [pad_loop].
  destruct (pad_turn_spec N padLen bp i j g Hinv) as ([r|[[[bp' i'] j'] g']] & -> & Hr); cbn [mbind res_bind].
  - eexists. split; [done|]. intros bp' g' ->. destruct Hr as [-> Hge], Hinv as (Hl & Hb & Hi & _ & Hn).
    by assert (i = padLen) as -> by lia.
  - apply IH, Hr.
Qed.

(** [n] more draws of [k] octets will hold an octet other than zero, or the
    generator fails before that; the draws in between may be all zeros. *)
Inductive productive (k : nat) : nat → rng → Prop :=
| productive_done g : productive k 0 g
| productive_fails n g g' : RNG_GenerateGlobalRandomBytes g k = (None, g') → productive k n g
| productive_zeros n g g' l : RNG_GenerateGlobalRandomBytes g k = (Some l, g') →
    productive k n g' → productive k n g
| productive_draw n g g' l : RNG_GenerateGlobalRandomBytes g k = (Some l, g') → ¬ Forall (λ b, b = 0) l →
    productive k n g' → productive k (S n) g.

Lemma pad_loop_mono fuel fuel' bp padLen i j g r : (fuel ≤ fuel')%nat →
  pad_loop fuel bp padLen i j g = Ok r → r ≠ PadRunning → pad_loop fuel' bp padLen i j g = Ok r.
Proof.
  revert fuel' bp i j g. induction fuel as [|fuel IH]; intros [|fuel'] bp i j g Hle HE Hr; try (lia || by simplify_eq/=).
  cbn [pad_loop] in *. destruct (pad_turn bp padLen i j g) as [[r'|[[[bp' i'] j'] g']]| |]; [done| |done|done].
  cbn [mbind res_bind] in *. apply IH; (done || lia).
Qed.

(** The loop ends if enough draws are not all zeros. *)
Lemma pad_loop_ends N padLen n g : productive (N - padLen) n g →
  ∀ bp i j, pad_inv N padLen bp i j → (padLen - i ≤ n)%nat →
  ∃ fuel r, pad_loop fuel bp padLen i j g = Ok r ∧ r ≠ PadRunning.
Proof.
  intros Hp. induction Hp as [g|n g g' E|n g g' l E Hp IH|n g g' l E Hnz Hp IH]; intros bp i j Hinv Hle.
  all: remember (padLen - i + j)%nat as m eqn:Hm; revert bp i j Hm Hinv Hle.
  all: induction (lt_wf m) as [m _ IHm]; intros bp i j -> Hinv Hle.
  all: destruct (pad_turn_spec N padLen bp i j g Hinv) as ([r|[[[bp' i'] j'] g'']] & Et & Hr);
    [exists 1%nat, r; cbn [pad_loop]; rewrite Et; by destruct r|].
  all: enough (∃ fuel r, pad_loop fuel bp' padLen i' j' g'' = Ok r ∧ r ≠ PadRunning) as (fuel & r & HE & Hne)
    by (exists (S fuel), r; cbn [pad_loop]; by rewrite Et).
  all: destruct Hr as (Hinv' & Hlt & [(-> & Hi & Hdec)|(l' & E' & Hi)]); [eapply IHm; (done || lia)|].
  all: try lia; rewrite E in E'; simplify_eq.
  - apply IH; [done|lia].
  - destruct Hi as [->|[_ Hz]]; [|done]. apply IH; [done|lia].
Qed.
End FormatLemmas.

Section FormatSpecs.
  Context `{heap : NSPRHeap} `{rand : RNG}.

(** The two octets at the start, then the padding, then the data. *)
Lemma write_block_end {E} (t : RSA_BlockType) (PS rest data : list Z) : length rest = S (length data) →
  (block ← mem_write (E:=E) ((RSA_BLOCK_FIRST_OCTET :: blockType_octet t :: PS) ++ rest) (2 + length PS) [RSA_BLOCK_AFTER_PAD_OCTET];
   mem_write block (3 + length PS) data) = Ok (pkcs1_block t PS data).
Proof.
  intros Hr. rewrite mem_write_mid by (cbn [length]; lia). cbn [mbind res_bind]. rewrite app_assoc.
  rewrite mem_write_mid.
  - rewrite drop_ge by (rewrite length_drop; cbn [length]; lia). rewrite app_nil_r. unfold pkcs1_block. cbn [app]. by rewrite <- app_assoc.
  - rewrite length_app. cbn [length]. lia.
  - rewrite length_drop. cbn [length]. lia.
Qed.

Lemma FormatBlock_private_spec fuel k data g : 11 ≤ k < 2 ^ 32 → length data ≤ k - 11 →
  rsa_FormatBlock fuel k RSA_BlockPrivate data g =
  Ok (Some (match PORT_Alloc k with
            | Ok _ => Some (pkcs1_block RSA_BlockPrivate (replicate (Z.to_nat (k - length data - 3)) 0xff) data)
            | _ => None end, g)).
Proof.
  intros Hk Hd. unfold rsa_FormatBlock. change (3 + RSA_BLOCK_MIN_PAD_LEN) with 11.
  rewrite (proj2 (Z.ltb_ge _ _)) by lia. rewrite Z.gtb_ltb, (proj2 (Z.ltb_ge _ _)) by lia. cbn [orb].
  unfold rsa_FormatOneBlock. destruct (PORT_Alloc k) as [block|e|] eqn:Hal; [|done|by apply PORT_Alloc_no_UB in Hal].
  apply PORT_Alloc_Ok in Hal as (Hl & _ & _); [|lia]. rewrite (proj2 (Z.eqb_neq k 0)) in Hl by lia.
  rewrite (mem_write_mid [] block) by (cbn [length]; lia). cbn [mbind res_bind app length].
  rewrite wrap_small by lia. change RSA_BLOCK_MIN_PAD_LEN with 8. rewrite (proj2 (Z.ltb_ge _ _)) by lia.
  change (RSA_BLOCK_FIRST_OCTET :: blockType_octet RSA_BlockPrivate :: drop 2 block)
    with ([RSA_BLOCK_FIRST_OCTET; blockType_octet RSA_BlockPrivate] ++ drop 2 block).
  set (n := Z.to_nat (k - length data - 3)). set (PS := replicate n RSA_BLOCK_PRIVATE_PAD_OCTET).
  assert (LP : length PS = n) by apply length_replicate.
  rewrite mem_write_mid by (rewrite ?LP, ?length_drop; (done || lia)). cbn [mbind res_bind]. rewrite app_assoc.
  pose proof (write_block_end (E:=Empty_set) RSA_BlockPrivate PS (drop (length PS) (drop 2 block)) data) as Hw.
  rewrite LP in Hw. rewrite LP. cbn [app] in Hw |- *. 
  assert (Hlen : length (drop n (drop 2 block)) = S (length data)) by (rewrite !length_drop; unfold n; lia).
  apply bind_Ok in Hw as (block' & -> & E2); [|done]. cbn [mbind res_bind]. by rewrite E2.
Qed.

(** What a block for encryption is made of. *)
Lemma FormatBlock_public_eq fuel k data g : 11 ≤ k < 2 ^ 32 → length data ≤ k - 11 →
  let n := Z.to_nat (k - length data - 3) in
  let N := Z.to_nat (k - 2) in
  rsa_FormatBlock fuel k RSA_BlockPublic data g =
  match PORT_Alloc k with
  | Ok _ =>
      match RNG_GenerateGlobalRandomBytes g N with
      | (None, g) => Ok (Some (None, g))
      | (Some octets, g) =>
          match pad_loop fuel octets n 0 N g with
          | Ok (PadDone bp g) => Ok (Some (Some (pkcs1_block RSA_BlockPublic (take n bp) data), g))
          | Ok (PadFail g) => Ok (Some (None, g))
          | Ok PadRunning => Ok None
          | _ => UB
          end
      end
  | _ => Ok (Some (None, g))
  end.
Proof.
  intros Hk Hd n N. unfold rsa_FormatBlock. change (3 + RSA_BLOCK_MIN_PAD_LEN) with 11.
  rewrite (proj2 (Z.ltb_ge _ _)) by lia. rewrite Z.gtb_ltb, (proj2 (Z.ltb_ge _ _)) by lia. cbn [orb].
  unfold rsa_FormatOneBlock. destruct (PORT_Alloc k) as [block|e|] eqn:Hal; [|done|by apply PORT_Alloc_no_UB in Hal].
  apply PORT_Alloc_Ok in Hal as (Hl & _ & _); [|lia]. rewrite (proj2 (Z.eqb_neq k 0)) in Hl by lia.
  rewrite (mem_write_mid [] block) by (cbn [length]; lia). cbn [mbind res_bind app length].
  rewrite !wrap_small by lia. change RSA_BLOCK_MIN_PAD_LEN with 8. rewrite (proj2 (Z.ltb_ge _ _)) by lia. fold N.
  destruct (RNG_GenerateGlobalRandomBytes g N) as [[octets|] g1] eqn:Eg; [|done].
  apply RNG_length in Eg as [Lo Bo].
  change (RSA_BLOCK_FIRST_OCTET :: blockType_octet RSA_BlockPublic :: drop 2 block)
    with ([RSA_BLOCK_FIRST_OCTET; blockType_octet RSA_BlockPublic] ++ drop 2 block).
  rewrite mem_write_mid by (rewrite ?length_drop; (done || lia)). cbn [mbind res_bind].
  rewrite (drop_ge (drop 2 block)), app_nil_r by (rewrite length_drop; lia). rewrite drop_app_length' by done.
  rewrite take_ge by lia. replace (k - (length data + 3)) with (k - length data - 3) by lia. fold n.
  destruct (pad_loop_safe fuel N n octets 0 N g1) as (r & -> & Hr).
  { split_and!; [done|done|lia|unfold n, N; lia|lia|by rewrite take_0]. }
  cbn [mbind res_bind]. destruct r as [bp g2|g2|]; [|done|done]. destruct (Hr bp g2 eq_refl) as (Lb & _ & _).
  rewrite mem_write_mid by (done || lia). cbn [mbind res_bind]. rewrite drop_ge, app_nil_r by lia.
  assert (Ln : length (take n bp) = n) by (rewrite length_take; unfold n, N in *; lia).
  pose proof (write_block_end (E:=Empty_set) RSA_BlockPublic (take n bp) (drop n bp) data) as Hw.
  rewrite Ln in Hw. cbn [app] in Hw. rewrite take_drop in Hw.
  apply bind_Ok in Hw as (block' & Hw1 & Hw2); [|rewrite length_drop; unfold n, N in *; lia].
  cbn [app]. rewrite Hw1. cbn [mbind res_bind]. by rewrite Hw2.
Qed.

Definition public_block (k : Z) (data block : list Z) : Prop :=
  ∃ PS, block = pkcs1_block RSA_BlockPublic PS data ∧ nonzero PS ∧ bytes PS ∧ Z.of_nat (length PS) = k - length data - 3.

Lemma FormatBlock_public_safe fuel k data g : 11 ≤ k < 2 ^ 32 → length data ≤ k - 11 →
  ∃ r, rsa_FormatBlock fuel k RSA_BlockPublic data g = Ok r ∧
    ∀ block g', r = Some (Some block, g') → public_block k data block.
Proof.
  intros Hk Hd. rewrite FormatBlock_public_eq by done. cbn zeta.
  destruct (PORT_Alloc k); [|by eexists|by eexists].
  destruct (RNG_GenerateGlobalRandomBytes g (Z.to_nat (k - 2))) as [[octets|] g1] eqn:Eg; [|by eexists].
  apply RNG_length in Eg as [Lo Bo]. set (n := Z.to_nat (k - length data - 3)).
  destruct (pad_loop_safe fuel (Z.to_nat (k - 2)) n octets 0 (Z.to_nat (k - 2)) g1) as (r & -> & Hr).
  { split_and!; [done|done|lia|unfold n; lia|lia|by rewrite take_0]. }
  destruct r as [bp g2|g2|]; [|by eexists|by eexists]. destruct (Hr bp g2 eq_refl) as (Lb & Bb & Nb).
  eexists. split; [done|]. intros b' g' [= <- <-]. exists (take n bp).
  split_and!; [done|done|by apply Forall_take|rewrite length_take; unfold n; lia].
Qed.

Lemma FormatBlock_public_ends k data g : 11 ≤ k < 2 ^ 32 → length data ≤ k - 11 →
  (∀ octets g1, RNG_GenerateGlobalRandomBytes g (Z.to_nat (k - 2)) = (Some octets, g1) →
     productive (S (length data)) (Z.to_nat (k - length data - 3)) g1) →
  ∃ fuel0 r, ∀ fuel, (fuel0 ≤ fuel)%nat → rsa_FormatBlock fuel k RSA_BlockPublic data g = Ok (Some r).
Proof.
  intros Hk Hd Hp. assert (Heq := λ fuel, FormatBlock_public_eq fuel k data g Hk Hd). cbn zeta in Heq.
  destruct (PORT_Alloc k) as [block|e|]; [|by exists 0%nat, (None, g)..].
  destruct (RNG_GenerateGlobalRandomBytes g (Z.to_nat (k - 2))) as [[octets|] g1] eqn:Eg; [|by exists 0%nat, (None, g1)].
  specialize (Hp _ _ eq_refl). apply RNG_length in Eg as [Lo Bo].
  destruct (pad_loop_ends (Z.to_nat (k - 2)) (Z.to_nat (k - length data - 3)) (Z.to_nat (k - length data - 3)) g1)
    with octets 0%nat (Z.to_nat (k - 2)) as (fuel0 & r & HE & Hr).
  - by replace (Z.to_nat (k - 2) - Z.to_nat (k - length data - 3))%nat with (S (length data)) by lia.
  - split_and!; [done|done|lia|lia|lia|by rewrite take_0].
  - lia.
  - destruct r as [bp g2|g2|]; [| |done]; exists fuel0; eexists; intros fuel Hle; rewrite Heq;
      rewrite (pad_loop_mono fuel0 fuel _ _ _ _ _ _ Hle HE Hr); done.
Qed.
End FormatSpecs.

(** ** memcmp *)

Lemma memcmp_be_val a b : bytes a → bytes b → length a = length b → memcmp a b = (be_val a ?= be_val b).
Proof.
  intros Ha. revert b. induction Ha as [|x a Hx Ha IH]; intros [|y b] Hb Hl; try done.
  apply Forall_cons_1 in Hb as [Hy Hb]. injection Hl as Hl. cbn [memcmp]. rewrite !be_val_cons, Hl.
  pose proof (be_val_range a Ha) as Ra. pose proof (be_val_range b Hb) as Rb. rewrite Hl in Ra.
  destruct (Z.eqb_spec x y) as [->|Hne]; [rewrite IH by done; symmetry; apply Zcompare_plus_compat|].
  symmetry. destruct (Z.compare_spec x y) as [->|Hlt|Hgt]; [done| |].
  - apply Z.compare_lt_iff. nia.
  - apply Z.compare_gt_iff. nia.
Qed.

Lemma memcmp_Eq a b : length a = length b → memcmp a b = Eq ↔ a = b.
Proof.
  revert b. induction a as [|x a IH]; intros [|y b] Hl; try done. injection Hl as Hl. cbn [memcmp].
  destruct (Z.eqb_spec x y) as [->|Hne].
  - rewrite IH by done. split; [by intros ->|by intros [=]].
  - rewrite Z.compare_eq_iff. split; [done|by intros [=]].
Qed.

(** ** Reading a decrypted block *)

(** The message in 00 02 PS 00 M, if PS has at least eight octets. *)
Definition pkcs1_parse (m : list Z) : option (list Z) :=
  match m with
  | a :: b :: rest =>
      if (a =? 0) && (b =? 2) then
        match list_find (.= 0) rest with
        | Some (i, _) => if (8 <=? i)%nat then Some (drop (S i) rest) else None
        | None => None
        end
      else None
  | _ => None
  end.

Lemma pkcs1_parse_Some m msg :
  pkcs1_parse m = Some msg ↔
  ∃ PS, m = pkcs1_block RSA_BlockPublic PS msg ∧ nonzero PS ∧ (8 ≤ length PS)%nat.
Proof.
  unfold pkcs1_parse, pkcs1_block. change (blockType_octet RSA_BlockPublic) with 2. split.
  - destruct m as [|a [|b rest]]; try done. destruct (Z.eqb_spec a 0) as [->|]; [|done].
    destruct (Z.eqb_spec b 2) as [->|]; [|done]. cbn [andb].
    destruct (list_find (.= 0) rest) as [[i x]|] eqn:Hf; [|done]. destruct (Nat.leb_spec 8 i); [|done].
    intros [= <-]. apply list_find_Some in Hf as (Hi & -> & Hall). exists (take i rest).
    assert (Li : length (take i rest) = i) by (apply lookup_lt_Some in Hi; rewrite length_take; lia).
    split; [|split; [|lia]].
    + do 2 f_equal. by rewrite <- (take_drop_middle _ _ _ Hi) at 1.
    + apply Forall_lookup. intros k y Hk. pose proof (lookup_lt_Some _ _ _ Hk). rewrite lookup_take_lt in Hk by lia.
      eapply Hall; [exact Hk|lia].
  - intros (PS & -> & Hn & Hl). cbn [Z.eqb andb].
    assert (Hf : list_find (.= 0) (PS ++ RSA_BLOCK_AFTER_PAD_OCTET :: msg) = Some (length PS, 0)).
    { apply list_find_Some. split_and!; [by rewrite list_lookup_middle|done|].
      intros j y Hj Hlt. rewrite lookup_app_l in Hj by done. by apply (Forall_lookup_1 _ _ _ _ Hn Hj). }
    rewrite Hf, (proj2 (Nat.leb_le _ _)) by lia. f_equal.
    change (RSA_BLOCK_AFTER_PAD_OCTET :: msg) with ([RSA_BLOCK_AFTER_PAD_OCTET] ++ msg). rewrite app_assoc.
    apply drop_app_length'. rewrite length_app. cbn [length]. lia.
Qed.

Lemma lor_mask a b : Z.lor (mask a) (mask b) = mask (a || b).
Proof. by destruct a, b. Qed.

Lemma SEL_value b l r : 0 ≤ l < 2 ^ 32 → 0 ≤ r < 2 ^ 32 → PORT_CT_SEL (mask b) l r = if b then l else r.
Proof.
  intros Hl Hr. unfold PORT_CT_SEL. rewrite not32_mask.
  assert (Hm : ∀ x, 0 ≤ x < 2 ^ 32 → Z.land (mask true) x = x).
  { intros x Hx. unfold mask. rewrite Z.land_comm, land_ones_mod by lia. by apply Z.mod_small. }
  destruct b; cbn [negb]; rewrite Hm by done; [by rewrite Z.lor_0_r|done].
Qed.

Section BlockFail.

Lemma byte_is_zero b : is_byte b → PORT_CT_EQ b 0 = mask (b =? 0).
Proof. unfold is_byte. intros Hb. apply CT_EQ_mask; lia. Qed.

Lemma min_pad_fail_mask n i buffer f : bytes buffer → (i + n ≤ length buffer)%nat →
  min_pad_fail n i buffer (mask f) = Ok (mask (f || existsb (λ b, b =? 0) (take n (drop i buffer)))).
Proof.
  intros Hb. revert i f. induction n as [|n IH]; intros i f Hi.
  - cbn [min_pad_fail take existsb]. by rewrite orb_false_r.
  - cbn [min_pad_fail]. destruct (lookup_lt_is_Some_2 buffer i) as [b Hx]; [lia|]. rewrite Hx.
    unfold RSA_BLOCK_AFTER_PAD_OCTET. rewrite byte_is_zero by by apply (Forall_lookup_1 _ _ _ _ Hb Hx).
    rewrite lor_mask, IH by lia. rewrite (drop_S _ _ _ Hx). cbn [take existsb].
    by rewrite Nat.add_1_r, orb_assoc.
Qed.

Lemma find_zero_found n i buffer k L : bytes buffer → (i + n ≤ length buffer)%nat → 0 ≤ k < 2 ^ 32 → 0 ≤ L < k →
  find_zero n i buffer k L = Ok L.
Proof.
  intros Hb. revert i. induction n as [|n IH]; intros i Hi Hk HL; [done|]. cbn [find_zero].
  destruct (lookup_lt_is_Some_2 buffer i) as [b Hx]; [lia|]. rewrite Hx. unfold RSA_BLOCK_AFTER_PAD_OCTET.
  rewrite byte_is_zero by by apply (Forall_lookup_1 _ _ _ _ Hb Hx). rewrite CT_EQ_mask, land_mask by lia.
  rewrite (proj2 (Z.eqb_neq L k)), andb_false_r, SEL_value by (lia || apply wrap_range; lia). apply IH; lia.
Qed.

Lemma find_zero_spec n i buffer k : bytes buffer → (i + n = length buffer)%nat → Z.of_nat (length buffer) = k →
  0 < k < 2 ^ 32 →
  find_zero n i buffer k k =
  Ok (match list_find (.= 0) (drop i buffer) with Some (d, _) => k - i - d - 1 | None => k end).
Proof.
  intros Hb. revert i. induction n as [|n IH]; intros i Hi Hk Hr; cbn [find_zero].
  - rewrite drop_ge by lia. done.
  - destruct (lookup_lt_is_Some_2 buffer i) as [b Hx]; [lia|]. rewrite Hx, (drop_S _ _ _ Hx).
    unfold RSA_BLOCK_AFTER_PAD_OCTET. rewrite byte_is_zero by by apply (Forall_lookup_1 _ _ _ _ Hb Hx).
    rewrite CT_EQ_mask, land_mask, Z.eqb_refl, andb_true_r by lia.
    rewrite wrap_small by lia. rewrite SEL_value by lia. cbn [list_find].
    destruct (Z.eqb_spec b 0) as [->|Hne].
    + rewrite decide_True by done. rewrite find_zero_found by (done || lia). do 2 f_equal. lia.
    + rewrite decide_False by done. rewrite IH by lia. rewrite Nat.add_1_r.
      destruct (list_find (.= 0) (drop (S i) buffer)) as [[d x]|]; cbn [fmap option_fmap option_map prod_map]; f_equal. cbn. lia.
Qed.

Lemma existsb_zero_find l :
  existsb (λ b, b =? 0) l = match list_find (.= 0) l with Some _ => true | None => false end.
Proof.
  induction l as [|b l IH]; [done|]. cbn [existsb list_find]. destruct (Z.eqb_spec b 0) as [->|Hne]; [done|].
  rewrite decide_False, IH by done. cbn [orb]. by destruct (list_find (.= 0) l).
Qed.

(** Where the first zero is, counting from the octet after the minimal padding. *)
Lemma parse_split rest : (8 ≤ length rest)%nat →
  match list_find (.= 0) rest with
  | Some (i, _) => if (8 <=? i)%nat then Some (drop (S i) rest) else None
  | None => None
  end =
  if existsb (λ b, b =? 0) (take 8 rest) then None
  else match list_find (.= 0) (drop 8 rest) with Some (d, _) => Some (drop (9 + d) rest) | None => None end.
Proof.
  intros Hl. rewrite existsb_zero_find. assert (Lt : length (take 8 rest) = 8%nat) by (rewrite length_take; lia).
  destruct (list_find (.= 0) (take 8 rest)) as [[i x]|] eqn:Ef.
  - assert (Hi : (i < 8)%nat) by (apply list_find_Some in Ef as (Hi & _); apply lookup_lt_Some in Hi; lia).
    rewrite <- (take_drop 8 rest) at 1. rewrite (list_find_app_l _ _ _ _ _ Ef), (proj2 (Nat.leb_gt _ _)) by lia. done.
  - rewrite <- (take_drop 8 rest) at 1. rewrite (list_find_app_r _ _ _ Ef), Lt.
    destruct (list_find (.= 0) (drop 8 rest)) as [[d x]|]; cbn [fmap option_fmap option_map prod_map]; [|done].
    cbn [fst]. rewrite (proj2 (Nat.leb_le _ _)) by lia. by replace (S (d + 8)) with (9 + d)%nat by lia.
Qed.

(** The mask is clear exactly for a block that can be parsed, and then the
    length is that of its message. *)
Lemma block_fail_spec rv buffer k : bytes buffer → Z.of_nat (length buffer) = k → 10 ≤ k ≤ MAX_SIZE →
  ∃ outLen, block_fail rv buffer k =
    Ok (mask (negb (match rv, pkcs1_parse buffer with None, Some _ => true | _, _ => false end)), outLen) ∧
    0 ≤ outLen ≤ k ∧
    (∀ msg, pkcs1_parse buffer = Some msg → outLen = length msg ∧ msg = drop (length buffer - length msg) buffer).
Proof.
  intros Hb Hl Hk. rewrite MAX_SIZE_val in Hk. destruct buffer as [|a [|b rest]]; cbn [length] in Hl; [lia|lia|].
  pose proof Hb as Hb'. apply Forall_cons_1 in Hb' as [Ha Hb']. apply Forall_cons_1 in Hb' as [Hbb Hrest].
  unfold is_byte in Ha, Hbb. unfold block_fail, mem_read. rewrite decide_True by (cbn [length]; lia).
  cbn [mbind res_bind take drop]. rewrite take_0. change ([a; b] !!! 0%nat) with a. change ([a; b] !!! 1%nat) with b.
  assert (Hrv : PORT_CT_NE (match rv with None => 0 | Some _ => u32 (-1) end) 0 = mask (match rv with None => false | _ => true end))
    by by destruct rv.
  rewrite Hrv. unfold RSA_BLOCK_FIRST_OCTET. rewrite !CT_NE_mask, !lor_mask, min_pad_fail_mask by first [done|lia|cbn [length]; lia].
  cbn [mbind res_bind]. rewrite find_zero_spec by first [done|cbn [length]; lia]. cbn [mbind res_bind drop].
  set (D := list_find (.= 0) (drop 8 rest)).
  assert (HD : ∀ d x, D = Some (d, x) → (d < length rest - 8)%nat).
  { intros d x E. apply list_find_Some in E as (Hd & _). apply lookup_lt_Some in Hd. by rewrite length_drop in Hd. }
  exists (match D with Some (d, _) => k - 10%nat - d - 1 | None => k end).
  assert (HR : 0 ≤ match D with Some (d, _) => k - 10%nat - d - 1 | None => k end ≤ k).
  { destruct D as [[d x]|] eqn:ED; [|lia]. specialize (HD d x eq_refl). lia. }
  rewrite CT_GE_near by lia. rewrite lor_mask. unfold pkcs1_parse. rewrite parse_split by lia. fold D.
  split; [|split; [done|]].
  - do 3 f_equal. destruct rv; cbn [orb negb]; [done|]. change (blockType_octet RSA_BlockPublic) with 2.
    destruct (a =? 0), (b =? 2); cbn [orb negb andb]; try done.
    destruct (existsb _ _); cbn [orb]; [done|]. destruct D as [[d x]|] eqn:ED; cbn [negb].
    + specialize (HD d x eq_refl). apply Z.leb_gt. lia.
    + apply Z.leb_le. lia.
  - intros msg. destruct ((a =? 0) && (b =? 2)); [|done]. destruct (existsb _ _); [done|].
    destruct D as [[d x]|] eqn:ED; [|done]. specialize (HD d x eq_refl). intros [= <-].
    rewrite length_drop. cbn [length]. split; [lia|].
    match goal with |- _ = drop ?n _ => replace n with (S (S (9 + d)))%nat by lia end. done.
Qed.
End BlockFail.

(** ** The pseudo-random function *)

Section PRF.
  Context {hctx : Type}.

(** Blocks [i], [i + 1], ... of the stream for a label and an encoded length. *)
Fixpoint prf_stream (n : nat) (h : SECHashObject hctx) (K label encodedLen : list Z) (i : Z) : list Z :=
  match n with
  | O => []
  | S n => hmac_ref h K (be_bytes 2 i ++ label ++ encodedLen) ++ prf_stream n h K label encodedLen (i + 1)
  end.

(** The first [len] octets for a label, with their number of bits encoded. *)
Definition prf_ref (h : SECHashObject hctx) (K label : list Z) (len : Z) : list Z :=
  take (Z.to_nat len) (prf_stream (S (Z.to_nat len)) h K label (be_bytes 2 (8 * len)) 0).

Lemma next_iterator_be i : next_iterator (be_bytes 2 i) = be_bytes 2 (i + 1).
Proof.
  cbn [be_bytes app next_iterator]. change u8 with (λ z, z mod 2 ^ 8). cbn beta. change (2 ^ 8) with 256.
  assert (Hl : (i mod 256 + 1) mod 256 = (i + 1) mod 256) by by rewrite Zplus_mod_idemp_l.
  rewrite Hl. f_equal. destruct (Z.eqb_spec ((i + 1) mod 256) 0) as [E|E].
  - rewrite Zplus_mod_idemp_l. f_equal. Z.to_euclidean_division_equations; lia.
  - f_equal. Z.to_euclidean_division_equations; lia.
Qed.

Lemma prf_block_keyed (h : SECHashObject hctx) K hmac it label enc max : keyed h K hmac → hash_length h ≤ max →
  ∃ hmac', prf_block hmac it label enc max = Ok (hmac', hmac_ref h K (it ++ label ++ enc)) ∧ keyed h K hmac'.
Proof.
  intros Hk Hm. destruct (hmac_run_keyed h K hmac [it; label; enc] max Hk Hm) as (hmac' & E & Hk').
  exists hmac'. cbn [concat] in E. rewrite app_nil_r in E. done.
Qed.

Lemma length_hmac_ref (h : SECHashObject hctx) K text : length (hmac_ref h K text) = Z.to_nat (hash_length h).
Proof. unfold hmac_ref. pose proof (digest_length h ((Z.lxor 0x5c <$> hmac_key h K) ++ digest h ((Z.lxor 0x36 <$> hmac_key h K) ++ text))). lia. Qed.

Lemma prf_loop_ref (n : nat) (h : SECHashObject hctx) K hmac i label enc left : keyed h K hmac → 0 ≤ left < n →
  ∃ hmac', prf_loop n hmac (be_bytes 2 i) label enc (hash_length h) left =
           Ok (hmac', take (Z.to_nat left) (prf_stream n h K label enc i)) ∧ keyed h K hmac'.
Proof.
  revert hmac i left. induction n as [|n IH]; intros hmac i left Hk Hl; [lia|].
  destruct (hash_sizes h) as [Hh _]. cbn [prf_loop prf_stream].
  pose proof (length_hmac_ref h K (be_bytes 2 i ++ label ++ enc)) as Lb.
  rewrite Z.gtb_ltb. destruct (Z.ltb_spec (hash_length h) left) as [Hgt|Hle].
  - destruct (prf_block_keyed h K hmac (be_bytes 2 i) label enc (hash_length h) Hk ltac:(lia)) as (hmac1 & -> & Hk1).
    cbn [mbind res_bind]. rewrite next_iterator_be.
    destruct (IH hmac1 (i + 1) (left - hash_length h) Hk1 ltac:(lia)) as (hmac2 & -> & Hk2). cbn [mbind res_bind].
    exists hmac2. split; [|done]. rewrite take_app_ge by lia. do 4 f_equal. lia.
  - destruct (Z.eqb_spec left 0) as [->|Hne]; cbn [negb].
    + exists hmac. split; [|done]. by rewrite take_0.
    + destruct (prf_block_keyed h K hmac (be_bytes 2 i) label enc HASH_LENGTH_MAX Hk ltac:(lia)) as (hmac1 & -> & Hk1).
      cbn [mbind res_bind]. exists hmac1. split; [|done]. by rewrite take_app_le by lia.
Qed.

Lemma rsa_HMACPrf_ref (h : SECHashObject hctx) K hmac label len : keyed h K hmac → 0 ≤ len →
  ∃ hmac', rsa_HMACPrf hmac label (hash_length h) len = Ok (hmac', prf_ref h K label len) ∧ keyed h K hmac'.
Proof.
  intros Hk Hl. unfold rsa_HMACPrf, prf_ref.
  assert (He : [Z.land (Z.shiftr len 5) 0xff; Z.land (Z.shiftl len 3) 0xff] = be_bytes 2 (8 * len)).
  { change 0xff with (2 ^ 8 - 1). rewrite !land_ones_mod, Z.shiftr_div_pow2, Z.shiftl_mul_pow2 by lia.
    change (2 ^ 8) with 256. change (2 ^ 5) with 32. change (2 ^ 3) with 8. cbn [be_bytes app].
    f_equal; [|f_equal; f_equal; lia]. f_equal. Z.to_euclidean_division_equations; lia. }
  rewrite He. change [0; 0] with (be_bytes 2 0). by apply prf_loop_ref; [|lia].
Qed.

Lemma prf_stream_bytes n (h : SECHashObject hctx) K label enc i : bytes (prf_stream n h K label enc i).
Proof.
  revert i. induction n as [|n IH]; intros i; cbn [prf_stream]; [apply Forall_nil_2|].
  apply Forall_app. split; [apply digest_bytes|apply IH].
Qed.

Lemma length_prf_stream n (h : SECHashObject hctx) K label enc i : length (prf_stream n h K label enc i) = (n * Z.to_nat (hash_length h))%nat.
Proof.
  revert i. induction n as [|n IH]; intros i; cbn [prf_stream]; [done|].
  rewrite length_app, length_hmac_ref, IH. lia.
Qed.

Lemma prf_ref_spec (h : SECHashObject hctx) K label len : 0 ≤ len → bytes (prf_ref h K label len) ∧ length (prf_ref h K label len) = Z.to_nat len.
Proof.
  intros Hl. unfold prf_ref. split; [apply Forall_take, prf_stream_bytes|].
  rewrite length_take, length_prf_stream. destruct (hash_sizes h). nia.
Qed.

(** The key of the stream: the private exponent, hashed at the length of the
    input, authenticates the input. *)
Definition rsa_prf_key (h : SECHashObject hctx) (key : RSAKey) (input : list Z) : list Z :=
  let d := privateExponent key in
  hmac_ref h (digest h (replicate (length input - length d) 0 ++ d)) input.

Lemma zero_updates_spec n (h : SECHashObject hctx) c0 chunks p : 0 ≤ p →
  ∃ chunks', let r := zero_updates n h (fold_left (hash_update h) chunks c0) p in
    r.1 = fold_left (hash_update h) (chunks ++ chunks') c0 ∧ 0 ≤ r.2 ∧
    concat chunks' ++ replicate (Z.to_nat r.2) 0 = replicate (Z.to_nat p) 0.
Proof.
  revert chunks p. induction n as [|n IH]; intros chunks p Hp; cbn [zero_updates].
  { exists []. by rewrite app_nil_r. }
  rewrite Z.gtb_ltb. destruct (Z.ltb_spec HASH_LENGTH_MAX p) as [Hgt|Hle].
  - destruct (IH (chunks ++ [replicate (Z.to_nat HASH_LENGTH_MAX) 0]) (p - HASH_LENGTH_MAX)) as (chunks' & E1 & E2 & E3);
      [unfold HASH_LENGTH_MAX in *; lia|]. rewrite fold_left_app in E1, E2, E3. cbn [fold_left] in E1, E2, E3. cbn zeta in *.
    exists (replicate (Z.to_nat HASH_LENGTH_MAX) 0 :: chunks'). rewrite E1, <- app_assoc. cbn [app concat].
    split_and!; [done|done|]. rewrite <- app_assoc, E3, <- replicate_add. f_equal. unfold HASH_LENGTH_MAX in *; lia.
  - exists []. by rewrite app_nil_r.
Qed.

Lemma rsa_GetHMACContext_keyed `{heap : NSPRHeap} (h : SECHashObject hctx) key input m c :
  PORT_ZAlloc sizeof_HMACContext = Ok m → hash_create h = Some c →
  ∃ cx, rsa_GetHMACContext h key input = Ok cx ∧ keyed h (rsa_prf_key h key input) cx.
Proof.
  intros Hz Hc. unfold rsa_GetHMACContext. rewrite Hc. cbn zeta.
  set (d := privateExponent key).
  match goal with |- context [hash_end h (hash_update h ?c1 d)] =>
    assert (Hd : (hash_end h (hash_update h c1 d)).2 = digest h (replicate (length input - length d) 0 ++ d)) end.
  { destruct (Z.ltb_spec (length d) (length input)) as [Hlt|Hge].
    - destruct (zero_updates_spec (length input) h (hash_begin h c) [] (length input - length d)) as (chunks & E1 & E2 & E3); [lia|].
      cbn zeta in *. cbn [fold_left app] in E1, E2, E3. rewrite E1.
      match goal with |- context [hash_update h (fold_left _ chunks _) ?z] =>
        pose proof (hash_end_digest h c (chunks ++ [z; d])) as Hd end.
      rewrite fold_left_app in Hd. cbn [fold_left] in Hd. rewrite Hd. f_equal.
      rewrite concat_app. cbn [concat]. rewrite app_nil_r, app_assoc, E3. do 2 f_equal. lia.
    - pose proof (hash_end_digest h c [d]) as Hd. cbn [fold_left concat] in Hd. rewrite app_nil_r in Hd.
      replace (length input - length d)%nat with 0%nat by lia. done. }
  rewrite Hd. set (k1 := digest h _). pose proof (hash_sizes h) as [Hh _].
  assert (Lk1 : hash_length h / 2 ≤ length k1).
  { pose proof (digest_length h (replicate (length input - length d) 0 ++ d)) as HL. fold k1 in HL. rewrite HL.
    Z.to_euclidean_division_equations; lia. }
  destruct (HMAC_Create_Ok h k1 m c Hz Hc Lk1) as [cx0 E0]. rewrite E0. cbn [mbind res_bind].
  apply HMAC_Create_keyed in E0. destruct (hmac_run_keyed h k1 cx0 [input] HASH_LENGTH_MAX E0 ltac:(lia)) as (cx1 & E1 & Hk1).
  unfold hmac_run in E1. cbn [fold_left concat] in E1. rewrite app_nil_r in E1. rewrite E1. cbn [mbind res_bind].
  destruct (HMAC_ReInit_Ok h k1 (hmac_ref h k1 input) cx1 Hk1) as (cx2 & -> & Hk2); [|by exists cx2].
  pose proof (length_hmac_ref h k1 input). Z.to_euclidean_division_equations; lia.
Qed.
End PRF.

(** ** What decryption returns *)

(** The smallest mask of ones that covers a number of sixteen bits. *)
Lemma makeMask16_spec len : 0 < len < 2 ^ 16 → makeMask16 len = 2 ^ (Z.log2 len + 1) - 1.
Proof.
  assert (Hall : forallb (λ a, forallb (λ b, let i := a * 256 + b in (i =? 0) || (makeMask16 i =? 2 ^ (Z.log2 i + 1) - 1))
    (seqZ 0 256)) (seqZ 0 256) = true) by (vm_compute; reflexivity).
  intros Hl. rewrite forallb_forall in Hall.
  assert (Hin : ∀ x, 0 ≤ x < 256 → In x (seqZ 0 256)) by (intros x Hx; apply list_elem_of_In, elem_of_seqZ; lia).
  specialize (Hall (len / 256) (Hin (len / 256) ltac:(Z.to_euclidean_division_equations; lia))). rewrite forallb_forall in Hall.
  specialize (Hall (len mod 256) (Hin (len mod 256) ltac:(Z.to_euclidean_division_equations; lia))).
  replace (len / 256 * 256 + len mod 256) with len in Hall by (Z.to_euclidean_division_equations; lia).
  apply orb_true_iff in Hall as [E|E]; apply Z.eqb_eq in E; [lia|done].
Qed.

(** Pairs of octets as numbers, cut to the mask. *)
Fixpoint candidates (out : list Z) (lengthMask : Z) : list Z :=
  match out with
  | a :: b :: out => Z.land (a * 256 + b) lengthMask :: candidates out lengthMask
  | _ => []
  end.

(** The last candidate below the limit, zero if there is none. *)
Definition last_below (max acc : Z) (l : list Z) : Z := fold_left (λ acc c, if c <? max then c else acc) l acc.

Lemma land_range x y n : 0 ≤ n → 0 ≤ x < 2 ^ n → 0 ≤ y → 0 ≤ Z.land x y < 2 ^ n.
Proof.
  intros Hn Hx Hy. split; [apply Z.land_nonneg; lia|].
  destruct (decide (Z.land x y = 0)) as [E|E]; [rewrite E; lia|].
  assert (0 ≤ Z.land x y) by (apply Z.land_nonneg; lia).
  apply Z.log2_lt_pow2; [lia|]. pose proof (Z.log2_land x y ltac:(lia) ltac:(lia)).
  destruct (decide (x = 0)) as [->|]; [by rewrite Z.land_0_l in E|]. pose proof (proj1 (Z.log2_lt_pow2 x n ltac:(lia)) ltac:(lia)). lia.
Qed.

Lemma list_two_ind {A} (P : list A → Prop) :
  P [] → (∀ a, P [a]) → (∀ a b l, P l → P (a :: b :: l)) → ∀ l, P l.
Proof.
  intros H0 H1 H2 l. enough (P l ∧ ∀ a, P (a :: l)) by tauto. induction l as [|x l [IH1 IH2]]; [by split|].
  split; [apply IH2|]. intros a. by apply H2.
Qed.

Lemma pick_length_spec out m max acc : bytes out → 0 ≤ m → 0 ≤ max < 2 ^ 31 → 0 ≤ acc < 2 ^ 31 →
  pick_length out m max acc = last_below max acc (candidates out m).
Proof.
  intros Hb Hm Hmax. revert Hb acc.
  induction out as [|a|a b out IH] using list_two_ind; intros Hb acc Hacc; [done|done|].
  apply Forall_cons_1 in Hb as [Ha Hb]. apply Forall_cons_1 in Hb as [Hbb Hb]. unfold is_byte in *.
  cbn [pick_length candidates]. rewrite lor_shift_add by lia. change (2 ^ 8) with 256.
  pose proof (land_range (a * 256 + b) m 16 ltac:(lia) ltac:(lia) Hm) as Hc.
  rewrite CT_LT_near, SEL_value by lia. unfold last_below. cbn [fold_left].
  rewrite IH; [done|done|]. destruct (_ <? max); lia.
Qed.

Lemma last_below_range max acc l : 0 ≤ acc → Forall (λ c, 0 ≤ c) l →
  0 ≤ last_below max acc l ∧ (last_below max acc l < max ∨ last_below max acc l = acc).
Proof.
  unfold last_below. intros Ha Hl. revert acc Ha. induction Hl as [|c l Hc Hl IH]; intros acc Ha; cbn [fold_left]; [split; [done|by right]|].
  destruct (Z.ltb_spec c max); [|by apply IH]. destruct (IH c Hc) as [H1 [H2|H2]]; split; [done|by left|done|left; lia].
Qed.

Lemma candidates_nonneg out m : bytes out → 0 ≤ m → Forall (λ c, 0 ≤ c) (candidates out m).
Proof.
  intros Hb Hm. revert Hb. induction out as [|a|a b out IH] using list_two_ind; intros Hb; try apply Forall_nil_2.
  apply Forall_cons_1 in Hb as [Ha Hb]. apply Forall_cons_1 in Hb as [Hbb Hb]. unfold is_byte in *. cbn [candidates].
  apply Forall_cons_2; [apply Z.land_nonneg; lia|by apply IH].
Qed.

Lemma makeMask16_nonneg len : 0 ≤ len → 0 ≤ makeMask16 len.
Proof.
  intros Hl. unfold makeMask16. repeat (apply Z.lor_nonneg; split; try apply Z.shiftr_nonneg); try done;
    repeat (apply Z.lor_nonneg; split; try apply Z.shiftr_nonneg); done.
Qed.

Section Decryption.
  Context {hctx : Type}.

Definition error_length (h : SECHashObject hctx) (K : list Z) (maxLegalLen : Z) : Z :=
  last_below maxLegalLen 0 (candidates (prf_ref h K label_length 256) (makeMask16 maxLegalLen)).

(** The message returned for a block that is not well formed: it depends on the
    key and the ciphertext only. *)
Definition synthetic (h : SECHashObject hctx) (key : RSAKey) (c : list Z) : list Z :=
  let k := rsa_modulusLen (modulus key) in
  let K := rsa_prf_key h key c in
  drop (Z.to_nat (k - error_length h K (k - 10))) (prf_ref h K label_message k).

(** What the private-key operation makes of a ciphertext, read as a message. *)
Definition decrypted (h : SECHashObject hctx) `{RSAOps} (key : RSAKey) (c : list Z) : list Z :=
  let op := RSA_PrivateKeyOp key (replicate (length c) 0) c in
  match op.1, pkcs1_parse op.2 with
  | None, Some msg => msg
  | _, _ => synthetic h key c
  end.

Lemma error_length_range (h : SECHashObject hctx) K max : 0 ≤ max → 0 ≤ error_length h K max ≤ max.
Proof.
  intros Hm. destruct (prf_ref_spec h K label_length 256 ltac:(lia)) as [Hb _].
  destruct (last_below_range max 0 (candidates (prf_ref h K label_length 256) (makeMask16 max))) as [H1 H2]; [lia| |].
  - apply candidates_nonneg; [done|by apply makeMask16_nonneg].
  - unfold error_length. lia.
Qed.

Lemma rsa_GetErrorLength_ref (h : SECHashObject hctx) K hmac max : keyed h K hmac → 0 ≤ max < 2 ^ 31 →
  ∃ hmac', rsa_GetErrorLength hmac (hash_length h) max = Ok (hmac', error_length h K max) ∧ keyed h K hmac'.
Proof.
  intros Hk Hm. unfold rsa_GetErrorLength. change (128 * 2) with 256.
  destruct (rsa_HMACPrf_ref h K hmac label_length 256 Hk ltac:(lia)) as (hmac' & -> & Hk'). cbn [mbind res_bind].
  exists hmac'. split; [|done]. destruct (prf_ref_spec h K label_length 256 ltac:(lia)) as [Hb _].
  rewrite pick_length_spec; [done|done|apply makeMask16_nonneg; lia|done|lia].
Qed.

Lemma select_octets_spec b ep bp : bytes ep → bytes bp → length ep = length bp →
  select_octets (mask b) ep bp = if b then ep else bp.
Proof.
  intros He. revert bp. induction He as [|e ep He Hes IH]; intros [|x bp] Hb Hl; try done; [by destruct b|].
  apply Forall_cons_1 in Hb as [Hx Hb]. injection Hl as Hl. unfold is_byte in *. cbn [select_octets].
  rewrite SEL_value by lia. rewrite IH by done. destruct b; by rewrite wrap_small by lia.
Qed.
End Decryption.

(** The octets of the modulus without the leading zero. *)
Lemma modulus_octets key : bytes (modulus key) → length (modulus key) < 2 ^ 32 →
  let k := rsa_modulusLen (modulus key) in
  0 ≤ k ≤ length (modulus key) ∧
  ∃ n, mem_read (E:=Empty_set) (modulus key) (Z.to_nat (length (modulus key) - k)) (Z.to_nat k) = Ok n ∧
       Z.of_nat (length n) = k ∧ bytes n ∧ be_val n = be_val (modulus key).
Proof.
  intros Hb Hl k. assert (Hk : 0 ≤ k ≤ length (modulus key) ∧ be_val (drop (Z.to_nat (length (modulus key) - k)) (modulus key)) = be_val (modulus key)).
  { unfold k, rsa_modulusLen. destruct (modulus key) as [|x l]; [done|]. cbn [length] in *.
    rewrite wrap_small by (case_match; lia). destruct (Z.eqb_spec x 0) as [->|Hne].
    - split; [lia|]. replace (Z.to_nat (S (length l) - (S (length l) - 1))) with 1%nat by lia. cbn [drop]. by rewrite be_val_cons, drop_0.
    - split; [lia|]. by replace (Z.to_nat (S (length l) - (S (length l) - 0))) with 0%nat by lia. }
  destruct Hk as [Hk Hv]. split; [done|]. unfold mem_read. rewrite decide_True by lia. eexists. split; [done|].
  rewrite take_ge by (rewrite length_drop; lia). split_and!; [rewrite length_drop; lia|by apply Forall_drop|done].
Qed.

Lemma PORT_ZAlloc_size `{heap : NSPRHeap} n m : PORT_ZAlloc n = Ok m → n ≤ MAX_SIZE.
Proof. unfold PORT_ZAlloc. destruct (Z.leb_spec n MAX_SIZE); done. Qed.

Section DecryptTheorem.
  Context `{heap : NSPRHeap} `{ops : RSAOps} {hctx : Type}.

(** The end of RSA_DecryptBlock, from the two candidates for the result. *)
Lemma decrypt_select (buffer errorBuffer : list Z) (errorLength k max : Z) rv (output : list Z) :
  bytes buffer → bytes errorBuffer → Z.of_nat (length buffer) = k → Z.of_nat (length errorBuffer) = k →
  10 ≤ k ≤ MAX_SIZE → 0 ≤ errorLength ≤ k → 0 ≤ max ≤ length output →
  let msg := match rv, pkcs1_parse buffer with
             | None, Some msg => msg
             | _, _ => drop (Z.to_nat (k - errorLength)) errorBuffer
             end in
  let n := Nat.min (length msg) (Z.to_nat max) in
  ('(fail, outLen) ← block_fail rv buffer k;
   let outLen := PORT_CT_SEL fail errorLength outLen in
   let n := Z.to_nat (if outLen >? max then max else outLen) in
   bp ← mem_read buffer (Z.to_nat (k - outLen)) n;
   ep ← mem_read errorBuffer (Z.to_nat (k - outLen)) n;
   output ← mem_write output 0 (select_octets fail ep bp);
   Ok (output, inl (Z.of_nat n))) =
  Ok (E:=Empty_set) (take n msg ++ drop n output, (inl (Z.of_nat n) : rsa_status)).
Proof.
  intros Hb He Lb Le Hk Hel Hmax. rewrite MAX_SIZE_val in Hk.
  destruct (block_fail_spec rv buffer k Hb Lb ltac:(rewrite MAX_SIZE_val; lia)) as (outLen & -> & Hol & Hmsg).
  cbn [mbind res_bind]. rewrite SEL_value by lia.
  set (good := match rv, pkcs1_parse buffer with None, Some _ => true | _, _ => false end).
  cbn zeta. set (msg := match rv, pkcs1_parse buffer with None, Some m => m | _, _ => drop (Z.to_nat (k - errorLength)) errorBuffer end).
  set (L := if negb good then errorLength else outLen).
  assert (HL : Z.of_nat (length msg) = L ∧ 0 ≤ L ≤ k ∧ msg = drop (Z.to_nat (k - L)) (if negb good then errorBuffer else buffer)).
  { unfold msg, L, good. destruct rv as [e|]; cbn [negb].
    - rewrite length_drop. split_and!; [lia..|done].
    - destruct (pkcs1_parse buffer) as [m|] eqn:Ep; cbn [negb].
      + destruct (Hmsg m eq_refl) as [-> Hm]. split_and!; [lia..|]. rewrite Hm at 1. f_equal. lia.
      + rewrite length_drop. split_and!; [lia..|done]. }
  destruct HL as (HLm & HLr & Hmd).
  assert (Hn : Z.to_nat (if L >? max then max else L) = Nat.min (length msg) (Z.to_nat max)).
  { rewrite Z.gtb_ltb. destruct (Z.ltb_spec max L); lia. }
  rewrite Hn. set (n := Nat.min (length msg) (Z.to_nat max)).
  unfold mem_read. rewrite !decide_True by lia. cbn [mbind res_bind].
  rewrite select_octets_spec; [|by apply Forall_take, Forall_drop..|rewrite !length_take, !length_drop; lia].
  assert (Hsel : (if negb good then take n (drop (Z.to_nat (k - L)) errorBuffer) else take n (drop (Z.to_nat (k - L)) buffer)) = take n msg)
    by (rewrite Hmd; by destruct (negb good)).
  rewrite Hsel, mem_write_front by (rewrite length_take; lia). cbn [mbind res_bind].
  by rewrite length_take, Nat.min_l by lia.
Qed.

Lemma DecryptBlock_total (h : SECHashObject hctx) (key : RSAKey) (output c m1 m2 : list Z) (max : Z) (ctx : hctx) :
  let k := rsa_modulusLen (modulus key) in
  bytes (modulus key) → length (modulus key) < 2 ^ 32 → bytes c → 0 ≤ max ≤ length output →
  PORT_ZAlloc k = Ok m1 → PORT_ZAlloc sizeof_HMACContext = Ok m2 → hash_create h = Some ctx →
  RSA_DecryptBlock (Some h) key output max c =
  if decide (Z.of_nat (length c) = k ∧ 10 ≤ k ∧ below_modulus key c = true) then
    let msg := decrypted h key c in
    let n := Nat.min (length msg) (Z.to_nat max) in
    Ok (take n msg ++ drop n output, inl (Z.of_nat n))
  else Ok (output, inr (Some SEC_ERROR_INVALID_ARGS)).
Proof.
  intros k Hbm Hlm Hbc Hmax Hz1 Hz2 Hctx. unfold RSA_DecryptBlock. fold k.
  destruct (Z.eqb_spec (length c) k) as [Hlc|Hlc]; [|rewrite decide_False by tauto; done].
  destruct (Z.ltb_spec k 10) as [Hk10|Hk10]; [rewrite decide_False by lia; done|]. cbn [orb negb].
  destruct (modulus_octets key Hbm Hlm) as (Hk & n & Hrd & Ln & Bn & Hv). fold k in Hk, Hrd, Ln. rewrite Hrd. cbn [mbind res_bind].
  rewrite memcmp_be_val, Hv by (done || lia). unfold below_modulus.
  destruct (Z.compare_spec (be_val c) (be_val (modulus key))) as [E|E|E];
    [rewrite (proj2 (Z.ltb_ge _ _)), decide_False by (lia || naive_solver); done| |
     rewrite (proj2 (Z.ltb_ge _ _)), decide_False by (lia || naive_solver); done].
  rewrite (proj2 (Z.ltb_lt _ _)), decide_True by done.
  pose proof (PORT_ZAlloc_size _ _ Hz1) as Hms. pose proof (PORT_ZAlloc_Ok k m1 ltac:(lia) Hz1) as Em1.
  rewrite (proj2 (Z.eqb_neq k 0)) in Em1 by lia. rewrite Hz1. cbn [mbind res_bind].
  destruct (rsa_GetHMACContext_keyed h key c m2 ctx Hz2 Hctx) as (hmac & -> & Hkd). cbn [mbind res_bind].
  rewrite MAX_SIZE_val in Hms. rewrite wrap_small by lia.
  destruct (rsa_GetErrorLength_ref h _ hmac (k - 10) Hkd ltac:(lia)) as (hmac1 & -> & Hkd1). cbn [mbind res_bind].
  destruct (rsa_HMACPrf_ref h _ hmac1 label_message k Hkd1 ltac:(lia)) as (hmac2 & -> & _). cbn [mbind res_bind].
  destruct (prf_ref_spec h (rsa_prf_key h key c) label_message k ltac:(lia)) as [Bp Lp].
  rewrite mem_write_front by (rewrite Em1, length_replicate; lia). cbn [mbind res_bind].
  rewrite drop_ge, app_nil_r by (rewrite Em1, length_replicate; lia).
  assert (Bm1 : bytes m1) by (rewrite Em1; apply Forall_replicate; unfold is_byte; lia).
  destruct (RSA_PrivateKeyOp_buffer key m1 c Bm1) as [Lop Bop].
  pose proof (error_length_range h (rsa_prf_key h key c) (k - 10) ltac:(lia)) as Hel.
  rewrite (decrypt_select (RSA_PrivateKeyOp key m1 c).2 (prf_ref h (rsa_prf_key h key c) label_message k)
    (error_length h (rsa_prf_key h key c) (k - 10)) k max (RSA_PrivateKeyOp key m1 c).1 output);
    [|done|done|rewrite Lop, Em1, length_replicate; lia|lia|rewrite MAX_SIZE_val; lia|lia|lia].
  unfold decrypted, synthetic. fold k. by rewrite Em1, <- Hlc, Nat2Z.id.
Qed.

(** [C23] RSA_DecryptBlock never reports a malformed block: for every ciphertext
    of the right length below the modulus it succeeds, and returns the message
    of a well-formed block 00 02 PS 00 M and otherwise a message that is a
    function of the private key and the ciphertext alone, cut to the room the
    caller has; only public facts about the arguments make it fail. *)
Theorem DecryptBlock_implicit_rejection (h : SECHashObject hctx) (key : RSAKey) (output c m1 m2 : list Z) (max : Z) (ctx : hctx) :
  let k := rsa_modulusLen (modulus key) in
  bytes (modulus key) → length (modulus key) < 2 ^ 32 → bytes c → 0 ≤ max ≤ length output →
  PORT_ZAlloc k = Ok m1 → PORT_ZAlloc sizeof_HMACContext = Ok m2 → hash_create h = Some ctx →
  RSA_DecryptBlock (Some h) key output max c =
  if decide (Z.of_nat (length c) = k ∧ 10 ≤ k ∧ below_modulus key c = true) then
    let msg := decrypted h key c in
    let n := Nat.min (length msg) (Z.to_nat max) in
    Ok (take n msg ++ drop n output, inl (Z.of_nat n))
  else Ok (output, inr (Some SEC_ERROR_INVALID_ARGS)).
Proof. apply DecryptBlock_total. Qed.
End DecryptTheorem.

(** ** Encryption and decryption together *)

Lemma length_pkcs1_block t PS data : length (pkcs1_block t PS data) = (length PS + length data + 3)%nat.
Proof. unfold pkcs1_block. cbn [length]. rewrite length_app. cbn [length]. lia. Qed.

Lemma pkcs1_block_bytes t PS data : bytes PS → bytes data → bytes (pkcs1_block t PS data).
Proof.
  intros H1 H2. unfold pkcs1_block. repeat apply Forall_cons_2; [done|by destruct t|].
  apply Forall_app. split; [done|]. by apply Forall_cons_2.
Qed.

(** A block starts with a zero octet, so it is below a modulus that uses all of
    its octets. *)
Lemma pkcs1_block_below key t PS data : bytes PS → bytes data →
  Z.of_nat (length (pkcs1_block t PS data)) = rsa_modulusLen (modulus key) →
  256 ^ (rsa_modulusLen (modulus key) - 1) ≤ be_val (modulus key) →
  below_modulus key (pkcs1_block t PS data) = true.
Proof.
  intros H1 H2 Hl Hm. unfold below_modulus. apply Z.ltb_lt. unfold pkcs1_block in *. rewrite be_val_cons.
  assert (Hb : bytes (blockType_octet t :: PS ++ RSA_BLOCK_AFTER_PAD_OCTET :: data)).
  { pose proof (pkcs1_block_bytes t PS data H1 H2) as Hb. by apply Forall_cons_1 in Hb as [_ Hb]. }
  pose proof (be_val_range _ Hb) as HR. cbn [length] in *.
  replace (rsa_modulusLen (modulus key) - 1) with (Z.of_nat (S (length (PS ++ RSA_BLOCK_AFTER_PAD_OCTET :: data)))) in Hm by lia.
  unfold RSA_BLOCK_FIRST_OCTET. lia.
Qed.

Section RoundTrip.
  Context `{heap : NSPRHeap} `{rand : RNG} `{ops : RSAOps} {hctx : Type}.

(** A ciphertext of a well-formed block decrypts to its message. *)
Lemma decrypted_block (h : SECHashObject hctx) key PS msg c : rsa_key_ok key → bytes PS → bytes msg → nonzero PS → (8 ≤ length PS)%nat →
  Z.of_nat (length (pkcs1_block RSA_BlockPublic PS msg)) = rsa_modulusLen (modulus key) →
  below_modulus key (pkcs1_block RSA_BlockPublic PS msg) = true →
  RSA_PublicKeyOp key (pkcs1_block RSA_BlockPublic PS msg) = Ok c →
  decrypted h key c = msg ∧ length c = length (pkcs1_block RSA_BlockPublic PS msg) ∧ bytes c ∧ below_modulus key c = true.
Proof.
  intros Hkey HPS Hmsg Hnz Hlen Hl Hbelow Hop.
  destruct (RSA_PublicKeyOp_block key _ Hkey (pkcs1_block_bytes _ _ _ HPS Hmsg) Hl Hbelow) as (c' & E & Lc & Bc & Hc & Hinv).
  rewrite E in Hop. simplify_eq. split_and!; [|done..]. unfold decrypted.
  destruct (Hinv (replicate (length c) 0)) as [-> _]; [by rewrite length_replicate|]. cbn [fst snd].
  by rewrite (proj2 (pkcs1_parse_Some _ msg)) by (by exists PS).
Qed.

(** If the random generator keeps producing octets other than zero (or
    fails), RSA_EncryptBlock terminates; it then either reports failure with the
    buffer untouched or has stored a ciphertext, and RSA_DecryptBlock turns that
    ciphertext back into the message. *)
Theorem EncryptBlock_round_trip (h : SECHashObject hctx) (key : RSAKey) (msg out1 out2 m1 m2 : list Z) (max1 max2 : Z)
    (g : rng) (ctx : hctx) :
  let k := rsa_modulusLen (modulus key) in
  rsa_key_ok key → bytes (modulus key) → length (modulus key) < 2 ^ 32 → 256 ^ (k - 1) ≤ be_val (modulus key) →
  bytes msg → 11 ≤ k → length msg ≤ k - 11 → k ≤ max1 ≤ length out1 → length msg ≤ max2 ≤ length out2 →
  PORT_ZAlloc k = Ok m1 → PORT_ZAlloc sizeof_HMACContext = Ok m2 → hash_create h = Some ctx →
  (∀ octets g1, RNG_GenerateGlobalRandomBytes g (Z.to_nat (k - 2)) = (Some octets, g1) →
     productive (S (length msg)) (Z.to_nat (k - length msg - 3)) g1) →
  ∃ fuel0 r, (∀ fuel, (fuel0 ≤ fuel)%nat → RSA_EncryptBlock fuel key out1 max1 msg g = Ok (Some r)) ∧
  (r = (out1, inr None) ∨
   r.2 = inl k ∧
   RSA_DecryptBlock (Some h) key out2 max2 (take (Z.to_nat k) r.1) =
   Ok (msg ++ drop (length msg) out2, inl (Z.of_nat (length msg)))).
Proof.
  intros k Hkey Hbm Hlm Hmod Hmsg Hk11 Hfit Hm1 Hm2 Hz1 Hz2 Hctx Hp.
  pose proof (PORT_ZAlloc_size _ _ Hz1) as Hms. rewrite MAX_SIZE_val in Hms.
  destruct (FormatBlock_public_ends k msg g ltac:(lia) ltac:(lia) Hp) as (fuel0 & [b g'] & Hends).
  destruct (FormatBlock_public_safe fuel0 k msg g ltac:(lia) ltac:(lia)) as (r & Er & Hr).
  rewrite Hends in Er by lia. simplify_eq. exists fuel0. unfold RSA_EncryptBlock. fold k. rewrite (proj2 (Z.ltb_ge _ _)) by lia.
  destruct b as [block|]; [|exists (out1, inr None); split; [|by left]; intros fuel Hle; by rewrite Hends by done].
  destruct (Hr block g' eq_refl) as (PS & -> & Hnz & HPS & LPS).
  assert (Lb : Z.of_nat (length (pkcs1_block RSA_BlockPublic PS msg)) = k) by (rewrite length_pkcs1_block; lia).
  assert (Hbelow := pkcs1_block_below key RSA_BlockPublic PS msg HPS Hmsg Lb Hmod).
  destruct (RSA_PublicKeyOp_block key _ Hkey (pkcs1_block_bytes _ _ _ HPS Hmsg) Lb Hbelow) as (c & Ec & _).
  destruct (decrypted_block h key PS msg c Hkey HPS Hmsg Hnz ltac:(lia) Lb Hbelow Ec) as (Hd & Lc & Bc & Hcb).
  exists (c ++ drop (length c) out1, inl k). split.
  - intros fuel Hle. rewrite Hends by done. cbn [mbind res_bind]. unfold encrypt_formatted. rewrite Ec.
    rewrite mem_write_front by lia. done.
  - right. split; [done|]. cbn [fst]. rewrite take_app_length' by lia.
    rewrite (DecryptBlock_total h key out2 c m1 m2 max2 ctx) by (done || lia). fold k.
    rewrite decide_True by (split_and!; [lia|lia|done]). cbn zeta. rewrite Hd, Nat.min_l by lia.
    by rewrite firstn_all.
Qed.
End RoundTrip.

(** ** Signatures *)

Lemma pad_octets_ok_spec n buffer i : (i + n ≤ length buffer)%nat →
  pad_octets_ok n buffer i = Ok (bool_decide (take n (drop i buffer) = replicate n 0xff)).
Proof.
  revert i. induction n as [|n IH]; intros i Hi; [done|]. cbn [pad_octets_ok].
  destruct (lookup_lt_is_Some_2 buffer i) as [b Hx]; [lia|]. rewrite Hx, (drop_S _ _ _ Hx). cbn [take replicate].
  unfold RSA_BLOCK_PRIVATE_PAD_OCTET. destruct (Z.eqb_spec b 255) as [->|Hne]; cbn [negb].
  - rewrite IH by lia. rewrite Nat.add_1_r. f_equal. apply bool_decide_ext. split; [by intros ->|by intros [=]].
  - rewrite bool_decide_eq_false_2; [done|]. by intros [=].
Qed.

(** How the comparisons of RSA_CheckSign cut up a block. *)
Lemma private_block_parts m n data : length m = (n + length data + 3)%nat →
  m = pkcs1_block RSA_BlockPrivate (replicate n 0xff) data ↔
  take 2 m = [0; 1] ∧ take n (drop 2 m) = replicate n 0xff ∧ m !! (n + 2)%nat = Some 0 ∧ drop (n + 3) m = data.
Proof.
  intros Hl. unfold pkcs1_block. split.
  - intros ->. cbn [take drop app]. rewrite take_0. split; [done|].
    rewrite drop_0, take_app_length' by by rewrite length_replicate. split; [done|]. split.
    + replace (n + 2)%nat with (S (S n)) by lia. match goal with |- (_ :: _ :: ?l) !! _ = _ => change (l !! n = Some 0) end.
      rewrite lookup_app_r by (rewrite length_replicate; lia). by rewrite length_replicate, Nat.sub_diag.
    + replace (n + 3)%nat with (S (S (S n))) by lia. match goal with |- drop _ (_ :: _ :: ?l) = _ => change (drop (S n) l = data) end.
      change (RSA_BLOCK_AFTER_PAD_OCTET :: data) with ([RSA_BLOCK_AFTER_PAD_OCTET] ++ data). rewrite app_assoc.
      apply drop_app_length'. rewrite length_app, length_replicate. cbn [length]. lia.
  - intros (H1 & H2 & H3 & H4). rewrite <- (take_drop 2 m), H1. cbn [app]. do 2 f_equal; try done.
    rewrite <- (take_drop n (drop 2 m)), H2, drop_drop. f_equal.
    replace (2 + n)%nat with (n + 2)%nat by lia. rewrite (drop_S _ _ _ H3). unfold RSA_BLOCK_AFTER_PAD_OCTET. f_equal.
    by replace (S (n + 2)) with (n + 3)%nat by lia.
Qed.

Section SignatureLemmas.
  Context `{heap : NSPRHeap} `{rand : RNG} `{ops : RSAOps}.

Lemma CheckSign_decides key sig data :
  let k := rsa_modulusLen (modulus key) in
  Z.of_nat (length sig) = k → 11 ≤ k < 2 ^ 32 - 1 → length data ≤ k - 11 →
  ∃ r, RSA_CheckSign key sig data = Ok r ∧
       (∀ buffer, PORT_Alloc (k + 1) = Ok buffer →
        r = None ↔ RSA_PublicKeyOp key sig = Ok (pkcs1_block RSA_BlockPrivate (replicate (Z.to_nat (k - length data - 3)) 0xff) data)).
Proof.
  intros k Hls Hk Hd. unfold RSA_CheckSign. fold k. rewrite (proj2 (Z.eqb_eq _ _)) by done. cbn [negb].
  change (3 + RSA_BLOCK_MIN_PAD_LEN) with 11. rewrite !wrap_small by lia.
  rewrite Z.gtb_ltb, (proj2 (Z.ltb_ge _ _)) by lia.
  destruct (PORT_Alloc (k + 1)) as [buffer|e|] eqn:Hal; [|by eexists|by apply PORT_Alloc_no_UB in Hal].
  apply PORT_Alloc_Ok in Hal as (Lb & _ & _); [|lia]. rewrite (proj2 (Z.eqb_neq (k + 1) 0)) in Lb by lia.
  destruct (RSA_PublicKeyOp key sig) as [m|e|] eqn:Hop; [| |by apply RSA_PublicKeyOp_total in Hop];
    [|eexists; split; [done|]; intros ? [= <-]; split; [by intros [=]|by intros [=]]].
  apply RSA_PublicKeyOp_length in Hop as [Lm _]. fold k in Lm.
  rewrite mem_write_front by lia. cbn [mbind res_bind]. set (rest := drop (length m) buffer).
  set (n := Z.to_nat (k - length data - 3)). assert (Lmn : length m = (n + length data + 3)%nat) by (unfold n; lia).
  pose proof (private_block_parts m n data Lmn) as Hparts.
  rewrite (mem_read_in _ 0 2) by (rewrite length_app; lia). cbn [mbind res_bind].
  rewrite drop_0, take_app_le by lia. change [RSA_BLOCK_FIRST_OCTET; blockType_octet RSA_BlockPrivate] with [0; 1].
  case_bool_decide as H1; cbn [negb];
    [|eexists; split; [done|]; intros ? _; split; [done|]; intros E%Ok_inj%Hparts; by destruct E].
  rewrite pad_octets_ok_spec by (rewrite length_app; lia). cbn [mbind res_bind].
  replace (Z.to_nat (k - length data - 1 - 2)) with n by (unfold n; lia).
  rewrite drop_app_le, take_app_le by (rewrite ?length_drop; lia).
  case_bool_decide as H2; cbn [negb];
    [|eexists; split; [done|]; intros ? _; split; [done|]; intros E%Ok_inj%Hparts; by destruct E as (_ & E & _)].
  replace (2 `max` Z.to_nat (k - length data - 1))%nat with (n + 2)%nat by (unfold n; lia).
  rewrite lookup_app_l by lia. destruct (lookup_lt_is_Some_2 m (n + 2)) as [b Hb]; [lia|]. rewrite Hb.
  unfold RSA_BLOCK_AFTER_PAD_OCTET. destruct (Z.eqb_spec b 0) as [->|Hne]; cbn [negb].
  2: { eexists; split; [done|]; intros ? _; split; [done|]; intros (_ & _ & E & _)%Ok_inj%Hparts. congruence. }
  replace (Z.to_nat (k - length data)) with (n + 3)%nat by (unfold n; lia).
  rewrite mem_read_in by (rewrite length_app; lia). cbn [mbind res_bind].
  rewrite drop_app_le, take_app_le by (rewrite ?length_drop; lia). rewrite take_ge by (rewrite length_drop; lia).
  eexists. split; [done|]. intros ? _.
  assert (Hc : memcmp (drop (n + 3) m) data = Eq ↔ drop (n + 3) m = data) by (apply memcmp_Eq; rewrite length_drop; lia).
  split.
  - intros E. destruct (memcmp (drop (n + 3) m) data) eqn:EM; try done. f_equal. apply Hparts. split_and!; [done..|by apply Hc].
  - intros (_ & _ & _ & E)%Ok_inj%Hparts. by rewrite (proj2 Hc E).
Qed.

Lemma Sign_spec key output max data g o L :
  let k := rsa_modulusLen (modulus key) in
  rsa_key_ok key → bytes data → bytes output → 11 ≤ k < 2 ^ 32 → length data ≤ k - 11 → 0 ≤ max ≤ length output →
  256 ^ (k - 1) ≤ be_val (modulus key) →
  RSA_Sign key output max data g = Ok (o, inl L) →
  L = k ∧ ∃ sig, length sig = Z.to_nat k ∧ o = sig ++ drop (Z.to_nat k) output ∧
  RSA_PublicKeyOp key sig = Ok (pkcs1_block RSA_BlockPrivate (replicate (Z.to_nat (k - length data - 3)) 0xff) data).
Proof.
  intros k Hkey Hd Hout Hk Hl Hmax Hmod. unfold RSA_Sign. fold k. destruct (Z.ltb_spec max k) as [|Hge]; [done|].
  rewrite FormatBlock_private_spec by done. cbn [mbind res_bind]. destruct (PORT_Alloc k) as [b|e|]; [|done|done].
  set (block := pkcs1_block _ _ _).
  assert (Lb : Z.of_nat (length block) = k) by (unfold block; rewrite length_pkcs1_block, length_replicate; lia).
  assert (HPS : bytes (replicate (Z.to_nat (k - length data - 3)) 0xff)) by (apply Forall_replicate; unfold is_byte; lia).
  assert (Hbb : bytes block) by by apply pkcs1_block_bytes.
  assert (Hbelow : below_modulus key block = true) by by apply pkcs1_block_below.
  destruct (RSA_PrivateKeyOp_block key (take (Z.to_nat k) output) block Hkey Hbb) as (sig & _ & E2 & Ls & Bs & _ & Hpub);
    [by apply Forall_take|rewrite length_take; lia|done|done|].
  rewrite E2. cbn [fst snd]. rewrite mem_write_front by lia. cbn [mbind res_bind rsa_done].
  intros [<- E]%Ok_inj%pair_eq. injection E as <-. split; [done|]. exists sig. split_and!; [lia| |done]. do 2 f_equal. lia.
Qed.

(** [C24] RSA_CheckSign accepts a signature for some data exactly when the public
    operation takes it to the one block 00 01 FF..FF 00 data, whatever the
    octets (it never leaves its buffer), and accepts what RSA_Sign produced. *)
Theorem CheckSign_exact (key : RSAKey) (sig data output buffer : list Z) (max : Z) (g : rng) :
  let k := rsa_modulusLen (modulus key) in
  let block := pkcs1_block RSA_BlockPrivate (replicate (Z.to_nat (k - length data - 3)) 0xff) data in
  rsa_key_ok key → 256 ^ (k - 1) ≤ be_val (modulus key) → 11 ≤ k < 2 ^ 32 - 1 →
  bytes data → length data ≤ k - 11 → bytes output → 0 ≤ max ≤ length output →
  PORT_Alloc (k + 1) = Ok buffer →
  (Z.of_nat (length sig) = k → RSA_CheckSign key sig data ≠ UB ∧
     (RSA_CheckSign key sig data = Ok None ↔ RSA_PublicKeyOp key sig = Ok block)) ∧
  (∀ o L, RSA_Sign key output max data g = Ok (o, inl L) →
     L = k ∧ RSA_CheckSign key (take (Z.to_nat L) o) data = Ok None).
Proof.
  intros k block Hkey Hmod Hk Hd Hl Hout Hmax Hal. split.
  - intros Hs. destruct (CheckSign_decides key sig data Hs ltac:(fold k; lia) ltac:(fold k; lia)) as (r & -> & Hr).
    split; [done|]. specialize (Hr buffer Hal). fold k in Hr. fold block in Hr. rewrite <- Hr. split; [by intros [=]|by intros ->].
  - intros o L HS. destruct (Sign_spec key output max data g o L) as (-> & s & Ls & -> & Hpub); try (done || fold k; lia).
    split; [done|]. rewrite take_app_length' by done.
    destruct (CheckSign_decides key s data) as (r & E & Hr); [fold k; lia..|]. rewrite E. f_equal. by apply (Hr buffer Hal).
Qed.
End SignatureLemmas.

(** ** Evaluations

    A permutation of the numbers below the modulus in place of RSA: x goes to
    -x; and a generator that produces 0 and 1 in turn. *)

Definition toy_neg (key : RSAKey) (m : list Z) : list Z :=
  be_bytes (length m) ((be_val (modulus key) - be_val m) mod be_val (modulus key)).

Definition toy_fits (key : RSAKey) (m : list Z) : bool :=
  (length m =? rsa_modulusLen (modulus key)) && below_modulus key m && (0 <? be_val (modulus key)).

Definition toy_key_ok (key : RSAKey) : Prop := bytes (modulus key) ∧ length (modulus key) < 2 ^ 32.

Lemma toy_neg_spec key m : toy_key_ok key → bytes m → Z.of_nat (length m) = rsa_modulusLen (modulus key) →
  below_modulus key m = true →
  toy_fits key m = true ∧ length (toy_neg key m) = length m ∧ bytes (toy_neg key m) ∧
  below_modulus key (toy_neg key m) = true ∧ toy_neg key (toy_neg key m) = m.
Proof.
  intros [Hb Hl] Hm Hlm Hbelow. pose proof Hbelow as Hlt. unfold below_modulus in Hlt. apply Z.ltb_lt in Hlt.
  pose proof (be_val_range m Hm) as Rm. set (n := be_val (modulus key)) in *.
  assert (Hn : 0 < n < 256 ^ length m + 1).
  { destruct (modulus_octets key Hb Hl) as (_ & o & _ & Lo & Bo & Vo). fold n in Vo.
    pose proof (be_val_range o Bo) as Ro. rewrite Vo in Ro. replace (length o) with (length m) in Ro by lia. lia. }
  pose proof (Z.mod_pos_bound (n - be_val m) n ltac:(lia)) as Rv.
  assert (Lt : length (toy_neg key m) = length m) by apply length_be_bytes.
  assert (Vt : be_val (toy_neg key m) = (n - be_val m) mod n) by (unfold toy_neg; rewrite be_val_be_bytes; apply Z.mod_small; fold n; lia).
  split_and!.
  - unfold toy_fits. rewrite Hbelow. fold n. rewrite (proj2 (Z.eqb_eq _ _)), (proj2 (Z.ltb_lt _ _)) by lia. done.
  - done.
  - apply be_bytes_bytes.
  - unfold below_modulus. apply Z.ltb_lt. fold n. lia.
  - unfold toy_neg at 1. fold n. rewrite Lt, Vt.
    replace ((n - (n - be_val m) mod n) mod n) with (be_val m); [by apply be_bytes_be_val|].
    destruct (decide (be_val m = 0)) as [E|E].
    + rewrite E, Z.sub_0_r, Z.mod_same, Z.sub_0_r, Z.mod_same by lia. done.
    + rewrite (Z.mod_small (n - be_val m)) by lia. replace (n - (n - be_val m)) with (be_val m) by lia. by rewrite Z.mod_small by lia.
Qed.

Definition toy_private (key : RSAKey) (buf c : list Z) : option SECErrorCode * list Z :=
  if (length c =? length buf)%nat && toy_fits key c then (None, toy_neg key c) else (Some SEC_ERROR_INVALID_ARGS, buf).

#[local] Instance toy_rsa : RSAOps.
Proof.
  refine {| RSA_PublicKeyOp key m := if toy_fits key m then Ok (toy_neg key m) else Err SEC_ERROR_INPUT_LEN;
            RSA_PrivateKeyOp := toy_private; RSA_PrivateKeyOpDoubleChecked := toy_private; rsa_key_ok := toy_key_ok |}.
  - intros key m Hk Hm Hl Hb. destruct (toy_neg_spec key m Hk Hm Hl Hb) as (-> & L & B & C & D).
    exists (toy_neg key m). split_and!; [done..|]. intros buf Lb.
    destruct (toy_neg_spec key (toy_neg key m) Hk B ltac:(lia) C) as (F & _). unfold toy_private.
    by rewrite (proj2 (Nat.eqb_eq _ _)), F, D by lia.
  - intros key buf c Hk Hc Hbuf Hlb Hl Hb. destruct (toy_neg_spec key c Hk Hc Hl Hb) as (F & L & B & C & D).
    exists (toy_neg key c). unfold toy_private. rewrite (proj2 (Nat.eqb_eq _ _)), F by lia.
    destruct (toy_neg_spec key (toy_neg key c) Hk B ltac:(lia) C) as (-> & _). rewrite D. by split_and!.
  - intros key m. by destruct (toy_fits key m).
  - intros key m c. destruct (toy_fits key m) eqn:F; [|done]. intros [= <-]. split; [|apply be_bytes_bytes].
    unfold toy_neg. rewrite length_be_bytes. unfold toy_fits in F. apply andb_true_iff in F as [F _].
    apply andb_true_iff in F as [F _]. by apply Z.eqb_eq.
  - intros key buf c Hbuf. unfold toy_private. destruct (Nat.eqb_spec (length c) (length buf)) as [E|]; [|done].
    destruct (toy_fits key c); [|done]. cbn [fst snd andb]. split; [|apply be_bytes_bytes]. unfold toy_neg. by rewrite length_be_bytes.
Defined.

Definition toy_random (g : bool) (n : nat) : list Z := (λ i : nat, if xorb g (Nat.even i) then 1 else 0) <$> seq 0 n.

#[local] Instance toy_rng : RNG.
Proof.
  refine {| rng := bool; RNG_GenerateGlobalRandomBytes g n := (Some (toy_random g n), xorb g (Nat.odd n)) |}.
  intros g n l g' [= <- <-]. unfold toy_random. split; [by rewrite length_fmap, length_seq|].
  apply Forall_fmap, Forall_true. intros i. unfold is_byte. cbn. case_match; lia.
Defined.

Lemma toy_productive k n g : productive (S (S k)) n g.
Proof.
  revert g. induction n as [|n IH]; intros g; [constructor|]. eapply productive_draw; [done| |apply IH].
  unfold toy_random. cbn. rewrite !Forall_cons. destruct g; cbn; lia.
Qed.

Definition demo_rsa : RSAKey := {| modulus := 0 :: replicate 16 0x9d; privateExponent := seqZ 1 7 |}.
Definition demo_msg : list Z := [104; 105; 33].
Definition demo_out : list Z := replicate 20 0xEE.

Lemma demo_rsa_ok : toy_key_ok demo_rsa.
Proof. split; [|done]. apply Forall_cons_2; [done|]. by apply Forall_replicate. Qed.
Lemma demo_msg_bytes : bytes demo_msg.
Proof. repeat apply Forall_cons_2; try done. Qed.
Lemma demo_out_bytes : bytes demo_out.
Proof. by apply Forall_replicate. Qed.

Definition cipher_of (r : mem_res (option (list Z * rsa_status))) : list Z :=
  match r with Ok (Some (o, inl L)) => take (Z.to_nat L) o | _ => [] end.
Definition plain_of (r : mem_res (list Z * rsa_status)) : list Z :=
  match r with Ok (o, inl L) => take (Z.to_nat L) o | _ => [] end.

(** A block with zeros among the random octets, decrypted; and a ciphertext of
    no block at all, which decrypts to something. *)
Example demo_encrypt : plain_of (RSA_DecryptBlock (Some toy_hash) demo_rsa demo_out 20
  (cipher_of (RSA_EncryptBlock 40 demo_rsa demo_out 20 demo_msg false))) = demo_msg.
Proof. vm_compute. reflexivity. Qed.

Example demo_reject : plain_of (RSA_DecryptBlock (Some toy_hash) demo_rsa demo_out 20 (replicate 16 1)) =
  synthetic toy_hash demo_rsa (replicate 16 1).
Proof. vm_compute. reflexivity. Qed.

Example demo_sign : RSA_CheckSign demo_rsa (plain_of (RSA_Sign demo_rsa demo_out 20 demo_msg false)) demo_msg = Ok None.
Proof. vm_compute. reflexivity. Qed.

Lemma DecryptBlock_implicit_rejection_witness :
  ∃ o L, RSA_DecryptBlock (Some toy_hash) demo_rsa demo_out 20 (replicate 16 1) = Ok (o, inl L).
Proof.
  rewrite (DecryptBlock_implicit_rejection toy_hash demo_rsa demo_out (replicate 16 1) (replicate 16 0)
    (replicate (Z.to_nat sizeof_HMACContext) 0) 20 []);
    [|apply demo_rsa_ok|reflexivity|by apply Forall_replicate|done|reflexivity|reflexivity|reflexivity].
  rewrite decide_True by (split_and!; [reflexivity|done|reflexivity]). by eexists _, _.
Defined.

Lemma EncryptBlock_round_trip_witness :
  ∃ fuel0 r, (∀ fuel, (fuel0 ≤ fuel)%nat → RSA_EncryptBlock fuel demo_rsa demo_out 20 demo_msg false = Ok (Some r)) ∧
  (r = (demo_out, inr None) ∨ r.2 = inl 16 ∧
   RSA_DecryptBlock (Some toy_hash) demo_rsa demo_out 20 (take 16 r.1) = Ok (demo_msg ++ drop 3 demo_out, inl 3)).
Proof.
  apply (EncryptBlock_round_trip (rand := toy_rng) toy_hash demo_rsa demo_msg demo_out demo_out (replicate 16 0)
    (replicate (Z.to_nat sizeof_HMACContext) 0) 20 20 false []);
    [apply demo_rsa_ok|apply demo_rsa_ok|reflexivity|vm_compute; discriminate|apply demo_msg_bytes|done..|].
  intros octets g1 _. apply toy_productive.
Defined.

Lemma CheckSign_exact_witness :
  RSA_CheckSign demo_rsa (plain_of (RSA_Sign demo_rsa demo_out 20 demo_msg false)) demo_msg = Ok None.
Proof.
  destruct (CheckSign_exact (rand := toy_rng) demo_rsa [] demo_msg demo_out (replicate 17 0) 20 false) as [_ Hs];
    [apply demo_rsa_ok|vm_compute; discriminate|done|apply demo_msg_bytes|done|apply demo_out_bytes|done|reflexivity|].
  destruct (RSA_Sign (rand := toy_rng) demo_rsa demo_out 20 demo_msg false) as [[o [L|e]]| |] eqn:E; [|vm_compute in E; discriminate..].
  by apply (Hs o L).
Defined.
