(* ===== verification/RsaOaep.v ===== *)
(** lib/freebl/rsapkcs.c: the mask generation function MGF1 and OAEP.

    [OAEP_decode_exact] says that decoding accepts exactly the encodings of
    RFC 3447, [OAEP_round_trip] that RSA_DecryptOAEP inverts RSA_EncryptOAEP. *)

From stdpp Require Import base numbers list.
From S2P Require Import Prelude Port ConstTime Hmac RsaPad.

(** [None] is SECSuccess; [Some e] a failure with the error it sets, if any. *)
Abbreviation sec_status := (option (option SECErrorCode)).

Section OAEP.
  Context `{heap : NSPRHeap} `{rand : RNG} `{ops : RSAOps} {hctx : Type}.
  (** SECRawHashObjects of rawhash.c, by algorithm. *)
  Context (SECRawHashObjects : HASH_HashType → SECHashObject hctx).

Definition HASH_GetRawHashObject (hashType : HASH_HashType) : option (SECHashObject hctx) :=
  match hashType with HASH_AlgNULL => None | _ => Some (SECRawHashObjects hashType) end.

(** ** MGF1 *)

Definition mgf1_counter (counter : Z) : list Z :=
  [Z.land (Z.shiftr counter 24) 0xff; Z.land (Z.shiftr counter 16) 0xff; Z.land (Z.shiftr counter 8) 0xff; Z.land counter 0xff].

(** [for (counter = 0; counter < rounds; counter++)], [n] turns left; the last
    digest goes through a block of its own. *)
Fixpoint mgf1_loop (n : nat) (h : SECHashObject hctx) (c : hctx) (mask : list Z) (maskLen : Z) (mgfSeed : list Z) (counter : Z)
    : mem_res (list Z * bool) :=
  match n with
  | O => Ok (mask, true)
  | S n =>
      let c := hash_update h (hash_update h (hash_begin h c) mgfSeed) (mgf1_counter counter) in
      let r := hash_end h c in
      match n with
      | S _ => mask ← mem_write mask (Z.to_nat (u32 (counter * hash_length h))) r.2;
               mgf1_loop n h r.1 mask maskLen mgfSeed (counter + 1)
      | O => match PORT_Alloc (hash_length h) with
             | UB => UB
             | Err _ => Ok (mask, false)
             | Ok _ => mask ← mem_write mask (Z.to_nat (u32 (counter * hash_length h)))
                                (take (Z.to_nat (u32 (maskLen - u32 (counter * hash_length h)))) r.2);
                       Ok (mask, true)
             end
      end
  end.

(** The mask and whether it was completed; a context that cannot be created is
    used all the same. *)
Definition MGF1 (hashAlg : HASH_HashType) (mask : list Z) (maskLen : Z) (mgfSeed : list Z) : mem_res (list Z * bool) :=
  match HASH_GetRawHashObject hashAlg with
  | None => Ok (mask, false)
  | Some h =>
      match hash_create h with
      | None => UB
      | Some c =>
          let rounds := u32 (maskLen + hash_length h - 1) / hash_length h in
          mgf1_loop (Z.to_nat rounds) h c mask maskLen mgfSeed 0
      end
  end.

(** [for (i = 0; i < n; ++i) m[off + i] ^= mask[i]] *)
Definition xor_at (m : list Z) (off n : nat) (mask : list Z) : mem_res (list Z) :=
  cur ← mem_read m off n;
  msk ← mem_read mask 0 n;
  mem_write m off (xor_octets cur msk).

(** begin, update unless there is nothing, end *)
Definition hash_label (h : SECHashObject hctx) (c : hctx) (label : list Z) : list Z :=
  let c := hash_begin h c in
  (hash_end h (if length label >? 0 then hash_update h c label else c)).2.

(** ** Constant-time comparisons *)

Definition constantTimeEQ8 (a b : Z) : Z := Z.shiftr (u8 (Z.lnot (Z.lor (a - b) (b - a)))) 7.

Definition constantTimeCompare (a b : list Z) : Z :=
  constantTimeEQ8 0x00 (fold_left (λ tmp xy, u8 (Z.lor tmp (Z.lxor xy.1 xy.2))) (zip a b) 0).

Definition constantTimeCondition (c a b : Z) : Z :=
  Z.lor (Z.land (u32 (Z.lnot (u32 (c - 1)))) a) (Z.land (u32 (c - 1)) b).

(** ** Encoding *)

Definition eme_oaep_encode (em : list Z) (emLen : Z) (input : list Z) (hashAlg maskHashAlg : HASH_HashType) (label : list Z)
    (seed : option (list Z)) (g : rng) : mem_res (list Z * sec_status) :=
  match HASH_GetRawHashObject hashAlg with
  | None => UB
  | Some h =>
      let hLen := hash_length h in
      let reservedLen := u32 (2 * hLen + 2) in
      if (emLen <? reservedLen) || (length input >? emLen - reservedLen)
      then Ok (em, Some (Some SEC_ERROR_INPUT_LEN))
      else
        em ← mem_write em 0 [0x00];
        match hash_create h with
        | None => Ok (em, Some (Some SEC_ERROR_NO_MEMORY))
        | Some c =>
            em ← mem_write em (Z.to_nat (1 + hLen)) (hash_label h c label);
            em ← mem_write em (Z.to_nat (1 + 2 * hLen)) (replicate (Z.to_nat (emLen - reservedLen - length input)) 0x00);
            em ← mem_write em (Z.to_nat (emLen - length input - 1)) [0x01];
            em ← mem_write em (Z.to_nat (emLen - length input)) input;
            let s := match seed with
                     | None => (RNG_GenerateGlobalRandomBytes g (Z.to_nat hLen)).1
                     | Some s => Some s
                     end in
            match s with
            | None => Ok (em, Some None)
            | Some s =>
                em ← mem_write em 1 s;
                let dbMaskLen := emLen - hLen - 1 in
                match PORT_Alloc dbMaskLen with
                | UB => UB
                | Err _ => Ok (em, Some (Some SEC_ERROR_NO_MEMORY))
                | Ok mask =>
                    src ← mem_read em 1 (Z.to_nat hLen);
                    '(mask, _) ← MGF1 maskHashAlg mask dbMaskLen src;
                    em ← xor_at em (Z.to_nat (1 + hLen)) (Z.to_nat dbMaskLen) mask;
                    src ← mem_read em (Z.to_nat (1 + hLen)) (Z.to_nat dbMaskLen);
                    '(mask, _) ← MGF1 maskHashAlg mask hLen src;
                    em ← xor_at em 1 (Z.to_nat hLen) mask;
                    Ok (em, None)
                end
            end
        end
  end.

(** ** Decoding *)

(** The body of [for (i = 1 + (hash->length * 2); i < inputLen; ++i)]: the new
    paddingOffset, foundPaddingEnd and isGood. *)
Definition oaep_step (b i : Z) (st : Z * Z * Z) : Z * Z * Z :=
  let '(paddingOffset, foundPaddingEnd, isGood) := st in
  let isZero := constantTimeEQ8 0x00 b in
  let isOne := constantTimeEQ8 0x01 b in
  let paddingOffset := constantTimeCondition (u32 (Z.land isOne (Z.lnot foundPaddingEnd))) i paddingOffset in
  let foundPaddingEnd := u8 (constantTimeCondition isOne 1 foundPaddingEnd) in
  let isGood := u8 (constantTimeCondition (u32 (Z.land (Z.lnot foundPaddingEnd) (Z.lnot isZero))) 0 isGood) in
  (paddingOffset, foundPaddingEnd, isGood).

(** The loop over the octets from [i] on. *)
Fixpoint oaep_scan (l : list Z) (i : Z) (st : Z * Z * Z) : Z * Z * Z :=
  match l with
  | [] => st
  | b :: l => oaep_scan l (i + 1) (oaep_step b i st)
  end.

Definition eme_oaep_decode (output : list Z) (maxOutputLen : Z) (input : list Z) (hashAlg maskHashAlg : HASH_HashType)
    (label : list Z) : mem_res (list Z * rsa_status) :=
  let inputLen := Z.of_nat (length input) in
  match HASH_GetRawHashObject hashAlg with
  | None => UB
  | Some h =>
      let hLen := hash_length h in
      if inputLen <? u32 (hLen * 2 + 2) then Ok (output, inr (Some SEC_ERROR_INPUT_LEN)) else
      match hash_create h with
      | None => Ok (output, inr (Some SEC_ERROR_NO_MEMORY))
      | Some c =>
          let labelHash := hash_label h c label in
          let maskLen := inputLen - hLen - 1 in
          match PORT_Alloc inputLen, PORT_Alloc maskLen with
          | Ok tmpOutput, Ok mask =>
              tmpOutput ← mem_write tmpOutput 0 input;
              src ← mem_read tmpOutput (Z.to_nat (1 + hLen)) (Z.to_nat (inputLen - hLen - 1));
              '(mask, _) ← MGF1 maskHashAlg mask hLen src;
              tmpOutput ← xor_at tmpOutput 1 (Z.to_nat hLen) mask;
              src ← mem_read tmpOutput 1 (Z.to_nat hLen);
              '(mask, _) ← MGF1 maskHashAlg mask maskLen src;
              tmpOutput ← xor_at tmpOutput (Z.to_nat (1 + hLen)) (Z.to_nat maskLen) mask;
              Y ← mem_read tmpOutput 0 1;
              lHash ← mem_read tmpOutput (Z.to_nat (1 + hLen)) (Z.to_nat hLen);
              rest ← mem_read tmpOutput (Z.to_nat (1 + hLen * 2)) (Z.to_nat (inputLen - (1 + hLen * 2)));
              let isGood := Z.land 1 (constantTimeEQ8 0x00 (Y !!! 0%nat)) in
              let isGood := Z.land isGood (constantTimeCompare labelHash lHash) in
              let '(paddingOffset, foundPaddingEnd, isGood) := oaep_scan rest (1 + hLen * 2) (0, 0, isGood) in
              if Z.land isGood foundPaddingEnd =? 0 then Ok (output, inr (Some SEC_ERROR_BAD_DATA)) else
              let paddingOffset := u32 (paddingOffset + 1) in
              let outputLen := u32 (inputLen - paddingOffset) in
              if outputLen >? maxOutputLen then Ok (output, inr (Some SEC_ERROR_OUTPUT_LEN)) else
              src ← mem_read tmpOutput (Z.to_nat paddingOffset) (Z.to_nat outputLen);
              output ← mem_write output 0 src;
              Ok (output, inl outputLen)
          | UB, _ => UB
          | _, UB => UB
          | _, _ => Ok (output, inr (Some SEC_ERROR_NO_MEMORY))
          end
      end
  end.

(** ** Encryption and decryption *)

(** [label] is NULL or octets, [PartialVerify] what RSA_PartialVerify says of
    the key. *)
Definition label_ok (label : option (list Z)) : bool :=
  match label with None => true | Some l => negb (length l =? 0) end.

Definition RSA_EncryptOAEP (PartialVerify : RSAKey → option SECErrorCode) (key : RSAKey) (hashAlg maskHashAlg : HASH_HashType)
    (label seed : option (list Z)) (output : list Z) (maxOutputLen : Z) (input : list Z) (g : rng)
    : mem_res (list Z * rsa_status) :=
  let modulusLen := rsa_modulusLen (modulus key) in
  if maxOutputLen <? modulusLen then Ok (output, inr (Some SEC_ERROR_OUTPUT_LEN))
  else if bool_decide (hashAlg = HASH_AlgNULL) || bool_decide (maskHashAlg = HASH_AlgNULL)
  then Ok (output, inr (Some SEC_ERROR_INVALID_ALGORITHM))
  else if negb (label_ok label) then Ok (output, inr (Some SEC_ERROR_INVALID_ALGORITHM))
  else match PartialVerify key with
       | Some e => Ok (output, inr (Some e))
       | None =>
           match PORT_Alloc modulusLen with
           | UB => UB
           | Err _ => Ok (output, inr (Some SEC_ERROR_NO_MEMORY))
           | Ok oaepEncoded =>
               '(em, rv) ← eme_oaep_encode oaepEncoded modulusLen input hashAlg maskHashAlg (default [] label) seed g;
               match rv with
               | Some e => Ok (output, inr e)
               | None => encrypt_formatted key output em
               end
           end
       end.

Definition RSA_DecryptOAEP (key : RSAKey) (hashAlg maskHashAlg : HASH_HashType) (label : option (list Z)) (output : list Z)
    (maxOutputLen : Z) (input : list Z) : mem_res (list Z * rsa_status) :=
  let modulusLen := rsa_modulusLen (modulus key) in
  if bool_decide (hashAlg = HASH_AlgNULL) || bool_decide (maskHashAlg = HASH_AlgNULL)
  then Ok (output, inr (Some SEC_ERROR_INVALID_ALGORITHM))
  else if negb (length input =? modulusLen) then Ok (output, inr (Some SEC_ERROR_INPUT_LEN))
  else if negb (label_ok label) then Ok (output, inr (Some SEC_ERROR_INVALID_ALGORITHM))
  else match PORT_Alloc modulusLen with
       | UB => UB
       | Err _ => Ok (output, inr (Some SEC_ERROR_NO_MEMORY))
       | Ok oaepEncoded =>
           let op := RSA_PrivateKeyOpDoubleChecked key oaepEncoded input in
           match op.1 with
           | Some e => Ok (output, inr (Some e))
           | None => eme_oaep_decode output maxOutputLen op.2 hashAlg maskHashAlg (default [] label)
           end
       end.
End OAEP.

(** ** Comparisons and conditions *)

Abbreviation b2z := Z.b2z.

Lemma EQ8_spec a b : is_byte a → is_byte b → constantTimeEQ8 a b = b2z (a =? b).
Proof.
  assert (Hall : forallb (λ a, forallb (λ b, constantTimeEQ8 a b =? b2z (a =? b)) (seqZ 0 256)) (seqZ 0 256) = true)
    by (vm_compute; reflexivity).
  intros Ha Hb. unfold is_byte in *. rewrite forallb_forall in Hall.
  assert (Hin : ∀ x, 0 ≤ x < 256 → In x (seqZ 0 256)) by (intros x Hx; apply list_elem_of_In, elem_of_seqZ; lia).
  specialize (Hall a (Hin a Ha)). rewrite forallb_forall in Hall. by apply Z.eqb_eq, Hall, Hin.
Qed.

Lemma Condition_bit c a b : 0 ≤ a < 2 ^ 32 → 0 ≤ b < 2 ^ 32 → constantTimeCondition (b2z c) a b = if c then a else b.
Proof.
  intros Ha Hb. unfold constantTimeCondition.
  assert (Hm : ∀ x, 0 ≤ x < 2 ^ 32 → Z.land (2 ^ 32 - 1) x = x).
  { intros x Hx. rewrite Z.land_comm, land_ones_mod by lia. by apply Z.mod_small. }
  destruct c; cbn [b2z].
  - change (u32 (1 - 1)) with 0. change (u32 (Z.lnot 0)) with (2 ^ 32 - 1). rewrite Hm, Z.land_0_l by done. apply Z.lor_0_r.
  - change (u32 (0 - 1)) with (2 ^ 32 - 1). change (u32 (Z.lnot (2 ^ 32 - 1))) with 0. by rewrite Hm, Z.land_0_l by done.
Qed.

(** The condition that clears isGood is neither 0 nor 1, and still selects. *)
Lemma Condition_clear f z g :
  u8 (constantTimeCondition (u32 (Z.land (Z.lnot (b2z f)) (Z.lnot (b2z z)))) 0 (b2z g)) = b2z (g && (f || z)).
Proof. by destruct f, z, g. Qed.

Lemma compare_fold a b t : bytes a → bytes b → length a = length b → is_byte t →
  let r := fold_left (λ tmp xy, u8 (Z.lor tmp (Z.lxor xy.1 xy.2))) (zip a b) t in
  is_byte r ∧ (r = 0 ↔ t = 0 ∧ a = b).
Proof.
  intros Ha. revert b t. induction Ha as [|x a Hx Ha IH]; intros [|y b] t Hb Hl Ht; [cbn; tauto|done|done|].
  apply Forall_cons_1 in Hb as [Hy Hb]. injection Hl as Hl. cbn [zip zip_with fold_left fst snd]. unfold is_byte in *.
  pose proof (lxor_range x y 8 ltac:(lia) ltac:(lia) ltac:(lia)) as Rx.
  pose proof (lor_range t (Z.lxor x y) 8 ltac:(lia) ltac:(lia) ltac:(lia)) as Ro.
  rewrite (wrap_small 8) by done. destruct (IH b (Z.lor t (Z.lxor x y)) Hb Hl ltac:(lia)) as [H1 H2]. split; [done|].
  rewrite H2, Z.lor_eq_0_iff, Z.lxor_eq_0_iff. split; [by intros [[-> ->] ->]|by intros [-> [= -> ->]]].
Qed.

Lemma Compare_spec a b : bytes a → bytes b → length a = length b → constantTimeCompare a b = b2z (bool_decide (a = b)).
Proof.
  intros Ha Hb Hl. unfold constantTimeCompare.
  destruct (compare_fold a b 0 Ha Hb Hl ltac:(unfold is_byte; lia)) as [H1 H2]. rewrite EQ8_spec by (done || unfold is_byte; lia).
  f_equal. case_bool_decide as E; [apply Z.eqb_eq; symmetry; tauto|]. apply Z.eqb_neq. intros E0. symmetry in E0. tauto.
Qed.

(** ** The scan of the padding *)

Lemma step_spec b i off f g : is_byte b → 0 ≤ i < 2 ^ 32 → 0 ≤ off < 2 ^ 32 →
  oaep_step b i (off, b2z f, b2z g) =
  (if (b =? 1) && negb f then i else off, b2z ((b =? 1) || f), b2z (g && ((b =? 1) || f || (b =? 0)))).
Proof.
  intros Hb Hi Ho.
  assert (H0 : constantTimeEQ8 0x00 b = b2z (b =? 0)) by (rewrite EQ8_spec, Z.eqb_sym by (done || unfold is_byte; lia); done).
  assert (H1 : constantTimeEQ8 0x01 b = b2z (b =? 1)) by (rewrite EQ8_spec, Z.eqb_sym by (done || unfold is_byte; lia); done).
  assert (H2 : u8 (constantTimeCondition (b2z (b =? 1)) 1 (b2z f)) = b2z ((b =? 1) || f)) by by destruct (b =? 1), f.
  assert (H3 : u32 (Z.land (b2z (b =? 1)) (Z.lnot (b2z f))) = b2z ((b =? 1) && negb f)) by by destruct (b =? 1), f.
  unfold oaep_step. rewrite H0, H1, H2, H3, Condition_clear, Condition_bit by done. done.
Qed.

Lemma scan_cons b l i st : oaep_scan (b :: l) i st = oaep_scan l (i + 1) (oaep_step b i st).
Proof. reflexivity. Qed.

Lemma scan_step b l i off f g : is_byte b → 0 ≤ i < 2 ^ 32 → 0 ≤ off < 2 ^ 32 →
  oaep_scan (b :: l) i (off, b2z f, b2z g) =
  oaep_scan l (i + 1) (if (b =? 1) && negb f then i else off, b2z ((b =? 1) || f), b2z (g && ((b =? 1) || f || (b =? 0)))).
Proof. intros Hb Hi Ho. rewrite scan_cons. by rewrite step_spec. Qed.

Lemma scan_found l i off g : bytes l → 0 ≤ i → i + length l < 2 ^ 32 → 0 ≤ off < 2 ^ 32 →
  oaep_scan l i (off, b2z true, b2z g) = (off, 1, b2z g).
Proof.
  intros Hb. revert i. induction Hb as [|b l Hb Hl IH]; intros i Hi Hn Ho; [done|]. cbn [length] in Hn.
  rewrite scan_step by (done || lia). rewrite andb_false_r, !orb_true_r, andb_true_r. apply IH; lia.
Qed.

Lemma scan_bad l i off f : bytes l → 0 ≤ i → i + length l < 2 ^ 32 → 0 ≤ off < 2 ^ 32 →
  ∃ off' f', oaep_scan l i (off, b2z f, b2z false) = (off', f', 0).
Proof.
  intros Hb. revert i off f. induction Hb as [|b l Hb Hl IH]; intros i off f Hi Hn Ho; [by eexists _, _|]. cbn [length] in Hn.
  rewrite scan_step by (done || lia). apply IH; [lia|lia|]. destruct (_ && _); lia.
Qed.

(** Zeros and then a one are accepted, nothing else. *)
Lemma scan_spec l i off g : bytes l → 0 ≤ i → i + length l < 2 ^ 32 → 0 ≤ off < 2 ^ 32 →
  (∃ n msg, l = replicate n 0 ++ 1 :: msg ∧ oaep_scan l i (off, b2z false, b2z g) = (i + Z.of_nat n, 1, b2z g)) ∨
  ((∀ n msg, l ≠ replicate n 0 ++ 1 :: msg) ∧
   ∃ off' f' g', oaep_scan l i (off, b2z false, b2z g) = (off', f', g') ∧ (g' = 0 ∨ f' = 0)).
Proof.
  intros Hb. revert i. induction Hb as [|b l Hb Hl IH]; intros i Hi Hn Ho.
  { right. split; [by intros [|n] msg|]. exists off, 0, (b2z g). split; [done|by right]. }
  cbn [length] in Hn. rewrite scan_step by (done || lia). destruct (Z.eqb_spec b 1) as [->|Hn1]; cbn [andb orb negb].
  - left. exists 0%nat, l. split; [done|]. rewrite andb_true_r, scan_found by (done || lia). do 2 f_equal. lia.
  - destruct (Z.eqb_spec b 0) as [->|Hn0].
    + rewrite andb_true_r. destruct (IH (i + 1) ltac:(lia) ltac:(lia) Ho) as [(n & msg & -> & E)|[Hno E]].
      * left. exists (S n), msg. split; [done|]. rewrite E. do 2 f_equal. lia.
      * right. split; [|done]. intros [|n] msg; [done|]. cbn [replicate app]. intros [= E1]. by apply (Hno n msg).
    + right. split.
      * intros [|n] msg; cbn [replicate app]; intros [=]; done.
      * rewrite andb_false_r. destruct (scan_bad l (i + 1) off false Hl ltac:(lia) ltac:(lia) Ho) as (off' & f' & E).
        exists off', f', 0. split; [done|by left].
Qed.

(** ** MGF1 as RFC 3447 defines it *)

Section MGF.
  Context {hctx : Type}.

Fixpoint mgf1_stream (n : nat) (h : SECHashObject hctx) (seed : list Z) (i : Z) : list Z :=
  match n with
  | O => []
  | S n => digest h (seed ++ be_bytes 4 i) ++ mgf1_stream n h seed (i + 1)
  end.

Definition mgf1_ref (h : SECHashObject hctx) (seed : list Z) (len : nat) : list Z := take len (mgf1_stream len h seed 0).

Lemma mgf1_counter_be i : 0 ≤ i < 2 ^ 32 → mgf1_counter i = be_bytes 4 i.
Proof.
  intros Hi. unfold mgf1_counter. change 0xff with (2 ^ 8 - 1). rewrite !land_ones_mod, !Z.shiftr_div_pow2 by lia.
  cbn [be_bytes app]. rewrite !Z.div_div by lia. done.
Qed.

Lemma mgf1_stream_spec n (h : SECHashObject hctx) seed i :
  length (mgf1_stream n h seed i) = (n * Z.to_nat (hash_length h))%nat ∧ bytes (mgf1_stream n h seed i).
Proof.
  revert i. induction n as [|n IH]; intros i; cbn [mgf1_stream]; [by split; [|apply Forall_nil_2]|].
  destruct (IH (i + 1)) as [H1 H2]. rewrite length_app, H1. pose proof (digest_length h (seed ++ be_bytes 4 i)).
  split; [lia|]. apply Forall_app. split; [apply digest_bytes|done].
Qed.

Lemma mgf1_stream_more n m (h : SECHashObject hctx) seed i len : (n ≤ m)%nat → (len ≤ n * Z.to_nat (hash_length h))%nat →
  take len (mgf1_stream n h seed i) = take len (mgf1_stream m h seed i).
Proof.
  revert m i len. induction n as [|n IH]; intros m i len Hm Hl.
  { assert (len = 0%nat) as -> by lia. by rewrite !take_0. }
  destruct m as [|m]; [lia|]. cbn [mgf1_stream]. pose proof (digest_length h (seed ++ be_bytes 4 i)) as Hd.
  destruct (decide (len ≤ length (digest h (seed ++ be_bytes 4 i)))%nat).
  - by rewrite !take_app_le by done.
  - rewrite !take_app_ge by lia. f_equal. apply IH; lia.
Qed.

Lemma mgf1_ref_spec (h : SECHashObject hctx) seed len : length (mgf1_ref h seed len) = len ∧ bytes (mgf1_ref h seed len).
Proof.
  unfold mgf1_ref. destruct (mgf1_stream_spec len h seed 0) as [H1 H2]. destruct (hash_sizes h) as [Hh _].
  split; [rewrite length_take, H1; nia|by apply Forall_take].
Qed.

Lemma mgf1_loop_spec `{heap : NSPRHeap} n (h : SECHashObject hctx) c pre rest maskLen seed i b :
  Z.of_nat (length pre) = i * hash_length h → 0 ≤ i → 0 ≤ maskLen < 2 ^ 32 → (1 ≤ n)%nat →
  (n - 1) * hash_length h < maskLen - i * hash_length h ≤ n * hash_length h →
  maskLen - i * hash_length h ≤ length rest → PORT_Alloc (hash_length h) = Ok b →
  let left := Z.to_nat (maskLen - i * hash_length h) in
  mgf1_loop n h c (pre ++ rest) maskLen seed i = Ok (pre ++ take left (mgf1_stream n h seed i) ++ drop left rest, true).
Proof.
  intros Hp Hi Hm Hn Hr Hl Hal. destruct (hash_sizes h) as [Hh _].
  revert c pre rest i Hp Hi Hr Hl. induction n as [|n IH]; intros c pre rest i Hp Hi Hr Hl; [lia|].
  cbn [mgf1_loop mgf1_stream]. rewrite mgf1_counter_be by nia. rewrite (wrap_small 32 (i * hash_length h)) by nia.
  pose proof (hash_end_digest h c [seed; be_bytes 4 i]) as Hd. cbn [fold_left concat] in Hd. rewrite app_nil_r in Hd.
  rewrite Hd. pose proof (digest_length h (seed ++ be_bytes 4 i)) as Ld. pose proof (digest_bytes h (seed ++ be_bytes 4 i)) as Bd.
  set (D := digest h (seed ++ be_bytes 4 i)) in *. destruct n as [|n].
  - rewrite Hal. rewrite (wrap_small 32) by nia. cbn [mgf1_stream]. rewrite app_nil_r.
    rewrite mem_write_mid by (rewrite ?length_take; lia). cbn [mbind res_bind].
    rewrite length_take, Nat.min_l by lia. done.
  - rewrite mem_write_mid by (rewrite ?Ld; nia). cbn [mbind res_bind]. rewrite app_assoc.
    rewrite IH; [|lia|rewrite length_app; nia|lia|nia|rewrite length_drop; nia].
    rewrite <- app_assoc. do 3 f_equal.
    rewrite (take_app_ge D) by nia. rewrite <- app_assoc, drop_drop. do 2 f_equal; [f_equal; nia|]. f_equal. nia.
Qed.

Lemma MGF1_spec `{heap : NSPRHeap} (tbl : HASH_HashType → SECHashObject hctx) alg mask maskLen seed c b :
  alg ≠ HASH_AlgNULL → 0 < maskLen ≤ length mask → maskLen < 2 ^ 31 →
  hash_create (tbl alg) = Some c → PORT_Alloc (hash_length (tbl alg)) = Ok b →
  MGF1 tbl alg mask maskLen seed = Ok (mgf1_ref (tbl alg) seed (Z.to_nat maskLen) ++ drop (Z.to_nat maskLen) mask, true).
Proof.
  intros Hnull Hm Hsm Hc Hal. unfold MGF1.
  assert (Hg : HASH_GetRawHashObject tbl alg = Some (tbl alg)) by by destruct alg.
  rewrite Hg, Hc. set (h := tbl alg) in *. destruct (hash_sizes h) as [[Hh Hh2] _]. unfold HASH_LENGTH_MAX in Hh2.
  rewrite wrap_small by lia. set (n := Z.to_nat ((maskLen + hash_length h - 1) / hash_length h)).
  assert (Hn : (n - 1) * hash_length h < maskLen ≤ n * hash_length h ∧ (1 ≤ n)%nat).
  { pose proof (Z.div_mod (maskLen + hash_length h - 1) (hash_length h) ltac:(lia)) as Hd.
    pose proof (Z.mod_pos_bound (maskLen + hash_length h - 1) (hash_length h) ltac:(lia)) as Hb.
    assert (0 < (maskLen + hash_length h - 1) / hash_length h) by (apply Z.div_str_pos; lia).
    unfold n. rewrite Z2Nat.id by lia. split; [nia|lia]. }
  destruct Hn as [Hn1 Hn2].
  pose proof (mgf1_loop_spec n h c [] mask maskLen seed 0 b) as Hl. cbn zeta in Hl. rewrite Z.mul_0_l, Z.sub_0_r in Hl.
  cbn [app length] in Hl. rewrite Hl by (done || lia). unfold mgf1_ref. do 3 f_equal.
  apply mgf1_stream_more; nia.
Qed.
End MGF.

(** ** Encodings of RFC 3447 *)

Section Reference.
  Context {hctx : Type}.

(** DB = lHash || PS || 01 || M *)
Definition oaep_db (h : SECHashObject hctx) (label msg : list Z) (emLen : nat) : list Z :=
  digest h label ++ replicate (emLen - 2 * Z.to_nat (hash_length h) - 2 - length msg) 0 ++ 1 :: msg.

(** EM = 00 || maskedSeed || maskedDB *)
Definition oaep_em (h mh : SECHashObject hctx) (label seed msg : list Z) (emLen : nat) : list Z :=
  let db := oaep_db h label msg emLen in
  let maskedDB := xor_octets db (mgf1_ref mh seed (length db)) in
  let maskedSeed := xor_octets seed (mgf1_ref mh maskedDB (Z.to_nat (hash_length h))) in
  0 :: maskedSeed ++ maskedDB.

(** Y, the seed and DB of a block. *)
Definition oaep_open (h mh : SECHashObject hctx) (em : list Z) : list Z * list Z * list Z :=
  let hl := Z.to_nat (hash_length h) in
  let maskedSeed := take hl (drop 1 em) in
  let maskedDB := drop (1 + hl) em in
  let seed := xor_octets maskedSeed (mgf1_ref mh maskedDB hl) in
  (take 1 em, seed, xor_octets maskedDB (mgf1_ref mh seed (length maskedDB))).

Lemma length_oaep_db (h : SECHashObject hctx) label msg emLen : (2 * Z.to_nat (hash_length h) + 2 + length msg ≤ emLen)%nat →
  length (oaep_db h label msg emLen) = (emLen - Z.to_nat (hash_length h) - 1)%nat.
Proof.
  intros Hl. unfold oaep_db. rewrite !length_app, length_replicate. cbn [length]. pose proof (digest_length h label). lia.
Qed.

Lemma oaep_db_bytes (h : SECHashObject hctx) label msg emLen : bytes msg → bytes (oaep_db h label msg emLen).
Proof.
  intros Hm. unfold oaep_db. repeat (apply Forall_app; split); [apply digest_bytes|apply Forall_replicate; unfold is_byte; lia|].
  by apply Forall_cons_2; [unfold is_byte; lia|].
Qed.

Lemma oaep_em_open (h mh : SECHashObject hctx) label seed msg emLen :
  length seed = Z.to_nat (hash_length h) → (2 * Z.to_nat (hash_length h) + 2 + length msg ≤ emLen)%nat →
  length (oaep_em h mh label seed msg emLen) = emLen ∧
  oaep_open h mh (oaep_em h mh label seed msg emLen) = ([0], seed, oaep_db h label msg emLen).
Proof.
  intros Hs Hl. set (db := oaep_db h label msg emLen). pose proof (length_oaep_db h label msg emLen Hl) as Ld. fold db in Ld.
  unfold oaep_em, oaep_open. fold db. set (mdb := xor_octets db (mgf1_ref mh seed (length db))).
  assert (Lm : length mdb = length db) by (apply length_xor; by rewrite (proj1 (mgf1_ref_spec mh seed (length db)))).
  set (hl := Z.to_nat (hash_length h)) in *.
  assert (Lms : length (xor_octets seed (mgf1_ref mh mdb hl)) = hl)
    by (rewrite length_xor; [done|]; by rewrite (proj1 (mgf1_ref_spec mh mdb hl))).
  assert (E1 : take hl (drop 1 (0 :: xor_octets seed (mgf1_ref mh mdb hl) ++ mdb)) = xor_octets seed (mgf1_ref mh mdb hl))
    by (change (drop 1 (0 :: ?l)) with (drop 0 l); rewrite drop_0; by apply take_app_length').
  assert (E2 : drop (1 + hl) (0 :: xor_octets seed (mgf1_ref mh mdb hl) ++ mdb) = mdb)
    by (change (drop (1 + hl) (0 :: ?l)) with (drop hl l); by apply drop_app_length').
  split; [cbn [length]; rewrite length_app; lia|]. rewrite E1, E2.
  rewrite (xor_cancel seed) by by rewrite (proj1 (mgf1_ref_spec mh mdb hl)). rewrite Lm.
  assert (Hx : xor_octets mdb (mgf1_ref mh seed (length db)) = db)
    by (apply xor_cancel; by rewrite (proj1 (mgf1_ref_spec mh seed (length db)))).
  by rewrite Hx.
Qed.

Lemma oaep_open_em (h mh : SECHashObject hctx) label em seed msg : bytes em → (1 + Z.to_nat (hash_length h) ≤ length em)%nat →
  oaep_open h mh em = ([0], seed, oaep_db h label msg (length em)) →
  em = oaep_em h mh label seed msg (length em) ∧ length seed = Z.to_nat (hash_length h) ∧ bytes seed.
Proof.
  intros Hb Hl. unfold oaep_open, oaep_em. set (hl := Z.to_nat (hash_length h)) in *. set (db := oaep_db h label msg (length em)).
  set (ms := take hl (drop 1 em)). set (mdb := drop (1 + hl) em). intros [[E1 E2]%pair_eq E3]%pair_eq.
  assert (Lms : length ms = hl) by (unfold ms; rewrite length_take, length_drop; lia).
  destruct (mgf1_ref_spec mh mdb hl) as [Lg Bg]. destruct (mgf1_ref_spec mh seed (length mdb)) as [Lg2 _]. rewrite E2 in E3.
  assert (Ldb : length db = length mdb) by (rewrite <- E3; by rewrite length_xor).
  assert (Hmdb : xor_octets db (mgf1_ref mh seed (length db)) = mdb) by (rewrite Ldb, <- E3; by apply xor_cancel).
  assert (Hms : xor_octets seed (mgf1_ref mh mdb hl) = ms) by (rewrite <- E2; apply xor_cancel; congruence).
  split_and!.
  - rewrite Hmdb, Hms. rewrite <- (take_drop 1 em) at 1. rewrite E1. cbn [app]. f_equal.
    rewrite <- (take_drop hl (drop 1 em)) at 1. fold ms. by rewrite drop_drop.
  - rewrite <- E2, length_xor by congruence. done.
  - rewrite <- E2. apply xor_bytes; [by apply Forall_take, Forall_drop|done].
Qed.
End Reference.

(** Changing a segment in place. *)
Lemma xor_at_mid a b c mask off n : off = length a → n = length b → (n ≤ length mask)%nat →
  xor_at (a ++ b ++ c) off n mask = Ok (a ++ xor_octets b (take n mask) ++ c).
Proof.
  intros -> -> Hm. unfold xor_at. rewrite (mem_read_in (a ++ b ++ c)) by (rewrite !length_app; lia).
  rewrite drop_app_length, take_app_length. cbn [mbind res_bind].
  rewrite mem_read_in by lia. cbn [mbind res_bind]. rewrite drop_0.
  assert (Lx : length (xor_octets b (take (length b) mask)) = length b) by (apply length_xor; rewrite length_take; lia).
  rewrite mem_write_mid by (rewrite ?length_app; lia). by rewrite Lx, drop_app_length.
Qed.

(** Replacing a segment. *)
Lemma mem_write_seg {E} (m a b c src : list Z) off : m = a ++ b ++ c → off = length a → length src = length b →
  mem_write (E:=E) m off src = Ok (a ++ src ++ c).
Proof. intros -> -> Hl. rewrite mem_write_mid by (rewrite ?length_app; lia). by rewrite Hl, drop_app_length. Qed.

Lemma split_at {A} (l : list A) a b : length l = (a + b)%nat → ∃ l1 l2, l = l1 ++ l2 ∧ length l1 = a ∧ length l2 = b.
Proof. intros Hl. exists (take a l), (drop a l). rewrite take_drop, length_take, length_drop. split_and!; [done|lia|lia]. Qed.

Section Exact.
  Context `{heap : NSPRHeap} `{rand : RNG} `{ops : RSAOps} {hctx : Type}.
  Context (tbl : HASH_HashType → SECHashObject hctx).
  Hypothesis memory : ∀ n, 0 < n ≤ MAX_SIZE → ∃ m, PORT_Alloc n = Ok m.
  Hypothesis contexts : ∀ alg, ∃ c, hash_create (tbl alg) = Some c.
  Context (alg malg : HASH_HashType).
  Hypothesis alg_ok : alg ≠ HASH_AlgNULL.
  Hypothesis malg_ok : malg ≠ HASH_AlgNULL.
Let h := tbl alg.
Let mh := tbl malg.
Let hl := Z.to_nat (hash_length h).

Lemma MGF1_ok mask maskLen seed : 0 < maskLen ≤ length mask → maskLen < 2 ^ 31 →
  MGF1 tbl malg mask maskLen seed = Ok (mgf1_ref mh seed (Z.to_nat maskLen) ++ drop (Z.to_nat maskLen) mask, true).
Proof.
  intros Hm Hs. destruct (contexts malg) as [c Hc]. destruct (hash_sizes (tbl malg)) as [Hh _].
  destruct (memory (hash_length (tbl malg))) as [b Hb]; [rewrite MAX_SIZE_val; unfold HASH_LENGTH_MAX in Hh; lia|].
  by apply (MGF1_spec tbl malg mask maskLen seed c b).
Qed.

Lemma hash_label_digest c label : hash_label h c label = digest h label.
Proof.
  unfold hash_label. rewrite Z.gtb_ltb. destruct (Z.ltb_spec 0 (length label)) as [Hl|Hl].
  - pose proof (hash_end_digest h c [label]) as Hd. cbn [fold_left concat] in Hd. by rewrite app_nil_r in Hd.
  - destruct label; [|cbn [length] in Hl; lia]. exact (hash_end_digest h c []).
Qed.

Lemma get_hash : HASH_GetRawHashObject tbl alg = Some h.
Proof. unfold h. by destruct alg. Qed.

(** The parts of a block and of what is under the masks. *)
Lemma open_parts em Y seed db : bytes em → 2 * hash_length h + 2 ≤ length em → oaep_open h mh em = ([Y], seed, db) →
  ∃ ms mdb, em = [Y] ++ ms ++ mdb ∧ length ms = hl ∧ length mdb = (length em - hl - 1)%nat ∧
    length seed = hl ∧ bytes seed ∧ length db = length mdb ∧ bytes db ∧ is_byte Y ∧
    mdb = drop (1 + hl) em ∧ xor_octets ms (mgf1_ref mh mdb hl) = seed ∧ xor_octets mdb (mgf1_ref mh seed (length mdb)) = db.
Proof.
  intros Hb Hl Ho. unfold oaep_open in Ho. fold hl in Ho. set (ms := take hl (drop 1 em)) in Ho.
  set (mdb := drop (1 + hl) em) in Ho. apply pair_eq in Ho as [Ho E3]. apply pair_eq in Ho as [E1 E2].
  assert (Lms : length ms = hl) by (unfold ms, hl; rewrite length_take, length_drop; lia).
  assert (Lmdb : length mdb = (length em - hl - 1)%nat) by (unfold mdb, hl; rewrite length_drop; lia).
  assert (Eem : em = [Y] ++ ms ++ mdb).
  { rewrite <- (take_drop 1 em) at 1. rewrite E1. f_equal. unfold ms, mdb. by rewrite <- drop_drop, take_drop. }
  destruct (mgf1_ref_spec mh mdb hl) as [Lg Bg]. destruct (mgf1_ref_spec mh seed (length mdb)) as [Lg2 Bg2].
  assert (Ls : length seed = hl) by (rewrite <- E2; by rewrite length_xor by congruence).
  assert (Bs : bytes seed) by (rewrite <- E2; apply xor_bytes; [by apply Forall_take, Forall_drop|done]).
  rewrite E2 in E3. assert (Ldb : length db = length mdb) by (rewrite <- E3; by rewrite length_xor by congruence).
  assert (Bdb : bytes db) by (rewrite <- E3; apply xor_bytes; [by apply Forall_drop|done]).
  assert (HY : is_byte Y) by (rewrite Eem in Hb; by apply Forall_cons_1 in Hb as [HY _]).
  exists ms, mdb. by split_and!; try apply HY.
Qed.

(** What the code makes of the unmasked block. *)
Lemma decode_unmasked output max em label Y seed db :
  bytes em → 2 * hash_length h + 2 ≤ length em ≤ MAX_SIZE → 0 ≤ max ≤ length output →
  oaep_open h mh em = ([Y], seed, db) →
  eme_oaep_decode tbl output max em alg malg label =
  let good := (Y =? 0) && bool_decide (take hl db = digest h label) in
  let '(off, f, g) := oaep_scan (drop hl db) (1 + hash_length h * 2) (0, 0, b2z good) in
  if Z.land g f =? 0 then Ok (output, inr (Some SEC_ERROR_BAD_DATA)) else
  let off := u32 (off + 1) in
  let len := u32 (length em - off) in
  if len >? max then Ok (output, inr (Some SEC_ERROR_OUTPUT_LEN)) else
  src ← mem_read ([Y] ++ seed ++ db) (Z.to_nat off) (Z.to_nat len);
  output ← mem_write output 0 src;
  Ok (output, inl len).
Proof.
  intros Hb Hl Hmax Ho. rewrite MAX_SIZE_val in Hl. destruct (hash_sizes h) as [[Hh Hh2] _]. unfold HASH_LENGTH_MAX in Hh2.
  unfold eme_oaep_decode. rewrite get_hash. rewrite wrap_small by lia. rewrite (proj2 (Z.ltb_ge _ _)) by lia.
  destruct (contexts alg) as [c Hc]. fold h in Hc. rewrite Hc, hash_label_digest.
  destruct (memory (length em)) as [tmp Ht]; [rewrite MAX_SIZE_val; lia|]. rewrite Ht.
  destruct (memory (length em - hash_length h - 1)) as [mask Hk]; [rewrite MAX_SIZE_val; lia|]. rewrite Hk.
  apply PORT_Alloc_Ok in Ht as (Lt & _); [|lia]. apply PORT_Alloc_Ok in Hk as (Lk & _); [|lia].
  rewrite (proj2 (Z.eqb_neq _ 0)) in Lt by lia. rewrite (proj2 (Z.eqb_neq _ 0)) in Lk by lia.
  rewrite mem_write_front, drop_ge, app_nil_r by lia. cbn [mbind res_bind].
  destruct (open_parts em Y seed db Hb ltac:(lia) Ho) as (ms & mdb & Eem & Lms & Lmdb & Ls & Bs & Ldb & Bdb & HY & Emdb & E2 & E3).
  destruct (mgf1_ref_spec mh mdb hl) as [Lg Bg]. destruct (mgf1_ref_spec mh seed (length mdb)) as [Lg2 Bg2].
  assert (Hsrc : mem_read (E:=Empty_set) em (Z.to_nat (1 + hash_length h)) (Z.to_nat (length em - hash_length h - 1)) = Ok mdb).
  { rewrite mem_read_in by lia. rewrite Emdb. replace (Z.to_nat (1 + hash_length h)) with (1 + hl)%nat by (unfold hl; lia).
    rewrite take_ge by (rewrite length_drop; unfold hl; lia). done. }
  rewrite Hsrc. cbn [mbind res_bind]. rewrite MGF1_ok by lia. cbn [mbind res_bind]. fold hl.
  assert (Hx1 : xor_at em 1 hl (mgf1_ref mh mdb hl ++ drop hl mask) = Ok ([Y] ++ seed ++ mdb)).
  { transitivity (xor_at ([Y] ++ ms ++ mdb) 1 hl (mgf1_ref mh mdb hl ++ drop hl mask)); [by rewrite <- Eem|].
    rewrite xor_at_mid by (rewrite ?length_app; (done || lia)). by rewrite take_app_length', E2. }
  rewrite Hx1. cbn [mbind res_bind].
  rewrite (mem_read_in _ 1 hl) by (rewrite !length_app; cbn [length]; lia). cbn [mbind res_bind].
  change ([Y] ++ seed ++ mdb) with (Y :: (seed ++ mdb)). change (drop 1 (Y :: (seed ++ mdb))) with (drop 0 (seed ++ mdb)).
  rewrite drop_0, take_app_length' by done.
  rewrite MGF1_ok by (rewrite ?length_app, ?length_drop; lia). cbn [mbind res_bind].
  change (Y :: seed ++ mdb) with ([Y] ++ seed ++ mdb). rewrite <- (app_nil_r mdb) at 1. rewrite app_assoc.
  replace (Z.to_nat (length em - hash_length h - 1)) with (length mdb) by (unfold hl in *; lia).
  rewrite xor_at_mid by (rewrite ?length_app, ?length_drop; cbn [length]; (done || unfold hl in *; lia)). cbn [mbind res_bind].
  rewrite take_app_length' by done. rewrite E3, app_nil_r, <- app_assoc.
  rewrite (mem_read_in _ 0 1) by (cbn [app length]; lia). cbn [mbind res_bind]. rewrite drop_0.
  change (take 1 ([Y] ++ seed ++ db)) with (Y :: take 0 (seed ++ db)). rewrite take_0. change ([Y] !!! 0%nat) with Y.
  assert (Hlh : mem_read (E:=Empty_set) ([Y] ++ seed ++ db) (Z.to_nat (1 + hash_length h)) hl = Ok (take hl db)).
  { rewrite mem_read_in by (rewrite !length_app; cbn [length]; unfold hl in *; lia). rewrite app_assoc, drop_app_length'; [done|].
    rewrite length_app. cbn [length]. unfold hl in *. lia. }
  rewrite Hlh. cbn [mbind res_bind].
  assert (Hrest : mem_read (E:=Empty_set) ([Y] ++ seed ++ db) (Z.to_nat (1 + hash_length h * 2)) (Z.to_nat (length em - (1 + hash_length h * 2))) = Ok (drop hl db)).
  { rewrite mem_read_in by (rewrite !length_app; cbn [length]; unfold hl in *; lia).
    replace (Z.to_nat (1 + hash_length h * 2)) with (length ([Y] ++ seed) + hl)%nat by (rewrite length_app; cbn [length]; unfold hl in *; lia).
    rewrite app_assoc, <- drop_drop, drop_app_length. f_equal. apply take_ge. rewrite length_drop. unfold hl in *; lia. }
  rewrite Hrest. cbn [mbind res_bind].
  rewrite EQ8_spec by (done || unfold is_byte; lia).
  rewrite Compare_spec; [|apply digest_bytes|by apply Forall_take|rewrite length_take; pose proof (digest_length h label); unfold hl in *; lia].
  assert (Hg : Z.land (Z.land 1 (b2z (0 =? Y))) (b2z (bool_decide (digest h label = take hl db))) =
    b2z ((Y =? 0) && bool_decide (take hl db = digest h label))).
  { rewrite (Z.eqb_sym 0 Y), (bool_decide_ext (digest h label = take hl db) (take hl db = digest h label)) by (split; congruence).
    by destruct (Y =? 0), (bool_decide _). }
  rewrite Hg. destruct (oaep_scan _ _ _) as [[off f] g]. done.
Qed.

(** The message, or the reason there is none; the caller's buffer is written
    only when there is. *)
Definition oaep_outcome (em label output : list Z) (max : Z) (r : list Z * rsa_status) : Prop :=
  match r.2 with
  | inl L => ∃ seed msg, bytes seed ∧ length seed = hl ∧ bytes msg ∧ L = Z.of_nat (length msg) ∧ L ≤ max ∧
      r.1 = msg ++ drop (length msg) output ∧ em = oaep_em h mh label seed msg (length em)
  | inr e => r.1 = output ∧
      ∀ seed msg, length seed = hl → (2 * hl + 2 + length msg ≤ length em)%nat → em = oaep_em h mh label seed msg (length em) →
        e = Some SEC_ERROR_OUTPUT_LEN ∧ max < length msg
  end.

Lemma pad_split_unique n n' (a b : list Z) : replicate n 0 ++ 1 :: a = replicate n' 0 ++ 1 :: b → n = n' ∧ a = b.
Proof.
  revert n'. induction n as [|n IH]; intros [|n']; cbn [replicate app]; intros E; try discriminate.
  - by injection E as ->.
  - injection E as E. destruct (IH n' E) as [-> ->]. done.
Qed.

Lemma oaep_decode_outcome output max em label :
  bytes em → 2 * hash_length h + 2 ≤ length em ≤ MAX_SIZE → 0 ≤ max ≤ length output →
  ∃ r, eme_oaep_decode tbl output max em alg malg label = Ok r ∧ oaep_outcome em label output max r.
Proof.
  intros Hb Hl Hmax. destruct (hash_sizes h) as [[Hh Hh2] _]. unfold HASH_LENGTH_MAX in Hh2.
  destruct (oaep_open h mh em) as [[y seed] db] eqn:Ho.
  assert (HY : ∃ Y, y = [Y]).
  { unfold oaep_open in Ho. apply pair_eq in Ho as [Ho _]. apply pair_eq in Ho as [<- _].
    destruct em as [|Y em]; [cbn [length] in Hl; lia|]. exists Y. cbn [take]. by rewrite take_0. }
  destruct HY as [Y ->]. rewrite (decode_unmasked output max em label Y seed db) by done. rewrite MAX_SIZE_val in Hl.
  destruct (open_parts em Y seed db Hb ltac:(lia) Ho) as (ms & mdb & Eem & Lms & Lmdb & Ls & Bs & Ldb & Bdb & HY & _ & _ & _).
  pose proof (digest_length h label) as Ldg. set (good := (Y =? 0) && bool_decide (take hl db = digest h label)).
  assert (Huniq : ∀ seed' msg, length seed' = hl → (2 * hl + 2 + length msg ≤ length em)%nat →
    em = oaep_em h mh label seed' msg (length em) → good = true ∧
      drop hl db = replicate (length em - 2 * hl - 2 - length msg) 0 ++ 1 :: msg).
  { intros s' msg Hs' Hlm E. destruct (oaep_em_open h mh label s' msg (length em) Hs' Hlm) as [_ E'].
    rewrite <- E, Ho in E'. apply pair_eq in E' as [E' ->]. apply pair_eq in E' as [E' ->]. injection E' as ->.
    unfold good, oaep_db. rewrite take_app_length', drop_app_length' by (unfold hl; lia).
    by rewrite Z.eqb_refl, bool_decide_eq_true_2. }
  cbn zeta. change (0, 0, b2z good) with (0, b2z false, b2z good).
  destruct (scan_spec (drop hl db) (1 + hash_length h * 2) 0 good) as
    [(n & msg & Hd & ->)|[Hno (off & f & g & -> & Hgf)]];
    [by apply Forall_drop|lia|rewrite length_drop; unfold hl in *; lia|lia| |].
  - change (Z.land (b2z good) 1) with (Z.land (b2z good) (b2z true)).
    assert (Ln : (hl + n + S (length msg) = length db)%nat).
    { apply (f_equal length) in Hd. rewrite length_drop, length_app, length_replicate in Hd. cbn [length] in Hd. unfold hl in *; lia. }
    destruct good eqn:Eg; cbn [b2z Z.land Z.eqb Pos.land].
    2: { eexists. split; [done|]. split; [done|]. intros s' m' Hs' Hlm E. destruct (Huniq s' m' Hs' Hlm E). done. }
    rewrite (wrap_small 32 (1 + hash_length h * 2 + n + 1)), wrap_small by (unfold hl in *; lia).
    replace (length em - (1 + hash_length h * 2 + n + 1)) with (Z.of_nat (length msg)) by (unfold hl in *; lia).
    rewrite Z.gtb_ltb. destruct (Z.ltb_spec max (length msg)) as [Hlt|Hge].
    { eexists. split; [done|]. split; [done|]. intros s' m' Hs' Hlm E. split; [done|].
      destruct (Huniq s' m' Hs' Hlm E) as [_ Hd']. rewrite Hd in Hd'. apply pad_split_unique in Hd' as [_ ->]. done. }
    assert (Hsrc : mem_read (E:=Empty_set) ([Y] ++ seed ++ db) (Z.to_nat (1 + hash_length h * 2 + n + 1)) (Z.to_nat (length msg)) = Ok msg).
    { rewrite mem_read_in by (rewrite !length_app; cbn [length]; unfold hl in *; lia).
      replace (Z.to_nat (1 + hash_length h * 2 + n + 1)) with (length ([Y] ++ seed) + (hl + (n + 1)))%nat
        by (rewrite length_app; cbn [length]; unfold hl in *; lia).
      rewrite app_assoc, <- drop_drop, drop_app_length, <- (drop_drop db), Hd.
      change (1 :: msg) with ([1] ++ msg). rewrite app_assoc, drop_app_length' by (rewrite length_app, length_replicate; cbn; lia).
      rewrite Nat2Z.id. by rewrite firstn_all. }
    rewrite Hsrc. cbn [mbind res_bind]. rewrite mem_write_front by lia. cbn [mbind res_bind].
    eexists. split; [done|]. exists seed, msg.
    assert (Bm : bytes msg).
    { assert (Bd : bytes (drop hl db)) by by apply Forall_drop. rewrite Hd in Bd. apply Forall_app in Bd as [_ Bd]. by apply Forall_cons_1 in Bd as [_ Bd]. }
    split_and!; [done..|]. unfold good in Eg. apply andb_true_iff in Eg as [EY EL]. apply Z.eqb_eq in EY as ->. apply bool_decide_eq_true in EL.
    apply (oaep_open_em h mh label em seed msg Hb); [unfold hl in *; lia|]. rewrite Ho. f_equal. unfold oaep_db.
    rewrite <- (take_drop hl db), EL, Hd. fold hl. do 3 f_equal. lia.
  - assert (E0 : Z.land g f = 0) by (destruct Hgf as [-> | ->]; [done|apply Z.land_0_r]). rewrite E0. cbn [Z.eqb].
    eexists. split; [done|]. split; [done|]. intros s' m' Hs' Hlm E. destruct (Huniq s' m' Hs' Hlm E) as [_ Hd].
    by destruct (Hno _ _ Hd).
Qed.

Lemma oaep_encode_spec em input label seed s g :
  2 * hash_length h + 2 + length input ≤ length em ≤ MAX_SIZE →
  match seed with None => (RNG_GenerateGlobalRandomBytes g hl).1 | Some s => Some s end = Some s → length s = hl →
  eme_oaep_encode tbl em (length em) input alg malg label seed g = Ok (oaep_em h mh label s input (length em), None).
Proof.
  intros Hl Hseed Hs. rewrite MAX_SIZE_val in Hl. destruct (hash_sizes h) as [[Hh Hh2] _]. unfold HASH_LENGTH_MAX in Hh2.
  unfold eme_oaep_encode. rewrite get_hash, !wrap_small by lia. rewrite (proj2 (Z.ltb_ge _ _)) by lia.
  rewrite Z.gtb_ltb, (proj2 (Z.ltb_ge _ _)) by lia. cbn [orb]. fold hl. rewrite Hseed.
  set (z := (length em - 2 * hl - 2 - length input)%nat).
  destruct (split_at em 1 (length em - 1)) as (E0 & R0 & Eem & L0 & LR0); [lia|].
  destruct (split_at R0 hl (hl + z + 1 + length input)) as (E1 & R1 & -> & L1 & LR1); [unfold z, hl in *; lia|].
  destruct (split_at R1 hl (z + 1 + length input)) as (E2 & R2 & -> & L2 & LR2); [lia|].
  destruct (split_at R2 z (1 + length input)) as (E3 & R3 & -> & L3 & LR3); [lia|].
  destruct (split_at R3 1 (length input)) as (E4 & E5 & -> & L4 & L5); [lia|].
  assert (Hlen : Z.of_nat (length em) = 2 * hash_length h + 2 + z + length input) by (unfold z, hl in *; lia).
  clearbody z. pose proof (digest_length h label) as Ld.
  rewrite (mem_write_seg em [] E0 (E1 ++ E2 ++ E3 ++ E4 ++ E5) [0]) by done. cbn [mbind res_bind app].
  destruct (contexts alg) as [c Hc]. fold h in Hc. rewrite Hc, hash_label_digest.
  rewrite (mem_write_seg _ ([0] ++ E1) E2 (E3 ++ E4 ++ E5))
    by (rewrite ?length_app, <- ?app_assoc; cbn [length]; (done || unfold hl in *; lia)). cbn [mbind res_bind].
  rewrite (mem_write_seg _ ([0] ++ E1 ++ digest h label) E3 (E4 ++ E5))
    by (rewrite ?length_replicate, ?length_app, <- ?app_assoc; cbn [length]; (done || unfold hl in *; lia)). cbn [mbind res_bind].
  replace (Z.to_nat (length em - (2 * hash_length h + 2) - length input)) with z by lia.
  rewrite (mem_write_seg _ ([0] ++ E1 ++ digest h label ++ replicate z 0) E4 E5)
    by (rewrite ?length_app, ?length_replicate, <- ?app_assoc; cbn [length]; (done || unfold hl in *; lia)). cbn [mbind res_bind].
  rewrite (mem_write_seg _ ([0] ++ E1 ++ digest h label ++ replicate z 0 ++ [1]) E5 [])
    by (rewrite ?length_app, ?length_replicate, <- ?app_assoc, ?app_nil_r; cbn [length]; (done || unfold hl in *; lia)). cbn [mbind res_bind].
  rewrite (mem_write_seg _ [0] E1 (digest h label ++ replicate z 0 ++ [1] ++ input) s)
    by (rewrite <- ?app_assoc, ?app_nil_r; cbn [length]; (done || lia)). cbn [mbind res_bind].
  destruct (memory (length em - hash_length h - 1)) as [mask Hk]; [rewrite MAX_SIZE_val; lia|]. rewrite Hk.
  apply PORT_Alloc_Ok in Hk as (Lk & _); [|lia]. rewrite (proj2 (Z.eqb_neq _ 0)) in Lk by lia.
  assert (Hdb : digest h label ++ replicate z 0 ++ [1] ++ input = oaep_db h label input (length em)).
  { unfold oaep_db. fold hl. replace (length em - 2 * hl - 2 - length input)%nat with z by (unfold hl in *; lia). done. }
  rewrite Hdb. set (db := oaep_db h label input (length em)).
  assert (Lb : length db = (length em - hl - 1)%nat) by (unfold db; rewrite length_oaep_db; unfold hl in *; lia).
  rewrite (mem_read_in _ 1 hl) by (rewrite !length_app; cbn [length]; lia). cbn [mbind res_bind].
  change (drop 1 ([0] ++ s ++ db)) with (drop 0 (s ++ db)). rewrite drop_0, take_app_length' by done.
  rewrite MGF1_ok by lia. cbn [mbind res_bind]. destruct (mgf1_ref_spec mh s (length db)) as [Lg _].
  replace (Z.to_nat (length em - hash_length h - 1)) with (length db) by (unfold hl in *; lia).
  replace ([0] ++ s ++ db) with (([0] ++ s) ++ db ++ []) by (by rewrite app_nil_r, <- app_assoc).
  rewrite xor_at_mid by (rewrite ?length_app, ?length_drop; cbn [length]; (done || unfold hl in *; lia)).
  rewrite take_app_length', app_nil_r by done. cbn [mbind res_bind].
  set (mdb := xor_octets db (mgf1_ref mh s (length db))). assert (Lm : length mdb = length db) by (apply length_xor; by rewrite Lg).
  rewrite (mem_read_in (([0] ++ s) ++ mdb)) by (rewrite !length_app; cbn [length]; unfold hl in *; lia). cbn [mbind res_bind].
  rewrite drop_app_length' by (rewrite length_app; cbn [length]; unfold hl in *; lia). rewrite take_ge by lia.
  rewrite MGF1_ok by (rewrite ?length_app, ?length_drop; lia). cbn [mbind res_bind]. fold hl. destruct (mgf1_ref_spec mh mdb hl) as [Lg2 _].
  rewrite <- app_assoc, xor_at_mid by (rewrite ?length_app; (done || lia)). cbn [mbind res_bind].
  rewrite take_app_length' by done. done.
Qed.

(** [C25] Decoding accepts a block exactly when it is the OAEP encoding of RFC 3447
    of some message for some seed and the label at hand, and returns that message;
    otherwise it leaves the caller's buffer alone.  The comparisons that do not
    branch agree with the definition on every block, although the condition that
    clears isGood is never 0 or 1, which constantTimeCondition asks for. *)
Theorem OAEP_decode_exact (output em label : list Z) (max : Z) :
  bytes em → 2 * hash_length h + 2 ≤ length em ≤ MAX_SIZE → 0 ≤ max ≤ length output →
  ∃ r, eme_oaep_decode tbl output max em alg malg label = Ok r ∧ oaep_outcome em label output max r.
Proof. apply oaep_decode_outcome. Qed.

Lemma oaep_em_inj label seed msg seed' msg' n : length seed = hl → length seed' = hl →
  (2 * hl + 2 + length msg ≤ n)%nat → (2 * hl + 2 + length msg' ≤ n)%nat →
  oaep_em h mh label seed msg n = oaep_em h mh label seed' msg' n → msg = msg'.
Proof.
  intros H1 H2 H3 H4 E. destruct (oaep_em_open h mh label seed msg n H1 H3) as [_ O1].
  destruct (oaep_em_open h mh label seed' msg' n H2 H4) as [_ O2]. rewrite E, O2 in O1. apply pair_eq in O1 as [_ O1].
  unfold oaep_db in O1. apply (inj (digest h label ++.)) in O1. by apply pad_split_unique in O1 as [_ ->].
Qed.

Lemma oaep_em_bytes label seed msg n : bytes seed → bytes msg → bytes (oaep_em h mh label seed msg n).
Proof.
  intros Hs Hm. unfold oaep_em. apply Forall_cons_2; [unfold is_byte; lia|].
  assert (Hb : bytes (xor_octets (oaep_db h label msg n) (mgf1_ref mh seed (length (oaep_db h label msg n)))))
    by (apply xor_bytes; [by apply oaep_db_bytes|apply mgf1_ref_spec]).
  apply Forall_app. split; [|done]. apply xor_bytes; [done|apply mgf1_ref_spec].
Qed.

(** The outcome for an encoding is its message. *)
Lemma oaep_outcome_em output max label seed msg n r : length seed = hl → (2 * hl + 2 + length msg ≤ n)%nat →
  length msg ≤ max → oaep_outcome (oaep_em h mh label seed msg n) label output max r →
  r = (msg ++ drop (length msg) output, inl (Z.of_nat (length msg))).
Proof.
  intros Hs Hn Hm. destruct (oaep_em_open h mh label seed msg n Hs Hn) as [Ln _]. unfold oaep_outcome. rewrite Ln.
  destruct r as [o [L|e]]; cbn [fst snd].
  - intros (seed' & msg' & _ & Hs' & _ & -> & _ & -> & E).
    assert (Hn' : (2 * hl + 2 + length msg' ≤ n)%nat).
    { apply (f_equal length) in E. rewrite Ln in E. unfold oaep_em in E. cbn [length] in E. rewrite length_app in E.
      rewrite length_xor in E by (rewrite (proj1 (mgf1_ref_spec mh _ _)); done).
      rewrite length_xor in E by (by rewrite (proj1 (mgf1_ref_spec mh _ _))).
      unfold oaep_db in E. rewrite !length_app, length_replicate in E. cbn [length] in E. pose proof (digest_length h label).
      fold hl in E. unfold hl in *. lia. }
    by rewrite (oaep_em_inj label seed msg seed' msg' n Hs Hs' Hn Hn' E).
  - intros [_ Hno]. destruct (Hno seed msg Hs Hn eq_refl) as [_ ?]. lia.
Qed.

(** RSA_EncryptOAEP, given room, memory and a seed of the digest's length
    (supplied or random), stores a ciphertext of the modulus's length from which
    RSA_DecryptOAEP with the same hashes and label recovers the message. *)
Theorem OAEP_round_trip (PartialVerify : RSAKey → option SECErrorCode) (key : RSAKey) (label seed : option (list Z))
    (s msg out1 out2 : list Z) (max1 max2 : Z) (g : rng) :
  let k := rsa_modulusLen (modulus key) in
  rsa_key_ok key → 256 ^ (k - 1) ≤ be_val (modulus key) → PartialVerify key = None →
  label_ok label = true → bytes msg → 2 * hash_length h + 2 + length msg ≤ k ≤ MAX_SIZE →
  k ≤ max1 ≤ length out1 → length msg ≤ max2 ≤ length out2 →
  match seed with None => (RNG_GenerateGlobalRandomBytes g hl).1 | Some s => Some s end = Some s →
  length s = hl → bytes s →
  ∃ o, RSA_EncryptOAEP tbl PartialVerify key alg malg label seed out1 max1 msg g = Ok (o, inl k) ∧
       RSA_DecryptOAEP tbl key alg malg label out2 max2 (take (Z.to_nat k) o) =
       Ok (msg ++ drop (length msg) out2, inl (Z.of_nat (length msg))).
Proof.
  intros k Hkey Hmod Hpv Hlab Hmsg Hk Hm1 Hm2 Hseed Ls Bs. destruct (hash_sizes h) as [[Hh _] _].
  unfold RSA_EncryptOAEP. fold k. rewrite (proj2 (Z.ltb_ge _ _)) by lia.
  rewrite !(bool_decide_eq_false_2 (_ = HASH_AlgNULL)) by done. cbn [orb]. rewrite Hlab, Hpv. cbn [negb].
  destruct (memory k ltac:(lia)) as [em Hem]. rewrite Hem. apply PORT_Alloc_Ok in Hem as (Lem & _); [|lia].
  rewrite (proj2 (Z.eqb_neq k 0)) in Lem by lia.
  pose proof (oaep_encode_spec em msg (default [] label) seed s g ltac:(lia) Hseed Ls) as Henc.
  replace (Z.of_nat (length em)) with k in Henc by lia. rewrite Henc. cbn [mbind res_bind].
  set (EM := oaep_em h mh (default [] label) s msg (length em)).
  assert (Hn : (2 * hl + 2 + length msg ≤ length em)%nat) by (unfold hl; lia).
  destruct (oaep_em_open h mh (default [] label) s msg (length em) Ls Hn) as [LE _]. fold EM in LE.
  assert (BE : bytes EM) by by apply oaep_em_bytes.
  assert (HL : Z.of_nat (length EM) = rsa_modulusLen (modulus key)) by (fold k; lia).
  assert (Hbelow : below_modulus key EM = true).
  { unfold below_modulus. apply Z.ltb_lt. unfold EM, oaep_em in *. rewrite be_val_cons, Z.mul_0_l, Z.add_0_l.
    apply Forall_cons_1 in BE as [_ BE]. pose proof (be_val_range _ BE) as HR. cbn [length] in LE.
    replace (Z.of_nat (length _)) with (k - 1) in HR by lia. lia. }
  destruct (RSA_PublicKeyOp_block key EM Hkey BE HL Hbelow) as (c & Ec & Lc & Bc & _ & Hinv).
  unfold encrypt_formatted. rewrite Ec, mem_write_front by lia. cbn [mbind res_bind]. fold k. eexists. split; [done|].
  rewrite take_app_length' by lia. unfold RSA_DecryptOAEP. fold k.
  rewrite !(bool_decide_eq_false_2 (_ = HASH_AlgNULL)) by done. cbn [orb]. rewrite (proj2 (Z.eqb_eq _ _)) by lia. rewrite Hlab. cbn [negb].
  destruct (memory k ltac:(lia)) as [buf Hbuf]. rewrite Hbuf. apply PORT_Alloc_Ok in Hbuf as (Lbuf & _); [|lia].
  rewrite (proj2 (Z.eqb_neq k 0)) in Lbuf by lia. destruct (Hinv buf ltac:(lia)) as [_ ->]. cbn [fst snd].
  destruct (oaep_decode_outcome out2 max2 EM (default [] label) BE) as (r & -> & Hr); [rewrite LE; lia|lia|].
  f_equal. by apply (oaep_outcome_em out2 max2 (default [] label) s msg (length em)); [|done|lia|].
Qed.
End Exact.

(** ** Evaluation *)

#[local] Existing Instance toy_rsa.
#[local] Existing Instance toy_rng.

(** Every algorithm computes the same digest. *)
Definition demo_hashes (_ : HASH_HashType) : SECHashObject (list Z) := toy_hash.
Definition demo_label : list Z := [108; 97; 98].
Definition demo_seed : list Z := [1; 2; 3; 4].
Definition demo_em : list Z := oaep_em toy_hash toy_hash demo_label demo_seed demo_msg 16.

Lemma demo_memory n : 0 < n ≤ MAX_SIZE → ∃ m, PORT_Alloc n = Ok m.
Proof.
  intros Hn. unfold PORT_Alloc. rewrite (proj2 (Z.leb_le n MAX_SIZE)), (proj2 (Z.eqb_neq n 0)) by lia. by eexists.
Qed.
Lemma demo_contexts alg : ∃ c, hash_create (demo_hashes alg) = Some c.
Proof. by eexists. Qed.
Lemma demo_em_bytes : bytes demo_em.
Proof. apply (oaep_em_bytes demo_hashes HASH_AlgMD5 HASH_AlgMD5); repeat apply Forall_cons_2; try done. Qed.

(** The encoding in a block of 16 octets, and a flipped bit in its seed. *)
Example demo_oaep_encode :
  eme_oaep_encode demo_hashes (replicate 16 0xEE) 16 demo_msg HASH_AlgSHA1 HASH_AlgSHA1 demo_label (Some demo_seed) true =
  Ok (demo_em, None).
Proof. vm_compute. reflexivity. Qed.

Example demo_oaep_reject :
  eme_oaep_decode demo_hashes demo_out 20 (<[2%nat := Z.lxor 1 (demo_em !!! 2%nat)]> demo_em) HASH_AlgSHA1 HASH_AlgSHA1 demo_label =
  Ok (demo_out, inr (Some SEC_ERROR_BAD_DATA)).
Proof. vm_compute. reflexivity. Qed.

Lemma OAEP_decode_exact_witness :
  eme_oaep_decode demo_hashes demo_out 20 demo_em HASH_AlgSHA1 HASH_AlgSHA256 demo_label =
  Ok (demo_msg ++ drop 3 demo_out, inl 3).
Proof.
  destruct (OAEP_decode_exact demo_hashes demo_memory demo_contexts HASH_AlgSHA1 HASH_AlgSHA256 ltac:(done) ltac:(done)
    demo_out demo_em demo_label 20 demo_em_bytes) as (r & E & Ho); [split; vm_compute; discriminate|split; vm_compute; discriminate|].
  rewrite E. f_equal.
  apply (oaep_outcome_em demo_hashes HASH_AlgSHA1 HASH_AlgSHA256 demo_out 20 demo_label demo_seed demo_msg 16 r);
    [done|vm_compute; lia|vm_compute; discriminate|exact Ho].
Defined.

Lemma OAEP_round_trip_witness :
  ∃ o, RSA_EncryptOAEP demo_hashes (λ _, None) demo_rsa HASH_AlgSHA1 HASH_AlgSHA256 (Some demo_label) None demo_out 20 demo_msg true =
       Ok (o, inl 16) ∧
       RSA_DecryptOAEP demo_hashes demo_rsa HASH_AlgSHA1 HASH_AlgSHA256 (Some demo_label) demo_out 20 (take 16 o) =
       Ok (demo_msg ++ drop 3 demo_out, inl 3).
Proof.
  apply (OAEP_round_trip demo_hashes demo_memory demo_contexts HASH_AlgSHA1 HASH_AlgSHA256 ltac:(done) ltac:(done)
    (λ _, None) demo_rsa (Some demo_label) None (toy_random true 4) demo_msg demo_out demo_out 20 20 true);
    [apply demo_rsa_ok|vm_compute; discriminate|done|done|apply demo_msg_bytes|split; vm_compute; discriminate..|done|done|].
  repeat apply Forall_cons_2; try done.
Defined.
