(* ===== verification/RsaPss.v ===== *)
(** lib/freebl/rsapkcs.c: RSA-PSS signatures.

    [CheckSignPSS_exact] says that verification accepts exactly the encodings of
    RFC 3447, [SignPSS_round_trip] that it accepts what RSA_SignPSS makes. *)

From stdpp Require Import base numbers list.
From S2P Require Import Prelude Port Hmac RsaPad RsaOaep.

Definition eightZeros : list Z := replicate 8 0.

(** A shift of an int by its width or more is undefined. *)
Definition shift_right (x n : Z) : mem_res Z := if n <? 32 then Ok (Z.shiftr x n) else UB.

Section PSS.
  Context `{heap : NSPRHeap} `{rand : RNG} `{ops : RSAOps} {hctx : Type}.
  Context (SECRawHashObjects : HASH_HashType → SECHashObject hctx).

(** H of M' = (0x)00 00 00 00 00 00 00 00 || mHash || salt *)
Definition pss_hash (h : SECHashObject hctx) (c : hctx) (mHash salt : list Z) : list Z :=
  (hash_end h (hash_update h (hash_update h (hash_update h (hash_begin h c) eightZeros) mHash) salt)).2.

(** [b[0] &= 0xff >> n] *)
Definition mask_first (m : list Z) (n : Z) : mem_res (list Z) :=
  k ← shift_right 0xff n;
  first ← mem_read m 0 1;
  mem_write m 0 [Z.land (first !!! 0%nat) k].

Definition RSA_EMSAEncodePSS (em : list Z) (emLen emBits : Z) (mHash : list Z) (hashAlg maskHashAlg : HASH_HashType)
    (salt : option (list Z)) (saltLen : Z) (g : rng) : mem_res (list Z * sec_status) :=
  match HASH_GetRawHashObject SECRawHashObjects hashAlg with
  | None => UB
  | Some h =>
      let hLen := hash_length h in
      if length mHash <? hLen then Ok (em, Some (Some SEC_ERROR_INVALID_ARGS))
      else if (saltLen >? emLen) || (u32 (hLen + 2) >? emLen - saltLen) then Ok (em, Some (Some SEC_ERROR_OUTPUT_LEN))
      else
        let dbMaskLen := emLen - hLen - 1 in
        s ← match salt with
            | None => Ok (RNG_GenerateGlobalRandomBytes g (Z.to_nat saltLen)).1
            | Some s => s ← mem_read s 0 (Z.to_nat saltLen); Ok (Some s)
            end;
        match s with
        | None => Ok (em, Some None)
        | Some s =>
            em ← mem_write em (Z.to_nat (dbMaskLen - saltLen)) s;
            match hash_create h with
            | None => Ok (em, Some (Some SEC_ERROR_NO_MEMORY))
            | Some c =>
                hashed ← mem_read mHash 0 (Z.to_nat hLen);
                s ← mem_read em (Z.to_nat (dbMaskLen - saltLen)) (Z.to_nat saltLen);
                em ← mem_write em (Z.to_nat dbMaskLen) (pss_hash h c hashed s);
                em ← mem_write em 0 (replicate (Z.to_nat (dbMaskLen - saltLen - 1)) 0);
                em ← mem_write em (Z.to_nat (dbMaskLen - saltLen - 1)) [0x01];
                match PORT_Alloc dbMaskLen with
                | UB => UB
                | Err _ => Ok (em, Some (Some SEC_ERROR_NO_MEMORY))
                | Ok dbMask =>
                    H ← mem_read em (Z.to_nat dbMaskLen) (Z.to_nat hLen);
                    '(dbMask, _) ← MGF1 SECRawHashObjects maskHashAlg dbMask dbMaskLen H;
                    em ← xor_at em 0 (Z.to_nat dbMaskLen) dbMask;
                    em ← mask_first em (u32 (8 * emLen - emBits));
                    em ← mem_write em (Z.to_nat (emLen - 1)) [0xbc];
                    Ok (em, None)
                end
            end
        end
  end.

(** [for (i = 0; i < n; i++) if (db[i] != 0)], from [i]: whether no other octet
    was met. *)
Fixpoint pss_zeros (n : nat) (db : list Z) (i : nat) : mem_res bool :=
  match n with
  | O => Ok true
  | S n => match db !! i with
           | None => UB
           | Some b => if negb (b =? 0) then Ok false else pss_zeros n db (i + 1)
           end
  end.

(** [None] is SECSuccess. *)
Definition emsa_pss_verify (mHash em : list Z) (emLen emBits : Z) (hashAlg maskHashAlg : HASH_HashType) (saltLen : Z)
    : mem_res (option SECErrorCode) :=
  let bad := Ok (Some SEC_ERROR_BAD_SIGNATURE) in
  match HASH_GetRawHashObject SECRawHashObjects hashAlg with
  | None => UB
  | Some h =>
      let hLen := hash_length h in
      if length mHash <? hLen then Ok (Some SEC_ERROR_INVALID_ARGS)
      else if (saltLen >? emLen) || (u32 (hLen + 2) >? emLen - saltLen) then bad
      else
        last ← mem_read em (Z.to_nat (emLen - 1)) 1;
        if negb (last !!! 0%nat =? 0xbc) then bad else
        let dbMaskLen := emLen - hLen - 1 in
        let zeroBits := u32 (8 * emLen - emBits) in
        first ← mem_read em 0 1;
        top ← shift_right (first !!! 0%nat) (u32 (8 - zeroBits));
        if negb (top =? 0) then bad else
        match PORT_Alloc dbMaskLen with
        | UB => UB
        | Err _ => Ok (Some SEC_ERROR_NO_MEMORY)
        | Ok db =>
            H ← mem_read em (Z.to_nat dbMaskLen) (Z.to_nat hLen);
            '(db, _) ← MGF1 SECRawHashObjects maskHashAlg db dbMaskLen H;
            db ← xor_at db 0 (Z.to_nat dbMaskLen) em;
            db ← mask_first db zeroBits;
            zeros ← pss_zeros (Z.to_nat (dbMaskLen - saltLen - 1)) db 0;
            if negb (zeros : bool) then bad else
            one ← mem_read db (Z.to_nat (dbMaskLen - saltLen - 1)) 1;
            if negb (one !!! 0%nat =? 0x01) then bad else
            match PORT_Alloc hLen with
            | UB => UB
            | Err _ => Ok (Some SEC_ERROR_NO_MEMORY)
            | Ok H_ =>
                match hash_create h with
                | None => Ok (Some SEC_ERROR_NO_MEMORY)
                | Some c =>
                    hashed ← mem_read mHash 0 (Z.to_nat hLen);
                    salt ← mem_read db (Z.to_nat (dbMaskLen - saltLen)) (Z.to_nat saltLen);
                    H_ ← mem_write H_ 0 (pss_hash h c hashed salt);
                    H_ ← mem_read H_ 0 (Z.to_nat hLen);
                    Ok (match memcmp H_ H with Eq => None | _ => Some SEC_ERROR_BAD_SIGNATURE end)
                end
            end
        end
  end.

(** [len(em) == ceil((modulusBits - 1) / 8)]: the octets before em. *)
Definition pss_skip (modulusBits : Z) : Z := if modulusBits mod 8 =? 1 then 1 else 0.

Definition RSA_SignPSS (key : RSAKey) (hashAlg maskHashAlg : HASH_HashType) (salt : option (list Z)) (saltLength : Z)
    (output : list Z) (maxOutputLen : Z) (input : list Z) (g : rng) : mem_res (list Z * rsa_status) :=
  let modulusLen := rsa_modulusLen (modulus key) in
  let modulusBits := rsa_modulusBits (modulus key) in
  if maxOutputLen <? modulusLen then Ok (output, inr (Some SEC_ERROR_OUTPUT_LEN))
  else if bool_decide (hashAlg = HASH_AlgNULL) || bool_decide (maskHashAlg = HASH_AlgNULL)
  then Ok (output, inr (Some SEC_ERROR_INVALID_ALGORITHM))
  else match PORT_Alloc modulusLen with
       | UB => UB
       | Err _ => Ok (output, inr (Some SEC_ERROR_NO_MEMORY))
       | Ok pssEncoded =>
           let skip := pss_skip modulusBits in
           pssEncoded ← mem_write pssEncoded 0 (replicate (Z.to_nat skip) 0);
           '(em, rv) ← RSA_EMSAEncodePSS (drop (Z.to_nat skip) pssEncoded) (u32 (modulusLen - skip)) (u32 (modulusBits - 1)) input
                         hashAlg maskHashAlg salt saltLength g;
           match rv with
           | Some e => Ok (output, inr e)
           | None =>
               let op := RSA_PrivateKeyOpDoubleChecked key (take (Z.to_nat modulusLen) output)
                           (take (Z.to_nat skip) pssEncoded ++ em) in
               output ← mem_write output 0 op.2;
               Ok (output, rsa_done op.1 modulusLen)
           end
       end.

(** [None] is SECSuccess. *)
Definition RSA_CheckSignPSS (key : RSAKey) (hashAlg maskHashAlg : HASH_HashType) (saltLength : Z) (sig hash : list Z)
    : mem_res (option SECErrorCode) :=
  let modulusLen := rsa_modulusLen (modulus key) in
  let modulusBits := rsa_modulusBits (modulus key) in
  if negb (length sig =? modulusLen) then Ok (Some SEC_ERROR_BAD_SIGNATURE)
  else if bool_decide (hashAlg = HASH_AlgNULL) || bool_decide (maskHashAlg = HASH_AlgNULL)
  then Ok (Some SEC_ERROR_INVALID_ALGORITHM)
  else match PORT_Alloc modulusLen with
       | UB => UB
       | Err _ => Ok (Some SEC_ERROR_NO_MEMORY)
       | Ok buffer =>
           match RSA_PublicKeyOp key sig with
           | UB => UB
           | Err _ => Ok (Some SEC_ERROR_BAD_SIGNATURE)
           | Ok m =>
               buffer ← mem_write buffer 0 m;
               let skip := pss_skip modulusBits in
               emsa_pss_verify hash (drop (Z.to_nat skip) buffer) (u32 (modulusLen - skip)) (u32 (modulusBits - 1))
                 hashAlg maskHashAlg saltLength
           end
       end.
End PSS.

(** ** Bits of the first octet *)

Definition low_bits (z : Z) : Z := Z.shiftr 0xff z.

Lemma low_bits_ones z : 0 ≤ z < 8 → low_bits z = Z.ones (8 - z).
Proof.
  intros Hz. assert (z = 0 ∨ z = 1 ∨ z = 2 ∨ z = 3 ∨ z = 4 ∨ z = 5 ∨ z = 6 ∨ z = 7) as Hc by lia.
  repeat destruct Hc as [-> | Hc]; try done. by subst.
Qed.

Lemma land_low z x : 0 ≤ z < 8 → Z.land x (low_bits z) = x mod 2 ^ (8 - z).
Proof. intros Hz. rewrite low_bits_ones by done. by rewrite Z.land_ones by lia. Qed.

(** Clearing the bits above the modulus. *)
Definition clear_first (z : Z) (l : list Z) : list Z :=
  match l with [] => [] | b :: l => Z.land b (low_bits z) :: l end.

Lemma length_clear_first z l : length (clear_first z l) = length l.
Proof. by destruct l. Qed.

Lemma mask_first_spec m z : (0 < length m)%nat → 0 ≤ z < 8 → mask_first m z = Ok (clear_first z m).
Proof.
  intros Hm Hz. destruct m as [|b m]; [cbn in Hm; lia|]. unfold mask_first, shift_right.
  rewrite (proj2 (Z.ltb_lt _ _)) by lia. cbn [mbind res_bind]. rewrite mem_read_in by done. cbn [mbind res_bind].
  rewrite drop_0. cbn [take]. rewrite take_0. rewrite mem_write_front by done. done.
Qed.

Lemma xor_mod_low z x k d : 0 ≤ z < 8 → x mod 2 ^ (8 - z) = x → Z.lxor x k mod 2 ^ (8 - z) = d → Z.lxor d k mod 2 ^ (8 - z) = x.
Proof.
  intros Hz Hx <-. rewrite <- !Z.land_ones in * by lia. apply Z.bits_inj'. intros n Hn.
  rewrite <- Hx. rewrite !Z.land_spec, !Z.lxor_spec, !Z.land_spec, Z.lxor_spec, <- Hx, !Z.land_spec.
  destruct (Z.testbit x n), (Z.testbit k n), (Z.testbit (Z.ones (8 - z)) n); done.
Qed.

Lemma xor_swap (k x d : list Z) : length x = length k → length d = length k → xor_octets k x = d ↔ x = xor_octets d k.
Proof.
  intros Lx Ld. split.
  - intros <-. by rewrite (xor_comm k x), xor_cancel.
  - intros ->. rewrite xor_comm. by apply xor_cancel.
Qed.

(** With the high bits of [x] clear, unmasking and clearing [x] gives [d] exactly
    when masking and clearing [d] gives [x]. *)
Lemma clear_xor z (x d k : list Z) : 0 ≤ z < 8 → length x = length k → length d = length k →
  clear_first z d = d → clear_first z x = x →
  clear_first z (xor_octets k x) = d ↔ x = clear_first z (xor_octets d k).
Proof.
  intros Hz Lx Ld Hd Hx. destruct k as [|k0 k]; [by destruct x, d|]. destruct x as [|x0 x], d as [|d0 d]; [done..|].
  injection Lx as Lx. injection Ld as Ld. cbn [clear_first zip_with] in *. injection Hd as Hd. injection Hx as Hx.
  rewrite !land_low in * by done.
  pose proof (xor_swap k x d Lx Ld) as Ht.
  split.
  - intros [= H0 H1]. f_equal; [|by apply Ht]. symmetry. apply (xor_mod_low z x0 k0 d0 Hz Hx). by rewrite Z.lxor_comm.
  - intros [= H0 H1]. f_equal; [|by apply Ht]. symmetry in H0. rewrite Z.lxor_comm. by apply (xor_mod_low z d0 k0 x0 Hz Hd).
Qed.

(** ** Encodings of RFC 3447 *)

Section Reference.
  Context {hctx : Type}.

(** DB = PS || 01 || salt *)
Definition pss_db (salt : list Z) (dbLen : nat) : list Z := replicate (dbLen - length salt - 1) 0 ++ 1 :: salt.

Definition pss_H (h : SECHashObject hctx) (mHash salt : list Z) : list Z := digest h (eightZeros ++ mHash ++ salt).

(** EM = maskedDB || H || bc, [z] bits cleared *)
Definition pss_em (h mh : SECHashObject hctx) (mHash salt : list Z) (emLen : nat) (z : Z) : list Z :=
  let H := pss_H h mHash salt in
  let db := pss_db salt (emLen - Z.to_nat (hash_length h) - 1) in
  clear_first z (xor_octets db (mgf1_ref mh H (length db))) ++ H ++ [0xbc].

Lemma length_pss_db salt n : (length salt + 1 ≤ n)%nat → length (pss_db salt n) = n.
Proof. intros Hn. unfold pss_db. rewrite length_app, length_replicate. cbn [length]. lia. Qed.

Lemma pss_db_clear salt n z : 0 ≤ z < 8 → clear_first z (pss_db salt n) = pss_db salt n.
Proof.
  intros Hz. unfold pss_db. destruct (n - length salt - 1)%nat as [|k]; cbn [replicate app clear_first].
  - rewrite land_low by done. rewrite Z.mod_small; [done|]. split; [lia|]. apply (Z.pow_gt_1 2); lia.
  - by rewrite Z.land_0_l.
Qed.

Lemma pss_H_length (h : SECHashObject hctx) mHash salt : length (pss_H h mHash salt) = Z.to_nat (hash_length h).
Proof. pose proof (digest_length h (eightZeros ++ mHash ++ salt)). unfold pss_H. lia. Qed.

Lemma pss_hash_H (h : SECHashObject hctx) c mHash salt : pss_hash h c mHash salt = pss_H h mHash salt.
Proof.
  pose proof (hash_end_digest h c [eightZeros; mHash; salt]) as Hd. cbn [fold_left concat] in Hd. rewrite app_nil_r in Hd. done.
Qed.

Lemma pss_zeros_spec n db i : (i + n ≤ length db)%nat →
  pss_zeros n db i = Ok (bool_decide (take n (drop i db) = replicate n 0)).
Proof.
  revert i. induction n as [|n IH]; intros i Hi; [done|]. cbn [pss_zeros].
  destruct (lookup_lt_is_Some_2 db i) as [b Hx]; [lia|]. rewrite Hx, (drop_S _ _ _ Hx). cbn [take replicate].
  destruct (Z.eqb_spec b 0) as [->|Hne]; cbn [negb].
  - rewrite IH by lia. replace (i + 1)%nat with (S i) by lia. f_equal. apply bool_decide_ext. split; [by intros ->|by intros [= ->]].
  - by rewrite bool_decide_eq_false_2 by congruence.
Qed.
End Reference.

Lemma clear_first_idem z l : clear_first z (clear_first z l) = clear_first z l.
Proof. destruct l as [|b l]; [done|]. cbn [clear_first]. by rewrite <- Z.land_assoc, Z.land_diag. Qed.

(** [em[0] >> (8 - zeroBits)] *)
Lemma top_bits_clear z b l : 0 ≤ z < 8 → 0 ≤ b → Z.shiftr b (8 - z) = 0 ↔ clear_first z (b :: l) = b :: l.
Proof.
  intros Hz Hb. cbn [clear_first]. rewrite land_low, Z.shiftr_div_pow2 by lia.
  pose proof (Z.div_mod b (2 ^ (8 - z)) ltac:(lia)) as Hd. split.
  - intros H0. f_equal. rewrite H0 in Hd. lia.
  - intros [= H0]. pose proof (Z.pow_pos_nonneg 2 (8 - z) ltac:(lia) ltac:(lia)). nia.
Qed.

Lemma app_snoc_inj (a b a' b' : list Z) x x' : length a = length a' → length b = length b' →
  a ++ b ++ [x] = a' ++ b' ++ [x'] → a = a' ∧ b = b' ∧ x = x'.
Proof.
  intros La Lb E. apply app_inj_1 in E as [-> E]; [|done]. apply app_inj_1 in E as [-> E]; [|done]. by injection E.
Qed.

Lemma list_split_at (l : list Z) n x : (n < length l)%nat →
  (take n l = replicate n 0 ∧ l !! n = Some x) ↔ l = replicate n 0 ++ x :: drop (S n) l.
Proof.
  intros Hn. split.
  - intros [E Hx]. rewrite <- (take_drop n l) at 1. by rewrite E, (drop_S _ _ _ Hx).
  - intros E. rewrite E. rewrite take_app_length' by by rewrite length_replicate.
    split; [done|]. rewrite lookup_app_r by by rewrite length_replicate. by rewrite length_replicate, Nat.sub_diag.
Qed.

Section Exact.
  Context `{heap : NSPRHeap} `{rand : RNG} `{ops : RSAOps} {hctx : Type}.
  Context (tbl : HASH_HashType → SECHashObject hctx).
  Hypothesis memory : ∀ n, 0 < n ≤ MAX_SIZE → ∃ m, PORT_Alloc n = Ok m.
  Hypothesis contexts : ∀ alg, ∃ c, hash_create (tbl alg) = Some c.
  Context (alg malg : HASH_HashType).
  Hypothesis alg_ok : alg ≠ HASH_AlgNULL.
  Hypothesis malg_ok : malg ≠ HASH_AlgNULL.
Let h := tbl alg.
Let mh := tbl malg.
Let hl := Z.to_nat (hash_length h).

(** The encodings a verifier accepts for a hash and a salt length. *)
Definition pss_valid (mHash em : list Z) (saltLen z : Z) : Prop :=
  ∃ salt, Z.of_nat (length salt) = saltLen ∧ hash_length h + 2 + saltLen ≤ length em ∧
          em = pss_em h mh (take hl mHash) salt (length em) z.

(** The checks of the code on the parts of a block. *)
Definition pss_checks (mHash mdb H : list Z) (last : Z) (n : nat) (z : Z) : Prop :=
  let db := clear_first z (xor_octets (mgf1_ref mh H (length mdb)) mdb) in
  last = 0xbc ∧ clear_first z mdb = mdb ∧ take n db = replicate n 0 ∧ db !! n = Some 1 ∧
  pss_H h (take hl mHash) (drop (S n) db) = H.

Lemma pss_valid_checks mHash mdb H last saltLen z : 0 ≤ z < 8 → 0 ≤ saltLen → length H = hl → saltLen + 1 ≤ length mdb →
  pss_valid mHash (mdb ++ H ++ [last]) saltLen z ↔
  pss_checks mHash mdb H last (length mdb - Z.to_nat saltLen - 1) z.
Proof.
  intros Hz Hs LH Lm. destruct (hash_sizes h) as [[Hh _] _].
  assert (Lem : length (mdb ++ H ++ [last]) = (length mdb + hl + 1)%nat) by (rewrite !length_app; cbn [length]; lia).
  set (n := (length mdb - Z.to_nat saltLen - 1)%nat).
  pose proof (λ H, proj1 (mgf1_ref_spec mh H (length mdb))) as Lk.
  assert (Ldb : ∀ salt, Z.of_nat (length salt) = saltLen → length (pss_db salt (length mdb)) = length mdb)
    by (intros salt E; apply length_pss_db; lia).
  unfold pss_valid, pss_checks, pss_em. rewrite Lem. fold hl. replace (length mdb + hl + 1 - hl - 1)%nat with (length mdb) by lia.
  split.
  - intros (salt & Ls & _ & E). rewrite (Ldb salt Ls) in E.
    apply app_snoc_inj in E as (Em & EH & ->);
      [|by rewrite length_clear_first, length_xor by (by rewrite (Ldb salt Ls), Lk); rewrite (Ldb salt Ls)|by rewrite pss_H_length].
    rewrite <- EH in Em. assert (Ec : clear_first z mdb = mdb) by (rewrite Em; apply clear_first_idem).
    apply clear_xor in Em; [|done|by rewrite Lk|by rewrite Lk, Ldb|by apply pss_db_clear|done].
    rewrite Em. assert (Hn : n = (length mdb - length salt - 1)%nat) by lia.
    assert (Ed : drop (S n) (pss_db salt (length mdb)) = salt).
    { unfold pss_db. rewrite <- Hn, cons_middle, app_assoc. apply drop_app_length'. rewrite length_app, length_replicate. cbn. lia. }
    rewrite Ed. split_and!; [done|done| | |done]; apply (list_split_at _ n 1); (rewrite Ldb by done; lia) || (rewrite Ed; unfold pss_db; by rewrite Hn).
  - cbn zeta. set (db := clear_first z (xor_octets (mgf1_ref mh H (length mdb)) mdb)). intros (-> & Ec & Ez & E1 & EH).
    assert (Ld : length db = length mdb) by (unfold db; rewrite length_clear_first, length_xor; by rewrite Lk).
    set (salt := drop (S n) db) in *.
    assert (Ls : Z.of_nat (length salt) = saltLen) by (unfold salt; rewrite length_drop; lia).
    assert (Edb : pss_db salt (length mdb) = db).
    { symmetry. unfold pss_db. replace (length mdb - length salt - 1)%nat with n by lia.
      apply (list_split_at db n 1); [lia|done]. }
    exists salt. split_and!; [done|lia|]. rewrite EH, Edb, Ld. f_equal.
    apply clear_xor; [done|by rewrite Lk|by rewrite Lk|unfold db; apply clear_first_idem|done|done].
Qed.

Lemma pss_fits saltLen (em : list Z) : 0 ≤ saltLen → length em < 2 ^ 28 →
  (saltLen >? length em) || (u32 (hash_length h + 2) >? length em - saltLen) =
  negb (hash_length h + 2 + saltLen <=? length em).
Proof.
  intros Hs Hl. destruct (hash_sizes h) as [[Hh Hh2] _]. unfold HASH_LENGTH_MAX in Hh2.
  rewrite wrap_small by lia. rewrite !Z.gtb_ltb.
  destruct (Z.ltb_spec (length em) saltLen), (Z.ltb_spec (length em - saltLen) (hash_length h + 2)), (Z.leb_spec (hash_length h + 2 + saltLen) (length em));
    cbn; (done || lia).
Qed.

(** Parts of a block of enough octets. *)
Lemma pss_parts (em : list Z) : hash_length h + 2 ≤ length em →
  ∃ mdb H last, em = mdb ++ H ++ [last] ∧ length H = hl ∧ length mdb = (length em - hl - 1)%nat.
Proof.
  intros Hl. destruct (hash_sizes h) as [[Hh _] _]. destruct (split_at em (length em - hl - 1) (hl + 1)) as (mdb & R & -> & Lm & LR); [unfold hl; lia|].
  destruct (split_at R hl 1 LR) as (H & L & -> & LH & LL). destruct L as [|last [|? ?]]; [done| |done].
  by exists mdb, H, last.
Qed.

(** What the code computes from the parts. *)
Lemma verify_parts mHash mdb H last saltLen z : bytes mdb → length H = hl → 0 ≤ z < 8 → 0 ≤ saltLen →
  saltLen + 1 ≤ length mdb → length (mdb ++ H ++ [last]) < 2 ^ 28 → hash_length h ≤ length mHash →
  let em := mdb ++ H ++ [last] in
  let n := (length mdb - Z.to_nat saltLen - 1)%nat in
  let db := clear_first z (xor_octets (mgf1_ref mh H (length mdb)) mdb) in
  emsa_pss_verify tbl mHash em (length em) (8 * length em - z) alg malg saltLen =
  let bad := Ok (Some SEC_ERROR_BAD_SIGNATURE) in
  if negb (last =? 0xbc) then bad
  else if negb (bool_decide (clear_first z mdb = mdb)) then bad
  else if negb (bool_decide (take n db = replicate n 0)) then bad
  else if negb (db !!! n =? 1) then bad
  else Ok (match memcmp (pss_H h (take hl mHash) (drop (S n) db)) H with Eq => None | _ => Some SEC_ERROR_BAD_SIGNATURE end).
Proof.
  intros Hb LH Hz Hs Lm Hl Hm em n db. destruct (hash_sizes h) as [[Hh Hh2] _]. unfold HASH_LENGTH_MAX in Hh2.
  assert (Lem : length em = (length mdb + hl + 1)%nat) by (unfold em; rewrite !length_app; cbn [length]; lia). fold em in Hl.
  unfold emsa_pss_verify. rewrite (get_hash tbl alg alg_ok). fold h. rewrite (proj2 (Z.ltb_ge _ _)) by lia.
  rewrite pss_fits, (proj2 (Z.leb_le _ _)) by (unfold hl in *; lia). cbn [negb].
  assert (Hlast : mem_read (E:=Empty_set) em (Z.to_nat (length em - 1)) 1 = Ok [last]).
  { rewrite mem_read_in by lia. replace (Z.to_nat (length em - 1)) with (length mdb + hl)%nat by lia.
    unfold em. by rewrite app_assoc, drop_app_length' by (rewrite length_app; lia). }
  rewrite Hlast. cbn [mbind res_bind]. change ([last] !!! 0%nat) with last.
  destruct (last =? 0xbc); [|done]. cbn [negb]. rewrite (wrap_small 32 (8 * length em - (8 * length em - z))) by lia.
  replace (8 * length em - (8 * length em - z)) with z by lia. rewrite wrap_small by lia.
  destruct mdb as [|b mdb']; [cbn [length] in Lm; lia|]. set (mdb := b :: mdb') in *.
  assert (Hfirst : mem_read (E:=Empty_set) em 0 1 = Ok [b]).
  { rewrite mem_read_in by lia. rewrite drop_0. unfold em, mdb. cbn [app take]. by rewrite take_0. }
  rewrite Hfirst. cbn [mbind res_bind]. change ([b] !!! 0%nat) with b. unfold shift_right. rewrite (proj2 (Z.ltb_lt _ _)) by lia. cbn [mbind res_bind].
  assert (Hb0 : 0 ≤ b) by (apply Forall_cons_1 in Hb as [Hb _]; unfold is_byte in Hb; lia).
  pose proof (top_bits_clear z b mdb' Hz Hb0) as Htop. fold mdb in Htop.
  assert (Etop : (Z.shiftr b (8 - z) =? 0) = bool_decide (clear_first z mdb = mdb)).
  { case_bool_decide; [apply Z.eqb_eq|apply Z.eqb_neq]; tauto. }
  rewrite Etop. case_bool_decide; [|done]. cbn [negb].
  replace (length em - hash_length h - 1) with (Z.of_nat (length mdb)) by (unfold hl in *; lia).
  destruct (memory (length mdb)) as [buf Hbuf]; [rewrite MAX_SIZE_val; unfold hl in *; lia|]. rewrite Hbuf.
  apply PORT_Alloc_Ok in Hbuf as (Lbuf & _); [|lia]. rewrite (proj2 (Z.eqb_neq _ 0)) in Lbuf by lia. rewrite !Nat2Z.id.
  assert (HH : mem_read (E:=Empty_set) em (length mdb) hl = Ok H).
  { rewrite mem_read_in by lia. unfold em. by rewrite drop_app_length, take_app_length'. }
  fold hl. rewrite HH. cbn [mbind res_bind].
  rewrite (MGF1_ok tbl memory contexts alg malg malg_ok) by lia. cbn [mbind res_bind]. rewrite Nat2Z.id, drop_ge, app_nil_r by lia. fold mh.
  destruct (mgf1_ref_spec mh H (length mdb)) as [Lk _]. set (k := mgf1_ref mh H (length mdb)) in *.
  assert (Hx : xor_at k 0 (length mdb) em = Ok (xor_octets k mdb)).
  { pose proof (xor_at_mid [] k [] em 0 (length mdb) eq_refl (eq_sym Lk)) as E. rewrite app_nil_r in E. cbn [app] in E.
    rewrite E by lia. rewrite app_nil_r. unfold em. by rewrite take_app_length. }
  rewrite Hx. cbn [mbind res_bind].
  assert (Lx : length (xor_octets k mdb) = length mdb) by (rewrite length_xor; lia).
  rewrite mask_first_spec by lia. cbn [mbind res_bind]. fold db.
  assert (Ld : length db = length mdb) by (unfold db; rewrite length_clear_first; lia).
  replace (Z.to_nat (length mdb - saltLen - 1)) with n by lia.
  rewrite pss_zeros_spec, drop_0 by lia. cbn [mbind res_bind]. case_bool_decide; [|done]. cbn [negb].
  rewrite (mem_read_in db n 1) by lia. cbn [mbind res_bind].
  assert (Hone : take 1 (drop n db) !!! 0%nat = db !!! n).
  { destruct (lookup_lt_is_Some_2 db n) as [x Hx1]; [lia|]. rewrite (drop_S _ _ _ Hx1), (list_lookup_total_correct _ _ _ Hx1). done. }
  rewrite Hone. destruct (db !!! n =? 1); [|done]. cbn [negb].
  destruct (memory (hash_length h)) as [buf2 Hbuf2]; [rewrite MAX_SIZE_val; lia|]. rewrite Hbuf2.
  apply PORT_Alloc_Ok in Hbuf2 as (Lbuf2 & _); [|lia]. rewrite (proj2 (Z.eqb_neq _ 0)) in Lbuf2 by lia.
  destruct (contexts alg) as [c Hc]. fold h in Hc. rewrite Hc.
  rewrite (mem_read_in mHash) by (unfold hl; lia). cbn [mbind res_bind]. rewrite drop_0.
  replace (Z.to_nat (length mdb - saltLen)) with (S n) by lia.
  rewrite (mem_read_in db (S n)) by lia. cbn [mbind res_bind].
  rewrite (take_ge (drop (S n) db)) by (rewrite length_drop; lia). rewrite pss_hash_H.
  pose proof (pss_H_length h (take hl mHash) (drop (S n) db)) as LH2. fold hl in LH2.
  rewrite mem_write_front by (unfold hl in *; lia). cbn [mbind res_bind].
  rewrite (mem_read_in (_ ++ _)) by (rewrite length_app; lia). cbn [mbind res_bind]. by rewrite drop_0, take_app_length'.
Qed.

Lemma pss_verify_spec mHash em saltLen z : bytes em → length em < 2 ^ 28 → hash_length h ≤ length mHash → 0 ≤ saltLen → 0 ≤ z < 8 →
  ∃ r, emsa_pss_verify tbl mHash em (length em) (8 * length em - z) alg malg saltLen = Ok r ∧
       (r = None ↔ pss_valid mHash em saltLen z) ∧ (r = None ∨ r = Some SEC_ERROR_BAD_SIGNATURE).
Proof.
  intros Hb Hl Hm Hs Hz. destruct (hash_sizes h) as [[Hh _] _].
  destruct (decide (hash_length h + 2 + saltLen ≤ length em)) as [Hfit|Hno].
  - destruct (pss_parts em ltac:(lia)) as (mdb & H & last & Eem & LH & Lm).
    assert (Lmz : saltLen + 1 ≤ length mdb) by (unfold hl in *; lia). clear Lm Hfit. subst em.
    pose proof (proj1 (Forall_app _ _ _) Hb) as [Bm _].
    rewrite (verify_parts mHash mdb H last saltLen z) by done. cbn zeta.
    pose proof (pss_valid_checks mHash mdb H last saltLen z Hz Hs LH Lmz) as Hv. unfold pss_checks in Hv. cbn zeta in Hv.
    generalize dependent (pss_valid mHash (mdb ++ H ++ [last]) saltLen z). intros V Hv.
    set (n := (length mdb - Z.to_nat saltLen - 1)%nat). set (db := clear_first z (xor_octets (mgf1_ref mh H (length mdb)) mdb)).
    fold n db in Hv.
    assert (Ld : length db = length mdb)
      by (unfold db; rewrite length_clear_first, length_xor; by rewrite (proj1 (mgf1_ref_spec mh H (length mdb)))).
    destruct (lookup_lt_is_Some_2 db n) as [x Hx]; [lia|]. rewrite Hx in Hv. rewrite (list_lookup_total_correct _ _ _ Hx).
    assert (Hbad : ¬ V → ∃ r, Ok (E:=Empty_set) (Some SEC_ERROR_BAD_SIGNATURE) = Ok r ∧ (r = None ↔ V) ∧ (r = None ∨ r = Some SEC_ERROR_BAD_SIGNATURE))
      by (intros HV; exists (Some SEC_ERROR_BAD_SIGNATURE); split_and!; [done|by split|by right]).
    destruct (Z.eqb_spec last 0xbc); cbn [negb]; [|apply Hbad; tauto].
    case_bool_decide; cbn [negb]; [|apply Hbad; tauto].
    case_bool_decide; cbn [negb]; [|apply Hbad; tauto].
    destruct (Z.eqb_spec x 1); cbn [negb]; [|apply Hbad; intros (_ & _ & _ & [= ->] & _)%Hv; done].
    pose proof (memcmp_Eq (pss_H h (take hl mHash) (drop (S n) db)) H) as Hc. rewrite pss_H_length in Hc. specialize (Hc (eq_sym LH)).
    destruct (memcmp _ H) eqn:Ec; [|apply Hbad; rewrite Hv; intuition congruence..].
    exists None. split_and!; [done| |by left]. rewrite Hv. subst. tauto.
  - exists (Some SEC_ERROR_BAD_SIGNATURE). split_and!; [|split; [done|]|by right].
    + unfold emsa_pss_verify. rewrite (get_hash tbl alg alg_ok). fold h. rewrite (proj2 (Z.ltb_ge _ _)) by lia.
      by rewrite pss_fits, (proj2 (Z.leb_gt _ _)) by lia.
    + intros (salt & _ & Hfit & _). lia.
Qed.
End Exact.

(** ** The size of a modulus *)

Lemma count_bits_spec f b n : 0 ≤ b < 2 ^ Z.of_nat f → 0 ≤ n → n + f < 2 ^ 32 →
  count_bits f b n = n + (if b =? 0 then 0 else Z.log2 b + 1).
Proof.
  revert b n. induction f as [|f IH]; intros b n Hb Hn Hf.
  { assert (b = 0) as -> by (change (2 ^ Z.of_nat 0) with 1 in Hb; lia). cbn. lia. }
  cbn [count_bits]. rewrite Z.gtb_ltb. destruct (Z.ltb_spec 0 b) as [Hp|Hp].
  2: { assert (b = 0) as -> by lia. cbn. lia. }
  rewrite wrap_small by lia. rewrite Z.shiftr_div_pow2 by lia. change (2 ^ 1) with 2.
  rewrite Nat2Z.inj_succ, Z.pow_succ_r in Hb by lia. rewrite (proj2 (Z.eqb_neq b 0)) by lia.
  rewrite IH; [|Z.to_euclidean_division_equations; lia..|lia|lia].
  destruct (Z.eqb_spec (b / 2) 0) as [E|E].
  - assert (b = 1) as -> by (Z.to_euclidean_division_equations; lia). cbn. lia.
  - assert (H2 : 2 ≤ b) by (Z.to_euclidean_division_equations; lia). apply Z.log2_le_mono in H2.
    change (Z.log2 2) with 1 in H2. change 2 with (2 ^ 1). rewrite <- Z.shiftr_div_pow2, Z.log2_shiftr by lia. lia.
Qed.

Lemma modulus_bits (m : list Z) : let k := rsa_modulusLen m in let bits := rsa_modulusBits m in
  bytes m → length m < 2 ^ 28 → 0 < k → 256 ^ (k - 1) ≤ be_val m →
  8 * (k - 1) < bits ≤ 8 * k ∧ 2 ^ (bits - 1) ≤ be_val m.
Proof.
  intros k bits Hb Hl Hk Hv.
  assert (Hgen : ∀ b l, is_byte b → b ≠ 0 → bytes l → length l < 2 ^ 28 →
    let n := count_bits 8 b (8 * length l) in
    8 * length l < n ≤ 8 * (length l + 1) ∧ 2 ^ (n - 1) ≤ be_val (b :: l)).
  { intros b l Hx Hx0 Hbl Hll. unfold is_byte in Hx. rewrite count_bits_spec by lia. rewrite (proj2 (Z.eqb_neq b 0)) by lia.
    pose proof (Z.log2_spec b ltac:(lia)) as [Hlo _]. pose proof (Z.log2_nonneg b) as Hn.
    assert (Hup : Z.log2 b < 8) by (apply Z.log2_lt_pow2; lia). cbn zeta. split; [lia|]. rewrite be_val_cons.
    pose proof (be_val_range l Hbl) as [Hr _]. replace (8 * length l + (Z.log2 b + 1) - 1) with (Z.log2 b + 8 * length l) by lia.
    rewrite Z.pow_add_r, Z.pow_mul_r by lia. change (2 ^ 8) with 256. nia. }
  unfold bits, k, rsa_modulusBits, rsa_modulusLen in *. destruct m as [|b0 l]; [done|].
  cbn [length] in *. apply Forall_cons_1 in Hb as [Hb0 Hbl].
  replace (Z.of_nat (S (length l))) with (length l + 1) in * by lia.
  rewrite (wrap_small 32 (length l + 1 - 1)), (wrap_small 32 ((length l + 1 - 1) * 8)) by lia.
  destruct (Z.eqb_spec b0 0) as [->|Hne]; cbn [andb].
  - rewrite wrap_small in * by lia. rewrite (proj2 (Z.eqb_neq (length l + 1) 1)) by lia.
    destruct l as [|b l]; [cbn in Hk; lia|]. cbn [hd length] in *. apply Forall_cons_1 in Hbl as [Hb Hbl].
    replace (Z.of_nat (S (length l))) with (length l + 1) in * by lia. rewrite wrap_small by lia.
    rewrite be_val_cons, Z.mul_0_l, Z.add_0_l in *. 
    assert (Hb0' : b ≠ 0).
    { intros ->. rewrite be_val_cons in Hv. pose proof (be_val_range l Hbl). replace (length l + 1 + 1 - 1 - 1) with (Z.of_nat (length l)) in Hv by lia. lia. }
    replace ((length l + 1 + 1 - 1) * 8 - 8) with (8 * length l) by lia.
    destruct (Hgen b l Hb Hb0' Hbl ltac:(lia)) as [H1 H2]. split; [lia|done].
  - rewrite Z.sub_0_r, wrap_small in * by lia. replace ((length l + 1 - 1) * 8) with (8 * length l) by lia.
    destruct (Hgen b0 l Hb0 Hne Hbl ltac:(lia)) as [H1 H2]. split; [lia|done].
Qed.

Definition pss_zeroBits (m : list Z) : Z :=
  8 * (rsa_modulusLen m - pss_skip (rsa_modulusBits m)) - (rsa_modulusBits m - 1).

Lemma pss_zeroBits_range (m : list Z) : let k := rsa_modulusLen m in let bits := rsa_modulusBits m in
  8 * (k - 1) < bits ≤ 8 * k → 0 ≤ pss_zeroBits m < 8.
Proof.
  intros k bits Hb. unfold pss_zeroBits, pss_skip. fold k bits. destruct (Z.eqb_spec (bits mod 8) 1) as [E|E];
    Z.to_euclidean_division_equations; lia.
Qed.

Lemma pss_skip_range bits : 0 ≤ pss_skip bits ≤ 1.
Proof. unfold pss_skip. destruct (_ =? _); lia. Qed.

(** ** Signatures *)

Lemma clear_first_app z a b : (0 < length a)%nat → clear_first z (a ++ b) = clear_first z a ++ b.
Proof. by destruct a; [cbn; lia|]. Qed.

(** Clearing bounds the number a block stands for. *)
Lemma clear_first_below z l : 0 ≤ z < 8 → bytes l → (0 < length l)%nat → be_val (clear_first z l) < 2 ^ (8 * length l - z).
Proof.
  intros Hz Hb Hl. destruct l as [|b l]; [cbn in Hl; lia|]. apply Forall_cons_1 in Hb as [_ Hb]. cbn [clear_first length].
  rewrite be_val_cons, land_low by done. pose proof (be_val_range l Hb) as Hr.
  pose proof (Z.mod_pos_bound b (2 ^ (8 - z)) ltac:(lia)) as Hm.
  replace (8 * Z.of_nat (S (length l)) - z) with (8 - z + 8 * length l) by lia. rewrite Z.pow_add_r, (Z.pow_mul_r 2 8) by lia.
  change (2 ^ 8) with 256 in *. nia.
Qed.

Lemma clear_first_bytes z l : 0 ≤ z < 8 → bytes l → bytes (clear_first z l).
Proof.
  intros Hz Hb. destruct l as [|b l]; [done|]. apply Forall_cons_1 in Hb as [Hx Hb]. cbn [clear_first]. apply Forall_cons_2; [|done].
  unfold is_byte in *. rewrite land_low by done. pose proof (Z.mod_pos_bound b (2 ^ (8 - z)) ltac:(lia)).
  pose proof (Z.mod_le b (2 ^ (8 - z)) ltac:(lia) ltac:(lia)). lia.
Qed.

Section Signatures.
  Context `{heap : NSPRHeap} `{rand : RNG} `{ops : RSAOps} {hctx : Type}.
  Context (tbl : HASH_HashType → SECHashObject hctx).
  Hypothesis memory : ∀ n, 0 < n ≤ MAX_SIZE → ∃ m, PORT_Alloc n = Ok m.
  Hypothesis contexts : ∀ alg, ∃ c, hash_create (tbl alg) = Some c.
  Context (alg malg : HASH_HashType).
  Hypothesis alg_ok : alg ≠ HASH_AlgNULL.
  Hypothesis malg_ok : malg ≠ HASH_AlgNULL.
Let h := tbl alg.
Let mh := tbl malg.
Let hl := Z.to_nat (hash_length h).

Lemma pss_em_spec mHash salt n z : 0 ≤ z < 8 → (length salt + hl + 2 ≤ n)%nat → bytes salt →
  length (pss_em h mh mHash salt n z) = n ∧ bytes (pss_em h mh mHash salt n z) ∧
  be_val (pss_em h mh mHash salt n z) < 2 ^ (8 * n - z).
Proof.
  intros Hz Hn Hs. unfold pss_em. fold hl. set (dbn := (n - hl - 1)%nat). set (H := pss_H h mHash salt).
  assert (Ld : length (pss_db salt dbn) = dbn) by (apply length_pss_db; lia). rewrite Ld.
  destruct (mgf1_ref_spec mh H dbn) as [Lk Bk]. set (x := xor_octets (pss_db salt dbn) (mgf1_ref mh H dbn)).
  assert (Lx : length x = dbn) by (unfold x; rewrite length_xor; lia).
  assert (LH : length H = hl) by apply pss_H_length. assert (BH : bytes H) by apply digest_bytes.
  assert (Bx : bytes x).
  { apply xor_bytes; [|done]. apply Forall_app. split; [by apply Forall_replicate|]. by apply Forall_cons_2. }
  rewrite <- clear_first_app by lia.
  assert (B : bytes (x ++ H ++ [0xbc])) by (repeat (apply Forall_app; split); [done|done|by apply Forall_cons_2]).
  assert (L : length (x ++ H ++ [0xbc]) = n) by (rewrite !length_app; cbn [length]; lia).
  split_and!; [by rewrite length_clear_first|by apply clear_first_bytes|].
  rewrite <- L. apply clear_first_below; [done|done|lia].
Qed.

Lemma pss_encode_spec em mHash salt saltLen s z g :
  0 ≤ z < 8 → 0 ≤ saltLen → hash_length h + 2 + saltLen ≤ length em → length em < 2 ^ 28 → hash_length h ≤ length mHash →
  match salt with
  | None => (RNG_GenerateGlobalRandomBytes g (Z.to_nat saltLen)).1 = Some s
  | Some l => saltLen ≤ length l ∧ s = take (Z.to_nat saltLen) l
  end → Z.of_nat (length s) = saltLen →
  RSA_EMSAEncodePSS tbl em (length em) (8 * length em - z) mHash alg malg salt saltLen g =
  Ok (pss_em h mh (take hl mHash) s (length em) z, None).
Proof.
  intros Hz Hs Hfit Hl Hm Hsalt Ls. destruct (hash_sizes h) as [[Hh Hh2] _]. unfold HASH_LENGTH_MAX in Hh2.
  unfold RSA_EMSAEncodePSS. rewrite (get_hash tbl alg alg_ok). fold h. rewrite (proj2 (Z.ltb_ge _ _)) by lia.
  rewrite (pss_fits tbl alg), (proj2 (Z.leb_le _ _)) by (done || lia). cbn [negb].
  assert (Es : (match salt with
                | None => Ok (RNG_GenerateGlobalRandomBytes g (Z.to_nat saltLen)).1
                | Some s => s ← mem_read s 0 (Z.to_nat saltLen); Ok (Some s)
                end : mem_res (option (list Z))) = Ok (Some s)).
  { destruct salt as [l|]; [|by rewrite Hsalt]. destruct Hsalt as [Hl1 ->]. rewrite mem_read_in by lia. by rewrite drop_0. }
  rewrite Es. cbn [mbind res_bind]. set (dbn := (length em - hl - 1)%nat). set (n := (dbn - length s - 1)%nat).
  assert (Hd : Z.of_nat dbn = length em - hash_length h - 1) by (unfold dbn, hl in *; lia).
  rewrite <- Hd, <- Ls. rewrite !(wrap_small 32) by lia.
  replace (8 * length em - (8 * length em - z)) with z by lia.
  replace (Z.to_nat (dbn - length s)) with (n + 1)%nat by lia. replace (Z.to_nat (dbn - length s - 1)) with n by lia.
  replace (Z.to_nat (length em - 1)) with (dbn + hl)%nat by (unfold hl; lia). rewrite !Nat2Z.id. fold hl.
  destruct (split_at em n (1 + length s + hl + 1)) as (E0 & R0 & Eem & L0 & LR0); [unfold hl in *; lia|].
  destruct (split_at R0 1 (length s + hl + 1)) as (E1 & R1 & -> & L1 & LR1); [lia|].
  destruct (split_at R1 (length s) (hl + 1)) as (E2 & R2 & -> & L2 & LR2); [lia|].
  destruct (split_at R2 hl 1) as (E3 & E4 & -> & L3 & L4); [lia|].
  assert (Hdn : (dbn = n + 1 + length s)%nat) by (unfold n; lia).
  rewrite (mem_write_seg em (E0 ++ E1) E2 (E3 ++ E4)) by (rewrite ?length_app, <- ?app_assoc; (done || lia)). cbn [mbind res_bind].
  destruct (contexts alg) as [c Hc]. fold h in Hc. rewrite Hc. rewrite (mem_read_in mHash) by (unfold hl; lia).
  cbn [mbind res_bind]. rewrite drop_0.
  assert (Er : mem_read (E:=Empty_set) ((E0 ++ E1) ++ s ++ E3 ++ E4) (n + 1) (length s) = Ok s).
  { rewrite mem_read_in by (rewrite !length_app; lia). rewrite drop_app_length' by (rewrite length_app; lia). by rewrite take_app_length. }
  rewrite Er. cbn [mbind res_bind]. rewrite pss_hash_H. set (H := pss_H h (take hl mHash) s).
  assert (LH : length H = hl) by apply pss_H_length.
  rewrite (mem_write_seg _ ((E0 ++ E1) ++ s) E3 E4) by (rewrite ?length_app, <- ?app_assoc; (done || lia)). cbn [mbind res_bind].
  rewrite (mem_write_seg _ [] E0 (E1 ++ s ++ H ++ E4)) by (rewrite ?length_replicate, <- ?app_assoc; (done || lia)). cbn [mbind res_bind app].
  rewrite (mem_write_seg _ (replicate n 0) E1 (s ++ H ++ E4)) by (rewrite ?length_replicate; (done || lia)). cbn [mbind res_bind].
  destruct (memory dbn) as [buf Hbuf]; [rewrite MAX_SIZE_val; lia|]. rewrite Hbuf.
  apply PORT_Alloc_Ok in Hbuf as (Lbuf & _); [|lia]. rewrite (proj2 (Z.eqb_neq _ 0)) in Lbuf by lia.
  assert (Edb : replicate n 0 ++ [1] ++ s ++ H ++ E4 = pss_db s dbn ++ H ++ E4) by (unfold pss_db; fold n; by rewrite <- app_assoc).
  rewrite Edb. set (db := pss_db s dbn). assert (Ldb : length db = dbn) by (apply length_pss_db; lia).
  assert (EH : mem_read (E:=Empty_set) (db ++ H ++ E4) dbn hl = Ok H).
  { rewrite mem_read_in by (rewrite !length_app; lia). by rewrite drop_app_length', take_app_length'. }
  rewrite EH. cbn [mbind res_bind]. rewrite (MGF1_ok tbl memory contexts alg malg malg_ok) by lia. cbn [mbind res_bind]. fold mh.
  rewrite Nat2Z.id. destruct (mgf1_ref_spec mh H dbn) as [Lk _]. rewrite (drop_ge buf), app_nil_r by lia.
  rewrite (xor_at_mid [] db (H ++ E4)) by (done || lia). cbn [mbind res_bind app]. rewrite take_ge by lia.
  set (x := xor_octets db (mgf1_ref mh H dbn)). assert (Lx : length x = dbn) by (unfold x; rewrite length_xor; lia).
  rewrite mask_first_spec by (rewrite ?length_app; lia). cbn [mbind res_bind]. rewrite clear_first_app by lia.
  rewrite (mem_write_seg _ (clear_first z x ++ H) E4 [])
    by (rewrite ?app_nil_r, ?length_app, ?length_clear_first, <- ?app_assoc; (done || cbn [length]; lia)). cbn [mbind res_bind].
  rewrite app_nil_r, <- app_assoc. unfold pss_em. fold hl dbn H db. by rewrite Ldb.
Qed.

(** The block RSA_CheckSignPSS opens a signature to is judged after the octet
    that a modulus of 8n + 1 bits puts in front. *)
Lemma CheckSignPSS_opened key sig mHash saltLen m : let k := rsa_modulusLen (modulus key) in
  bytes (modulus key) → length (modulus key) < 2 ^ 28 → 0 < k → 256 ^ (k - 1) ≤ be_val (modulus key) →
  Z.of_nat (length sig) = k → 0 ≤ saltLen → hash_length h ≤ length mHash → RSA_PublicKeyOp key sig = Ok m →
  ∃ r, RSA_CheckSignPSS tbl key alg malg saltLen sig mHash = Ok r ∧
       (r = None ↔ pss_valid tbl alg malg mHash (drop (Z.to_nat (pss_skip (rsa_modulusBits (modulus key)))) m) saltLen
                             (pss_zeroBits (modulus key))) ∧
       (r = None ∨ r = Some SEC_ERROR_BAD_SIGNATURE).
Proof.
  intros k Hbm Hlm Hk Hv Ls Hs Hm Hop. destruct (modulus_bits _ Hbm Hlm Hk Hv) as [Hbits _]. fold k in Hbits.
  pose proof (pss_zeroBits_range _ Hbits) as Hz. set (bits := rsa_modulusBits (modulus key)) in *.
  destruct (RSA_PublicKeyOp_length key sig m Hop) as [Lm Bm]. fold k in Lm. pose proof (pss_skip_range bits) as Hskip.
  assert (Hkb : k ≤ length (modulus key)).
  { unfold k, rsa_modulusLen. destruct (modulus key) as [|b l] eqn:E; [done|]. destruct (b =? 0); rewrite wrap_small; cbn [length] in *; lia. }
  unfold RSA_CheckSignPSS. fold k bits. rewrite (proj2 (Z.eqb_eq _ _)) by lia. cbn [negb].
  rewrite !(bool_decide_eq_false_2 (_ = HASH_AlgNULL)) by done. cbn [orb].
  destruct (memory k) as [buf Hbuf]; [rewrite MAX_SIZE_val; lia|]. rewrite Hbuf, Hop.
  apply PORT_Alloc_Ok in Hbuf as (Lbuf & _); [|lia]. rewrite (proj2 (Z.eqb_neq _ 0)) in Lbuf by lia.
  rewrite mem_write_front, drop_ge, app_nil_r by lia. cbn [mbind res_bind]. set (em := drop (Z.to_nat (pss_skip bits)) m).
  assert (Lem : Z.of_nat (length em) = k - pss_skip bits) by (unfold em; rewrite length_drop; lia).
  rewrite !wrap_small by lia. rewrite <- Lem.
  replace (bits - 1) with (8 * length em - pss_zeroBits (modulus key)) by (unfold pss_zeroBits; fold k bits; lia).
  apply (pss_verify_spec tbl memory contexts alg malg alg_ok malg_ok); try done; [by apply Forall_drop|lia].
Qed.

(** [C26] RSA_CheckSignPSS accepts a signature of the modulus's length exactly
    when it opens to the PSS encoding of RFC 3447 of the hash under some salt of
    the length asked for, and otherwise reports SEC_ERROR_BAD_SIGNATURE.  For a
    modulus of 8n + 1 bits the encoding follows one octet of the opened block
    that is not looked at. *)
Theorem CheckSignPSS_exact (key : RSAKey) (sig mHash : list Z) (saltLen : Z) :
  let k := rsa_modulusLen (modulus key) in
  let skip := Z.to_nat (pss_skip (rsa_modulusBits (modulus key))) in
  rsa_key_ok key → bytes (modulus key) → length (modulus key) < 2 ^ 28 → 256 ^ (k - 1) ≤ be_val (modulus key) →
  bytes sig → Z.of_nat (length sig) = k → 0 < k → below_modulus key sig = true →
  0 ≤ saltLen → hash_length h ≤ length mHash →
  ∃ m r, RSA_PublicKeyOp key sig = Ok m ∧ RSA_CheckSignPSS tbl key alg malg saltLen sig mHash = Ok r ∧
    (r = None ↔ ∃ pre salt, length pre = skip ∧ Z.of_nat (length salt) = saltLen ∧ hash_length h + 2 + saltLen ≤ k - skip ∧
                  m = pre ++ pss_em h mh (take hl mHash) salt (Z.to_nat k - skip) (pss_zeroBits (modulus key))) ∧
    (r = None ∨ r = Some SEC_ERROR_BAD_SIGNATURE).
Proof.
  intros k skip Hkey Hbm Hlm Hv Hb Ls Hk Hbelow Hs Hm. pose proof (pss_skip_range (rsa_modulusBits (modulus key))) as Hskip.
  destruct (RSA_PublicKeyOp_block key sig Hkey Hb Ls Hbelow) as (m & Hop & Lm & _).
  destruct (CheckSignPSS_opened key sig mHash saltLen m Hbm Hlm Hk Hv Ls Hs Hm Hop) as (r & E & Hr & Hr2). fold skip in Hr.
  exists m, r. split_and!; [done|done| |done]. rewrite Hr. unfold pss_valid. rewrite length_drop. fold h mh hl.
  replace (length m - skip)%nat with (Z.to_nat k - skip)%nat by lia. split.
  - intros (salt & H1 & H2 & H3). exists (take skip m), salt. rewrite length_take. split_and!; [lia|done|lia|].
    rewrite <- H3. by rewrite take_drop.
  - intros (pre & salt & H0 & H1 & H2 & ->). exists salt. split_and!; [done|lia|]. by rewrite drop_app_length'.
Qed.

(** What RSA_SignPSS stores, with a salt that is supplied or random, has the
    modulus's length and is accepted by RSA_CheckSignPSS. *)
Theorem SignPSS_round_trip (key : RSAKey) (mHash out s : list Z) (salt : option (list Z)) (saltLen max : Z) (g : rng) :
  let k := rsa_modulusLen (modulus key) in
  rsa_key_ok key → bytes (modulus key) → length (modulus key) < 2 ^ 28 → 256 ^ (k - 1) ≤ be_val (modulus key) →
  hash_length h + 2 + saltLen ≤ k - pss_skip (rsa_modulusBits (modulus key)) → 0 ≤ saltLen → hash_length h ≤ length mHash →
  k ≤ max ≤ length out → bytes out →
  match salt with
  | None => (RNG_GenerateGlobalRandomBytes g (Z.to_nat saltLen)).1 = Some s
  | Some l => saltLen ≤ length l ∧ s = take (Z.to_nat saltLen) l
  end → Z.of_nat (length s) = saltLen → bytes s →
  ∃ o, RSA_SignPSS tbl key alg malg salt saltLen out max mHash g = Ok (o, inl k) ∧
       RSA_CheckSignPSS tbl key alg malg saltLen (take (Z.to_nat k) o) mHash = Ok None.
Proof.
  intros k Hkey Hbm Hlm Hv Hfit Hs Hm Hmax Hout Hsalt Ls Bs. destruct (hash_sizes h) as [[Hh _] _].
  set (bits := rsa_modulusBits (modulus key)) in *. pose proof (pss_skip_range bits) as Hskip. assert (Hk : 0 < k) by lia.
  destruct (modulus_bits _ Hbm Hlm Hk Hv) as [Hbits Hpow]. fold k bits in Hbits, Hpow.
  pose proof (pss_zeroBits_range _ Hbits) as Hz. set (z := pss_zeroBits (modulus key)) in *.
  assert (Hkb : k ≤ length (modulus key)).
  { unfold k, rsa_modulusLen. destruct (modulus key) as [|b l] eqn:E; [done|]. destruct (b =? 0); rewrite wrap_small; cbn [length] in *; lia. }
  unfold RSA_SignPSS. fold k bits. rewrite (proj2 (Z.ltb_ge _ _)) by lia.
  rewrite !(bool_decide_eq_false_2 (_ = HASH_AlgNULL)) by done. cbn [orb].
  destruct (memory k) as [buf Hbuf]; [rewrite MAX_SIZE_val; lia|]. rewrite Hbuf.
  apply PORT_Alloc_Ok in Hbuf as (Lbuf & _); [|lia]. rewrite (proj2 (Z.eqb_neq _ 0)) in Lbuf by lia.
  set (skip := Z.to_nat (pss_skip bits)). rewrite mem_write_front by (rewrite length_replicate; lia). cbn [mbind res_bind].
  rewrite length_replicate, drop_app_length', take_app_length' by by rewrite length_replicate.
  set (em := drop skip buf). assert (Lem : Z.of_nat (length em) = k - pss_skip bits) by (unfold em; rewrite length_drop; lia).
  rewrite !wrap_small by lia. rewrite <- Lem.
  replace (bits - 1) with (8 * length em - z) by (unfold z, pss_zeroBits; fold k bits; lia).
  rewrite (pss_encode_spec em mHash salt saltLen s z g Hz Hs) by (done || lia). cbn [mbind res_bind].
  destruct (pss_em_spec (take hl mHash) s (length em) z Hz) as (LE & BE & VE); [unfold hl; lia|done|].
  set (EM := pss_em h mh (take hl mHash) s (length em) z) in *.
  assert (Lblk : Z.of_nat (length (replicate skip 0 ++ EM)) = k) by (rewrite length_app, length_replicate; lia).
  assert (Bblk : bytes (replicate skip 0 ++ EM)) by (apply Forall_app; split; [by apply Forall_replicate|done]).
  assert (Hbelow : below_modulus key (replicate skip 0 ++ EM) = true).
  { unfold below_modulus. apply Z.ltb_lt. rewrite be_val_app, be_val_zeros, Z.mul_0_l, Z.add_0_l.
    replace (8 * length em - z) with (bits - 1) in VE by (unfold z, pss_zeroBits; fold k bits; lia). lia. }
  assert (Ltk : length (take (Z.to_nat k) out) = length (replicate skip 0 ++ EM)) by (rewrite length_take; lia).
  destruct (RSA_PrivateKeyOp_block key (take (Z.to_nat k) out) (replicate skip 0 ++ EM) Hkey Bblk (Forall_take _ _ _ Hout) Ltk Lblk Hbelow)
    as (c & _ & -> & Lc & Bc & _ & Hop). cbn [fst snd]. rewrite mem_write_front by lia. cbn [mbind res_bind rsa_done].
  eexists. split; [done|]. rewrite take_app_length' by lia.
  destruct (CheckSignPSS_opened key c mHash saltLen _ Hbm Hlm Hk Hv ltac:(fold k; lia) Hs Hm Hop) as (r & -> & Hr & _).
  fold bits z in Hr. fold skip in Hr. f_equal. apply Hr. rewrite drop_app_length' by by rewrite length_replicate.
  exists s. rewrite LE. split_and!; [done|fold h; lia|done].
Qed.
End Signatures.

(** ** Evaluation *)

#[local] Existing Instance toy_rsa.
#[local] Existing Instance toy_rng.

Definition demo_hash : list Z := [9; 8; 7; 6].

(** A modulus of 121 bits, for which the encoding is one octet shorter. *)
Definition demo_odd : RSAKey := {| modulus := 1 :: replicate 15 0x9d; privateExponent := [5] |}.
Lemma demo_odd_ok : toy_key_ok demo_odd.
Proof. split; [|done]. apply Forall_cons_2; [done|]. by apply Forall_replicate. Qed.

Example demo_pss_sizes :
  rsa_modulusBits (modulus demo_rsa) = 128 ∧ rsa_modulusBits (modulus demo_odd) = 121 ∧
  pss_zeroBits (modulus demo_rsa) = 1 ∧ pss_zeroBits (modulus demo_odd) = 0.
Proof. done. Qed.

Definition demo_sign_pss (key : RSAKey) : list Z :=
  plain_of (RSA_SignPSS demo_hashes key HASH_AlgSHA1 HASH_AlgSHA256 None 5 demo_out 20 demo_hash true).

Example demo_pss_checks :
  RSA_CheckSignPSS demo_hashes demo_rsa HASH_AlgSHA1 HASH_AlgSHA256 5 (demo_sign_pss demo_rsa) demo_hash = Ok None ∧
  RSA_CheckSignPSS demo_hashes demo_odd HASH_AlgSHA1 HASH_AlgSHA256 5 (demo_sign_pss demo_odd) demo_hash = Ok None ∧
  RSA_CheckSignPSS demo_hashes demo_rsa HASH_AlgSHA1 HASH_AlgSHA256 4 (demo_sign_pss demo_rsa) demo_hash = Ok (Some SEC_ERROR_BAD_SIGNATURE) ∧
  RSA_CheckSignPSS demo_hashes demo_rsa HASH_AlgSHA1 HASH_AlgSHA256 5 (demo_sign_pss demo_rsa) [9; 8; 7; 5] = Ok (Some SEC_ERROR_BAD_SIGNATURE).
Proof. vm_compute. done. Qed.

Lemma SignPSS_round_trip_witness :
  ∃ o, RSA_SignPSS demo_hashes demo_odd HASH_AlgSHA1 HASH_AlgSHA256 None 5 demo_out 20 demo_hash true = Ok (o, inl 16) ∧
       RSA_CheckSignPSS demo_hashes demo_odd HASH_AlgSHA1 HASH_AlgSHA256 5 (take 16 o) demo_hash = Ok None.
Proof.
  apply (SignPSS_round_trip demo_hashes demo_memory demo_contexts HASH_AlgSHA1 HASH_AlgSHA256 ltac:(done) ltac:(done)
    demo_odd demo_hash demo_out (toy_random true 5) None 5 20 true);
    [apply demo_odd_ok|apply demo_odd_ok|done|vm_compute; discriminate..|split; vm_compute; discriminate|apply demo_out_bytes|done|done|].
  repeat apply Forall_cons_2; try done.
Defined.

Lemma CheckSignPSS_exact_witness :
  RSA_CheckSignPSS demo_hashes demo_rsa HASH_AlgSHA1 HASH_AlgSHA256 5 (replicate 16 1) demo_hash = Ok (Some SEC_ERROR_BAD_SIGNATURE).
Proof.
  destruct (CheckSignPSS_exact demo_hashes demo_memory demo_contexts HASH_AlgSHA1 HASH_AlgSHA256 ltac:(done) ltac:(done)
    demo_rsa (replicate 16 1) demo_hash 5) as (m & r & Hop & E & Hr & Hr2);
    [apply demo_rsa_ok|apply demo_rsa_ok|done|vm_compute; discriminate|by apply Forall_replicate|done|done|done|done|vm_compute; discriminate|].
  destruct Hr2 as [-> | ->]; [|done]. exfalso. vm_compute in E. discriminate.
Defined.

(** The octet in front of an encoding of 15 octets is not looked at: a block that
    starts with 1, which RFC 3447 (8.1.2, step 2c) refuses, is accepted. *)
Definition demo_forged : list Z :=
  toy_neg demo_odd (1 :: pss_em toy_hash toy_hash demo_hash [7; 4; 5; 6; 7] 15 0).

Example demo_pss_first_octet :
  below_modulus demo_odd demo_forged = true ∧
  RSA_CheckSignPSS demo_hashes demo_odd HASH_AlgSHA1 HASH_AlgSHA256 5 demo_forged demo_hash = Ok None.
Proof. vm_compute. done. Qed.
