(* ===== verification/CbcRecord.v ===== *)
(** lib/ssl/ssl3con.c: padding and MAC of CBC records, without branches on what
    was decrypted.

    [RemoveTLSCBCPadding_spec], [RemoveSSLv3CBCPadding_spec] and
    [CBCExtractMAC_exact] say that the masks compute what a direct reading of
    RFC 5246 (6.2.3.2) and RFC 6101 computes. *)

From stdpp Require Import base numbers list.
From S2P Require Import Prelude ConstTime.

Definition MAX_MAC_LENGTH : Z := 64.

(** SECSuccess is 0 and SECFailure -1. *)
Definition status_int (ok : bool) : Z := if ok then 0 else -1.

Definition SECStatusToMask (rv : Z) : Z := PORT_CT_EQ (u32 rv) 0.

Definition ssl_ConstantTimeGE (a b : Z) : Z := u8 (PORT_CT_GE a b).
Definition ssl_ConstantTimeEQ (a b : Z) : Z := u8 (PORT_CT_EQ a b).
Definition ssl_constantTimeSelect (mask a b : Z) : Z := u8 (Z.lor (Z.land mask a) (Z.land (Z.lnot mask) b)).

(** [(good & SECSuccess) | (~good & SECFailure)], an int *)
Definition good_status (good : Z) : Z := swrap 32 (Z.lor (Z.land good 0) (Z.land (not32 good) (u32 (-1)))).

(** An octet of the plaintext. *)
Definition octet_at (buf : list Z) (i : Z) : mem_res Z :=
  match buf !! Z.to_nat i with Some b => Ok b | None => UB end.

(** The new length of the plaintext and the status. *)
Definition ssl_RemoveSSLv3CBCPadding (buf : list Z) (len blockSize macSize : Z) : mem_res (Z * Z) :=
  let overhead := u32 (1 + macSize) in
  if overhead >? len then Ok (len, -1) else
  paddingLength ← octet_at buf (len - 1);
  let good := PORT_CT_GE len (u32 (paddingLength + overhead)) in
  let good := Z.land good (PORT_CT_GE blockSize (u32 (paddingLength + 1))) in
  Ok (u32 (len - Z.land good (u32 (paddingLength + 1))), good_status good).

(** [for (i = 0; i < toCheck; i++)] from [i], [n] turns left. *)
Fixpoint check_padding (n : nat) (i : Z) (buf : list Z) (len paddingLength good : Z) : mem_res Z :=
  match n with
  | O => Ok good
  | S n =>
      let mask := u8 (PORT_CT_LE i paddingLength) in
      b ← octet_at buf (len - 1 - i);
      check_padding n (i + 1) buf len paddingLength (Z.land good (u32 (Z.lnot (Z.land mask (Z.lxor paddingLength b)))))
  end.

(** The low eight bits are anded together and the result is duplicated. *)
Definition fold_good (good : Z) : Z :=
  let good := Z.land good (Z.shiftr good 4) in
  let good := Z.land good (Z.shiftr good 2) in
  let good := Z.land good (Z.shiftr good 1) in
  PORT_CT_DUPLICATE_MSB_TO_ALL (u32 (Z.shiftl good 31)).

Definition ssl_RemoveTLSCBCPadding (buf : list Z) (len macSize : Z) : mem_res (Z * Z) :=
  let overhead := u32 (1 + macSize) in
  if overhead >? len then Ok (len, -1) else
  paddingLength ← octet_at buf (len - 1);
  let good := PORT_CT_GE len (u32 (paddingLength + overhead)) in
  let toCheck := if 256 >? len then len else 256 in
  good ← check_padding (Z.to_nat toCheck) 0 buf len paddingLength good;
  let good := fold_good good in
  Ok (u32 (len - Z.land good (u32 (paddingLength + 1))), good_status good).

(** [rotateOffset], an octet, modulo the MAC's size. *)
Definition mac_rotation (macSize rotateOffset : Z) : Z :=
  if macSize =? 16 then Z.land rotateOffset 15
  else if macSize =? 20 then
    let q := Z.shiftr (rotateOffset * 25) 9 in
    let rotateOffset := u8 (rotateOffset - q * 20) in
    u8 (rotateOffset - ssl_constantTimeSelect (ssl_ConstantTimeGE rotateOffset 20) 20 0)
  else if macSize =? 32 then Z.land rotateOffset 31
  else if macSize =? 48 then
    let q := Z.shiftr (rotateOffset * 10) 9 in
    let rotateOffset := u8 (rotateOffset - q * 48) in
    u8 (rotateOffset - ssl_constantTimeSelect (ssl_ConstantTimeGE rotateOffset 48) 48 0)
  else u8 (rotateOffset mod macSize).

(** The two loops over the plaintext from [i], [n] octets left: [j] starts again
    at the end of [rotatedMac]. *)
Fixpoint scan_mac (n : nat) (i : Z) (j : nat) (buf : list Z) (macStart macEnd : Z) (rotatedMac : list Z) : mem_res (list Z) :=
  match n with
  | O => Ok rotatedMac
  | S n =>
      let j := if (j <? length rotatedMac)%nat then j else 0%nat in
      let macStarted := ssl_ConstantTimeGE i macStart in
      let macEnded := ssl_ConstantTimeGE i macEnd in
      b ← octet_at buf i;
      match rotatedMac !! j with
      | None => UB
      | Some old =>
          let new := u8 (Z.lor old (Z.land (Z.land b macStarted) (Z.lnot macEnded))) in
          scan_mac n (i + 1) (j + 1) buf macStart macEnd (<[j := new]> rotatedMac)
      end
  end.

(** [for (j = 0; j < macSize; j++) out[j] |= m & ssl_ConstantTimeEQ(j, rotateOffset)] *)
Fixpoint rotate_row (j : Z) (out : list Z) (m rotateOffset : Z) : list Z :=
  match out with
  | [] => []
  | o :: out => u8 (Z.lor o (Z.land m (ssl_ConstantTimeEQ (u8 j) rotateOffset))) :: rotate_row (j + 1) out m rotateOffset
  end.

Fixpoint rotate_mac (macSize rotateOffset : Z) (out rotatedMac : list Z) {struct rotatedMac} : list Z :=
  match rotatedMac with
  | [] => out
  | m :: rotatedMac =>
      let out := rotate_row 0 out m rotateOffset in
      let rotateOffset := u8 (rotateOffset + 1) in
      rotate_mac macSize (ssl_constantTimeSelect (ssl_ConstantTimeGE rotateOffset macSize) 0 rotateOffset) out rotatedMac
  end.

(** The octets stored in [out]; a MAC that does not fit into rotatedMac, or is
    empty, is not catered for. *)
Definition ssl_CBCExtractMAC (buf : list Z) (len originalLength macSize : Z) : mem_res (list Z) :=
  let macEnd := len in
  let macStart := u32 (macEnd - macSize) in
  let scanStart := if originalLength >? macSize + 255 + 1 then originalLength - (macSize + 255 + 1) else 0 in
  if (macSize =? 0) || (macSize >? MAX_MAC_LENGTH) then UB else
  let rotateOffset := mac_rotation macSize (u8 (macStart - scanStart)) in
  rotatedMac ← scan_mac (Z.to_nat (originalLength - scanStart)) scanStart 0 buf macStart macEnd (replicate (Z.to_nat macSize) 0);
  let rotateOffset := u8 (macSize - rotateOffset) in
  let rotateOffset := ssl_constantTimeSelect (ssl_ConstantTimeGE rotateOffset macSize) 0 rotateOffset in
  Ok (rotate_mac macSize rotateOffset (replicate (Z.to_nat macSize) 0) rotatedMac).

(** ** Masks in an octet *)

Definition mask8 (b : bool) : Z := if b then 255 else 0.

Lemma GE8_mask a b : 0 ≤ a < 2 ^ 31 → 0 ≤ b < 2 ^ 31 → ssl_ConstantTimeGE a b = mask8 (b <=? a).
Proof. intros Ha Hb. unfold ssl_ConstantTimeGE. rewrite CT_GE_near by lia. by destruct (b <=? a). Qed.

Lemma EQ8_mask a b : 0 ≤ a < 2 ^ 32 → 0 ≤ b < 2 ^ 32 → ssl_ConstantTimeEQ a b = mask8 (a =? b).
Proof. intros Ha Hb. unfold ssl_ConstantTimeEQ. rewrite CT_EQ_mask by lia. by destruct (a =? b). Qed.

Lemma land_255 x : is_byte x → Z.land x 255 = x.
Proof. intros Hx. change 255 with (2 ^ 8 - 1). rewrite land_ones_mod by lia. by apply Z.mod_small. Qed.

Lemma Select_mask m a b : is_byte a → is_byte b → ssl_constantTimeSelect (mask8 m) a b = if m then a else b.
Proof.
  intros Ha Hb. unfold ssl_constantTimeSelect. destruct m; cbn [mask8].
  - rewrite (Z.land_comm 255), land_255 by done. change (Z.lnot 255) with (-256).
    assert (H0 : Z.land (-256) b = 0).
    { change (-256) with (Z.lnot (Z.ones 8)). rewrite Z.land_comm, <- Z.ldiff_land, Z.ldiff_ones_r by lia.
      rewrite Z.shiftr_div_pow2, Z.div_small by (unfold is_byte in *; lia). done. }
    rewrite H0, Z.lor_0_r. by apply wrap_small.
  - rewrite Z.land_0_l. change (Z.lnot 0) with (-1). rewrite Z.land_m1_l, Z.lor_0_l. by apply wrap_small.
Qed.

Lemma good_status_mask b : good_status (mask b) = status_int b.
Proof. by destruct b. Qed.

Lemma StatusToMask_int b : SECStatusToMask (status_int b) = mask b.
Proof. by destruct b. Qed.

Lemma land_mask_l b x : 0 ≤ x < 2 ^ 32 → Z.land (mask b) x = if b then x else 0.
Proof.
  intros Hx. destruct b; [|done]. cbn [mask]. rewrite Z.land_comm, land_ones_mod by lia. by apply Z.mod_small.
Qed.

(** ** The padding of TLS *)

Definition low8 (g : Z) : bool := Z.land g 255 =? 255.

Lemma low8_land g h : low8 (Z.land g h) = low8 g && low8 h.
Proof.
  unfold low8. apply eq_true_iff_eq. rewrite andb_true_iff, !Z.eqb_eq. split.
  - intros E. split.
    + rewrite <- E at 1. rewrite Z.land_assoc, (Z.land_assoc g), Z.land_diag. exact E.
    + rewrite <- E at 1. rewrite (Z.land_comm g h), Z.land_assoc, (Z.land_assoc h), Z.land_diag, (Z.land_comm h g). exact E.
  - intros [Eg Eh]. by rewrite <- Z.land_assoc, Eh.
Qed.

Lemma low8_mask b : low8 (mask b) = b.
Proof. by destruct b. Qed.

Lemma low8_not x : is_byte x → low8 (u32 (Z.lnot x)) = (x =? 0).
Proof.
  assert (Hall : forallb (λ x, Bool.eqb (low8 (u32 (Z.lnot x))) (x =? 0)) (seqZ 0 256) = true) by (vm_compute; reflexivity).
  intros Hx. rewrite forallb_forall in Hall. apply Bool.eqb_prop, Hall, list_elem_of_In, elem_of_seqZ. unfold is_byte in Hx. lia.
Qed.

Lemma low8_bits g : low8 g = Z.testbit g 0 && Z.testbit g 1 && Z.testbit g 2 && Z.testbit g 3 &&
                             Z.testbit g 4 && Z.testbit g 5 && Z.testbit g 6 && Z.testbit g 7.
Proof.
  unfold low8. apply eq_true_iff_eq. rewrite !andb_true_iff, Z.eqb_eq. split.
  - intros E. assert (Hb : ∀ n, Z.testbit 255 n = true → Z.testbit g n = true).
    { intros n Hn. rewrite <- E, Z.land_spec in Hn. by apply andb_true_iff in Hn as [Hn _]. }
    split_and!; by apply Hb.
  - intros Hb. apply Z.bits_inj'. intros n Hn. rewrite Z.land_spec. destruct (decide (n < 8)).
    + assert (n = 0 ∨ n = 1 ∨ n = 2 ∨ n = 3 ∨ n = 4 ∨ n = 5 ∨ n = 6 ∨ n = 7) as Hc by lia.
      destruct_and!. repeat destruct Hc as [-> | Hc]; rewrite ?andb_true_r; try done; subst; by rewrite ?andb_true_r.
    + change 255 with (Z.ones 8). rewrite Z.ones_spec_high by lia. apply andb_false_r.
Qed.

Lemma fold_good_mask g : 0 ≤ g < 2 ^ 32 → fold_good g = mask (low8 g).
Proof.
  intros Hg. unfold fold_good. set (g1 := Z.land g (Z.shiftr g 4)). set (g2 := Z.land g1 (Z.shiftr g1 2)).
  set (g3 := Z.land g2 (Z.shiftr g2 1)).
  rewrite DUPLICATE_MSB_mask by (apply wrap_range; lia). f_equal.
  rewrite <- testbit_msb by (apply wrap_range; lia). unfold wrap. rewrite Z.mod_pow2_bits_low, Z.shiftl_spec by lia.
  unfold g3, g2, g1. rewrite !Z.land_spec, !Z.shiftr_spec, !Z.land_spec, !Z.shiftr_spec, !Z.land_spec, !Z.shiftr_spec by lia.
  rewrite low8_bits. change (31 - 31) with 0. change (0 + 1 + 2 + 4) with 7. change (0 + 1 + 2) with 3. change (0 + 1 + 4) with 5.
  change (0 + 2 + 4) with 6. change (0 + 1) with 1. change (0 + 2) with 2. change (0 + 4) with 4.
  destruct (Z.testbit g 0), (Z.testbit g 1), (Z.testbit g 2), (Z.testbit g 3), (Z.testbit g 4), (Z.testbit g 5), (Z.testbit g 6), (Z.testbit g 7); done.
Qed.

Lemma octet_at_spec buf i : 0 ≤ i < length buf → octet_at buf i = Ok (buf !!! Z.to_nat i).
Proof.
  intros Hi. unfold octet_at. destruct (lookup_lt_is_Some_2 buf (Z.to_nat i)) as [b Hb]; [lia|].
  by rewrite Hb, (list_lookup_total_correct _ _ _ Hb).
Qed.

Lemma lookup_byte buf i : bytes buf → (i < length buf)%nat → is_byte (buf !!! i).
Proof.
  intros Hb Hi. destruct (lookup_lt_is_Some_2 buf i Hi) as [b Hx]. rewrite (list_lookup_total_correct _ _ _ Hx).
  by apply (Forall_lookup_1 _ _ _ _ Hb Hx).
Qed.

(** The octets the loop looks at, from the end. *)
Lemma check_padding_spec (n : nat) i buf len p good : bytes buf → is_byte p → 0 ≤ i → i + n ≤ len ≤ length buf → len < 2 ^ 30 → 0 ≤ good < 2 ^ 32 →
  ∃ g, check_padding n i buf len p good = Ok g ∧ 0 ≤ g < 2 ^ 32 ∧
    (low8 g = true ↔ low8 good = true ∧ ∀ k, i ≤ k < i + n → k ≤ p → buf !!! Z.to_nat (len - 1 - k) = p).
Proof.
  intros Hb Hp. unfold is_byte in Hp. revert i good. induction n as [|n IH]; intros i good Hi Hl Hsm Hg; cbn [check_padding].
  { exists good. split_and!; [done|lia|lia|]. split; [|tauto]. intros E. split; [done|]. intros k Hk. lia. }
  rewrite octet_at_spec by lia. cbn [mbind res_bind]. set (b := buf !!! Z.to_nat (len - 1 - i)).
  assert (Hbb : is_byte b) by (apply lookup_byte; [done|lia]).
  assert (HLE : PORT_CT_LE i p = mask (i <=? p)).
  { unfold PORT_CT_LE. rewrite CT_GT_near, not32_mask by lia. by rewrite <- Z.leb_antisym. }
  rewrite HLE. set (x := Z.land (u8 (mask (i <=? p))) (Z.lxor p b)). unfold is_byte in Hbb.
  pose proof (lxor_range p b 8 ltac:(lia) ltac:(lia) ltac:(lia)) as Hx.
  assert (Ex : x = if i <=? p then Z.lxor p b else 0).
  { unfold x. destruct (i <=? p); [|done]. change (u8 (mask true)) with 255. rewrite Z.land_comm. by apply land_255. }
  assert (Hxb : is_byte x) by (unfold is_byte; rewrite Ex; destruct (i <=? p); lia).
  pose proof (wrap_range 32 (Z.lnot x) ltac:(lia)) as Hw.
  assert (Hg' : 0 ≤ Z.land good (u32 (Z.lnot x)) < 2 ^ 32).
  { split; [apply Z.land_nonneg; lia|]. destruct (decide (Z.land good (u32 (Z.lnot x)) = 0)) as [->|Hn0]; [lia|].
    apply Z.log2_lt_pow2; [pose proof (Z.land_nonneg good (u32 (Z.lnot x))); lia|].
    pose proof (Z.log2_land good (u32 (Z.lnot x)) ltac:(lia) ltac:(lia)) as Hlg.
    destruct (decide (good = 0)) as [->|]; [rewrite Z.land_0_l in Hn0; lia|]. pose proof (proj1 (Z.log2_lt_pow2 good 32 ltac:(lia)) ltac:(lia)). lia. }
  destruct (IH (i + 1) _ ltac:(lia) ltac:(lia) Hsm Hg') as (g & E & Hr & Hiff). exists g. split; [exact E|]. split; [done|].
  rewrite Hiff, low8_land, andb_true_iff, low8_not, Z.eqb_eq by done.
  assert (Hx0 : x = 0 ↔ (i ≤ p → b = p)).
  { rewrite Ex. destruct (Z.leb_spec i p) as [Hle|Hgt].
    - rewrite Z.lxor_eq_0_iff. split; [by intros ->|]. intros H1. symmetry. by apply H1.
    - split; [intros _ ?; lia|done]. }
  rewrite Hx0. split.
  - intros [[H1 H2] H3]. split; [done|]. intros k Hk Hkp. destruct (decide (k = i)) as [->|]; [by apply H2|apply H3; lia].
  - intros [H1 H2]. split_and!; [done| |].
    + intros Hip. apply H2; lia.
    + intros k Hk Hkp. apply H2; lia.
Qed.

(** A plaintext with its padding. *)
Definition tls_padded (p content : list Z) (n : nat) (macSize : Z) : Prop :=
  p = content ++ replicate (S n) (Z.of_nat n) ∧ (n < 256)%nat ∧ macSize ≤ length content.

Lemma tls_padded_unique p c c' n n' m : tls_padded p c n m → tls_padded p c' n' m → c = c' ∧ n = n'.
Proof.
  intros (-> & _ & _) (E & _ & _). rewrite !replicate_S_end, !app_assoc in E. apply app_inj_2 in E as [E E2]; [|done].
  injection E2 as E2. apply Nat2Z.inj in E2 as ->. by apply app_inj_2 in E as [-> _].
Qed.

(** Padding read from the end of a plaintext. *)
Lemma tls_padded_lookup p n m : 0 ≤ m → (0 < length p)%nat → (n < 256)%nat →
  (∃ content, tls_padded p content n m) ↔
  n + 1 + m ≤ length p ∧ ∀ k, 0 ≤ k ≤ Z.of_nat n → p !!! Z.to_nat (length p - 1 - k) = Z.of_nat n.
Proof.
  intros Hm Hp Hn. split.
  - intros (c & -> & _ & Hc). rewrite length_app, length_replicate. split; [lia|]. intros k Hk.
    rewrite lookup_total_app_r by lia. apply lookup_total_replicate_2. lia.
  - intros [Hl Hk]. exists (take (length p - S n) p). split_and!; [|done|rewrite length_take; lia].
    rewrite <- (take_drop (length p - S n) p) at 1. f_equal. apply list_eq_same_length with (S n).
    + by rewrite length_replicate.
    + rewrite length_drop. lia.
    + intros i x y Hi Hx Hy. apply lookup_replicate in Hy as [-> _]. rewrite lookup_drop in Hx.
      rewrite <- (Hk (Z.of_nat (S n - 1 - i))) by lia. rewrite <- (list_lookup_total_correct _ _ _ Hx). f_equal. lia.
Qed.

(** The plaintext is shortened exactly when it is padded. *)
Lemma RemoveTLSCBCPadding_spec buf len macSize : bytes buf → 0 ≤ macSize ≤ MAX_MAC_LENGTH → 0 ≤ len ≤ length buf → len < 2 ^ 30 →
  let p := take (Z.to_nat len) buf in
  (∃ content n, tls_padded p content n macSize ∧ ssl_RemoveTLSCBCPadding buf len macSize = Ok (Z.of_nat (length content), 0)) ∨
  ((∀ content n, ¬ tls_padded p content n macSize) ∧ ssl_RemoveTLSCBCPadding buf len macSize = Ok (len, -1)).
Proof.
  intros Hb Hm Hl Hsm p. unfold MAX_MAC_LENGTH in Hm. assert (Lp : length p = Z.to_nat len) by (unfold p; rewrite length_take; lia).
  unfold ssl_RemoveTLSCBCPadding. rewrite (wrap_small 32 (1 + macSize)) by lia. rewrite Z.gtb_ltb.
  destruct (Z.ltb_spec len (1 + macSize)) as [Hshort|Hlong].
  { right. split; [|done]. intros c n (E & _ & Hc). apply (f_equal length) in E. rewrite length_app, length_replicate in E. lia. }
  rewrite octet_at_spec by lia. cbn [mbind res_bind]. set (pad := buf !!! Z.to_nat (len - 1)).
  assert (Hpad : is_byte pad) by (apply lookup_byte; [done|lia]). unfold is_byte in Hpad.
  assert (Hpl : ∀ k, 0 ≤ k < len → p !!! Z.to_nat (length p - 1 - k) = buf !!! Z.to_nat (len - 1 - k)).
  { intros k Hk. rewrite Lp, Z2Nat.id by lia. unfold p. by rewrite lookup_total_take_lt by lia. }
  rewrite (wrap_small 32 (pad + (1 + macSize))), CT_GE_near by lia. set (fits := pad + (1 + macSize) <=? len).
  set (toCheck := if 256 >? len then len else 256).
  assert (Ht : 0 ≤ toCheck ≤ len ∧ (toCheck = 256 ∨ toCheck = len)).
  { unfold toCheck. rewrite Z.gtb_ltb. destruct (Z.ltb_spec len 256); lia. }
  destruct (check_padding_spec (Z.to_nat toCheck) 0 buf len pad (mask fits) Hb Hpad ltac:(lia) ltac:(lia) Hsm ltac:(by destruct fits))
    as (g & -> & Hg & Hiff). cbn [mbind res_bind]. rewrite fold_good_mask, good_status_mask, land_mask_l by (rewrite ?wrap_small; lia).
  rewrite low8_mask in Hiff. rewrite (wrap_small 32 (pad + 1)) by lia.
  assert (Hok : low8 g = true ↔ ∃ content, tls_padded p content (Z.to_nat pad) macSize).
  { rewrite Hiff, tls_padded_lookup by lia. unfold fits. rewrite Z.leb_le, !Z2Nat.id by lia. split.
    - intros [H1 H2]. split; [lia|]. intros k Hk. rewrite Hpl by lia. apply H2; lia.
    - intros [H1 H2]. split; [lia|]. intros k Hk Hkp. rewrite <- Hpl by lia. apply H2. lia. }
  destruct (low8 g) eqn:Elow.
  - left. destruct (proj1 Hok eq_refl) as [c Hc]. exists c, (Z.to_nat pad). split; [done|].
    destruct Hc as (E & _ & _). apply (f_equal length) in E. rewrite length_app, length_replicate in E. rewrite wrap_small by lia.
    do 2 f_equal. lia.
  - right. split; [|rewrite Z.sub_0_r, wrap_small by lia; done]. intros c n Hc. assert (n = Z.to_nat pad) as ->.
    { destruct Hc as (E & Hn & _). assert (Hlast : p !!! Z.to_nat (length p - 1 - 0) = pad) by (rewrite Hpl, Z.sub_0_r by lia; done).
      rewrite E in Hlast. rewrite length_app, length_replicate, lookup_total_app_r, lookup_total_replicate_2 in Hlast by lia. lia. }
    discriminate (proj2 Hok (ex_intro _ c Hc)).
Qed.

Lemma RemoveSSLv3CBCPadding_spec buf len blockSize macSize : bytes buf → 0 ≤ macSize ≤ MAX_MAC_LENGTH → 0 ≤ blockSize ≤ 256 →
  0 ≤ len ≤ length buf → len < 2 ^ 30 →
  ssl_RemoveSSLv3CBCPadding buf len blockSize macSize =
  Ok (match last (take (Z.to_nat len) buf) with
      | Some n => if (n + 1 + macSize <=? len) && (n + 1 <=? blockSize) then (len - (n + 1), 0) else (len, -1)
      | None => (len, -1)
      end).
Proof.
  intros Hb Hm Hbs Hl Hsm. unfold MAX_MAC_LENGTH in Hm. unfold ssl_RemoveSSLv3CBCPadding.
  rewrite (wrap_small 32 (1 + macSize)) by lia. rewrite Z.gtb_ltb.
  assert (Hlast : 0 < len → last (take (Z.to_nat len) buf) = Some (buf !!! Z.to_nat (len - 1))).
  { intros Hp. rewrite last_lookup, length_take, lookup_take_lt by lia.
    destruct (lookup_lt_is_Some_2 buf (Z.to_nat (len - 1))) as [b Hx]; [lia|]. rewrite (list_lookup_total_correct _ _ _ Hx), <- Hx. f_equal. lia. }
  destruct (Z.ltb_spec len (1 + macSize)) as [Hshort|Hlong].
  - destruct (decide (len = 0)) as [->|]; [done|]. rewrite Hlast by lia.
    assert (Hx : is_byte (buf !!! Z.to_nat (len - 1))) by (apply lookup_byte; [done|lia]). unfold is_byte in Hx.
    by rewrite (proj2 (Z.leb_gt _ _)) by lia.
  - rewrite Hlast, octet_at_spec by lia. cbn [mbind res_bind]. set (n := buf !!! Z.to_nat (len - 1)).
    assert (Hx : is_byte n) by (apply lookup_byte; [done|lia]). unfold is_byte in Hx.
    rewrite !(wrap_small 32 (n + _)), !CT_GE_near, land_mask by lia. rewrite good_status_mask, land_mask_l by lia.
    replace (n + (1 + macSize)) with (n + 1 + macSize) by lia.
    destruct (Z.leb_spec (n + 1 + macSize) len), (Z.leb_spec (n + 1) blockSize); cbn [andb status_int]; rewrite wrap_small by lia;
      do 2 f_equal; lia.
Qed.

(** ** The MAC *)

(** The multiplications by reciprocals give the remainder, for every octet. *)
Lemma mac_rotation_mod macSize r : 0 < macSize ≤ MAX_MAC_LENGTH → is_byte r → mac_rotation macSize r = r mod macSize.
Proof.
  assert (Hall : forallb (λ m, forallb (λ r, mac_rotation m r =? r mod m) (seqZ 0 256)) (seqZ 1 64) = true) by (vm_compute; reflexivity).
  intros Hm Hr. unfold MAX_MAC_LENGTH, is_byte in *. rewrite forallb_forall in Hall.
  specialize (Hall macSize ltac:(apply list_elem_of_In, elem_of_seqZ; lia)). rewrite forallb_forall in Hall.
  apply Z.eqb_eq, Hall, list_elem_of_In, elem_of_seqZ. lia.
Qed.

Lemma lor_byte a b : is_byte a → is_byte b → u8 (Z.lor a b) = Z.lor a b.
Proof. intros Ha Hb. apply wrap_small. apply (lor_range a b 8); unfold is_byte in *; lia. Qed.

(** The octet the scan merges in: that of the MAC or nothing. *)
Lemma scan_octet b s e : is_byte b → Z.land (Z.land b (mask8 s)) (Z.lnot (mask8 e)) = if s && negb e then b else 0.
Proof.
  intros Hb. destruct s; cbn [mask8]; [rewrite land_255 by done|by rewrite Z.land_0_r, Z.land_0_l]. destruct e; cbn [andb negb mask8].
  - change (Z.lnot 255) with (Z.lnot (Z.ones 8)). rewrite <- Z.ldiff_land, Z.ldiff_ones_r by lia.
    rewrite Z.shiftr_div_pow2, Z.div_small by (unfold is_byte in *; lia). done.
  - change (Z.lnot 0) with (-1). apply Z.land_m1_r.
Qed.

Section Extract.
  Context (buf : list Z) (macStart M scanStart : Z).
  Hypothesis buf_bytes : bytes buf.
  Hypothesis M_pos : 0 < M ≤ MAX_MAC_LENGTH.
  Hypothesis starts : 0 ≤ scanStart ≤ macStart.
  Hypothesis small : length buf < 2 ^ 30.
  Hypothesis inside : macStart + M ≤ length buf.

(** The place in the plaintext of an octet of the rotated MAC. *)
Definition mac_place (k : Z) : Z := macStart + (k - (macStart - scanStart)) mod M.

Lemma mac_place_range k : macStart ≤ mac_place k < macStart + M.
Proof. unfold mac_place. pose proof (Z.mod_pos_bound (k - (macStart - scanStart)) M ltac:(lia)). lia. Qed.

Lemma mac_place_inv i : macStart ≤ i < macStart + M → mac_place ((i - scanStart) mod M) = i.
Proof.
  intros Hi. unfold mac_place. rewrite Zminus_mod_idemp_l.
  replace (i - scanStart - (macStart - scanStart)) with (i - macStart) by lia. rewrite Z.mod_small by lia. lia.
Qed.

Lemma mac_place_eq k i : 0 ≤ k < M → mac_place k = i → k = (i - scanStart) mod M.
Proof.
  intros Hk <-. unfold mac_place. set (d := macStart - scanStart).
  replace (macStart + (k - d) mod M - scanStart) with (d + (k - d) mod M) by lia.
  rewrite Zplus_mod_idemp_r. replace (d + (k - d)) with k by lia. by rewrite Z.mod_small.
Qed.

Definition scanned (i : Z) (rot : list Z) : Prop :=
  Z.of_nat (length rot) = M ∧
  ∀ k, (k < length rot)%nat → rot !! k = Some (if mac_place k <? i then buf !!! Z.to_nat (mac_place k) else 0).

Lemma scanned_bytes i rot : scanned i rot → bytes rot.
Proof.
  intros [Hl Hk]. apply Forall_lookup_2. intros k x Hx. pose proof (lookup_lt_Some _ _ _ Hx) as Hlt. rewrite Hk in Hx by done.
  injection Hx as <-. destruct (_ <? _); [|unfold is_byte; lia]. apply lookup_byte; [done|]. pose proof (mac_place_range k). lia.
Qed.

(** One octet of the scan. *)
Lemma scanned_step i j rot old : scanned i rot → scanStart ≤ i < length buf → Z.of_nat j = (i - scanStart) mod M → rot !! j = Some old →
  scanned (i + 1) (<[j := u8 (Z.lor old (if (macStart <=? i) && negb (macStart + M <=? i) then buf !!! Z.to_nat i else 0))]> rot).
Proof.
  intros Hs Hi Hj Hold. pose proof (scanned_bytes i rot Hs) as Hb. destruct Hs as [Hl Hk].
  pose proof (lookup_lt_Some _ _ _ Hold) as Hjl. pose proof (Forall_lookup_1 _ _ _ _ Hb Hold) as Hob.
  assert (Hbi : is_byte (buf !!! Z.to_nat i)) by (apply lookup_byte; [done|lia]).
  split; [by rewrite length_insert|]. intros k Hkl. rewrite length_insert in Hkl. destruct (decide (k = j)) as [->|Hne].
  - rewrite list_lookup_insert_eq by done. rewrite Hk in Hold by done. injection Hold as <-. f_equal.
    destruct (Z.leb_spec macStart i) as [H1|H1], (Z.leb_spec (macStart + M) i) as [H2|H2]; cbn [andb negb].
    + pose proof (mac_place_range j). rewrite Z.lor_0_r, !(proj2 (Z.ltb_lt _ _)) by lia. apply wrap_small, lookup_byte; [done|lia].
    + assert (Ep : mac_place j = i) by (rewrite Hj; apply mac_place_inv; lia). rewrite Ep, Z.ltb_irrefl, (proj2 (Z.ltb_lt _ _)) by lia.
      rewrite Z.lor_0_l. by apply wrap_small.
    + lia.
    + pose proof (mac_place_range j). by rewrite !(proj2 (Z.ltb_ge _ _)) by lia.
  - rewrite list_lookup_insert_ne by done. rewrite Hk by done. f_equal.
    assert (mac_place k ≠ i).
    { intros E. apply mac_place_eq in E; [|lia]. apply Hne. lia. }
    destruct (Z.ltb_spec (mac_place k) i), (Z.ltb_spec (mac_place k) (i + 1)); (done || lia).
Qed.

Lemma scan_mac_spec (n : nat) i j rot : scanned i rot → scanStart ≤ i → i + n ≤ length buf →
  (j ≤ length rot)%nat → Z.of_nat j mod M = (i - scanStart) mod M →
  ∃ rot', scan_mac n i j buf macStart (macStart + M) rot = Ok rot' ∧ scanned (i + n) rot'.
Proof.
  unfold MAX_MAC_LENGTH in M_pos. revert i j rot. induction n as [|n IH]; intros i j rot Hs Hi Hn Hjl Hj; cbn [scan_mac].
  { exists rot. by rewrite Z.add_0_r. }
  pose proof Hs as [Hl _]. set (j' := if (j <? length rot)%nat then j else 0%nat).
  assert (Hj' : (j' < length rot)%nat ∧ Z.of_nat j' = (i - scanStart) mod M).
  { unfold j'. destruct (Nat.ltb_spec j (length rot)).
    - split; [done|]. rewrite <- Hj. rewrite Z.mod_small; lia.
    - split; [lia|]. rewrite <- Hj. replace (Z.of_nat j) with M by lia. by rewrite Z.mod_same by lia. }
  destruct Hj' as [Hjl' Hj']. rewrite octet_at_spec by lia. cbn [mbind res_bind].
  destruct (lookup_lt_is_Some_2 rot j' Hjl') as [old Hold]. rewrite Hold.
  rewrite !GE8_mask, scan_octet by (lia || (apply lookup_byte; [done|lia])).
  pose proof (scanned_step i j' rot old Hs ltac:(lia) Hj' Hold) as Hs'.
  destruct (IH (i + 1) (j' + 1)%nat _ Hs' ltac:(lia) ltac:(lia)) as (rot' & E & Hr).
  - rewrite length_insert. lia.
  - rewrite Nat2Z.inj_add, Hj', Zplus_mod_idemp_l. f_equal. lia.
  - exists rot'. split; [exact E|]. by replace (i + Z.of_nat (S n)) with (i + 1 + n) by lia.
Qed.
End Extract.

(** A row of the rotation puts one octet in its place. *)
Lemma rotate_row_spec j out m ro : bytes out → is_byte m → 0 ≤ j → j + length out ≤ 64 → 0 ≤ ro < 256 →
  length (rotate_row j out m ro) = length out ∧
  ∀ (k : nat) o, out !! k = Some o → rotate_row j out m ro !! k = Some (Z.lor o (if j + k =? ro then m else 0)).
Proof.
  intros Hb Hm. revert j. induction Hb as [|o out Ho Hb IH]; intros j Hj Hl Hr; [by split|]. cbn [length rotate_row] in *.
  destruct (IH (j + 1) ltac:(lia) ltac:(lia) Hr) as [H1 H2]. split; [by rewrite H1|].
  rewrite (wrap_small 8 j), EQ8_mask by lia.
  assert (Em : Z.land m (mask8 (j =? ro)) = if j =? ro then m else 0) by (destruct (j =? ro); cbn [mask8]; [by apply land_255|apply Z.land_0_r]).
  rewrite Em. intros [|k] o' Hk.
  - injection Hk as <-. cbn [lookup list_lookup]. rewrite Z.add_0_r. f_equal. apply lor_byte; [done|]. destruct (j =? ro); [done|unfold is_byte; lia].
  - change (rotate_row (j + 1) out m ro !! k = Some (Z.lor o' (if j + Z.of_nat (S k) =? ro then m else 0))).
    rewrite (H2 k o' Hk). by replace (j + 1 + k) with (j + Z.of_nat (S k)) by lia.
Qed.

Lemma next_offset ro M : 0 ≤ ro < M → M ≤ 64 →
  ssl_constantTimeSelect (ssl_ConstantTimeGE (u8 (ro + 1)) M) 0 (u8 (ro + 1)) = (ro + 1) mod M.
Proof.
  intros Hr HM. rewrite wrap_small, GE8_mask, Select_mask by (unfold is_byte; lia). destruct (Z.leb_spec M (ro + 1)).
  - replace (ro + 1) with M by lia. by rewrite Z.mod_same by lia.
  - by rewrite Z.mod_small by lia.
Qed.

Lemma rotate_mac_unfold m l out ro M :
  rotate_mac M ro out (m :: l) =
  rotate_mac M (ssl_constantTimeSelect (ssl_ConstantTimeGE (u8 (ro + 1)) M) 0 (u8 (ro + 1))) (rotate_row 0 out m ro) l.
Proof. reflexivity. Qed.

Lemma rotate_mac_cons m l out ro M : 0 ≤ ro < M → M ≤ 64 →
  rotate_mac M ro out (m :: l) = rotate_mac M ((ro + 1) mod M) (rotate_row 0 out m ro) l.
Proof. intros Hr HM. by rewrite rotate_mac_unfold, next_offset. Qed.

Lemma rotation_index (k i : nat) r M : Z.of_nat k < M → Z.of_nat i < M → (k + r) mod M = i ↔ Z.of_nat k = (i - r) mod M.
Proof.
  intros Hk Hi. split; intros E.
  - rewrite <- E, Zminus_mod_idemp_l. replace (k + r - r) with (Z.of_nat k) by lia. by rewrite Z.mod_small by lia.
  - rewrite E, Zplus_mod_idemp_l. replace (i - r + r) with (Z.of_nat i) by lia. by rewrite Z.mod_small by lia.
Qed.

(** The rows from the [i]-th on: what starts at [r] in [rot] starts at 0 in the
    result. *)
Lemma rotate_mac_spec (rot : list Z) M r l (i : nat) (out : list Z) : bytes rot → Z.of_nat (length rot) = M → 0 < M ≤ MAX_MAC_LENGTH → 0 ≤ r < M →
  l = drop i rot → (i ≤ length rot)%nat → length out = length rot →
  (∀ k : nat, (k < length rot)%nat → out !! k = Some (if (k + r) mod M <? i then rot !!! Z.to_nat ((k + r) mod M) else 0)) →
  let out' := rotate_mac M ((i - r) mod M) out l in
  length out' = length rot ∧ ∀ k : nat, (k < length rot)%nat → out' !! k = Some (rot !!! Z.to_nat ((k + r) mod M)).
Proof.
  intros Hb HM Hpos Hr. unfold MAX_MAC_LENGTH in Hpos. revert i out. induction l as [|m l IH]; intros i out El Hi Lo Hk.
  { cbn [rotate_mac]. split; [done|]. intros k Hkl. rewrite Hk by done. f_equal.
    apply (f_equal length) in El. rewrite length_drop in El. cbn in El. pose proof (Z.mod_pos_bound (k + r) M ltac:(lia)).
    by rewrite (proj2 (Z.ltb_lt _ _)) by lia. }
  assert (Hil : (i < length rot)%nat) by (apply (f_equal length) in El; rewrite length_drop in El; cbn in El; lia).
  assert (Hm : rot !! i = Some m) by (rewrite <- (Nat.add_0_r i), <- lookup_drop, <- El; done).
  pose proof (Forall_lookup_1 _ _ _ _ Hb Hm) as Hmb. pose proof (Z.mod_pos_bound (i - r) M ltac:(lia)) as Hro.
  set (ro := (i - r) mod M) in *.
  assert (Hob : bytes out).
  { apply Forall_lookup_2. intros k x Hx. pose proof (lookup_lt_Some _ _ _ Hx) as Hlt. rewrite Hk in Hx by lia. injection Hx as <-.
    destruct (_ <? _); [|unfold is_byte; lia]. pose proof (Z.mod_pos_bound (k + r) M ltac:(lia)). apply lookup_byte; [done|lia]. }
  destruct (rotate_row_spec 0 out m ro Hob Hmb ltac:(lia) ltac:(lia) ltac:(lia)) as [Lr Hrow]. cbn zeta.
  rewrite rotate_mac_cons by lia. replace ((ro + 1) mod M) with ((Z.of_nat (S i) - r) mod M)
    by (unfold ro; rewrite Zplus_mod_idemp_l; f_equal; lia).
  apply IH; [by rewrite (drop_S _ _ _ Hm) in El; injection El|lia|lia|].
  intros k Hkl. rewrite (Hrow k _ (Hk k Hkl)). f_equal. rewrite Z.add_0_l. set (q := (k + r) mod M).
  pose proof (rotation_index k i r M ltac:(lia) ltac:(lia)) as Hq. fold q ro in Hq.
  pose proof (Z.mod_pos_bound (k + r) M ltac:(lia)) as Hqr. fold q in Hqr.
  destruct (Z.eqb_spec (Z.of_nat k) ro) as [E|E].
  - apply Hq in E. rewrite E, Z.ltb_irrefl, (proj2 (Z.ltb_lt _ _)), Z.lor_0_l, Nat2Z.id by lia.
    by rewrite (list_lookup_total_correct _ _ _ Hm).
  - rewrite Z.lor_0_r. destruct (Z.ltb_spec q i), (Z.ltb_spec q (Z.of_nat (S i))); (done || lia || (exfalso; apply E, Hq; lia)).
Qed.

(** The MAC is found whenever padding was removed: at least one octet and at most
    256.  The offset of the MAC from the start of the scan is then below 256 and
    survives being stored in an octet. *)
Lemma CBCExtractMAC_spec buf len originalLength macSize : bytes buf → 0 < macSize ≤ MAX_MAC_LENGTH →
  macSize ≤ len → len < originalLength ≤ len + 256 → originalLength ≤ length buf → length buf < 2 ^ 30 →
  ssl_CBCExtractMAC buf len originalLength macSize = Ok (take (Z.to_nat macSize) (drop (Z.to_nat (len - macSize)) buf)).
Proof.
  intros Hb Hm Hlen Horig Hbuf Hsm. pose proof Hm as Hm'. unfold MAX_MAC_LENGTH in Hm'. unfold ssl_CBCExtractMAC.
  rewrite (proj2 (Z.eqb_neq macSize 0)), !Z.gtb_ltb, (proj2 (Z.ltb_ge MAX_MAC_LENGTH macSize)) by lia. cbn [orb].
  rewrite (wrap_small 32 (len - macSize)) by lia. set (macStart := len - macSize).
  set (scanStart := if macSize + 255 + 1 <? originalLength then originalLength - (macSize + 255 + 1) else 0).
  assert (Hss : 0 ≤ scanStart ≤ macStart ∧ macStart - scanStart < 256).
  { unfold scanStart, macStart. destruct (Z.ltb_spec (macSize + 255 + 1) originalLength); lia. }
  rewrite (wrap_small 8 (macStart - scanStart)), mac_rotation_mod by (unfold is_byte; lia). set (r := (macStart - scanStart) mod macSize).
  pose proof (Z.mod_pos_bound (macStart - scanStart) macSize ltac:(lia)) as Hr. fold r in Hr.
  assert (Hs0 : scanned buf macStart macSize scanStart scanStart (replicate (Z.to_nat macSize) 0)).
  { split; [rewrite length_replicate; lia|]. intros k Hk. rewrite length_replicate in Hk. rewrite lookup_replicate_2 by done.
    pose proof (mac_place_range buf macStart macSize scanStart Hm k). by rewrite (proj2 (Z.ltb_ge _ _)) by lia. }
  destruct (scan_mac_spec buf macStart macSize scanStart Hb Hm ltac:(lia) Hsm ltac:(lia) (Z.to_nat (originalLength - scanStart)) scanStart 0 _ Hs0)
    as (rot & E & Hs); [lia|lia|lia|by rewrite Z.sub_diag|].
  replace (macStart + macSize) with len in E by lia. rewrite E. cbn [mbind res_bind].
  replace (scanStart + Z.of_nat (Z.to_nat (originalLength - scanStart))) with originalLength in Hs by lia.
  pose proof (scanned_bytes buf macStart macSize scanStart Hb Hm ltac:(lia) ltac:(lia) originalLength rot Hs) as Hrb. destruct Hs as [Lrot Hrot].
  assert (Eoff : ssl_constantTimeSelect (ssl_ConstantTimeGE (u8 (macSize - r)) macSize) 0 (u8 (macSize - r)) = (0%nat - r) mod macSize).
  { rewrite wrap_small, GE8_mask, Select_mask by (unfold is_byte; lia). destruct (Z.leb_spec macSize (macSize - r)).
    - assert (r = 0) as -> by lia. by rewrite Z.mod_0_l by lia.
    - apply Z.mod_unique with (-1); lia. }
  rewrite Eoff. f_equal.
  destruct (rotate_mac_spec rot macSize r rot 0 (replicate (Z.to_nat macSize) 0) Hrb Lrot Hm Hr) as [Lo Ho];
    [by rewrite drop_0|lia|rewrite length_replicate; lia| |].
  { intros k Hk. rewrite lookup_replicate_2 by lia. pose proof (Z.mod_pos_bound (k + r) macSize ltac:(lia)).
    by rewrite (proj2 (Z.ltb_ge _ _)) by lia. }
  apply list_eq_same_length with (Z.to_nat macSize); [rewrite length_take, length_drop; lia|lia|].
  intros k x y Hk Hx Hy. rewrite Ho in Hx by lia. injection Hx as <-. rewrite lookup_take_lt, lookup_drop in Hy by lia.
  set (q := (k + r) mod macSize). pose proof (Z.mod_pos_bound (k + r) macSize ltac:(lia)) as Hq. fold q in Hq.
  assert (Hp : mac_place macStart macSize scanStart q = macStart + k).
  { unfold mac_place, q, r. rewrite Zplus_mod_idemp_r, Zminus_mod_idemp_l.
    replace (k + (macStart - scanStart) - (macStart - scanStart)) with (Z.of_nat k) by lia. by rewrite Z.mod_small by lia. }
  pose proof (Hrot (Z.to_nat q) ltac:(lia)) as Hl. rewrite Z2Nat.id, Hp, (proj2 (Z.ltb_lt _ _)) in Hl by lia.
  rewrite (list_lookup_total_correct _ _ _ Hl). rewrite <- (list_lookup_total_correct _ _ _ Hy). f_equal. lia.
Qed.

(** The scan reads inside the plaintext whatever the lengths are. *)
Lemma scan_mac_total (n : nat) i j buf macStart macEnd rot : (0 < length rot)%nat → 0 ≤ i → i + n ≤ length buf →
  ∃ rot', scan_mac n i j buf macStart macEnd rot = Ok rot' ∧ length rot' = length rot.
Proof.
  revert i j rot. induction n as [|n IH]; intros i j rot Hr Hi Hn; cbn [scan_mac]; [by exists rot|].
  rewrite octet_at_spec by lia. cbn [mbind res_bind]. set (j' := if (j <? length rot)%nat then j else 0%nat).
  assert (Hj : (j' < length rot)%nat) by (unfold j'; destruct (Nat.ltb_spec j (length rot)); lia).
  destruct (lookup_lt_is_Some_2 rot j' Hj) as [old ->].
  match goal with |- context [<[j' := ?v]> rot] => destruct (IH (i + 1) (j' + 1)%nat (<[j' := v]> rot)) as (rot' & E & L) end;
    [by rewrite length_insert|lia|lia|]. exists rot'. split; [exact E|]. by rewrite L, length_insert.
Qed.

Lemma CBCExtractMAC_total buf len originalLength macSize : 0 < macSize ≤ MAX_MAC_LENGTH → 0 ≤ originalLength ≤ length buf →
  ∃ out, ssl_CBCExtractMAC buf len originalLength macSize = Ok out.
Proof.
  intros Hm Ho. unfold ssl_CBCExtractMAC. rewrite (proj2 (Z.eqb_neq macSize 0)), !Z.gtb_ltb, (proj2 (Z.ltb_ge MAX_MAC_LENGTH macSize)) by lia.
  cbn [orb]. set (scanStart := if macSize + 255 + 1 <? originalLength then originalLength - (macSize + 255 + 1) else 0).
  assert (Hs : 0 ≤ scanStart ≤ originalLength) by (unfold scanStart; destruct (Z.ltb_spec (macSize + 255 + 1) originalLength); lia).
  match goal with |- context [scan_mac ?n ?i ?j ?b ?s ?e ?r] => destruct (scan_mac_total n i j b s e r) as (rot & -> & _) end;
    [rewrite length_replicate; lia|lia|lia|]. cbn [mbind res_bind]. by eexists.
Qed.

(** ** Theorem and examples *)

(** [C27] Removing the padding of a decrypted TLS record and extracting its MAC, without
    a branch or a memory access that depends on the padding, is taking them
    apart: from content, MAC and n + 1 octets of the value n,
    ssl_RemoveTLSCBCPadding leaves content and MAC, and ssl_CBCExtractMAC, told
    the length before, returns the MAC, for every length of MAC up to
    MAX_MAC_LENGTH and whatever follows in the buffer. *)
Theorem CBCExtractMAC_exact content mac (n : nat) rest :
  bytes (content ++ mac ++ replicate (S n) (Z.of_nat n) ++ rest) → (n < 256)%nat → 0 < Z.of_nat (length mac) ≤ MAX_MAC_LENGTH →
  length (content ++ mac ++ replicate (S n) (Z.of_nat n) ++ rest) < 2 ^ 30 →
  let buf := content ++ mac ++ replicate (S n) (Z.of_nat n) ++ rest in
  let len := Z.of_nat (length (content ++ mac ++ replicate (S n) (Z.of_nat n))) in
  let len' := Z.of_nat (length (content ++ mac)) in
  ssl_RemoveTLSCBCPadding buf len (length mac) = Ok (len', status_int true) ∧
  ssl_CBCExtractMAC buf len' len (length mac) = Ok mac.
Proof.
  intros Hb Hn Hm Hs buf len len'. fold buf in Hb, Hs. assert (Ll : len = len' + S n) by (unfold len, len'; rewrite !length_app, length_replicate; lia).
  assert (Lm : len' = length content + length mac) by (unfold len'; rewrite length_app; lia).
  assert (Lb : len ≤ length buf) by (unfold len, buf; rewrite !length_app; lia).
  assert (Hp : tls_padded (take (Z.to_nat len) buf) (content ++ mac) n (length mac)).
  { split_and!; [|done|unfold len' in Lm; lia]. unfold buf, len. rewrite Nat2Z.id, !app_assoc. by rewrite take_app_length. }
  split.
  - destruct (RemoveTLSCBCPadding_spec buf len (length mac) Hb ltac:(lia) ltac:(lia) ltac:(lia)) as [(c & k & Hc & ->)|[Hno _]].
    + by destruct (tls_padded_unique _ _ _ _ _ _ Hc Hp) as [-> _].
    + by destruct (Hno _ _ Hp).
  - rewrite (CBCExtractMAC_spec buf) by (done || lia). f_equal. unfold buf.
    rewrite drop_app_length' by lia. apply take_app_length'. lia.
Qed.

Lemma CBCExtractMAC_exact_witness :
  let buf := [104; 105] ++ replicate 20 7 ++ replicate 10 9 ++ [1; 2; 3] in
  ssl_RemoveTLSCBCPadding buf 32 20 = Ok (22, 0) ∧ ssl_CBCExtractMAC buf 22 32 20 = Ok (replicate 20 7).
Proof.
  apply (CBCExtractMAC_exact [104; 105] (replicate 20 7) 9 [1; 2; 3]);
    first [lia | vm_compute; reflexivity | vm_compute; done | repeat constructor; unfold is_byte; lia].
Defined.

(** A wrong octet of padding, too much padding, and SSL 3.0, which does not look
    at the padding. *)
Example demo_padding :
  ssl_RemoveTLSCBCPadding ([104; 105] ++ replicate 20 7 ++ [9] ++ [8] ++ replicate 8 9) 32 20 = Ok (32, -1) ∧
  ssl_RemoveTLSCBCPadding ([104; 105] ++ replicate 20 7 ++ replicate 10 30) 32 20 = Ok (32, -1) ∧
  ssl_RemoveSSLv3CBCPadding ([104; 105] ++ replicate 20 7 ++ [1; 2; 3; 4; 5; 6; 7; 8; 9] ++ [9]) 32 16 20 = Ok (22, 0).
Proof. vm_compute. repeat split. Qed.
