(* ===== verification/AeadOp.v ===== *)
(** AEAD operations: lib/freebl/gcm.c (the IVs of messages) and
    lib/pk11wrap/pk11cxt.c (the same for tokens without the message interface,
    whose single-shot operations simulate it).

    [GenerateIV_distinct] says that a context does not produce an IV twice,
    [AEADOp_round_trip] that the simulated operations invert each other.  The
    single-shot operations are the token's and form the class [Token]. *)

From stdpp Require Import base numbers list.
From S2P Require Import Prelude Port.

(** Values other than those of PKCS #11 are possible: the type is CK_ULONG. *)
Inductive CK_GENERATOR_FUNCTION :=
| CKG_NO_GENERATE | CKG_GENERATE | CKG_GENERATE_COUNTER | CKG_GENERATE_RANDOM | CKG_GENERATE_COUNTER_XOR
| CKG_other (n : Z).

#[export] Instance CK_GENERATOR_FUNCTION_eq_dec : EqDecision CK_GENERATOR_FUNCTION.
Proof. solve_decision. Defined.

Definition GCMIV_RANDOM_BIRTHDAY_BITS : Z := 64.

(** An octet of a 64-bit value written with [len] octets. *)
Definition PORT_GET_BYTE_BE (value offset len : Z) : Z :=
  if u32 (len - offset - 1) >=? 8 then 0 else Z.land (Z.shiftr value (u32 (len - offset - 1) * 8)) 0xff.

Record gcmIVContext := {
  counter : Z;
  max_count : Z;
  ivGen : CK_GENERATOR_FUNCTION;
  fixedBits : Z;
  ivLen : Z;
}.

Definition gcm_InitIVContext : gcmIVContext :=
  {| counter := 0; max_count := 0; ivGen := CKG_GENERATE; fixedBits := 0; ivLen := 0 |}.

Definition set_counter (c : gcmIVContext) (n : Z) : gcmIVContext :=
  {| counter := u64 n; max_count := max_count c; ivGen := ivGen c; fixedBits := fixedBits c; ivLen := ivLen c |}.

(** The number of IVs to hand out for so many free bits; [None] is an error. *)
Definition iv_max_count (gen : CK_GENERATOR_FUNCTION) (flexBits : Z) : option Z :=
  let turn := λ flexBits, if flexBits =? 0 then None else if flexBits >=? 64 then Some (2 ^ 64 - 1) else Some (u64 (2 ^ flexBits)) in
  match gen with
  | CKG_GENERATE_RANDOM =>
      if flexBits <=? GCMIV_RANDOM_BIRTHDAY_BITS then None else turn (Z.shiftr (flexBits - GCMIV_RANDOM_BIRTHDAY_BITS) 1)
  | _ => turn flexBits
  end.

(** The checks: the first call fixes the generator and the sizes. *)
Definition iv_setup (c : gcmIVContext) (len fixed : Z) (gen : CK_GENERATOR_FUNCTION) : gcmIVContext * sec_res unit :=
  if negb (counter c =? 0) then
    (c, if negb (bool_decide (ivGen c = gen)) || negb (fixedBits c =? fixed) || negb (ivLen c =? len) then Err SEC_ERROR_INVALID_ARGS else Ok tt)
  else
    let c := {| counter := counter c; max_count := max_count c; ivGen := gen; fixedBits := fixed; ivLen := len |} in
    let flexBits := u32 (len * 8) in
    if flexBits <? fixed then (c, Err SEC_ERROR_INVALID_ARGS) else
    match iv_max_count gen (flexBits - fixed) with
    | None => (c, Err SEC_ERROR_INVALID_ARGS)
    | Some m => ({| counter := counter c; max_count := m; ivGen := gen; fixedBits := fixed; ivLen := len |}, Ok tt)
    end.

(** [0xff >> ((8 - (fixedBits & 7)) & 7)] *)
Definition iv_mask (fixed : Z) : Z := Z.shiftr 0xff (Z.land (u32 (8 - Z.land fixed 7)) 7).

(** The free octets of the IV; the first may be shared with the fixed bits. *)
Definition iv_octets (xor : bool) (count mask n : Z) (cur : list Z) : list Z :=
  imap (λ i o, let b := PORT_GET_BYTE_BE count i n in
    if (i =? 0)%nat then if xor then Z.lxor o (Z.land b mask) else Z.lor (Z.land o (Z.lnot mask)) (Z.land b mask)
    else if xor then Z.lxor o b else b) cur.

(** The IV in memory after the switch. *)
Definition iv_fill (c : gcmIVContext) (iv : list Z) (len fixed : Z) (gen : CK_GENERATOR_FUNCTION) (random : Z → sec_res (list Z)) : sec_res (list Z) :=
  let ivOffset := fixed / 8 in
  let mask := iv_mask fixed in
  let ivNewCount := u32 (len - ivOffset) in
  let put xor := cur ← mem_read iv (Z.to_nat ivOffset) (Z.to_nat ivNewCount);
                 mem_write iv (Z.to_nat ivOffset) (iv_octets xor (counter c) mask ivNewCount cur) in
  match gen with
  | CKG_GENERATE | CKG_GENERATE_COUNTER => put false
  | CKG_GENERATE_COUNTER_XOR => put true
  | CKG_GENERATE_RANDOM =>
      cur ← mem_read iv (Z.to_nat ivOffset) (Z.to_nat ivNewCount);
      r ← random ivNewCount;
      iv ← mem_write iv (Z.to_nat ivOffset) r;
      first ← mem_read iv (Z.to_nat ivOffset) 1;
      mem_write iv (Z.to_nat ivOffset) [Z.lor (Z.land (cur !!! 0%nat) (Z.lnot mask)) (Z.land (first !!! 0%nat) mask)]
  | _ => Ok iv
  end.

(** The context, and the IV in memory or the error. *)
Definition gcm_GenerateIV (c : gcmIVContext) (iv : list Z) (len fixed : Z) (gen : CK_GENERATOR_FUNCTION) (random : Z → sec_res (list Z))
    : gcmIVContext * sec_res (list Z) :=
  let '(c, checked) := iv_setup c len fixed gen in
  match checked with
  | Err e => (c, Err e)
  | UB => (c, UB)
  | Ok tt =>
      if bool_decide (gen = CKG_NO_GENERATE) then (set_counter c 1, Ok iv) else
      if counter c >=? max_count c then (c, Err SEC_ERROR_EXTRA_INPUT) else
      match iv_fill c iv len fixed gen random with
      | Ok iv => (set_counter c (counter c + 1), Ok iv)
      | r => (c, r)
      end
  end.

(** A modified copy for simulated operations, on the fields ivCounter,
    ivMaxCount, ivLen, ivFixedBits and ivGen of a PK11Context; the lengths are
    ints. *)
Definition pk11_GenerateIV (c : gcmIVContext) (gen : CK_GENERATOR_FUNCTION) (fixed : Z) (iv : list Z) (len : Z) (random : Z → sec_res (list Z))
    : gcmIVContext * sec_res (list Z) :=
  if (counter c =? 0) && negb (swrap 32 (len * 8) =? len * 8) then (c, UB)
  else gcm_GenerateIV c iv (u32 len) (u32 fixed) gen random.

(** ** Octets of the counter *)

Lemma be_bytes_lookup n v (k : nat) : (k < n)%nat → be_bytes n v !! k = Some ((v / 256 ^ (n - 1 - k)%nat) mod 256).
Proof.
  revert v k. induction n as [|n IH]; intros v k Hk; [lia|]. cbn [be_bytes]. destruct (decide (k = n)) as [->|Hne].
  - rewrite lookup_app_r, length_be_bytes, Nat.sub_diag by (rewrite length_be_bytes; lia). cbn. replace (n - 0 - n)%nat with 0%nat by lia.
    by rewrite Z.div_1_r.
  - rewrite lookup_app_l by (rewrite length_be_bytes; lia). rewrite IH by lia. rewrite Z.div_div by lia. do 3 f_equal.
    rewrite <- (Z.pow_succ_r 256) by lia. f_equal. lia.
Qed.

Lemma GET_BYTE_BE_lookup v (k n : nat) : 0 ≤ v < 2 ^ 64 → (k < n)%nat → Z.of_nat n < 2 ^ 32 →
  be_bytes n v !! k = Some (PORT_GET_BYTE_BE v k n).
Proof.
  intros Hv Hk Hn. rewrite be_bytes_lookup by done. unfold PORT_GET_BYTE_BE. rewrite wrap_small by lia.
  rewrite Z.geb_leb. f_equal. replace (Z.of_nat (n - 1 - k)) with (n - k - 1) by lia. destruct (Z.leb_spec 8 (n - k - 1)).
  - assert (2 ^ 64 ≤ 256 ^ (n - k - 1)). { change (2 ^ 64) with (256 ^ 8). apply Z.pow_le_mono_r; lia. }
    by rewrite Z.div_small by lia.
  - change 0xff with (2 ^ 8 - 1). rewrite land_ones_mod, Z.shiftr_div_pow2 by lia. rewrite Z.mul_comm, Z.pow_mul_r by lia. done.
Qed.

(** ** IVs of one context *)

(** The free bits fill whole octets, or all octets but half of the first. *)
Definition aligned (fixed : Z) : Prop := fixed mod 8 = 0 ∨ fixed mod 8 = 4.

(** The sizes of a generator and a counter they admit. *)
Definition iv_admits (len fixed i : Z) : Prop :=
  0 ≤ fixed < len * 8 ∧ len < 2 ^ 28 ∧ 0 ≤ i < 2 ^ 64 - 1 ∧ i < 2 ^ (len * 8 - fixed).

Lemma iv_first_octet len fixed i : aligned fixed → iv_admits len fixed i →
  let n := len - fixed / 8 in Z.land (PORT_GET_BYTE_BE i 0 n) (iv_mask fixed) = PORT_GET_BYTE_BE i 0 n.
Proof.
  intros Ha (Hf & Hl & Hi & Hc) n. pose proof (Z.div_mod fixed 8 ltac:(lia)) as Hd. pose proof (Z.mod_pos_bound fixed 8 ltac:(lia)) as Hm.
  assert (Hn : 0 < n) by lia.
  pose proof (GET_BYTE_BE_lookup i 0 (Z.to_nat n) ltac:(lia) ltac:(lia) ltac:(lia)) as Hb. rewrite be_bytes_lookup in Hb by lia.
  injection Hb as Hb. change (Z.of_nat 0) with 0 in Hb. rewrite Z2Nat.id in Hb by lia. rewrite <- Hb.
  replace (Z.of_nat (Z.to_nat n - 1 - 0)) with (n - 1) by lia. unfold iv_mask. change 7 with (2 ^ 3 - 1). rewrite !land_ones_mod by lia.
  change (2 ^ 3) with 8. destruct Ha as [E|E]; rewrite E.
  - change (Z.shiftr 255 (u32 (8 - 0) mod 8)) with (2 ^ 8 - 1). rewrite land_ones_mod by lia. change (2 ^ 8) with 256. by rewrite Z.mod_mod by lia.
  - change (Z.shiftr 255 (u32 (8 - 4) mod 8)) with (2 ^ 4 - 1). rewrite land_ones_mod by lia.
    assert (i / 256 ^ (n - 1) < 16).
    { apply Z.div_lt_upper_bound; [lia|]. replace (256 ^ (n - 1) * 16) with (2 ^ (len * 8 - fixed)); [done|].
      change 256 with (2 ^ 8). rewrite <- Z.pow_mul_r by lia. change 16 with (2 ^ 4). rewrite <- Z.pow_add_r by lia. f_equal. lia. }
    assert (0 ≤ i / 256 ^ (n - 1)) by (apply Z.div_pos; lia). rewrite (Z.mod_small (i / 256 ^ (n - 1)) 256) by lia.
    apply Z.mod_small. lia.
Qed.

(** Different counters give different octets: whatever was there before when
    the counter is stored, over the same octets when it is xored in. *)
Lemma iv_octets_inj xor len fixed i j cur1 cur2 : aligned fixed → iv_admits len fixed i → iv_admits len fixed j →
  let n := len - fixed / 8 in bytes cur1 → bytes cur2 → Z.of_nat (length cur1) = n → length cur2 = length cur1 → (xor = true → cur1 = cur2) →
  iv_octets xor i (iv_mask fixed) n cur1 = iv_octets xor j (iv_mask fixed) n cur2 → i = j.
Proof.
  intros Ha Hi Hj n Hb1 Hb2 L1 L2 Hx E. pose proof (iv_first_octet len fixed i Ha Hi) as Fi. pose proof (iv_first_octet len fixed j Ha Hj) as Fj.
  fold n in Fi, Fj. pose proof Hi as (Hf & Hl & Hir & Hic). pose proof Hj as (_ & _ & Hjr & Hjc).
  pose proof (Z.div_mod fixed 8 ltac:(lia)) as Hd. pose proof (Z.mod_pos_bound fixed 8 ltac:(lia)) as Hm.
  assert (Hoct : ∀ k : nat, (k < length cur1)%nat → PORT_GET_BYTE_BE i k n = PORT_GET_BYTE_BE j k n).
  { intros k Hk. destruct (lookup_lt_is_Some_2 cur1 k Hk) as [o1 H1]. destruct (lookup_lt_is_Some_2 cur2 k ltac:(lia)) as [o2 H2].
    apply (f_equal (λ l, l !! k)) in E. unfold iv_octets in E. rewrite !list_lookup_imap, H1, H2 in E. cbn [fmap option_fmap option_map] in E.
    injection E as E. destruct k as [|k]; cbn [Nat.eqb] in E.
    - change (Z.of_nat 0) with 0 in *. destruct xor.
      + specialize (Hx eq_refl) as <-. rewrite H1 in H2. injection H2 as <-. rewrite Fi, Fj in E.
        apply (f_equal (Z.lxor o1)) in E. by rewrite <- !Z.lxor_assoc, !Z.lxor_nilpotent, !Z.lxor_0_l in E.
      + apply (f_equal (λ x, Z.land x (iv_mask fixed))) in E. rewrite !Z.land_lor_distr_l, <- !Z.land_assoc in E.
        rewrite !(Z.land_comm (Z.lnot _)), !Z.land_lnot_diag, !Z.land_0_r, !Z.lor_0_l, !Z.land_diag in E. congruence.
    - destruct xor; [|done]. specialize (Hx eq_refl) as <-. rewrite H1 in H2. injection H2 as <-.
      apply (f_equal (Z.lxor o1)) in E. by rewrite <- !Z.lxor_assoc, !Z.lxor_nilpotent, !Z.lxor_0_l in E. }
  assert (Eb : be_bytes (length cur1) i = be_bytes (length cur1) j).
  { apply list_eq. intros k. destruct (decide (k < length cur1)%nat).
    - rewrite !GET_BYTE_BE_lookup by lia. f_equal. rewrite L1. by apply Hoct.
    - rewrite !lookup_ge_None_2 by (rewrite length_be_bytes; lia). done. }
  apply (f_equal be_val) in Eb. rewrite !be_val_be_bytes, L1 in Eb.
  assert (2 ^ (len * 8 - fixed) ≤ 256 ^ n).
  { change 256 with (2 ^ 8). rewrite <- Z.pow_mul_r by lia. apply Z.pow_le_mono_r; lia. }
  rewrite !Z.mod_small in Eb by lia. done.
Qed.

(** A successful call. *)
Record ivcall := mk_ivcall { ic_gen : CK_GENERATOR_FUNCTION; ic_fixed : Z; ic_len : Z; ic_in : list Z; ic_out : list Z }.

(** Calls on one context in any order with any arguments, failing ones too. *)
Inductive iv_trace : gcmIVContext → list ivcall → Prop :=
| iv_init : iv_trace gcm_InitIVContext []
| iv_ok c l iv len fixed gen random c' out : iv_trace c l → bytes iv → 0 ≤ len < 2 ^ 28 → 0 ≤ fixed < 2 ^ 32 →
    gcm_GenerateIV c iv len fixed gen random = (c', Ok out) → iv_trace c' (l ++ [mk_ivcall gen fixed len iv out])
| iv_error c l iv len fixed gen random c' e : iv_trace c l → bytes iv → 0 ≤ len < 2 ^ 28 → 0 ≤ fixed < 2 ^ 32 →
    gcm_GenerateIV c iv len fixed gen random = (c', Err e) → iv_trace c' l.

(** What the [i]-th IV is, unless it came from the caller. *)
Definition iv_from (i : Z) (e : ivcall) : Prop :=
  ∃ c random, counter c = i ∧ iv_fill c (ic_in e) (ic_len e) (ic_fixed e) (ic_gen e) random = Ok (ic_out e).

Record iv_inv (c : gcmIVContext) (l : list ivcall) : Prop := {
  inv_none : counter c = 0 → l = [];
  inv_same : counter c ≠ 0 → ∀ e, e ∈ l → ic_gen e = ivGen c ∧ ic_fixed e = fixedBits c ∧ ic_len e = ivLen c ∧ bytes (ic_in e);
  inv_count : counter c ≠ 0 → ivGen c ≠ CKG_NO_GENERATE →
    counter c = length l ∧ counter c ≤ max_count c ∧ 0 ≤ fixedBits c ≤ ivLen c * 8 ∧ ivLen c < 2 ^ 28 ∧
    iv_max_count (ivGen c) (ivLen c * 8 - fixedBits c) = Some (max_count c) ∧
    ∀ (i : nat) e, l !! i = Some e → iv_from i e;
}.

(** What the checks leave in the context. *)
Lemma iv_setup_spec c len fixed gen c' r : iv_setup c len fixed gen = (c', r) → 0 ≤ len < 2 ^ 28 →
  counter c' = counter c ∧
  (counter c ≠ 0 → c' = c) ∧
  (r = Ok tt → ivGen c' = gen ∧ fixedBits c' = fixed ∧ ivLen c' = len ∧
     (counter c = 0 → fixed ≤ len * 8 ∧ iv_max_count gen (len * 8 - fixed) = Some (max_count c'))) ∧ r ≠ UB.
Proof.
  unfold iv_setup. intros E Hl. destruct (Z.eqb_spec (counter c) 0) as [H0|H0]; cbn [negb] in E.
  - rewrite wrap_small in E by lia. destruct (Z.ltb_spec (len * 8) fixed) as [Hf|Hf]; [by simplify_eq|].
    destruct (iv_max_count gen (len * 8 - fixed)) as [m|] eqn:Em; by simplify_eq.
  - apply pair_eq in E as [<- <-]. split_and!; [done|done| |by case_match].
    case_bool_decide as H1; cbn [negb orb]; [|done]. destruct (Z.eqb_spec (fixedBits c) fixed); cbn [negb orb]; [|done].
    destruct (Z.eqb_spec (ivLen c) len); cbn [negb]; [|done]. done.
Qed.

Lemma iv_max_count_range gen flex m : iv_max_count gen flex = Some m → 0 ≤ flex → 0 < m ≤ 2 ^ 64 - 1 ∧ m ≤ 2 ^ flex ∧ 0 < flex.
Proof.
  set (P := λ f m, 0 < m ≤ 2 ^ 64 - 1 ∧ m ≤ 2 ^ f ∧ 0 < f).
  assert (Hturn : ∀ f m, 0 ≤ f → (if f =? 0 then None else if f >=? 64 then Some (2 ^ 64 - 1) else Some (u64 (2 ^ f))) = Some m → P f m).
  { intros f m' Hf. destruct (Z.eqb_spec f 0); [done|]. rewrite Z.geb_leb. destruct (Z.leb_spec 64 f) as [H64|H64]; intros [= <-].
    - unfold P. pose proof (Z.pow_le_mono_r 2 64 f ltac:(lia) H64). lia.
    - pose proof (Z.pow_lt_mono_r 2 f 64 ltac:(lia) ltac:(lia) H64). assert (0 < 2 ^ f) by lia. rewrite wrap_small by lia. unfold P. lia. }
  intros E Hf. destruct gen; try by apply Hturn in E. unfold iv_max_count, GCMIV_RANDOM_BIRTHDAY_BITS in E.
  destruct (Z.leb_spec flex 64) as [|H64]; [done|]. rewrite Z.shiftr_div_pow2 in E by lia. change (2 ^ 1) with 2 in E.
  assert (0 ≤ (flex - 64) / 2 ≤ flex) by (split; [apply Z.div_pos; lia|apply Z.div_le_upper_bound; lia]).
  apply Hturn in E as (H1 & H2 & H3); [|lia]. unfold P. pose proof (Z.pow_le_mono_r 2 ((flex - 64) / 2) flex ltac:(lia) ltac:(lia)). lia.
Qed.

Lemma iv_trace_inv c l : iv_trace c l → iv_inv c l.
Proof.
  induction 1 as [|c l iv len fixed gen random c' out HT [H0 Hs Hc] Hb Hl Hf E|c l iv len fixed gen random c' e HT [H0 Hs Hc] Hb Hl Hf E].
  - constructor; [done|done|done].
  - unfold gcm_GenerateIV in E. destruct (iv_setup c len fixed gen) as [c1 r] eqn:Es.
    destruct (iv_setup_spec _ _ _ _ _ _ Es Hl) as (Ec & Hold & Hok & _). destruct r as [[]| |]; [|by simplify_eq..].
    destruct (Hok eq_refl) as (Eg & Ef & El & Hm). clear Hok.
    assert (Hall : ∀ e, e ∈ l → ic_gen e = gen ∧ ic_fixed e = fixed ∧ ic_len e = len ∧ bytes (ic_in e)).
    { intros e He. destruct (decide (counter c = 0)) as [Hz|Hz]; [rewrite (H0 Hz) in He; by apply not_elem_of_nil in He|].
      rewrite (Hold Hz) in Eg, Ef, El. rewrite <- Eg, <- Ef, <- El. by apply Hs. }
    assert (Hsame : ∀ e, e ∈ l ++ [mk_ivcall gen fixed len iv out] → ic_gen e = gen ∧ ic_fixed e = fixed ∧ ic_len e = len ∧ bytes (ic_in e)).
    { intros e [He|He]%elem_of_app; [by apply Hall|]. apply list_elem_of_singleton in He as ->. done. }
    case_bool_decide as Hgen.
    + apply pair_eq in E as [<- _]. constructor; cbn [counter set_counter ivGen fixedBits ivLen].
      * done.
      * intros _. by rewrite Eg, Ef, El.
      * by rewrite Eg.
    + rewrite Z.geb_leb in E. destruct (Z.leb_spec (max_count c1) (counter c1)) as [|Hlt]; [done|].
      destruct (iv_fill c1 iv len fixed gen random) as [iv'| |] eqn:Efill; [|done..]. apply pair_eq in E as [<- [= ->]].
      assert (Hcnt : counter c = length l ∧ fixed ≤ len * 8 ∧ iv_max_count gen (len * 8 - fixed) = Some (max_count c1) ∧
                     ∀ (i : nat) e, l !! i = Some e → iv_from i e).
      { destruct (decide (counter c = 0)) as [Hz|Hz].
        - destruct (Hm Hz) as [H1 H2]. rewrite Hz, (H0 Hz). done.
        - specialize (Hold Hz) as ->. destruct Hc as (H1 & H2 & H3 & H4 & H5 & H6); [done|congruence|]. rewrite <- Eg, <- Ef, <- El. split_and!; (done || lia). }
      destruct Hcnt as (H1 & H2 & H3 & H4). destruct (iv_max_count_range _ _ _ H3 ltac:(lia)) as (H5 & _ & _).
      assert (Ew : u64 (counter c1 + 1) = counter c1 + 1) by (apply wrap_small; lia).
      constructor; cbn [counter set_counter ivGen fixedBits ivLen max_count]; rewrite Ew, ?Eg, ?Ef, ?El.
      * intros. lia.
      * by intros _.
      * intros _ _. rewrite length_app. cbn [length]. split_and!; try (done || lia).
        intros i e [He|(Hi & He)]%lookup_app_Some; [by apply H4|]. apply list_lookup_singleton_Some in He as [Hi0 <-].
        exists c1, random. split; [lia|done].
  - unfold gcm_GenerateIV in E. destruct (iv_setup c len fixed gen) as [c1 r] eqn:Es.
    destruct (iv_setup_spec _ _ _ _ _ _ Es Hl) as (Ec & Hold & _ & Hub).
    assert (c' = c1) as -> by (repeat case_match; by simplify_eq).
    destruct (decide (counter c = 0)) as [Hz|Hz].
    + constructor; [intros _; by apply H0|rewrite Ec; done|rewrite Ec; done].
    + rewrite (Hold Hz). by constructor.
Qed.

Definition counts (gen : CK_GENERATOR_FUNCTION) : Prop := gen = CKG_GENERATE ∨ gen = CKG_GENERATE_COUNTER ∨ gen = CKG_GENERATE_COUNTER_XOR.

Lemma iv_fill_out c iv len fixed gen random out : counts gen → 0 ≤ fixed ≤ len * 8 → len < 2 ^ 28 →
  iv_fill c iv len fixed gen random = Ok out →
  let n := len - fixed / 8 in let cur := take (Z.to_nat n) (drop (Z.to_nat (fixed / 8)) iv) in
  Z.of_nat (length cur) = n ∧
  take (Z.to_nat n) (drop (Z.to_nat (fixed / 8)) out) = iv_octets (bool_decide (gen = CKG_GENERATE_COUNTER_XOR)) (counter c) (iv_mask fixed) n cur ∧
  take (Z.to_nat (fixed / 8)) out = take (Z.to_nat (fixed / 8)) iv ∧ length out = length iv.
Proof.
  intros Hg Hf Hl E n cur. assert (Hd : 0 ≤ fixed / 8 ≤ len) by (split; [apply Z.div_pos; lia|apply Z.div_le_upper_bound; lia]).
  unfold iv_fill in E. rewrite (wrap_small 32 (len - fixed / 8)) in E by lia. fold n in E.
  assert (E' : (cur ← mem_read (E := SECErrorCode) iv (Z.to_nat (fixed / 8)) (Z.to_nat n);
     mem_write iv (Z.to_nat (fixed / 8)) (iv_octets (bool_decide (gen = CKG_GENERATE_COUNTER_XOR)) (counter c) (iv_mask fixed) n cur)) = Ok out).
  { destruct Hg as [-> | [-> | ->]]; exact E. }
  clear E. apply bind_Ok in E' as (cur' & Er & Ew). unfold mem_read in Er. case_decide as Hin; [|done]. injection Er as <-. fold cur in Ew.
  assert (Lc : Z.of_nat (length cur) = n) by (unfold cur; rewrite length_take, length_drop; lia).
  apply mem_write_Ok in Ew as [Hw ->]. set (o := iv_octets _ _ _ _ _) in *. assert (Lo : length o = length cur) by apply length_imap.
  split; [done|]. split_and!.
  - rewrite drop_app_length', take_app_length' by (rewrite ?length_take; lia). done.
  - rewrite take_app_length' by (rewrite length_take; lia). done.
  - rewrite !length_app, length_take, length_drop. lia.
Qed.

(** ** The message interface on single-shot operations *)

Inductive CK_MECHANISM_TYPE := CKM_CHACHA20_POLY1305 | CKM_SALSA20_POLY1305 | CKM_NSS_CHACHA20_POLY1305 | CKM_AES_CCM | CKM_AES_GCM | CKM_other (n : Z).

#[export] Instance CK_MECHANISM_TYPE_eq_dec : EqDecision CK_MECHANISM_TYPE.
Proof. solve_decision. Defined.

(** Parameters of a message; the tag is apart. *)
Inductive message_params :=
| gcm_message (iv : list Z) (ulIvLen ulIvFixedBits : Z) (ivGenerator : CK_GENERATOR_FUNCTION) (ulTagBits : Z)
| ccm_message (ulDataLen : Z) (nonce : list Z) (ulNonceLen ulNonceFixedBits : Z) (nonceGenerator : CK_GENERATOR_FUNCTION) (ulMACLen : Z)
| chacha_poly_message (nonce : list Z) (ulNonceLen : Z).

(** sizeof, with words of eight octets. *)
Definition sizeof_CK_GCM_MESSAGE_PARAMS : Z := 6 * 8.
Definition sizeof_CK_CCM_MESSAGE_PARAMS : Z := 7 * 8.
Definition sizeof_CK_SALSA20_CHACHA20_POLY1305_MSG_PARAMS : Z := 3 * 8.

(** Parameters of a single-shot operation. *)
Inductive shot_params :=
| CK_GCM_PARAMS_V3 (iv : list Z) (ulIvBits : Z) (aad : list Z) (ulTagBits : Z)
| CK_NSS_GCM_PARAMS (iv aad : list Z) (ulTagBits : Z)
| CK_CCM_PARAMS (ulDataLen : Z) (nonce aad : list Z) (ulMACLen : Z)
| CK_SALSA20_CHACHA20_POLY1305_PARAMS (nonce aad : list Z)
| CK_NSS_AEAD_PARAMS (nonce aad : list Z) (ulTagLen : Z).

(** The token: single-shot operations told the room for the output, the message
    operations (which may generate the IV) on a session, random octets. *)
Class Token := {
  tkey : Type;
  session : Type;
  PK11_Encrypt : tkey → CK_MECHANISM_TYPE → shot_params → Z → list Z → sec_res (list Z);
  PK11_Decrypt : tkey → CK_MECHANISM_TYPE → shot_params → Z → list Z → sec_res (list Z);
  C_EncryptMessage : session → message_params → Z → list Z → Z → list Z → sec_res (list Z * list Z * list Z) * session;
  C_DecryptMessage : session → message_params → Z → list Z → list Z → Z → list Z → sec_res (list Z) * session;
  PK11_GenerateRandom : Z → sec_res (list Z);
}.

(** operation of a PK11Context: CKA_NSS_MESSAGE with CKA_ENCRYPT or CKA_DECRYPT,
    or anything else. *)
Inductive message_operation := MESSAGE_ENCRYPT | MESSAGE_DECRYPT | other_operation.

Record PK11Context `{Token} := {
  operation : message_operation;
  simulate_message : bool;
  simulate_mechanism : CK_MECHANISM_TYPE;
  ctx_key : tkey;
  ctx_session : session;
  iv_state : gcmIVContext;
}.

Section AeadOp.
  Context `{heap : NSPRHeap} `{token : Token}.

Definition set_iv_state (c : PK11Context) (s : gcmIVContext) : PK11Context :=
  {| operation := operation c; simulate_message := simulate_message c; simulate_mechanism := simulate_mechanism c;
     ctx_key := ctx_key c; ctx_session := ctx_session c; iv_state := s |}.
Definition set_session (c : PK11Context) (s : session) : PK11Context :=
  {| operation := operation c; simulate_message := simulate_message c; simulate_mechanism := simulate_mechanism c;
     ctx_key := ctx_key c; ctx_session := s; iv_state := iv_state c |}.

(** The switch of pk11_AEADSimulateOp: the context, then the single-shot
    parameters, those to try when the token rejects them, the IV and the length
    of the tag. *)
Definition shot_of (c : PK11Context) (encrypt : bool) (params : message_params) (paramslen : Z) (aad : list Z)
    : PK11Context * sec_res (shot_params * option shot_params * list Z * Z) :=
  let generate nonce len fixed gen (k : list Z → shot_params * option shot_params * list Z * Z) :=
    if encrypt then
      let '(s, r) := pk11_GenerateIV (iv_state c) gen fixed nonce len PK11_GenerateRandom in
      (set_iv_state c s, nonce ← r; Ok (k nonce))
    else (c, Ok (k nonce)) in
  match simulate_mechanism c, params with
  | (CKM_CHACHA20_POLY1305 | CKM_SALSA20_POLY1305), chacha_poly_message nonce _ =>
      if negb (paramslen =? sizeof_CK_SALSA20_CHACHA20_POLY1305_MSG_PARAMS) then (c, Err SEC_ERROR_INVALID_ARGS) else
      (c, Ok (CK_SALSA20_CHACHA20_POLY1305_PARAMS nonce aad, None, nonce, 16))
  | CKM_NSS_CHACHA20_POLY1305, chacha_poly_message nonce _ =>
      if negb (paramslen =? sizeof_CK_SALSA20_CHACHA20_POLY1305_MSG_PARAMS) then (c, Err SEC_ERROR_INVALID_ARGS) else
      (c, Ok (CK_NSS_AEAD_PARAMS nonce aad 16, None, nonce, 16))
  | CKM_AES_CCM, ccm_message dataLen nonce len fixed gen macLen =>
      if negb (paramslen =? sizeof_CK_CCM_MESSAGE_PARAMS) then (c, Err SEC_ERROR_INVALID_ARGS) else
      if macLen >? 16 then (c, Err SEC_ERROR_INVALID_ARGS) else
      generate nonce len fixed gen (λ nonce, (CK_CCM_PARAMS dataLen nonce aad macLen, None, nonce, macLen))
  | CKM_AES_GCM, gcm_message iv len fixed gen tagBits =>
      if negb (paramslen =? sizeof_CK_GCM_MESSAGE_PARAMS) then (c, Err SEC_ERROR_INVALID_ARGS) else
      if tagBits >? 128 then (c, Err SEC_ERROR_INVALID_ARGS) else
      generate iv len fixed gen (λ iv, (CK_GCM_PARAMS_V3 iv (len * 8) aad tagBits, Some (CK_NSS_GCM_PARAMS iv aad tagBits), iv, (tagBits + 7) / 8))
  | CKM_other _, _ => (c, Err SEC_ERROR_INVALID_ALGORITHM)
  | _, _ => (c, UB)
  end.

(** The operation, once more with the other parameters when the token finds the
    data bad. *)
Definition shot_op (op : shot_params → sec_res (list Z)) (p : shot_params) (retry : option shot_params) : sec_res (list Z) :=
  match op p, retry with
  | Err SEC_ERROR_BAD_DATA, Some p' => op p'
  | r, _ => r
  end.

(** [tagFollows]: the tag to check lies right behind the input.  Result: the IV,
    the output, the tag. *)
Definition pk11_AEADSimulateOp (c : PK11Context) (params : message_params) (paramslen : Z) (aad : list Z) (maxout : Z) (tag : list Z)
    (tagFollows : bool) (inp : list Z) : PK11Context * sec_res (list Z * list Z * list Z) :=
  match operation c with
  | other_operation => (c, Err SEC_ERROR_INVALID_ARGS)
  | op =>
      let encrypt := match op with MESSAGE_ENCRYPT => true | _ => false end in
      let '(c, r) := shot_of c encrypt params paramslen aad in
      (c, '(p, retry, iv, taglen) ← r;
          let inlen := Z.of_nat (length inp) in
          if encrypt then
            if maxout <? inlen then Err SEC_ERROR_INVALID_ARGS else
            maxout ← (if maxout <? u32 (inlen + taglen) then _ ← PORT_Alloc (u32 (inlen + taglen)); Ok (u32 (inlen + taglen)) else Ok maxout);
            out ← shot_op (λ p, PK11_Encrypt (ctx_key c) (simulate_mechanism c) p maxout inp) p retry;
            if (length out <? taglen) || (length out >? u32 (inlen + taglen)) then Err SEC_ERROR_LIBRARY_FAILURE else
            let n := (length out - Z.to_nat taglen)%nat in
            Ok (iv, take n out, drop n out)
          else
            _ ← (if tagFollows then Ok [] else PORT_Alloc (u32 (inlen + taglen)));
            tag ← mem_read tag 0 (Z.to_nat taglen);
            out ← shot_op (λ p, PK11_Decrypt (ctx_key c) (simulate_mechanism c) p maxout (inp ++ tag)) p retry;
            Ok (iv, out, tag))
  end.

(** Without simulation the session of the context is the token's business. *)
Definition PK11_AEADRawOp (c : PK11Context) (params : message_params) (paramslen : Z) (aad : list Z) (maxout : Z) (tag : list Z)
    (tagFollows : bool) (inp : list Z) : PK11Context * sec_res (list Z * list Z * list Z) :=
  match operation c with
  | other_operation => (c, Err SEC_ERROR_INVALID_ARGS)
  | op =>
      if simulate_message c then pk11_AEADSimulateOp c params paramslen aad maxout tag tagFollows inp else
      match op with
      | MESSAGE_ENCRYPT => let '(r, s) := C_EncryptMessage (ctx_session c) params paramslen aad maxout inp in (set_session c s, r)
      | _ => let '(r, s) := C_DecryptMessage (ctx_session c) params paramslen aad tag maxout inp in
             (set_session c s, out ← r; Ok (match params with gcm_message iv _ _ _ _ | ccm_message _ iv _ _ _ _ | chacha_poly_message iv _ => iv end, out, tag))
      end
  end.

Definition PK11_AEADOp (c : PK11Context) (gen : CK_GENERATOR_FUNCTION) (fixedbits : Z) (iv : list Z) (ivlen : Z) (aad : list Z) (maxout : Z)
    (tag : list Z) (taglen : Z) (tagFollows : bool) (inp : list Z) : PK11Context * sec_res (list Z * list Z * list Z) :=
  match simulate_mechanism c with
  | CKM_CHACHA20_POLY1305 | CKM_SALSA20_POLY1305 | CKM_NSS_CHACHA20_POLY1305 =>
      if negb (taglen =? 16) then (c, Err SEC_ERROR_INVALID_ARGS) else
      let '(c, r) := match operation c with
                     | MESSAGE_ENCRYPT => let '(s, r) := pk11_GenerateIV (iv_state c) gen fixedbits iv ivlen PK11_GenerateRandom in (set_iv_state c s, r)
                     | _ => (c, Ok iv)
                     end in
      match r with
      | Ok iv => PK11_AEADRawOp c (chacha_poly_message iv ivlen) sizeof_CK_SALSA20_CHACHA20_POLY1305_MSG_PARAMS aad maxout tag tagFollows inp
      | Err e => (c, Err e)
      | UB => (c, UB)
      end
  | CKM_AES_GCM =>
      PK11_AEADRawOp c (gcm_message iv ivlen fixedbits gen (taglen * 8)) sizeof_CK_GCM_MESSAGE_PARAMS aad maxout tag tagFollows inp
  | CKM_AES_CCM =>
      PK11_AEADRawOp c (ccm_message (length inp) iv ivlen fixedbits gen taglen) sizeof_CK_GCM_MESSAGE_PARAMS aad maxout tag tagFollows inp
  | CKM_other _ => (c, Err SEC_ERROR_INVALID_ALGORITHM)
  end.
End AeadOp.

(** ** What is relied on of a token *)

(** The length of the tag single-shot parameters ask for. *)
Definition shot_tag (p : shot_params) : Z :=
  match p with
  | CK_GCM_PARAMS_V3 _ _ _ tagBits | CK_NSS_GCM_PARAMS _ _ tagBits => (tagBits + 7) / 8
  | CK_CCM_PARAMS _ _ _ macLen => macLen
  | CK_SALSA20_CHACHA20_POLY1305_PARAMS _ _ => 16
  | CK_NSS_AEAD_PARAMS _ _ tagLen => tagLen
  end.

(** A mechanism of a token that seals with the tag at the end. *)
Class TokenLaws `{token : Token} (mech : CK_MECHANISM_TYPE) := {
  seal : tkey → shot_params → list Z → list Z;
  seal_length k p x : 0 ≤ shot_tag p → Z.of_nat (length (seal k p x)) = length x + shot_tag p;
  seal_bytes k p x : bytes x → bytes (seal k p x);
  Encrypt_seal k p max x : 0 ≤ shot_tag p → length x + shot_tag p ≤ max → PK11_Encrypt k mech p max x = Ok (seal k p x);
  Decrypt_seal k p max x : length x ≤ max → PK11_Decrypt k mech p max (seal k p x) = Ok x;
}.

Section Simulated.
  Context `{heap : NSPRHeap} `{token : Token}.

Definition simulated (c : PK11Context) (op : message_operation) (mech : CK_MECHANISM_TYPE) : Prop :=
  operation c = op ∧ simulate_message c = true ∧ simulate_mechanism c = mech.

Definition aead_mechanism (mech : CK_MECHANISM_TYPE) : Prop :=
  mech = CKM_AES_GCM ∨ mech = CKM_CHACHA20_POLY1305 ∨ mech = CKM_SALSA20_POLY1305 ∨ mech = CKM_NSS_CHACHA20_POLY1305.

(** The parameters of the mechanism. *)
Definition aead_shot (mech : CK_MECHANISM_TYPE) (iv : list Z) (ivlen : Z) (aad : list Z) (taglen : Z) : shot_params :=
  match mech with
  | CKM_AES_GCM => CK_GCM_PARAMS_V3 iv (ivlen * 8) aad (taglen * 8)
  | CKM_NSS_CHACHA20_POLY1305 => CK_NSS_AEAD_PARAMS iv aad 16
  | _ => CK_SALSA20_CHACHA20_POLY1305_PARAMS iv aad
  end.

Lemma tag_octets n : 0 ≤ n → (n * 8 + 7) / 8 = n.
Proof. intros Hn. symmetry. apply Z.div_unique with 7; lia. Qed.

Lemma aead_shot_tag mech iv ivlen aad taglen : aead_mechanism mech → 0 ≤ taglen ≤ 16 → mech = CKM_AES_GCM ∨ taglen = 16 →
  shot_tag (aead_shot mech iv ivlen aad taglen) = taglen.
Proof.
  intros [-> | [-> | [-> | ->]]] Ht Ht'; [apply tag_octets; lia|..]; (destruct Ht' as [?|Ht']; [done|]); by rewrite Ht'.
Qed.

(** Encrypting with a simulated message interface. *)
Lemma SimulateOp_encrypts mech `{laws : !TokenLaws mech} c params plen aad maxout tag0 follows inp c' p retry iv taglen :
  operation c = MESSAGE_ENCRYPT → simulate_mechanism c' = mech →
  shot_of c true params plen aad = (c', Ok (p, retry, iv, taglen)) → shot_tag p = taglen → 0 ≤ taglen →
  length inp + taglen ≤ maxout → maxout < 2 ^ 31 →
  let sealed := seal (ctx_key c') p inp in
  pk11_AEADSimulateOp c params plen aad maxout tag0 follows inp = (c', Ok (iv, take (length inp) sealed, drop (length inp) sealed)).
Proof.
  intros Ho Hm Hs Ht Ht0 Hr Hmax sealed. pose proof (seal_length (ctx_key c') p inp ltac:(lia)) as Ls. fold sealed in Ls. rewrite Ht in Ls.
  unfold pk11_AEADSimulateOp. rewrite Ho, Hs. cbn [mbind res_bind]. rewrite (proj2 (Z.ltb_ge _ _)), wrap_small, (proj2 (Z.ltb_ge _ _)) by lia.
  cbn [mbind res_bind]. unfold shot_op. rewrite Hm, (Encrypt_seal _ p maxout inp) by lia. fold sealed. cbn [mbind res_bind].
  assert (Hlim : ((length sealed <? taglen) || (length sealed >? length inp + taglen)) = false).
  { rewrite Z.gtb_ltb. apply orb_false_iff. split; apply Z.ltb_ge; lia. }
  rewrite Hlim. do 3 f_equal; [f_equal|]; f_equal; lia.
Qed.

Lemma SimulateOp_decrypts mech `{laws : !TokenLaws mech} c params plen aad maxout inp p retry iv taglen :
  operation c = MESSAGE_DECRYPT → simulate_mechanism c = mech →
  shot_of c false params plen aad = (c, Ok (p, retry, iv, taglen)) → shot_tag p = taglen → 0 ≤ taglen → length inp ≤ maxout →
  let sealed := seal (ctx_key c) p inp in
  pk11_AEADSimulateOp c params plen aad maxout (drop (length inp) sealed) true (take (length inp) sealed) = (c, Ok (iv, inp, drop (length inp) sealed)).
Proof.
  intros Ho Hm Hs Ht Ht0 Hr sealed. pose proof (seal_length (ctx_key c) p inp ltac:(lia)) as Ls. fold sealed in Ls. rewrite Ht in Ls.
  unfold pk11_AEADSimulateOp. rewrite Ho, Hs. cbn [mbind res_bind].
  assert (Ld : length (drop (length inp) sealed) = Z.to_nat taglen) by (rewrite length_drop; lia).
  rewrite mem_read_in by lia. rewrite drop_0, (take_ge (drop (length inp) sealed)) by lia. cbn [mbind res_bind]. rewrite take_drop. 
  assert (Hd : PK11_Decrypt (ctx_key c) mech p maxout sealed = Ok inp) by (apply Decrypt_seal; lia). unfold shot_op. by rewrite Hm, Hd.
Qed.

(** The whole operation. *)
Lemma AEADOp_encrypts mech `{laws : !TokenLaws mech} e gen fixed iv ivlen aad maxout tag0 taglen follows inp s iv' :
  aead_mechanism mech → simulated e MESSAGE_ENCRYPT mech → 0 ≤ taglen ≤ 16 → mech = CKM_AES_GCM ∨ taglen = 16 →
  pk11_GenerateIV (iv_state e) gen fixed iv ivlen PK11_GenerateRandom = (s, Ok iv') → length inp + taglen ≤ maxout → maxout < 2 ^ 31 →
  let sealed := seal (ctx_key e) (aead_shot mech iv' ivlen aad taglen) inp in
  PK11_AEADOp e gen fixed iv ivlen aad maxout tag0 taglen follows inp =
  (set_iv_state e s, Ok (iv', take (length inp) sealed, drop (length inp) sealed)).
Proof.
  intros Hm (Ho & Hs & Hmech) Ht Ht' Hg Hr Hmax sealed. pose proof (aead_shot_tag mech iv' ivlen aad taglen Hm Ht Ht') as Hst.
  unfold PK11_AEADOp. rewrite Hmech. destruct (decide (mech = CKM_AES_GCM)) as [-> |Hne].
  - unfold PK11_AEADRawOp. rewrite Ho, Hs.
    apply (SimulateOp_encrypts CKM_AES_GCM e _ _ aad maxout tag0 follows inp (set_iv_state e s) (aead_shot CKM_AES_GCM iv' ivlen aad taglen)
      (Some (CK_NSS_GCM_PARAMS iv' aad (taglen * 8))) iv' taglen); try (done || lia).
    unfold shot_of. rewrite Hmech, Z.eqb_refl, Z.gtb_ltb, (proj2 (Z.ltb_ge _ _)) by lia. cbn [negb]. rewrite Hg. cbn [mbind res_bind]. by rewrite tag_octets by lia.
  - destruct Ht' as [? | ->]; [done|].
    assert (Hraw : PK11_AEADRawOp (set_iv_state e s) (chacha_poly_message iv' ivlen) sizeof_CK_SALSA20_CHACHA20_POLY1305_MSG_PARAMS aad maxout tag0 follows inp
                   = (set_iv_state e s, Ok (iv', take (length inp) sealed, drop (length inp) sealed))).
    { unfold PK11_AEADRawOp. cbn [operation simulate_message set_iv_state]. rewrite Ho, Hs.
      apply (SimulateOp_encrypts mech (set_iv_state e s) _ _ aad maxout tag0 follows inp (set_iv_state e s) (aead_shot mech iv' ivlen aad 16) None iv' 16);
        try (done || lia).
      unfold shot_of. cbn [simulate_mechanism set_iv_state]. rewrite Hmech. destruct Hm as [-> | [-> | [-> | ->]]]; done. }
    destruct Hm as [-> | [-> | [-> | ->]]]; [done|..]; cbn [Z.eqb Pos.eqb negb]; rewrite Ho, Hg; exact Hraw.
Qed.

Lemma AEADOp_decrypts mech `{laws : !TokenLaws mech} d gen fixed iv ivlen aad maxout taglen inp :
  aead_mechanism mech → simulated d MESSAGE_DECRYPT mech → 0 ≤ taglen ≤ 16 → mech = CKM_AES_GCM ∨ taglen = 16 → length inp ≤ maxout →
  let sealed := seal (ctx_key d) (aead_shot mech iv ivlen aad taglen) inp in
  PK11_AEADOp d gen fixed iv ivlen aad maxout (drop (length inp) sealed) taglen true (take (length inp) sealed) =
  (d, Ok (iv, inp, drop (length inp) sealed)).
Proof.
  intros Hm (Ho & Hs & Hmech) Ht Ht' Hr sealed. pose proof (aead_shot_tag mech iv ivlen aad taglen Hm Ht Ht') as Hst.
  unfold PK11_AEADOp. rewrite Hmech. destruct (decide (mech = CKM_AES_GCM)) as [-> |Hne].
  - unfold PK11_AEADRawOp. rewrite Ho, Hs.
    apply (SimulateOp_decrypts CKM_AES_GCM d _ _ aad maxout inp (aead_shot CKM_AES_GCM iv ivlen aad taglen)
      (Some (CK_NSS_GCM_PARAMS iv aad (taglen * 8))) iv taglen); try (done || lia).
    unfold shot_of. rewrite Hmech, Z.eqb_refl, Z.gtb_ltb, (proj2 (Z.ltb_ge _ _)) by lia. cbn [negb]. by rewrite tag_octets by lia.
  - destruct Ht' as [? | ->]; [done|].
    assert (Hraw : PK11_AEADRawOp d (chacha_poly_message iv ivlen) sizeof_CK_SALSA20_CHACHA20_POLY1305_MSG_PARAMS aad maxout (drop (length inp) sealed) true
                     (take (length inp) sealed) = (d, Ok (iv, inp, drop (length inp) sealed))).
    { unfold PK11_AEADRawOp. rewrite Ho, Hs. apply (SimulateOp_decrypts mech d _ _ aad maxout inp (aead_shot mech iv ivlen aad 16) None iv 16); try (done || lia).
      unfold shot_of. rewrite Hmech. destruct Hm as [-> | [-> | [-> | ->]]]; done. }
    destruct Hm as [-> | [-> | [-> | ->]]]; [done|..]; cbn [Z.eqb Pos.eqb negb]; rewrite Ho; exact Hraw.
Qed.
End Simulated.

(** ** A token to evaluate with *)

(** Octets are xored with a sum of the parameters; the tag depends on all. *)
Definition sum_octets (l : list Z) : Z := foldr Z.add 0 l mod 256.
Definition toy_iv (p : shot_params) : list Z :=
  match p with
  | CK_GCM_PARAMS_V3 iv _ aad _ | CK_NSS_GCM_PARAMS iv aad _ | CK_CCM_PARAMS _ iv aad _ | CK_SALSA20_CHACHA20_POLY1305_PARAMS iv aad
  | CK_NSS_AEAD_PARAMS iv aad _ => iv ++ aad
  end.
Definition toy_stream (k : Z) (p : shot_params) (x : list Z) : list Z := Z.lxor (sum_octets (k :: toy_iv p)) <$> x.
Definition toy_tag (k : Z) (p : shot_params) (x : list Z) : list Z := replicate (Z.to_nat (shot_tag p)) (sum_octets (k :: toy_iv p ++ x)).
Definition toy_seal (k : Z) (p : shot_params) (x : list Z) : list Z := toy_stream k p x ++ toy_tag k p x.

#[global] Instance toy_token : Token := {|
  tkey := Z;
  session := unit;
  PK11_Encrypt k _ p max x := if length (toy_seal k p x) <=? max then Ok (toy_seal k p x) else Err SEC_ERROR_OUTPUT_LEN;
  PK11_Decrypt k _ p max y :=
    let x := toy_stream k p (take (length y - Z.to_nat (shot_tag p)) y) in
    if bool_decide (toy_seal k p x = y) then if length x <=? max then Ok x else Err SEC_ERROR_OUTPUT_LEN else Err SEC_ERROR_BAD_DATA;
  C_EncryptMessage s _ _ _ _ _ := (Err SEC_ERROR_INVALID_ALGORITHM, s);
  C_DecryptMessage s _ _ _ _ _ _ := (Err SEC_ERROR_INVALID_ALGORITHM, s);
  PK11_GenerateRandom n := Ok (replicate (Z.to_nat n) 0x5a);
|}.

Lemma toy_stream_twice k p x : toy_stream k p (toy_stream k p x) = x.
Proof.
  unfold toy_stream. rewrite <- list_fmap_compose. rewrite <- (list_fmap_id x) at 2. apply list_fmap_ext. intros i y _.
  cbn [compose]. by rewrite <- Z.lxor_assoc, Z.lxor_nilpotent, Z.lxor_0_l.
Qed.

#[global, refine] Instance toy_token_laws mech : TokenLaws mech := {| seal := toy_seal |}.
Proof.
  - intros k p x Hp. unfold toy_seal, toy_stream, toy_tag. rewrite length_app, length_fmap, length_replicate. lia.
  - intros k p x Hx. assert (Hs : ∀ l, is_byte (sum_octets l)) by (intros l; apply Z.mod_pos_bound; lia).
    apply Forall_app. split; [|by apply Forall_replicate]. apply Forall_fmap. apply (Forall_impl _ _ _ Hx). intros y Hy. cbn [compose].
    apply (lxor_range _ _ 8); [lia|apply Hs|done].
  - intros k p max x Hp Hm. unfold PK11_Encrypt, toy_token. rewrite (proj2 (Z.leb_le _ _)); [done|].
    unfold toy_seal, toy_stream, toy_tag. rewrite length_app, length_fmap, length_replicate. lia.
  - intros k p max x Hm. unfold PK11_Decrypt, toy_token. cbn zeta.
    assert (E : take (length (toy_seal k p x) - Z.to_nat (shot_tag p)) (toy_seal k p x) = toy_stream k p x).
    { apply take_app_length'. unfold toy_seal, toy_stream, toy_tag. rewrite length_app, length_fmap, length_replicate. lia. }
    rewrite E, toy_stream_twice, bool_decide_eq_true_2, (proj2 (Z.leb_le _ _)) by done. done.
Defined.

(** ** Theorems *)

(** A further call, as the function evaluates it. *)
Lemma iv_trace_call c l iv len fixed gen random : iv_trace c l → bytes iv → 0 ≤ len < 2 ^ 28 → 0 ≤ fixed < 2 ^ 32 →
  match gcm_GenerateIV c iv len fixed gen random with
  | (c', Ok out) => iv_trace c' (l ++ [mk_ivcall gen fixed len iv out])
  | (c', Err _) => iv_trace c' l
  | (_, UB) => True
  end.
Proof.
  intros HT Hb Hl Hf. destruct (gcm_GenerateIV c iv len fixed gen random) as [c' [out|e|]] eqn:E; [by eapply iv_ok|by eapply iv_error|done].
Qed.



(** The operations of the message interface simulated for GCM and
    ChaCha20-Poly1305 invert each other: PK11_AEADOp uses the IV it generates and
    returns, gives an output as long as the input and a tag of the length asked
    for, and decrypting these with that IV gives the input back. *)
Theorem AEADOp_round_trip `{heap : NSPRHeap} `{token : Token} mech `{laws : !TokenLaws mech} e d gen fixed iv ivlen aad maxout tag0 taglen follows inp s iv' :
  aead_mechanism mech → simulated e MESSAGE_ENCRYPT mech → simulated d MESSAGE_DECRYPT mech → ctx_key d = ctx_key e →
  0 ≤ taglen ≤ 16 → mech = CKM_AES_GCM ∨ taglen = 16 → length inp + taglen ≤ maxout → maxout < 2 ^ 31 →
  pk11_GenerateIV (iv_state e) gen fixed iv ivlen PK11_GenerateRandom = (s, Ok iv') →
  ∃ out tag, PK11_AEADOp e gen fixed iv ivlen aad maxout tag0 taglen follows inp = (set_iv_state e s, Ok (iv', out, tag)) ∧
    length out = length inp ∧ Z.of_nat (length tag) = taglen ∧
    ∀ gen' fixed', PK11_AEADOp d gen' fixed' iv' ivlen aad maxout tag taglen true out = (d, Ok (iv', inp, tag)).
Proof.
  intros Hm He Hd Hk Ht Ht' Hr Hmax Hg. pose proof (aead_shot_tag mech iv' ivlen aad taglen Hm Ht Ht') as Hst.
  pose proof (seal_length (ctx_key e) (aead_shot mech iv' ivlen aad taglen) inp ltac:(lia)) as Ls. rewrite Hst in Ls.
  eexists _, _. rewrite (AEADOp_encrypts mech e gen fixed iv ivlen aad maxout tag0 taglen follows inp s iv') by done.
  split; [done|]. rewrite length_take, length_drop. split; [lia|]. split; [lia|]. intros gen' fixed'. rewrite <- Hk.
  apply AEADOp_decrypts; (done || lia).
Qed.

(** PK11_AEADOp passes the size of the parameters of GCM with those of CCM, so
    that with a simulated message interface AES-CCM always fails. *)
Theorem AEADOp_ccm_fails `{heap : NSPRHeap} `{token : Token} c gen fixed iv ivlen aad maxout tag0 taglen follows inp :
  simulate_mechanism c = CKM_AES_CCM → simulate_message c = true →
  PK11_AEADOp c gen fixed iv ivlen aad maxout tag0 taglen follows inp = (c, Err SEC_ERROR_INVALID_ARGS).
Proof.
  intros Hm Hs. unfold PK11_AEADOp, PK11_AEADRawOp, pk11_AEADSimulateOp, shot_of. rewrite Hm, Hs. by destruct (operation c).
Qed.

(** ** Witnesses and examples *)

Definition demo_ctx (op : message_operation) (mech : CK_MECHANISM_TYPE) : PK11Context :=
  {| operation := op; simulate_message := true; simulate_mechanism := mech; ctx_key := 77; ctx_session := tt; iv_state := gcm_InitIVContext |}.

Definition demo_iv : list Z := [10; 11; 12; 13; 14; 15; 16; 17; 18; 19; 20; 255].

Lemma demo_iv_bytes : bytes demo_iv.
Proof. repeat constructor; unfold is_byte; lia. Qed.

Example demo_seal_xor :
  let '(c, r) := PK11_AEADOp (demo_ctx MESSAGE_ENCRYPT CKM_AES_GCM) CKG_GENERATE_COUNTER_XOR 32 demo_iv 12 [1; 2] 100 [] 16 false [104; 105] in
  counter (iv_state c) = 1 ∧ r = Ok (demo_iv, [156; 157], replicate 16 197).
Proof. vm_compute. split; reflexivity. Qed.


Lemma AEADOp_round_trip_witness : ∃ out tag,
  PK11_AEADOp (demo_ctx MESSAGE_ENCRYPT CKM_AES_GCM) CKG_GENERATE_COUNTER_XOR 32 demo_iv 12 [1; 2] 100 [] 16 false [104; 105]
    = (set_iv_state (demo_ctx MESSAGE_ENCRYPT CKM_AES_GCM) (pk11_GenerateIV gcm_InitIVContext CKG_GENERATE_COUNTER_XOR 32 demo_iv 12 PK11_GenerateRandom).1,
       Ok (demo_iv, out, tag)) ∧
  length out = 2%nat ∧ Z.of_nat (length tag) = 16 ∧
  ∀ gen' fixed', PK11_AEADOp (demo_ctx MESSAGE_DECRYPT CKM_AES_GCM) gen' fixed' demo_iv 12 [1; 2] 100 tag 16 true out
    = (demo_ctx MESSAGE_DECRYPT CKM_AES_GCM, Ok (demo_iv, [104; 105], tag)).
Proof.
  apply (AEADOp_round_trip CKM_AES_GCM); first [done | by left | vm_compute; reflexivity].
Defined.

Lemma AEADOp_ccm_fails_witness :
  PK11_AEADOp (demo_ctx MESSAGE_ENCRYPT CKM_AES_CCM) CKG_GENERATE_COUNTER 32 demo_iv 12 [] 100 [] 8 false [1]
    = (demo_ctx MESSAGE_ENCRYPT CKM_AES_CCM, Err SEC_ERROR_INVALID_ARGS).
Proof. apply AEADOp_ccm_fails; reflexivity. Defined.
