(* ===== verification/Record12.v ===== *)
(** lib/ssl/ssl3con.c: protection of records up to TLS 1.2, with a MAC and a
    stream or CBC cipher, or with an AEAD.

    The ciphers, the MACs and the AEADs are PKCS #11 operations and form the
    class [RecordCrypto].  [cbc_record_exact] says which ciphertexts are accepted,
    [record12_round_trip] that a sequence of protected records comes out again. *)

From stdpp Require Import base numbers list.
From S2P Require Import Prelude Port ConstTime SslEncode DtlsWindow AeadOp CbcRecord.

Inductive CipherType := type_stream | type_block | type_aead.

#[export] Instance CipherType_eq_dec : EqDecision CipherType.
Proof. solve_decision. Defined.

Definition SSL_LIBRARY_VERSION_3_0 : Z := 0x0300.
Definition SSL_LIBRARY_VERSION_TLS_1_0 : Z := 0x0301.
Definition SSL_LIBRARY_VERSION_TLS_1_1 : Z := 0x0302.
Definition SSL_LIBRARY_VERSION_TLS_1_2 : Z := 0x0303.

Definition MAX_IV_LENGTH : Z := 24.
Definition SSL3_BUFFER_FUDGE : Z := 100.
Definition MAX_EXPANSION : Z := 256 + 48 + 16.

(** Errors of the record layer.  [Mapped e] is the error after
    ssl_MapLowLevelError(e): that of the token or [e]. *)
Inductive RecordError :=
| Sec (e : SECErrorCode)
| SSL_ERROR_ENCRYPTION_FAILURE
| SSL_ERROR_BAD_MAC_READ
| SSL_ERROR_RX_RECORD_TOO_LONG
| SSL_ERROR_TOO_MANY_RECORDS
| SSL_ERROR_BAD_BLOCK_PADDING
| SSL_ERROR_RX_UNEXPECTED_RECORD_TYPE
| SSL_ERROR_RX_MALFORMED_ALERT
| SSL_ERROR_RX_MALFORMED_HANDSHAKE
| SSL_ERROR_TOO_MUCH_EARLY_DATA
| SSL_ERROR_GENERATE_RANDOM_FAILURE
| SSL_ERROR_MAC_COMPUTATION_FAILURE
| error_not_set
| Mapped (e : RecordError).

Inductive SSL3AlertDescription := bad_record_mac | record_overflow | internal_error | unexpected_message.

Abbreviation rec_res := (res RecordError).
Abbreviation alert_res := (res (SSL3AlertDescription * RecordError)).

(** Errors of the buffers, and alerts, carried over. *)
Definition sec {A} (m : sec_res A) : rec_res A :=
  match m with Ok a => Ok a | Err e => Err (Sec e) | UB => UB end.
Definition with_alert {A} (alert : SSL3AlertDescription) (m : rec_res A) : alert_res A :=
  match m with Ok a => Ok a | Err e => Err (alert, e) | UB => UB end.

(** PKCS #11: a cipher operation with the room for its output, the MAC of a
    header and an input, the same in constant time (told the input with its MAC
    and the length before the padding was removed; [inr true] when the token
    does not know the mechanism), and the AEAD operations.  Contexts have
    state. *)
Class RecordCrypto := {
  cctx : Type;
  mackey : Type;
  spec_cipher : cctx → Z → list Z → option (list Z) * cctx;
  PK11_DigestMac : mackey → list Z → list Z → option (list Z);
  PK11_SignConstantTime : mackey → list Z → list Z → Z → list Z + bool;
  PK11_AEADOp_encrypt : cctx → CK_GENERATOR_FUNCTION → Z → list Z → list Z → Z → Z → list Z →
                        option (list Z * list Z * list Z) * cctx;
  PK11_AEADOp_decrypt : cctx → list Z → list Z → Z → list Z → list Z → option (list Z) * cctx;
}.

(** The fields of ssl3BulkCipherDef, ssl3MACDef and ssl3CipherSpec in use. *)
Record ssl3BulkCipherDef := {
  cd_type : CipherType;
  cd_null : bool;
  iv_size : Z;
  block_size : Z;
  tag_size : Z;
  explicit_nonce_size : Z;
  max_records : Z;
}.

Record ssl3CipherSpec `{RecordCrypto} := {
  cipherDef : ssl3BulkCipherDef;
  mac_null : bool;
  mac_size : Z;
  macKey : mackey;
  cipherContext : cctx;
  key_iv : list Z;
  version : Z;
  recordVersion : Z;
  epoch : Z;
  nextSeqNum : Z;
  recordSizeLimit : Z;
  earlyDataRemaining : Z;
  deprotectionFailures : Z;
}.

Record SSL3Ciphertext := { seqNum : Z; hdr : list Z; ct_buf : list Z }.

Definition SSL_BUFFER_SPACE (b : sslBuffer) : Z := u32 (space b - len b).

(** Writing and reading behind the contents: [SSL_BUFFER_NEXT(b) + off]. *)
Definition store_next (b : sslBuffer) (off : Z) (src : list Z) : rec_res sslBuffer := sec (buffer_store b (len b + off) src).
Definition read_next (b : sslBuffer) (off n : Z) : rec_res (list Z) := mem_read (storage b) (Z.to_nat (len b + off)) (Z.to_nat n).
Definition skip_next (b : sslBuffer) (n : Z) : rec_res sslBuffer := '(b, _) ← sec (sslBuffer_Skip b n); Ok b.

Section Record12.
  Context `{heap : NSPRHeap} `{rc : RecordCrypto}.

Definition ssl3_BuildRecordPseudoHeader (epoch seqNum ct : Z) (includesVersion : bool) (version : Z) (isDTLS : bool)
    (length : Z) (buf : sslBuffer) (v : Z) : sec_res sslBuffer :=
  buf ← (if isDTLS && (v <? SSL_LIBRARY_VERSION_TLS_1_3)
         then buf ← sslBuffer_AppendNumber buf epoch 2; sslBuffer_AppendNumber buf seqNum 6
         else sslBuffer_AppendNumber buf seqNum 8);
  buf ← sslBuffer_AppendNumber buf ct 1;
  buf ← (if includesVersion : bool then sslBuffer_AppendNumber buf version 2 else Ok buf);
  sslBuffer_AppendNumber buf length 2.

(** The MAC; [None] when the token fails. *)
Definition ssl3_ComputeRecordMAC (spec : ssl3CipherSpec) (header input : list Z) : option (list Z) :=
  if mac_null spec then Some [] else PK11_DigestMac (macKey spec) header input.

(** [input] has its MAC still; [inputLen] counts it. *)
Definition ssl3_ComputeRecordMACConstantTime (spec : ssl3CipherSpec) (header input : list Z) (inputLen originalLen : Z)
    : rec_res (option (list Z)) :=
  if mac_null spec then Ok (Some []) else
  inp ← mem_read input 0 (Z.to_nat inputLen);
  match PK11_SignConstantTime (macKey spec) header inp originalLen with
  | inl m => Ok (Some m)
  | inr true => inp ← mem_read input 0 (Z.to_nat (inputLen - mac_size spec));
                Ok (ssl3_ComputeRecordMAC spec header inp)
  | inr false => Ok None
  end.

(** The explicit IV of TLS 1.1: random octets through the cipher.  The buffer,
    the context. *)
Definition put_explicit_iv (spec : ssl3CipherSpec) (PK11_GenerateRandom : Z → option (list Z)) (wrBuf : sslBuffer)
    : rec_res (sslBuffer * cctx) :=
  if negb (bool_decide (cd_type (cipherDef spec) = type_block) && (SSL_LIBRARY_VERSION_TLS_1_1 <=? version spec))
  then Ok (wrBuf, cipherContext spec) else
  let ivLen := iv_size (cipherDef spec) in
  if ivLen >? SSL_BUFFER_SPACE wrBuf then Err (Sec SEC_ERROR_LIBRARY_FAILURE) else
  match PK11_GenerateRandom ivLen with
  | None => Err (Mapped SSL_ERROR_GENERATE_RANDOM_FAILURE)
  | Some iv =>
      wrBuf ← store_next wrBuf 0 iv;
      inp ← read_next wrBuf 0 ivLen;
      match spec_cipher (cipherContext spec) ivLen inp with
      | (None, _) => Err SSL_ERROR_ENCRYPTION_FAILURE
      | (Some out, c) =>
          wrBuf ← store_next wrBuf 0 out;
          if negb (length out =? ivLen) then Err SSL_ERROR_ENCRYPTION_FAILURE else
          wrBuf ← skip_next wrBuf (length out);
          Ok (wrBuf, c)
      end
  end.

(** [for (i = padding_length + 1; i > 0; --i) *pBuf-- = padding_length;] at the
    end of the fragment. *)
Definition put_padding (wrBuf : sslBuffer) (fragLen padding_length : Z) : rec_res sslBuffer :=
  store_next wrBuf (fragLen - (padding_length + 1)) (replicate (Z.to_nat (padding_length + 1)) (u8 padding_length)).

(** One call of the cipher on [inp], whose output goes to SSL_BUFFER_NEXT. *)
Definition cipher_part (wrBuf : sslBuffer) (c : cctx) (inp : list Z) (partLen : Z) : rec_res (sslBuffer * cctx) :=
  match spec_cipher c partLen inp with
  | (None, _) => Err SSL_ERROR_ENCRYPTION_FAILURE
  | (Some out, c) =>
      wrBuf ← store_next wrBuf 0 out;
      if negb (length out =? partLen) then Err SSL_ERROR_ENCRYPTION_FAILURE else
      wrBuf ← skip_next wrBuf partLen;
      Ok (wrBuf, c)
  end.

(** MAC, padding and encryption: the part up to a multiple of the block size is
    encrypted from the input, the rest in the buffer. *)
Definition mac_pad_encrypt (spec : ssl3CipherSpec) (c : cctx) (pseudoHeader pIn : list Z) (wrBuf : sslBuffer)
    : rec_res (sslBuffer * cctx) :=
  let contentLen := Z.of_nat (length pIn) in
  let blockSize := block_size (cipherDef spec) in
  match ssl3_ComputeRecordMAC spec pseudoHeader pIn with
  | None => Err (Mapped SSL_ERROR_MAC_COMPUTATION_FAILURE)
  | Some mac =>
      wrBuf ← store_next wrBuf contentLen mac;
      let p1Len := contentLen in
      let fragLen := u32 (contentLen + length mac) in
      '(wrBuf, p2Len, oddLen) ←
        (if bool_decide (cd_type (cipherDef spec) = type_block) then
           let oddLen := contentLen mod blockSize in
           let padding_length := blockSize - 1 - Z.land fragLen (blockSize - 1) in
           let fragLen := u32 (fragLen + padding_length + 1) in
           wrBuf ← put_padding wrBuf fragLen padding_length;
           Ok (wrBuf, u32 (fragLen - p1Len), oddLen)
         else Ok (wrBuf, Z.of_nat (length mac), 0));
      let '(oddLen, p1Len) := if p1Len <? 256 then (p1Len, 0) else (oddLen, p1Len - oddLen) in
      '(wrBuf, p2Len) ←
        (if negb (oddLen =? 0) then
           src ← mem_read pIn (Z.to_nat p1Len) (Z.to_nat oddLen);
           wrBuf ← store_next wrBuf p1Len src;
           Ok (wrBuf, u32 (p2Len + oddLen))
         else Ok (wrBuf, p2Len));
      '(wrBuf, c) ← (if p1Len >? 0 then inp ← mem_read pIn 0 (Z.to_nat p1Len); cipher_part wrBuf c inp p1Len
                     else Ok (wrBuf, c));
      if p2Len >? 0 then inp ← read_next wrBuf 0 p2Len; cipher_part wrBuf c inp p2Len
      else Ok (wrBuf, c)
  end.

(** ** AEAD *)

(** ivOut, an array of MAX_IV_LENGTH octets: the IV with the nonce xored into
    its end. *)
Definition tls13_WriteNonce (ivIn : list Z) (ivInLen : Z) (nonce : list Z) (ivOutLen : Z) : rec_res (list Z) :=
  if ivOutLen >? MAX_IV_LENGTH then UB else
  let offset := Z.to_nat (u32 (ivOutLen - length nonce)) in
  src ← mem_read ivIn 0 (Z.to_nat ivInLen);
  ivOut ← mem_write (replicate (Z.to_nat ivOutLen) 0) 0 src;
  cur ← mem_read ivOut offset (length nonce);
  mem_write ivOut offset (xor_octets cur nonce).

(** [ivOut] is the caller's array as it is found; the octets and the offset
    behind the epoch. *)
Definition tls13_SetupAeadIv (isDTLS : bool) (v : Z) (ivOut ivIn : list Z) (offset ivLen epoch : Z) : rec_res (list Z * Z) :=
  src ← mem_read ivIn 0 (Z.to_nat ivLen);
  ivOut ← mem_write ivOut 0 src;
  if isDTLS && (v <? SSL_LIBRARY_VERSION_TLS_1_3) then
    ivOut ← (if offset >=? ivLen then mem_write ivOut (Z.to_nat offset) [0; 0] else Ok ivOut);
    cur ← mem_read ivOut (Z.to_nat offset) 2;
    ivOut ← mem_write ivOut (Z.to_nat offset) (xor_octets cur [Z.land (Z.shiftr epoch 8) 0xff; Z.land epoch 0xff]);
    Ok (ivOut, offset + 2)
  else Ok (ivOut, offset).

(** The IV in use and the output, with the tag behind it when encrypting, or
    [None]. *)
Definition tls13_AEAD (context : cctx) (decrypt : bool) (ivGen : CK_GENERATOR_FUNCTION) (fixedbits : Z) (ivIn : list Z) (ivLen : Z)
    (nonceIn aad : list Z) (maxout tagLen : Z) (inp : list Z) : rec_res (option (list Z * list Z) * cctx) :=
  iv ← match ivGen with
       | CKG_NO_GENERATE => tls13_WriteNonce ivIn ivLen nonceIn ivLen
       | _ => mem_read ivIn 0 (Z.to_nat ivLen)
       end;
  if decrypt then
    if length inp <? tagLen then Ok (None, context) else
    let n := (length inp - Z.to_nat tagLen)%nat in
    match PK11_AEADOp_decrypt context iv aad maxout (drop n inp) (take n inp) with
    | (Some out, c) => Ok (Some (iv, out), c)
    | (None, c) => Ok (None, c)
    end
  else
    match PK11_AEADOp_encrypt context ivGen fixedbits iv aad maxout tagLen inp with
    | (Some (iv, out, tag), c) =>
        if length out + tagLen >? maxout then Ok (None, c) else
        tag ← mem_read tag 0 (Z.to_nat tagLen);
        Ok (Some (iv, out ++ tag), c)
    | (None, c) => Ok (None, c)
    end.

(** [stack] is what the array ivOut holds before. *)
Definition aead_encrypt_record (spec : ssl3CipherSpec) (c : cctx) (isDTLS : bool) (stack pseudoHeader pIn : list Z) (wrBuf : sslBuffer)
    : rec_res (sslBuffer * cctx) :=
  let nonceLen := explicit_nonce_size (cipherDef spec) in
  let tagLen := tag_size (cipherDef spec) in
  let ivLen := iv_size (cipherDef spec) in
  if u32 (nonceLen + length pIn + tagLen) >? SSL_BUFFER_SPACE wrBuf then Err (Sec SEC_ERROR_LIBRARY_FAILURE) else
  let '(ivOffset, gen) := if nonceLen =? 0 then (u32 (ivLen - 8), CKG_GENERATE_COUNTER_XOR) else (ivLen, CKG_GENERATE_COUNTER) in
  '(ivOut, ivOffset) ← tls13_SetupAeadIv isDTLS (version spec) stack (key_iv spec) ivOffset ivLen (epoch spec);
  '(r, c) ← tls13_AEAD c false gen (ivOffset * 8) ivOut (ivLen + nonceLen) [] pseudoHeader
              (u32 (SSL_BUFFER_SPACE wrBuf - nonceLen)) tagLen pIn;
  match r with
  | None => Err SSL_ERROR_ENCRYPTION_FAILURE
  | Some (iv, out) =>
      wrBuf ← store_next wrBuf nonceLen out;
      wrBuf ← (if negb (nonceLen =? 0) then
                 nonce ← mem_read iv (Z.to_nat ivLen) (Z.to_nat nonceLen); store_next wrBuf 0 nonce
               else Ok wrBuf);
      wrBuf ← skip_next wrBuf (length out + nonceLen);
      Ok (wrBuf, c)
  end.

(** ** Whole records *)

Definition pseudo_header_buf : sslBuffer := SSL_BUFFER_FIXED (replicate 13 0) 13.

Definition ssl3_MACEncryptRecord (cwSpec : ssl3CipherSpec) (isDTLS : bool) (ct : Z) (pIn : list Z) (wrBuf : sslBuffer)
    (PK11_GenerateRandom : Z → option (list Z)) (stack : list Z) : rec_res (sslBuffer * cctx) :=
  '(wrBuf, c) ← put_explicit_iv cwSpec PK11_GenerateRandom wrBuf;
  pseudoHeader ← sec (ssl3_BuildRecordPseudoHeader (epoch cwSpec) (nextSeqNum cwSpec) ct
                        (SSL_LIBRARY_VERSION_TLS_1_0 <=? version cwSpec) (recordVersion cwSpec) isDTLS (length pIn)
                        pseudo_header_buf (version cwSpec));
  if bool_decide (cd_type (cipherDef cwSpec) = type_aead)
  then aead_encrypt_record cwSpec c isDTLS stack (contents pseudoHeader) pIn wrBuf
  else mac_pad_encrypt cwSpec c (contents pseudoHeader) pIn wrBuf.

(** Storing the output of a cipher in the plaintext buffer. *)
Definition set_plaintext (plaintext : sslBuffer) (out : list Z) : rec_res sslBuffer :=
  b ← sec (buffer_store plaintext 0 out); Ok (set_len b (length out)).

Definition unprotect_aead (spec : ssl3CipherSpec) (isDTLS isTLS : bool) (cText : SSL3Ciphertext) (rType rVersion : Z) (plaintext : sslBuffer)
    : rec_res (Z * sslBuffer * cctx) :=
  let explicitNonceLen := explicit_nonce_size (cipherDef spec) in
  let tagLen := tag_size (cipherDef spec) in
  let ivLen := iv_size (cipherDef spec) in
  let decryptedLen := u32 (length (ct_buf cText) - explicitNonceLen - tagLen) in
  header ← sec (ssl3_BuildRecordPseudoHeader (epoch spec) (seqNum cText) rType isTLS rVersion isDTLS decryptedLen
                  pseudo_header_buf (version spec));
  '(iv, nonce) ← (if explicitNonceLen =? 0 then nonce ← mem_read (contents header) 0 8; Ok (key_iv spec, nonce)
                  else iv ← mem_read (key_iv spec) 0 (Z.to_nat ivLen);
                       nonce ← mem_read (ct_buf cText) 0 (Z.to_nat explicitNonceLen);
                       Ok (iv ++ replicate (Z.to_nat explicitNonceLen) 0, nonce));
  '(r, c) ← tls13_AEAD (cipherContext spec) true CKG_NO_GENERATE 0 iv (ivLen + explicitNonceLen) nonce (contents header)
              (space plaintext) tagLen (drop (Z.to_nat explicitNonceLen) (ct_buf cText));
  match r with
  | None => Ok (0, plaintext, c)
  | Some (_, out) => plaintext ← set_plaintext plaintext out; Ok (2 ^ 32 - 1, plaintext, c)
  end.

(** The MAC of a decrypted record: the mask, the plaintext without MAC. *)
Definition check_mac (spec : ssl3CipherSpec) (isDTLS isTLS : bool) (cText : SSL3Ciphertext) (rType rVersion good originalLen : Z)
    (plaintext : sslBuffer) : rec_res (Z * sslBuffer) :=
  let macSize := mac_size spec in
  header ← sec (ssl3_BuildRecordPseudoHeader (epoch spec) (seqNum cText) rType isTLS rVersion isDTLS (len plaintext - macSize)
                  pseudo_header_buf (version spec));
  '(mac, givenHash) ←
    (if bool_decide (cd_type (cipherDef spec) = type_block) then
       mac ← ssl3_ComputeRecordMACConstantTime spec (contents header) (storage plaintext) (len plaintext) originalLen;
       given ← lift (ssl_CBCExtractMAC (storage plaintext) (len plaintext) originalLen macSize);
       Ok (mac, given)
     else
       inp ← mem_read (storage plaintext) 0 (Z.to_nat (len plaintext - macSize));
       given ← mem_read (storage plaintext) (Z.to_nat (len plaintext - macSize)) (Z.to_nat macSize);
       Ok (ssl3_ComputeRecordMAC spec (contents header) inp, given));
  let plaintext := set_len plaintext (len plaintext - macSize) in
  let good := Z.land good (SECStatusToMask (status_int (match mac with Some _ => true | None => false end))) in
  let hash := default [] mac in
  let good := if negb (length hash =? macSize) || negb (bool_decide (givenHash = hash)) then 0 else good in
  Ok (good, plaintext).

(** [goto decrypt_loser] *)
Definition decrypt_loser {A} : alert_res A := Err (bad_record_mac, SSL_ERROR_BAD_MAC_READ).

(** The cipher and the padding: the mask, the length before the padding was
    removed, the plaintext, the context. *)
Definition decrypt_unpad (spec : ssl3CipherSpec) (c : cctx) (isTLS : bool) (ivLen good : Z) (cText : SSL3Ciphertext) (plaintext : sslBuffer)
    : alert_res (Z * Z * sslBuffer * cctx) :=
  let isBlock := bool_decide (cd_type (cipherDef spec) = type_block) in
  let blockSize := block_size (cipherDef spec) in
  let inp := drop (Z.to_nat ivLen) (ct_buf cText) in
  if isBlock && negb (length inp mod blockSize =? 0) then decrypt_loser else
  match spec_cipher c (space plaintext) inp with
  | (None, _) => decrypt_loser
  | (Some out, c) =>
      plaintext ← with_alert internal_error (set_plaintext plaintext out);
      let originalLen := len plaintext in
      if isBlock then
        '(n, rv) ← lift (if negb isTLS then ssl_RemoveSSLv3CBCPadding (storage plaintext) (len plaintext) blockSize (mac_size spec)
                         else ssl_RemoveTLSCBCPadding (storage plaintext) (len plaintext) (mac_size spec));
        Ok (Z.land good (SECStatusToMask rv), originalLen, set_len plaintext n, c)
      else Ok (good, originalLen, plaintext, c)
  end.

(** The first block of a record with an explicit IV is decrypted and thrown away:
    its length, the mask, the context. *)
Definition read_explicit_iv (spec : ssl3CipherSpec) (explicitIV : bool) (cText : SSL3Ciphertext) : alert_res (Z * Z * cctx) :=
  let ivLen := iv_size (cipherDef spec) in
  if explicitIV then
    if (ivLen <? 8) || (ivLen >? MAX_IV_LENGTH) then Err (internal_error, Sec SEC_ERROR_LIBRARY_FAILURE) else
    iv ← mem_read (ct_buf cText) 0 (Z.to_nat ivLen);
    let r := spec_cipher (cipherContext spec) MAX_IV_LENGTH iv in
    Ok (ivLen, SECStatusToMask (status_int (match r.1 with Some _ => true | None => false end)), r.2)
  else Ok (0, 2 ^ 32 - 1, cipherContext spec).

Definition ssl3_UnprotectRecord (spec : ssl3CipherSpec) (isDTLS : bool) (cText : SSL3Ciphertext) (plaintext : sslBuffer)
    : alert_res (sslBuffer * cctx) :=
  let def := cipherDef spec in
  let isBlock := bool_decide (cd_type def = type_block) in
  let isAead := bool_decide (cd_type def = type_aead) in
  let explicitIV := isBlock && (SSL_LIBRARY_VERSION_TLS_1_1 <=? version spec) in
  let minLength := if isBlock then mac_size spec + 1 + (if explicitIV then iv_size def else 0)
                   else if isAead then explicit_nonce_size def + tag_size def else mac_size spec in
  let clen := Z.of_nat (length (ct_buf cText)) in
  if clen <? minLength then decrypt_loser else
  '(ivLen, good, c) ← read_explicit_iv spec explicitIV cText;
  if clen >? u32 (recordSizeLimit spec + MAX_EXPANSION) then Err (record_overflow, SSL_ERROR_RX_RECORD_TOO_LONG) else
  let isTLS := version spec >? SSL_LIBRARY_VERSION_3_0 in
  first ← mem_read (hdr cText) 0 3;
  let rType := first !!! 0%nat in
  let rVersion := Z.lor (Z.shiftl (first !!! 1%nat) 8) (first !!! 2%nat) in
  '(good, plaintext, c) ←
    (if isAead then with_alert internal_error (unprotect_aead spec isDTLS isTLS cText rType rVersion plaintext)
     else '(good, originalLen, plaintext, c) ← decrypt_unpad spec c isTLS ivLen good cText plaintext;
          '(good, plaintext) ← with_alert internal_error (check_mac spec isDTLS isTLS cText rType rVersion good originalLen plaintext);
          Ok (good, plaintext, c));
  if good =? 0 then decrypt_loser else Ok (plaintext, c).
End Record12.

(** ** Pseudo-headers *)

(** What is authenticated besides the content. *)
Definition pseudo_header (epoch seq ct : Z) (withVersion : bool) (version : Z) (isDTLS : bool) (n v : Z) : list Z :=
  (if isDTLS && (v <? SSL_LIBRARY_VERSION_TLS_1_3) then be_bytes 2 epoch ++ be_bytes 6 seq else be_bytes 8 seq) ++
  be_bytes 1 ct ++ (if withVersion then be_bytes 2 version else []) ++ be_bytes 2 n.

Section Buffers.
  Context `{heap : NSPRHeap}.

(** A fixed buffer with room. *)
Definition fixed_room (b : sslBuffer) (n : Z) : Prop := wf b ∧ fixed b = true ∧ len b + n ≤ space b.

Lemma AppendNumber_fixed b v size n : fixed_room b n → 0 < size ≤ 8 → size ≤ n →
  ∃ b', sslBuffer_AppendNumber b v size = Ok b' ∧ fixed_room b' (n - size) ∧ contents b' = contents b ++ be_bytes (Z.to_nat size) v.
Proof.
  intros (Hwf & Hf & Hr) Hs Hn. pose proof (wf_len _ Hwf) as Hl. pose proof (wf_space _ Hwf) as Hsp.
  unfold sslBuffer_AppendNumber, sslBuffer_Grow. rewrite Hf, wrap_small by lia. rewrite Z.gtb_ltb, (proj2 (Z.ltb_ge _ _)) by lia.
  cbn [mbind res_bind]. rewrite ssl_EncodeUintX_be by lia. cbn [mbind res_bind].
  pose proof (length_be_bytes (Z.to_nat size) v) as Le.
  destruct (buffer_store_next b (be_bytes (Z.to_nat size) v) Hwf) as (b1 & -> & L1 & S1 & F1 & W1 & C1);
    [apply be_bytes_bytes|apply be_bytes_not_nil; lia|lia|].
  cbn [mbind res_bind]. rewrite Le, Z2Nat.id in W1, C1 by lia. rewrite L1. eexists. split; [done|]. split; [|done].
  split; [done|]. unfold set_len. cbn [fixed len space]. rewrite wrap_small by lia. split; [congruence|lia].
Qed.

Lemma pseudo_header_room : fixed_room pseudo_header_buf 13.
Proof. split; [apply SSL_BUFFER_FIXED_wf; [by apply Forall_replicate|done|done]|done]. Qed.

Lemma BuildRecordPseudoHeader_spec epoch seq ct wv version isDTLS n v :
  ∃ b, ssl3_BuildRecordPseudoHeader epoch seq ct wv version isDTLS n pseudo_header_buf v = Ok b ∧
       contents b = pseudo_header epoch seq ct wv version isDTLS n v.
Proof.
  unfold ssl3_BuildRecordPseudoHeader, pseudo_header.
  assert (H0 : ∃ b, (if isDTLS && (v <? SSL_LIBRARY_VERSION_TLS_1_3)
     then buf ← sslBuffer_AppendNumber pseudo_header_buf epoch 2; sslBuffer_AppendNumber buf seq 6
     else sslBuffer_AppendNumber pseudo_header_buf seq 8) = Ok b ∧ fixed_room b 5 ∧
     contents b = if isDTLS && (v <? SSL_LIBRARY_VERSION_TLS_1_3) then be_bytes 2 epoch ++ be_bytes 6 seq else be_bytes 8 seq).
  { destruct (isDTLS && (v <? SSL_LIBRARY_VERSION_TLS_1_3)).
    - destruct (AppendNumber_fixed _ epoch 2 13 pseudo_header_room) as (b1 & -> & R1 & C1); [lia|lia|]. cbn [mbind res_bind].
      destruct (AppendNumber_fixed _ seq 6 11 R1) as (b2 & -> & R2 & C2); [lia|lia|]. exists b2. by rewrite C2, C1.
    - destruct (AppendNumber_fixed _ seq 8 13 pseudo_header_room) as (b1 & -> & R1 & C1); [lia|lia|]. exists b1. by rewrite C1. }
  destruct H0 as (b0 & -> & R0 & C0). cbn [mbind res_bind].
  destruct (AppendNumber_fixed _ ct 1 5 R0) as (b1 & -> & R1 & C1); [lia|lia|]. cbn [mbind res_bind].
  assert (H2 : ∃ b, (if wv then sslBuffer_AppendNumber b1 version 2 else Ok b1) = Ok b ∧ fixed_room b 2 ∧
     contents b = contents b1 ++ if wv then be_bytes 2 version else []).
  { destruct wv; [by apply (AppendNumber_fixed _ version 2 (5 - 1) R1)|]. exists b1. rewrite app_nil_r. destruct R1 as (W & F & R).
    split; [done|]. split; [|done]. split; [done|]. split; [done|lia]. }
  destruct H2 as (b2 & -> & R2 & C2). cbn [mbind res_bind].
  destruct (AppendNumber_fixed _ n 2 2 R2) as (b3 & -> & _ & C3); [lia|lia|]. exists b3. split; [done|].
  by rewrite C3, C2, C1, C0, <- !app_assoc.
Qed.
End Buffers.

(** ** What is relied on *)

(** A cipher without padding of its own, that works on whole blocks of [bs]
    octets, keeps their length, and can be called piecewise; [synced e d] says
    that [d] decrypts what [e] encrypts. *)
Class CipherLaws `{rc : RecordCrypto} (bs : Z) := {
  usable : cctx → Prop;
  cipher_out : cctx → list Z → list Z;
  cipher_next : cctx → list Z → cctx;
  synced : cctx → cctx → Prop;
  cipher_spec c max x : usable c → bytes x → length x mod bs = 0 → length x ≤ max →
    spec_cipher c max x = (Some (cipher_out c x), cipher_next c x);
  cipher_keeps c x : usable c → bytes x → length x mod bs = 0 →
    length (cipher_out c x) = length x ∧ bytes (cipher_out c x) ∧ usable (cipher_next c x);
  cipher_app c x y : usable c → bytes x → bytes y → length x mod bs = 0 → length y mod bs = 0 →
    cipher_out c (x ++ y) = cipher_out c x ++ cipher_out (cipher_next c x) y ∧
    cipher_next c (x ++ y) = cipher_next (cipher_next c x) y;
  synced_usable e d : synced e d → usable e ∧ usable d;
  synced_inverts e d x : synced e d → bytes x → length x mod bs = 0 →
    cipher_out d (cipher_out e x) = x ∧ synced (cipher_next e x) (cipher_next d (cipher_out e x));
}.

(** A MAC of [sz] octets that the token computes, in constant time too. *)
Class MacLaws `{rc : RecordCrypto} (sz : Z) := {
  hmac : mackey → list Z → list Z;
  hmac_length k x : Z.of_nat (length (hmac k x)) = sz;
  hmac_bytes k x : bytes (hmac k x);
  DigestMac_spec k h x : PK11_DigestMac k h x = Some (hmac k (h ++ x));
  SignConstantTime_spec k h inp orig : sz ≤ length inp ≤ orig →
    match PK11_SignConstantTime k h inp orig with
    | inl m => m = hmac k (h ++ take (length inp - Z.to_nat sz) inp)
    | inr unknown => unknown = true
    end;
}.

Section Buffers2.
  Context `{heap : NSPRHeap}.

Lemma set_plaintext_spec b out : wf b → is_Some (buf b) → bytes out → length out ≤ space b →
  ∃ b', set_plaintext b out = Ok b' ∧ wf b' ∧ len b' = length out ∧ space b' = space b ∧ fixed b' = fixed b ∧ is_Some (buf b') ∧
        storage b' = out ++ drop (length out) (storage b).
Proof.
  intros [Hl Hs Hb Hlf Hsf Hh] [m Hm] Ho Hr. destruct b as [bo l sp f]. cbn [buf len space fixed] in *. subst bo.
  unfold set_plaintext, buffer_store, storage in *. cbn [buf len space fixed default id] in *.
  change (Z.to_nat 0) with 0%nat. rewrite mem_write_front by lia. cbn [mbind res_bind sec]. eexists. split; [done|].
  unfold set_len. cbn [buf len space fixed]. rewrite wrap_small by lia. split_and!; try done.
  constructor; unfold storage; cbn [buf len space fixed default id]; rewrite ?length_app, ?length_drop; try lia.
  - apply Forall_app. split; [done|]. by apply Forall_drop.
  - intros Hf. specialize (Hh Hf). lia.
Qed.

Lemma set_len_contents b n : wf b → 0 ≤ n ≤ length (storage b) → n < 2 ^ 32 →
  contents (set_len b n) = take (Z.to_nat n) (storage b) ∧ len (set_len b n) = n ∧ storage (set_len b n) = storage b.
Proof. intros Hwf Hn Hs. unfold contents, set_len, storage. cbn [buf len]. by rewrite wrap_small by lia. Qed.
End Buffers2.

(** ** CBC records received *)

Section Cbc.
  Context `{heap : NSPRHeap} `{rc : RecordCrypto} (bs sz : Z) `{claws : !CipherLaws bs} `{mlaws : !MacLaws sz}.

(** A spec of TLS with a block cipher and a MAC. *)
Record cbc_spec (spec : ssl3CipherSpec) : Prop := {
  cs_type : cd_type (cipherDef spec) = type_block;
  cs_tls : SSL_LIBRARY_VERSION_3_0 < version spec;
  cs_block : block_size (cipherDef spec) = bs ∧ iv_size (cipherDef spec) = bs ∧ 8 ≤ bs ≤ MAX_IV_LENGTH;
  cs_mac : mac_null spec = false ∧ mac_size spec = sz ∧ 0 < sz ≤ MAX_MAC_LENGTH;
  cs_limit : 0 ≤ recordSizeLimit spec < 2 ^ 28;
  cs_usable : usable (cipherContext spec);
}.

Definition rec_type (cText : SSL3Ciphertext) : Z := hdr cText !!! 0%nat.
Definition rec_version (cText : SSL3Ciphertext) : Z := Z.lor (Z.shiftl (hdr cText !!! 1%nat) 8) (hdr cText !!! 2%nat).

(** The MAC of a content. *)
Definition record_mac (spec : ssl3CipherSpec) (isDTLS : bool) (seq ct ver : Z) (content : list Z) : list Z :=
  hmac (macKey spec) (pseudo_header (epoch spec) seq ct true ver isDTLS (length content) (version spec) ++ content).

(** A decrypted block sequence: content, MAC and padding. *)
Definition cbc_opens (spec : ssl3CipherSpec) (isDTLS : bool) (seq ct ver : Z) (dec content : list Z) : Prop :=
  ∃ n : nat, (n < 256)%nat ∧ dec = content ++ record_mac spec isDTLS seq ct ver content ++ replicate (S n) (Z.of_nat n).

Lemma cbc_opens_padded spec isDTLS seq ct ver dec content : cbc_opens spec isDTLS seq ct ver dec content →
  ∃ n, tls_padded dec (content ++ record_mac spec isDTLS seq ct ver content) n sz.
Proof.
  intros (n & Hn & ->). exists n. split_and!; [by rewrite <- app_assoc|done|]. rewrite length_app.
  pose proof (hmac_length (macKey spec) (pseudo_header (epoch spec) seq ct true ver isDTLS (length content) (version spec) ++ content)).
  unfold record_mac. lia.
Qed.

Lemma MACConstantTime_spec spec header (input : list Z) inputLen orig : mac_null spec = false → mac_size spec = sz → 0 ≤ sz ≤ inputLen →
  inputLen ≤ length input → inputLen ≤ orig →
  ssl3_ComputeRecordMACConstantTime spec header input inputLen orig =
  Ok (Some (hmac (macKey spec) (header ++ take (Z.to_nat (inputLen - sz)) input))).
Proof.
  intros Hn Hsz Hi Hl Ho. unfold ssl3_ComputeRecordMACConstantTime. rewrite Hn. rewrite (mem_read_in input 0 (Z.to_nat inputLen)) by lia.
  cbn [mbind res_bind]. rewrite drop_0.
  assert (Lt : length (take (Z.to_nat inputLen) input) = Z.to_nat inputLen) by (rewrite length_take; lia).
  assert (Hr : sz ≤ length (take (Z.to_nat inputLen) input) ≤ orig) by lia.
  pose proof (SignConstantTime_spec (macKey spec) header (take (Z.to_nat inputLen) input) orig Hr) as Hs.
  destruct (PK11_SignConstantTime _ _ _ _) as [m|[|]]; [| |done].
  - subst m. rewrite Lt, take_take. do 5 f_equal. lia.
  - rewrite mem_read_in, drop_0 by lia. cbn [mbind res_bind]. unfold ssl3_ComputeRecordMAC. rewrite Hn, DigestMac_spec, Hsz. done.
Qed.

(** The MAC of a record whose padding was removed. *)
Lemma check_mac_good spec isDTLS cText ct ver orig plaintext : cbc_spec spec → wf plaintext → length (storage plaintext) < 2 ^ 30 →
  sz ≤ len plaintext → len plaintext < orig ≤ len plaintext + 256 → orig ≤ length (storage plaintext) →
  let content := take (Z.to_nat (len plaintext - sz)) (storage plaintext) in
  let given := take (Z.to_nat sz) (drop (Z.to_nat (len plaintext - sz)) (storage plaintext)) in
  check_mac spec isDTLS true cText ct ver (2 ^ 32 - 1) orig plaintext =
  Ok (if bool_decide (given = record_mac spec isDTLS (seqNum cText) ct ver content) then 2 ^ 32 - 1 else 0, set_len plaintext (len plaintext - sz)).
Proof.
  intros Hcs Hwf Hst Hl Ho Hor content given. destruct Hcs as [Htype _ _ (Hnull & Hsz & Hszr) _ _].
  assert (Lc : Z.of_nat (length content) = len plaintext - sz) by (unfold content; rewrite length_take; lia).
  unfold check_mac. destruct (BuildRecordPseudoHeader_spec (epoch spec) (seqNum cText) ct true ver isDTLS (len plaintext - mac_size spec) (version spec))
    as (hb & -> & Hh). cbn [mbind res_bind sec]. rewrite Htype, bool_decide_eq_true_2 by done.
  rewrite (MACConstantTime_spec spec) by (done || lia). cbn [mbind res_bind].
  rewrite Hsz, (CBCExtractMAC_spec (storage plaintext)) by (done || lia || apply (wf_bytes _ Hwf)). cbn [mbind res_bind lift]. fold given content.
  assert (Em : hmac (macKey spec) (contents hb ++ content) = record_mac spec isDTLS (seqNum cText) ct ver content)
    by (rewrite Hh, Hsz, <- Lc; done). rewrite Em.
  assert (Lm : Z.of_nat (length (record_mac spec isDTLS (seqNum cText) ct ver content)) = sz) by apply hmac_length.
  cbn [default id]. rewrite Lm, Z.eqb_refl. cbn [negb orb]. case_bool_decide; done.
Qed.

(** A record whose padding is wrong goes through the same operations. *)
Lemma check_mac_bad spec isDTLS cText ct ver plaintext : cbc_spec spec → wf plaintext → sz ≤ len plaintext →
  ∃ p, check_mac spec isDTLS true cText ct ver 0 (len plaintext) plaintext = Ok (0, p).
Proof.
  intros Hcs Hwf Hl. destruct Hcs as [Htype _ _ (Hnull & Hsz & Hszr) _ _]. pose proof (wf_len_fits _ Hwf) as Hlf.
  unfold check_mac. destruct (BuildRecordPseudoHeader_spec (epoch spec) (seqNum cText) ct true ver isDTLS (len plaintext - mac_size spec) (version spec))
    as (hb & -> & Hh). cbn [mbind res_bind sec]. rewrite Htype, bool_decide_eq_true_2 by done.
  rewrite (MACConstantTime_spec spec) by (done || lia). cbn [mbind res_bind]. rewrite Hsz.
  destruct (CBCExtractMAC_total (storage plaintext) (len plaintext) (len plaintext) sz Hszr) as [given ->]; [lia|].
  cbn [mbind res_bind lift]. eexists. rewrite Z.land_0_l. by destruct (_ || _).
Qed.

(** Decryption and removal of the padding. *)
Lemma decrypt_unpad_spec spec c ivLen cText plaintext : cbc_spec spec → usable c → wf plaintext → is_Some (buf plaintext) →
  let inp := drop (Z.to_nat ivLen) (ct_buf cText) in let dec := cipher_out c inp in
  bytes inp → length inp mod bs = 0 → length inp ≤ space plaintext → length inp < 2 ^ 30 → length (storage plaintext) < 2 ^ 30 →
  ∃ p, wf p ∧ length (storage p) < 2 ^ 30 ∧ take (length dec) (storage p) = dec ∧ Z.of_nat (length dec) ≤ length (storage p) ∧
  ((∃ text n, tls_padded dec text n sz ∧ len p = length text ∧
      decrypt_unpad spec c true ivLen (2 ^ 32 - 1) cText plaintext = Ok (2 ^ 32 - 1, Z.of_nat (length dec), p, cipher_next c inp)) ∨
   ((∀ text n, ¬ tls_padded dec text n sz) ∧ len p = length dec ∧
      decrypt_unpad spec c true ivLen (2 ^ 32 - 1) cText plaintext = Ok (0, Z.of_nat (length dec), p, cipher_next c inp))).
Proof.
  intros Hcs Hc Hwf Hbuf inp dec Hb Hmod Hsp Hlen Hst. pose proof Hcs as [Htype Htls (Hbl & Hiv & Hbs) (Hnull & Hsz & Hszr) Hlim _].
  destruct (cipher_keeps c inp Hc Hb Hmod) as (Ld & Bd & _). fold dec in Ld, Bd.
  destruct (set_plaintext_spec plaintext dec Hwf Hbuf Bd ltac:(lia)) as (b & Eset & Wb & Lb & Sb & Fb & _ & Stb).
  pose proof (wf_space_fits _ Hwf) as Hsf.
  assert (Lst : length (storage b) = length (storage plaintext)) by (rewrite Stb, length_app, length_drop; lia).
  assert (Etk : take (length dec) (storage b) = dec) by (rewrite Stb; by apply take_app_length).
  unfold decrypt_unpad. rewrite Htype, bool_decide_eq_true_2, Hbl by done. fold inp. rewrite Hmod. cbn [Z.eqb negb andb].
  rewrite (cipher_spec c (space plaintext) inp) by done. fold dec. rewrite Eset. cbn [with_alert mbind res_bind].
  pose proof (RemoveTLSCBCPadding_spec (storage b) (len b) sz (wf_bytes _ Wb) ltac:(lia) ltac:(rewrite Lst; lia) ltac:(lia)) as Hp.
  rewrite Lb, Nat2Z.id, Etk in Hp. rewrite Hsz, Lb. cbn zeta in Hp.
  destruct Hp as [(text & n & Hpad & ->)|[Hno ->]]; cbn [lift mbind res_bind].
  - assert (Hlt : Z.of_nat (length text) ≤ length dec) by (destruct Hpad as (E & _ & _); rewrite E, length_app; lia).
    destruct (set_len_contents b (length text) Wb ltac:(lia) ltac:(lia)) as (_ & Lp & Sp).
    exists (set_len b (length text)). rewrite Sp. split_and!; [|lia|done|lia|].
    { destruct Wb as [W1 W2 W3 W4 W5 W6]. constructor; rewrite ?Sp, ?Lp; (done || lia). }
    left. by exists text, n.
  - destruct (set_len_contents b (length dec) Wb ltac:(lia) ltac:(lia)) as (_ & Lp & Sp).
    exists (set_len b (length dec)). rewrite Sp. split_and!; [|lia|done|lia|].
    { destruct Wb as [W1 W2 W3 W4 W5 W6]. constructor; rewrite ?Sp, ?Lp; (done || lia). }
    by right.
Qed.

(** The cipher context behind the explicit IV of a record. *)
Definition explicit_len (spec : ssl3CipherSpec) : Z := if SSL_LIBRARY_VERSION_TLS_1_1 <=? version spec then bs else 0.
Definition ctx_behind_iv (spec : ssl3CipherSpec) (ct : list Z) : cctx :=
  if SSL_LIBRARY_VERSION_TLS_1_1 <=? version spec then cipher_next (cipherContext spec) (take (Z.to_nat bs) ct) else cipherContext spec.

Lemma explicit_iv_spec spec cText : cbc_spec spec → bytes (ct_buf cText) → explicit_len spec ≤ length (ct_buf cText) →
  read_explicit_iv spec (SSL_LIBRARY_VERSION_TLS_1_1 <=? version spec) cText =
    Ok (explicit_len spec, 2 ^ 32 - 1, ctx_behind_iv spec (ct_buf cText)) ∧
  usable (ctx_behind_iv spec (ct_buf cText)).
Proof.
  intros [Htype Htls (Hbl & Hiv & Hbs) _ _ Hus] Hb Hl. unfold MAX_IV_LENGTH in Hbs. unfold read_explicit_iv, explicit_len, ctx_behind_iv in *.
  rewrite Hiv. destruct (SSL_LIBRARY_VERSION_TLS_1_1 <=? version spec); [|done].
  assert (Liv : Z.of_nat (length (take (Z.to_nat bs) (ct_buf cText))) = bs) by (rewrite length_take; lia).
  assert (Bt : bytes (take (Z.to_nat bs) (ct_buf cText))) by by apply Forall_take.
  assert (Hm : length (take (Z.to_nat bs) (ct_buf cText)) mod bs = 0) by (rewrite Liv; apply Z.mod_same; lia).
  split; [|by apply (cipher_keeps _ _ Hus Bt Hm)].
  rewrite (proj2 (Z.ltb_ge _ _)), Z.gtb_ltb, (proj2 (Z.ltb_ge _ _)) by (unfold MAX_IV_LENGTH; lia). cbn [orb].
  rewrite mem_read_in, drop_0 by lia. cbn [mbind res_bind].
  by rewrite (cipher_spec _ _ _ Hus Bt Hm) by (unfold MAX_IV_LENGTH; lia).
Qed.

Lemma header_read cText : (3 ≤ length (hdr cText))%nat →
  ∃ first, mem_read (E := SSL3AlertDescription * RecordError) (hdr cText) 0 3 = Ok first ∧ first !!! 0%nat = rec_type cText ∧
    Z.lor (Z.shiftl (first !!! 1%nat) 8) (first !!! 2%nat) = rec_version cText.
Proof.
  intros Hh. exists (take 3 (hdr cText)). rewrite mem_read_in, drop_0 by lia. unfold rec_type, rec_version.
  by rewrite !lookup_total_take_lt by lia.
Qed.

(** Where the MAC is in a padded plaintext. *)
Lemma padded_mac dec text n st : tls_padded dec text n sz → take (length dec) st = dec → (length dec ≤ length st)%nat → 0 ≤ sz →
  take (length text - Z.to_nat sz) st = take (length text - Z.to_nat sz) text ∧
  take (Z.to_nat sz) (drop (length text - Z.to_nat sz) st) = drop (length text - Z.to_nat sz) text.
Proof.
  intros (E & _ & Hsz) Hst Hl Hs. assert (Hlt : (length text ≤ length dec)%nat) by (rewrite E, length_app; lia).
  assert (Et : take (length text) st = text).
  { transitivity (take (length text) (take (length dec) st)); [by rewrite take_take, Nat.min_l by lia|].
    rewrite Hst, E. apply take_app_length. }
  split.
  - transitivity (take (length text - Z.to_nat sz) (take (length text) st)); [by rewrite take_take, Nat.min_l by lia|by rewrite Et].
  - rewrite take_drop_commute. replace (length text - Z.to_nat sz + Z.to_nat sz)%nat with (length text) by lia. by rewrite Et.
Qed.

(** A record of a length that is allowed gets as far as the cipher. *)
Lemma unprotect_in_range spec isDTLS cText plaintext : cbc_spec spec → bytes (ct_buf cText) → (3 ≤ length (hdr cText))%nat →
  let ivLen := explicit_len spec in let c1 := ctx_behind_iv spec (ct_buf cText) in
  sz + 1 + ivLen ≤ length (ct_buf cText) →
  ssl3_UnprotectRecord spec isDTLS cText plaintext =
  if length (ct_buf cText) >? recordSizeLimit spec + MAX_EXPANSION then Err (record_overflow, SSL_ERROR_RX_RECORD_TOO_LONG) else
  '(good, plaintext, c) ←
    ('(good, originalLen, plaintext, c) ← decrypt_unpad spec c1 true ivLen (2 ^ 32 - 1) cText plaintext;
     '(good, plaintext) ← with_alert internal_error (check_mac spec isDTLS true cText (rec_type cText) (rec_version cText) good originalLen plaintext);
     Ok (good, plaintext, c));
  if good =? 0 then decrypt_loser else Ok (plaintext, c).
Proof.
  intros Hcs Hb Hh ivLen c1 Hlen. pose proof Hcs as [Htype Htls (Hbl & Hiv & Hbs) (Hnull & Hsz & Hszr) Hlim Hus].
  destruct (explicit_iv_spec spec cText Hcs Hb) as [Eiv _]; [fold ivLen; lia|].
  unfold ssl3_UnprotectRecord. rewrite Htype, (bool_decide_eq_true_2 (type_block = type_block)) by done.
  rewrite (bool_decide_eq_false_2 (type_block = type_aead)) by done. cbn [andb]. rewrite Hsz, Hiv. fold (explicit_len spec). fold ivLen.
  rewrite (proj2 (Z.ltb_ge _ _)) by lia. rewrite Eiv. cbn [mbind res_bind]. fold ivLen c1. rewrite wrap_small by (unfold MAX_EXPANSION; lia).
  rewrite (Z.gtb_ltb (version spec)), (proj2 (Z.ltb_lt SSL_LIBRARY_VERSION_3_0 (version spec))) by done.
  destruct (header_read cText Hh) as (first & Hf & Ht & Hv). rewrite Hf. cbn [mbind res_bind]. by rewrite Ht, Hv.
Qed.

Lemma unprotect_cbc spec isDTLS cText plaintext : cbc_spec spec → bytes (ct_buf cText) → (3 ≤ length (hdr cText))%nat →
  wf plaintext → is_Some (buf plaintext) → length (ct_buf cText) ≤ space plaintext → length (storage plaintext) < 2 ^ 30 →
  let ivLen := explicit_len spec in let body := drop (Z.to_nat ivLen) (ct_buf cText) in
  let c1 := ctx_behind_iv spec (ct_buf cText) in let dec := cipher_out c1 body in
  sz + 1 + ivLen ≤ length (ct_buf cText) ≤ recordSizeLimit spec + MAX_EXPANSION → length body mod bs = 0 →
  (∃ content p, ssl3_UnprotectRecord spec isDTLS cText plaintext = Ok (p, cipher_next c1 body) ∧ contents p = content ∧ wf p ∧
     cbc_opens spec isDTLS (seqNum cText) (rec_type cText) (rec_version cText) dec content) ∨
  (ssl3_UnprotectRecord spec isDTLS cText plaintext = decrypt_loser ∧
   ∀ content, ¬ cbc_opens spec isDTLS (seqNum cText) (rec_type cText) (rec_version cText) dec content).
Proof.
  intros Hcs Hb Hh Hwf Hbuf Hsp Hst ivLen body c1 dec Hlen Hmod. pose proof Hcs as [Htype Htls (Hbl & Hiv & Hbs) (Hnull & Hsz & Hszr) Hlim Hus].
  unfold MAX_IV_LENGTH in Hbs. unfold MAX_EXPANSION in Hlen. pose proof (wf_space_fits _ Hwf) as Hsf.
  assert (Hivr : 0 ≤ ivLen ≤ bs) by (unfold ivLen, explicit_len; destruct (_ <=? _); lia).
  assert (Bb : bytes body) by by apply Forall_drop.
  assert (Lb : length body = (length (ct_buf cText) - Z.to_nat ivLen)%nat) by (unfold body; rewrite length_drop; lia).
  destruct (explicit_iv_spec spec cText Hcs Hb) as [Eiv Hc1]; [fold ivLen; lia|]. fold c1 in Hc1.
  destruct (cipher_keeps c1 body Hc1 Bb Hmod) as (Ld & _ & _). fold dec in Ld.
  rewrite (unprotect_in_range spec) by (done || lia). fold ivLen c1.
  rewrite Z.gtb_ltb, (proj2 (Z.ltb_ge _ _)) by (unfold MAX_EXPANSION; lia).
  destruct (decrypt_unpad_spec spec c1 ivLen cText plaintext Hcs Hc1 Hwf Hbuf Bb Hmod ltac:(fold body; lia) ltac:(fold body; lia) Hst)
    as (p & Wp & Stp & Etk & Lst & Hcase). fold body dec in Etk, Lst, Hcase.
  destruct Hcase as [(text & n & Hpad & Lp & ->)|(Hno & Lp & ->)]; cbn [mbind res_bind].
  2: { right. rewrite <- Lp. destruct (check_mac_bad spec isDTLS cText (rec_type cText) (rec_version cText) p Hcs Wp ltac:(lia)) as [p' ->].
       cbn [with_alert mbind res_bind Z.eqb]. split; [done|]. intros content Hop. apply cbc_opens_padded in Hop as [n Hop]. by apply (Hno _ n Hop). }
  destruct Hpad as (Ed & Hn & Hlt). assert (Hpad : tls_padded dec text n sz) by done.
  assert (Ldt : (length dec = length text + S n)%nat) by (rewrite Ed, length_app, length_replicate; lia).
  rewrite (check_mac_good spec isDTLS cText) by (done || lia). cbn [with_alert mbind res_bind]. rewrite Lp.
  destruct (padded_mac dec text n (storage p) Hpad Etk ltac:(lia) ltac:(lia)) as [Ec Eg].
  replace (Z.to_nat (length text - sz)) with (length text - Z.to_nat sz)%nat by lia. rewrite Ec, Eg.
  set (content := take (length text - Z.to_nat sz) text). case_bool_decide as Hmac; cbn [Z.eqb].
  - left. destruct (set_len_contents p (length text - sz) Wp ltac:(lia) ltac:(lia)) as (Cp & Lp' & Sp').
    exists content, (set_len p (length text - sz)). split_and!; [done| | |].
    + rewrite Cp. replace (Z.to_nat (length text - sz)) with (length text - Z.to_nat sz)%nat by lia. exact Ec.
    + destruct Wp as [W1 W2 W3 W4 W5 W6]. constructor; rewrite ?Sp', ?Lp'; (done || lia).
    + exists n. split; [done|]. rewrite Ed at 1. rewrite app_assoc. f_equal. unfold content at 1. rewrite <- Hmac. by rewrite take_drop.
  - right. split; [done|]. intros content' Hop. pose proof Hop as (n' & Hn' & E'). apply cbc_opens_padded in Hop as [n2 Hop].
    destruct (tls_padded_unique _ _ _ _ _ _ Hpad Hop) as [Et _]. apply Hmac. unfold content.
    assert (Lm : Z.of_nat (length (record_mac spec isDTLS (seqNum cText) (rec_type cText) (rec_version cText) content')) = sz) by apply hmac_length.
    rewrite Et, length_app. replace (length content' + _ - Z.to_nat sz)%nat with (length content') by lia.
    by rewrite drop_app_length, take_app_length.
Qed.
(** A received record is one of [content]. *)
Definition cbc_accepts (spec : ssl3CipherSpec) (isDTLS : bool) (cText : SSL3Ciphertext) (content : list Z) : Prop :=
  let body := drop (Z.to_nat (explicit_len spec)) (ct_buf cText) in
  explicit_len spec ≤ length (ct_buf cText) ∧ length body mod bs = 0 ∧
  cbc_opens spec isDTLS (seqNum cText) (rec_type cText) (rec_version cText) (cipher_out (ctx_behind_iv spec (ct_buf cText)) body) content.

Lemma cbc_opens_unique spec isDTLS seq ct ver dec c c' : cbc_opens spec isDTLS seq ct ver dec c → cbc_opens spec isDTLS seq ct ver dec c' → c = c'.
Proof.
  intros H1 H2. apply cbc_opens_padded in H1 as [n1 H1]. apply cbc_opens_padded in H2 as [n2 H2].
  destruct (tls_padded_unique _ _ _ _ _ _ H1 H2) as [E _]. apply app_inj_2 in E as [-> _]; [done|].
  apply Nat2Z.inj. unfold record_mac. by rewrite !hmac_length.
Qed.

(** What a record that is accepted looks like is decided without it. *)
Lemma cbc_accepts_long spec isDTLS cText content : cbc_spec spec → bytes (ct_buf cText) → cbc_accepts spec isDTLS cText content →
  sz + 1 + explicit_len spec ≤ length (ct_buf cText).
Proof.
  intros Hcs Hb (Hl & Hm & n & _ & Ed). destruct (explicit_iv_spec spec cText Hcs Hb Hl) as [_ Hu].
  assert (Hiv : 0 ≤ explicit_len spec) by (unfold explicit_len; pose proof (cs_block _ Hcs); destruct (_ <=? _); lia).
  destruct (cipher_keeps _ _ Hu (Forall_drop _ (Z.to_nat (explicit_len spec)) _ Hb) Hm) as (Lo & _).
  assert (Lm : Z.of_nat (length (record_mac spec isDTLS (seqNum cText) (rec_type cText) (rec_version cText) content)) = sz) by apply hmac_length.
  rewrite Ed, !length_app, length_replicate, length_drop in Lo. lia.
Qed.
End Cbc.

(** ** Writing behind the contents of a buffer *)

Section Behind.
  Context `{heap : NSPRHeap}.

Definition behind (b : sslBuffer) : list Z := drop (Z.to_nat (len b)) (storage b).

(** A buffer in use whose contents and room are those of [b]. *)
Record kept (b b' : sslBuffer) : Prop := {
  kept_wf : wf b';
  kept_buf : is_Some (buf b');
  kept_len : len b' = len b;
  kept_space : space b' = space b;
  kept_contents : contents b' = contents b;
  kept_behind : length (behind b') = length (behind b);
}.

Lemma kept_refl b : wf b → is_Some (buf b) → kept b b.
Proof. by constructor. Qed.

Lemma kept_trans b1 b2 b3 : kept b1 b2 → kept b2 b3 → kept b1 b3.
Proof. intros [] []. constructor; congruence. Qed.

Lemma length_behind b : wf b → Z.of_nat (length (behind b)) = length (storage b) - len b.
Proof. intros [Hl Hs _ Hlf _ _]. unfold behind. rewrite length_drop. lia. Qed.

Lemma room_behind b n : wf b → len b + n ≤ space b → n ≤ length (behind b).
Proof. intros Hwf Hr. rewrite length_behind by done. pose proof (wf_space_fits _ Hwf). lia. Qed.

Lemma store_next_spec b off src : wf b → is_Some (buf b) → bytes src → 0 ≤ off → off + length src ≤ length (behind b) →
  ∃ b', store_next b off src = Ok b' ∧ kept b b' ∧
        behind b' = take (Z.to_nat off) (behind b) ++ src ++ drop (Z.to_nat off + length src) (behind b).
Proof.
  intros Hwf [m Hm] Hsrc Ho Hr. pose proof (length_behind b Hwf) as Lb. destruct Hwf as [Hl Hs Hb Hlf Hsf Hh].
  destruct b as [bo l sp f]. cbn [buf len space fixed] in *. subst bo. unfold behind, storage, store_next, buffer_store in *.
  cbn [buf len space fixed default id] in *. rewrite mem_write_same by lia. cbn [mbind res_bind sec].
  eexists. split; [done|]. set (m' := take _ m ++ _).
  assert (Lm : length m' = length m) by (unfold m'; rewrite !length_app, length_take, length_drop; lia).
  assert (Et : take (Z.to_nat l) m' = take (Z.to_nat l) m).
  { unfold m'. rewrite take_app_le by (rewrite length_take; lia). rewrite take_take. f_equal. lia. }
  split; cbn [buf len space fixed default id].
  - constructor; unfold contents, storage, behind; cbn [buf len space fixed default id]; try done.
    + constructor; unfold storage; cbn [buf len space fixed default id]; rewrite ?Lm; try done.
      unfold m'. apply Forall_app. split; [by apply Forall_take|]. apply Forall_app. split; [done|by apply Forall_drop].
    + unfold storage. cbn [buf default id]. rewrite !length_drop. lia.
  - unfold m'. replace (Z.to_nat (l + off)) with (Z.to_nat l + Z.to_nat off)%nat by lia.
    rewrite drop_app_le by (rewrite length_take; lia). f_equal; [by rewrite take_drop_commute|].
    f_equal. by rewrite drop_drop, Nat.add_assoc.
Qed.

Lemma read_next_spec b off n : wf b → 0 ≤ off → 0 ≤ n → off + n ≤ length (behind b) →
  read_next b off n = Ok (take (Z.to_nat n) (drop (Z.to_nat off) (behind b))).
Proof.
  intros Hwf Ho Hn Hr. pose proof (length_behind b Hwf) as Lb. pose proof (wf_len _ Hwf). unfold read_next, behind in *.
  rewrite mem_read_in by lia. rewrite drop_drop. do 3 f_equal. lia.
Qed.

Lemma skip_next_spec b n : wf b → is_Some (buf b) → 0 ≤ n → len b + n ≤ space b →
  ∃ b', skip_next b n = Ok b' ∧ wf b' ∧ is_Some (buf b') ∧ len b' = len b + n ∧ space b' = space b ∧
        contents b' = contents b ++ take (Z.to_nat n) (behind b) ∧ behind b' = drop (Z.to_nat n) (behind b).
Proof.
  intros Hwf Hbuf Hn Hr. pose proof (wf_len _ Hwf) as Hl. pose proof (wf_space _ Hwf) as Hs. pose proof (wf_space_fits _ Hwf) as Hsf.
  unfold skip_next, sslBuffer_Skip, sslBuffer_Grow. rewrite wrap_small, Z.gtb_ltb, (proj2 (Z.ltb_ge _ _)) by lia.
  assert (Eg : (if fixed b then Ok b else Ok b) = (Ok b : sec_res sslBuffer)) by by destruct (fixed b).
  rewrite Eg. cbn [mbind res_bind sec]. eexists. split; [done|].
  destruct (set_len_contents b (len b + n) Hwf ltac:(lia) ltac:(lia)) as (C & L & S).
  split_and!; [|done|done|done| |].
  - destruct Hwf as [W1 W2 W3 W4 W5 W6]. constructor; rewrite ?L, ?S; (done || lia).
  - rewrite C. unfold contents, behind. rewrite Z2Nat.inj_add by lia. symmetry. apply take_take_drop.
  - unfold behind. rewrite L, S, drop_drop. f_equal. lia.
Qed.
End Behind.

(** ** Records sent with a MAC *)

Section Send.
  Context `{heap : NSPRHeap} `{rc : RecordCrypto} (bs sz : Z) `{claws : !CipherLaws bs} `{mlaws : !MacLaws sz}.

(** A spec with a MAC and no AEAD; the block size of a stream cipher is 1 here
    and it does not pad. *)
Record mac_spec (spec : ssl3CipherSpec) : Prop := {
  ms_type : cd_type (cipherDef spec) = if bs =? 1 then type_stream else type_block;
  ms_sizes : bs = 1 ∨ (bs = 8 ∨ bs = 16) ∧ block_size (cipherDef spec) = bs ∧ iv_size (cipherDef spec) = bs;
  ms_mac : mac_null spec = false ∧ mac_size spec = sz ∧ 0 < sz ≤ MAX_MAC_LENGTH;
  ms_usable : usable (cipherContext spec);
}.

(** The padding that completes [n] octets. *)
Definition pad_count (n : Z) : Z := bs - 1 - n mod bs.
Definition padding (n : Z) : list Z := if bs =? 1 then [] else replicate (Z.to_nat (pad_count n + 1)) (pad_count n).

Lemma padding_spec n : bs = 1 ∨ bs = 8 ∨ bs = 16 → 0 ≤ n → (n + length (padding n)) mod bs = 0 ∧ 0 ≤ pad_count n < bs ∧
  length (padding n) ≤ 16 ∧ bytes (padding n).
Proof.
  intros Hbs Hn. assert (0 ≤ n mod bs < bs) by (apply Z.mod_pos_bound; lia). assert (0 ≤ pad_count n < bs) by (unfold pad_count; lia).
  unfold padding. destruct (Z.eqb_spec bs 1) as [E|]; [cbn [length]; rewrite E at 1; split_and!; [by rewrite Z.mod_1_r|lia..|by constructor]|].
  rewrite length_replicate. split_and!; [|lia..|apply Forall_replicate; unfold is_byte; lia].
  unfold pad_count. rewrite Z2Nat.id by lia. replace (n + (bs - 1 - n mod bs + 1)) with (n - n mod bs + 1 * bs) by lia.
  rewrite Z.mod_add, Zminus_mod_idemp_r, Z.sub_diag by lia. apply Z.mod_0_l. lia.
Qed.

(** One part of the fragment through the cipher. *)
Lemma cipher_part_spec b c inp : wf b → is_Some (buf b) → usable c → bytes inp → length inp mod bs = 0 → len b + length inp ≤ space b →
  ∃ b', cipher_part b c inp (length inp) = Ok (b', cipher_next c inp) ∧ wf b' ∧ is_Some (buf b') ∧ len b' = len b + length inp ∧
    space b' = space b ∧ contents b' = contents b ++ cipher_out c inp ∧ behind b' = drop (length inp) (behind b).
Proof.
  intros Hwf Hbuf Hc Hb Hmod Hr. pose proof (room_behind b _ Hwf Hr) as Hrb. destruct (cipher_keeps c inp Hc Hb Hmod) as (Lo & Bo & _).
  unfold cipher_part. rewrite (cipher_spec c (length inp) inp) by (done || lia).
  destruct (store_next_spec b 0 (cipher_out c inp) Hwf Hbuf Bo ltac:(lia) ltac:(lia)) as (b1 & -> & [W1 B1 L1 S1 C1 N1] & E1).
  cbn [mbind res_bind]. rewrite Lo, Z.eqb_refl. cbn [negb].
  destruct (skip_next_spec b1 (length inp) W1 B1 ltac:(lia) ltac:(lia)) as (b2 & -> & W2 & B2 & L2 & S2 & C2 & E2). cbn [mbind res_bind].
  exists b2. change (Z.to_nat 0) with 0%nat in E1. rewrite take_0, Nat.add_0_l in E1. cbn [app] in E1.
  assert (Es : take (length inp) (behind b1) = cipher_out c inp ∧ drop (length inp) (behind b1) = drop (length inp) (behind b)).
  { rewrite E1, <- Lo. by rewrite take_app_length, drop_app_length. }
  split; [done|]. rewrite C2, E2, C1, Nat2Z.id. destruct Es as [-> ->]. split_and!; (done || lia).
Qed.

(** A fragment whose first [p1] octets come from the input and whose rest was
    put into the buffer. *)
Lemma two_parts_spec b c t p1 : wf b → is_Some (buf b) → usable c → bytes t → length t mod bs = 0 → 0 < bs → 0 ≤ p1 < length t → p1 mod bs = 0 →
  len b + length t ≤ space b → take (length t - Z.to_nat p1) (drop (Z.to_nat p1) (behind b)) = drop (Z.to_nat p1) t →
  ∃ b', ('(b, c) ← (if p1 >? 0 then cipher_part b c (take (Z.to_nat p1) t) p1 else Ok (b, c));
         inp ← read_next b 0 (length t - p1); cipher_part b c inp (length t - p1)) = Ok (b', cipher_next c t) ∧
    wf b' ∧ is_Some (buf b') ∧ len b' = len b + length t ∧ space b' = space b ∧ contents b' = contents b ++ cipher_out c t.
Proof.
  intros Hwf Hbuf Hc Hb Hmod Hbs Hp Hpm Hr Hrest. set (t1 := take (Z.to_nat p1) t). set (t2 := drop (Z.to_nat p1) t) in *.
  assert (L1 : Z.of_nat (length t1) = p1) by (unfold t1; rewrite length_take; lia).
  assert (L2 : Z.of_nat (length t2) = length t - p1) by (unfold t2; rewrite length_drop; lia).
  assert (B1 : bytes t1) by by apply Forall_take. assert (B2 : bytes t2) by by apply Forall_drop.
  assert (M2 : length t2 mod bs = 0) by (rewrite L2, Zminus_mod, Hmod, Hpm; apply Z.mod_0_l; lia).
  pose proof (room_behind b _ Hwf Hr) as Hrb. rewrite Z.gtb_ltb. destruct (Z.ltb_spec 0 p1) as [Hpos|Hzero].
  - destruct (cipher_part_spec b c t1 Hwf Hbuf Hc B1 ltac:(by rewrite L1) ltac:(lia)) as (b1 & E1 & W1 & Bf1 & Ln1 & S1 & C1 & N1).
    rewrite L1 in E1. rewrite E1. cbn [mbind res_bind]. destruct (cipher_keeps c t1 Hc B1 ltac:(by rewrite L1)) as (_ & _ & Hc1).
    rewrite read_next_spec by (done || lia || (rewrite N1, length_drop; lia)). rewrite N1. change (Z.to_nat 0) with 0%nat. rewrite drop_0.
    replace (Z.to_nat (length t - p1)) with (length t - Z.to_nat p1)%nat by lia. replace (length t1) with (Z.to_nat p1) by lia. rewrite Hrest.
    cbn [mbind res_bind]. destruct (cipher_part_spec b1 _ t2 W1 Bf1 Hc1 B2 M2 ltac:(lia)) as (b2 & E2 & W2 & Bf2 & Ln2 & S2 & C2 & _).
    rewrite L2 in E2. rewrite E2. destruct (cipher_app c t1 t2 Hc B1 B2 ltac:(by rewrite L1) M2) as [Eo En].
    replace (t1 ++ t2) with t in Eo, En by (symmetry; apply take_drop). exists b2. rewrite En, Eo, C2, C1, <- app_assoc. split_and!; (done || lia).
  - assert (p1 = 0) as E0 by lia. cbn [mbind res_bind]. rewrite read_next_spec by (done || lia).
    change (Z.to_nat 0) with 0%nat. rewrite drop_0. unfold t2 in *. rewrite E0 in Hrest. change (Z.to_nat 0) with 0%nat in Hrest.
    rewrite !drop_0, Nat.sub_0_r in Hrest. rewrite E0, Z.sub_0_r, Nat2Z.id, Hrest. cbn [mbind res_bind].
    destruct (cipher_part_spec b c t Hwf Hbuf Hc Hb Hmod Hr) as (b2 & -> & W2 & Bf2 & Ln2 & S2 & C2 & _). exists b2. split_and!; (done || lia).
Qed.
(** Storing what continues what lies behind. *)
Lemma store_continues b off src rest : wf b → is_Some (buf b) → bytes src → 0 ≤ off → off + length src + length rest ≤ length (behind b) →
  take (length rest) (drop (Z.to_nat off + length src) (behind b)) = rest →
  ∃ b', store_next b off src = Ok b' ∧ kept b b' ∧ take (length (src ++ rest)) (drop (Z.to_nat off) (behind b')) = src ++ rest.
Proof.
  intros Hwf Hbuf Hb Ho Hr Hrest. destruct (store_next_spec b off src Hwf Hbuf Hb Ho ltac:(lia)) as (b' & E & K & Eb).
  exists b'. split; [done|]. split; [done|]. rewrite Eb, length_app.
  rewrite drop_app_length' by (rewrite length_take; lia). rewrite take_app_add'; [by rewrite Hrest|done].
Qed.

(** The MAC and the padding behind the place of the content. *)
Lemma put_mac_padding spec b mac n : mac_spec spec → wf b → is_Some (buf b) → bytes mac → 0 ≤ n < 2 ^ 30 → length mac ≤ 64 →
  let pad := padding (n + length mac) in
  len b + n + length mac + length pad ≤ space b →
  ∃ b', (b ← store_next b n mac;
         if bool_decide (cd_type (cipherDef spec) = type_block) then
           let oddLen := n mod block_size (cipherDef spec) in
           let padding_length := block_size (cipherDef spec) - 1 - Z.land (u32 (n + length mac)) (block_size (cipherDef spec) - 1) in
           let fragLen := u32 (u32 (n + length mac) + padding_length + 1) in
           b ← put_padding b fragLen padding_length; Ok (b, u32 (fragLen - n), oddLen)
         else Ok (b, Z.of_nat (length mac), 0)) = Ok (b', Z.of_nat (length (mac ++ pad)), n mod bs) ∧
    kept b b' ∧ take (length (mac ++ pad)) (drop (Z.to_nat n) (behind b')) = mac ++ pad.
Proof.
  intros [Ht Hsz _ _] Hwf Hbuf Hb Hn Hm pad Hr. pose proof (room_behind b (n + length mac + length pad) Hwf ltac:(lia)) as Hrb.
  destruct (padding_spec (n + length mac) ltac:(lia) ltac:(lia)) as (_ & Hpc & Hpl & Bp). fold pad in Hpl, Bp.
  destruct (store_continues b n mac [] Hwf Hbuf Hb ltac:(lia) ltac:(cbn; lia) eq_refl) as (b1 & -> & K1 & E1). cbn [mbind res_bind].
  rewrite app_nil_r in E1. rewrite Ht. unfold pad, padding in *. destruct (Z.eqb_spec bs 1) as [E|E].
  - cbn [bool_decide]. rewrite bool_decide_eq_false_2 by done. exists b1. rewrite app_nil_r, E, Z.mod_1_r. done.
  - rewrite bool_decide_eq_true_2 by done. destruct Hsz as [?|(Hbs & -> & _)]; [done|]. cbn zeta. rewrite (wrap_small 32 (n + length mac)) by lia.
    assert (El : Z.land (n + length mac) (bs - 1) = (n + length mac) mod bs).
    { destruct Hbs as [-> | ->]; [apply (land_ones_mod _ 3)|apply (land_ones_mod _ 4)]; lia. }
    rewrite El. fold (pad_count (n + length mac)). set (pc := pad_count (n + length mac)) in *.
    rewrite length_replicate in *. rewrite (wrap_small 32 (n + length mac + pc + 1)) by lia. unfold put_padding.
    destruct K1 as [W1 Bf1 L1 S1 C1 N1]. assert (Hu : u8 pc = pc) by (apply wrap_small; lia). rewrite Hu.
    destruct (store_next_spec b1 (n + length mac + pc + 1 - (pc + 1)) (replicate (Z.to_nat (pc + 1)) pc) W1 Bf1 Bp ltac:(lia)
      ltac:(rewrite length_replicate; lia)) as (b2 & -> & K2 & E2). cbn [mbind res_bind].
    exists b2. split_and!; [|by apply (kept_trans _ b1)|].
    + rewrite wrap_small by lia. do 3 f_equal. rewrite length_app, length_replicate. lia.
    + rewrite E2, length_app, length_replicate, drop_app_le by (rewrite length_take; lia).
      replace (Z.to_nat (n + length mac + pc + 1 - (pc + 1))) with (Z.to_nat n + length mac)%nat by lia.
      rewrite <- take_drop_commute, E1, take_app_add' by done. f_equal. apply take_app_length'. by rewrite length_replicate.
Qed.
(** The part of the content that is not encrypted from the input, in its place. *)
Lemma put_odd b (pIn tail : list Z) odd : wf b → is_Some (buf b) → bytes pIn → 0 ≤ odd ≤ length pIn → length pIn + length tail < 2 ^ 31 →
  length pIn + length tail ≤ length (behind b) → take (length tail) (drop (length pIn) (behind b)) = tail →
  let p1 := length pIn - odd in let t := pIn ++ tail in
  ∃ b', (if negb (odd =? 0) then
           src ← mem_read pIn (Z.to_nat p1) (Z.to_nat odd);
           b ← store_next b p1 src; Ok (b, u32 (Z.of_nat (length tail) + odd))
         else Ok (b, Z.of_nat (length tail))) = Ok (b', length t - p1) ∧ kept b b' ∧
    take (length t - Z.to_nat p1) (drop (Z.to_nat p1) (behind b')) = drop (Z.to_nat p1) t.
Proof.
  intros Hwf Hbuf Hb Ho Hs Hr Ht p1 t. assert (Lt : length t = (length pIn + length tail)%nat) by apply length_app.
  destruct (Z.eqb_spec odd 0) as [->|Hne]; cbn [negb].
  - assert (Ep : Z.to_nat p1 = length pIn) by lia. exists b. rewrite Ep, Lt. split; [do 3 f_equal; lia|]. split; [by apply kept_refl|].
    replace (length pIn + length tail - length pIn)%nat with (length tail) by lia. rewrite Ht. unfold t. by rewrite drop_app_length.
  - rewrite mem_read_in by lia. cbn [mbind res_bind]. rewrite (take_ge (drop (Z.to_nat p1) pIn)) by (rewrite length_drop; lia).
    set (src := drop (Z.to_nat p1) pIn). assert (Ls : length src = (length pIn - Z.to_nat p1)%nat) by apply length_drop.
    destruct (store_continues b p1 src tail Hwf Hbuf ltac:(by apply Forall_drop) ltac:(lia) ltac:(lia)) as (b' & -> & K & E).
    { replace (Z.to_nat p1 + length src)%nat with (length pIn) by lia. done. }
    cbn [mbind res_bind]. exists b'. rewrite wrap_small by lia. split; [do 3 f_equal; lia|]. split; [done|].
    assert (Ed : drop (Z.to_nat p1) t = src ++ tail) by (unfold t, src; apply drop_app_le; lia).
    rewrite Ed, <- E. f_equal. rewrite length_app. lia.
Qed.

(** The fragment: content, MAC and padding through the cipher. *)
Lemma mac_pad_encrypt_spec spec c header pIn b : mac_spec spec → usable c → wf b → is_Some (buf b) → bytes pIn → length pIn < 2 ^ 30 →
  let mac := hmac (macKey spec) (header ++ pIn) in let t := pIn ++ mac ++ padding (length pIn + sz) in
  len b + length t ≤ space b →
  ∃ b', mac_pad_encrypt spec c header pIn b = Ok (b', cipher_next c t) ∧ wf b' ∧ is_Some (buf b') ∧ len b' = len b + length t ∧
    space b' = space b ∧ contents b' = contents b ++ cipher_out c t.
Proof.
  intros Hms Hc Hwf Hbuf Hb Hsm mac t Hr. pose proof Hms as [Ht Hsz (Hnull & Hmsz & Hszr) _]. unfold MAX_MAC_LENGTH in Hszr.
  assert (Lm : Z.of_nat (length mac) = sz) by apply hmac_length. assert (Bm : bytes mac) by apply hmac_bytes.
  destruct (padding_spec (length pIn + sz) ltac:(lia) ltac:(lia)) as (Hpm & _ & Hpl & Bp). set (pad := padding (length pIn + sz)) in *.
  assert (Lt : Z.of_nat (length t) = length pIn + sz + length pad) by (unfold t; rewrite !length_app; lia).
  destruct (put_mac_padding spec b mac (length pIn) Hms Hwf Hbuf Bm ltac:(lia) ltac:(lia)) as (b1 & E1 & K1 & N1);
    [rewrite Lm; fold pad; lia|]. rewrite Lm in E1, N1. fold pad in E1, N1. unfold mac_pad_encrypt, ssl3_ComputeRecordMAC. rewrite Hnull, DigestMac_spec.
  fold mac. destruct (store_next b (length pIn) mac) as [b0| |]; [|discriminate E1..]. cbn [mbind res_bind] in E1 |- *. rewrite Lm. cbn zeta in E1 |- *.
  rewrite E1. cbn [mbind res_bind]. clear E1.
  set (odd := if length pIn <? 256 then Z.of_nat (length pIn) else length pIn mod bs).
  assert (Hodd : 0 ≤ odd ≤ length pIn ∧ (length pIn - odd) mod bs = 0).
  { unfold odd. destruct (Z.ltb_spec (Z.of_nat (length pIn)) 256).
    - rewrite Z.sub_diag. split; [lia|]. apply Z.mod_0_l. lia.
    - pose proof (Z.mod_pos_bound (length pIn) bs ltac:(lia)). rewrite Zminus_mod_idemp_r, Z.sub_diag. split; [|apply Z.mod_0_l; lia].
      split; [lia|]. pose proof (Z.mod_le (length pIn) bs). lia. }
  replace (if length pIn <? 256 then (Z.of_nat (length pIn), 0) else (length pIn mod bs, length pIn - length pIn mod bs)) with (odd, length pIn - odd)
    by (unfold odd; destruct (_ <? _); f_equal; lia).
  pose proof K1 as [W1 Bf1 L1 S1 C1 _]. assert (Lp : length (mac ++ pad) = (length mac + length pad)%nat) by apply length_app.
  destruct (put_odd b1 pIn (mac ++ pad) odd W1 Bf1 Hb ltac:(lia) ltac:(lia)) as (b2 & E2 & K2 & N2);
    [pose proof (room_behind b1 (length t) W1 ltac:(lia)); lia|by rewrite Nat2Z.id in N1|].
  rewrite E2. cbn [mbind res_bind]. fold t in N2 |- *. set (p1 := length pIn - odd) in *. destruct K2 as [W2 Bf2 L2 S2 C2 _].
  destruct (two_parts_spec b2 c t p1 W2 Bf2 Hc) as (b3 & E3 & W3 & Bf3 & L3 & S3 & C3); try (done || lia).
  { unfold t. by rewrite !Forall_app. }
  { by rewrite Lt. }
  exists b3. split; [|split_and!; (done || lia || congruence)]. rewrite <- E3.
  assert (Htk : take (Z.to_nat p1) t = take (Z.to_nat p1) pIn) by (apply take_app_le; lia). rewrite Htk.
  rewrite !Z.gtb_ltb, (proj2 (Z.ltb_lt 0 (length t - p1))) by lia.
  destruct (0 <? p1); [|done]. by rewrite mem_read_in, drop_0 by lia.
Qed.
(** The explicit IV. *)
Definition iv_len (spec : ssl3CipherSpec) : Z := if bs =? 1 then 0 else explicit_len bs spec.

Lemma put_explicit_iv_spec spec gen rnd b : mac_spec spec → wf b → is_Some (buf b) → len b + iv_len spec ≤ space b →
  gen (iv_size (cipherDef spec)) = Some rnd → Z.of_nat (length rnd) = iv_size (cipherDef spec) → bytes rnd →
  ∃ b' c1 iv, put_explicit_iv spec gen b = Ok (b', c1) ∧ wf b' ∧ is_Some (buf b') ∧ len b' = len b + iv_len spec ∧ space b' = space b ∧
    contents b' = contents b ++ iv ∧ Z.of_nat (length iv) = iv_len spec ∧ bytes iv ∧ usable c1 ∧
    ∀ d, synced (cipherContext spec) d → synced c1 (if iv_len spec =? 0 then d else cipher_next d iv).
Proof.
  intros [Ht Hsz _ Hus] Hwf Hbuf Hr Hgen Lr Br. unfold put_explicit_iv, iv_len, explicit_len in *. rewrite Ht.
  destruct (Z.eqb_spec bs 1) as [E|E].
  { rewrite bool_decide_eq_false_2 by done. cbn [andb negb]. exists b, (cipherContext spec), []. rewrite app_nil_r. split_and!; (done || lia || by constructor). }
  destruct Hsz as [?|(Hbs & _ & Hiv)]; [done|]. rewrite bool_decide_eq_true_2 by done. cbn [andb negb].
  destruct (SSL_LIBRARY_VERSION_TLS_1_1 <=? version spec); cbn [negb].
  2: { exists b, (cipherContext spec), []. rewrite app_nil_r. split_and!; (done || lia || by constructor). }
  rewrite Hiv in *. pose proof (wf_len _ Hwf) as Hl. pose proof (wf_space _ Hwf) as Hs. unfold SSL_BUFFER_SPACE.
  rewrite (wrap_small 32 (space b - len b)), Z.gtb_ltb, (proj2 (Z.ltb_ge _ _)) by lia. rewrite Hgen.
  assert (Hm : length rnd mod bs = 0) by (rewrite Lr; apply Z.mod_same; lia).
  pose proof (room_behind b bs Hwf Hr) as Hrb.
  destruct (store_next_spec b 0 rnd Hwf Hbuf Br ltac:(lia) ltac:(lia)) as (b1 & -> & [W1 Bf1 L1 S1 C1 N1] & E1). cbn [mbind res_bind].
  rewrite read_next_spec by (done || lia). change (Z.to_nat 0) with 0%nat in *. rewrite take_0, Nat.add_0_l in E1. rewrite drop_0, E1.
  cbn [app mbind res_bind]. rewrite take_app_length' by lia.
  destruct (cipher_part_spec b1 (cipherContext spec) rnd W1 Bf1 Hus Br Hm ltac:(lia)) as (b2 & E2 & W2 & Bf2 & L2 & S2 & C2 & _).
  unfold cipher_part in E2. rewrite Lr in E2. destruct (cipher_keeps _ _ Hus Br Hm) as (Lo & Bo & Hu).
  rewrite (cipher_spec _ bs _ Hus Br Hm) in E2 |- * by lia. replace (Z.of_nat (length (cipher_out (cipherContext spec) rnd))) with bs in * by lia.
  rewrite E2. exists b2, (cipher_next (cipherContext spec) rnd), (cipher_out (cipherContext spec) rnd).
  split_and!; try (done || lia || congruence). intros d Hd. rewrite (proj2 (Z.eqb_neq bs 0)) by lia. by apply synced_inverts.
Qed.

(** A record sent: the explicit IV, then content, MAC and padding encrypted. *)
Lemma MACEncryptRecord_spec spec isDTLS ct pIn b gen rnd stack : mac_spec spec → SSL_LIBRARY_VERSION_3_0 < version spec →
  wf b → is_Some (buf b) → bytes pIn → length pIn < 2 ^ 30 →
  gen (iv_size (cipherDef spec)) = Some rnd → Z.of_nat (length rnd) = iv_size (cipherDef spec) → bytes rnd →
  let mac := record_mac sz spec isDTLS (nextSeqNum spec) ct (recordVersion spec) pIn in let t := pIn ++ mac ++ padding (length pIn + sz) in
  len b + iv_len spec + length t ≤ space b →
  ∃ b' c1 iv, ssl3_MACEncryptRecord spec isDTLS ct pIn b gen stack = Ok (b', cipher_next c1 t) ∧ wf b' ∧
    contents b' = contents b ++ iv ++ cipher_out c1 t ∧ Z.of_nat (length iv) = iv_len spec ∧ bytes iv ∧ usable c1 ∧
    ∀ d, synced (cipherContext spec) d → synced c1 (if iv_len spec =? 0 then d else cipher_next d iv).
Proof.
  intros Hms Htls Hwf Hbuf Hb Hsm Hgen Lr Br mac t Hr.
  destruct (put_explicit_iv_spec spec gen rnd b Hms Hwf Hbuf ltac:(lia) Hgen Lr Br) as (b1 & c1 & iv & E1 & W1 & Bf1 & L1 & S1 & C1 & Liv & Biv & Hu1 & Hsy).
  unfold ssl3_MACEncryptRecord. rewrite E1. cbn [mbind res_bind].
  destruct (BuildRecordPseudoHeader_spec (epoch spec) (nextSeqNum spec) ct (SSL_LIBRARY_VERSION_TLS_1_0 <=? version spec) (recordVersion spec) isDTLS
    (length pIn) (version spec)) as (hb & -> & Hh). cbn [sec mbind res_bind].
  assert (Htls' : (SSL_LIBRARY_VERSION_TLS_1_0 <=? version spec) = true)
    by (apply Z.leb_le; unfold SSL_LIBRARY_VERSION_3_0, SSL_LIBRARY_VERSION_TLS_1_0 in *; lia). rewrite Htls' in Hh.
  rewrite bool_decide_eq_false_2 by (rewrite (ms_type _ Hms); by destruct (bs =? 1)).
  destruct (mac_pad_encrypt_spec spec c1 (contents hb) pIn b1 Hms Hu1 W1 Bf1 Hb Hsm) as (b2 & E2 & W2 & _ & L2 & S2 & C2).
  { rewrite Hh. change (len b1 + length t ≤ space b1). lia. }
  rewrite Hh in E2, C2. change (hmac (macKey spec) (_ ++ pIn)) with mac in E2, C2. fold t in E2, C2. rewrite Hh, E2.
  exists b2, c1, iv. rewrite C2, C1, <- app_assoc. split_and!; done.
Qed.
End Send.

(** ** Stream ciphers *)

Section Stream.
  Context `{heap : NSPRHeap} `{rc : RecordCrypto} (sz : Z) `{claws : !CipherLaws 1} `{mlaws : !MacLaws sz}.

Lemma mod_1 (l : list Z) : length l mod 1 = 0.
Proof. apply Z.mod_1_r. Qed.

(** A record whose MAC is right comes out; there is no padding. *)
Lemma unprotect_stream spec isDTLS cText plaintext content : mac_spec 1 sz spec → SSL_LIBRARY_VERSION_3_0 < version spec →
  0 ≤ recordSizeLimit spec < 2 ^ 28 → bytes (ct_buf cText) → (3 ≤ length (hdr cText))%nat →
  wf plaintext → is_Some (buf plaintext) → length (ct_buf cText) ≤ space plaintext →
  length (ct_buf cText) ≤ recordSizeLimit spec + MAX_EXPANSION →
  cipher_out (cipherContext spec) (ct_buf cText) =
    content ++ record_mac sz spec isDTLS (seqNum cText) (rec_type cText) (rec_version cText) content →
  ∃ p, ssl3_UnprotectRecord spec isDTLS cText plaintext = Ok (p, cipher_next (cipherContext spec) (ct_buf cText)) ∧ contents p = content ∧ wf p.
Proof.
  intros [Htype _ (Hnull & Hsz & Hszr) Hus] Htls Hlim Hb Hh Hwf Hbuf Hsp Hlen Hdec. cbn [Z.eqb Pos.eqb] in Htype.
  destruct (cipher_keeps _ _ Hus Hb (mod_1 _)) as (Ld & Bd & _). set (dec := cipher_out (cipherContext spec) (ct_buf cText)) in *.
  set (mac := record_mac sz spec isDTLS (seqNum cText) (rec_type cText) (rec_version cText) content) in *.
  assert (Lm : Z.of_nat (length mac) = sz) by apply hmac_length.
  assert (Lc : Z.of_nat (length dec) = length content + sz) by (rewrite Hdec, length_app; lia). pose proof (wf_space _ Hwf) as Hs.
  unfold ssl3_UnprotectRecord. rewrite Htype, (bool_decide_eq_false_2 (type_stream = type_block)) by done.
  rewrite (bool_decide_eq_false_2 (type_stream = type_aead)) by done. cbn [andb]. rewrite Hsz, (proj2 (Z.ltb_ge _ _)) by lia.
  unfold read_explicit_iv. cbn [mbind res_bind]. rewrite Z.gtb_ltb, wrap_small, (proj2 (Z.ltb_ge _ _)) by (unfold MAX_EXPANSION in *; lia).
  rewrite Z.gtb_ltb, (proj2 (Z.ltb_lt SSL_LIBRARY_VERSION_3_0 (version spec))) by done.
  destruct (header_read cText Hh) as (first & Hf & Ht & Hv). rewrite Hf. cbn [mbind res_bind]. rewrite Ht, Hv.
  unfold decrypt_unpad. rewrite Htype, bool_decide_eq_false_2 by done. cbn [andb]. change (Z.to_nat 0) with 0%nat. rewrite drop_0.
  rewrite (cipher_spec _ (space plaintext) _ Hus Hb (mod_1 _)) by done. fold dec.
  destruct (set_plaintext_spec plaintext dec Hwf Hbuf Bd ltac:(lia)) as (b & -> & Wb & Lb & Sb & _ & _ & Stb). cbn [with_alert mbind res_bind].
  assert (Est : storage b = content ++ mac ++ drop (length dec) (storage plaintext)) by (by rewrite Stb, Hdec, <- app_assoc).
  assert (Lst : (length content + length mac ≤ length (storage b))%nat) by (rewrite Est, !length_app; lia).
  unfold check_mac. rewrite Hsz, Lb, Lc. replace (length content + sz - sz) with (Z.of_nat (length content)) by lia.
  destruct (BuildRecordPseudoHeader_spec (epoch spec) (seqNum cText) (rec_type cText) true (rec_version cText) isDTLS (length content) (version spec))
    as (hb & -> & Hhb). cbn [mbind res_bind sec]. rewrite Htype, bool_decide_eq_false_2 by done.
  rewrite Nat2Z.id, !mem_read_in by lia. cbn [mbind res_bind]. rewrite drop_0, Est, take_app_length, drop_app_length.
  rewrite take_app_length' by lia. unfold ssl3_ComputeRecordMAC. rewrite Hnull, DigestMac_spec, Hhb.
  change (hmac (macKey spec) _) with mac. cbn [default id with_alert mbind res_bind].
  rewrite Lm, Z.eqb_refl, bool_decide_eq_true_2 by done. cbn [negb orb status_int].
  change (Z.land (2 ^ 32 - 1) (SECStatusToMask 0)) with (2 ^ 32 - 1). change (2 ^ 32 - 1 =? 0) with false. cbn iota.
  destruct (set_len_contents b (length content) Wb ltac:(lia) ltac:(lia)) as (Cp & Lp & Sp).
  eexists. split; [done|]. rewrite Cp, Nat2Z.id, Est, take_app_length. split; [done|].
  destruct Wb as [W1 W2 W3 W4 W5 W6]. constructor; rewrite ?Sp, ?Lp; (done || lia).
Qed.
End Stream.

(** ** A record and its receiver *)

Section Receive.
  Context `{heap : NSPRHeap} `{rc : RecordCrypto} (bs sz : Z) `{claws : !CipherLaws bs} `{mlaws : !MacLaws sz}.

Lemma mac_spec_cbc spec : mac_spec bs sz spec → bs ≠ 1 → SSL_LIBRARY_VERSION_3_0 < version spec → 0 ≤ recordSizeLimit spec < 2 ^ 28 →
  cbc_spec bs sz spec.
Proof.
  intros [Ht Hs Hm Hu] Hne Hv Hl. destruct Hs as [?|(Hbs & Hb & Hi)]; [done|]. rewrite (proj2 (Z.eqb_neq bs 1)) in Ht by done.
  constructor; try done. unfold MAX_IV_LENGTH. split_and!; (done || lia).
Qed.

(** A CBC record of [pIn] is opened by a receiver whose context agrees with the
    sender's behind the explicit IV. *)
Lemma receive_cbc r isDTLS cText plaintext iv c1 pIn : cbc_spec bs sz r → bs = 8 ∨ bs = 16 →
  let mac := record_mac sz r isDTLS (seqNum cText) (rec_type cText) (rec_version cText) pIn in
  let t := pIn ++ mac ++ padding bs (length pIn + sz) in
  bytes pIn → bytes iv → Z.of_nat (length iv) = explicit_len bs r → ct_buf cText = iv ++ cipher_out c1 t →
  synced c1 (if explicit_len bs r =? 0 then cipherContext r else cipher_next (cipherContext r) iv) →
  (3 ≤ length (hdr cText))%nat → length pIn ≤ recordSizeLimit r →
  wf plaintext → is_Some (buf plaintext) → length (ct_buf cText) ≤ space plaintext → length (storage plaintext) < 2 ^ 30 →
  ∃ p d, ssl3_UnprotectRecord r isDTLS cText plaintext = Ok (p, d) ∧ wf p ∧ contents p = pIn ∧ synced (cipher_next c1 t) d.
Proof.
  intros Hcs Hbs mac t Hb Biv Liv Hct Hsy Hh Hlim Wp Bfp Hsp Hst. pose proof (cs_mac _ _ _ Hcs) as (_ & _ & Hszr). unfold MAX_MAC_LENGTH in Hszr.
  destruct (padding_spec bs (length pIn + sz) ltac:(lia) ltac:(lia)) as (Hpm & Hpc & Hpl & Bp).
  assert (Lm : Z.of_nat (length mac) = sz) by apply hmac_length. assert (Bm : bytes mac) by apply hmac_bytes.
  assert (Lt : Z.of_nat (length t) = length pIn + sz + length (padding bs (length pIn + sz))) by (unfold t; rewrite !length_app; lia).
  assert (Bt : bytes t) by (unfold t; by rewrite !Forall_app). assert (Hmt : length t mod bs = 0) by by rewrite Lt.
  assert (Hu1 : usable c1) by by apply (synced_usable _ _ Hsy). destruct (cipher_keeps c1 t Hu1 Bt Hmt) as (Lo & Bo & _).
  assert (Hiv : 0 ≤ explicit_len bs r ≤ 16) by (unfold explicit_len; destruct (SSL_LIBRARY_VERSION_TLS_1_1 <=? version r); lia).
  assert (Lct : Z.of_nat (length (ct_buf cText)) = explicit_len bs r + length t) by (rewrite Hct, length_app; lia).
  assert (Ed : drop (Z.to_nat (explicit_len bs r)) (ct_buf cText) = cipher_out c1 t) by (rewrite Hct; apply drop_app_length'; lia).
  assert (Ec : ctx_behind_iv bs r (ct_buf cText) = if explicit_len bs r =? 0 then cipherContext r else cipher_next (cipherContext r) iv).
  { unfold ctx_behind_iv, explicit_len in *. destruct (SSL_LIBRARY_VERSION_TLS_1_1 <=? version r); [|done].
    rewrite (proj2 (Z.eqb_neq bs 0)), Hct, take_app_length' by lia. done. }
  rewrite <- Ec in Hsy. destruct (synced_inverts _ _ t Hsy Bt Hmt) as [Einv Hsy'].
  assert (Hopens : cbc_opens sz r isDTLS (seqNum cText) (rec_type cText) (rec_version cText) t pIn).
  { exists (Z.to_nat (pad_count bs (length pIn + sz))). split; [lia|]. unfold t, padding. rewrite (proj2 (Z.eqb_neq bs 1)) by lia.
    fold mac. do 2 f_equal. rewrite Z2Nat.id by lia. f_equal. lia. }
  destruct (unprotect_cbc bs sz r isDTLS cText plaintext) as [(content & p & E & C & W & Hop)|[_ Hno]]; try done.
  - rewrite Hct. by apply Forall_app.
  - unfold padding in Lt. rewrite (proj2 (Z.eqb_neq bs 1)), length_replicate in Lt by lia. unfold MAX_EXPANSION. lia.
  - by rewrite Ed, Lo.
  - rewrite Ed, Einv in Hop. rewrite Ed in E. exists p, (cipher_next (ctx_behind_iv bs r (ct_buf cText)) (cipher_out c1 t)).
    split_and!; [done|done| |done]. rewrite C. by apply (cbc_opens_unique sz _ _ _ _ _ _ _ _ Hop).
  - destruct (Hno pIn). by rewrite Ed, Einv.
Qed.
End Receive.

(** ** Theorems *)

(** [C30] ssl3_UnprotectRecord with a CBC cipher of TLS accepts a record exactly when
    it decrypts to content, MAC and padding: the content it returns is then the
    only one the record can be of.  Every other record that is not too long is
    refused with bad_record_mac, whether the length, the padding or the MAC is
    wrong; no read or write is out of bounds. *)
Theorem cbc_record_exact `{heap : NSPRHeap} `{rc : RecordCrypto} bs sz `{claws : !CipherLaws bs} `{mlaws : !MacLaws sz} spec isDTLS cText plaintext :
  cbc_spec bs sz spec → bytes (ct_buf cText) → (3 ≤ length (hdr cText))%nat →
  wf plaintext → is_Some (buf plaintext) → length (ct_buf cText) ≤ space plaintext → length (storage plaintext) < 2 ^ 30 →
  match ssl3_UnprotectRecord spec isDTLS cText plaintext with
  | Ok (p, _) => wf p ∧ cbc_accepts bs sz spec isDTLS cText (contents p) ∧
                 ∀ content, cbc_accepts bs sz spec isDTLS cText content → content = contents p
  | Err (bad_record_mac, SSL_ERROR_BAD_MAC_READ) => ∀ content, ¬ cbc_accepts bs sz spec isDTLS cText content
  | Err (record_overflow, SSL_ERROR_RX_RECORD_TOO_LONG) => recordSizeLimit spec + MAX_EXPANSION < length (ct_buf cText)
  | _ => False
  end.
Proof.
  intros Hcs Hb Hh Hwf Hbuf Hsp Hst. pose proof Hcs as [Htype Htls (Hbl & Hiv & Hbs) (Hnull & Hsz & Hszr) Hlim Hus].
  destruct (decide (sz + 1 + explicit_len bs spec ≤ length (ct_buf cText))) as [Hlong|Hshort].
  2: { assert (E : ssl3_UnprotectRecord spec isDTLS cText plaintext = decrypt_loser).
       { unfold ssl3_UnprotectRecord. rewrite Htype, (bool_decide_eq_true_2 (type_block = type_block)) by done. cbn [andb].
         rewrite Hsz, Hiv. fold (explicit_len bs spec). by rewrite (proj2 (Z.ltb_lt _ _)) by lia. }
       rewrite E. intros content Ha. apply Hshort. by apply (cbc_accepts_long bs sz _ isDTLS _ content). }
  destruct (decide (length (ct_buf cText) ≤ recordSizeLimit spec + MAX_EXPANSION)) as [Hin|Hover].
  2: { rewrite (unprotect_in_range bs sz spec) by done. rewrite Z.gtb_ltb, (proj2 (Z.ltb_lt _ _)) by lia. lia. }
  set (body := drop (Z.to_nat (explicit_len bs spec)) (ct_buf cText)).
  destruct (decide (length body mod bs = 0)) as [Hmod|Hmod].
  - destruct (unprotect_cbc bs sz spec isDTLS cText plaintext Hcs Hb Hh Hwf Hbuf Hsp Hst ltac:(done) Hmod) as
      [(content & p & -> & <- & Wp & Hop)|[-> Hno]].
    + assert (Ha : cbc_accepts bs sz spec isDTLS cText (contents p)) by (split; [lia|by split]).
      split; [done|]. split; [done|]. intros content (_ & _ & Hc). by apply (cbc_opens_unique sz _ _ _ _ _ _ _ _ Hc).
    + intros content (_ & _ & Hc). by apply (Hno content).
  - rewrite (unprotect_in_range bs sz spec) by done. rewrite Z.gtb_ltb, (proj2 (Z.ltb_ge _ _)) by lia.
    unfold decrypt_unpad. rewrite Htype, bool_decide_eq_true_2, Hbl by done. fold body. rewrite (proj2 (Z.eqb_neq _ _)) by done.
    cbn [andb negb mbind res_bind decrypt_loser]. intros content (_ & Hm & _). by apply Hmod.
Qed.

(** The receiving end of a sending spec. *)
Record peer `{rc : RecordCrypto} {bs : Z} `{claws : !CipherLaws bs} (w r : ssl3CipherSpec) : Prop := {
  peer_mac : macKey r = macKey w;
  peer_epoch : epoch r = epoch w;
  peer_version : version r = version w;
  peer_synced : synced (cipherContext w) (cipherContext r);
}.

(** [C31] What ssl3_MACEncryptRecord sends with a MAC and a stream or CBC cipher,
    ssl3_UnprotectRecord of the peer opens: the record takes no more than
    SSL3_BUFFER_FUDGE octets besides the content, whatever the explicit IV; the
    content comes back, and the cipher states of both ends agree again, so that
    the next record can follow. *)
Theorem record12_round_trip `{heap : NSPRHeap} `{rc : RecordCrypto} bs sz `{claws : !CipherLaws bs} `{mlaws : !MacLaws sz}
    w r isDTLS pIn wrBuf gen rnd stack h plaintext :
  mac_spec bs sz w → mac_spec bs sz r → peer w r → SSL_LIBRARY_VERSION_3_0 < version w → 0 ≤ recordSizeLimit r < 2 ^ 28 →
  bytes pIn → length pIn ≤ recordSizeLimit r →
  wf wrBuf → is_Some (buf wrBuf) → len wrBuf + length pIn + SSL3_BUFFER_FUDGE ≤ space wrBuf →
  gen (iv_size (cipherDef w)) = Some rnd → Z.of_nat (length rnd) = iv_size (cipherDef w) → bytes rnd →
  wf plaintext → is_Some (buf plaintext) → length pIn + SSL3_BUFFER_FUDGE ≤ space plaintext → length (storage plaintext) < 2 ^ 30 →
  (3 ≤ length h)%nat → Z.lor (Z.shiftl (h !!! 1%nat) 8) (h !!! 2%nat) = recordVersion w →
  ∃ b e frag, ssl3_MACEncryptRecord w isDTLS (h !!! 0%nat) pIn wrBuf gen stack = Ok (b, e) ∧ wf b ∧
    contents b = contents wrBuf ++ frag ∧ length frag ≤ length pIn + SSL3_BUFFER_FUDGE ∧
    let cText := {| seqNum := nextSeqNum w; hdr := h; ct_buf := frag |} in
    ∃ p d, ssl3_UnprotectRecord r isDTLS cText plaintext = Ok (p, d) ∧ wf p ∧ contents p = pIn ∧ synced e d.
Proof.
  intros Hw Hr [Pm Pe Pv Ps] Htls Hlim Hb Hlen Wb Bfb Hroom Hgen Lr Br Wp Bfp Hsp Hst Hh Hver.
  pose proof Hw as [_ Hszw (_ & _ & Hszr) _]. unfold SSL3_BUFFER_FUDGE, MAX_MAC_LENGTH in *.
  destruct (padding_spec bs (length pIn + sz) ltac:(lia) ltac:(lia)) as (Hpm & Hpc & Hpl & Bp).
  set (mac := record_mac sz w isDTLS (nextSeqNum w) (h !!! 0%nat) (recordVersion w) pIn).
  assert (Lm : Z.of_nat (length mac) = sz) by apply hmac_length. assert (Bm : bytes mac) by apply hmac_bytes.
  set (pad := padding bs (length pIn + sz)) in *. set (t := pIn ++ mac ++ pad).
  assert (Lt : Z.of_nat (length t) = length pIn + sz + length pad) by (unfold t; rewrite !length_app; lia).
  assert (Bt : bytes t) by (unfold t; by rewrite !Forall_app).
  assert (Hmt : length t mod bs = 0) by by rewrite Lt.
  assert (Hiv : 0 ≤ iv_len bs w ≤ 16) by (unfold iv_len, explicit_len; destruct (bs =? 1), (SSL_LIBRARY_VERSION_TLS_1_1 <=? version w); lia).
  destruct (MACEncryptRecord_spec bs sz w isDTLS (h !!! 0%nat) pIn wrBuf gen rnd stack) as (b & c1 & iv & E & W & C & Liv & Biv & Hu1 & Hsy);
    try (done || lia); [fold mac pad t; lia|]. fold mac pad t in E, C.
  destruct (cipher_keeps c1 t Hu1 Bt Hmt) as (Lo & Bo & _). exists b, (cipher_next c1 t), (iv ++ cipher_out c1 t).
  do 3 (split; [done|]). split; [rewrite length_app; lia|]. set (cText := {| seqNum := _ |}). specialize (Hsy _ Ps).
  assert (Hmr : record_mac sz r isDTLS (seqNum cText) (rec_type cText) (rec_version cText) pIn = mac)
    by (unfold record_mac, mac; by rewrite Pm, Pe, Pv, <- Hver).
  assert (Hctl : Z.of_nat (length (ct_buf cText)) ≤ length pIn + 100) by (cbn [ct_buf cText]; rewrite length_app; lia).
  destruct (decide (bs = 1)) as [->|Hne].
  - assert (iv = []) as Eiv by (apply length_zero_iff_nil; unfold iv_len in Liv; cbn [Z.eqb Pos.eqb] in Liv; lia).
    assert (Ect : ct_buf cText = cipher_out c1 t) by (unfold cText; by rewrite Eiv). destruct (synced_inverts _ _ t Hsy Bt Hmt) as [Einv Hsy'].
    destruct (unprotect_stream sz r isDTLS cText plaintext pIn) as (p & Eu & Cp & Wp'); try (done || lia).
    + by rewrite Ect.
    + unfold MAX_EXPANSION. lia.
    + rewrite Ect, Hmr. change (cipher_out (cipherContext r) (cipher_out c1 t) = pIn ++ mac). rewrite Einv. unfold t, pad, padding. by rewrite app_nil_r.
    + rewrite Ect in Eu. by eexists _, _.
  - assert (Hcs : cbc_spec bs sz r) by (apply mac_spec_cbc; [done|done|congruence|done]). assert (Eiv : iv_len bs w = explicit_len bs r)
      by (unfold iv_len, explicit_len; by rewrite (proj2 (Z.eqb_neq bs 1)), Pv by done). rewrite Eiv in Liv, Hsy.
    destruct (receive_cbc bs sz r isDTLS cText plaintext iv c1 pIn Hcs ltac:(lia)) as (p & d & Eu & Wp' & Cp & Hsd); try (done || lia).
    + by rewrite Hmr.
    + rewrite Hmr in Hsd. by exists p, d.
Qed.

(** ** A token to evaluate with *)

(** A running key stream and a sum for a MAC of twenty octets. *)
Definition toy_keystream (c : Z) (x : list Z) : list Z := imap (λ i b, Z.lxor b ((c + i) mod 256)) x.
Definition toy_mac (k : Z) (x : list Z) : list Z := replicate 20 ((k + foldr Z.add 0 x) mod 256).

Definition toy_crypto : RecordCrypto := {|
  cctx := Z;
  mackey := Z;
  spec_cipher c max x := if length x <=? max then (Some (toy_keystream c x), c + length x) else (None, c);
  PK11_DigestMac k h x := Some (toy_mac k (h ++ x));
  PK11_SignConstantTime k h inp orig := if orig <? 300 then inl (toy_mac k (h ++ take (length inp - 20) inp)) else inr true;
  PK11_AEADOp_encrypt c _ _ _ _ _ _ _ := (None, c);
  PK11_AEADOp_decrypt c _ _ _ _ _ := (None, c);
|}.

Lemma keystream_bytes c x : bytes x → bytes (toy_keystream c x).
Proof.
  intros Hx. apply Forall_lookup_2. intros i y Hy. unfold toy_keystream in Hy. rewrite list_lookup_imap in Hy.
  apply fmap_Some in Hy as (b & Hb & ->). apply (lxor_range _ _ 8); [lia| |apply Z.mod_pos_bound; lia].
  by apply (Forall_lookup_1 _ _ _ _ Hx) in Hb.
Qed.

Lemma keystream_twice c x : toy_keystream c (toy_keystream c x) = x.
Proof.
  apply list_eq. intros i. unfold toy_keystream. rewrite !list_lookup_imap. destruct (x !! i) as [b|]; [|done].
  cbn [fmap option_fmap option_map]. by rewrite Z.lxor_assoc, Z.lxor_nilpotent, Z.lxor_0_r.
Qed.

Definition toy_cipher_laws bs : @CipherLaws toy_crypto bs.
Proof.
  refine (@Build_CipherLaws toy_crypto bs (λ _, True) toy_keystream (λ c x, c + length x) eq _ _ _ _ _).
  - intros c max x _ _ _ Hm. unfold spec_cipher, toy_crypto. by rewrite (proj2 (Z.leb_le _ _)) by done.
  - intros c x _ Hx _. split_and!; [apply length_imap|by apply keystream_bytes|done].
  - intros c x y _ _ _ _ _. split.
    + unfold toy_keystream. rewrite imap_app. f_equal. apply imap_ext. intros i b _. cbn [compose]. do 2 f_equal. lia.
    + rewrite length_app. cbn in *. lia.
  - done.
  - intros e d x -> _ _. split; [apply keystream_twice|]. unfold toy_keystream. by rewrite length_imap.
Defined.

Definition toy_mac_laws : @MacLaws toy_crypto 20.
Proof.
  refine (@Build_MacLaws toy_crypto 20 toy_mac _ _ _ _).
  - done.
  - intros k x. apply Forall_replicate. apply Z.mod_pos_bound. lia.
  - done.
  - intros k h inp orig Hr. unfold PK11_SignConstantTime, toy_crypto. by destruct (orig <? 300).
Defined.

Definition toy_spec (bs : Z) : @ssl3CipherSpec toy_crypto := {|
  cipherDef := {| cd_type := if bs =? 1 then type_stream else type_block; cd_null := false; iv_size := if bs =? 1 then 0 else bs; block_size := bs;
                  tag_size := 0; explicit_nonce_size := 0; max_records := 2 ^ 48 |};
  mac_null := false; mac_size := 20; macKey := (5 : @mackey toy_crypto); cipherContext := (0 : @cctx toy_crypto); key_iv := [];
  version := SSL_LIBRARY_VERSION_TLS_1_2; recordVersion := SSL_LIBRARY_VERSION_TLS_1_2; epoch := 0; nextSeqNum := 7;
  recordSizeLimit := 16384; earlyDataRemaining := 0; deprotectionFailures := 0 |}.

Definition toy_buf (n : nat) : sslBuffer := SSL_BUFFER_FIXED (replicate n 0) n.

Lemma toy_buf_wf (n : nat) : Z.of_nat n < 2 ^ 32 → wf (toy_buf n).
Proof. intros Hn. apply SSL_BUFFER_FIXED_wf; [apply Forall_replicate; unfold is_byte; lia|lia|by rewrite length_replicate]. Qed.

Definition toy_random (n : Z) : option (list Z) := Some (replicate (Z.to_nat n) 9).

(** A record of "hi" with a block cipher of 16 octets, then changed. *)
Definition toy_record : list Z :=
  match @ssl3_MACEncryptRecord _ toy_crypto (toy_spec 16) false 23 [104; 105] (toy_buf 200) toy_random [] with
  | Ok (b, _) => contents b
  | _ => []
  end.
Definition toy_received (ct : list Z) : SSL3Ciphertext := {| seqNum := 7; hdr := [23; 3; 3; 0; 0]; ct_buf := ct |}.
Definition toy_open (ct : list Z) : option (list Z) + option (SSL3AlertDescription * RecordError) :=
  match @ssl3_UnprotectRecord _ toy_crypto (toy_spec 16) false (toy_received ct) (toy_buf 200) with
  | Ok (b, _) => inl (Some (contents b))
  | Err e => inr (Some e)
  | UB => inr None
  end.

Example toy_record_opens : length toy_record = 48%nat ∧ toy_open toy_record = inl (Some [104; 105]).
Proof. vm_compute. split; reflexivity. Qed.

Example toy_record_changed :
  toy_open (<[16%nat := 0]> toy_record) = inr (Some (bad_record_mac, SSL_ERROR_BAD_MAC_READ)) ∧
  toy_open (<[47%nat := 0]> toy_record) = inr (Some (bad_record_mac, SSL_ERROR_BAD_MAC_READ)) ∧
  toy_open (take 32 toy_record) = inr (Some (bad_record_mac, SSL_ERROR_BAD_MAC_READ)) ∧
  toy_open (take 40 toy_record) = inr (Some (bad_record_mac, SSL_ERROR_BAD_MAC_READ)).
Proof. vm_compute. repeat split. Qed.

Lemma toy_record_bytes : bytes toy_record.
Proof.
  assert (E : forallb (λ b, (0 <=? b) && (b <? 256)) toy_record = true) by (vm_compute; reflexivity).
  rewrite forallb_forall in E. apply Forall_forall. intros b Hb. apply list_elem_of_In, E, andb_true_iff in Hb. unfold is_byte. lia.
Qed.

Lemma cbc_record_exact_witness :
  match @ssl3_UnprotectRecord _ toy_crypto (toy_spec 16) false (toy_received toy_record) (toy_buf 200) with
  | Ok (p, _) => contents p = [104; 105] ∧ @cbc_accepts toy_crypto 16 20 (toy_cipher_laws 16) toy_mac_laws (toy_spec 16) false (toy_received toy_record) (contents p)
  | _ => False
  end.
Proof.
  assert (Hcs : @cbc_spec toy_crypto 16 20 (toy_cipher_laws 16) (toy_spec 16)) by (constructor; cbn; unfold MAX_IV_LENGTH, MAX_MAC_LENGTH; (done || lia)).
  pose proof (@cbc_record_exact _ toy_crypto 16 20 (toy_cipher_laws 16) toy_mac_laws (toy_spec 16) false (toy_received toy_record) (toy_buf 200)
    Hcs toy_record_bytes ltac:(cbn; lia) (toy_buf_wf 200 ltac:(lia)) ltac:(by eexists) ltac:(vm_compute; discriminate) ltac:(vm_compute; reflexivity)) as H.
  destruct (@ssl3_UnprotectRecord _ toy_crypto (toy_spec 16) false (toy_received toy_record) (toy_buf 200)) as [[p d]| |] eqn:E.
  - destruct H as (_ & H & _). split; [|exact H]. revert E. vm_compute. by intros [= <- _].
  - revert E. vm_compute. discriminate.
  - exact H.
Defined.

Lemma record12_round_trip_witness : ∃ b e frag,
  @ssl3_MACEncryptRecord _ toy_crypto (toy_spec 16) false 23 [104; 105] (toy_buf 200) toy_random [] = Ok (b, e) ∧ wf b ∧
  contents b = contents (toy_buf 200) ++ frag ∧ length frag ≤ 2 + SSL3_BUFFER_FUDGE ∧
  let cText := {| seqNum := 7; hdr := [23; 3; 3; 0; 0]; ct_buf := frag |} in
  ∃ p d, @ssl3_UnprotectRecord _ toy_crypto (toy_spec 16) false cText (toy_buf 200) = Ok (p, d) ∧ wf p ∧ contents p = [104; 105] ∧ e = d.
Proof.
  assert (Hms : @mac_spec toy_crypto 16 20 (toy_cipher_laws 16) (toy_spec 16)).
  { constructor; cbn; unfold MAX_MAC_LENGTH; first [done | lia | right; split; [by right|done]]. }
  apply (@record12_round_trip _ toy_crypto 16 20 (toy_cipher_laws 16) toy_mac_laws (toy_spec 16) (toy_spec 16) false [104; 105] (toy_buf 200) toy_random
    (replicate 16 9) [] [23; 3; 3; 0; 0] (toy_buf 200)); try done; try (by constructor); try (by eexists).
  - repeat constructor; unfold is_byte; lia.
  - by apply toy_buf_wf.
  - repeat constructor; unfold is_byte; lia.
  - by apply toy_buf_wf.
  - cbn; lia.
Defined.
