(* ===== verification/RecordAead.v ===== *)
(** AEAD records up to TLS 1.2 (lib/ssl/ssl3con.c, lib/ssl/tls13con.c): what the
    record layer relies on of PK11_AEADOp, the IVs both ends use, and that
    protected records are opened.

    [AeadLaws] is the promise; [simulated_laws] shows that PK11_AEADOp of
    [AeadOp] keeps it.  [aead12_round_trip] is the theorem on records,
    [record_iv_distinct] the one on IVs. *)

From stdpp Require Import base numbers list.
From S2P Require Import Prelude Port SslEncode DtlsWindow AeadOp CbcRecord Record12.

(** The IV a generator makes from one and a counter, [off] octets of it kept. *)
Definition generated_iv (gen : CK_GENERATOR_FUNCTION) (off : nat) (iv : list Z) (n : Z) : list Z :=
  take off iv ++
  match gen with
  | CKG_GENERATE_COUNTER_XOR => xor_octets (drop off iv) (be_bytes (length iv - off) n)
  | _ => be_bytes (length iv - off) n
  end.

(** Contexts for encryption that count their messages, and those that decrypt
    them.  [aead_ready e gen fixed len n] says that [n] more IVs can be had. *)
Class AeadLaws `{rc : RecordCrypto} (tl : Z) := {
  aead_counter : cctx → Z;
  aead_sync : cctx → cctx → Prop;
  aead_ready : cctx → CK_GENERATOR_FUNCTION → Z → Z → nat → Prop;
  aead_seals e d gen fixed iv aad max x n :
    aead_sync e d → gen = CKG_GENERATE_COUNTER ∨ gen = CKG_GENERATE_COUNTER_XOR → fixed mod 8 = 0 →
    aead_ready e gen fixed (length iv) (S n) → bytes iv → bytes x → length x + tl ≤ max < 2 ^ 31 →
    let iv' := generated_iv gen (Z.to_nat (fixed / 8)) iv (aead_counter e) in
    ∃ out tag e', PK11_AEADOp_encrypt e gen fixed iv aad max tl x = (Some (iv', out, tag), e') ∧
      length out = length x ∧ Z.of_nat (length tag) = tl ∧ bytes out ∧ bytes tag ∧
      aead_counter e' = aead_counter e + 1 ∧ aead_sync e' d ∧ aead_ready e' gen fixed (length iv) n ∧
      ∀ max', length x ≤ max' → PK11_AEADOp_decrypt d iv' aad max' tag out = (Some x, d);
}.

(** ** The IV of a record *)

(** Eight octets: the sequence number, with the epoch up to DTLS 1.2. *)
Definition seq_octets (isDTLS : bool) (v epoch n : Z) : list Z :=
  if isDTLS && (v <? SSL_LIBRARY_VERSION_TLS_1_3) then be_bytes 2 epoch ++ be_bytes 6 n else be_bytes 8 n.

(** [ivLen] octets of the key block before the octets above, or these xored into
    the last eight. *)
Definition record_iv (explicit : bool) (iv : list Z) (isDTLS : bool) (v epoch n : Z) : list Z :=
  if explicit then iv ++ seq_octets isDTLS v epoch n
  else take (length iv - 8) iv ++ xor_octets (drop (length iv - 8) iv) (seq_octets isDTLS v epoch n).

Lemma length_seq_octets isDTLS v epoch n : length (seq_octets isDTLS v epoch n) = 8%nat.
Proof. unfold seq_octets. destruct (_ && _); [rewrite length_app|]; by rewrite !length_be_bytes. Qed.

Lemma seq_octets_bytes isDTLS v epoch n : bytes (seq_octets isDTLS v epoch n).
Proof. unfold seq_octets. destruct (_ && _); [apply Forall_app; split|]; apply be_bytes_bytes. Qed.

Lemma epoch_octets epoch : [Z.land (Z.shiftr epoch 8) 0xff; Z.land epoch 0xff] = be_bytes 2 epoch.
Proof.
  cbn [be_bytes app]. change 0xff with (2 ^ 8 - 1). rewrite !land_ones_mod, Z.shiftr_div_pow2 by lia. change (2 ^ 8) with 256.
  done.
Qed.

Lemma xor_octets_app a b x y : length a = length x → xor_octets (a ++ b) (x ++ y) = xor_octets a x ++ xor_octets b y.
Proof. intros Hl. by apply zip_with_app. Qed.

Lemma xor_zeros (n : nat) x : length x = n → bytes x → xor_octets (replicate n 0) x = x.
Proof.
  intros <- _. induction x as [|b x IH]; [done|]. cbn [length replicate zip_with]. by rewrite IH, Z.lxor_0_l.
Qed.

(** IVs of different sequence numbers differ. *)
Lemma record_iv_inj explicit iv isDTLS v epoch n m : (explicit = false → 8 ≤ length iv)%nat →
  0 ≤ n < 2 ^ 48 → 0 ≤ m < 2 ^ 48 → record_iv explicit iv isDTLS v epoch n = record_iv explicit iv isDTLS v epoch m → n = m.
Proof.
  intros Hl Hn Hm E. assert (Es : seq_octets isDTLS v epoch n = seq_octets isDTLS v epoch m).
  { unfold record_iv in E. destruct explicit; [by apply app_inv_head in E|]. apply app_inv_head in E. specialize (Hl eq_refl).
    apply (f_equal (λ l, xor_octets l (drop (length iv - 8) iv))) in E.
    assert (Hx : ∀ s, length s = 8%nat → xor_octets (xor_octets (drop (length iv - 8) iv) s) (drop (length iv - 8) iv) = s).
    { intros s Hs. rewrite (xor_comm (drop (length iv - 8) iv) s). apply xor_cancel. rewrite length_drop. lia. }
    rewrite !Hx in E by apply length_seq_octets. done. }
  unfold seq_octets in Es. destruct (isDTLS && (v <? SSL_LIBRARY_VERSION_TLS_1_3)).
  - apply app_inv_head in Es. apply (f_equal be_val) in Es. rewrite !be_val_be_bytes in Es.
    change (256 ^ 6%nat) with (2 ^ 48) in Es. by rewrite !Z.mod_small in Es by lia.
  - apply (f_equal be_val) in Es. rewrite !be_val_be_bytes in Es. change (256 ^ 8%nat) with (2 ^ 64) in Es. by rewrite !Z.mod_small in Es by lia.
Qed.

Section Iv.
  Context (key stack : list Z) (ivLen : nat) (explicit : bool).
  Hypothesis key_long : (ivLen ≤ length key)%nat.
  Hypothesis stack_long : (24 ≤ length stack)%nat.
  Hypothesis fits : (ivLen + (if explicit then 8 else 0) ≤ 24)%nat.
  Hypothesis room : (explicit = false → 8 ≤ ivLen)%nat.
  Hypothesis key_bytes : bytes key.
  Hypothesis stack_bytes : bytes stack.

Let iv := take ivLen key.
Let total : nat := ivLen + if explicit then 8 else 0.
Let start : nat := if explicit then ivLen else ivLen - 8.
Let gen := if explicit then CKG_GENERATE_COUNTER else CKG_GENERATE_COUNTER_XOR.

Lemma length_iv : length iv = ivLen.
Proof. clear - key_long. unfold iv. rewrite length_take. lia. Qed.

(** What the epoch is put over: what is there, or zeros behind the IV. *)
Lemma SetupAeadIv_generates isDTLS v epoch :
  let off := (start + if isDTLS && (v <? SSL_LIBRARY_VERSION_TLS_1_3)%Z then 2 else 0)%nat in ∃ ivOut,
  tls13_SetupAeadIv isDTLS v stack key start ivLen epoch = Ok (ivOut, Z.of_nat off) ∧ length ivOut = length stack ∧ bytes ivOut ∧
  ∀ n, generated_iv gen off (take total ivOut) n = record_iv explicit iv isDTLS v epoch n.
Proof.
  intros off. unfold off. clear off. pose proof length_iv as Liv. assert (Biv : bytes iv) by by apply Forall_take. assert (Hiv : (ivLen ≤ 24)%nat) by (destruct explicit; lia).
  unfold tls13_SetupAeadIv. rewrite !Nat2Z.id, mem_read_in, drop_0 by lia. fold iv. cbn [mbind res_bind]. rewrite mem_write_front by lia.
  cbn [mbind res_bind]. rewrite Liv. set (rest := drop ivLen stack). assert (Lr : length rest = (length stack - ivLen)%nat) by apply length_drop.
  assert (Br : bytes rest) by by apply Forall_drop. unfold record_iv, seq_octets. destruct (isDTLS && (v <? SSL_LIBRARY_VERSION_TLS_1_3)).
  - rewrite epoch_octets, Z.geb_leb. pose proof (length_be_bytes 2 epoch) as Le. set (eo := be_bytes 2 epoch) in *.
    assert (Be : bytes eo) by apply be_bytes_bytes. unfold start, total, gen. destruct explicit.
    + rewrite Z.leb_refl, mem_write_mid by (done || (cbn [length]; lia)). cbn [mbind res_bind].
      rewrite mem_read_in by (rewrite !length_app, length_drop; cbn [length]; lia). cbn [mbind res_bind].
      rewrite drop_app_length' by lia. rewrite (take_app_length' [0; 0]) by done. rewrite (xor_zeros 2) by done.
      rewrite mem_write_mid by (rewrite ?length_app, ?length_drop; cbn [length]; lia). cbn [mbind res_bind].
      eexists. split; [do 2 f_equal; lia|]. rewrite Le. cbn [length]. rewrite (drop_app_length' [0; 0]) by done.
      split_and!; [rewrite !length_app, length_drop; lia|rewrite !Forall_app; split_and!; (done || by apply Forall_drop)|].
      intros n. unfold generated_iv. rewrite length_take, !length_app, length_drop, Le, Nat.min_l by lia.
      rewrite take_take, Nat.min_l, app_assoc, take_app_length' by (rewrite ?length_app; lia). rewrite <- app_assoc. do 3 f_equal. lia.
    + specialize (room eq_refl). rewrite (proj2 (Z.leb_gt _ _)) by lia. cbn [mbind res_bind].
      rewrite mem_read_in by (rewrite !length_app; lia). cbn [mbind res_bind]. rewrite drop_app_le by lia.
      set (d := drop (ivLen - 8) iv). assert (Ld : length d = 8%nat) by (unfold d; rewrite length_drop; lia).
      assert (Ei : iv = take (ivLen - 8) iv ++ d) by (symmetry; apply take_drop). rewrite take_app_le by lia.
      assert (Lt : length (take (ivLen - 8) iv) = (ivLen - 8)%nat) by (rewrite length_take; lia).
      assert (Lx : length (xor_octets (take 2 d) eo) = 2%nat) by (rewrite length_xor; rewrite ?length_take; lia).
      assert (Er : iv ++ rest = take (ivLen - 8) iv ++ d ++ rest) by (rewrite app_assoc; f_equal; exact Ei). rewrite Er.
      rewrite mem_write_mid by (rewrite ?length_app; lia). cbn [mbind res_bind].
      eexists. split; [do 2 f_equal; lia|]. rewrite Lx, drop_app_le by lia.
      split_and!; [rewrite !length_app, length_drop; lia| |].
      { rewrite !Forall_app. split_and!; [by apply Forall_take|apply xor_bytes; [by apply Forall_take, Forall_drop|done]|by apply Forall_drop, Forall_drop|done]. }
      intros n. unfold generated_iv. rewrite Nat.add_0_r, length_take, !length_app, length_drop, Nat.min_l by lia.
      assert (Et : take ivLen (take (ivLen - 8) iv ++ xor_octets (take 2 d) eo ++ drop 2 d ++ rest) = (take (ivLen - 8) iv ++ xor_octets (take 2 d) eo) ++ drop 2 d).
      { rewrite !app_assoc. apply take_app_length'. rewrite !length_app, length_drop. lia. }
      rewrite Et. rewrite take_app_length', drop_app_length', <- app_assoc, Liv by (rewrite length_app; lia). f_equal. fold d.
      transitivity (xor_octets (take 2 d ++ drop 2 d) (eo ++ be_bytes 6 n)); [|by rewrite take_drop].
      rewrite xor_octets_app by (rewrite length_take; lia). do 3 f_equal. lia.
  - exists (iv ++ rest). rewrite Nat.add_0_r. split; [done|]. split; [rewrite length_app; lia|]. split; [by apply Forall_app|].
    intros n. unfold generated_iv, start, total, gen. destruct explicit.
    + rewrite length_take, length_app, Nat.min_l by lia. rewrite take_take, Nat.min_l, take_app_length' by lia. do 2 f_equal. lia.
    + specialize (room eq_refl). rewrite Nat.add_0_r, take_app_length' by lia. rewrite Liv. do 3 f_equal. lia.
Qed.

(** The receiver's IV. *)
Lemma WriteNonce_iv nonce : length nonce = 8%nat → (8 ≤ ivLen)%nat →
  tls13_WriteNonce key ivLen nonce ivLen = Ok (take (ivLen - 8) iv ++ xor_octets (drop (ivLen - 8) iv) nonce).
Proof.
  clear stack_long stack_bytes. intros Ln Hl. pose proof length_iv as Liv. unfold tls13_WriteNonce, MAX_IV_LENGTH. rewrite Z.gtb_ltb, (proj2 (Z.ltb_ge _ _)) by (destruct explicit; lia).
  rewrite Ln, wrap_small by (destruct explicit; lia). replace (Z.to_nat (ivLen - 8%nat)) with (ivLen - 8)%nat by lia.
  rewrite Nat2Z.id, mem_read_in, drop_0 by lia. fold iv. cbn [mbind res_bind]. rewrite mem_write_front by (rewrite length_replicate; lia).
  rewrite Liv, (drop_ge (replicate ivLen 0)), app_nil_r by (rewrite length_replicate; lia). cbn [mbind res_bind].
  rewrite mem_read_in by lia. cbn [mbind res_bind]. rewrite (take_ge (drop (ivLen - 8) iv)) by (rewrite length_drop; lia).
  assert (Lx : length (xor_octets (drop (ivLen - 8) iv) nonce) = 8%nat) by (rewrite length_zip_with, ?length_drop; lia).
  rewrite mem_write_same by lia. by rewrite Lx, (drop_ge iv (ivLen - 8 + 8)), app_nil_r by lia.
Qed.
End Iv.

(** ** Records *)

Section Records.
  Context `{heap : NSPRHeap} `{rc : RecordCrypto} (tl : Z) `{laws : !AeadLaws tl}.

(** A spec of TLS 1.2 with an AEAD: eight octets of the IV in the record, or
    none. *)
Record aead_spec (spec : ssl3CipherSpec) : Prop := {
  as_type : cd_type (cipherDef spec) = type_aead;
  as_tls : SSL_LIBRARY_VERSION_3_0 < version spec;
  as_nonce : explicit_nonce_size (cipherDef spec) = 0 ∧ 8 ≤ iv_size (cipherDef spec) ≤ MAX_IV_LENGTH ∨
             explicit_nonce_size (cipherDef spec) = 8 ∧ 0 ≤ iv_size (cipherDef spec) ≤ MAX_IV_LENGTH - 8;
  as_tag : tag_size (cipherDef spec) = tl ∧ 0 ≤ tl ≤ 64;
  as_key : iv_size (cipherDef spec) ≤ length (key_iv spec) ∧ bytes (key_iv spec);
}.

Definition explicit (spec : ssl3CipherSpec) : bool := negb (explicit_nonce_size (cipherDef spec) =? 0).
Definition salt (spec : ssl3CipherSpec) : list Z := take (Z.to_nat (iv_size (cipherDef spec))) (key_iv spec).

(** How the IVs of a spec are generated. *)
Definition spec_gen (spec : ssl3CipherSpec) : CK_GENERATOR_FUNCTION := if explicit spec then CKG_GENERATE_COUNTER else CKG_GENERATE_COUNTER_XOR.
Definition spec_fixed (spec : ssl3CipherSpec) (isDTLS : bool) : Z :=
  8 * (iv_size (cipherDef spec) - (if explicit spec then 0 else 8) + (if isDTLS && (version spec <? SSL_LIBRARY_VERSION_TLS_1_3) then 2 else 0)).
Definition iv_total (spec : ssl3CipherSpec) : Z := iv_size (cipherDef spec) + explicit_nonce_size (cipherDef spec).

Lemma length_salt spec : aead_spec spec → Z.of_nat (length (salt spec)) = iv_size (cipherDef spec).
Proof. intros [_ _ Hn _ [Hk _]]. unfold salt. rewrite length_take. lia. Qed.

(** The IV of message [n]. *)
Definition spec_iv (spec : ssl3CipherSpec) (isDTLS : bool) (n : Z) : list Z :=
  record_iv (explicit spec) (salt spec) isDTLS (version spec) (epoch spec) n.

Definition nonce_part (spec : ssl3CipherSpec) (isDTLS : bool) (n : Z) : list Z :=
  if explicit spec then seq_octets isDTLS (version spec) (epoch spec) n else [].

(** The AEAD of a record sent. *)
Lemma record_seals spec c d isDTLS stack header pIn maxout n : aead_spec spec → aead_sync c d →
  aead_ready c (spec_gen spec) (spec_fixed spec isDTLS) (iv_total spec) (S n) → (24 ≤ length stack)%nat → bytes stack → bytes pIn →
  length pIn + tl ≤ maxout < 2 ^ 31 →
  let start := if explicit_nonce_size (cipherDef spec) =? 0 then u32 (iv_size (cipherDef spec) - 8) else iv_size (cipherDef spec) in
  let iv := spec_iv spec isDTLS (aead_counter c) in
  ∃ out tag c', ('(ivOut, ivOffset) ← tls13_SetupAeadIv isDTLS (version spec) stack (key_iv spec) start (iv_size (cipherDef spec)) (epoch spec);
      tls13_AEAD c false (spec_gen spec) (ivOffset * 8) ivOut (iv_total spec) [] header maxout tl pIn)
      = Ok (Some (iv, out ++ tag), c') ∧
    length out = length pIn ∧ Z.of_nat (length tag) = tl ∧ bytes out ∧ bytes tag ∧ aead_counter c' = aead_counter c + 1 ∧ aead_sync c' d ∧
    aead_ready c' (spec_gen spec) (spec_fixed spec isDTLS) (iv_total spec) n ∧
    ∀ max', length pIn ≤ max' → PK11_AEADOp_decrypt d iv header max' tag out = (Some pIn, d).
Proof.
  intros Hs Hsy Hr Hst Bst Hb Hm start iv. pose proof Hs as [_ _ Hn [_ Htl] [Hk Bk]]. unfold MAX_IV_LENGTH in Hn.
  set (ivLen := Z.to_nat (iv_size (cipherDef spec))). set (ex := explicit spec).
  assert (Hex : (ex = true ∧ explicit_nonce_size (cipherDef spec) = 8) ∨ (ex = false ∧ explicit_nonce_size (cipherDef spec) = 0 ∧ (8 ≤ ivLen)%nat)).
  { unfold ex, explicit, ivLen. destruct Hn as [[E ?]|[E ?]]; rewrite E; cbn [Z.eqb negb]; [right|left]; split_and!; (done || lia). }
  set (startn := (if ex then ivLen else ivLen - 8)%nat).
  assert (Est : start = Z.of_nat startn).
  { unfold start, startn. destruct Hex as [[-> ->]|(-> & -> & ?)]; cbn [Z.eqb]; [lia|]. rewrite wrap_small; lia. }
  destruct (SetupAeadIv_generates (key_iv spec) stack ivLen ex) with (isDTLS := isDTLS) (v := version spec) (epoch := epoch spec)
    as (ivOut & E & Lo & Bo & Hgen); try done; [lia|destruct Hex as [[-> ?]|(-> & _ & ?)]; lia|destruct Hex as [[-> ?]|(-> & _ & ?)]; (done || lia)|].
  fold startn in E, Hgen. unfold ivLen in E at 1. rewrite Z2Nat.id in E by lia. rewrite <- Est in E. rewrite E. cbn [mbind res_bind].
  set (off := (startn + _)%nat) in *. set (total := (ivLen + if ex then 8 else 0)%nat) in *.
  assert (Et : iv_total spec = Z.of_nat total) by (unfold iv_total, total; destruct Hex as [[-> ?]|(-> & ? & ?)]; lia).
  assert (Hfix : spec_fixed spec isDTLS = off * 8).
  { unfold spec_fixed, off, startn. fold ex. destruct (isDTLS && _), Hex as [[-> ?]|(-> & ? & ?)]; lia. }
  assert (Lt : Z.of_nat (length (take total ivOut)) = iv_total spec) by (rewrite length_take; destruct Hex as [[-> ?]|(-> & ? & ?)]; lia).
  rewrite Hfix, <- Lt in Hr.
  destruct (aead_seals c d (spec_gen spec) (off * 8) (take total ivOut) header maxout pIn n) as (out & tag & c' & Es & L1 & L2 & B1 & B2 & Hc & Hs' & Hr' & Hd);
    try done; [unfold spec_gen; destruct (explicit spec); tauto|by apply Z.mod_mul|by apply Forall_take|].
  rewrite Z.div_mul, Nat2Z.id in Es, Hd by lia. assert (Eg : generated_iv (spec_gen spec) off (take total ivOut) (aead_counter c) = iv) by apply Hgen.
  rewrite Eg in Es, Hd. exists out, tag, c'. rewrite <- Lt, Hfix. split; [|done].
  unfold tls13_AEAD. assert (Eiv : mem_read (E := RecordError) ivOut 0 (Z.to_nat (length (take total ivOut))) = Ok (take total ivOut)).
  { rewrite Lt, Et, Nat2Z.id, mem_read_in, drop_0; [done|]. unfold total. destruct Hex as [[-> ?]|(-> & ? & ?)]; lia. }
  rewrite Eiv. replace (match spec_gen spec with CKG_NO_GENERATE => _ | _ => Ok (take total ivOut) end) with (Ok (E := RecordError) (take total ivOut))
    by (unfold spec_gen; by destruct (explicit spec)). cbn [mbind res_bind]. rewrite Es, L1, Z.gtb_ltb, (proj2 (Z.ltb_ge _ _)) by lia.
  rewrite mem_read_in, drop_0, take_ge by lia. done.
Qed.
Lemma nonce_part_iv spec isDTLS n : aead_spec spec →
  mem_read (E := RecordError) (spec_iv spec isDTLS n) (Z.to_nat (iv_size (cipherDef spec))) (Z.to_nat (explicit_nonce_size (cipherDef spec))) =
    (if explicit spec then Ok (nonce_part spec isDTLS n) else Ok []) ∧
  Z.of_nat (length (nonce_part spec isDTLS n)) = explicit_nonce_size (cipherDef spec) ∧ bytes (nonce_part spec isDTLS n).
Proof.
  intros Hs. pose proof (length_salt spec Hs) as Ls. pose proof Hs as [_ _ Hn _ [Hk Bk]]. unfold nonce_part, spec_iv, record_iv, explicit.
  pose proof (length_seq_octets isDTLS (version spec) (epoch spec) n) as Lq.
  destruct Hn as [[E ?]|[E ?]]; rewrite E; cbn [Z.eqb negb].
  - split_and!; [|done|by constructor]. rewrite mem_read_in; [by rewrite take_0|].
    rewrite length_app, length_take, length_xor; rewrite ?length_drop; lia.
  - split_and!; [|lia|apply seq_octets_bytes]. rewrite mem_read_in by (rewrite length_app; lia). rewrite drop_app_length', take_ge by lia. done.
Qed.

(** A record sent: the explicit part of the IV, the output and the tag. *)
Lemma aead_encrypt_spec spec c d isDTLS stack header pIn b n : aead_spec spec → aead_sync c d →
  aead_ready c (spec_gen spec) (spec_fixed spec isDTLS) (iv_total spec) (S n) → (24 ≤ length stack)%nat → bytes stack → bytes pIn →
  wf b → is_Some (buf b) → space b < 2 ^ 31 → len b + explicit_nonce_size (cipherDef spec) + length pIn + tl ≤ space b →
  let iv := spec_iv spec isDTLS (aead_counter c) in
  ∃ b' c' out tag, aead_encrypt_record spec c isDTLS stack header pIn b = Ok (b', c') ∧ wf b' ∧
    contents b' = contents b ++ nonce_part spec isDTLS (aead_counter c) ++ out ++ tag ∧
    length out = length pIn ∧ Z.of_nat (length tag) = tl ∧ bytes out ∧ bytes tag ∧ aead_counter c' = aead_counter c + 1 ∧ aead_sync c' d ∧
    aead_ready c' (spec_gen spec) (spec_fixed spec isDTLS) (iv_total spec) n ∧
    ∀ max', length pIn ≤ max' → PK11_AEADOp_decrypt d iv header max' tag out = (Some pIn, d).
Proof.
  intros Hs Hsy Hr Hst Bst Hb Wb Bfb Hsp Hroom iv. pose proof Hs as [_ _ Hn [Htag Htl] _]. pose proof (wf_len _ Wb) as Hl.
  set (nonceLen := explicit_nonce_size (cipherDef spec)) in *. assert (Hnl : 0 ≤ nonceLen ≤ 8) by lia.
  destruct (record_seals spec c d isDTLS stack header pIn (space b - len b - nonceLen) n) as (out & tag & c' & E & L1 & L2 & B1 & B2 & Hc & Hs' & Hr' & Hd);
    try done; [lia|]. destruct (nonce_part_iv spec isDTLS (aead_counter c) Hs) as (Enp & Lnp & Bnp). fold nonceLen iv in Enp, Lnp, E.
  set (np := nonce_part spec isDTLS (aead_counter c)) in *.
  assert (Bo : bytes (out ++ tag)) by by apply Forall_app. assert (Lo : Z.of_nat (length (out ++ tag)) = length pIn + tl) by (rewrite length_app; lia).
  pose proof (room_behind b (nonceLen + length pIn + tl) Wb ltac:(lia)) as Hrb.
  destruct (store_continues b nonceLen (out ++ tag) [] Wb Bfb Bo ltac:(lia) ltac:(cbn [length]; lia) eq_refl) as (b1 & E1 & K1 & N1).
  rewrite app_nil_r in N1. pose proof K1 as [W1 Bf1 Ln1 S1 C1 Lb1].
  assert (Hput : ∃ b2, (if negb (nonceLen =? 0) then
       nonce ← mem_read iv (Z.to_nat (iv_size (cipherDef spec))) (Z.to_nat nonceLen); store_next b1 0 nonce else Ok b1) = Ok b2 ∧ kept b1 b2 ∧
     take (length (np ++ out ++ tag)) (behind b2) = np ++ out ++ tag).
  { unfold explicit in Enp. fold nonceLen in Enp. destruct (Z.eqb_spec nonceLen 0) as [E0|E0]; cbn [negb] in *.
    - exists b1. split; [done|]. split; [by apply kept_refl|]. assert (np = []) as -> by (apply length_zero_iff_nil; lia). cbn [app].
      rewrite E0 in N1. exact N1.
    - rewrite Enp. cbn [mbind res_bind].
      destruct (store_continues b1 0 np (out ++ tag) W1 Bf1 Bnp ltac:(lia) ltac:(lia)) as (b2 & -> & K2 & N2).
      { rewrite <- N1 at 2. do 2 f_equal. lia. }
      exists b2. split; [done|]. split; [done|]. exact N2. }
  destruct Hput as (b2 & E2 & [W2 Bf2 Ln2 S2 C2 Lb2] & N2).
  destruct (skip_next_spec b2 (length (out ++ tag) + nonceLen) W2 Bf2 ltac:(lia) ltac:(lia)) as (b3 & E3 & W3 & _ & _ & _ & C3 & _).
  exists b3, c', out, tag. split; [|split; [done|split; [|done]]].
  - unfold aead_encrypt_record, SSL_BUFFER_SPACE. fold nonceLen. rewrite Htag.
    rewrite (wrap_small 32 (nonceLen + _ + _)), (wrap_small 32 (space b - len b)), Z.gtb_ltb, (proj2 (Z.ltb_ge _ _)) by lia.
    unfold iv_total, spec_gen, explicit in E. fold nonceLen in E. rewrite (wrap_small 32 (space b - len b - nonceLen)) by lia.
    destruct (nonceLen =? 0); cbn [negb] in E, E2 |- *;
      (destruct (tls13_SetupAeadIv _ _ _ _ _ _ _) as [[ivOut ivOffset]| |]; [|discriminate E..]);
      cbn [mbind res_bind] in E |- *; rewrite E; cbn [mbind res_bind]; rewrite E1; cbn [mbind res_bind] in E2 |- *.
    + injection E2 as ->. rewrite E3. done.
    + rewrite E2. cbn [mbind res_bind]. rewrite E3. done.
  - rewrite C3, C2, C1. f_equal. rewrite <- N2. f_equal. rewrite !length_app in *. lia.
Qed.
(** The IV the receiver puts together. *)
Lemma receiver_iv spec isDTLS n header ct : aead_spec spec → take 8 header = seq_octets isDTLS (version spec) (epoch spec) n ∨ explicit spec = true →
  (8 ≤ length header)%nat → take (Z.to_nat (explicit_nonce_size (cipherDef spec))) ct = nonce_part spec isDTLS n →
  ('(iv, nonce) ← (if explicit_nonce_size (cipherDef spec) =? 0 then nonce ← mem_read header 0 8; Ok (key_iv spec, nonce)
                  else iv ← mem_read (key_iv spec) 0 (Z.to_nat (iv_size (cipherDef spec)));
                       nonce ← mem_read ct 0 (Z.to_nat (explicit_nonce_size (cipherDef spec)));
                       Ok (iv ++ replicate (Z.to_nat (explicit_nonce_size (cipherDef spec))) 0, nonce));
   tls13_WriteNonce iv (iv_total spec) nonce (iv_total spec)) = Ok (spec_iv spec isDTLS n).
Proof.
  intros Hs Hq Hh Hct. pose proof (length_salt spec Hs) as Ls. destruct (nonce_part_iv spec isDTLS n Hs) as (_ & Lnp & Bnp).
  pose proof Hs as [_ _ Hn _ [Hk Bk]]. unfold MAX_IV_LENGTH in Hn. unfold iv_total, spec_iv, record_iv, nonce_part, explicit in *.
  pose proof (length_seq_octets isDTLS (version spec) (epoch spec) n) as Lq.
  destruct Hn as [[E Hr]|[E Hr]]; rewrite E in *; cbn [Z.eqb negb] in *.
  - destruct Hq as [Hq|?]; [|done]. rewrite mem_read_in, drop_0, Hq by lia. cbn [mbind res_bind]. rewrite Z.add_0_r.
    rewrite <- (Z2Nat.id (iv_size (cipherDef spec))) by lia.
    rewrite (WriteNonce_iv (key_iv spec) _ false) by lia. fold (salt spec). replace (length (salt spec)) with (Z.to_nat (iv_size (cipherDef spec))) by lia. done.
  - change (Z.to_nat 8) with 8%nat in *. rewrite (mem_read_in (key_iv spec)), drop_0 by lia. fold (salt spec). cbn [mbind res_bind].
    assert (8 ≤ length ct)%nat by (apply (f_equal length) in Hct; rewrite length_take in Hct; lia).
    rewrite mem_read_in, drop_0, Hct by lia. cbn [mbind res_bind]. replace (iv_size (cipherDef spec) + 8) with (Z.of_nat (length (salt spec) + 8)) by lia.
    rewrite (WriteNonce_iv (salt spec ++ replicate 8 0) _ false) by (rewrite ?length_app, ?length_replicate; lia).
    rewrite Nat.add_sub, (take_ge (salt spec ++ replicate 8 0) (length (salt spec) + 8)) by (rewrite length_app, length_replicate; lia). rewrite take_app_length, drop_app_length.
    rewrite (xor_zeros 8) by (done || lia). done.
Qed.

(** A record received. *)
Lemma unprotect_aead_record r isDTLS cText plaintext pIn out tag n : aead_spec r →
  let ver := rec_version cText in let header := pseudo_header (epoch r) (seqNum cText) (rec_type cText) true ver isDTLS (length pIn) (version r) in
  ct_buf cText = nonce_part r isDTLS n ++ out ++ tag → length out = length pIn → Z.of_nat (length tag) = tl →
  explicit r = true ∨ n = seqNum cText → bytes pIn →
  PK11_AEADOp_decrypt (cipherContext r) (spec_iv r isDTLS n) header (space plaintext) tag out = (Some pIn, cipherContext r) →
  (3 ≤ length (hdr cText))%nat → 0 ≤ recordSizeLimit r < 2 ^ 28 → length pIn ≤ recordSizeLimit r →
  wf plaintext → is_Some (buf plaintext) → length pIn ≤ space plaintext →
  ∃ p, ssl3_UnprotectRecord r isDTLS cText plaintext = Ok (p, cipherContext r) ∧ wf p ∧ contents p = pIn.
Proof.
  intros Hs ver header Hct Lo Lt Hex Hb Hd Hh Hlim Hpl Wp Bfp Hsp. destruct (nonce_part_iv r isDTLS n Hs) as (_ & Lnp & Bnp).
  pose proof Hs as [Htype Htls Hn [Htag Htl] _]. set (nonceLen := explicit_nonce_size (cipherDef r)) in *. assert (Hnl : 0 ≤ nonceLen ≤ 8) by lia.
  assert (Lct : Z.of_nat (length (ct_buf cText)) = nonceLen + length pIn + tl) by (rewrite Hct, !length_app; lia).
  unfold ssl3_UnprotectRecord. rewrite Htype, (bool_decide_eq_false_2 (type_aead = type_block)) by done.
  rewrite (bool_decide_eq_true_2 (type_aead = type_aead)) by done. cbn [andb]. fold nonceLen. rewrite Htag, (proj2 (Z.ltb_ge _ _)) by lia.
  unfold read_explicit_iv. cbn [mbind res_bind]. rewrite Z.gtb_ltb, wrap_small, (proj2 (Z.ltb_ge _ _)) by (unfold MAX_EXPANSION; lia).
  rewrite Z.gtb_ltb, (proj2 (Z.ltb_lt SSL_LIBRARY_VERSION_3_0 (version r))) by done.
  destruct (header_read cText Hh) as (first & Hf & Ht & Hv). rewrite Hf. cbn [mbind res_bind]. rewrite Ht, Hv.
  unfold unprotect_aead. fold nonceLen. rewrite Htag. replace (length (ct_buf cText) - nonceLen - tl) with (Z.of_nat (length pIn)) by lia.
  rewrite wrap_small by (pose proof (wf_space _ Wp); lia).
  destruct (BuildRecordPseudoHeader_spec (epoch r) (seqNum cText) (rec_type cText) true (rec_version cText) isDTLS (length pIn) (version r))
    as (hb & -> & Hhb). cbn [sec mbind res_bind]. change (contents hb = header) in Hhb. rewrite Hhb.
  assert (H8 : take 8 header = seq_octets isDTLS (version r) (epoch r) (seqNum cText) ∧ (8 ≤ length header)%nat).
  { change header with (seq_octets isDTLS (version r) (epoch r) (seqNum cText) ++ (be_bytes 1 (rec_type cText) ++ be_bytes 2 ver ++ be_bytes 2 (length pIn))).
    pose proof (length_seq_octets isDTLS (version r) (epoch r) (seqNum cText)) as Lq. rewrite take_app_length' by done. rewrite length_app. split; [done|lia]. }
  assert (Hiv := receiver_iv r isDTLS n header (ct_buf cText) Hs). fold nonceLen in Hiv.
  destruct H8 as [H8 H8l]. assert (Hct8 : take (Z.to_nat nonceLen) (ct_buf cText) = nonce_part r isDTLS n) by (rewrite Hct; apply take_app_length'; lia).
  specialize (Hiv ltac:(destruct Hex as [?| ->]; [by right|by left]) H8l Hct8).
  match type of Hiv with ?m ≫= _ = _ => destruct m as [[iv nonce]| |]; [|discriminate Hiv..] end.
  cbn [mbind res_bind] in Hiv |- *. unfold tls13_AEAD. unfold iv_total in Hiv. fold nonceLen in Hiv. rewrite Hiv. cbn [mbind res_bind].
  assert (Ed : drop (Z.to_nat nonceLen) (ct_buf cText) = out ++ tag) by (rewrite Hct; apply drop_app_length'; lia). rewrite Ed.
  rewrite (proj2 (Z.ltb_ge _ _)) by (rewrite length_app; lia).
  replace (length (out ++ tag) - Z.to_nat tl)%nat with (length out) by (rewrite length_app; lia). rewrite take_app_length, drop_app_length, Hd.
  cbn [mbind res_bind]. destruct (set_plaintext_spec plaintext pIn Wp Bfp Hb ltac:(lia)) as (b & -> & Wb & Lb & Sb & _ & _ & Stb).
  cbn [mbind res_bind with_alert]. change (2 ^ 32 - 1 =? 0) with false. exists b. split; [done|]. split; [done|].
  unfold contents. rewrite Lb, Stb, Nat2Z.id. apply take_app_length.
Qed.
End Records.

(** ** PK11_AEADOp keeps the promise *)

Section Promise.
  Context `{heap : NSPRHeap} `{token : Token}.

(** The record layer's view of PK11_AEADOp; the tag of a record follows it. *)
Definition aead_crypto : RecordCrypto := {|
  cctx := PK11Context;
  mackey := unit;
  spec_cipher c _ _ := (None, c);
  PK11_DigestMac _ _ _ := None;
  PK11_SignConstantTime _ _ _ _ := inr false;
  PK11_AEADOp_encrypt c gen fixed iv aad max tagLen x :=
    let '(c, r) := PK11_AEADOp c gen fixed iv (length iv) aad max [] tagLen false x in (match r with Ok v => Some v | _ => None end, c);
  PK11_AEADOp_decrypt c iv aad max tag x :=
    let '(c, r) := PK11_AEADOp c CKG_NO_GENERATE 0 iv (length iv) aad max tag (length tag) true x in
    (match r with Ok (_, out, _) => Some out | _ => None end, c);
|}.

Lemma iv_octets_aligned xor i fixed n cur : fixed mod 8 = 0 → 0 ≤ i < 2 ^ 64 → bytes cur → Z.of_nat (length cur) = n → n < 2 ^ 32 →
  iv_octets xor i (iv_mask fixed) n cur = if xor then xor_octets cur (be_bytes (length cur) i) else be_bytes (length cur) i.
Proof.
  intros Hf Hi Hb Hl Hn.
  assert (Em : iv_mask fixed = 2 ^ 8 - 1).
  { unfold iv_mask. change 7 with (2 ^ 3 - 1). rewrite !land_ones_mod by lia. change (2 ^ 3) with 8. by rewrite Hf. }
  assert (Hbyte : ∀ k : nat, (k < length cur)%nat → Z.land (PORT_GET_BYTE_BE i k n) (iv_mask fixed) = PORT_GET_BYTE_BE i k n).
  { intros k Hk. pose proof (GET_BYTE_BE_lookup i k (length cur) Hi Hk ltac:(lia)) as Hx. rewrite Hl in Hx.
    apply (Forall_lookup_1 _ _ _ _ (be_bytes_bytes _ _)) in Hx. rewrite Em, land_ones_mod by lia. by apply Z.mod_small. }
  apply list_eq. intros k. unfold iv_octets. rewrite list_lookup_imap. destruct (cur !! k) as [o|] eqn:Ho.
  - pose proof (lookup_lt_Some _ _ _ Ho) as Hk. pose proof (Forall_lookup_1 _ _ _ _ Hb Ho) as Hob.
    pose proof (GET_BYTE_BE_lookup i k (length cur) Hi Hk ltac:(lia)) as Hx. rewrite Hl in Hx. cbn [fmap option_fmap option_map].
    assert (Hz : Z.land o (Z.lnot (iv_mask fixed)) = 0).
    { rewrite Em. change (2 ^ 8 - 1) with (Z.ones 8). rewrite <- Z.ldiff_land, Z.ldiff_ones_r by lia.
      by rewrite Z.shiftr_div_pow2, Z.div_small by (unfold is_byte in *; lia). }
    destruct xor; [rewrite lookup_zip_with, Ho, Hx|rewrite Hx]; cbn [mbind option_bind]; f_equal; destruct k as [|k]; cbn [Nat.eqb];
      [by rewrite Hbyte|done|by rewrite Hz, Z.lor_0_l, Hbyte|done].
  - apply lookup_ge_None in Ho. cbn. destruct xor; symmetry; apply lookup_ge_None_2; rewrite ?length_zip_with, ?length_be_bytes; lia.
Qed.

(** A context that has [n] more IVs for these sizes. *)
Definition iv_room (s : gcmIVContext) (gen : CK_GENERATOR_FUNCTION) (fixed len : Z) (n : nat) : Prop :=
  0 ≤ fixed < len * 8 ∧ len < 2 ^ 28 ∧ 0 ≤ counter s ∧
  ∃ m, iv_max_count gen (len * 8 - fixed) = Some m ∧ counter s + n ≤ m ∧
       (counter s = 0 ∨ ivGen s = gen ∧ fixedBits s = fixed ∧ ivLen s = len ∧ max_count s = m).

Lemma GenerateIV_generates s gen fixed iv n random : gen = CKG_GENERATE_COUNTER ∨ gen = CKG_GENERATE_COUNTER_XOR → fixed mod 8 = 0 →
  iv_room s gen fixed (length iv) (S n) → bytes iv →
  ∃ s', pk11_GenerateIV s gen fixed iv (length iv) random = (s', Ok (generated_iv gen (Z.to_nat (fixed / 8)) iv (counter s))) ∧
    counter s' = counter s + 1 ∧ iv_room s' gen fixed (length iv) n.
Proof.
  intros Hg Hf8 (Hf & Hl & Hc & m & Hm & Hn & Hs) Hb. destruct (iv_max_count_range _ _ _ Hm ltac:(lia)) as (R1 & _ & _).
  set (len := Z.of_nat (length iv)) in *. unfold pk11_GenerateIV.
  assert (Hover : (counter s =? 0) && negb (swrap 32 (len * 8) =? len * 8) = false) by (rewrite swrap_small, Z.eqb_refl by lia; apply andb_false_r).
  rewrite Hover, !wrap_small by lia.
  assert (Hset : ∃ s1, iv_setup s len fixed gen = (s1, Ok tt) ∧ counter s1 = counter s ∧ ivGen s1 = gen ∧ fixedBits s1 = fixed ∧ ivLen s1 = len ∧ max_count s1 = m).
  { unfold iv_setup. destruct (Z.eqb_spec (counter s) 0) as [E0|E0]; cbn [negb].
    - rewrite wrap_small, (proj2 (Z.ltb_ge _ _)), Hm by lia. by eexists.
    - destruct Hs as [?|(G & F & L & M)]; [done|]. rewrite G, F, L, bool_decide_eq_true_2, !Z.eqb_refl by done. by exists s. }
  destruct Hset as (s1 & E1 & C1 & G1 & F1 & L1 & M1). unfold gcm_GenerateIV. rewrite E1.
  rewrite bool_decide_eq_false_2 by (by destruct Hg as [-> | ->]). rewrite Z.geb_leb, (proj2 (Z.leb_gt _ _)) by lia.
  assert (Hd : 0 ≤ fixed / 8 ≤ len) by (split; [apply Z.div_pos; lia|apply Z.div_le_upper_bound; lia]).
  set (off := Z.to_nat (fixed / 8)). assert (Ln : Z.to_nat (len - fixed / 8) = length (drop off iv)) by (unfold off; rewrite length_drop; lia).
  assert (Hfill : iv_fill s1 iv len fixed gen random = Ok (generated_iv gen off iv (counter s))).
  { unfold iv_fill. fold off. rewrite wrap_small by lia.
    assert (Hput : ∀ xor, (cur ← mem_read iv off (Z.to_nat (len - fixed / 8)); mem_write iv off (iv_octets xor (counter s1) (iv_mask fixed) (len - fixed / 8) cur))
      = Ok (E := SECErrorCode) (take off iv ++ if xor : bool then xor_octets (drop off iv) (be_bytes (length iv - off) (counter s)) else be_bytes (length iv - off) (counter s))).
    { intros xor. rewrite mem_read_in by (rewrite Ln, length_drop; lia). cbn [mbind res_bind]. rewrite Ln, take_ge by done.
      rewrite iv_octets_aligned, C1 by (done || lia || (by apply Forall_drop) || (rewrite length_drop; unfold off; lia)).
      rewrite length_drop. assert (Lo : length (if xor then xor_octets (drop off iv) (be_bytes (length iv - off) (counter s)) else be_bytes (length iv - off) (counter s)) = (length iv - off)%nat).
      { destruct xor; [|apply length_be_bytes]. rewrite length_zip_with, length_drop, length_be_bytes. lia. }
      rewrite mem_write_same by (rewrite Lo; unfold off; lia). rewrite Lo, (drop_ge iv (off + _)), app_nil_r by (unfold off; lia). done. }
    destruct Hg as [-> | ->]; apply Hput. }
  rewrite Hfill. eexists. split; [done|].
  assert (Ec : counter (set_counter s1 (counter s1 + 1)) = counter s + 1) by (cbn [set_counter counter]; rewrite C1; apply wrap_small; lia).
  split; [done|]. unfold iv_room. rewrite Ec. split; [done|]. split; [done|]. split; [lia|]. exists m. split; [done|]. split; [lia|by right].
Qed.
Definition simulated_laws mech `{laws : !TokenLaws mech} tl : aead_mechanism mech → 0 ≤ tl ≤ 16 → mech = CKM_AES_GCM ∨ tl = 16 →
  @AeadLaws aead_crypto tl.
Proof.
  intros Hmech Htl Htl'.
  refine (@Build_AeadLaws aead_crypto tl (λ e, counter (iv_state e))
    (λ e d, simulated e MESSAGE_ENCRYPT mech ∧ simulated d MESSAGE_DECRYPT mech ∧ ctx_key d = ctx_key e)
    (λ e gen fixed len n, iv_room (iv_state e) gen fixed len n) _).
  intros e d gen fixed iv aad max x n (He & Hd & Hk) Hg Hf Hr Biv Bx Hm iv'.
  destruct (GenerateIV_generates (iv_state e) gen fixed iv n PK11_GenerateRandom Hg Hf Hr Biv) as (s & Eg & Hc & Hr').
  pose proof (aead_shot_tag mech iv' (length iv) aad tl Hmech Htl Htl') as Hst.
  pose proof (seal_length (ctx_key e) (aead_shot mech iv' (length iv) aad tl) x ltac:(lia)) as Ls.
  pose proof (seal_bytes (ctx_key e) (aead_shot mech iv' (length iv) aad tl) x Bx) as Bs.
  set (sealed := seal (ctx_key e) (aead_shot mech iv' (length iv) aad tl) x) in *. rewrite Hst in Ls.
  exists (take (length x) sealed), (drop (length x) sealed), (set_iv_state e s).
  assert (Lt : Z.of_nat (length (drop (length x) sealed)) = tl) by (rewrite length_drop; lia).
  split; [|split; [rewrite length_take; lia|split; [done|split; [by apply Forall_take|split; [by apply Forall_drop|]]]]].
  - cbn [PK11_AEADOp_encrypt aead_crypto]. rewrite (AEADOp_encrypts mech e gen fixed iv (length iv) aad max [] tl false x s iv') by (done || lia). done.
  - split; [done|]. split; [done|]. split; [done|]. intros max' Hmax. cbn [PK11_AEADOp_decrypt aead_crypto]. rewrite Lt.
    assert (Li : length iv' = length iv).
    { destruct Hr as (Hf' & _). assert (0 ≤ fixed / 8 ≤ length iv) by (split; [apply Z.div_pos; lia|apply Z.div_le_upper_bound; lia]).
      unfold iv', generated_iv. rewrite length_app, length_take. destruct Hg as [-> | ->]; rewrite ?length_zip_with, ?length_drop, length_be_bytes; lia. }
    rewrite Li. pose proof (AEADOp_decrypts mech d CKG_NO_GENERATE 0 iv' (length iv) aad max' tl x Hmech Hd Htl Htl' Hmax) as Hdec.
    rewrite Hk in Hdec. fold sealed in Hdec. by rewrite Hdec.
Defined.
End Promise.

(** ** Theorems *)

(** The receiving end of a sending spec with an AEAD. *)
Record aead_peer `{rc : RecordCrypto} {tl : Z} `{laws : !AeadLaws tl} (w r : ssl3CipherSpec) : Prop := {
  ap_def : cipherDef r = cipherDef w;
  ap_iv : key_iv r = key_iv w;
  ap_epoch : epoch r = epoch w;
  ap_version : version r = version w;
  ap_sync : aead_sync (cipherContext w) (cipherContext r);
}.

(** [C32] What ssl3_MACEncryptRecord sends with an AEAD, ssl3_UnprotectRecord of the peer
    opens, in TLS and DTLS, whether eight octets of the IV are in the record or
    the IV comes from the sequence number (then the token's counter has to be
    that number, and stays so).  No write is out of bounds when there are
    SSL3_BUFFER_FUDGE octets besides the content, whatever the array for the IV
    held before. *)
Theorem aead12_round_trip `{heap : NSPRHeap} `{rc : RecordCrypto} tl `{laws : !AeadLaws tl} w r isDTLS pIn wrBuf gen stack h plaintext n :
  aead_spec tl w → aead_spec tl r → aead_peer w r → 0 ≤ recordSizeLimit r < 2 ^ 28 →
  aead_ready (cipherContext w) (spec_gen w) (spec_fixed w isDTLS) (iv_total w) (S n) →
  explicit w = true ∨ aead_counter (cipherContext w) = nextSeqNum w →
  (24 ≤ length stack)%nat → bytes stack → bytes pIn → length pIn ≤ recordSizeLimit r →
  wf wrBuf → is_Some (buf wrBuf) → space wrBuf < 2 ^ 31 → len wrBuf + length pIn + SSL3_BUFFER_FUDGE ≤ space wrBuf →
  wf plaintext → is_Some (buf plaintext) → length pIn ≤ space plaintext →
  (3 ≤ length h)%nat → Z.lor (Z.shiftl (h !!! 1%nat) 8) (h !!! 2%nat) = recordVersion w →
  ∃ b e frag, ssl3_MACEncryptRecord w isDTLS (h !!! 0%nat) pIn wrBuf gen stack = Ok (b, e) ∧ wf b ∧
    contents b = contents wrBuf ++ frag ∧ length frag ≤ length pIn + SSL3_BUFFER_FUDGE ∧
    aead_counter e = aead_counter (cipherContext w) + 1 ∧ aead_ready e (spec_gen w) (spec_fixed w isDTLS) (iv_total w) n ∧
    let cText := {| seqNum := nextSeqNum w; hdr := h; ct_buf := frag |} in
    ∃ p d, ssl3_UnprotectRecord r isDTLS cText plaintext = Ok (p, d) ∧ wf p ∧ contents p = pIn ∧ aead_sync e d.
Proof.
  intros Hw Hr [Pd Pk Pe Pv Ps] Hlim Hrdy Hseq Lst Bst Hb Hlen Wb Bfb Hsp Hroom Wp Bfp Hsp' Hh Hver.
  pose proof Hw as [Htype Htls Hn [Htag Htl] _]. unfold SSL3_BUFFER_FUDGE in *.
  destruct (BuildRecordPseudoHeader_spec (epoch w) (nextSeqNum w) (h !!! 0%nat) (SSL_LIBRARY_VERSION_TLS_1_0 <=? version w) (recordVersion w) isDTLS
    (length pIn) (version w)) as (hb & Ehb & Hhb).
  assert (Htls' : (SSL_LIBRARY_VERSION_TLS_1_0 <=? version w) = true)
    by (apply Z.leb_le; unfold SSL_LIBRARY_VERSION_3_0, SSL_LIBRARY_VERSION_TLS_1_0 in *; lia). rewrite Htls' in Hhb.
  destruct (aead_encrypt_spec tl w (cipherContext w) (cipherContext r) isDTLS stack (contents hb) pIn wrBuf n) as
    (b & e & out & tag & E & W & C & L1 & L2 & B1 & B2 & Hc & Hs & Hr' & Hd); try (done || lia).
  destruct (nonce_part_iv tl w isDTLS (aead_counter (cipherContext w)) Hw) as (_ & Lnp & _).
  exists b, e, (nonce_part w isDTLS (aead_counter (cipherContext w)) ++ out ++ tag). split.
  { unfold ssl3_MACEncryptRecord, put_explicit_iv. rewrite Htype, (bool_decide_eq_false_2 (type_aead = type_block)) by done. cbn [andb negb mbind res_bind].
    rewrite Ehb. cbn [sec mbind res_bind]. rewrite bool_decide_eq_true_2 by done. exact E. }
  split; [done|]. split; [done|]. split; [rewrite !length_app; lia|]. split; [done|]. split; [done|].
  set (cText := {| seqNum := _ |}).
  assert (Hex : explicit r = explicit w) by (unfold explicit; by rewrite Pd).
  assert (Hiv : spec_iv r isDTLS (aead_counter (cipherContext w)) = spec_iv w isDTLS (aead_counter (cipherContext w)))
    by (unfold spec_iv, salt; by rewrite Hex, Pd, Pk, Pe, Pv).
  assert (Hnp : nonce_part r isDTLS (aead_counter (cipherContext w)) = nonce_part w isDTLS (aead_counter (cipherContext w)))
    by (unfold nonce_part; by rewrite Hex, Pe, Pv).
  destruct (unprotect_aead_record tl r isDTLS cText plaintext pIn out tag (aead_counter (cipherContext w))) as (p & Eu & Wp' & Cp);
    try (done || lia).
  - by rewrite Hnp.
  - rewrite Hex. destruct Hseq; [by left|by right].
  - rewrite Hiv. change (rec_version cText) with (Z.lor (Z.shiftl (h !!! 1%nat) 8) (h !!! 2%nat)). rewrite Hver, Pe, Pv.
    change (rec_type cText) with (h !!! 0%nat). change (seqNum cText) with (nextSeqNum w). rewrite <- Hhb. by apply Hd.
  - exists p, (cipherContext r). done.
Qed.

(** Records of one epoch that are protected with one AEAD key never share an IV,
    as long as their sequence numbers stay below 2^48. *)
Theorem record_iv_distinct `{rc : RecordCrypto} tl `{laws : !AeadLaws tl} spec isDTLS n m :
  aead_spec tl spec → 0 ≤ n < 2 ^ 48 → 0 ≤ m < 2 ^ 48 → n ≠ m → spec_iv spec isDTLS n ≠ spec_iv spec isDTLS m.
Proof.
  intros Hs Hn Hm Hne E. apply Hne. apply (record_iv_inj (explicit spec) (salt spec) isDTLS (version spec) (epoch spec)); try done.
  pose proof (length_salt tl spec Hs) as Ls. pose proof (as_nonce _ _ Hs) as Hno. unfold explicit.
  destruct Hno as [[E0 ?]|[E0 ?]]; rewrite E0; cbn [Z.eqb negb]; [lia|done].
Qed.

(** ** Witnesses and examples *)

Definition gcm_crypto : RecordCrypto := @aead_crypto zero_heap toy_token.
Definition gcm_laws : @AeadLaws gcm_crypto 16.
Proof. apply (@simulated_laws zero_heap toy_token CKM_AES_GCM (toy_token_laws _) 16); [by left|lia|by left]. Defined.

(** DTLS 1.2 with AES-GCM, epoch 1. *)
Definition gcm_spec (op : message_operation) : @ssl3CipherSpec gcm_crypto := {|
  cipherDef := {| cd_type := type_aead; cd_null := false; iv_size := 4; block_size := 0; tag_size := 16; explicit_nonce_size := 8; max_records := 2 ^ 48 - 1 |};
  mac_null := true; mac_size := 0; macKey := (tt : @mackey gcm_crypto); cipherContext := (demo_ctx op CKM_AES_GCM : @cctx gcm_crypto);
  key_iv := [201; 202; 203; 204]; version := SSL_LIBRARY_VERSION_TLS_1_2; recordVersion := SSL_LIBRARY_VERSION_TLS_1_2; epoch := 1; nextSeqNum := 0;
  recordSizeLimit := 16384; earlyDataRemaining := 0; deprotectionFailures := 0 |}.

Definition gcm_stack : list Z := replicate 24 170.

Example gcm_record :
  match @ssl3_MACEncryptRecord zero_heap gcm_crypto (gcm_spec MESSAGE_ENCRYPT) true 23 [104; 105] (toy_buf 200) (λ _, None) gcm_stack with
  | Ok (b, _) => take 10 (contents b) = [0; 1; 0; 0; 0; 0; 0; 0; 240; 241] ∧ length (contents b) = 26%nat
  | _ => False
  end.
Proof. vm_compute. split; reflexivity. Qed.

Lemma gcm_spec_ok op : @aead_spec gcm_crypto 16 (gcm_spec op).
Proof.
  constructor; cbn; first [done | lia | right; unfold MAX_IV_LENGTH; lia | split; [lia|repeat constructor; unfold is_byte; lia]].
Qed.

Lemma aead12_round_trip_witness : ∃ b e frag,
  @ssl3_MACEncryptRecord zero_heap gcm_crypto (gcm_spec MESSAGE_ENCRYPT) true 23 [104; 105] (toy_buf 200) (λ _, None) gcm_stack = Ok (b, e) ∧ wf b ∧
  contents b = contents (toy_buf 200) ++ frag ∧ length frag ≤ 2 + SSL3_BUFFER_FUDGE ∧
  @aead_counter gcm_crypto 16 gcm_laws e = 1 ∧
  @aead_ready gcm_crypto 16 gcm_laws e CKG_GENERATE_COUNTER (@spec_fixed gcm_crypto (gcm_spec MESSAGE_ENCRYPT) true) 12 4 ∧
  let cText := {| seqNum := 0; hdr := [23; 3; 3; 0; 0]; ct_buf := frag |} in
  ∃ p d, @ssl3_UnprotectRecord zero_heap gcm_crypto (gcm_spec MESSAGE_DECRYPT) true cText (toy_buf 200) = Ok (p, d) ∧ wf p ∧ contents p = [104; 105] ∧
         @aead_sync gcm_crypto 16 gcm_laws e d.
Proof.
  apply (@aead12_round_trip zero_heap gcm_crypto 16 gcm_laws (gcm_spec MESSAGE_ENCRYPT) (gcm_spec MESSAGE_DECRYPT) true [104; 105] (toy_buf 200) (λ _, None)
    gcm_stack [23; 3; 3; 0; 0] (toy_buf 200) 4); try apply gcm_spec_ok; try (by apply toy_buf_wf); try (by eexists); try (vm_compute; done);
    try (repeat constructor; unfold is_byte; lia).
  change (iv_room gcm_InitIVContext CKG_GENERATE_COUNTER 48 12 5). split; [lia|]. split; [lia|]. split; [done|]. exists (2 ^ 48).
  split; [vm_compute; reflexivity|]. split; [vm_compute; discriminate|by left].
Defined.

Lemma record_iv_distinct_witness :
  @spec_iv gcm_crypto (gcm_spec MESSAGE_ENCRYPT) true 1 = [201; 202; 203; 204; 0; 1; 0; 0; 0; 0; 0; 1] ∧
  @spec_iv gcm_crypto (gcm_spec MESSAGE_ENCRYPT) true 1 ≠ @spec_iv gcm_crypto (gcm_spec MESSAGE_ENCRYPT) true 2.
Proof. split; [vm_compute; reflexivity|]. apply (@record_iv_distinct gcm_crypto 16 gcm_laws); [apply gcm_spec_ok|lia|lia|lia]. Defined.
