(* ===== verification/Record13.v ===== *)
(** TLS 1.3 records and what all versions share when a record is written:
    lib/ssl/tls13con.c, the record headers of lib/ssl/ssl3con.c and
    lib/ssl/dtls13con.c, and the mask over DTLS 1.3 sequence numbers
    (lib/ssl/sslprimitive.c).

    [record13_round_trip] and [dtls13_round_trip] follow a record from
    ssl_ProtectRecord through the peer's reading, [UnprotectRecord13_exact] says
    what tls13_UnprotectRecord accepts. *)

From stdpp Require Import base numbers list.
From S2P Require Import Prelude Port SslEncode DtlsWindow AeadOp CbcRecord Record12 RecordAead.

Definition ssl_ct_application_data : Z := 23.
Definition TrafficKeyClearText : Z := 0.
Definition TrafficKeyEarlyApplicationData : Z := 1.
Definition TrafficKeyHandshake : Z := 2.
Definition UNIFIED_HEADER_LONG : Z := 0x2c.
Definition UNIFIED_HEADER_SHORT : Z := 0x20.
Definition MASK_TWO_LOW_BITS : Z := 0x3.
Definition MASK_SEQUENCE_NUMBER_SHORT : Z := 0xff.
Definition MASK_SEQUENCE_NUMBER_LONG : Z := 0xffff.

(** The fields of the socket in use. *)
Record sslSocket := { IS_DTLS : bool; ss_version : Z; enableDtlsShortHeader : bool }.

Definition IS_DTLS_1_OR_12 (ss : sslSocket) : bool := IS_DTLS ss && (ss_version ss <? SSL_LIBRARY_VERSION_TLS_1_3).

(** ** The mask over sequence numbers *)

Inductive mask_mechanism := CKM_AES_ECB | CKM_NSS_CHACHA20_CTR | CKM_CHACHA20 | CKM_other_mask.

(** PK11_Encrypt with a mechanism, its parameter, the room for the output and the
    input. *)
Class MaskToken := { mkey : Type; mask_encrypt : mkey → mask_mechanism → option (list Z) → Z → list Z → option (list Z) }.

Record SSLMaskingContext `{MaskToken} := { mask_mech : mask_mechanism; mask_secret : option mkey }.

Definition AES_BLOCK_SIZE : Z := 16.
Definition sizeof_CK_CHACHA20_PARAMS : Z := 32.

Inductive MaskError := MASK_INVALID_ARGS | MASK_NO_KEY | MASK_OUTPUT_LEN | MASK_PKCS11_FUNCTION_FAILED.

Section Mask.
  Context `{masking : MaskToken}.

Definition ssl_CreateMaskInner (ctx : option SSLMaskingContext) (sample : list Z) (maskLen : Z) : res MaskError (list Z) :=
  let sampleLen := Z.of_nat (length sample) in
  match ctx with
  | None => Err MASK_INVALID_ARGS
  | Some ctx =>
      if (sampleLen =? 0) || (maskLen =? 0) then Err MASK_INVALID_ARGS else
      match mask_secret ctx with
      | None => Err MASK_NO_KEY
      | Some secret =>
          let finish out := match out with
                            | None => Err MASK_PKCS11_FUNCTION_FAILED
                            | Some out => if length out <? maskLen then Err MASK_OUTPUT_LEN else Ok (take (Z.to_nat maskLen) out)
                            end in
          let chacha paramLen :=
            if sampleLen <? paramLen then Err MASK_INVALID_ARGS else
            if maskLen >? 128 then Err MASK_OUTPUT_LEN else
            finish (mask_encrypt secret (mask_mech ctx) (Some (take (Z.to_nat paramLen) sample)) maskLen (replicate (Z.to_nat maskLen) 0)) in
          match mask_mech ctx with
          | CKM_AES_ECB =>
              if sampleLen <? AES_BLOCK_SIZE then Err MASK_INVALID_ARGS else
              finish (mask_encrypt secret CKM_AES_ECB None (if maskLen <? AES_BLOCK_SIZE then AES_BLOCK_SIZE else maskLen) (take (Z.to_nat AES_BLOCK_SIZE) sample))
          | CKM_NSS_CHACHA20_CTR => chacha 16
          | CKM_CHACHA20 => chacha sizeof_CK_CHACHA20_PARAMS
          | CKM_other_mask => Err MASK_INVALID_ARGS
          end
      end
  end.

(** The header in memory. *)
Definition dtls13_MaskSequenceNumber (version : Z) (maskContext : option SSLMaskingContext) (hdr cipherText : list Z) : rec_res (list Z) :=
  if version <? SSL_LIBRARY_VERSION_TLS_1_3 then Ok hdr else
  match maskContext with
  | None => Ok hdr
  | Some _ =>
      if length cipherText <? 16 then Err SSL_ERROR_BAD_MAC_READ else
      match ssl_CreateMaskInner maskContext cipherText 2 with
      | Ok mask =>
          h ← mem_read hdr 0 2;
          hdr ← mem_write hdr 1 [Z.lxor (h !!! 1%nat) (mask !!! 0%nat)];
          if negb (Z.land (h !!! 0%nat) 0x08 =? 0) then
            h2 ← mem_read hdr 2 1; mem_write hdr 2 [Z.lxor (h2 !!! 0%nat) (mask !!! 1%nat)]
          else Ok hdr
      | _ => Err SSL_ERROR_BAD_MAC_READ
      end
  end.
End Mask.

(** ** Writing records *)

Section Record13.
  Context `{heap : NSPRHeap} `{rc : RecordCrypto} `{masking : MaskToken}.

Definition with_ctx (spec : ssl3CipherSpec) (c : cctx) : ssl3CipherSpec :=
  {| cipherDef := cipherDef spec; mac_null := mac_null spec; mac_size := mac_size spec; macKey := macKey spec; cipherContext := c;
     key_iv := key_iv spec; version := version spec; recordVersion := recordVersion spec; epoch := epoch spec; nextSeqNum := nextSeqNum spec;
     recordSizeLimit := recordSizeLimit spec; earlyDataRemaining := earlyDataRemaining spec; deprotectionFailures := deprotectionFailures spec |}.
Definition with_seq (spec : ssl3CipherSpec) (n : Z) : ssl3CipherSpec :=
  {| cipherDef := cipherDef spec; mac_null := mac_null spec; mac_size := mac_size spec; macKey := macKey spec; cipherContext := cipherContext spec;
     key_iv := key_iv spec; version := version spec; recordVersion := recordVersion spec; epoch := epoch spec; nextSeqNum := n;
     recordSizeLimit := recordSizeLimit spec; earlyDataRemaining := earlyDataRemaining spec; deprotectionFailures := deprotectionFailures spec |}.
Definition with_early (spec : ssl3CipherSpec) (n : Z) : ssl3CipherSpec :=
  {| cipherDef := cipherDef spec; mac_null := mac_null spec; mac_size := mac_size spec; macKey := macKey spec; cipherContext := cipherContext spec;
     key_iv := key_iv spec; version := version spec; recordVersion := recordVersion spec; epoch := epoch spec; nextSeqNum := nextSeqNum spec;
     recordSizeLimit := recordSizeLimit spec; earlyDataRemaining := n; deprotectionFailures := deprotectionFailures spec |}.
Definition with_failures (spec : ssl3CipherSpec) (n : Z) : ssl3CipherSpec :=
  {| cipherDef := cipherDef spec; mac_null := mac_null spec; mac_size := mac_size spec; macKey := macKey spec; cipherContext := cipherContext spec;
     key_iv := key_iv spec; version := version spec; recordVersion := recordVersion spec; epoch := epoch spec; nextSeqNum := nextSeqNum spec;
     recordSizeLimit := recordSizeLimit spec; earlyDataRemaining := earlyDataRemaining spec; deprotectionFailures := n |}.

(** The buffer and *needsLength. *)
Definition dtls13_InsertCipherTextHeader (ss : sslSocket) (cwSpec : ssl3CipherSpec) (wrBuf : sslBuffer) : sec_res (sslBuffer * bool) :=
  if enableDtlsShortHeader ss && (epoch cwSpec >? TrafficKeyHandshake) then
    wrBuf ← sslBuffer_AppendNumber wrBuf (u8 (Z.lor UNIFIED_HEADER_SHORT (Z.land (epoch cwSpec) MASK_TWO_LOW_BITS))) 1;
    wrBuf ← sslBuffer_AppendNumber wrBuf (u8 (Z.land (nextSeqNum cwSpec) MASK_SEQUENCE_NUMBER_SHORT)) 1;
    Ok (wrBuf, false)
  else
    wrBuf ← sslBuffer_AppendNumber wrBuf (u8 (Z.lor UNIFIED_HEADER_LONG (Z.land (u8 (epoch cwSpec)) MASK_TWO_LOW_BITS))) 1;
    wrBuf ← sslBuffer_AppendNumber wrBuf (u16 (Z.land (nextSeqNum cwSpec) MASK_SEQUENCE_NUMBER_LONG)) 2;
    Ok (wrBuf, true).

Definition ssl_InsertRecordHeader (ss : sslSocket) (cwSpec : ssl3CipherSpec) (contentType : Z) (wrBuf : sslBuffer) : sec_res (sslBuffer * bool) :=
  let is13 := (version cwSpec >=? SSL_LIBRARY_VERSION_TLS_1_3) && (epoch cwSpec >? TrafficKeyClearText) in
  if is13 && IS_DTLS ss then dtls13_InsertCipherTextHeader ss cwSpec wrBuf else
  let contentType := if is13 then ssl_ct_application_data else contentType in
  wrBuf ← sslBuffer_AppendNumber wrBuf contentType 1;
  wrBuf ← sslBuffer_AppendNumber wrBuf (recordVersion cwSpec) 2;
  wrBuf ← (if IS_DTLS ss then
             wrBuf ← sslBuffer_AppendNumber wrBuf (epoch cwSpec) 2;
             sslBuffer_AppendNumber wrBuf (nextSeqNum cwSpec) 6
           else Ok wrBuf);
  Ok (wrBuf, true).

(** The record number followed by the header. *)
Definition tls13_FormatAdditionalData (ss : sslSocket) (header : list Z) (epoch seqNum maxLength : Z) : sec_res (list Z) :=
  let buf := SSL_BUFFER_FIXED (replicate (Z.to_nat maxLength) 0) maxLength in
  buf ← (if IS_DTLS_1_OR_12 ss then sslBuffer_AppendNumber buf epoch 2 else Ok buf);
  buf ← sslBuffer_AppendNumber buf seqNum (if IS_DTLS_1_OR_12 ss then 6 else 8);
  buf ← sslBuffer_Append buf header (length header);
  Ok (contents buf).

(** What may be sent, and the early data that remains. *)
Definition tls13_LimitEarlyData (ss : sslSocket) (cwSpec : ssl3CipherSpec) (toSend : Z) : Z * ssl3CipherSpec :=
  if negb (epoch cwSpec =? TrafficKeyEarlyApplicationData) then (toSend, cwSpec) else
  if IS_DTLS ss && (u32 toSend >? earlyDataRemaining cwSpec) then (0, cwSpec) else
  let reduced := swrap 32 (if u32 toSend <? earlyDataRemaining cwSpec then toSend else earlyDataRemaining cwSpec) in
  (reduced, with_early cwSpec (u32 (earlyDataRemaining cwSpec - reduced))).

(** [stack] is what the array ivOut holds before. *)
Definition tls13_ProtectRecord (ss : sslSocket) (cwSpec : ssl3CipherSpec) (type : Z) (pIn : list Z) (wrBuf : sslBuffer) (stack : list Z)
    : rec_res (sslBuffer * cctx) :=
  let contentLen := Z.of_nat (length pIn) in
  let tagLen := tag_size (cipherDef cwSpec) in
  if u32 (contentLen + 1 + tagLen) >? SSL_BUFFER_SPACE wrBuf then Err (Sec SEC_ERROR_LIBRARY_FAILURE) else
  wrBuf ← store_next wrBuf 0 pIn;
  if cd_null (cipherDef cwSpec) then wrBuf ← skip_next wrBuf contentLen; Ok (wrBuf, cipherContext cwSpec) else
  let ivLen := iv_total cwSpec in
  wrBuf ← store_next wrBuf contentLen [u8 type];
  '(buf, needsLength) ← sec (ssl_InsertRecordHeader ss cwSpec ssl_ct_application_data pseudo_header_buf);
  buf ← (if needsLength : bool then sec (sslBuffer_AppendNumber buf (u32 (contentLen + 1 + tagLen)) 2) else Ok buf);
  aad ← sec (tls13_FormatAdditionalData ss (contents buf) (epoch cwSpec) (nextSeqNum cwSpec) 21);
  '(ivOut, ivOffset) ← tls13_SetupAeadIv (IS_DTLS ss) (version cwSpec) stack (key_iv cwSpec) (u32 (ivLen - 8)) ivLen (epoch cwSpec);
  inp ← read_next wrBuf 0 (contentLen + 1);
  '(r, c) ← tls13_AEAD (cipherContext cwSpec) false CKG_GENERATE_COUNTER_XOR (ivOffset * 8) ivOut ivLen [] (drop 8 aad)
              (SSL_BUFFER_SPACE wrBuf) tagLen inp;
  match r with
  | None => Err SSL_ERROR_ENCRYPTION_FAILURE
  | Some (_, out) =>
      wrBuf ← store_next wrBuf 0 out;
      wrBuf ← skip_next wrBuf (length out);
      Ok (wrBuf, c)
  end.

(** The mask over the header at the start of the buffer. *)
Definition mask_header (version : Z) (maskContext : option SSLMaskingContext) (wrBuf : sslBuffer) (start : Z) : rec_res sslBuffer :=
  cipherText ← mem_read (storage wrBuf) (Z.to_nat start) (Z.to_nat (u32 (len wrBuf - start)));
  hdr ← dtls13_MaskSequenceNumber version maskContext (storage wrBuf) cipherText;
  Ok (mk_sslBuffer (Some hdr) (len wrBuf) (space wrBuf) (fixed wrBuf)).

Definition ssl_ProtectRecord (ss : sslSocket) (cwSpec : ssl3CipherSpec) (maskContext : option SSLMaskingContext) (ct : Z) (pIn : list Z)
    (wrBuf : sslBuffer) (PK11_GenerateRandom : Z → option (list Z)) (stack : list Z) : rec_res (sslBuffer * ssl3CipherSpec) :=
  if nextSeqNum cwSpec >=? max_records (cipherDef cwSpec) then Err SSL_ERROR_TOO_MANY_RECORDS else
  '(wrBuf, needsLength) ← sec (ssl_InsertRecordHeader ss cwSpec ct wrBuf);
  '(wrBuf, lenOffset) ← (if needsLength : bool then sec (sslBuffer_Skip wrBuf 2) else Ok (wrBuf, 0));
  '(wrBuf, c) ← (if version cwSpec >=? SSL_LIBRARY_VERSION_TLS_1_3 then
                   let bufLen := len wrBuf in
                   '(wrBuf, c) ← tls13_ProtectRecord ss cwSpec ct pIn wrBuf stack;
                   wrBuf ← (if IS_DTLS ss then mask_header (version cwSpec) maskContext wrBuf bufLen else Ok wrBuf);
                   Ok (wrBuf, c)
                 else ssl3_MACEncryptRecord cwSpec (IS_DTLS ss) ct pIn wrBuf PK11_GenerateRandom stack);
  wrBuf ← (if needsLength : bool then sec (sslBuffer_InsertLength wrBuf lenOffset 2) else Ok wrBuf);
  Ok (wrBuf, with_seq (with_ctx cwSpec c) (u64 (nextSeqNum cwSpec + 1))).

(** The buffer, the spec and the number of octets written. *)
Definition ssl_ProtectNextRecord (ss : sslSocket) (spec : ssl3CipherSpec) (maskContext : option SSLMaskingContext) (ct : Z) (pIn : list Z)
    (wrBuf : sslBuffer) (PK11_GenerateRandom : Z → option (list Z)) (stack : list Z) : rec_res (sslBuffer * ssl3CipherSpec * Z) :=
  let contentLen := Z.min (length pIn) (recordSizeLimit spec) in
  let spaceNeeded := u32 (contentLen + SSL3_BUFFER_FUDGE) in
  let spaceNeeded := if (version spec >=? SSL_LIBRARY_VERSION_TLS_1_1) && bool_decide (cd_type (cipherDef spec) = type_block)
                     then u32 (spaceNeeded + iv_size (cipherDef spec)) else spaceNeeded in
  wrBuf ← (if spaceNeeded >? SSL_BUFFER_SPACE wrBuf then sec (sslBuffer_Grow wrBuf spaceNeeded) else Ok wrBuf);
  '(wrBuf, spec) ← ssl_ProtectRecord ss spec maskContext ct (take (Z.to_nat contentLen) pIn) wrBuf PK11_GenerateRandom stack;
  Ok (wrBuf, spec, contentLen).

(** ** Reading records *)

(** [while (plaintext->len > 0 && !(plaintext->buf[plaintext->len - 1])) --plaintext->len;] *)
Fixpoint strip_zeros (rev : list Z) : list Z :=
  match rev with
  | 0 :: rev => strip_zeros rev
  | _ => rev
  end.

(** Behind the AEAD: the type, the checks and the early data that remains. *)
Definition open_inner (ss : sslSocket) (spec : ssl3CipherSpec) (cText : SSL3Ciphertext) (plaintext : sslBuffer)
    : ssl3CipherSpec * alert_res (sslBuffer * Z) :=
  if len plaintext >? u32 (recordSizeLimit spec + 1) then (spec, Err (record_overflow, SSL_ERROR_RX_RECORD_TOO_LONG)) else
  match strip_zeros (rev (contents plaintext)) with
  | [] => (spec, Err (unexpected_message, SSL_ERROR_BAD_BLOCK_PADDING))
  | innerType :: content =>
      let plaintext := set_len plaintext (length content) in
      let empty := (len plaintext =? 0) &&
        (negb (IS_DTLS ss) && ((hdr cText !!! 0%nat) =? ssl_ct_application_data) ||
         IS_DTLS ss && dtls_IsDtls13Ciphertext (version spec) (hdr cText !!! 0%nat)) in
      if empty && (innerType =? ssl_ct_alert) then (spec, Err (unexpected_message, SSL_ERROR_RX_MALFORMED_ALERT)) else
      if empty && (innerType =? ssl_ct_handshake) then (spec, Err (unexpected_message, SSL_ERROR_RX_MALFORMED_HANDSHAKE)) else
      if (epoch spec =? TrafficKeyEarlyApplicationData) && (innerType =? ssl_ct_application_data) then
        if len plaintext >? earlyDataRemaining spec then (spec, Err (unexpected_message, SSL_ERROR_TOO_MUCH_EARLY_DATA)) else
        (with_early spec (u32 (earlyDataRemaining spec - len plaintext)), Ok (plaintext, innerType))
      else (spec, Ok (plaintext, innerType))
  end.

(** The spec, and the plaintext with its type or the alert. *)
Definition tls13_UnprotectRecord (ss : sslSocket) (spec : ssl3CipherSpec) (cText : SSL3Ciphertext) (plaintext : sslBuffer)
    : ssl3CipherSpec * alert_res (sslBuffer * Z) :=
  let ivLen := iv_total spec in
  let tagLen := tag_size (cipherDef spec) in
  let clen := Z.of_nat (length (ct_buf cText)) in
  let h := hdr cText in
  if (length h <? (if IS_DTLS ss then 1 else 3))%nat then (spec, UB) else
  if negb (((h !!! 0%nat) =? ssl_ct_application_data) ||
           IS_DTLS ss && (ss_version ss >=? SSL_LIBRARY_VERSION_TLS_1_3) && (Z.land (h !!! 0%nat) 0xe0 =? 0x20))
  then (spec, Err (unexpected_message, SSL_ERROR_RX_UNEXPECTED_RECORD_TYPE)) else
  if clen <? tagLen then (spec, Err (bad_record_mac, SSL_ERROR_BAD_MAC_READ)) else
  if clen >? u32 (recordSizeLimit spec + 1 + tagLen) then (spec, Err (record_overflow, SSL_ERROR_RX_RECORD_TOO_LONG)) else
  if negb (IS_DTLS ss) && negb (Z.lor (Z.shiftl (h !!! 1%nat) 8) (h !!! 2%nat) =? recordVersion spec)
  then (spec, Err (bad_record_mac, error_not_set)) else
  match tls13_FormatAdditionalData ss h (epoch spec) (seqNum cText) 21 with
  | UB => (spec, UB)
  | Err e => (spec, Err (bad_record_mac, Sec e))
  | Ok aad =>
      match tls13_AEAD (cipherContext spec) true CKG_NO_GENERATE 0 (key_iv spec) ivLen (take 8 aad) (drop 8 aad) (space plaintext) tagLen (ct_buf cText) with
      | UB => (spec, UB)
      | Err e => (spec, Err (bad_record_mac, e))
      | Ok (None, c) =>
          let spec := with_ctx spec c in
          (if IS_DTLS ss then with_failures spec (u64 (deprotectionFailures spec + 1)) else spec, Err (bad_record_mac, SSL_ERROR_BAD_MAC_READ))
      | Ok (Some (_, out), c) =>
          let spec := with_ctx spec c in
          match set_plaintext plaintext out with
          | Ok plaintext => open_inner ss spec cText plaintext
          | _ => (spec, UB)
          end
      end
  end.
End Record13.

(** ** Headers and additional data *)

(** Octets appended within the room there is. *)
Record extends `{NSPRHeap} (b : sslBuffer) (src : list Z) (b' : sslBuffer) : Prop := {
  ext_wf : wf b';
  ext_contents : contents b' = contents b ++ src;
  ext_space : space b' = space b;
  ext_len : len b' = len b + length src;
  ext_buf : is_Some (buf b');
}.

(** The header of a protected record, before its length field. *)
Definition short_header `{RecordCrypto} (ss : sslSocket) (spec : ssl3CipherSpec) : bool :=
  IS_DTLS ss && enableDtlsShortHeader ss && (epoch spec >? TrafficKeyHandshake).
Definition header13 `{RecordCrypto} (ss : sslSocket) (spec : ssl3CipherSpec) : list Z :=
  if IS_DTLS ss then
    if short_header ss spec then [0x20 + epoch spec mod 4; nextSeqNum spec mod 256]
    else [0x2c + epoch spec mod 4] ++ be_bytes 2 (nextSeqNum spec)
  else [ssl_ct_application_data] ++ be_bytes 2 (recordVersion spec).
Definition length_field `{RecordCrypto} (ss : sslSocket) (spec : ssl3CipherSpec) (n : Z) : list Z :=
  if short_header ss spec then [] else be_bytes 2 n.

Lemma bytes_check l : forallb (λ b, (0 <=? b) && (b <? 256)) l = true → bytes l.
Proof. rewrite forallb_forall. intros E. apply Forall_forall. intros b Hb. apply list_elem_of_In, E, andb_true_iff in Hb. unfold is_byte. lia. Qed.

Section Headers.
  Context `{heap : NSPRHeap} `{rc : RecordCrypto}.

Lemma Grow_room b n : n ≤ space b → sslBuffer_Grow b n = Ok b.
Proof. intros Hn. unfold sslBuffer_Grow. rewrite Z.gtb_ltb, (proj2 (Z.ltb_ge _ _)) by lia. by destruct (fixed b). Qed.

Lemma store_extends b src : wf b → bytes src → src ≠ [] → len b + length src ≤ space b →
  ∃ b', (b ← sslBuffer_Grow b (u32 (len b + length src)); b ← buffer_store b (len b) src; Ok (set_len b (len b + length src))) = Ok b' ∧ extends b src b'.
Proof.
  intros Hwf Hb Hne Hr. pose proof (wf_len _ Hwf) as Hl. pose proof (wf_space _ Hwf) as Hsp.
  rewrite wrap_small, Grow_room by lia. cbn [mbind res_bind].
  destruct (buffer_store_next b src Hwf Hb Hne Hr) as (b1 & E & L1 & S1 & F1 & W1 & C1). rewrite E. cbn [mbind res_bind]. rewrite L1.
  eexists. split; [done|]. constructor; try done; [cbn; by rewrite wrap_small by lia|].
  unfold buffer_store in E. destruct (buf b); [|discriminate]. apply bind_Ok in E as (m & _ & [= <-]). by eexists.
Qed.

Lemma AppendNumber_room b v size : wf b → 0 < size ≤ 8 → len b + size ≤ space b →
  ∃ b', sslBuffer_AppendNumber b v size = Ok b' ∧ extends b (be_bytes (Z.to_nat size) v) b'.
Proof.
  intros Hwf Hs Hr. pose proof (length_be_bytes (Z.to_nat size) v) as Le.
  destruct (store_extends b (be_bytes (Z.to_nat size) v) Hwf (be_bytes_bytes _ _) (be_bytes_not_nil (Z.to_nat size) v ltac:(lia)) ltac:(lia)) as (b' & E & X).
  exists b'. split; [|done]. rewrite Le, Z2Nat.id in E by lia. unfold sslBuffer_AppendNumber. rewrite ssl_EncodeUintX_be by lia. exact E.
Qed.

Lemma Append_room b src : wf b → bytes src → src ≠ [] → len b + length src ≤ space b →
  ∃ b', sslBuffer_Append b src (length src) = Ok b' ∧ extends b src b'.
Proof.
  intros Hwf Hb Hne Hr. destruct (store_extends b src Hwf Hb Hne Hr) as (b' & E & X). exists b'. split; [|done].
  unfold sslBuffer_Append. assert (0 < length src)%nat by (destruct src; [done|cbn; lia]). rewrite (proj2 (Z.ltb_lt _ _)) by lia.
  rewrite mem_read_all. exact E.
Qed.

Lemma extends_trans b1 x b2 y b3 : extends b1 x b2 → extends b2 y b3 → extends b1 (x ++ y) b3.
Proof.
  intros [W2 C2 S2 L2 B2] [W3 C3 S3 L3 B3]. constructor; [done|by rewrite C3, C2, app_assoc|congruence|rewrite length_app; lia|done].
Qed.

(** Two numbers in a row. *)
Lemma AppendNumber_2 b v1 n1 v2 n2 : wf b → 0 < n1 ≤ 8 → 0 < n2 ≤ 8 → len b + n1 + n2 ≤ space b →
  ∃ b', (b ← sslBuffer_AppendNumber b v1 n1; sslBuffer_AppendNumber b v2 n2) = Ok b' ∧
    extends b (be_bytes (Z.to_nat n1) v1 ++ be_bytes (Z.to_nat n2) v2) b'.
Proof.
  intros Hwf H1 H2 Hr. destruct (AppendNumber_room b v1 n1 Hwf H1 ltac:(lia)) as (b1 & E1 & X1). rewrite E1. cbn [mbind res_bind].
  pose proof X1 as [W1 _ S1 L1 _]. rewrite length_be_bytes in L1.
  destruct (AppendNumber_room b1 v2 n2 W1 H2 ltac:(lia)) as (b2 & E2 & X2). exists b2. split; [done|]. by apply (extends_trans _ _ b1).
Qed.

(** The bits of a unified header. *)
Lemma unified_bits base e : base = 0x20 ∨ base = 0x2c → u8 (Z.lor base (Z.land e MASK_TWO_LOW_BITS)) = base + e mod 4.
Proof.
  intros Hb. unfold MASK_TWO_LOW_BITS. change 3 with (2 ^ 2 - 1). rewrite land_ones_mod by lia. change (2 ^ 2) with 4.
  pose proof (Z.mod_pos_bound e 4 ltac:(lia)) as Hr. remember (e mod 4) as r eqn:Er. clear Er e.
  assert (r = 0 ∨ r = 1 ∨ r = 2 ∨ r = 3) as [-> | [-> | [-> | ->]]] by lia; destruct Hb as [-> | ->]; reflexivity.
Qed.

Lemma InsertRecordHeader_spec ss spec ct b : SSL_LIBRARY_VERSION_TLS_1_3 ≤ version spec → 0 < epoch spec → wf b → len b + 3 ≤ space b →
  ∃ b', ssl_InsertRecordHeader ss spec ct b = Ok (b', negb (short_header ss spec)) ∧ extends b (header13 ss spec) b'.
Proof.
  intros Hv He Hwf Hr. unfold ssl_InsertRecordHeader, header13, short_header, TrafficKeyClearText.
  rewrite Z.geb_leb, (proj2 (Z.leb_le _ _)), Z.gtb_ltb, (proj2 (Z.ltb_lt _ _)) by lia. cbn [andb]. destruct (IS_DTLS ss); cbn [andb].
  - unfold dtls13_InsertCipherTextHeader. destruct (enableDtlsShortHeader ss && (epoch spec >? TrafficKeyHandshake)); cbn [negb].
    + destruct (AppendNumber_2 b (u8 (Z.lor UNIFIED_HEADER_SHORT (Z.land (epoch spec) MASK_TWO_LOW_BITS))) 1
        (u8 (Z.land (nextSeqNum spec) MASK_SEQUENCE_NUMBER_SHORT)) 1 Hwf) as (b' & E & X); [lia..|].
      exists b'. split.
      * destruct (sslBuffer_AppendNumber b _ 1) as [b1| |]; [|discriminate E..]. cbn [mbind res_bind] in E |- *. by rewrite E.
      * unfold UNIFIED_HEADER_SHORT in X. rewrite unified_bits in X by tauto. change (be_bytes (Z.to_nat 1)) with (λ v : Z, [v mod 256]) in X. cbn beta in X.
        pose proof (Z.mod_pos_bound (epoch spec) 4 ltac:(lia)) as Hm. rewrite (Z.mod_small (0x20 + _)) in X by lia.
        unfold wrap, MASK_SEQUENCE_NUMBER_SHORT in X. change 0xff with (2 ^ 8 - 1) in X. rewrite land_ones_mod in X by lia.
        change (2 ^ 8) with 256 in X. by rewrite !Z.mod_mod in X by lia.
    + destruct (AppendNumber_2 b (u8 (Z.lor UNIFIED_HEADER_LONG (Z.land (u8 (epoch spec)) MASK_TWO_LOW_BITS))) 1
        (u16 (Z.land (nextSeqNum spec) MASK_SEQUENCE_NUMBER_LONG)) 2 Hwf) as (b' & E & X); [lia..|].
      exists b'. split.
      * destruct (sslBuffer_AppendNumber b _ 1) as [b1| |]; [|discriminate E..]. cbn [mbind res_bind] in E |- *. by rewrite E.
      * unfold UNIFIED_HEADER_LONG in X. rewrite unified_bits in X by tauto.
        assert (Em : u8 (epoch spec) mod 4 = epoch spec mod 4) by (unfold wrap; change (2 ^ 8) with 256; Z.to_euclidean_division_equations; lia).
        rewrite Em in X. pose proof (Z.mod_pos_bound (epoch spec) 4 ltac:(lia)) as Hm. unfold wrap, MASK_SEQUENCE_NUMBER_LONG in X. change 0xffff with (2 ^ 16 - 1) in X.
        rewrite land_ones_mod, Z.mod_mod in X by lia. change (Z.to_nat 1) with 1%nat in X. change (Z.to_nat 2) with 2%nat in X.
        change (be_bytes 1 (0x2c + epoch spec mod 4)) with [(0x2c + epoch spec mod 4) mod 256] in X. rewrite Z.mod_small in X by lia.
        assert (Eb : be_bytes 2 (nextSeqNum spec mod 2 ^ 16) = be_bytes 2 (nextSeqNum spec)).
        { cbn [be_bytes app]. change (2 ^ 16) with 65536. assert (Hx : ∀ n, n mod 65536 / 256 mod 256 = n / 256 mod 256) by (intros n; Z.to_euclidean_division_equations; lia).
          assert (Hy : ∀ n, n mod 65536 mod 256 = n mod 256) by (intros n; Z.to_euclidean_division_equations; lia). by rewrite Hx, Hy. }
        by rewrite Eb in X.
  - destruct (AppendNumber_2 b ssl_ct_application_data 1 (recordVersion spec) 2 Hwf) as (b' & E & X); [lia..|].
    exists b'. split; [|exact X]. destruct (sslBuffer_AppendNumber b _ 1) as [b1| |]; [|discriminate E..]. cbn [mbind res_bind] in E |- *. by rewrite E.
Qed.

Lemma header13_bytes ss spec : bytes (header13 ss spec) ∧ (0 < length (header13 ss spec) ≤ 3)%nat.
Proof.
  unfold header13. pose proof (Z.mod_pos_bound (epoch spec) 4 ltac:(lia)). pose proof (Z.mod_pos_bound (nextSeqNum spec) 256 ltac:(lia)).
  destruct (IS_DTLS ss); [destruct (short_header ss spec)|].
  - split; [|cbn; lia]. repeat constructor; lia.
  - split; [|rewrite length_app, length_be_bytes; cbn; lia]. apply Forall_app. split; [repeat constructor; lia|apply be_bytes_bytes].
  - split; [|rewrite length_app, length_be_bytes; cbn; lia]. apply Forall_app. split; [repeat constructor; unfold ssl_ct_application_data; lia|apply be_bytes_bytes].
Qed.

Lemma FormatAdditionalData_spec ss header ep seq : IS_DTLS_1_OR_12 ss = false → bytes header → (0 < length header ≤ 13)%nat →
  tls13_FormatAdditionalData ss header ep seq 21 = Ok (be_bytes 8 seq ++ header).
Proof.
  intros Hd Hb Hl. unfold tls13_FormatAdditionalData. rewrite Hd. cbn [mbind res_bind].
  set (b0 := SSL_BUFFER_FIXED _ _).
  assert (W0 : wf b0) by (apply SSL_BUFFER_FIXED_wf; [apply Forall_replicate; unfold is_byte; lia|done|done]).
  destruct (AppendNumber_room b0 seq 8 W0) as (b1 & -> & X1); [lia|cbn; lia|]. cbn [mbind res_bind]. pose proof X1 as [W1 _ S1 L1 _].
  rewrite length_be_bytes in L1. change (len b0) with 0 in L1. change (space b0) with 21 in S1.
  destruct (Append_room b1 header W1 Hb) as (b2 & -> & X2); [by destruct header; [cbn in Hl; lia|]|lia|]. cbn [mbind res_bind].
  by rewrite (ext_contents _ _ _ (extends_trans _ _ _ _ _ X1 X2)).
Qed.
End Headers.

(** ** Records sent *)

Section Send13.
  Context `{heap : NSPRHeap} `{rc : RecordCrypto} (tl : Z) `{laws : !AeadLaws tl}.

(** A spec of TLS 1.3 behind the first epoch. *)
Record spec13 (spec : ssl3CipherSpec) : Prop := {
  s13_cipher : cd_null (cipherDef spec) = false;
  s13_version : SSL_LIBRARY_VERSION_TLS_1_3 ≤ version spec;
  s13_epoch : 0 < epoch spec < 2 ^ 16;
  s13_iv : 8 ≤ iv_total spec ≤ MAX_IV_LENGTH;
  s13_tag : tag_size (cipherDef spec) = tl ∧ 15 ≤ tl ≤ 64;
  s13_key : iv_total spec ≤ length (key_iv spec) ∧ bytes (key_iv spec);
}.

(** The spec with its IV in one part, that [RecordAead] speaks of. *)
Definition flat (spec : ssl3CipherSpec) : ssl3CipherSpec :=
  {| cipherDef := {| cd_type := type_aead; cd_null := cd_null (cipherDef spec); iv_size := iv_total spec; block_size := block_size (cipherDef spec);
                     tag_size := tag_size (cipherDef spec); explicit_nonce_size := 0; max_records := max_records (cipherDef spec) |};
     mac_null := mac_null spec; mac_size := mac_size spec; macKey := macKey spec; cipherContext := cipherContext spec;
     key_iv := key_iv spec; version := version spec; recordVersion := recordVersion spec; epoch := epoch spec; nextSeqNum := nextSeqNum spec;
     recordSizeLimit := recordSizeLimit spec; earlyDataRemaining := earlyDataRemaining spec; deprotectionFailures := deprotectionFailures spec |}.

(** The IV of record [n]. *)
Definition iv13 (spec : ssl3CipherSpec) (n : Z) : list Z := spec_iv (flat spec) false n.

(** The writing context has IVs for [n] more records. *)
Definition ready13 (spec : ssl3CipherSpec) (c : cctx) (n : nat) : Prop :=
  aead_ready c CKG_GENERATE_COUNTER_XOR (8 * (iv_total spec - 8)) (iv_total spec) n.

Lemma not_before_13 isDTLS spec : spec13 spec → isDTLS && (version spec <? SSL_LIBRARY_VERSION_TLS_1_3) = false.
Proof. intros Hs. pose proof (s13_version _ Hs). rewrite (proj2 (Z.ltb_ge _ _)) by lia. apply andb_false_r. Qed.

Lemma flat_spec spec : spec13 spec → aead_spec tl (flat spec) ∧ (∀ isDTLS n, spec_iv (flat spec) isDTLS n = iv13 spec n) ∧
  ∀ isDTLS, spec_fixed (flat spec) isDTLS = 8 * (iv_total spec - 8).
Proof.
  intros Hs. pose proof Hs as [_ Hv _ Hi Ht Hk]. split; [|split].
  - constructor; [done| |by left; split|split; [tauto|lia]|done]. change (version (flat spec)) with (version spec).
    unfold SSL_LIBRARY_VERSION_3_0, SSL_LIBRARY_VERSION_TLS_1_3 in *. lia.
  - intros isDTLS n. unfold iv13, spec_iv, record_iv, seq_octets. change (version (flat spec)) with (version spec). by rewrite !not_before_13.
  - intros isDTLS. unfold spec_fixed. change (version (flat spec)) with (version spec). rewrite not_before_13 by done.
    change (explicit (flat spec)) with false. change (iv_size (cipherDef (flat spec))) with (iv_total spec). cbv iota. lia.
Qed.

Lemma record13_seals ss spec d stack header x maxout n : spec13 spec → aead_sync (cipherContext spec) d →
  ready13 spec (cipherContext spec) (S n) → (24 ≤ length stack)%nat → bytes stack → bytes x → length x + tl ≤ maxout < 2 ^ 31 →
  let iv := iv13 spec (aead_counter (cipherContext spec)) in
  ∃ ivOut ivOffset out tag c', tls13_SetupAeadIv (IS_DTLS ss) (version spec) stack (key_iv spec) (u32 (iv_total spec - 8)) (iv_total spec) (epoch spec) = Ok (ivOut, ivOffset) ∧
    tls13_AEAD (cipherContext spec) false CKG_GENERATE_COUNTER_XOR (ivOffset * 8) ivOut (iv_total spec) [] header maxout tl x = Ok (Some (iv, out ++ tag), c') ∧
    length out = length x ∧ Z.of_nat (length tag) = tl ∧ bytes out ∧ bytes tag ∧
    aead_counter c' = aead_counter (cipherContext spec) + 1 ∧ aead_sync c' d ∧ ready13 spec c' n ∧
    ∀ max', length x ≤ max' → PK11_AEADOp_decrypt d iv header max' tag out = (Some x, d).
Proof.
  intros Hs Hsy Hr Lst Bst Hb Hm iv. destruct (flat_spec spec Hs) as (Hf & Hiv & Hfix).
  assert (Et : iv_total (flat spec) = iv_total spec) by apply Z.add_0_r.
  destruct (record_seals tl (flat spec) (cipherContext spec) d (IS_DTLS ss) stack header x maxout n) as (out & tag & c' & E & L1 & L2 & B1 & B2 & Hc & Hs' & Hr' & Hd);
    try done; [by rewrite Hfix, Et|]. rewrite Hiv in E, Hd. rewrite Hfix, Et in Hr'. rewrite Et in E.
  change (spec_gen (flat spec)) with CKG_GENERATE_COUNTER_XOR in *. cbn [flat cipherDef explicit_nonce_size iv_size version key_iv epoch Z.eqb] in E.
  destruct (tls13_SetupAeadIv _ _ _ _ _ _ _) as [[ivOut ivOffset]| |]; [|discriminate E..]. cbn [mbind res_bind] in E.
  exists ivOut, ivOffset, out, tag, c'. by split_and!.
Qed.

(** What is authenticated besides: the header with the length. *)
Definition aad13 (ss : sslSocket) (spec : ssl3CipherSpec) (n : Z) : list Z := header13 ss spec ++ length_field ss spec n.

Lemma aad13_bytes ss spec n : bytes (aad13 ss spec n) ∧ (0 < length (aad13 ss spec n) ≤ 13)%nat.
Proof.
  destruct (header13_bytes ss spec) as [B L]. unfold aad13, length_field. rewrite length_app, Forall_app.
  destruct (short_header ss spec); [|rewrite length_be_bytes]; (split; [split; [done|]|]); first [apply be_bytes_bytes | by constructor | cbn; lia | lia].
Qed.

Lemma record_aad ss spec n : SSL_LIBRARY_VERSION_TLS_1_3 ≤ version spec → 0 < epoch spec → IS_DTLS_1_OR_12 ss = false →
  ('(buf, needsLength) ← sec (ssl_InsertRecordHeader ss spec ssl_ct_application_data pseudo_header_buf);
   buf ← (if needsLength : bool then sec (sslBuffer_AppendNumber buf n 2) else Ok buf);
   sec (tls13_FormatAdditionalData ss (contents buf) (epoch spec) (nextSeqNum spec) 21)) = Ok (be_bytes 8 (nextSeqNum spec) ++ aad13 ss spec n).
Proof.
  intros Hv He Hd. destruct pseudo_header_room as (W0 & _ & _).
  destruct (InsertRecordHeader_spec ss spec ssl_ct_application_data pseudo_header_buf Hv He W0) as (b & -> & X); [cbn; lia|].
  cbn [sec mbind res_bind]. destruct (header13_bytes ss spec) as [_ Lh]. pose proof X as [W C S L _]. change (len pseudo_header_buf) with 0 in L.
  change (space pseudo_header_buf) with 13 in S. destruct (aad13_bytes ss spec n) as [Ba La]. unfold aad13, length_field in *.
  destruct (short_header ss spec); cbn [negb].
  - cbn [mbind res_bind]. rewrite C. change (contents pseudo_header_buf) with (@nil Z). rewrite app_nil_r in *. cbn [app]. by rewrite FormatAdditionalData_spec.
  - destruct (AppendNumber_room b n 2 W ltac:(lia) ltac:(lia)) as (b' & -> & X'). cbn [sec mbind res_bind].
    rewrite (ext_contents _ _ _ (extends_trans _ _ _ _ _ X X')). change (contents pseudo_header_buf) with (@nil Z). cbn [app].
    by rewrite FormatAdditionalData_spec.
Qed.

(** The content and its type, in the place of the record. *)
Lemma put_inner b pIn type : wf b → is_Some (buf b) → bytes pIn → 0 ≤ type < 256 → len b + length pIn + 1 ≤ space b →
  ∃ b', (wrBuf ← store_next b 0 pIn; store_next wrBuf (length pIn) [u8 type]) = Ok b' ∧ kept b b' ∧
    read_next b' 0 (length pIn + 1) = Ok (pIn ++ [type]).
Proof.
  intros Wb Bb Hb Ht Hr. pose proof (room_behind b (length pIn + 1) Wb ltac:(lia)) as Hrb.
  destruct (store_next_spec b 0 pIn Wb Bb Hb ltac:(lia) ltac:(lia)) as (b1 & -> & K1 & N1). cbn [mbind res_bind].
  pose proof K1 as [W1 Bf1 L1 S1 C1 LB1]. rewrite wrap_small by lia.
  destruct (store_next_spec b1 (length pIn) [type] W1 Bf1) as (b2 & E2 & K2 & N2);
    [by apply Forall_singleton|lia|cbn [length]; lia|]. exists b2. split; [done|]. split; [by apply (kept_trans _ b1)|].
  pose proof K2 as [W2 _ _ _ _ LB2]. rewrite read_next_spec by (done || lia). change (Z.to_nat 0) with 0%nat. rewrite drop_0, N2, N1.
  rewrite Nat2Z.id. change (take (Z.to_nat 0) (behind b)) with (@nil Z). cbn [app]. rewrite take_app_length.
  f_equal. rewrite (cons_middle type), app_assoc. apply take_app_length'. rewrite length_app. cbn [length]. lia.
Qed.

Lemma ProtectRecord13_spec ss spec d type pIn b stack n : spec13 spec → IS_DTLS_1_OR_12 ss = false → aead_sync (cipherContext spec) d →
  ready13 spec (cipherContext spec) (S n) → (24 ≤ length stack)%nat → bytes stack → bytes pIn → 0 ≤ type < 256 →
  wf b → is_Some (buf b) → space b < 2 ^ 31 → len b + length pIn + 1 + tl ≤ space b →
  ∃ b' c' out tag, tls13_ProtectRecord ss spec type pIn b stack = Ok (b', c') ∧ wf b' ∧ contents b' = contents b ++ out ++ tag ∧
    length out = S (length pIn) ∧ Z.of_nat (length tag) = tl ∧ bytes (out ++ tag) ∧
    aead_counter c' = aead_counter (cipherContext spec) + 1 ∧ aead_sync c' d ∧ ready13 spec c' n ∧
    ∀ max', length pIn + 1 ≤ max' →
      PK11_AEADOp_decrypt d (iv13 spec (aead_counter (cipherContext spec))) (aad13 ss spec (length pIn + 1 + tl)) max' tag out = (Some (pIn ++ [type]), d).
Proof.
  intros Hs Hd Hsy Hr Lst Bst Hb Ht Wb Bfb Hsp Hroom. pose proof Hs as [Hnull Hv He _ [Htag Htl] _]. pose proof (wf_len _ Wb) as Hl.
  destruct (put_inner b pIn type Wb Bfb Hb Ht ltac:(lia)) as (b1 & E1 & [W1 Bf1 L1 S1 C1 LB1] & R1).
  set (aad := aad13 ss spec (length pIn + 1 + tl)).
  destruct (record13_seals ss spec d stack aad (pIn ++ [type]) (space b - len b) n) as
    (ivOut & ivOffset & out & tag & c' & E2 & E3 & Lo & Lt & Bo & Bt & Hc & Hs' & Hr' & Hdec); try done.
  { apply Forall_app. split; [done|by apply Forall_singleton]. }
  { rewrite length_app. cbn [length]. lia. }
  rewrite length_app in Lo, Hdec. cbn [length] in Lo, Hdec.
  pose proof (room_behind b1 (length pIn + 1 + tl) W1 ltac:(lia)) as Hrb.
  destruct (store_next_spec b1 0 (out ++ tag) W1 Bf1) as (b2 & E4 & [W2 Bf2 L2 S2 C2 LB2] & N2); [by apply Forall_app|lia|rewrite length_app; lia|].
  destruct (skip_next_spec b2 (length (out ++ tag)) W2 Bf2) as (b3 & E5 & W3 & _ & _ & _ & C3 & _); [lia|rewrite length_app; lia|].
  exists b3, c', out, tag. split.
  - unfold tls13_ProtectRecord, SSL_BUFFER_SPACE. rewrite Htag, (wrap_small 32 (length pIn + 1 + tl)), (wrap_small 32 (space b - len b)) by lia.
    rewrite Z.gtb_ltb, (proj2 (Z.ltb_ge _ _)), Hnull by lia. destruct (store_next b 0 pIn) as [b0| |]; [|discriminate E1..].
    cbn [mbind res_bind] in E1 |- *. rewrite E1. cbn [mbind res_bind].
    pose proof (record_aad ss spec (length pIn + 1 + tl) Hv ltac:(lia) Hd) as Ea. destruct (sec (ssl_InsertRecordHeader _ _ _ _)) as [[hb nl]| |]; [|discriminate Ea..].
    cbn [mbind res_bind] in Ea |- *. destruct (if nl then _ else _) as [hb'| |]; [|discriminate Ea..]. cbn [mbind res_bind] in Ea |- *. rewrite Ea. cbn [mbind res_bind].
    rewrite E2. cbn [mbind res_bind]. rewrite R1. cbn [mbind res_bind]. rewrite drop_app_length' by by rewrite length_be_bytes. rewrite S1, L1. fold aad.
    rewrite (wrap_small 32 (space b - len b)) by lia. rewrite E3. cbn [mbind res_bind]. rewrite E4. cbn [mbind res_bind]. by rewrite E5.
  - split; [done|]. split; [|split; [lia|split; [done|split; [by apply Forall_app|split; [done|split; [done|split; [done|]]]]]]].
    + rewrite C3, C2, C1, N2, Nat2Z.id. change (take (Z.to_nat 0) (behind b1)) with (@nil Z). cbn [app]. by rewrite take_app_length.
    + intros max' Hmax. apply Hdec. lia.
Qed.
End Send13.

(** ** Records received *)

Lemma strip_zeros_app k a t : a ≠ 0 → strip_zeros (replicate k 0 ++ a :: t) = a :: t.
Proof. intros Ha. induction k as [|k IH]; [by destruct a|exact IH]. Qed.

Lemma strip_zeros_spec l : ∃ k, l = replicate k 0 ++ strip_zeros l ∧ ∀ a t, strip_zeros l = a :: t → a ≠ 0.
Proof.
  induction l as [|b l (k & E & H)]; [by exists O|]. destruct (decide (b = 0)) as [->|Hne].
  - exists (S k). split; [cbn; by rewrite <- E|exact H].
  - exists O. replace (strip_zeros (b :: l)) with (b :: l) by by destruct b. split; [done|]. by intros a t [= <- <-].
Qed.

(** An inner plaintext: the content, its type and padding. *)
Definition inner (content : list Z) (type : Z) (k : nat) : list Z := content ++ [type] ++ replicate k 0.

Lemma rev_inner content type k : rev (inner content type k) = replicate k 0 ++ type :: rev content.
Proof. unfold inner. rewrite !rev_app_distr. cbn [rev app]. rewrite <- app_assoc.
  rewrite rev_alt. change (rev_append (replicate k 0) []) with (reverse (replicate k 0)). by rewrite reverse_replicate.
Qed.

Section Receive13.
  Context `{heap : NSPRHeap} `{rc : RecordCrypto} (tl : Z).

(** The AEAD over a record. *)
Definition aead_open (r : ssl3CipherSpec) (cText : SSL3Ciphertext) (max : Z) : option (list Z) * cctx :=
  let n := (length (ct_buf cText) - Z.to_nat tl)%nat in
  PK11_AEADOp_decrypt (cipherContext r) (iv13 r (seqNum cText)) (hdr cText) max (drop n (ct_buf cText)) (take n (ct_buf cText)).

Definition outer_type_ok (ss : sslSocket) (h : list Z) : Prop :=
  h !!! 0%nat = ssl_ct_application_data ∨ IS_DTLS ss = true ∧ SSL_LIBRARY_VERSION_TLS_1_3 ≤ ss_version ss ∧ Z.land (h !!! 0%nat) 0xe0 = 0x20.

(** The records that are accepted, and as what. *)
Record accepts13 (ss : sslSocket) (r : ssl3CipherSpec) (cText : SSL3Ciphertext) (max : Z) (content : list Z) (type : Z) : Prop := {
  acc_outer : outer_type_ok ss (hdr cText);
  acc_length : tl ≤ length (ct_buf cText) ≤ recordSizeLimit r + 1 + tl;
  acc_version : IS_DTLS ss = false → rec_version cText = recordVersion r;
  acc_type : type ≠ 0;
  acc_opens : ∃ k, (aead_open r cText max).1 = Some (inner content type k) ∧ length content + k ≤ recordSizeLimit r;
  acc_empty : content = [] → IS_DTLS ss = false ∨ hdr cText !!! 0%nat ≠ ssl_ct_application_data → type ≠ ssl_ct_alert ∧ type ≠ ssl_ct_handshake;
  acc_early : epoch r = TrafficKeyEarlyApplicationData → type = ssl_ct_application_data → length content ≤ earlyDataRemaining r;
}.

(** The spec behind an accepted record. *)
Definition after13 (r : ssl3CipherSpec) (c : cctx) (content : list Z) (type : Z) : ssl3CipherSpec :=
  if (epoch r =? TrafficKeyEarlyApplicationData) && (type =? ssl_ct_application_data)
  then with_early (with_ctx r c) (earlyDataRemaining r - length content) else with_ctx r c.

Lemma inner_unique content type k content' type' k' : type ≠ 0 → type' ≠ 0 → inner content type k = inner content' type' k' →
  content = content' ∧ type = type' ∧ k = k'.
Proof.
  intros Ht Ht' E. pose proof (f_equal (@rev Z) E) as Er. rewrite !rev_inner in Er. pose proof (f_equal strip_zeros Er) as Es.
  rewrite !strip_zeros_app in Es by done. injection Es as -> Ec. apply (f_equal (@rev Z)) in Ec. rewrite !rev_involutive in Ec. subst content'.
  split; [done|]. split; [done|]. apply (f_equal length) in E. unfold inner in E. rewrite !length_app, !length_replicate in E. lia.
Qed.

(** Which records the check for empty ones applies to. *)
Lemma outer_empty ss r h : SSL_LIBRARY_VERSION_TLS_1_3 ≤ version r → outer_type_ok ss h →
  negb (IS_DTLS ss) && ((h !!! 0%nat) =? ssl_ct_application_data) || IS_DTLS ss && dtls_IsDtls13Ciphertext (version r) (h !!! 0%nat)
  = bool_decide (IS_DTLS ss = false ∨ h !!! 0%nat ≠ ssl_ct_application_data).
Proof.
  intros Hv Ho. unfold dtls_IsDtls13Ciphertext. rewrite Z.geb_leb, (proj2 (Z.leb_le _ _)), orb_true_r by lia.
  destruct (IS_DTLS ss) eqn:Ed; cbn [negb andb orb].
  - destruct Ho as [Ho|(_ & _ & Ho)].
    + rewrite Ho. rewrite bool_decide_eq_false_2; [done|]. intros [?|?]; done.
    + rewrite Ho, bool_decide_eq_true_2; [done|]. right. intros E. by rewrite E in Ho.
  - destruct Ho as [Ho|(? & _)]; [|congruence]. rewrite Ho, bool_decide_eq_true_2; [done|by left].
Qed.

Lemma open_inner_spec ss r cText p : wf p → SSL_LIBRARY_VERSION_TLS_1_3 ≤ version r → outer_type_ok ss (hdr cText) →
  0 ≤ recordSizeLimit r < 2 ^ 28 → 0 ≤ earlyDataRemaining r < 2 ^ 32 →
  let fits content type k := type ≠ 0 ∧ contents p = inner content type k ∧ length content + k ≤ recordSizeLimit r ∧
    (content = [] → IS_DTLS ss = false ∨ hdr cText !!! 0%nat ≠ ssl_ct_application_data → type ≠ ssl_ct_alert ∧ type ≠ ssl_ct_handshake) ∧
    (epoch r = TrafficKeyEarlyApplicationData → type = ssl_ct_application_data → length content ≤ earlyDataRemaining r) in
  match open_inner ss r cText p with
  | (r', Ok (p', type)) => (∃ k, fits (contents p') type k) ∧ wf p' ∧
      r' = if (epoch r =? TrafficKeyEarlyApplicationData) && (type =? ssl_ct_application_data)
           then with_early r (earlyDataRemaining r - length (contents p')) else r
  | (_, Err _) => ∀ content type (k : nat), ¬ fits content type k
  | (_, UB) => False
  end.
Proof.
  intros Wp Hv Ho Hlim Hearly fits. pose proof (length_contents p Wp) as Lc. pose proof (wf_len _ Wp) as Hl. unfold open_inner.
  rewrite wrap_small, Z.gtb_ltb by lia. destruct (Z.ltb_spec (recordSizeLimit r + 1) (len p)) as [Hlong|Hlen].
  { intros content type k (_ & E & Hk & _). rewrite E in Lc. unfold inner in Lc. rewrite !length_app, length_replicate in Lc. cbn [length] in Lc. lia. }
  destruct (strip_zeros_spec (rev (contents p))) as (k & Ek & Hne). destruct (strip_zeros (rev (contents p))) as [|type content] eqn:Es.
  { intros content type k' (Ht & E & _). rewrite E, rev_inner, strip_zeros_app in Es by done. discriminate. }
  specialize (Hne _ _ eq_refl). assert (Ec : contents p = inner (rev content) type k).
  { apply (f_equal (@rev Z)) in Ek. rewrite rev_involutive in Ek. rewrite Ek, <- (rev_involutive (inner (rev content) type k)), rev_inner, rev_involutive. done. }
  assert (Lk : length (contents p) = (length content + 1 + k)%nat)
    by (rewrite Ec; unfold inner; rewrite !length_app, length_replicate, length_rev; cbn [length]; lia).
  set (p' := set_len p (length content)).
  destruct (set_len_contents p (length content) Wp) as (C' & L' & S'); [pose proof (wf_len_fits _ Wp); lia|lia|]. fold p' in C', L', S'.
  assert (Cp : contents p' = rev content).
  { rewrite C', Nat2Z.id. transitivity (take (length content) (contents p)); [unfold contents; rewrite take_take; f_equal; lia|].
    rewrite Ec. apply take_app_length'. by rewrite length_rev. }
  assert (Wp' : wf p') by (destruct Wp; constructor; rewrite ?L', ?S'; (done || lia)).
  assert (Hout : ∀ P : Prop, (∀ content' type' k', fits content' type' k' → content' = rev content → type' = type → P) → ∀ content' type' k', fits content' type' k' → P).
  { intros P HP content' type' k' Hf. pose proof Hf as (Ht & E & _). rewrite Ec in E.
    apply inner_unique in E as (E1 & E2 & _); [|done..]. by apply (HP _ _ _ Hf). }
  rewrite outer_empty, L' by done. set (Q := _ ∨ _). set (e := (_ =? 0) && _).
  assert (He : e = true ↔ rev content = [] ∧ Q).
  { unfold e. rewrite andb_true_iff, Z.eqb_eq, bool_decide_eq_true, <- length_zero_iff_nil, length_rev. split; intros [? ?]; (split; [lia|done]). }
  destruct (e && (type =? ssl_ct_alert)) eqn:Ea.
  { apply andb_true_iff in Ea as [He1 Ea]. apply Z.eqb_eq in Ea. apply He in He1 as [E0 HQ]. refine (Hout False _).
    intros ? ? ? (_ & _ & _ & Hx & _) -> ->. by destruct (Hx E0 HQ). }
  destruct (e && (type =? ssl_ct_handshake)) eqn:Eh.
  { apply andb_true_iff in Eh as [He1 Eh]. apply Z.eqb_eq in Eh. apply He in He1 as [E0 HQ]. refine (Hout False _).
    intros ? ? ? (_ & _ & _ & Hx & _) -> ->. by destruct (Hx E0 HQ). }
  assert (Hempty : rev content = [] → Q → type ≠ ssl_ct_alert ∧ type ≠ ssl_ct_handshake).
  { intros E0 HQ. assert (e = true) as Et by (by apply He). rewrite Et in Ea, Eh. cbn [andb] in Ea, Eh. by rewrite !Z.eqb_neq in *. }
  assert (Hfit : (epoch r = TrafficKeyEarlyApplicationData → type = ssl_ct_application_data → length content ≤ earlyDataRemaining r) → fits (contents p') type k).
  { intros Hx. rewrite Cp. split; [done|]. split; [done|]. rewrite length_rev. split; [lia|]. by split. }
  destruct ((epoch r =? TrafficKeyEarlyApplicationData) && (type =? ssl_ct_application_data)) eqn:Ee.
  - apply andb_true_iff in Ee as [Ee Et]. apply Z.eqb_eq in Ee, Et. rewrite Z.gtb_ltb. destruct (Z.ltb_spec (earlyDataRemaining r) (length content)).
    + refine (Hout False _). intros ? ? ? (_ & _ & _ & _ & Hx) -> ->. specialize (Hx Ee Et). rewrite length_rev in Hx. lia.
    + split; [exists k; by apply Hfit|]. split; [done|]. rewrite Ee, Et, !Z.eqb_refl. cbn [andb]. by rewrite Cp, length_rev, wrap_small by lia.
  - split; [exists k; apply Hfit|split; [done|by rewrite Ee]]. intros E1 E2. by rewrite E1, E2, !Z.eqb_refl in Ee.
Qed.

Lemma WriteNonce13 r n : spec13 tl r → tls13_WriteNonce (key_iv r) (iv_total r) (be_bytes 8 n) (iv_total r) = Ok (iv13 r n).
Proof.
  intros [_ _ _ Hi _ [Hk _]]. unfold MAX_IV_LENGTH in Hi. rewrite <- (Z2Nat.id (iv_total r)) by lia.
  rewrite (WriteNonce_iv (key_iv r) (Z.to_nat (iv_total r)) false) by (rewrite ?length_be_bytes; lia).
  unfold iv13, spec_iv, record_iv, seq_octets, salt. cbn [explicit flat cipherDef explicit_nonce_size Z.eqb negb andb iv_size key_iv].
  by rewrite length_take, Nat.min_l by lia.
Qed.

Record readable (ss : sslSocket) (r : ssl3CipherSpec) (cText : SSL3Ciphertext) (plaintext : sslBuffer) : Prop := {
  rd_spec : spec13 tl r;
  rd_version : IS_DTLS_1_OR_12 ss = false;
  rd_hdr : bytes (hdr cText) ∧ ((if IS_DTLS ss then 1 else 3) ≤ length (hdr cText) ≤ 13)%nat;
  rd_limit : 0 ≤ recordSizeLimit r < 2 ^ 28;
  rd_early : 0 ≤ earlyDataRemaining r < 2 ^ 32;
  rd_plaintext : wf plaintext ∧ is_Some (SslEncode.buf plaintext);
}.

(** The AEAD, and what follows it. *)
Lemma unprotect_opens ss r cText plaintext : readable ss r cText plaintext → outer_type_ok ss (hdr cText) →
  tl ≤ length (ct_buf cText) ≤ recordSizeLimit r + 1 + tl → (IS_DTLS ss = false → rec_version cText = recordVersion r) →
  tls13_UnprotectRecord ss r cText plaintext =
  let spec := with_ctx r (aead_open r cText (space plaintext)).2 in
  match (aead_open r cText (space plaintext)).1 with
  | None => (if IS_DTLS ss then with_failures spec (u64 (deprotectionFailures spec + 1)) else spec, Err (bad_record_mac, SSL_ERROR_BAD_MAC_READ))
  | Some out => match set_plaintext plaintext out with Ok plaintext => open_inner ss spec cText plaintext | _ => (spec, UB) end
  end.
Proof.
  intros [Hs Hv [Hb Hh] Hlim _ _] Ho Hl Hver. pose proof Hs as [_ _ _ _ [Htag Htl] _]. unfold tls13_UnprotectRecord.
  rewrite (proj2 (Nat.ltb_ge _ _)) by lia. rewrite Htag.
  assert (Eo : (hdr cText !!! 0%nat =? ssl_ct_application_data) ||
    IS_DTLS ss && (ss_version ss >=? SSL_LIBRARY_VERSION_TLS_1_3) && (Z.land (hdr cText !!! 0%nat) 0xe0 =? 0x20) = true).
  { destruct Ho as [E|(E1 & E2 & E3)]; [by rewrite E|]. rewrite E1, Z.geb_leb, (proj2 (Z.leb_le _ _)), E3 by lia. apply orb_true_r. }
  rewrite Eo. cbn [negb]. rewrite (proj2 (Z.ltb_ge _ _)), wrap_small, Z.gtb_ltb, (proj2 (Z.ltb_ge _ _)) by lia.
  assert (Ev : negb (IS_DTLS ss) && negb (Z.lor (Z.shiftl (hdr cText !!! 1%nat) 8) (hdr cText !!! 2%nat) =? recordVersion r) = false).
  { destruct (IS_DTLS ss); [done|]. rewrite <- Hver by done. fold (rec_version cText). by rewrite Z.eqb_refl. }
  rewrite Ev, FormatAdditionalData_spec by (done || destruct (IS_DTLS ss); lia). rewrite take_app_length', drop_app_length' by by rewrite length_be_bytes.
  unfold tls13_AEAD. rewrite WriteNonce13 by done. cbn [mbind res_bind]. rewrite (proj2 (Z.ltb_ge _ _)) by lia. unfold aead_open.
  by destruct (PK11_AEADOp_decrypt _ _ _ _ _ _) as [[out|] c].
Qed.

#[export] Instance outer_type_dec ss h : Decision (outer_type_ok ss h).
Proof. unfold outer_type_ok. apply _. Defined.

(** A record refused before the AEAD. *)
Lemma unprotect_refuses ss r cText plaintext : readable ss r cText plaintext →
  ¬ (outer_type_ok ss (hdr cText) ∧ tl ≤ length (ct_buf cText) ≤ recordSizeLimit r + 1 + tl ∧ (IS_DTLS ss = false → rec_version cText = recordVersion r)) →
  ∃ e, tls13_UnprotectRecord ss r cText plaintext = (r, Err e).
Proof.
  intros [Hs Hv [Hb Hh] Hlim _ _] Hno. pose proof Hs as [_ _ _ _ [Htag Htl] _]. unfold tls13_UnprotectRecord.
  rewrite (proj2 (Nat.ltb_ge _ _)) by lia. rewrite Htag. destruct (negb (_ || _)) eqn:Eo; [by eexists|].
  destruct (Z.ltb_spec (length (ct_buf cText)) tl); [by eexists|]. rewrite wrap_small, Z.gtb_ltb by lia.
  destruct (Z.ltb_spec (recordSizeLimit r + 1 + tl) (length (ct_buf cText))); [by eexists|]. destruct (negb (IS_DTLS ss) && _) eqn:Ev; [by eexists|]. destruct Hno. split; [|split; [lia|]].
  - apply negb_false_iff, orb_true_iff in Eo as [E|E]; [left; by apply Z.eqb_eq|]. right. apply andb_true_iff in E as [E E3]. apply andb_true_iff in E as [E1 E2].
    rewrite Z.geb_leb, Z.leb_le in E2. by rewrite Z.eqb_eq in E3.
  - intros Ed. rewrite Ed in Ev. cbn [negb andb] in Ev. by apply negb_false_iff, Z.eqb_eq in Ev.
Qed.

Lemma UnprotectRecord13_spec ss r cText plaintext : readable ss r cText plaintext →
  (∀ out, (aead_open r cText (space plaintext)).1 = Some out → bytes out ∧ length out ≤ space plaintext) →
  match tls13_UnprotectRecord ss r cText plaintext with
  | (r', Ok (p, type)) => accepts13 ss r cText (space plaintext) (contents p) type ∧ wf p ∧
                          r' = after13 r (aead_open r cText (space plaintext)).2 (contents p) type
  | (_, Err _) => ∀ content type, ¬ accepts13 ss r cText (space plaintext) content type
  | (_, UB) => False
  end.
Proof.
  intros Hrd Hbound. destruct (decide (outer_type_ok ss (hdr cText) ∧ tl ≤ length (ct_buf cText) ≤ recordSizeLimit r + 1 + tl ∧
    (IS_DTLS ss = false → rec_version cText = recordVersion r))) as [(Ho & Hl & Hver)|Hno].
  2: { destruct (unprotect_refuses ss r cText plaintext Hrd Hno) as [e ->]. intros content type [Ho Hl Hver _ _ _ _]. by apply Hno. }
  rewrite unprotect_opens by done. cbv zeta. destruct (aead_open r cText (space plaintext)) as [[out|] c] eqn:Eo; cbn [fst snd].
  2: { intros content type [_ _ _ _ (k & E & _) _ _]. rewrite Eo in E. done. }
  destruct (Hbound out eq_refl) as [Bo Lo]. pose proof Hrd as [Hs _ _ Hlim Hearly [Wp Bp]].
  destruct (set_plaintext_spec plaintext out Wp Bp Bo Lo) as (p & -> & Wp' & Lp & _ & _ & _ & Sp).
  assert (Cp : contents p = out) by (unfold contents; rewrite Lp, Sp, Nat2Z.id; apply take_app_length).
  pose proof (open_inner_spec ss (with_ctx r c) cText p Wp' (s13_version _ _ Hs) Ho Hlim Hearly) as Hin.
  destruct (open_inner ss (with_ctx r c) cText p) as [r' [[p' type]|e|]]; [| |done].
  - destruct Hin as ((k & Ht & Ek & Hk & He & Hea) & W' & ->). split; [|done]. constructor; try done. exists k. by rewrite Eo, <- Ek, Cp.
  - intros content type [_ _ _ Ht (k & E & Hk) He Hea]. apply (Hin content type k). split; [done|]. split; [|done].
    rewrite Eo in E. cbn [fst] in E. injection E as <-. exact Cp.
Qed.
End Receive13.

(** ** Masks *)

(** AES in ECB mode, and ChaCha20 with a counter and a nonce. *)
Class MaskLaws `{MaskToken} : Prop := {
  mask_aes k x : length x = 16%nat → ∃ out, mask_encrypt k CKM_AES_ECB None 16 x = Some out ∧ length out = 16%nat ∧ bytes out;
  mask_chacha k x (n : nat) : length x = 16%nat → (0 < n ≤ 128)%nat →
    ∃ out, mask_encrypt k CKM_NSS_CHACHA20_CTR (Some x) n (replicate n 0) = Some out ∧ length out = n ∧ bytes out;
}.

Section Masks.
  Context `{masking : MaskToken} `{mlaws : !MaskLaws}.

(** No masking, or a context that can mask. *)
Definition mask_ok (ctx : option SSLMaskingContext) : Prop :=
  ∀ c, ctx = Some c → is_Some (mask_secret c) ∧ (mask_mech c = CKM_AES_ECB ∨ mask_mech c = CKM_NSS_CHACHA20_CTR).

Lemma CreateMask_total c sample : mask_ok (Some c) → (16 ≤ length sample)%nat →
  ∃ m0 m1, ssl_CreateMaskInner (Some c) sample 2 = Ok [m0; m1] ∧ is_byte m0 ∧ is_byte m1.
Proof.
  intros Hok Hl. destruct (Hok c eq_refl) as [[k Hk] Hm]. unfold ssl_CreateMaskInner. rewrite (proj2 (Z.eqb_neq _ _)), Hk by lia. cbn [orb Z.eqb].
  assert (Hpair : ∀ out, (2 ≤ length out)%nat → bytes out → ∃ m0 m1, take 2 out = [m0; m1] ∧ is_byte m0 ∧ is_byte m1).
  { intros [|m0 [|m1 out]] Ho Bo; [cbn in Ho; lia..|]. apply Forall_cons_1 in Bo as [B0 Bo]. apply Forall_cons_1 in Bo as [B1 _]. by exists m0, m1. }
  assert (L16 : length (take 16 sample) = 16%nat) by (rewrite length_take; lia). destruct Hm as [-> | ->].
  - rewrite (proj2 (Z.ltb_ge _ _)) by (unfold AES_BLOCK_SIZE; lia).
    change (if 2 <? AES_BLOCK_SIZE then AES_BLOCK_SIZE else 2) with 16. change (Z.to_nat AES_BLOCK_SIZE) with 16%nat.
    destruct (mask_aes k (take 16 sample) L16) as (out & -> & Lo & Bo). rewrite (proj2 (Z.ltb_ge _ _)) by lia. change (Z.to_nat 2) with 2%nat.
    destruct (Hpair out ltac:(lia) Bo) as (m0 & m1 & -> & H). by exists m0, m1.
  - rewrite (proj2 (Z.ltb_ge _ _)) by lia. change (2 >? 128) with false. cbv iota. change (Z.to_nat 16) with 16%nat. change (Z.to_nat 2) with 2%nat.
    destruct (mask_chacha k (take 16 sample) 2 L16 ltac:(lia)) as (out & Eo & Lo & Bo). change (Z.of_nat 2) with 2 in Eo. rewrite Eo. rewrite (proj2 (Z.ltb_ge _ _)) by lia.
    destruct (Hpair out ltac:(lia) Bo) as (m0 & m1 & -> & H). by exists m0, m1.
Qed.

(** The mask goes over one or two octets behind the first. *)
Lemma MaskSequenceNumber_cons v c ct a x rest m0 m1 : SSL_LIBRARY_VERSION_TLS_1_3 ≤ v → (16 ≤ length ct)%nat →
  ssl_CreateMaskInner (Some c) ct 2 = Ok [m0; m1] → (Z.testbit a 3 = true → rest ≠ []) →
  dtls13_MaskSequenceNumber v (Some c) (a :: x :: rest) ct =
  Ok (a :: Z.lxor x m0 :: if Z.testbit a 3 then match rest with y :: rest => Z.lxor y m1 :: rest | [] => [] end else rest).
Proof.
  intros Hv Hl Hm Hr. unfold dtls13_MaskSequenceNumber. rewrite (proj2 (Z.ltb_ge _ _)), (proj2 (Z.ltb_ge _ _)), Hm by lia.
  rewrite mem_read_in by (cbn; lia). cbn [mbind res_bind drop take]. rewrite mem_write_same by (cbn; lia). cbn [mbind res_bind].
  change 0x08 with (Z.shiftl 1 3). cbn [lookup_total list_lookup_total]. rewrite land_bit_zero, negb_involutive by lia. destruct (Z.testbit a 3); [|done].
  destruct rest as [|y rest]; [by destruct Hr|]. rewrite mem_read_in by (cbn; lia). cbn [mbind res_bind]. rewrite mem_write_same by (cbn; lia). done.
Qed.

Lemma MaskSequenceNumber_spec `{rc : RecordCrypto} ss w v ctx ct : SSL_LIBRARY_VERSION_TLS_1_3 ≤ v → mask_ok ctx → (16 ≤ length ct)%nat → IS_DTLS ss = true →
  ∃ h, bytes h ∧ length h = length (header13 ss w) ∧ h !!! 0%nat = header13 ss w !!! 0%nat ∧
    (∀ rest, dtls13_MaskSequenceNumber v ctx (header13 ss w ++ rest) ct = Ok (h ++ rest)) ∧
    (∀ rest, dtls13_MaskSequenceNumber v ctx (h ++ rest) ct = Ok (header13 ss w ++ rest)).
Proof.
  intros Hv Hok Hl Hd. destruct (header13_bytes ss w) as [Bh _].
  destruct ctx as [c|].
  2: { exists (header13 ss w). split_and!; try done; intros rest; unfold dtls13_MaskSequenceNumber; by rewrite (proj2 (Z.ltb_ge _ _)) by lia. }
  destruct (CreateMask_total c ct Hok Hl) as (m0 & m1 & Em & B0 & B1). unfold header13 in *. rewrite Hd in *.
  pose proof (Z.mod_pos_bound (epoch w) 4 ltac:(lia)) as Hr. remember (epoch w mod 4) as r eqn:Er. clear Er.
  assert (H4 : r = 0 ∨ r = 1 ∨ r = 2 ∨ r = 3) by lia.
  destruct (short_header ss w).
  - assert (T : Z.testbit (0x20 + r) 3 = false) by (by destruct H4 as [-> | [-> | [-> | ->]]]).
    set (a := 0x20 + r) in *. set (x := nextSeqNum w mod 256) in *. exists [a; Z.lxor x m0]. apply Forall_cons_1 in Bh as [Ba Bx].
    apply Forall_cons_1 in Bx as [Bx _]. split; [repeat constructor; try apply Ba; apply (lxor_range x m0 8); (done || lia)|]. split; [done|]. split; [done|].
    split; intros rest; cbn [app]; rewrite (MaskSequenceNumber_cons v c ct _ _ _ m0 m1) by (done || (rewrite T; done)); rewrite T; [done|].
    by rewrite Z.lxor_assoc, Z.lxor_nilpotent, Z.lxor_0_r.
  - assert (T : Z.testbit (0x2c + r) 3 = true) by (by destruct H4 as [-> | [-> | [-> | ->]]]).
    set (a := 0x2c + r) in *. cbn [be_bytes app] in Bh |- *. set (x := nextSeqNum w / 256 mod 256) in *. set (y := nextSeqNum w mod 256) in *.
    exists [a; Z.lxor x m0; Z.lxor y m1]. apply Forall_cons_1 in Bh as [Ba Bx]. apply Forall_cons_1 in Bx as [Bx By]. apply Forall_cons_1 in By as [By _].
    split; [repeat constructor; try apply Ba; first [apply (lxor_range x m0 8); (done || lia) | apply (lxor_range y m1 8); (done || lia)]|]. split; [done|]. split; [done|].
    split; intros rest; cbn [app]; rewrite (MaskSequenceNumber_cons v c ct _ _ _ m0 m1) by done; rewrite T; [done|].
    by rewrite !Z.lxor_assoc, !Z.lxor_nilpotent, !Z.lxor_0_r.
Qed.
End Masks.

(** ** Whole records *)

Section Whole.
  Context `{heap : NSPRHeap} `{rc : RecordCrypto} `{masking : MaskToken} (tl : Z) `{laws : !AeadLaws tl} `{mlaws : !MaskLaws}.

(** The mask over the header in a buffer. *)
Lemma mask_header_spec v ctx b (pre h mid ct : list Z) : wf b → contents b = (pre ++ mid) ++ ct → bytes h → length h = length pre →
  (∀ rest, dtls13_MaskSequenceNumber v ctx (pre ++ rest) ct = Ok (h ++ rest)) →
  ∃ b', mask_header v ctx b (length (pre ++ mid)) = Ok b' ∧ wf b' ∧ contents b' = (h ++ mid) ++ ct.
Proof.
  intros Wb Hc Bh Lh Hm. pose proof (length_contents b Wb) as Lc. destruct Wb as [W1 W2 W3 W4 W5 W6].
  remember (drop (Z.to_nat (len b)) (storage b)) as rest eqn:Er.
  assert (Es : storage b = pre ++ mid ++ ct ++ rest).
  { rewrite <- (take_drop (Z.to_nat (len b)) (storage b)), <- Er. change (take (Z.to_nat (len b)) (storage b)) with (contents b). by rewrite Hc, <- !app_assoc. }
  clear Er. unfold mask_header. rewrite Nat2Z.id. assert (Ll : len b = length (pre ++ mid) + length ct) by (rewrite Hc, length_app in Lc; lia).
  rewrite Ll, wrap_small by lia. replace (Z.to_nat (length (pre ++ mid) + length ct - length (pre ++ mid))) with (length ct) by lia.
  rewrite mem_read_in by (rewrite Es, !length_app; lia). cbn [mbind res_bind].
  assert (Ect : take (length ct) (drop (length (pre ++ mid)) (storage b)) = ct) by (rewrite Es, app_assoc, drop_app_length; apply take_app_length).
  assert (Em : dtls13_MaskSequenceNumber v ctx (storage b) ct = Ok (h ++ mid ++ ct ++ rest)) by (rewrite Es; apply Hm).
  rewrite Ect, Em. cbn [mbind res_bind]. rewrite <- Ll. eexists. split; [done|].
  assert (Lt : length (h ++ mid ++ ct ++ rest) = length (storage b)) by (rewrite Es, !length_app; lia). split.
  - constructor; unfold storage; cbn [SslEncode.buf len space fixed default id]; rewrite ?Lt; try done. rewrite Es in W3. rewrite !Forall_app in W3 |- *. tauto.
  - unfold contents, storage. cbn [SslEncode.buf len default id]. rewrite !app_assoc. apply take_app_length'. rewrite Ll, !length_app. lia.
Qed.

Record sendable (ss : sslSocket) (w : ssl3CipherSpec) (pIn : list Z) (type : Z) (wrBuf : sslBuffer) (stack : list Z) : Prop := {
  sd_spec : spec13 tl w;
  sd_version : IS_DTLS_1_OR_12 ss = false;
  sd_seq : 0 ≤ nextSeqNum w < max_records (cipherDef w) ∧ max_records (cipherDef w) ≤ RECORD_SEQ_MAX;
  sd_stack : (24 ≤ length stack)%nat ∧ bytes stack;
  sd_content : bytes pIn ∧ 0 < type < 256 ∧ length pIn + 1 + tl < 2 ^ 16;
  sd_buffer : wf wrBuf ∧ len wrBuf = 0 ∧ space wrBuf < 2 ^ 31 ∧ length pIn + SSL3_BUFFER_FUDGE ≤ space wrBuf;
}.

(** The header, and the place of the length. *)
Lemma put_header ss w ct b : spec13 tl w → wf b → len b = 0 → 5 ≤ space b →
  ∃ b' hole (lenOffset : Z), ('(b, needsLength) ← sec (ssl_InsertRecordHeader ss w ct b);
     '(b, lenOffset) ← (if needsLength : bool then sec (sslBuffer_Skip b 2) else Ok (b, 0)); Ok (b, needsLength, lenOffset))
     = Ok (E := RecordError) (b', negb (short_header ss w), lenOffset) ∧ extends b (header13 ss w ++ hole) b' ∧
     if short_header ss w then hole = [] else length hole = 2%nat ∧ lenOffset = length (header13 ss w).
Proof.
  intros Hs Wb L0 Hr. pose proof Hs as [_ Hv [He _] _ _ _]. destruct (header13_bytes ss w) as [_ Lh].
  destruct (InsertRecordHeader_spec ss w ct b Hv He Wb ltac:(lia)) as (b1 & -> & X). cbn [sec mbind res_bind]. pose proof X as [W1 C1 S1 L1 B1].
  destruct (short_header ss w); cbn [negb mbind res_bind].
  - exists b1, [], 0. by rewrite app_nil_r.
  - destruct (skip_next_spec b1 2 W1 B1) as (b2 & E & W2 & B2 & L2 & S2 & C2 & _); [lia|lia|].
    pose proof (room_behind b1 2 W1 ltac:(lia)) as Hb. unfold skip_next, sslBuffer_Skip in E |- *. destruct (sslBuffer_Grow b1 _) as [b'| |] eqn:Eg; [|discriminate E..].
    rewrite wrap_small, Grow_room in Eg by (pose proof (wf_space _ W1); lia). injection Eg as <-. cbn [sec mbind res_bind] in E |- *. injection E as <-.
    assert (Lk : length (take (Z.to_nat 2) (behind b1)) = 2%nat) by (rewrite length_take; lia).
    eexists _, (take (Z.to_nat 2) (behind b1)), _. split; [by rewrite wrap_small, Grow_room by (pose proof (wf_space _ W1); lia)|]. split; [|split; [done|lia]].
    apply (extends_trans b (header13 ss w) b1); [done|]. constructor; (done || lia).
Qed.

(** A record sent: its header, masked in DTLS, its length and its body. *)
Lemma ProtectRecord_sends ss w d mctx type pIn wrBuf gen stack n : sendable ss w pIn type wrBuf stack → mask_ok mctx →
  aead_sync (cipherContext w) d → ready13 tl w (cipherContext w) (S n) →
  ∃ b c' h out tag, ssl_ProtectRecord ss w mctx type pIn wrBuf gen stack = Ok (b, with_seq (with_ctx w c') (nextSeqNum w + 1)) ∧ wf b ∧
    contents b = (h ++ length_field ss w (length (out ++ tag))) ++ out ++ tag ∧
    length h = length (header13 ss w) ∧ bytes h ∧ h !!! 0%nat = header13 ss w !!! 0%nat ∧
    (IS_DTLS ss = false → h = header13 ss w) ∧
    (IS_DTLS ss = true → ∀ rest, dtls13_MaskSequenceNumber (version w) mctx (h ++ rest) (out ++ tag) = Ok (header13 ss w ++ rest)) ∧
    length out = S (length pIn) ∧ Z.of_nat (length tag) = tl ∧ bytes (out ++ tag) ∧
    aead_counter c' = aead_counter (cipherContext w) + 1 ∧ aead_sync c' d ∧ ready13 tl w c' n ∧
    ∀ max', length pIn + 1 ≤ max' →
      PK11_AEADOp_decrypt d (iv13 w (aead_counter (cipherContext w))) (aad13 ss w (length (out ++ tag))) max' tag out = (Some (pIn ++ [type]), d).
Proof.
  intros [Hs Hv (Hseq & Hmax) [Lst Bst] (Bp & Ht & Hlen) (Wb & L0 & Hsp & Hroom)] Hm Hsy Hr. pose proof Hs as [_ Hver _ _ [_ Htl] _].
  unfold SSL3_BUFFER_FUDGE, RECORD_SEQ_MAX in *. destruct (header13_bytes ss w) as [Bh Lh].
  destruct (put_header ss w type wrBuf Hs Wb L0 ltac:(lia)) as (b1 & hole & at_ & E1 & [W1 C1 S1 L1 B1] & Hhole).
  assert (C0 : contents wrBuf = []) by (unfold contents; by rewrite L0).
  assert (Lho : (length hole ≤ 2)%nat) by (destruct (short_header ss w); [subst hole; cbn; lia|lia]). rewrite C0 in C1. cbn [app] in C1. rewrite length_app in L1.
  destruct (ProtectRecord13_spec tl ss w d type pIn b1 stack n) as (b2 & c' & out & tag & E2 & W2 & C2 & Lo & Lt & Bo & Hc & Hs' & Hr' & Hd);
    try done; [lia|lia|lia|].
  assert (Lf : Z.of_nat (length (out ++ tag)) = length pIn + 1 + tl) by (rewrite length_app; lia). rewrite C1 in C2.
  assert (Hmask : ∃ h b3, (if IS_DTLS ss then mask_header (version w) mctx b2 (len b1) else Ok b2) = Ok b3 ∧ wf b3 ∧ contents b3 = (h ++ hole) ++ out ++ tag ∧
    length h = length (header13 ss w) ∧ bytes h ∧ h !!! 0%nat = header13 ss w !!! 0%nat ∧ (IS_DTLS ss = false → h = header13 ss w) ∧
    (IS_DTLS ss = true → ∀ rest, dtls13_MaskSequenceNumber (version w) mctx (h ++ rest) (out ++ tag) = Ok (header13 ss w ++ rest))).
  { destruct (IS_DTLS ss) eqn:Ed; [|by exists (header13 ss w), b2].
    destruct (MaskSequenceNumber_spec ss w (version w) mctx (out ++ tag) Hver Hm ltac:(lia) Ed) as (h & B & L & H0 & M1 & M2). exists h.
    destruct (mask_header_spec (version w) mctx b2 (header13 ss w) h hole (out ++ tag) W2 C2 B L M1) as (b3 & E3 & W3 & C3).
    exists b3. replace (len b1) with (Z.of_nat (length (header13 ss w ++ hole))) by (rewrite length_app; lia). split_and!; try done. }
  destruct Hmask as (h & b3 & E3 & W3 & C3 & Lhh & Bhh & H0 & Hh1 & Hh2).
  assert (Hins : ∃ b4, (if negb (short_header ss w) then sec (sslBuffer_InsertLength b3 at_ 2) else Ok b3) = Ok b4 ∧ wf b4 ∧
    contents b4 = (h ++ length_field ss w (length (out ++ tag))) ++ out ++ tag).
  { unfold length_field. destruct (short_header ss w); cbn [negb].
    - subst hole. by exists b3.
    - destruct Hhole as [L2 ->]. rewrite <- app_assoc in C3. rewrite <- Lhh.
      destruct (sslBuffer_InsertLength_fills b3 h hole (out ++ tag) 2 W3) as (b4 & -> & W4 & C4); [lia|done|done|cbn; lia|]. exists b4. by rewrite <- app_assoc. }
  destruct Hins as (b4 & E4 & W4 & C4). exists b4, c', h, out, tag. split.
  - unfold ssl_ProtectRecord. rewrite Z.geb_leb, (proj2 (Z.leb_gt _ _)) by lia.
    destruct (sec (ssl_InsertRecordHeader ss w type wrBuf)) as [[b0 nl]| |]; [|discriminate E1..]. cbn [mbind res_bind] in E1 |- *.
    destruct (if nl then _ else _) as [[b0' lo]| |]; [|discriminate E1..]. cbn [mbind res_bind] in E1 |- *. apply Ok_inj in E1.
    apply pair_eq in E1 as [E1 ->]. apply pair_eq in E1 as [-> ->]. rewrite Z.geb_leb, (proj2 (Z.leb_le _ _)), E2 by lia. cbn [mbind res_bind].
    rewrite E3. cbn [mbind res_bind]. rewrite E4. cbn [mbind res_bind]. by rewrite wrap_small by lia.
  - rewrite Lf in *. by split_and!.
Qed.
End Whole.

(** The receiving end of a sending spec. *)
Record peer13 `{rc : RecordCrypto} {tl : Z} `{laws : !AeadLaws tl} (w r : ssl3CipherSpec) : Prop := {
  p13_def : cipherDef r = cipherDef w;
  p13_iv : key_iv r = key_iv w;
  p13_epoch : epoch r = epoch w;
  p13_version : version r = version w;
  p13_record_version : recordVersion r = recordVersion w ∧ 0 ≤ recordVersion w < 2 ^ 16;
  p13_sync : aead_sync (cipherContext w) (cipherContext r);
}.

(** A content the receiver may be sent. *)
Record receivable `{NSPRHeap} `{rc : RecordCrypto} (r : ssl3CipherSpec) (pIn : list Z) (type : Z) (plaintext : sslBuffer) : Prop := {
  rv_limit : 0 ≤ recordSizeLimit r < 2 ^ 28 ∧ length pIn ≤ recordSizeLimit r;
  rv_early : 0 ≤ earlyDataRemaining r < 2 ^ 32 ∧ (epoch r = TrafficKeyEarlyApplicationData → type = ssl_ct_application_data → length pIn ≤ earlyDataRemaining r);
  rv_empty : pIn = [] → type ≠ ssl_ct_alert ∧ type ≠ ssl_ct_handshake;
  rv_plaintext : wf plaintext ∧ is_Some (buf plaintext) ∧ length pIn + 1 ≤ space plaintext;
}.

Section Receiver.
  Context `{heap : NSPRHeap} `{rc : RecordCrypto} `{masking : MaskToken} (tl : Z) `{laws : !AeadLaws tl} `{mlaws : !MaskLaws}.

Lemma version_octets v : 0 ≤ v < 2 ^ 16 → Z.lor (Z.shiftl (v / 256 mod 256) 8) (v mod 256) = v.
Proof. intros Hv. pose proof (Z.mod_pos_bound v 256 ltac:(lia)). rewrite lor_shift_add by lia. Z.to_euclidean_division_equations. lia. Qed.

Lemma aad13_outer ss w n : IS_DTLS_1_OR_12 ss = false → outer_type_ok ss (aad13 ss w n).
Proof.
  intros Hv. unfold outer_type_ok, aad13, header13, IS_DTLS_1_OR_12 in *. destruct (IS_DTLS ss); [|by left]. right.
  cbn [andb] in Hv. apply Z.ltb_ge in Hv. split; [done|]. split; [lia|].
  pose proof (Z.mod_pos_bound (epoch w) 4 ltac:(lia)) as Hr. remember (epoch w mod 4) as r eqn:Er. clear Er.
  assert (H4 : r = 0 ∨ r = 1 ∨ r = 2 ∨ r = 3) by lia. by destruct (short_header ss w), H4 as [-> | [-> | [-> | ->]]].
Qed.

Lemma receive13 ss w r pIn type plaintext out tag : spec13 tl w → IS_DTLS_1_OR_12 ss = false → peer13 w r → receivable r pIn type plaintext →
  bytes pIn → 0 < type < 256 → length out = S (length pIn) → Z.of_nat (length tag) = tl →
  let cText := {| seqNum := nextSeqNum w; hdr := aad13 ss w (length (out ++ tag)); ct_buf := out ++ tag |} in
  PK11_AEADOp_decrypt (cipherContext r) (iv13 w (nextSeqNum w)) (hdr cText) (space plaintext) tag out = (Some (pIn ++ [type]), cipherContext r) →
  ∃ p, tls13_UnprotectRecord ss r cText plaintext = (after13 r (cipherContext r) pIn type, Ok (p, type)) ∧ wf p ∧ contents p = pIn.
Proof.
  intros Hs Hd [Pd Pk Pe Pv [Prv Rv] Psy] [[Hlim Hl] [He Hea] Hem (Wp & Bp & Hsp)] Hb Ht Lo Lt cText Hdec.
  pose proof Hs as [Hnull Hver Hep Hi Htag Hk]. destruct (aad13_bytes ss w (length (out ++ tag))) as [Ba La].
  assert (Hsr : spec13 tl r) by (constructor; unfold iv_total in *; rewrite ?Pd, ?Pk, ?Pe, ?Pv; done).
  assert (Eiv : iv13 r (nextSeqNum w) = iv13 w (nextSeqNum w)) by (unfold iv13, spec_iv, record_iv, explicit, salt, flat, iv_total; cbn; by rewrite Pd, Pk).
  assert (Eo : aead_open tl r cText (space plaintext) = (Some (inner pIn type 0), cipherContext r)).
  { unfold aead_open, inner. cbn [ct_buf seqNum cText]. rewrite app_nil_r, Eiv. replace (length (out ++ tag) - Z.to_nat tl)%nat with (length out) by (rewrite length_app; lia).
    by rewrite take_app_length, drop_app_length. }
  assert (Hrd : readable tl ss r cText plaintext).
  { constructor; try done. cbn [hdr cText]. split; [done|]. destruct (IS_DTLS ss) eqn:Ed; [lia|]. unfold aad13, header13 in *. rewrite Ed in *.
    rewrite !length_app, length_be_bytes in *. cbn [length] in *. lia. }
  assert (Hacc : accepts13 tl ss r cText (space plaintext) pIn type).
  { constructor; try done; [by apply aad13_outer|cbn [ct_buf cText]; rewrite length_app; lia| |lia| |].
    - intros Ed. unfold rec_version, aad13, header13. cbn [hdr cText]. unfold aad13, header13. rewrite Ed, Prv. by apply version_octets.
    - exists 0%nat. rewrite Eo. split; [done|lia].
    - intros E _. by apply Hem. }
  pose proof (UnprotectRecord13_spec tl ss r cText plaintext Hrd) as Hu. rewrite Eo in Hu. cbn [fst snd] in Hu.
  assert (Hbound : ∀ out0, Some (inner pIn type 0) = Some out0 → bytes out0 ∧ length out0 ≤ space plaintext).
  { intros o [= <-]. unfold inner. rewrite app_nil_r, length_app, Forall_app. split; [|cbn [length]; lia]. split; [done|]. apply Forall_singleton. unfold is_byte. lia. }
  specialize (Hu Hbound). destruct (tls13_UnprotectRecord ss r cText plaintext) as [r' [[p type']|e|]]; [|by destruct (Hu pIn type)|done].
  destruct Hu as (Ha & W & ->). destruct (acc_opens _ _ _ _ _ _ _ Ha) as (k & Ek & _). rewrite Eo in Ek. cbn [fst] in Ek. injection Ek as Ek.
  apply inner_unique in Ek as (Ec & <- & _); [exists p; by rewrite Ec|lia|]. by apply (acc_type _ _ _ _ _ _ _ Ha).
Qed.

(** The specs behind a record still belong together. *)
Lemma peer13_next w r c' n pIn type : peer13 w r → aead_sync c' (cipherContext r) →
  peer13 (with_seq (with_ctx w c') n) (after13 r (cipherContext r) pIn type).
Proof. intros [Pd Pk Pe Pv Prv _] Hs. unfold after13. by destruct (_ && _). Qed.

Lemma sent_received ss w r mctx type pIn wrBuf gen stack n plaintext : sendable tl ss w pIn type wrBuf stack → mask_ok mctx → peer13 w r →
  receivable r pIn type plaintext → ready13 tl w (cipherContext w) (S n) → aead_counter (cipherContext w) = nextSeqNum w →
  ∃ b w' h body, ssl_ProtectRecord ss w mctx type pIn wrBuf gen stack = Ok (b, w') ∧ wf b ∧
    contents b = (h ++ length_field ss w (length body)) ++ body ∧ length h = length (header13 ss w) ∧ bytes h ∧
    h !!! 0%nat = header13 ss w !!! 0%nat ∧ Z.of_nat (length body) = length pIn + 1 + tl ∧
    nextSeqNum w' = nextSeqNum w + 1 ∧ aead_counter (cipherContext w') = nextSeqNum w' ∧ ready13 tl w' (cipherContext w') n ∧
    (IS_DTLS ss = false → h = header13 ss w) ∧
    (IS_DTLS ss = true → ∀ rest, dtls13_MaskSequenceNumber (version w) mctx (h ++ rest) body = Ok (header13 ss w ++ rest)) ∧
    let r' := after13 r (cipherContext r) pIn type in
    peer13 w' r' ∧
    ∃ p, tls13_UnprotectRecord ss r {| seqNum := nextSeqNum w; hdr := header13 ss w ++ length_field ss w (length body); ct_buf := body |} plaintext = (r', Ok (p, type)) ∧
         wf p ∧ contents p = pIn.
Proof.
  intros Hsd Hm Hp Hrv Hr Hc. pose proof Hsd as [Hs Hv _ _ (Bp & Ht & _) _]. pose proof (p13_sync _ _ Hp) as Hsy.
  destruct (ProtectRecord_sends tl ss w (cipherContext r) mctx type pIn wrBuf gen stack n Hsd Hm Hsy Hr) as
    (b & c' & h & out & tag & E & W & C & Lh & Bh & H0 & H1 & H2 & Lo & Lt & _ & Hc' & Hs' & Hr' & Hd).
  rewrite Hc in Hc', Hd. exists b, (with_seq (with_ctx w c') (nextSeqNum w + 1)), h, (out ++ tag).
  do 6 (split; [done|]). split; [rewrite length_app; lia|]. do 5 (split; [done|]). cbv zeta. split; [by apply peer13_next|].
  apply (receive13 ss w r pIn type plaintext out tag); try done. apply Hd, Hrv.
Qed.

(** What the header of a DTLS record says of its epoch and number. *)
Lemma header13_first ss w v : IS_DTLS ss = true → SSL_LIBRARY_VERSION_TLS_1_3 ≤ v → ∃ base, header13 ss w !!! 0%nat = base + epoch w mod 4 ∧ base mod 4 = 0 ∧
  dtls_IsLongHeader v (header13 ss w !!! 0%nat) = false ∧ Z.testbit (header13 ss w !!! 0%nat) 3 = negb (short_header ss w).
Proof.
  intros Hd Hv. unfold header13, dtls_IsLongHeader. rewrite Hd, (proj2 (Z.ltb_ge _ _)) by lia. cbn [orb].
  pose proof (Z.mod_pos_bound (epoch w) 4 ltac:(lia)) as Hr. remember (epoch w mod 4) as r eqn:Er. clear Er.
  assert (H4 : r = 0 ∨ r = 1 ∨ r = 2 ∨ r = 3) by lia.
  destruct (short_header ss w); [exists 0x20|exists 0x2c]; (split; [done|]); (split; [done|]); by destruct H4 as [-> | [-> | [-> | ->]]].
Qed.

Lemma header13_epoch ss w v cur l : IS_DTLS ss = true → SSL_LIBRARY_VERSION_TLS_1_3 ≤ v → 0 < epoch w → cur - 4 < epoch w ≤ cur → cur < 2 ^ 16 →
  l !!! 0%nat = header13 ss w !!! 0%nat → dtls_ReadEpoch v cur l = epoch w.
Proof.
  intros Hd Hv He Hc Hc2 H0. destruct (header13_first ss w v Hd Hv) as (base & Eb & Hb & HL & _). unfold dtls_ReadEpoch. rewrite H0, HL, Eb.
  change 3 with (2 ^ 2 - 1). rewrite land_ones_mod, land_lnot_ones by lia. change (2 ^ 2) with 4.
  assert (Em : (base + epoch w mod 4) mod 4 = epoch w mod 4) by (Z.to_euclidean_division_equations; lia). rewrite Em.
  pose proof (lor_shift_add (cur / 4) (epoch w mod 4) 2 ltac:(lia)) as Hlor. rewrite Z.shiftl_mul_pow2 in Hlor by lia. change (2 ^ 2) with 4 in Hlor.
  rewrite Hlor by (apply Z.mod_pos_bound; lia). rewrite (wrap_small 16) by (Z.to_euclidean_division_equations; lia). rewrite !Z.gtb_ltb.
  destruct (Z.ltb_spec cur (cur / 4 * 4 + epoch w mod 4)), (Z.ltb_spec 4 (cur / 4 * 4 + epoch w mod 4)); cbn [andb]; rewrite ?wrap_small;
    Z.to_euclidean_division_equations; lia.
Qed.

Lemma header13_seq ss w v next rest : IS_DTLS ss = true → SSL_LIBRARY_VERSION_TLS_1_3 ≤ v → bytes rest → 0 ≤ next ≤ RECORD_SEQ_MAX → 0 ≤ nextSeqNum w →
  let half := if short_header ss w then 2 ^ 7 else 2 ^ 15 in
  next - half < nextSeqNum w ≤ next + half → dtls_ReadSequenceNumber v next (header13 ss w ++ rest) = Ok (nextSeqNum w).
Proof.
  intros Hd Hv Hb Hn Hs half Hh. destruct (header13_first ss w v Hd Hv) as (_ & _ & _ & HL & HT). destruct (header13_bytes ss w) as [Bh Lh].
  assert (H0 : (header13 ss w ++ rest) !!! 0%nat = header13 ss w !!! 0%nat) by (apply lookup_total_app_l; lia).
  apply (ReadSequenceNumber_low v next (header13 ss w ++ rest) (nextSeqNum w) (if short_header ss w then 8 else 16)); try done.
  - by apply Forall_app.
  - by rewrite H0.
  - rewrite H0, HT. unfold header13. rewrite Hd. destruct (short_header ss w); (split; [done|]); [done|]. cbn [be_bytes app].
    change (nextSeqNum w / 256 mod 256 * 256 + nextSeqNum w mod 256 = nextSeqNum w mod 2 ^ 16). change (2 ^ 16) with 65536. Z.to_euclidean_division_equations. lia.
  - unfold half in Hh. destruct (short_header ss w); exact Hh.
Qed.
End Receiver.

(** ** Theorems *)

(** [C33] tls13_UnprotectRecord accepts exactly the records that open to a content, a
    nonzero type and zeros, within the limits: outer type, length, record
    version, early data, and no empty alert or handshake record.  What it
    returns is then the only content and type the record has, and the early
    data allowance shrinks by it; every other record is refused; no access is
    out of bounds. *)
Theorem UnprotectRecord13_exact `{heap : NSPRHeap} `{rc : RecordCrypto} tl ss r cText plaintext :
  readable tl ss r cText plaintext →
  (∀ out, (aead_open tl r cText (space plaintext)).1 = Some out → bytes out ∧ length out ≤ space plaintext) →
  match tls13_UnprotectRecord ss r cText plaintext with
  | (r', Ok (p, type)) => accepts13 tl ss r cText (space plaintext) (contents p) type ∧ wf p ∧
      (∀ content t, accepts13 tl ss r cText (space plaintext) content t → content = contents p ∧ t = type) ∧
      r' = after13 r (aead_open tl r cText (space plaintext)).2 (contents p) type
  | (_, Err _) => ∀ content type, ¬ accepts13 tl ss r cText (space plaintext) content type
  | (_, UB) => False
  end.
Proof.
  intros Hrd Hb. pose proof (UnprotectRecord13_spec tl ss r cText plaintext Hrd Hb) as Hu.
  destruct (tls13_UnprotectRecord ss r cText plaintext) as [r' [[p type]|e|]]; [|done..]. destruct Hu as (Ha & W & Hr).
  split; [done|]. split; [done|]. split; [|done]. intros content t Ha'.
  destruct (acc_opens _ _ _ _ _ _ _ Ha) as (k & Ek & _). destruct (acc_opens _ _ _ _ _ _ _ Ha') as (k' & Ek' & _). rewrite Ek in Ek'. injection Ek' as Ek'.
  apply inner_unique in Ek' as (-> & -> & _); [done| |]; [apply (acc_type _ _ _ _ _ _ _ Ha)|apply (acc_type _ _ _ _ _ _ _ Ha')].
Qed.

(** [C34] What ssl_ProtectRecord sends in TLS 1.3, tls13_UnprotectRecord of the peer
    opens: five octets of header with application_data as the type and the
    length of what follows, then the sealed content; the content and its true
    type come back, and both ends are ready for the next record, whose number
    is the token's counter again. *)
Theorem record13_round_trip `{heap : NSPRHeap} `{rc : RecordCrypto} `{masking : MaskToken} tl `{laws : !AeadLaws tl} `{mlaws : !MaskLaws}
    ss w r type pIn wrBuf gen stack n plaintext :
  IS_DTLS ss = false → sendable tl ss w pIn type wrBuf stack → peer13 w r → receivable r pIn type plaintext →
  ready13 tl w (cipherContext w) (S n) → aead_counter (cipherContext w) = nextSeqNum w →
  ∃ b w' body, ssl_ProtectRecord ss w None type pIn wrBuf gen stack = Ok (b, w') ∧ wf b ∧
    let h := [ssl_ct_application_data] ++ be_bytes 2 (recordVersion w) ++ be_bytes 2 (length body) in
    contents b = h ++ body ∧ Z.of_nat (length body) = length pIn + 1 + tl ∧
    nextSeqNum w' = nextSeqNum w + 1 ∧ aead_counter (cipherContext w') = nextSeqNum w' ∧ ready13 tl w' (cipherContext w') n ∧
    ∃ r' p, tls13_UnprotectRecord ss r {| seqNum := nextSeqNum w; hdr := h; ct_buf := body |} plaintext = (r', Ok (p, type)) ∧
      wf p ∧ contents p = pIn ∧ peer13 w' r'.
Proof.
  intros Hd Hsd Hp Hrv Hr Hc.
  destruct (sent_received tl ss w r None type pIn wrBuf gen stack n plaintext Hsd ltac:(done) Hp Hrv Hr Hc) as
    (b & w' & h & body & E & W & C & _ & _ & _ & L & Hn & Hc' & Hr' & Hh & _ & Hp' & p & Eu & Wp & Cp).
  specialize (Hh Hd). assert (Ea : header13 ss w ++ length_field ss w (length body) = [ssl_ct_application_data] ++ be_bytes 2 (recordVersion w) ++ be_bytes 2 (length body)).
  { unfold header13, length_field, short_header. rewrite Hd. cbn [andb]. by rewrite <- app_assoc. }
  exists b, w', body. split; [done|]. split; [done|]. cbv zeta. rewrite <- Ea. split; [by rewrite C, Hh|]. do 4 (split; [done|]).
  by eexists _, p.
Qed.

(** [C35] The same in DTLS 1.3, where the header carries the low bits of epoch and
    sequence number, masked with the sealed content: from the record as it is
    on the wire the peer reads the epoch (one of its last four), takes the mask
    off, recovers the sequence number (within half a range of the next one) and
    opens the record. *)
Theorem dtls13_round_trip `{heap : NSPRHeap} `{rc : RecordCrypto} `{masking : MaskToken} tl `{laws : !AeadLaws tl} `{mlaws : !MaskLaws}
    ss w r mctx type pIn wrBuf gen stack n plaintext next cur :
  IS_DTLS ss = true → sendable tl ss w pIn type wrBuf stack → mask_ok mctx → peer13 w r → receivable r pIn type plaintext →
  ready13 tl w (cipherContext w) (S n) → aead_counter (cipherContext w) = nextSeqNum w →
  cur - 4 < epoch w ≤ cur → cur < 2 ^ 16 → 0 ≤ next ≤ RECORD_SEQ_MAX →
  (let half := if short_header ss w then 2 ^ 7 else 2 ^ 15 in next - half < nextSeqNum w ≤ next + half) →
  ∃ b w' h body, ssl_ProtectRecord ss w mctx type pIn wrBuf gen stack = Ok (b, w') ∧ wf b ∧ contents b = h ++ body ∧
    length h = (if short_header ss w then 2 else 5)%nat ∧ Z.of_nat (length body) = length pIn + 1 + tl ∧
    nextSeqNum w' = nextSeqNum w + 1 ∧ aead_counter (cipherContext w') = nextSeqNum w' ∧ ready13 tl w' (cipherContext w') n ∧
    dtls_ReadEpoch (version r) cur h = epoch w ∧
    ∃ h' r' p, dtls13_MaskSequenceNumber (version r) mctx h body = Ok h' ∧
      dtls_ReadSequenceNumber (version r) next h' = Ok (nextSeqNum w) ∧
      tls13_UnprotectRecord ss r {| seqNum := nextSeqNum w; hdr := h'; ct_buf := body |} plaintext = (r', Ok (p, type)) ∧
      wf p ∧ contents p = pIn ∧ peer13 w' r'.
Proof.
  intros Hd Hsd Hm Hp Hrv Hr Hc Hcur Hcur2 Hnext Hhalf. pose proof Hsd as [Hs _ [Hseq _] _ _ _]. pose proof Hs as [_ Hv [He _] _ _ _]. pose proof (p13_version _ _ Hp) as Pv.
  destruct (sent_received tl ss w r mctx type pIn wrBuf gen stack n plaintext Hsd Hm Hp Hrv Hr Hc) as
    (b & w' & h & body & E & W & C & Lh & Bh & H0 & L & Hn & Hc' & Hr' & _ & Hh & Hp' & p & Eu & Wp & Cp).
  specialize (Hh Hd). set (lf := length_field ss w (length body)) in *. destruct (header13_bytes ss w) as [_ Lhd].
  assert (Blf : bytes lf) by (unfold lf, length_field; destruct (short_header ss w); [by constructor|apply be_bytes_bytes]).
  exists b, w', (h ++ lf), body. rewrite Pv. do 3 (split; [done|]). split.
  { rewrite length_app, Lh. unfold lf, length_field, header13. rewrite Hd. destruct (short_header ss w); rewrite ?length_app, ?length_be_bytes; done. }
  do 4 (split; [done|]). split.
  { apply (header13_epoch ss w); try done. rewrite <- H0. apply lookup_total_app_l. lia. }
  exists (header13 ss w ++ lf), (after13 r (cipherContext r) pIn type), p. split; [apply Hh|]. split; [|done]. apply (header13_seq ss w); (done || lia).
Qed.

(** ** Witnesses and examples *)

(** Blocks and streams that are not secret. *)
Definition toy_masks : MaskToken := {|
  mkey := Z;
  mask_encrypt k mech param max x :=
    match mech, param with
    | CKM_AES_ECB, None => Some (take 16 (map (λ b, Z.lxor b k mod 256) x ++ replicate 16 k))
    | CKM_NSS_CHACHA20_CTR, Some p => Some (replicate (Z.to_nat max) (k + foldr Z.add 0 p) ≫= λ b, [b mod 256])
    | _, _ => None
    end;
|}.

Lemma bind_singleton (n : nat) (a : Z) : (replicate n a ≫= λ b, [b mod 256]) = replicate n (a mod 256).
Proof. induction n as [|n IH]; [done|]. cbn [replicate mbind list_bind app] in *. by rewrite IH. Qed.

Lemma toy_mask_laws : @MaskLaws toy_masks.
Proof.
  constructor.
  - intros k x Hx. eexists. split; [done|]. rewrite take_app_le by (rewrite length_map; lia). rewrite take_ge by (rewrite length_map; lia).
    split; [by rewrite length_map|]. apply Forall_map, Forall_true. intros b. cbn. unfold is_byte. apply Z.mod_pos_bound. lia.
  - intros k x n Hx Hn. eexists. split; [done|]. rewrite Nat2Z.id, bind_singleton, length_replicate. split; [done|].
    apply Forall_replicate. unfold is_byte. apply Z.mod_pos_bound. lia.
Qed.

Definition toy_mask_ctx : @SSLMaskingContext toy_masks := {| mask_mech := CKM_AES_ECB; mask_secret := Some (77 : @mkey toy_masks) |}.

(** TLS 1.3 with AES-GCM. *)
Definition gcm13_spec (op : message_operation) : @ssl3CipherSpec gcm_crypto := {|
  cipherDef := {| cd_type := type_aead; cd_null := false; iv_size := 4; block_size := 0; tag_size := 16; explicit_nonce_size := 8; max_records := 2 ^ 48 - 1 |};
  mac_null := true; mac_size := 0; macKey := (tt : @mackey gcm_crypto); cipherContext := (demo_ctx op CKM_AES_GCM : @cctx gcm_crypto);
  key_iv := [201; 202; 203; 204; 205; 206; 207; 208; 209; 210; 211; 212]; version := SSL_LIBRARY_VERSION_TLS_1_3; recordVersion := SSL_LIBRARY_VERSION_TLS_1_2;
  epoch := 3; nextSeqNum := 0; recordSizeLimit := 16384; earlyDataRemaining := 0; deprotectionFailures := 0 |}.

Definition toy_socket (dtls : bool) : sslSocket := {| IS_DTLS := dtls; ss_version := SSL_LIBRARY_VERSION_TLS_1_3; enableDtlsShortHeader := true |}.

Definition sent13 (dtls : bool) : list Z :=
  match @ssl_ProtectRecord zero_heap gcm_crypto toy_masks (toy_socket dtls) (gcm13_spec MESSAGE_ENCRYPT) (if dtls then Some toy_mask_ctx else None) 22 [104; 105]
          (toy_buf 200) (λ _, None) gcm_stack with
  | Ok (b, _) => contents b
  | _ => []
  end.

Example sent13_headers : take 5 (sent13 false) = [23; 3; 3; 0; 19] ∧ take 2 (sent13 true) = [35; 59] ∧ length (sent13 true) = 21%nat.
Proof. vm_compute. split_and!; reflexivity. Qed.

Lemma gcm13_spec_ok op : @spec13 gcm_crypto 16 (gcm13_spec op).
Proof.
  constructor; cbn; unfold SSL_LIBRARY_VERSION_TLS_1_3, MAX_IV_LENGTH, iv_total; cbn; first [done | lia | split; [lia|by apply bytes_check]].
Qed.

Lemma gcm13_sendable dtls : @sendable gcm_crypto 16 (toy_socket dtls) (gcm13_spec MESSAGE_ENCRYPT) [104; 105] 22 (toy_buf 200) gcm_stack.
Proof.
  constructor; [apply gcm13_spec_ok|by destruct dtls|vm_compute; split; [split|]; done|split; [cbn; lia|by apply bytes_check]|split; [by apply bytes_check|cbn; lia]|].
  split; [by apply toy_buf_wf|]. vm_compute. split_and!; (done || discriminate).
Qed.

Lemma gcm13_peer : @peer13 gcm_crypto 16 gcm_laws (gcm13_spec MESSAGE_ENCRYPT) (gcm13_spec MESSAGE_DECRYPT).
Proof. by constructor. Qed.

Lemma gcm13_receivable : @receivable zero_heap gcm_crypto (gcm13_spec MESSAGE_DECRYPT) [104; 105] 22 (toy_buf 200).
Proof.
  constructor; [cbn; lia|split; [cbn; lia|done]|done|]. split; [by apply toy_buf_wf|]. split; [by eexists|vm_compute; discriminate].
Qed.

Lemma gcm13_ready : @ready13 gcm_crypto 16 gcm_laws (gcm13_spec MESSAGE_ENCRYPT) (@cipherContext gcm_crypto (gcm13_spec MESSAGE_ENCRYPT)) 5.
Proof.
  change (iv_room gcm_InitIVContext CKG_GENERATE_COUNTER_XOR 32 12 5). split; [lia|]. split; [lia|]. split; [done|].
  eexists. split; [vm_compute; reflexivity|]. split; [vm_compute; discriminate|by left].
Qed.

Lemma record13_round_trip_witness : ∃ b w' body,
  @ssl_ProtectRecord zero_heap gcm_crypto toy_masks (toy_socket false) (gcm13_spec MESSAGE_ENCRYPT) None 22 [104; 105] (toy_buf 200) (λ _, None) gcm_stack = Ok (b, w') ∧ wf b ∧
  let h := [ssl_ct_application_data] ++ be_bytes 2 SSL_LIBRARY_VERSION_TLS_1_2 ++ be_bytes 2 (length body) in
  contents b = h ++ body ∧ Z.of_nat (length body) = 2 + 1 + 16 ∧
  nextSeqNum w' = 0 + 1 ∧ @aead_counter gcm_crypto 16 gcm_laws (cipherContext w') = nextSeqNum w' ∧ @ready13 gcm_crypto 16 gcm_laws w' (cipherContext w') 4 ∧
  ∃ r' p, @tls13_UnprotectRecord zero_heap gcm_crypto (toy_socket false) (gcm13_spec MESSAGE_DECRYPT) {| seqNum := 0; hdr := h; ct_buf := body |} (toy_buf 200) = (r', Ok (p, 22)) ∧
    wf p ∧ contents p = [104; 105] ∧ @peer13 gcm_crypto 16 gcm_laws w' r'.
Proof.
  exact (@record13_round_trip zero_heap gcm_crypto toy_masks 16 gcm_laws toy_mask_laws (toy_socket false) (gcm13_spec MESSAGE_ENCRYPT) (gcm13_spec MESSAGE_DECRYPT) 22 [104; 105]
    (toy_buf 200) (λ _, None) gcm_stack 4 (toy_buf 200) eq_refl (gcm13_sendable false) gcm13_peer gcm13_receivable gcm13_ready eq_refl).
Defined.

Lemma dtls13_round_trip_witness : ∃ b w' h body,
  @ssl_ProtectRecord zero_heap gcm_crypto toy_masks (toy_socket true) (gcm13_spec MESSAGE_ENCRYPT) (Some toy_mask_ctx) 22 [104; 105] (toy_buf 200) (λ _, None) gcm_stack
    = Ok (b, w') ∧ wf b ∧ contents b = h ++ body ∧
  length h = 2%nat ∧ Z.of_nat (length body) = 2 + 1 + 16 ∧
  nextSeqNum w' = 0 + 1 ∧ @aead_counter gcm_crypto 16 gcm_laws (cipherContext w') = nextSeqNum w' ∧ @ready13 gcm_crypto 16 gcm_laws w' (cipherContext w') 4 ∧
  dtls_ReadEpoch SSL_LIBRARY_VERSION_TLS_1_3 4 h = 3 ∧
  ∃ h' r' p, @dtls13_MaskSequenceNumber toy_masks SSL_LIBRARY_VERSION_TLS_1_3 (Some toy_mask_ctx) h body = Ok h' ∧
    dtls_ReadSequenceNumber SSL_LIBRARY_VERSION_TLS_1_3 100 h' = Ok 0 ∧
    @tls13_UnprotectRecord zero_heap gcm_crypto (toy_socket true) (gcm13_spec MESSAGE_DECRYPT) {| seqNum := 0; hdr := h'; ct_buf := body |} (toy_buf 200) = (r', Ok (p, 22)) ∧
    wf p ∧ contents p = [104; 105] ∧ @peer13 gcm_crypto 16 gcm_laws w' r'.
Proof.
  refine (@dtls13_round_trip zero_heap gcm_crypto toy_masks 16 gcm_laws toy_mask_laws (toy_socket true) (gcm13_spec MESSAGE_ENCRYPT) (gcm13_spec MESSAGE_DECRYPT) (Some toy_mask_ctx)
    22 [104; 105] (toy_buf 200) (λ _, None) gcm_stack 4 (toy_buf 200) 100 4 eq_refl (gcm13_sendable true) _ gcm13_peer gcm13_receivable gcm13_ready eq_refl _ _ _ _).
  - intros c [= <-]. split; [by eexists|by left].
  - cbn. lia.
  - lia.
  - unfold RECORD_SEQ_MAX. lia.
  - cbn. lia.
Defined.

(** A record of the other end, opened; one octet changed, refused. *)
Definition received13 (ct : list Z) : SSL3Ciphertext := {| seqNum := 0; hdr := [23; 3; 3; 0; 19]; ct_buf := ct |}.

Lemma received13_readable ct : @readable gcm_crypto 16 (toy_socket false) (gcm13_spec MESSAGE_DECRYPT) (received13 ct) (toy_buf 200).
Proof.
  constructor; [apply gcm13_spec_ok|done|split; [by apply bytes_check|cbn; lia]|cbn; lia|cbn; lia|]. split; [by apply toy_buf_wf|by eexists].
Qed.

Lemma UnprotectRecord13_exact_witness :
  match @tls13_UnprotectRecord zero_heap gcm_crypto (toy_socket false) (gcm13_spec MESSAGE_DECRYPT) (received13 (drop 5 (sent13 false))) (toy_buf 200) with
  | (r', Ok (p, type)) => contents p = [104; 105] ∧ type = 22 ∧
      @accepts13 gcm_crypto 16 (toy_socket false) (gcm13_spec MESSAGE_DECRYPT) (received13 (drop 5 (sent13 false))) 200 (contents p) type
  | _ => False
  end.
Proof.
  pose proof (@UnprotectRecord13_exact zero_heap gcm_crypto 16 (toy_socket false) (gcm13_spec MESSAGE_DECRYPT) (received13 (drop 5 (sent13 false))) (toy_buf 200)
    (received13_readable _)) as H.
  assert (Hb : ∀ out, (@aead_open gcm_crypto 16 (gcm13_spec MESSAGE_DECRYPT) (received13 (drop 5 (sent13 false))) (space (toy_buf 200))).1 = Some out →
    bytes out ∧ length out ≤ space (toy_buf 200)).
  { intros out. vm_compute. intros [= <-]. split; [apply bytes_check; vm_compute; reflexivity|vm_compute; discriminate]. }
  specialize (H Hb).
  assert (E : match @tls13_UnprotectRecord zero_heap gcm_crypto (toy_socket false) (gcm13_spec MESSAGE_DECRYPT) (received13 (drop 5 (sent13 false))) (toy_buf 200) with
              | (_, Ok (p, type)) => contents p = [104; 105] ∧ type = 22 | _ => False end) by (vm_compute; split; reflexivity).
  destruct (@tls13_UnprotectRecord zero_heap gcm_crypto (toy_socket false) (gcm13_spec MESSAGE_DECRYPT) _ (toy_buf 200)) as [r' [[p type]|e|]]; [|done..].
  destruct E as [E1 E2], H as (Ha & _). by split; [|split].
Defined.

Example changed13 :
  (@tls13_UnprotectRecord zero_heap gcm_crypto (toy_socket false) (gcm13_spec MESSAGE_DECRYPT) (received13 (<[0%nat := 0]> (drop 5 (sent13 false)))) (toy_buf 200)).2
  = Err (bad_record_mac, SSL_ERROR_BAD_MAC_READ).
Proof. vm_compute. reflexivity. Qed.
