(* ===== verification/RwLock.v ===== *)
(** lib/util/nssrwlk.c: the reader-writer lock.

    Between PR_Lock and PR_Unlock, or PR_WaitCondVar, a thread runs alone; each
    such stretch of code is a function on the lock.  A step relation interleaves
    the threads, with condition variables that wake one thread, all threads, or
    a thread for no reason.

    [write_excludes] says that a writer is alone, [no_lost_wakeup] that a free
    lock on which threads wait has a thread awake that will take it, and
    [HaveWriteLock_exact] that the unlocked read of the owner is right. *)

From stdpp Require Import base numbers list.
From S2P Require Import Prelude.

(** Threads are numbered; [None] is the NULL owner. *)
Record NSSRWLock := mk_NSSRWLock {
  rw_rank : Z;
  rw_writer_locks : Z;
  rw_reader_locks : Z;
  rw_waiting_readers : Z;
  rw_waiting_writers : Z;
  rw_owner : option nat;
}.

Abbreviation i32 := (swrap 32).

(** The outcomes of PR_NEWZAP, PR_NewLock, PR_NewCondVar (twice) and, for a
    name, PR_Malloc. *)
Definition NSSRWLock_New (lock_rank : Z) (zap lock reader_waitq writer_waitq name : bool) : option NSSRWLock :=
  if zap && lock && reader_waitq && writer_waitq && name then Some (mk_NSSRWLock lock_rank 0 0 0 0 None) else None.

(** ** The atomic stretches *)

Definition may_read (rwlock : NSSRWLock) (me : nat) : bool :=
  bool_decide (rw_owner rwlock = Some me) || bool_decide (rw_owner rwlock = None) && (rw_waiting_writers rwlock =? 0).

Definition may_write (rwlock : NSSRWLock) (me : nat) : bool :=
  bool_decide (rw_owner rwlock = Some me) || bool_decide (rw_owner rwlock = None) && (rw_reader_locks rwlock =? 0).

(** Up to PR_Unlock with the lock taken, or into PR_WaitCondVar. *)
Definition NSSRWLock_LockRead (me : nat) (l : NSSRWLock) : NSSRWLock * bool :=
  if may_read l me
  then (mk_NSSRWLock (rw_rank l) (rw_writer_locks l) (i32 (rw_reader_locks l + 1)) (rw_waiting_readers l) (rw_waiting_writers l) (rw_owner l), true)
  else (mk_NSSRWLock (rw_rank l) (rw_writer_locks l) (rw_reader_locks l) (u32 (rw_waiting_readers l + 1)) (rw_waiting_writers l) (rw_owner l), false).

(** Behind PR_WaitCondVar, around the loop. *)
Definition LockRead_woken (me : nat) (l : NSSRWLock) : NSSRWLock * bool :=
  NSSRWLock_LockRead me
    (mk_NSSRWLock (rw_rank l) (rw_writer_locks l) (rw_reader_locks l) (u32 (rw_waiting_readers l - 1)) (rw_waiting_writers l) (rw_owner l)).

Definition NSSRWLock_LockWrite (me : nat) (l : NSSRWLock) : NSSRWLock * bool :=
  if may_write l me
  then (mk_NSSRWLock (rw_rank l) (i32 (rw_writer_locks l + 1)) (rw_reader_locks l) (rw_waiting_readers l) (rw_waiting_writers l) (Some me), true)
  else (mk_NSSRWLock (rw_rank l) (rw_writer_locks l) (rw_reader_locks l) (rw_waiting_readers l) (u32 (rw_waiting_writers l + 1)) (rw_owner l), false).

Definition LockWrite_woken (me : nat) (l : NSSRWLock) : NSSRWLock * bool :=
  NSSRWLock_LockWrite me
    (mk_NSSRWLock (rw_rank l) (rw_writer_locks l) (rw_reader_locks l) (rw_waiting_readers l) (u32 (rw_waiting_writers l - 1)) (rw_owner l)).

(** What is notified. *)
Inductive wakeup := no_one | one_writer | all_readers.

Definition NSSRWLock_UnlockRead (l : NSSRWLock) : NSSRWLock * wakeup :=
  if rw_reader_locks l >? 0 then
    let l := mk_NSSRWLock (rw_rank l) (rw_writer_locks l) (i32 (rw_reader_locks l - 1)) (rw_waiting_readers l) (rw_waiting_writers l) (rw_owner l) in
    (l, if (rw_reader_locks l =? 0) && bool_decide (rw_owner l = None) && (rw_waiting_writers l >? 0) then one_writer else no_one)
  else (l, no_one).

Definition NSSRWLock_UnlockWrite (me : nat) (l : NSSRWLock) : NSSRWLock * wakeup :=
  if bool_decide (rw_owner l = Some me) && (rw_writer_locks l >? 0) then
    let locks := i32 (rw_writer_locks l - 1) in
    if locks =? 0 then
      (mk_NSSRWLock (rw_rank l) locks (rw_reader_locks l) (rw_waiting_readers l) (rw_waiting_writers l) None,
       if rw_waiting_writers l >? 0 then if rw_reader_locks l =? 0 then one_writer else no_one
       else if rw_waiting_readers l >? 0 then all_readers else no_one)
    else (mk_NSSRWLock (rw_rank l) locks (rw_reader_locks l) (rw_waiting_readers l) (rw_waiting_writers l) (rw_owner l), no_one)
  else (l, no_one).

Definition NSSRWLock_HaveWriteLock (me : nat) (l : NSSRWLock) : bool := bool_decide (rw_owner l = Some me).

(** ** Threads *)

(** Where a thread is: outside, asleep in PR_WaitCondVar, or woken there. *)
Inductive place := outside | reader_asleep | reader_woken | writer_asleep | writer_woken.

#[export] Instance place_eq_dec : EqDecision place.
Proof. solve_decision. Defined.

(** A thread and the locks it has taken and not given back. *)
Record thread := { at_ : place; reads : nat; writes : nat }.

Definition move (th : thread) (p : place) : thread := {| at_ := p; reads := reads th; writes := writes th |}.

Record system := { the_lock : NSSRWLock; threads : list thread }.

(** PR_NotifyCondVar wakes one of those asleep, if there is one. *)
Inductive wakes (ths : list thread) : wakeup → list thread → Prop :=
| wakes_no_one : wakes ths no_one ths
| wakes_one t th : ths !! t = Some th → at_ th = writer_asleep → wakes ths one_writer (<[t := move th writer_woken]> ths)
| wakes_none : (∀ t th, ths !! t = Some th → at_ th ≠ writer_asleep) → wakes ths one_writer ths
| wakes_all : wakes ths all_readers ((λ th, if decide (at_ th = reader_asleep) then move th reader_woken else th) <$> ths).

Definition read_result (th : thread) (ok : bool) : thread :=
  if ok then {| at_ := outside; reads := S (reads th); writes := writes th |} else move th reader_asleep.
Definition write_result (th : thread) (ok : bool) : thread :=
  if ok then {| at_ := outside; reads := reads th; writes := S (writes th) |} else move th writer_asleep.

(** Thread [me] runs.  Read locks are given back by those who have them; the
    code itself checks that for the write lock. *)
Inductive step (me : nat) : system → system → Prop :=
| step_read l ths th l' ok : ths !! me = Some th → at_ th = outside → NSSRWLock_LockRead me l = (l', ok) →
    step me {| the_lock := l; threads := ths |} {| the_lock := l'; threads := <[me := read_result th ok]> ths |}
| step_read_woken l ths th l' ok : ths !! me = Some th → at_ th = reader_woken → LockRead_woken me l = (l', ok) →
    step me {| the_lock := l; threads := ths |} {| the_lock := l'; threads := <[me := read_result th ok]> ths |}
| step_write l ths th l' ok : ths !! me = Some th → at_ th = outside → NSSRWLock_LockWrite me l = (l', ok) →
    step me {| the_lock := l; threads := ths |} {| the_lock := l'; threads := <[me := write_result th ok]> ths |}
| step_write_woken l ths th l' ok : ths !! me = Some th → at_ th = writer_woken → LockWrite_woken me l = (l', ok) →
    step me {| the_lock := l; threads := ths |} {| the_lock := l'; threads := <[me := write_result th ok]> ths |}
| step_unlock_read l ths th n l' w ths' : ths !! me = Some th → at_ th = outside → reads th = S n → NSSRWLock_UnlockRead l = (l', w) →
    wakes (<[me := {| at_ := outside; reads := n; writes := writes th |}]> ths) w ths' →
    step me {| the_lock := l; threads := ths |} {| the_lock := l'; threads := ths' |}
| step_unlock_write l ths th l' w ths' : ths !! me = Some th → at_ th = outside → NSSRWLock_UnlockWrite me l = (l', w) →
    wakes (<[me := {| at_ := outside; reads := reads th; writes := Nat.pred (writes th) |}]> ths) w ths' →
    step me {| the_lock := l; threads := ths |} {| the_lock := l'; threads := ths' |}
| step_spurious l ths th : ths !! me = Some th → at_ th = reader_asleep ∨ at_ th = writer_asleep →
    step me {| the_lock := l; threads := ths |}
      {| the_lock := l; threads := <[me := move th (if decide (at_ th = reader_asleep) then reader_woken else writer_woken)]> ths |}.

Definition initial (rank : Z) (n : nat) : system :=
  {| the_lock := mk_NSSRWLock rank 0 0 0 0 None; threads := replicate n {| at_ := outside; reads := 0; writes := 0 |} |}.

(** Runs, with the number of steps. *)
Inductive run (s0 : system) : nat → system → Prop :=
| run_start : run s0 0 s0
| run_step n s me s' : run s0 n s → step me s s' → run s0 (S n) s'.

(** ** The invariant *)

Definition waits_read (th : thread) : nat := match at_ th with reader_asleep | reader_woken => 1 | _ => 0 end.
Definition waits_write (th : thread) : nat := match at_ th with writer_asleep | writer_woken => 1 | _ => 0 end.

(** Who owns the lock is alone. *)
Definition owner_alone (l : NSSRWLock) (ths : list thread) : Prop :=
  match rw_owner l with
  | None => rw_writer_locks l = 0 ∧ ∀ u th, ths !! u = Some th → writes th = 0%nat
  | Some t => ∃ th, ths !! t = Some th ∧ rw_writer_locks l = writes th ∧ (0 < writes th)%nat ∧
              ∀ u th', ths !! u = Some th' → u ≠ t → writes th' = 0%nat ∧ reads th' = 0%nat
  end.

#[local] Arguments owner_alone : simpl never.

(** The counters count. *)
Record counted (n : nat) (l : NSSRWLock) (ths : list thread) : Prop := {
  c_length : Z.of_nat (length ths) < 2 ^ 31;
  c_readers : rw_reader_locks l = sum_list_with reads ths;
  c_waiting_readers : rw_waiting_readers l = sum_list_with waits_read ths;
  c_waiting_writers : rw_waiting_writers l = sum_list_with waits_write ths;
  c_bound : (sum_list_with reads ths + sum_list_with writes ths ≤ n)%nat;
  c_owner : owner_alone l ths;
}.

(** Nobody sleeps who should be awake. *)
Record alert (l : NSSRWLock) (ths : list thread) : Prop := {
  a_writers : rw_owner l = None → rw_reader_locks l = 0 → (∃ u th, ths !! u = Some th ∧ at_ th = writer_asleep) →
              ∃ u th, ths !! u = Some th ∧ at_ th = writer_woken;
  a_readers : rw_owner l = None → rw_waiting_writers l = 0 → ∀ u th, ths !! u = Some th → at_ th ≠ reader_asleep;
}.

Lemma sum_insert (f : thread → nat) ths t th th' : ths !! t = Some th →
  (sum_list_with f (<[t := th']> ths) + f th = sum_list_with f ths + f th')%nat.
Proof.
  revert t. induction ths as [|x ths IH]; intros [|t] Ht; [done..| |].
  - injection Ht as ->. change (<[0%nat := th']> (th :: ths)) with (th' :: ths). cbn [sum_list_with]. lia.
  - change (<[S t := th']> (x :: ths)) with (x :: <[t := th']> ths). cbn [sum_list_with]. specialize (IH t Ht). lia.
Qed.

Lemma sum_lookup (f : thread → nat) ths t th : ths !! t = Some th → (f th ≤ sum_list_with f ths)%nat.
Proof. revert t. induction ths as [|x ths IH]; intros [|t] Ht; [done..| |]; cbn [sum_list_with]; [injection Ht as ->; lia|]. specialize (IH t Ht). lia. Qed.

Lemma sum_zero (f : thread → nat) ths : sum_list_with f ths = 0%nat → ∀ t th, ths !! t = Some th → f th = 0%nat.
Proof. intros H0 t th Ht. pose proof (sum_lookup f ths t th Ht). lia. Qed.

Lemma sum_bounded (f : thread → nat) ths : (∀ th, f th ≤ 1)%nat → (sum_list_with f ths ≤ length ths)%nat.
Proof. intros Hf. induction ths as [|th ths IH]; [done|]. cbn. specialize (Hf th). lia. Qed.

(** Waking up changes neither locks nor counters. *)
Definition same (th th' : thread) : Prop :=
  reads th' = reads th ∧ writes th' = writes th ∧ waits_read th' = waits_read th ∧ waits_write th' = waits_write th ∧
  (at_ th' = writer_asleep → at_ th = writer_asleep) ∧ (at_ th' = reader_asleep → at_ th = reader_asleep) ∧ (at_ th = writer_woken → at_ th' = writer_woken).

Lemma same_refl th : same th th.
Proof. done. Qed.

Lemma same_sum f ths ths' : (∀ th th', same th th' → f th' = f th) → Forall2 same ths ths' → sum_list_with f ths' = sum_list_with f ths.
Proof. intros Hf. induction 1 as [|th th' ths ths' Hs _ IH]; [done|]. cbn. by rewrite IH, (Hf th th'). Qed.

Lemma same_insert ths t th th' : ths !! t = Some th → same th th' → Forall2 same ths (<[t := th']> ths).
Proof.
  revert t. induction ths as [|x ths IH]; intros [|t] Ht Hs; [done..| |]; cbn in *.
  - injection Ht as ->. constructor; [done|]. apply Forall_Forall2_diag, Forall_true. intros; apply same_refl.
  - constructor; [done|]. by apply IH.
Qed.

Lemma woken_same th : at_ th = writer_asleep → same th (move th writer_woken).
Proof. intros E. unfold same, waits_read, waits_write. cbn. rewrite E. by split_and!. Qed.

Lemma wakes_same ths w ths' : wakes ths w ths' → Forall2 same ths ths'.
Proof.
  assert (Hd : ∀ l : list thread, Forall2 same l l) by (intros; apply Forall_Forall2_diag, Forall_true; intros; apply same_refl).
  destruct 1 as [|t th Ht Hp| |]; [done| |done|].
  - by apply (same_insert _ _ th), woken_same.
  - clear Hd. induction ths as [|th ths IH]; [done|]. cbn. constructor; [|done]. case_decide as E; [|apply same_refl].
    unfold same, waits_read, waits_write. cbn. rewrite E. by split_and!.
Qed.

Lemma counted_same n l ths ths' : Forall2 same ths ths' → counted n l ths → counted n l ths'.
Proof.
  intros Hs [C1 C2 C3 C4 C5 C6].
  assert (R : sum_list_with reads ths' = sum_list_with reads ths) by (apply same_sum; [|done]; by intros ? ? (? & _)).
  assert (W : sum_list_with writes ths' = sum_list_with writes ths) by (apply same_sum; [|done]; by intros ? ? (_ & ? & _)).
  assert (WR : sum_list_with waits_read ths' = sum_list_with waits_read ths) by (apply same_sum; [|done]; by intros ? ? (_ & _ & ? & _)).
  assert (WW : sum_list_with waits_write ths' = sum_list_with waits_write ths) by (apply same_sum; [|done]; by intros ? ? (_ & _ & _ & ? & _)).
  assert (Hback : ∀ u th', ths' !! u = Some th' → ∃ th, ths !! u = Some th ∧ same th th').
  { intros u th' Hu. by apply (Forall2_lookup_r _ _ _ _ _ Hs). }
  constructor; rewrite ?R, ?W, ?WR, ?WW; try done; [by rewrite <- (Forall2_length _ _ _ Hs)|].
  unfold owner_alone in *. destruct (rw_owner l) as [t|].
  - destruct C6 as (th & Ht & Hw & Hp & Ho). destruct (Forall2_lookup_l _ _ _ _ _ Hs Ht) as (th' & Ht' & E1 & E2 & _). exists th'.
    split; [done|]. rewrite E2. split; [done|]. split; [done|]. intros u thu' Hu Hne. destruct (Hback u thu' Hu) as (thu & Hu' & -> & -> & _). by apply (Ho u).
  - destruct C6 as [Hw Ho]. split; [done|]. intros u thu' Hu. destruct (Hback u thu' Hu) as (thu & Hu' & _ & -> & _). by apply (Ho u).
Qed.

Lemma insert_lookup_cases (ths : list thread) me th' u thu : <[me := th']> ths !! u = Some thu → u = me ∧ thu = th' ∨ u ≠ me ∧ ths !! u = Some thu.
Proof. intros H. apply list_lookup_insert_Some in H as [(-> & <- & _)|[? ?]]; [by left|by right]. Qed.

Lemma owner_kept l l' ths me th th' : owner_alone l ths → ths !! me = Some th → rw_owner l' = rw_owner l →
  writes th' = writes th ∧ rw_writer_locks l' = rw_writer_locks l ∨ rw_owner l = Some me ∧ (0 < writes th')%nat ∧ rw_writer_locks l' = writes th' →
  rw_owner l = None ∨ rw_owner l = Some me ∨ (reads th' ≤ reads th)%nat → owner_alone l' (<[me := th']> ths).
Proof.
  intros Ho Hme E Hw Hr. unfold owner_alone in *. rewrite E. pose proof (lookup_lt_Some _ _ _ Hme) as Hlt. destruct (rw_owner l) as [t|].
  - destruct Ho as (tht & Ht & Hwl & Hp & Hoth). destruct (decide (t = me)) as [->|Hne].
    + rewrite Hme in Ht. injection Ht as <-. exists th'. rewrite list_lookup_insert_eq by done. split; [done|].
      split; [destruct Hw as [[-> ->]|(_ & _ & ->)]; done|]. split; [destruct Hw as [[-> _]|(_ & ? & _)]; done|].
      intros u thu Hu Hne. apply insert_lookup_cases in Hu as [[? _]|[_ Hu]]; [done|]. by apply (Hoth u).
    + destruct Hw as [[Hw Hwl']|([= ->] & _)]; [|done]. exists tht. rewrite list_lookup_insert_ne by done. split; [done|]. split; [congruence|]. split; [done|].
      intros u thu Hu Hut. apply insert_lookup_cases in Hu as [[-> ->]|[_ Hu]]; [|by apply (Hoth u)]. destruct (Hoth me th Hme ltac:(done)) as [Hw0 Hr0].
      split; [congruence|]. destruct Hr as [?|[[= ->]|?]]; [done|done|lia].
  - destruct Ho as [Hwl Hoth]. destruct Hw as [[Hw Hwl']|(? & _)]; [|done]. split; [congruence|].
    intros u thu Hu. apply insert_lookup_cases in Hu as [[-> ->]|[_ Hu]]; [rewrite Hw; by apply (Hoth me)|by apply (Hoth u)].
Qed.

Lemma counted_update n m l l' ths me th th' : counted n l ths → (n ≤ m)%nat → ths !! me = Some th →
  rw_reader_locks l' = rw_reader_locks l - reads th + reads th' → rw_waiting_readers l' = rw_waiting_readers l - waits_read th + waits_read th' →
  rw_waiting_writers l' = rw_waiting_writers l - waits_write th + waits_write th' → (reads th' + writes th' ≤ reads th + writes th + (m - n))%nat →
  owner_alone l' (<[me := th']> ths) → counted m l' (<[me := th']> ths).
Proof.
  intros [C1 C2 C3 C4 C5 C6] Hnm Hme E1 E2 E3 Hb Ho. pose proof (sum_insert reads ths me th th' Hme). pose proof (sum_insert writes ths me th th' Hme).
  pose proof (sum_insert waits_read ths me th th' Hme). pose proof (sum_insert waits_write ths me th th' Hme).
  constructor; [by rewrite length_insert|lia..|done].
Qed.

(** Counters as they are in a state of less than 2^31 steps. *)
Lemma counted_ranges n l ths : counted n l ths → Z.of_nat n < 2 ^ 31 - 1 →
  0 ≤ rw_reader_locks l < 2 ^ 31 - 1 ∧ 0 ≤ rw_writer_locks l < 2 ^ 31 - 1 ∧ 0 ≤ rw_waiting_readers l < 2 ^ 31 ∧ 0 ≤ rw_waiting_writers l < 2 ^ 31.
Proof.
  intros [C1 C2 C3 C4 C5 C6] Hn.
  pose proof (sum_bounded waits_read ths ltac:(intros th; unfold waits_read; case_match; lia)).
  pose proof (sum_bounded waits_write ths ltac:(intros th; unfold waits_write; case_match; lia)).
  split; [lia|]. split; [|lia]. unfold owner_alone in C6. destruct (rw_owner l) as [t|]; [|lia].
  destruct C6 as (th & Ht & -> & _). pose proof (sum_lookup writes ths t th Ht). lia.
Qed.

(** A thread leaves the place where it waits. *)
Lemma leave_counted n l ths me th : counted n l ths → Z.of_nat n < 2 ^ 31 - 1 → ths !! me = Some th →
  counted n (mk_NSSRWLock (rw_rank l) (rw_writer_locks l) (rw_reader_locks l) (u32 (rw_waiting_readers l - waits_read th))
               (u32 (rw_waiting_writers l - waits_write th)) (rw_owner l)) (<[me := move th outside]> ths).
Proof.
  intros Hc Hn Hme. pose proof (counted_ranges n l ths Hc Hn) as (_ & _ & Hwr & Hww). pose proof (sum_lookup waits_read ths me th Hme). pose proof (sum_lookup waits_write ths me th Hme).
  pose proof Hc as [_ _ C3 C4 _ C6]. rewrite !wrap_small by lia. apply (counted_update n n l _ ths me th); cbn; try (done || lia).
  all: change (waits_read (move th outside)) with 0%nat; change (waits_write (move th outside)) with 0%nat; try lia.
  apply (owner_kept l _ ths me th); cbn; try done; [by left|right; right; lia].
Qed.

Lemma may_read_cases l me : may_read l me = true → rw_owner l = Some me ∨ rw_owner l = None ∧ rw_waiting_writers l = 0.
Proof. unfold may_read. rewrite orb_true_iff, andb_true_iff, !bool_decide_eq_true, Z.eqb_eq. tauto. Qed.

Lemma may_write_cases l me : may_write l me = true → rw_owner l = Some me ∨ rw_owner l = None ∧ rw_reader_locks l = 0.
Proof. unfold may_write. rewrite orb_true_iff, andb_true_iff, !bool_decide_eq_true, Z.eqb_eq. tauto. Qed.

Lemma read_counted n l ths me th l' ok : counted n l ths → Z.of_nat n < 2 ^ 31 - 1 → ths !! me = Some th → at_ th = outside →
  NSSRWLock_LockRead me l = (l', ok) → counted (S n) l' (<[me := read_result th ok]> ths).
Proof.
  intros Hc Hn Hme Hp E. pose proof (counted_ranges n l ths Hc Hn) as (Hrl & _ & Hwr & Hww). pose proof (c_owner _ _ _ Hc) as Ho.
  assert (Hw : waits_read th = 0%nat ∧ waits_write th = 0%nat) by (unfold waits_read, waits_write; by rewrite Hp). destruct Hw as [Hw1 Hw2].
  unfold NSSRWLock_LockRead in E. destruct (may_read l me) eqn:Em; injection E as <- <-;
    (apply (counted_update n (S n) l _ ths me th); cbn; [done|lia|done|..]); rewrite ?Hw1, ?Hw2, ?swrap_small, ?wrap_small by lia; try (done || lia).
  - apply (owner_kept l _ ths me th); cbn; try done; [by left|]. apply may_read_cases in Em. tauto.
  - apply (owner_kept l _ ths me th); cbn; try done; [by left|]. right. right. lia.
Qed.

Lemma write_counted n l ths me th l' ok : counted n l ths → Z.of_nat n < 2 ^ 31 - 1 → ths !! me = Some th → at_ th = outside →
  NSSRWLock_LockWrite me l = (l', ok) → counted (S n) l' (<[me := write_result th ok]> ths).
Proof.
  intros Hc Hn Hme Hp E. pose proof (counted_ranges n l ths Hc Hn) as (Hrl & Hwl & Hwr & Hww). pose proof (c_owner _ _ _ Hc) as Ho.
  assert (Hw : waits_read th = 0%nat ∧ waits_write th = 0%nat) by (unfold waits_read, waits_write; by rewrite Hp). destruct Hw as [Hw1 Hw2].
  unfold NSSRWLock_LockWrite in E. destruct (may_write l me) eqn:Em; injection E as <- <-;
    (apply (counted_update n (S n) l _ ths me th); cbn; [done|lia|done|..]); rewrite ?Hw1, ?Hw2, ?swrap_small, ?wrap_small by lia; try (done || lia).
  - destruct (may_write_cases l me Em) as [Em'|[Em' H0]].
    + unfold owner_alone in Ho. rewrite Em' in Ho. destruct Ho as (th0 & Hme0 & Hwl' & Hrest). rewrite Hme in Hme0. injection Hme0 as <-.
      apply (owner_kept l _ ths me th); cbn; try done; [exact (c_owner _ _ _ Hc)|right; split_and!; [done|lia|lia]|by right; left].
    + unfold owner_alone in *. rewrite Em' in Ho. destruct Ho as [Hwl0 Hoth]. cbn. exists {| at_ := outside; reads := reads th; writes := S (writes th) |}.
      rewrite list_lookup_insert_eq by by apply (lookup_lt_Some _ _ _ Hme). split; [done|]. cbn. rewrite (Hoth me th Hme), Hwl0. split; [done|]. split; [lia|].
      intros u thu Hu Hne. apply insert_lookup_cases in Hu as [[? _]|[_ Hu]]; [done|]. split; [by apply (Hoth u)|].
      apply (sum_zero reads ths) with u; [|done]. pose proof (c_readers _ _ _ Hc). lia.
  - apply (owner_kept l _ ths me th); cbn; try done; [by left|]. right. right. lia.
Qed.

Lemma unlock_read_counted n l ths me th k l' w : counted n l ths → Z.of_nat n < 2 ^ 31 - 1 → ths !! me = Some th → at_ th = outside → reads th = S k →
  NSSRWLock_UnlockRead l = (l', w) → counted (S n) l' (<[me := {| at_ := outside; reads := k; writes := writes th |}]> ths) ∧
  rw_owner l' = rw_owner l ∧ rw_waiting_writers l' = rw_waiting_writers l ∧
  (rw_owner l = None → rw_reader_locks l' = 0 → 0 < rw_waiting_writers l → w = one_writer) ∧ w ≠ all_readers.
Proof.
  intros Hc Hn Hme Hp Hk E. pose proof (counted_ranges n l ths Hc Hn) as (Hrl & _ & Hwr & Hww). pose proof (c_owner _ _ _ Hc) as Ho.
  pose proof (sum_lookup reads ths me th Hme) as Hs. pose proof (c_readers _ _ _ Hc) as Hr.
  assert (Hw : waits_read th = 0%nat ∧ waits_write th = 0%nat) by (unfold waits_read, waits_write; by rewrite Hp). destruct Hw as [Hw1 Hw2].
  unfold NSSRWLock_UnlockRead in E. rewrite Z.gtb_ltb, (proj2 (Z.ltb_lt _ _)) in E by lia. cbn in E. rewrite swrap_small in E by lia. injection E as <- <-. cbn.
  split; [|split; [done|split; [done|]]].
  - apply (counted_update n (S n) l _ ths me th); cbn; rewrite ?Hw1, ?Hw2; try (done || lia).
    apply (owner_kept l _ ths me th); cbn; try done; [by left|]. right. right. lia.
  - split; [|by case_match]. intros -> -> Hpos. by rewrite bool_decide_eq_true_2, Z.gtb_ltb, (proj2 (Z.ltb_lt _ _)) by done.
Qed.

(** The write lock given up for good, or one of its several locks, or nothing. *)
Lemma unlock_write_counted n l ths me th l' w : counted n l ths → Z.of_nat n < 2 ^ 31 - 1 → ths !! me = Some th → at_ th = outside →
  NSSRWLock_UnlockWrite me l = (l', w) → counted (S n) l' (<[me := {| at_ := outside; reads := reads th; writes := Nat.pred (writes th) |}]> ths) ∧
  rw_waiting_writers l' = rw_waiting_writers l ∧ rw_waiting_readers l' = rw_waiting_readers l ∧ rw_reader_locks l' = rw_reader_locks l ∧
  (l' = l ∧ writes th = 0%nat ∧ w = no_one ∨ rw_owner l' ≠ None ∧ w = no_one ∨
   rw_owner l' = None ∧ w = if rw_waiting_writers l >? 0 then if rw_reader_locks l =? 0 then one_writer else no_one
                            else if rw_waiting_readers l >? 0 then all_readers else no_one).
Proof.
  intros Hc Hn Hme Hp E. pose proof (counted_ranges n l ths Hc Hn) as (Hrl & Hwl & Hwr & Hww). pose proof (c_owner _ _ _ Hc) as Ho.
  assert (Hw : waits_read th = 0%nat ∧ waits_write th = 0%nat) by (unfold waits_read, waits_write; by rewrite Hp). destruct Hw as [Hw1 Hw2].
  unfold NSSRWLock_UnlockWrite in E. destruct (bool_decide_reflect (rw_owner l = Some me)) as [Hown|Hown]; cbn [andb] in E.
  - pose proof Ho as Ho'. unfold owner_alone in Ho'. rewrite Hown in Ho'. destruct Ho' as (th0 & Hme0 & Hwl' & Hpos & Hoth). rewrite Hme in Hme0. injection Hme0 as <-.
    rewrite Z.gtb_ltb, (proj2 (Z.ltb_lt _ _)), swrap_small in E by lia. destruct (Z.eqb_spec (rw_writer_locks l - 1) 0) as [E1|E1]; injection E as <- <-; cbn.
    + split; [|split_and!; try done; by right; right].
      apply (counted_update n (S n) l _ ths me th); cbn; rewrite ?Hw1, ?Hw2; try (done || lia).
      unfold owner_alone. cbn. split; [lia|]. intros u thu Hu. apply insert_lookup_cases in Hu as [[-> ->]|[Hne Hu]]; [cbn; lia|by apply (Hoth u)].
    + split; [|split_and!; try done; right; left; by rewrite Hown].
      apply (counted_update n (S n) l _ ths me th); cbn; rewrite ?Hw1, ?Hw2; try (done || lia).
      apply (owner_kept l _ ths me th); cbn; try done; [right; split_and!; [done|lia|lia]|by right; left].
  - injection E as <- <-. assert (H0 : writes th = 0%nat).
    { unfold owner_alone in Ho. destruct (rw_owner l) as [t|]; [|by apply (proj2 Ho me)]. destruct Ho as (th0 & Ht & _ & _ & Hoth).
      apply (Hoth me th Hme). congruence. }
    split; [|split_and!; try done; by left]. apply (counted_update n (S n) l _ ths me th); cbn; rewrite ?Hw1, ?Hw2, ?H0; try (done || lia).
    apply (owner_kept l _ ths me th); cbn; try done; [left; by rewrite H0|]. right. right. lia.
Qed.

Lemma step_counted n me s s' : counted n (the_lock s) (threads s) → Z.of_nat n < 2 ^ 31 - 1 → step me s s' → counted (S n) (the_lock s') (threads s').
Proof.
  intros Hc Hn Hs. destruct Hs as [l ths th l' ok Ht Hp E|l ths th l' ok Ht Hp E|l ths th l' ok Ht Hp E|l ths th l' ok Ht Hp E
    |l ths th k l' w ths' Ht Hp Hk E Hw|l ths th l' w ths' Ht Hp E Hw|l ths th Ht Hp]; cbn [the_lock threads] in *.
  - by apply (read_counted n l ths me th).
  - assert (Hw : waits_read th = 1%nat ∧ waits_write th = 0%nat) by (unfold waits_read, waits_write; by rewrite Hp). destruct Hw as [Hw1 Hw2].
    pose proof (leave_counted n l ths me th Hc Hn Ht) as Hl. rewrite Hw1, Hw2, Z.sub_0_r in Hl.
    pose proof (counted_ranges n l ths Hc Hn) as (_ & _ & _ & Hww). rewrite (wrap_small 32 (rw_waiting_writers l)) in Hl by lia.
    eapply (read_counted n _ _ me (move th outside)) in Hl; [|done|by apply list_lookup_insert_eq, (lookup_lt_Some _ _ _ Ht)|done|exact E].
    rewrite list_insert_insert_eq in Hl. by destruct ok.
  - by apply (write_counted n l ths me th).
  - assert (Hw : waits_read th = 0%nat ∧ waits_write th = 1%nat) by (unfold waits_read, waits_write; by rewrite Hp). destruct Hw as [Hw1 Hw2].
    pose proof (leave_counted n l ths me th Hc Hn Ht) as Hl. rewrite Hw1, Hw2, Z.sub_0_r in Hl.
    pose proof (counted_ranges n l ths Hc Hn) as (_ & _ & Hwr & _). rewrite (wrap_small 32 (rw_waiting_readers l)) in Hl by lia.
    eapply (write_counted n _ _ me (move th outside)) in Hl; [|done|by apply list_lookup_insert_eq, (lookup_lt_Some _ _ _ Ht)|done|exact E].
    rewrite list_insert_insert_eq in Hl. by destruct ok.
  - destruct (unlock_read_counted n l ths me th k l' w Hc Hn Ht Hp Hk E) as [H _]. apply wakes_same in Hw. by apply (counted_same _ _ _ _ Hw).
  - destruct (unlock_write_counted n l ths me th l' w Hc Hn Ht Hp E) as [H _]. apply wakes_same in Hw. by apply (counted_same _ _ _ _ Hw).
  - set (p := if decide (at_ th = reader_asleep) then _ else _).
    assert (Ew : waits_read (move th p) = waits_read th ∧ waits_write (move th p) = waits_write th).
    { unfold waits_read, waits_write, p, move. cbn. destruct Hp as [Hp|Hp]; rewrite Hp; [by rewrite decide_True|by rewrite decide_False]. }
    destruct Ew as [E1 E2]. apply (counted_update n (S n) l _ ths me th); rewrite ?E1, ?E2; cbn; try (done || lia).
    apply (owner_kept l _ ths me th); cbn; try done; [apply (c_owner _ _ _ Hc)|by left|right; right; lia].
Qed.

(** ** Nobody is forgotten *)

Lemma sleeper_counted n l ths u th : counted n l ths → ths !! u = Some th → at_ th = writer_asleep ∨ at_ th = writer_woken → 0 < rw_waiting_writers l.
Proof.
  intros Hc Hu Hp. rewrite (c_waiting_writers _ _ _ Hc). pose proof (sum_lookup waits_write ths u th Hu) as Hs. unfold waits_write in Hs at 1.
  destruct Hp as [Hp|Hp]; rewrite Hp in Hs; lia.
Qed.

Lemma write_alert m l0 l' ths me th ok : counted m l' (<[me := write_result th ok]> ths) → ths !! me = Some th → NSSRWLock_LockWrite me l0 = (l', ok) →
  alert l' (<[me := write_result th ok]> ths).
Proof.
  intros Hc Hme E. unfold NSSRWLock_LockWrite in E. destruct (may_write l0 me) eqn:Em; injection E as <- <-; [by constructor|].
  assert (Hbusy : rw_owner l0 = None → rw_reader_locks l0 ≠ 0).
  { intros E0 Hr. unfold may_write in Em. rewrite E0, Hr in Em. cbn in Em. by rewrite orb_true_r in Em. }
  constructor; cbn [rw_owner rw_reader_locks rw_waiting_writers].
  - intros E0 Hr. by destruct (Hbusy E0).
  - intros _ H0. pose proof (sleeper_counted m _ _ me (move th writer_asleep) Hc) as Hs. cbn [rw_waiting_writers] in Hs. rewrite H0 in Hs. exfalso.
    assert (0 < 0); [|lia]. apply Hs; [|by left]. by apply list_lookup_insert_eq, (lookup_lt_Some _ _ _ Hme).
Qed.

Lemma read_alert m l l0 l' ths me th ok : alert l ths → counted m l' (<[me := read_result th ok]> ths) → ths !! me = Some th →
  at_ th = outside ∨ at_ th = reader_woken → rw_owner l0 = rw_owner l → rw_waiting_writers l0 = rw_waiting_writers l → rw_reader_locks l0 = rw_reader_locks l →
  NSSRWLock_LockRead me l0 = (l', ok) → alert l' (<[me := read_result th ok]> ths).
Proof.
  intros [Aw Ar] Hc Hme Hp E1 E2 E3 E. pose proof (lookup_lt_Some _ _ _ Hme) as Hlt. unfold NSSRWLock_LockRead in E.
  destruct (may_read l0 me) eqn:Em; injection E as <- <-; constructor; cbn [rw_owner rw_reader_locks rw_waiting_writers].
  - intros _ H0. pose proof (c_readers _ _ _ Hc) as Hr. cbn [rw_reader_locks] in Hr. rewrite H0 in Hr.
    pose proof (sum_lookup reads (<[me := read_result th true]> ths) me (read_result th true) ltac:(by apply list_lookup_insert_eq)) as Hs. cbn [read_result reads] in Hs, Hr. lia.
  - rewrite E1, E2. intros Ho Hw u thu Hu. apply insert_lookup_cases in Hu as [[-> ->]|[_ Hu]]; [done|]. by apply (Ar Ho Hw u).
  - rewrite E1, E3. intros Ho Hr (u & thu & Hu & Hpu). apply insert_lookup_cases in Hu as [[-> ->]|[Hne Hu]]; [done|].
    destruct Aw as (v & thv & Hv & Hpv); [done|done|by exists u, thu|]. exists v, thv. split; [|done]. rewrite list_lookup_insert_ne; [done|].
    intros ->. rewrite Hme in Hv. injection Hv as ->. destruct Hp; congruence.
  - rewrite E1, E2. intros Ho Hw. unfold may_read in Em. rewrite E1, E2, Ho, Hw in Em. cbn in Em. by rewrite orb_true_r in Em.
Qed.

(** Threads behind a wakeup. *)
Lemma wakes_writers ths ths' : wakes ths one_writer ths' → (∃ u th, ths' !! u = Some th ∧ at_ th = writer_asleep) → ∃ u th, ths' !! u = Some th ∧ at_ th = writer_woken.
Proof.
  intros Hw (u & thu & Hu & Hp). inversion Hw as [|t th Ht Hpt| Hno|]; subst.
  - exists t, (move th writer_woken). split; [|done]. by apply list_lookup_insert_eq, (lookup_lt_Some _ _ _ Ht).
  - by destruct (Hno u thu).
Qed.

Lemma wakes_asleep ths w ths' u thu : wakes ths w ths' → ths' !! u = Some thu → at_ thu = reader_asleep → w ≠ all_readers ∧ ∃ th, ths !! u = Some th ∧ at_ th = reader_asleep.
Proof.
  intros Hw Hu Hp. split.
  - intros ->. inversion Hw; subst. rewrite list_lookup_fmap in Hu. apply fmap_Some in Hu as (th & _ & ->). by case_decide.
  - destruct (Forall2_lookup_r _ _ _ _ _ (wakes_same _ _ _ Hw) Hu) as (th & Hth & _ & _ & _ & _ & _ & H & _). exists th. by split; [|apply H].
Qed.

Lemma step_alert n me s s' : counted n (the_lock s) (threads s) → Z.of_nat n < 2 ^ 31 - 1 → alert (the_lock s) (threads s) → step me s s' → alert (the_lock s') (threads s').
Proof.
  intros Hc Hn Ha Hs. pose proof (step_counted n me s s' Hc Hn Hs) as Hc'. destruct Hs as [l ths th l' ok Ht Hp E|l ths th l' ok Ht Hp E|l ths th l' ok Ht Hp E|l ths th l' ok Ht Hp E
    |l ths th k l' w ths' Ht Hp Hk E Hw|l ths th l' w ths' Ht Hp E Hw|l ths th Ht Hp]; cbn [the_lock threads] in *.
  - apply (read_alert (S n) l l l' ths me th ok); try done. by left.
  - eapply (read_alert (S n) l (mk_NSSRWLock _ _ _ (u32 (rw_waiting_readers l - 1)) _ _) l' ths me th ok); [done|done|done|by right| | | |exact E]; done.
  - by apply (write_alert (S n) l l' ths me th ok).
  - by eapply (write_alert (S n) _ l' ths me th ok).
  - destruct (unlock_read_counted n l ths me th k l' w Hc Hn Ht Hp Hk E) as (_ & E1 & E2 & Hone & Hnot). destruct Ha as [Aw Ar]. constructor; rewrite ?E1, ?E2.
    + intros Ho Hr Hex. pose proof Hex as (u & thu & Hu & Hpu). pose proof (sleeper_counted _ _ _ u thu Hc' Hu (or_introl Hpu)) as Hpos. rewrite E2 in Hpos.
      rewrite (Hone Ho Hr Hpos) in Hw. by apply (wakes_writers _ _ Hw).
    + intros Ho H0 u thu Hu Hpu. destruct (wakes_asleep _ _ _ _ _ Hw Hu Hpu) as [_ (tho & Huo & Hpo)].
      apply insert_lookup_cases in Huo as [[-> ->]|[_ Huo]]; [done|]. by apply (Ar Ho H0 u tho).
  - destruct (unlock_write_counted n l ths me th l' w Hc Hn Ht Hp E) as (_ & E1 & E2 & E3 & Hcase). destruct Hcase as [(-> & H0 & ->)|[[Ho ->]|[Ho Hwv]]].
    + inversion Hw; subst. assert (Eth : {| at_ := outside; reads := reads th; writes := Nat.pred (writes th) |} = th) by (destruct th; cbn in *; by subst).
      by rewrite Eth, list_insert_id.
    + by constructor; intros E0; rewrite E0 in Ho.
    + constructor; rewrite ?E1, ?E3.
      * intros _ Hr Hex. pose proof Hex as (u & thu & Hu & Hpu). pose proof (sleeper_counted _ _ _ u thu Hc' Hu (or_introl Hpu)) as Hpos. rewrite E1 in Hpos.
        rewrite Z.gtb_ltb, (proj2 (Z.ltb_lt _ _)), Hr, Z.eqb_refl in Hwv by done. rewrite Hwv in Hw. by apply (wakes_writers _ _ Hw).
      * intros _ H0 u thu Hu Hpu. destruct (wakes_asleep _ _ _ _ _ Hw Hu Hpu) as [Hnot (tho & Huo & Hpo)].
        rewrite H0 in Hwv. cbn in Hwv. destruct (Z.gtb_spec (rw_waiting_readers l) 0) as [?|Hle]; [done|].
        apply insert_lookup_cases in Huo as [[-> ->]|[_ Huo]]; [done|]. pose proof (sum_lookup waits_read ths u tho Huo) as Hs. unfold waits_read in Hs at 1.
        rewrite Hpo in Hs. pose proof (c_waiting_readers _ _ _ Hc). lia.
  - destruct Ha as [Aw Ar]. pose proof (lookup_lt_Some _ _ _ Ht) as Hlt. constructor.
    + intros Ho Hr (u & thu & Hu & Hpu). apply insert_lookup_cases in Hu as [[-> ->]|[Hne Hu]]; [cbn in Hpu; by case_decide|].
      destruct Aw as (v & thv & Hv & Hpv); [done|done|by exists u, thu|]. exists v, thv. split; [|done]. rewrite list_lookup_insert_ne; [done|].
      intros ->. rewrite Ht in Hv. injection Hv as ->. destruct Hp; congruence.
    + intros Ho H0 u thu Hu Hpu. apply insert_lookup_cases in Hu as [[-> ->]|[Hne Hu]]; [cbn in Hpu; by case_decide|]. by apply (Ar Ho H0 u thu).
Qed.

Lemma run_invariant rank k n s : run (initial rank k) n s → Z.of_nat k < 2 ^ 31 → Z.of_nat n < 2 ^ 31 → counted n (the_lock s) (threads s) ∧ alert (the_lock s) (threads s) ∧ length (threads s) = k.
Proof.
  intros Hr Hk. induction Hr as [|n s me s' Hr IH Hs]; intros Hn.
  - cbn. assert (H0 : ∀ f : thread → nat, f {| at_ := outside; reads := 0; writes := 0 |} = 0%nat → sum_list_with f (replicate k {| at_ := outside; reads := 0; writes := 0 |}) = 0%nat).
    { intros f Hf. clear Hk. induction k as [|k IH]; [done|]. cbn. by rewrite Hf. }
    assert (Hl : ∀ u th, replicate k {| at_ := outside; reads := 0; writes := 0 |} !! u = Some th → th = {| at_ := outside; reads := 0; writes := 0 |})
      by (intros u th Hu; by apply lookup_replicate in Hu as [-> _]).
    split_and!; [|constructor|by rewrite length_replicate].
    + constructor; rewrite ?length_replicate, ?H0 by done; try done. split; [done|]. intros u th Hu. by rewrite (Hl u th Hu).
    + intros _ _ (u & th & Hu & Hp). by rewrite (Hl u th Hu) in Hp.
    + intros _ _ u th Hu. by rewrite (Hl u th Hu).
  - destruct (IH ltac:(lia)) as (Hc & Ha & Hl). split_and!; [apply (step_counted n me s); (done || lia)|apply (step_alert n me s); (done || lia)|].
    rewrite <- Hl. destruct Hs; cbn [threads]; rewrite ?length_insert; try done;
      (match goal with H : wakes _ _ _ |- _ => apply wakes_same, Forall2_length in H; by rewrite <- H, length_insert end).
Qed.

Lemma owner_writes n l ths me th : counted n l ths → ths !! me = Some th → rw_owner l = Some me ↔ (0 < writes th)%nat.
Proof.
  intros Hc Hme. pose proof (c_owner _ _ _ Hc) as Ho. unfold owner_alone in Ho. destruct (rw_owner l) as [t|].
  - destruct Ho as (tht & Ht & _ & Hp & Hoth). destruct (decide (me = t)) as [->|Hne].
    + rewrite Hme in Ht. injection Ht as <-. done.
    + destruct (Hoth me th Hme Hne) as [-> _]. split; [congruence|lia].
  - destruct Ho as [_ Ho]. rewrite (Ho me th Hme). split; [done|lia].
Qed.

(** What a thread has is its own affair. *)
Lemma step_others u me s s' th : step u s s' → u ≠ me → threads s !! me = Some th → ∃ th', threads s' !! me = Some th' ∧ reads th' = reads th ∧ writes th' = writes th.
Proof.
  intros Hs Hne Hme. assert (Hwake : ∀ x w ths', wakes (<[u := x]> (threads s)) w ths' → ∃ th', ths' !! me = Some th' ∧ reads th' = reads th ∧ writes th' = writes th).
  { intros x w ths' Hw. destruct (Forall2_lookup_l _ _ _ me th (wakes_same _ _ _ Hw)) as (th' & H & E1 & E2 & _); [by rewrite list_lookup_insert_ne|]. by exists th'. }
  destruct Hs; cbn [threads] in *; try (exists th; rewrite list_lookup_insert_ne by done; done).
  - by apply (Hwake _ _ _ H3).
  - by apply (Hwake _ _ _ H2).
Qed.

(** ** Theorems *)

(** [C36] Whatever way fewer than 2^31 steps of any threads interleave, a thread that
    has the write lock is alone: no other thread has it or has a read lock.  The
    counters are exact: rw_reader_locks is the number of read locks held,
    rw_owner the thread with the write lock, and the waiting counts are those
    of the threads that wait. *)
Theorem write_excludes rank k n s : run (initial rank k) n s → Z.of_nat k < 2 ^ 31 → Z.of_nat n < 2 ^ 31 →
  (∀ t u tht thu, threads s !! t = Some tht → threads s !! u = Some thu → t ≠ u → (0 < writes tht)%nat → writes thu = 0%nat ∧ reads thu = 0%nat) ∧
  rw_reader_locks (the_lock s) = sum_list_with reads (threads s) ∧
  rw_waiting_readers (the_lock s) = sum_list_with waits_read (threads s) ∧ rw_waiting_writers (the_lock s) = sum_list_with waits_write (threads s) ∧
  ∀ t th, threads s !! t = Some th → rw_owner (the_lock s) = Some t ↔ (0 < writes th)%nat.
Proof.
  intros Hr Hk Hn. destruct (run_invariant rank k n s Hr Hk Hn) as (Hc & _ & _). pose proof Hc as [_ C2 C3 C4 _ C6]. split; [|split; [done|split; [done|split; [done|]]]].
  - intros t u tht thu Ht Hu Hne Hw. apply (owner_writes n _ _ t tht Hc Ht) in Hw. unfold owner_alone in C6. rewrite Hw in C6.
    destruct C6 as (_ & _ & _ & _ & Hoth). by apply (Hoth u).
  - intros t th Ht. by apply (owner_writes n _ _ t th Hc Ht).
Qed.

(** [C37] No wakeup is lost: when no thread has the lock but some thread waits for it,
    a thread has been woken whose test will succeed: a writer if writers wait,
    else a reader. *)
Theorem no_lost_wakeup rank k n s t th : run (initial rank k) n s → Z.of_nat k < 2 ^ 31 → Z.of_nat n < 2 ^ 31 →
  (∀ u thu, threads s !! u = Some thu → reads thu = 0%nat ∧ writes thu = 0%nat) →
  threads s !! t = Some th → at_ th ≠ outside →
  ∃ u thu l', threads s !! u = Some thu ∧
    if decide (rw_waiting_writers (the_lock s) = 0) then at_ thu = reader_woken ∧ LockRead_woken u (the_lock s) = (l', true)
    else at_ thu = writer_woken ∧ LockWrite_woken u (the_lock s) = (l', true).
Proof.
  intros Hr Hk Hn Hfree Ht Hp. destruct (run_invariant rank k n s Hr Hk Hn) as (Hc & [Aw Ar] & _).
  assert (Hown : rw_owner (the_lock s) = None).
  { pose proof (c_owner _ _ _ Hc) as Ho. unfold owner_alone in Ho. destruct (rw_owner (the_lock s)) as [o|]; [|done].
    destruct Ho as (tho & Hto & _ & Hpos & _). destruct (Hfree o tho Hto). lia. }
  assert (Hrd : rw_reader_locks (the_lock s) = 0).
  { rewrite (c_readers _ _ _ Hc). clear - Hfree. induction (threads s) as [|x l IH]; [done|]. cbn [sum_list_with].
    destruct (Hfree 0%nat x eq_refl) as [-> _]. apply IH. intros u thu Hu. by apply (Hfree (S u)). }
  case_decide as Hw.
  - exists t, th. eexists. split; [done|]. assert (Hpr : at_ th = reader_woken).
    { pose proof (Ar Hown Hw t th Ht). pose proof (sleeper_counted n _ _ t th Hc Ht) as Hs. rewrite Hw in Hs.
      destruct (at_ th); try done; (assert (0 < 0) by (apply Hs; auto); lia). }
    split; [done|]. unfold LockRead_woken, NSSRWLock_LockRead, may_read. cbn. rewrite Hown, Hw. cbn. by rewrite orb_true_r.
  - assert (Hex : ∃ u thu, threads s !! u = Some thu ∧ at_ thu = writer_woken).
    { assert (Hsum : (0 < sum_list_with waits_write (threads s))%nat) by (pose proof (c_waiting_writers _ _ _ Hc); lia).
      assert (Hone : ∃ u thu, threads s !! u = Some thu ∧ (0 < waits_write thu)%nat).
      { clear - Hsum. induction (threads s) as [|x l IH]; [cbn in Hsum; lia|]. destruct (decide (0 < waits_write x)%nat); [by exists 0%nat, x|].
        cbn [sum_list_with] in Hsum. destruct IH as (u & thu & Hu & Hp); [lia|]. by exists (S u), thu. }
      destruct Hone as (u & thu & Hu & Hp'). unfold waits_write in Hp'. destruct (at_ thu) eqn:Ea; try lia; [|by exists u, thu]. apply Aw; try done. by exists u, thu. }
    destruct Hex as (u & thu & Hu & Hpu). exists u, thu. eexists. split; [done|]. split; [done|].
    unfold LockWrite_woken, NSSRWLock_LockWrite, may_write. cbn. rewrite Hown, Hrd. cbn. by rewrite orb_true_r.
Qed.

(** NSSRWLock_HaveWriteLock tells whether the calling thread has the write lock,
    and no step of another thread changes the answer: reading the owner without
    the mutex is right. *)
Theorem HaveWriteLock_exact rank k n s me th : run (initial rank k) n s → Z.of_nat k < 2 ^ 31 → Z.of_nat n + 1 < 2 ^ 31 → threads s !! me = Some th →
  NSSRWLock_HaveWriteLock me (the_lock s) = bool_decide (0 < writes th)%nat ∧
  ∀ u s', u ≠ me → step u s s' → NSSRWLock_HaveWriteLock me (the_lock s') = NSSRWLock_HaveWriteLock me (the_lock s).
Proof.
  intros Hr Hk Hn Hme. destruct (run_invariant rank k n s Hr Hk ltac:(lia)) as (Hc & _ & _). unfold NSSRWLock_HaveWriteLock. split.
  - apply bool_decide_ext. by apply (owner_writes n _ _ me th Hc).
  - intros u s' Hne Hs. pose proof (step_counted n u s s' Hc ltac:(lia) Hs) as Hc'. destruct (step_others u me s s' th Hs Hne Hme) as (th' & Hme' & _ & Hw).
    apply bool_decide_ext. rewrite (owner_writes n _ _ me th Hc Hme), (owner_writes (S n) _ _ me th' Hc' Hme'). by rewrite Hw.
Qed.

(** ** A run *)

(** A reader, a writer that waits for it, and the reader gone. *)
Definition demo_thread (p : place) (r w : nat) : thread := {| at_ := p; reads := r; writes := w |}.
Definition demo_state : system :=
  {| the_lock := mk_NSSRWLock 7 0 0 0 1 None; threads := [demo_thread outside 0 0; demo_thread writer_woken 0 0] |}.

Lemma demo_run : run (initial 7 2) 3 demo_state.
Proof.
  assert (S1 : step 0 (initial 7 2) {| the_lock := mk_NSSRWLock 7 0 1 0 0 None; threads := [demo_thread outside 1 0; demo_thread outside 0 0] |})
    by exact (step_read 0 (mk_NSSRWLock 7 0 0 0 0 None) [demo_thread outside 0 0; demo_thread outside 0 0] (demo_thread outside 0 0) (mk_NSSRWLock 7 0 1 0 0 None) true eq_refl eq_refl eq_refl).
  assert (S2 : step 1 {| the_lock := mk_NSSRWLock 7 0 1 0 0 None; threads := [demo_thread outside 1 0; demo_thread outside 0 0] |}
    {| the_lock := mk_NSSRWLock 7 0 1 0 1 None; threads := [demo_thread outside 1 0; demo_thread writer_asleep 0 0] |})
    by exact (step_write 1 (mk_NSSRWLock 7 0 1 0 0 None) [demo_thread outside 1 0; demo_thread outside 0 0] (demo_thread outside 0 0) (mk_NSSRWLock 7 0 1 0 1 None) false
      eq_refl eq_refl eq_refl).
  assert (S3 : step 0 {| the_lock := mk_NSSRWLock 7 0 1 0 1 None; threads := [demo_thread outside 1 0; demo_thread writer_asleep 0 0] |} demo_state).
  { apply (step_unlock_read 0 (mk_NSSRWLock 7 0 1 0 1 None) [demo_thread outside 1 0; demo_thread writer_asleep 0 0] (demo_thread outside 1 0) 0 (mk_NSSRWLock 7 0 0 0 1 None)
      one_writer _ eq_refl eq_refl eq_refl eq_refl).
    exact (wakes_one [demo_thread outside 0 0; demo_thread writer_asleep 0 0] 1 (demo_thread writer_asleep 0 0) eq_refl eq_refl). }
  exact (run_step _ 2 _ _ _ (run_step _ 1 _ _ _ (run_step _ 0 _ _ _ (run_start _) S1) S2) S3).
Qed.

Lemma write_excludes_witness :
  (∀ t u tht thu, threads demo_state !! t = Some tht → threads demo_state !! u = Some thu → t ≠ u → (0 < writes tht)%nat → writes thu = 0%nat ∧ reads thu = 0%nat) ∧
  rw_reader_locks (the_lock demo_state) = 0%nat ∧ rw_waiting_readers (the_lock demo_state) = 0%nat ∧ rw_waiting_writers (the_lock demo_state) = 1%nat ∧
  ∀ t th, threads demo_state !! t = Some th → rw_owner (the_lock demo_state) = Some t ↔ (0 < writes th)%nat.
Proof. apply (write_excludes 7 2 3 demo_state demo_run); lia. Defined.

Lemma no_lost_wakeup_witness : ∃ u thu l', threads demo_state !! u = Some thu ∧ at_ thu = writer_woken ∧ LockWrite_woken u (the_lock demo_state) = (l', true).
Proof.
  apply (no_lost_wakeup 7 2 3 demo_state 1 (demo_thread writer_woken 0 0) demo_run); try done; try lia.
  intros [|[|u]] thu Hu; cbn in Hu; [by injection Hu as <-..|done].
Defined.

Lemma HaveWriteLock_exact_witness : NSSRWLock_HaveWriteLock 1 (the_lock demo_state) = false ∧
  ∀ u s', u ≠ 1%nat → step u demo_state s' → NSSRWLock_HaveWriteLock 1 (the_lock s') = NSSRWLock_HaveWriteLock 1 (the_lock demo_state).
Proof. apply (HaveWriteLock_exact 7 2 3 demo_state 1 (demo_thread writer_woken 0 0) demo_run); (done || lia). Defined.
