(* ===== verification/Utf8.v ===== *)
(** lib/util/utf8.c: conversions between UTF-8 and UCS-4, UTF-16 and Latin-1.

    The input from the current index on is a list; the output is a block that is
    written at an offset.  [ucs4_utf8_exact], [utf16_utf8_exact] and
    [iso88591_utf8_exact] say which inputs are converted and to what, in terms of
    the arithmetic definition of the encodings, in both directions. *)

From stdpp Require Import base numbers list.
From S2P Require Import Prelude.

Definition UINT_MAX : Z := 2 ^ 32 - 1.

(** ** One character *)

(** The number of octets the first one announces. *)
Definition announced (b : Z) : option nat :=
  if Z.land b 0x80 =? 0x00 then Some 1%nat
  else if Z.land b 0xE0 =? 0xC0 then Some 2%nat
  else if Z.land b 0xF0 =? 0xE0 then Some 3%nat
  else if Z.land b 0xF8 =? 0xF0 then Some 4%nat
  else None.

(** [while (bytes_left--)] *)
Fixpoint read_tail (bytes_left : nat) (result : Z) (s : list Z) : option (Z * list Z) :=
  match bytes_left with
  | O => Some (result, s)
  | S bytes_left =>
      match s with
      | [] => None
      | b :: s => if negb (Z.land b 0xC0 =? 0x80) then None
                  else read_tail bytes_left (Z.lor (u32 (Z.shiftl result 6)) (Z.land b 0x3F)) s
      end
  end.

(** The character and what follows it; [None] is BAD_UTF8. *)
Definition sec_port_read_utf8 (s : list Z) : option (Z * list Z) :=
  match s with
  | [] => None
  | b :: s =>
      match (if Z.land b 0x80 =? 0x00 then Some (b, 0%nat, 0)
             else if Z.land b 0xE0 =? 0xC0 then Some (Z.land b 0x1F, 1%nat, 0x80)
             else if Z.land b 0xF0 =? 0xE0 then Some (Z.land b 0x0F, 2%nat, 0x800)
             else if Z.land b 0xF8 =? 0xF0 then Some (Z.land b 0x07, 3%nat, 0x10000)
             else None) with
      | None => None
      | Some (result, bytes_left, min_value) =>
          match read_tail bytes_left result s with
          | None => None
          | Some (result, s) =>
              if (result <? min_value) || (Z.land result 0xFFFFF800 =? 0xD800) || (result >? 0x10FFFF) then None
              else Some (result, s)
          end
      end
  end.

(** ** Conversions *)

(** The return value, the output block and *outBufLen, if it was set. *)
Record converted := { ret : bool; outBuf : list Z; outBufLen : option Z }.

(** The first loops over UTF-8: [width n] octets for a character of [n]; [None]
    is an octet that starts no character. *)
Fixpoint count_utf8 (fuel : nat) (width : nat → Z) (s : list Z) (len : Z) : option Z :=
  match fuel, s with
  | _, [] => Some len
  | O, _ => None
  | S fuel, b :: _ => match announced b with
                      | None => None
                      | Some n => count_utf8 fuel width (drop n s) (u32 (len + width n))
                      end
  end.

(** The second loops over UTF-8; [put] is what is written for a character. *)
Fixpoint from_utf8 (fuel : nat) (put : Z → list Z) (s out : list Z) (len : Z) : mem_res converted :=
  match fuel, s with
  | _, [] => Ok {| ret := true; outBuf := out; outBufLen := Some len |}
  | O, _ => UB
  | S fuel, _ => match sec_port_read_utf8 s with
                 | None => Ok {| ret := false; outBuf := out; outBufLen := None |}
                 | Some (ucs4, s) =>
                     out ← mem_write out (Z.to_nat len) (put ucs4);
                     from_utf8 fuel put s out (u32 (len + length (put ucs4)))
                 end
  end.

Definition put_ucs4 (ucs4 : Z) : list Z := [0; u8 (Z.shiftr ucs4 16); u8 (Z.shiftr ucs4 8); u8 ucs4].

Definition put_utf16 (ucs4 : Z) : list Z :=
  if ucs4 <? 0x10000 then [u8 (Z.shiftr ucs4 8); u8 ucs4]
  else let ucs4 := u32 (ucs4 - 0x10000) in
       [u8 (Z.lor 0xD8 (Z.land (Z.shiftr ucs4 18) 0x3)); u8 (Z.shiftr ucs4 10); u8 (Z.lor 0xDC (Z.land (Z.shiftr ucs4 8) 0x3)); u8 ucs4].

Definition refused (out : list Z) (n : Z) : mem_res converted := Ok {| ret := false; outBuf := out; outBufLen := Some n |}.

(** Count, compare with the room, write. *)
Definition utf8_to (limit : Z) (width : nat → Z) (put : Z → list Z) (inBuf out : list Z) (maxOutBufLen : Z) : mem_res converted :=
  if length inBuf >? UINT_MAX / limit then refused out 0 else
  match count_utf8 (length inBuf) width inBuf 0 with
  | None => Ok {| ret := false; outBuf := out; outBufLen := None |}
  | Some len => if len >? maxOutBufLen then refused out len else from_utf8 (length inBuf) put inBuf out 0
  end.

(** *** From UCS-4 *)

Fixpoint count_ucs4 (s : list Z) (len : Z) : mem_res (option Z) :=
  match s with
  | [] => Ok (Some len)
  | b0 :: b1 :: b2 :: b3 :: s =>
      if (b0 >? 0x00) || (b1 >? 0x10) then Ok None
      else count_ucs4 s (u32 (len + if b1 >=? 0x01 then 4 else if b2 >=? 0x08 then 3
                                    else if (b2 >? 0x00) || (b3 >=? 0x80) then 2 else 1))
  | _ => UB
  end.

Definition put_utf8 (b1 b2 b3 : Z) : list Z :=
  if b1 >=? 0x01 then
    [Z.lor 0xF0 (Z.shiftr (Z.land b1 0x1C) 2);
     Z.lor (Z.lor 0x80 (Z.shiftl (Z.land b1 0x03) 4)) (Z.shiftr (Z.land b2 0xF0) 4);
     Z.lor (Z.lor 0x80 (Z.shiftl (Z.land b2 0x0F) 2)) (Z.shiftr (Z.land b3 0xC0) 6);
     Z.lor 0x80 (Z.shiftr (Z.land b3 0x3F) 0)]
  else if b2 >=? 0x08 then
    [Z.lor 0xE0 (Z.shiftr (Z.land b2 0xF0) 4);
     Z.lor (Z.lor 0x80 (Z.shiftl (Z.land b2 0x0F) 2)) (Z.shiftr (Z.land b3 0xC0) 6);
     Z.lor 0x80 (Z.shiftr (Z.land b3 0x3F) 0)]
  else if (b2 >? 0x00) || (b3 >=? 0x80) then
    [Z.lor (Z.lor 0xC0 (Z.shiftl (Z.land b2 0x07) 2)) (Z.shiftr (Z.land b3 0xC0) 6);
     Z.lor 0x80 (Z.shiftr (Z.land b3 0x3F) 0)]
  else [Z.land b3 0x7F].

Fixpoint from_ucs4 (s out : list Z) (len : Z) : mem_res converted :=
  match s with
  | [] => Ok {| ret := true; outBuf := out; outBufLen := Some len |}
  | _ :: b1 :: b2 :: b3 :: s =>
      out ← mem_write out (Z.to_nat len) (put_utf8 b1 b2 b3);
      from_ucs4 s out (u32 (len + length (put_utf8 b1 b2 b3)))
  | _ => UB
  end.

Definition sec_port_ucs4_utf8_conversion_function (toUnicode : bool) (inBuf out : list Z) (maxOutBufLen : Z) : mem_res converted :=
  if toUnicode then utf8_to 4 (λ _, 4) put_ucs4 inBuf out maxOutBufLen
  else
    if negb (length inBuf mod 4 =? 0) then refused out 0 else
    n ← count_ucs4 inBuf 0;
    match n with
    | None => refused out 0
    | Some len => if len >? maxOutBufLen then refused out len else from_ucs4 inBuf out 0
    end.

(** *** From UTF-16 *)

(** [None] is a surrogate out of place. *)
Fixpoint count_utf16 (s : list Z) (len : Z) : mem_res (option Z) :=
  match s with
  | [] => Ok (Some len)
  | h :: l :: s =>
      if (h =? 0x00) && (Z.land l 0x80 =? 0x00) then count_utf16 s (u32 (len + 1))
      else if h <? 0x08 then count_utf16 s (u32 (len + 2))
      else if Z.land h 0xFC =? 0xD8 then
        match s with
        | [] => Ok None
        | h2 :: s => if Z.land h2 0xFC =? 0xDC then
                       match s with
                       | _ :: s => count_utf16 s (u32 (len + 4))
                       | [] => UB
                       end
                     else Ok None
        end
      else if Z.land h 0xFC =? 0xDC then Ok None
      else count_utf16 s (u32 (len + 3))
  | _ => UB
  end.

Definition put_surrogates (h l h2 l2 : Z) : list Z :=
  let BCDE := Z.lor (Z.shiftl (Z.land h 0x03) 2) (Z.shiftr (Z.land l 0xC0) 6) in
  let abcde := BCDE + 1 in
  [Z.lor 0xF0 (Z.shiftr (Z.land abcde 0x1C) 2);
   Z.lor (Z.lor 0x80 (Z.shiftl (Z.land abcde 0x03) 4)) (Z.shiftr (Z.land l 0x3C) 2);
   Z.lor (Z.lor (Z.lor 0x80 (Z.shiftl (Z.land l 0x03) 4)) (Z.shiftl (Z.land h2 0x03) 2)) (Z.shiftr (Z.land l2 0xC0) 6);
   Z.lor 0x80 (Z.shiftr (Z.land l2 0x3F) 0)].

Definition put_2 (h l : Z) : list Z :=
  [Z.lor (Z.lor 0xC0 (Z.shiftl (Z.land h 0x07) 2)) (Z.shiftr (Z.land l 0xC0) 6); Z.lor 0x80 (Z.shiftr (Z.land l 0x3F) 0)].
Definition put_3 (h l : Z) : list Z :=
  [Z.lor 0xE0 (Z.shiftr (Z.land h 0xF0) 4); Z.lor (Z.lor 0x80 (Z.shiftl (Z.land h 0x0F) 2)) (Z.shiftr (Z.land l 0xC0) 6);
   Z.lor 0x80 (Z.shiftr (Z.land l 0x3F) 0)].

Fixpoint from_utf16 (s out : list Z) (len : Z) : mem_res converted :=
  match s with
  | [] => Ok {| ret := true; outBuf := out; outBufLen := Some len |}
  | h :: l :: s =>
      if (h =? 0x00) && (Z.land l 0x80 =? 0x00) then
        out ← mem_write out (Z.to_nat len) [Z.land l 0x7F]; from_utf16 s out (u32 (len + 1))
      else if h <? 0x08 then
        out ← mem_write out (Z.to_nat len) (put_2 h l); from_utf16 s out (u32 (len + 2))
      else if Z.land h 0xFC =? 0xD8 then
        match s with
        | h2 :: l2 :: s => out ← mem_write out (Z.to_nat len) (put_surrogates h l h2 l2); from_utf16 s out (u32 (len + 4))
        | _ => UB
        end
      else out ← mem_write out (Z.to_nat len) (put_3 h l); from_utf16 s out (u32 (len + 3))
  | _ => UB
  end.

Definition sec_port_ucs2_utf8_conversion_function (toUnicode : bool) (inBuf out : list Z) (maxOutBufLen : Z) : mem_res converted :=
  if toUnicode then utf8_to 2 (λ n, if (n =? 4)%nat then 4 else 2) put_utf16 inBuf out maxOutBufLen
  else
    if negb (length inBuf mod 2 =? 0) then refused out 0 else
    if length inBuf / 2 >? UINT_MAX / 3 then refused out 0 else
    n ← count_utf16 inBuf 0;
    match n with
    | None => Ok {| ret := false; outBuf := out; outBufLen := None |}
    | Some len => if len >? maxOutBufLen then refused out len else from_utf16 inBuf out 0
    end.

(** *** From Latin-1 *)

Fixpoint count_iso88591 (s : list Z) (len : Z) : Z :=
  match s with
  | [] => len
  | b :: s => count_iso88591 s (u32 (len + if Z.land b 0x80 =? 0x00 then 1 else 2))
  end.

Definition put_iso88591 (b : Z) : list Z :=
  if Z.land b 0x80 =? 0x00 then [b] else [Z.lor 0xC0 (Z.shiftr (Z.land b 0xC0) 6); Z.lor 0x80 (Z.shiftr (Z.land b 0x3F) 0)].

Fixpoint from_iso88591 (s out : list Z) (len : Z) : mem_res converted :=
  match s with
  | [] => Ok {| ret := true; outBuf := out; outBufLen := Some len |}
  | b :: s => out ← mem_write out (Z.to_nat len) (put_iso88591 b); from_iso88591 s out (u32 (len + length (put_iso88591 b)))
  end.

Definition sec_port_iso88591_utf8_conversion_function (inBuf out : list Z) (maxOutBufLen : Z) : mem_res converted :=
  if length inBuf >? UINT_MAX / 2 then refused out 0 else
  let len := count_iso88591 inBuf 0 in
  if len >? maxOutBufLen then refused out len else from_iso88591 inBuf out 0.

(** ** The encodings *)

(** Unicode scalar values, and their encodings. *)
Definition scalar (c : Z) : Prop := 0 ≤ c < 0xD800 ∨ 0xE000 ≤ c ≤ 0x10FFFF.

Definition utf8 (c : Z) : list Z :=
  if c <? 0x80 then [c]
  else if c <? 0x800 then [0xC0 + c / 64; 0x80 + c mod 64]
  else if c <? 0x10000 then [0xE0 + c / 4096; 0x80 + c / 64 mod 64; 0x80 + c mod 64]
  else [0xF0 + c / 262144; 0x80 + c / 4096 mod 64; 0x80 + c / 64 mod 64; 0x80 + c mod 64].

Definition utf16 (c : Z) : list Z :=
  if c <? 0x10000 then be_bytes 2 c else be_bytes 2 (0xD800 + (c - 0x10000) / 1024) ++ be_bytes 2 (0xDC00 + (c - 0x10000) mod 1024).

Lemma byte_check (P : Z → bool) : forallb P (seqZ 0 256) = true → ∀ b, is_byte b → P b = true.
Proof. rewrite forallb_forall. intros H b Hb. apply H, list_elem_of_In, elem_of_seqZ. unfold is_byte in Hb. lia. Qed.

Ltac by_bytes b Hb :=
  first [ apply Z.eqb_eq | apply Bool.eqb_prop ]; revert b Hb; apply byte_check; vm_compute; reflexivity.

Lemma is_ascii b : is_byte b → (Z.land b 0x80 =? 0x00) = (b <? 0x80).
Proof. intros Hb. by_bytes b Hb. Qed.
Lemma is_lead2 b : is_byte b → (Z.land b 0xE0 =? 0xC0) = (0xC0 <=? b) && (b <? 0xE0).
Proof. intros Hb. by_bytes b Hb. Qed.
Lemma is_lead3 b : is_byte b → (Z.land b 0xF0 =? 0xE0) = (0xE0 <=? b) && (b <? 0xF0).
Proof. intros Hb. by_bytes b Hb. Qed.
Lemma is_lead4 b : is_byte b → (Z.land b 0xF8 =? 0xF0) = (0xF0 <=? b) && (b <? 0xF8).
Proof. intros Hb. by_bytes b Hb. Qed.
Lemma is_tail b : is_byte b → (Z.land b 0xC0 =? 0x80) = (0x80 <=? b) && (b <? 0xC0).
Proof. intros Hb. by_bytes b Hb. Qed.

Lemma announced_range b : is_byte b → announced b =
  if b <? 0x80 then Some 1%nat else if b <? 0xC0 then None else if b <? 0xE0 then Some 2%nat else if b <? 0xF0 then Some 3%nat else if b <? 0xF8 then Some 4%nat else None.
Proof.
  intros Hb. unfold announced. rewrite is_ascii, is_lead2, is_lead3, is_lead4 by done. unfold is_byte in Hb.
  destruct (Z.ltb_spec b 0x80); [done|]. destruct (Z.ltb_spec b 0xC0).
  { rewrite !(proj2 (Z.leb_gt _ b)) by lia. done. }
  destruct (Z.ltb_spec b 0xE0); [by rewrite (proj2 (Z.leb_le _ _)) by lia|]. destruct (Z.ltb_spec b 0xF0); [by rewrite !(proj2 (Z.leb_le _ _)) by lia|].
  by rewrite !(proj2 (Z.leb_le _ _)) by lia.
Qed.

(** Surrogates. *)
Lemma is_surrogate c : 0 ≤ c < 2 ^ 32 → (Z.land c 0xFFFFF800 =? 0xD800) = (0xD800 <=? c) && (c <? 0xE000).
Proof.
  intros Hc. change 0xFFFFF800 with (Z.land (2 ^ 32 - 1) (Z.lnot (2 ^ 11 - 1))). rewrite Z.land_assoc, land_ones_mod, Z.mod_small by lia.
  rewrite Z.sub_1_r, <- Z.ones_equiv, <- Z.ldiff_land, Z.ldiff_ones_r, Z.shiftl_mul_pow2, Z.shiftr_div_pow2 by lia. change (2 ^ 11) with 2048.
  apply Bool.eq_iff_eq_true. rewrite andb_true_iff, Z.eqb_eq, Z.leb_le, Z.ltb_lt. Z.to_euclidean_division_equations. lia.
Qed.

Lemma read_tail_cons n r b s : is_byte b → 0 ≤ r < 2 ^ 20 →
  read_tail (S n) r (b :: s) = if (0x80 <=? b) && (b <? 0xC0) then read_tail n (r * 64 + (b - 0x80)) s else None.
Proof.
  intros Hb Hr. cbn [read_tail]. rewrite is_tail by done. destruct ((0x80 <=? b) && (b <? 0xC0)) eqn:E; [|done]. cbn [negb].
  apply andb_true_iff in E as [E1 E2]. apply Z.leb_le in E1. apply Z.ltb_lt in E2.
  rewrite (wrap_small 32 (Z.shiftl r 6)) by (rewrite Z.shiftl_mul_pow2 by lia; lia). change 0x3F with (2 ^ 6 - 1). rewrite land_ones_mod by lia.
  rewrite lor_shift_add by (try apply Z.mod_pos_bound; lia). change (2 ^ 6) with 64. do 2 f_equal. Z.to_euclidean_division_equations. lia.
Qed.

(** The check behind the octets. *)
Definition checked (min_value result : Z) (s : list Z) : option (Z * list Z) :=
  if (result <? min_value) || (Z.land result 0xFFFFF800 =? 0xD800) || (result >? 0x10FFFF) then None else Some (result, s).

Lemma checked_scalar m c s : 0 ≤ c < 2 ^ 32 → m ≤ c → scalar c → checked m c s = Some (c, s).
Proof.
  intros Hc Hm Hs. unfold checked. rewrite (proj2 (Z.ltb_ge _ _)), is_surrogate, Z.gtb_ltb by lia. unfold scalar in Hs.
  destruct (Z.leb_spec 0xD800 c), (Z.ltb_spec c 0xE000), (Z.ltb_spec 0x10FFFF c); try lia; done.
Qed.

Lemma checked_inv m c s x : 0 ≤ c < 2 ^ 32 → checked m c s = Some x → x = (c, s) ∧ m ≤ c ∧ scalar c.
Proof.
  intros Hc. unfold checked, scalar. rewrite is_surrogate, Z.gtb_ltb by lia.
  destruct (Z.ltb_spec c m), (Z.leb_spec 0xD800 c), (Z.ltb_spec c 0xE000), (Z.ltb_spec 0x10FFFF c); cbn; try done; intros [= <-]; split; (done || lia).
Qed.

(** sec_port_read_utf8 by ranges of the first octet. *)
Lemma read_utf8_range b s : is_byte b → sec_port_read_utf8 (b :: s) =
  let '(r, n, m) := if b <? 0x80 then (b, 0%nat, 0) else if b <? 0xE0 then (b - 0xC0, 1%nat, 0x80) else if b <? 0xF0 then (b - 0xE0, 2%nat, 0x800) else (b - 0xF0, 3%nat, 0x10000) in
  if (0x80 <=? b) && (b <? 0xC0) || (0xF8 <=? b) then None else
  match read_tail n r s with None => None | Some (r, s) => checked m r s end.
Proof.
  intros Hb. unfold sec_port_read_utf8. rewrite is_ascii, is_lead2, is_lead3, is_lead4 by done. unfold is_byte in Hb.
  change 0x1F with (2 ^ 5 - 1). change 0x0F with (2 ^ 4 - 1). change 0x07 with (2 ^ 3 - 1). rewrite !land_ones_mod by lia.
  destruct (Z.ltb_spec b 0x80). { rewrite !(proj2 (Z.leb_gt _ b)) by lia. done. }
  rewrite (proj2 (Z.leb_le 0x80 b)) by lia. cbn [andb]. destruct (Z.ltb_spec b 0xC0).
  { rewrite !(proj2 (Z.leb_gt _ b)) by lia. cbn [andb orb]. by destruct (b <? 0xE0), (b <? 0xF0). }
  rewrite (proj2 (Z.leb_le 0xC0 b)) by lia. destruct (Z.ltb_spec b 0xE0).
  { rewrite (proj2 (Z.leb_gt 0xF8 b)) by lia. cbn [andb orb]. replace (b mod 2 ^ 5) with (b - 0xC0) by (change (2 ^ 5) with 32; Z.to_euclidean_division_equations; lia). done. }
  rewrite (proj2 (Z.leb_le 0xE0 b)) by lia. destruct (Z.ltb_spec b 0xF0).
  { rewrite (proj2 (Z.leb_gt 0xF8 b)) by lia. cbn [andb orb]. replace (b mod 2 ^ 4) with (b - 0xE0) by (change (2 ^ 4) with 16; Z.to_euclidean_division_equations; lia). done. }
  rewrite (proj2 (Z.leb_le 0xF0 b)) by lia. cbn [andb orb]. destruct (Z.ltb_spec b 0xF8), (Z.leb_spec 0xF8 b); try lia; [|done].
  replace (b mod 2 ^ 3) with (b - 0xF0) by (change (2 ^ 3) with 8; Z.to_euclidean_division_equations; lia). done.
Qed.

(** A tail octet goes into the number. *)
Lemma read_tail_put n r x s : 0 ≤ r < 2 ^ 20 → 0 ≤ x < 64 → read_tail (S n) r (0x80 + x :: s) = read_tail n (r * 64 + x) s.
Proof.
  intros Hr Hx. rewrite read_tail_cons by (unfold is_byte; lia). rewrite (proj2 (Z.leb_le _ _)), (proj2 (Z.ltb_lt _ _)) by lia. cbn [andb]. do 2 f_equal. lia.
Qed.

Lemma read_utf8_utf8 c s : scalar c → sec_port_read_utf8 (utf8 c ++ s) = Some (c, s).
Proof.
  intros Hs. assert (Hc : 0 ≤ c < 2 ^ 21) by (unfold scalar in Hs; lia). unfold utf8.
  destruct (Z.ltb_spec c 0x80). { cbn [app]. rewrite read_utf8_range by (unfold is_byte; lia). rewrite (proj2 (Z.ltb_lt c 0x80)), !(proj2 (Z.leb_gt _ c)) by lia.
    cbn [andb orb read_tail]. apply checked_scalar; (done || lia). }
  assert (H64 : 0 ≤ c mod 64 < 64) by (apply Z.mod_pos_bound; lia).
  destruct (Z.ltb_spec c 0x800).
  { cbn [app]. set (q := c / 64). assert (Hq : 2 ≤ q < 32 ∧ q * 64 + c mod 64 = c) by (unfold q; Z.to_euclidean_division_equations; lia). clearbody q.
    rewrite read_utf8_range by (unfold is_byte; lia). rewrite (proj2 (Z.ltb_ge (0xC0 + q) 0x80)), (proj2 (Z.ltb_lt (0xC0 + q) 0xE0)), (proj2 (Z.ltb_ge (0xC0 + q) 0xC0)),
      (proj2 (Z.leb_gt 0xF8 _)), andb_false_r by lia. cbn [orb]. rewrite read_tail_put by lia. cbn [read_tail]. replace ((0xC0 + q - 0xC0) * 64 + c mod 64) with c by lia.
    apply checked_scalar; (done || lia). }
  assert (H64' : 0 ≤ c / 64 mod 64 < 64) by (apply Z.mod_pos_bound; lia).
  destruct (Z.ltb_spec c 0x10000).
  { cbn [app]. set (q := c / 4096). assert (Hq : 0 ≤ q < 16 ∧ (q * 64 + c / 64 mod 64) * 64 + c mod 64 = c) by (unfold q; Z.to_euclidean_division_equations; lia). clearbody q.
    rewrite read_utf8_range by (unfold is_byte; lia). rewrite (proj2 (Z.ltb_ge (0xE0 + q) 0x80)), (proj2 (Z.ltb_ge (0xE0 + q) 0xE0)), (proj2 (Z.ltb_lt (0xE0 + q) 0xF0)),
      (proj2 (Z.ltb_ge (0xE0 + q) 0xC0)), (proj2 (Z.leb_gt 0xF8 _)), andb_false_r by lia. cbn [orb]. rewrite !read_tail_put by lia. cbn [read_tail].
    replace (((0xE0 + q - 0xE0) * 64 + c / 64 mod 64) * 64 + c mod 64) with c by lia. apply checked_scalar; (done || lia). }
  assert (H64'' : 0 ≤ c / 4096 mod 64 < 64) by (apply Z.mod_pos_bound; lia).
  cbn [app]. set (q := c / 262144). assert (Hq : 0 ≤ q < 8 ∧ ((q * 64 + c / 4096 mod 64) * 64 + c / 64 mod 64) * 64 + c mod 64 = c) by (unfold q; Z.to_euclidean_division_equations; lia). clearbody q.
  rewrite read_utf8_range by (unfold is_byte; lia). rewrite (proj2 (Z.ltb_ge (0xF0 + q) 0x80)), (proj2 (Z.ltb_ge (0xF0 + q) 0xE0)), (proj2 (Z.ltb_ge (0xF0 + q) 0xF0)),
    (proj2 (Z.ltb_ge (0xF0 + q) 0xC0)), (proj2 (Z.leb_gt 0xF8 _)), andb_false_r by lia. cbn [orb]. rewrite !read_tail_put by lia. cbn [read_tail].
  replace ((((0xF0 + q - 0xF0) * 64 + c / 4096 mod 64) * 64 + c / 64 mod 64) * 64 + c mod 64) with c by lia. apply checked_scalar; (done || lia).
Qed.

(** A tail octet read. *)
Lemma read_tail_inv n r s x : bytes s → 0 ≤ r < 2 ^ 20 → read_tail (S n) r s = Some x →
  ∃ t s', s = 0x80 + t :: s' ∧ 0 ≤ t < 64 ∧ bytes s' ∧ read_tail n (r * 64 + t) s' = Some x.
Proof.
  intros Hb Hr. destruct s as [|b s]; [done|]. apply Forall_cons_1 in Hb as [Hb Hs]. rewrite read_tail_cons by done.
  destruct (Z.leb_spec 0x80 b), (Z.ltb_spec b 0xC0); cbn [andb]; try done. intros E. exists (b - 0x80), s. split; [f_equal; lia|]. split; [lia|]. done.
Qed.

Lemma utf8_small c : 0 ≤ c < 0x80 → utf8 c = [c].
Proof. intros Hc. unfold utf8. by rewrite (proj2 (Z.ltb_lt _ _)) by lia. Qed.

Lemma utf8_2 q t : 0 ≤ t < 64 → 0x80 ≤ q * 64 + t < 0x800 → utf8 (q * 64 + t) = [0xC0 + q; 0x80 + t].
Proof. intros Ht Hc. unfold utf8. rewrite (proj2 (Z.ltb_ge _ _)), (proj2 (Z.ltb_lt _ _)) by lia. repeat f_equal; Z.to_euclidean_division_equations; lia. Qed.

Lemma utf8_3 q t u : 0 ≤ t < 64 → 0 ≤ u < 64 → 0x800 ≤ (q * 64 + t) * 64 + u < 0x10000 → utf8 ((q * 64 + t) * 64 + u) = [0xE0 + q; 0x80 + t; 0x80 + u].
Proof.
  intros Ht Hu Hc. unfold utf8. rewrite (proj2 (Z.ltb_ge _ _)), (proj2 (Z.ltb_ge _ 0x800)), (proj2 (Z.ltb_lt _ _)) by lia.
  repeat f_equal; Z.to_euclidean_division_equations; lia.
Qed.

Lemma utf8_4 q t u v : 0 ≤ t < 64 → 0 ≤ u < 64 → 0 ≤ v < 64 → 0x10000 ≤ ((q * 64 + t) * 64 + u) * 64 + v →
  utf8 (((q * 64 + t) * 64 + u) * 64 + v) = [0xF0 + q; 0x80 + t; 0x80 + u; 0x80 + v].
Proof.
  intros Ht Hu Hv Hc. unfold utf8. rewrite (proj2 (Z.ltb_ge _ 0x80)), (proj2 (Z.ltb_ge _ 0x800)), (proj2 (Z.ltb_ge _ 0x10000)) by lia.
  repeat f_equal; Z.to_euclidean_division_equations; lia.
Qed.

Lemma read_utf8_inv s c s' : bytes s → sec_port_read_utf8 s = Some (c, s') → scalar c ∧ s = utf8 c ++ s'.
Proof.
  intros Hb. destruct s as [|b s]; [done|]. apply Forall_cons_1 in Hb as [Hb Hs]. rewrite read_utf8_range by done. unfold is_byte in Hb.
  destruct (Z.ltb_spec b 0x80).
  { rewrite !(proj2 (Z.leb_gt _ b)) by lia. cbn [andb orb read_tail]. intros E. apply checked_inv in E as ([= -> ->] & _ & Hsc); [|lia]. by rewrite utf8_small by lia. }
  rewrite (proj2 (Z.leb_le 0x80 b)) by lia. cbn [andb]. destruct (Z.ltb_spec b 0xC0); [by destruct (b <? 0xE0), (b <? 0xF0)|]. cbn [orb].
  destruct (Z.ltb_spec b 0xE0).
  { rewrite (proj2 (Z.leb_gt 0xF8 b)) by lia. destruct (read_tail 1 (b - 0xC0) s) as [[r s1]|] eqn:E1; [|done]. intros E.
    apply read_tail_inv in E1 as (t & s2 & -> & Ht & _ & [= <- <-]); [|done|lia]. apply checked_inv in E as ([= -> ->] & Hm & Hsc); [|lia].
    split; [done|]. rewrite utf8_2 by lia. cbn [app]. f_equal. lia. }
  destruct (Z.ltb_spec b 0xF0).
  { rewrite (proj2 (Z.leb_gt 0xF8 b)) by lia. destruct (read_tail 2 (b - 0xE0) s) as [[r s1]|] eqn:E1; [|done]. intros E.
    apply read_tail_inv in E1 as (t & s2 & -> & Ht & Hs2 & E1); [|done|lia]. apply read_tail_inv in E1 as (u & s3 & -> & Hu & _ & [= <- <-]); [|done|lia].
    apply checked_inv in E as ([= -> ->] & Hm & Hsc); [|lia]. split; [done|]. rewrite utf8_3 by lia. cbn [app]. f_equal. lia. }
  destruct (Z.leb_spec 0xF8 b); [done|]. destruct (read_tail 3 (b - 0xF0) s) as [[r s1]|] eqn:E1; [|done]. intros E.
  apply read_tail_inv in E1 as (t & s2 & -> & Ht & Hs2 & E1); [|done|lia]. apply read_tail_inv in E1 as (u & s3 & -> & Hu & Hs3 & E1); [|done|lia].
  apply read_tail_inv in E1 as (v & s4 & -> & Hv & _ & [= <- <-]); [|done|lia].
  apply checked_inv in E as ([= -> ->] & Hm & Hsc); [|lia]. split; [done|]. rewrite utf8_4 by lia. cbn [app]. f_equal. lia.
Qed.

(** ** From UTF-8 *)

(** What a conversion from one encoding to another does: texts of characters
    that are [ok] are converted if there is room, else the room needed is
    reported; other inputs are refused.  Nothing is written behind the block. *)
Definition converts (src dst : Z → list Z) (ok : Z → Prop) (inBuf out : list Z) (max : Z) (r : converted) : Prop :=
  length (outBuf r) = length out ∧
  (∀ cs, Forall ok cs → inBuf = cs ≫= src →
     if length (cs ≫= dst) <=? max
     then r = {| ret := true; outBuf := (cs ≫= dst) ++ drop (length (cs ≫= dst)) out; outBufLen := Some (Z.of_nat (length (cs ≫= dst))) |}
     else r = {| ret := false; outBuf := out; outBufLen := Some (Z.of_nat (length (cs ≫= dst))) |}) ∧
  (ret r = true → ∃ cs, Forall ok cs ∧ inBuf = cs ≫= src).

Lemma bind_cons {A B} (f : A → list B) x l : (x :: l) ≫= f = f x ++ (l ≫= f).
Proof. done. Qed.

Lemma utf8_bytes c : 0 ≤ c ≤ 0x10FFFF → bytes (utf8 c) ∧ (1 ≤ length (utf8 c) ≤ 4)%nat.
Proof.
  intros Hc. unfold utf8. pose proof (Z.mod_pos_bound c 64 ltac:(lia)). pose proof (Z.mod_pos_bound (c / 64) 64 ltac:(lia)). pose proof (Z.mod_pos_bound (c / 4096) 64 ltac:(lia)).
  destruct (Z.ltb_spec c 0x80); [|destruct (Z.ltb_spec c 0x800); [|destruct (Z.ltb_spec c 0x10000)]]; (split; [|cbn; lia]);
    repeat (apply Forall_cons_2); try apply Forall_nil_2; unfold is_byte; Z.to_euclidean_division_equations; lia.
Qed.

Lemma utf8_announced c s : scalar c → ∃ b t, utf8 c ++ s = b :: t ∧ announced b = Some (length (utf8 c)).
Proof.
  intros Hs. destruct (utf8_bytes c) as [Hb _]; [unfold scalar in Hs; lia|]. unfold utf8 in *.
  destruct (Z.ltb_spec c 0x80); [|destruct (Z.ltb_spec c 0x800); [|destruct (Z.ltb_spec c 0x10000)]]; apply Forall_cons_1 in Hb as [Hb _]; cbn [app length];
    eexists _, _; (split; [done|]); rewrite announced_range by done; unfold scalar in Hs.
  - by rewrite (proj2 (Z.ltb_lt _ _)) by lia.
  - rewrite (proj2 (Z.ltb_ge _ 0x80)), (proj2 (Z.ltb_ge _ 0xC0)), (proj2 (Z.ltb_lt _ 0xE0)) by (Z.to_euclidean_division_equations; lia). done.
  - rewrite (proj2 (Z.ltb_ge _ 0x80)), (proj2 (Z.ltb_ge _ 0xC0)), (proj2 (Z.ltb_ge _ 0xE0)), (proj2 (Z.ltb_lt _ 0xF0)) by (Z.to_euclidean_division_equations; lia). done.
  - rewrite (proj2 (Z.ltb_ge _ 0x80)), (proj2 (Z.ltb_ge _ 0xC0)), (proj2 (Z.ltb_ge _ 0xE0)), (proj2 (Z.ltb_ge _ 0xF0)), (proj2 (Z.ltb_lt _ 0xF8))
      by (Z.to_euclidean_division_equations; lia). done.
Qed.

Lemma announced_small b n : announced b = Some n → (1 ≤ n ≤ 4)%nat.
Proof. unfold announced. repeat case_match; intros [= <-]; lia. Qed.

Section FromUtf8.
  Context (limit slack : Z) (width : nat → Z) (put dst : Z → list Z).
  Hypothesis limit_ok : 0 < limit ∧ 0 ≤ slack.
  Hypothesis width_fits : ∀ n, (1 ≤ n ≤ 4)%nat → 0 ≤ width n ≤ limit * n.
  Hypothesis width_last : ∀ n k, (1 ≤ n ≤ 4)%nat → (1 ≤ k)%nat → width n ≤ limit * k + slack.
  Hypothesis put_dst : ∀ c, scalar c → put c = dst c ∧ Z.of_nat (length (dst c)) = width (length (utf8 c)).

Lemma count_step fuel b s len : (length (b :: s) ≤ S fuel)%nat → 0 ≤ len → len + limit * length (b :: s) + slack < 2 ^ 32 →
  count_utf8 (S fuel) width (b :: s) len = match announced b with None => None | Some n => count_utf8 fuel width (drop n (b :: s)) (len + width n) end ∧
  ∀ n, announced b = Some n → (length (drop n (b :: s)) ≤ fuel)%nat ∧ 0 ≤ len + width n ∧
    (drop n (b :: s) ≠ [] → len + width n + limit * length (drop n (b :: s)) + slack < 2 ^ 32).
Proof.
  clear put_dst. intros Hf Hl Hb. cbn [count_utf8]. destruct (announced b) as [n|] eqn:Ea; [|split; done]. apply announced_small in Ea.
  specialize (width_fits n Ea). pose proof (width_last n (length (b :: s)) Ea ltac:(cbn; lia)) as Hw.
  rewrite wrap_small by lia. split; [done|]. intros n' [= <-]. rewrite length_drop. split; [cbn [length] in *; lia|]. split; [lia|].
  intros Hne. assert (n < length (b :: s))%nat.
  { destruct (decide (n < length (b :: s))%nat); [done|]. rewrite drop_ge in Hne by lia. done. }
  nia.
Qed.

Lemma count_ge fuel s len total : (length s ≤ fuel)%nat → 0 ≤ len → (s ≠ [] → len + limit * length s + slack < 2 ^ 32) →
  count_utf8 fuel width s len = Some total → len ≤ total.
Proof.
  clear put_dst. revert s len. induction fuel as [|fuel IH]; intros [|b s] len Hf Hl Hb E; try (cbn in Hf; lia); try (injection E as <-; lia).
  destruct (count_step fuel b s len Hf Hl (Hb ltac:(done))) as [Ec Hn]. rewrite Ec in E. destruct (announced b) as [n|] eqn:Ea; [|done].
  destruct (Hn n eq_refl) as (H1 & H2 & H3). apply IH in E; try done. pose proof (width_fits n (announced_small b n Ea)). lia.
Qed.

(** Valid texts are counted right. *)
Lemma count_text fuel cs len : Forall scalar cs → (length (cs ≫= utf8) ≤ fuel)%nat → 0 ≤ len → (cs ≠ [] → len + limit * length (cs ≫= utf8) + slack < 2 ^ 32) →
  count_utf8 fuel width (cs ≫= utf8) len = Some (len + length (cs ≫= dst)).
Proof.
  revert fuel len. induction cs as [|c cs IH]; intros fuel len Hcs Hf Hl Hb; [destruct fuel; cbn; f_equal; lia|].
  apply Forall_cons_1 in Hcs as [Hc Hcs]. rewrite bind_cons in *. destruct (utf8_announced c (cs ≫= utf8) Hc) as (b & t & E & Ea).
  assert (Hc' : 0 ≤ c ≤ 0x10FFFF) by (unfold scalar in Hc; lia). destruct (utf8_bytes c Hc') as [_ Lu]. specialize (Hb ltac:(done)).
  destruct fuel as [|fuel]; [rewrite length_app in Hf; lia|]. rewrite E in *. destruct (count_step fuel b t len Hf Hl Hb) as [-> Hn]. rewrite Ea. rewrite <- E in *.
  destruct (Hn _ Ea) as (H1 & H2 & H3). rewrite drop_app_length in *. destruct (put_dst c Hc) as [_ Hd]. rewrite IH; try done.
  - rewrite (bind_cons dst), length_app. f_equal. lia.
  - intros Hne. apply H3. destruct cs as [|c2 cs]; [done|]. apply Forall_cons_1 in Hcs as [Hc2 _]. rewrite bind_cons.
    destruct (utf8_bytes c2) as [_ L2]; [unfold scalar in Hc2; lia|]. by destruct (utf8 c2); [cbn in L2; lia|].
Qed.

Lemma from_utf8_spec fuel s out len total : bytes s → (length s ≤ fuel)%nat → 0 ≤ len → (s ≠ [] → len + limit * length s + slack < 2 ^ 32) →
  count_utf8 fuel width s len = Some total → total ≤ length out →
  (∃ cs, Forall scalar cs ∧ s = cs ≫= utf8 ∧ total = len + length (cs ≫= dst) ∧
    from_utf8 fuel put s out len = Ok {| ret := true; outBuf := take (Z.to_nat len) out ++ (cs ≫= dst) ++ drop (Z.to_nat total) out; outBufLen := Some total |}) ∨
  (∃ out', length out' = length out ∧ from_utf8 fuel put s out len = Ok {| ret := false; outBuf := out'; outBufLen := None |} ∧
     ∀ cs, Forall scalar cs → s ≠ cs ≫= utf8).
Proof.
  revert s out len. induction fuel as [|fuel IH]; intros [|b s] out len Hb Hf Hl Hn E Ht; try (cbn in Hf; lia).
  1,2: injection E as ->; left; exists []; split; [by constructor|]; split; [done|]; split; [cbn; lia|]; cbn; rewrite take_drop; done.
  cbn [from_utf8]. destruct (sec_port_read_utf8 (b :: s)) as [[c s']|] eqn:Er.
  - apply read_utf8_inv in Er as [Hc Es]; [|done]. destruct (put_dst c Hc) as [Ep Hd]. rewrite Ep.
    destruct (utf8_announced c s' Hc) as (b' & t & Eb & Ea). rewrite Es in *. rewrite Eb in E, Hn, Hf. rewrite Eb in Hb. rewrite Eb.
    destruct (count_step fuel b' t len Hf Hl (Hn ltac:(done))) as [Ec Hstep]. rewrite Ec, Ea in E. destruct (Hstep _ Ea) as (H1 & H2 & H3).
    rewrite <- Eb in E, H1, H3, Hb, Hn |- *. rewrite drop_app_length in E, H1, H3. pose proof (count_ge _ _ _ _ H1 H2 H3 E) as Hge.
    specialize (Hn ltac:(by rewrite Eb)).
    rewrite mem_write_same by lia. cbn [mbind res_bind]. set (out1 := take (Z.to_nat len) out ++ _).
    assert (L1 : length out1 = length out) by (unfold out1; rewrite !length_app, length_take, length_drop; lia).
    assert (Hw : len + length (dst c) < 2 ^ 32).
    { rewrite length_app in Hn. destruct (utf8_bytes c) as [_ Lu]; [unfold scalar in Hc; lia|]. pose proof (width_fits _ Lu). nia. }
    rewrite wrap_small by lia. rewrite Hd. apply Forall_app in Hb as [_ Hb'].
    destruct (IH s' out1 (len + width (length (utf8 c))) Hb' H1 H2 H3 E ltac:(lia)) as [(cs & Hcs & -> & Etot & Ef)|(out' & Lo & Ef & Hno)].
    + left. exists (c :: cs). split; [by constructor|]. split; [done|]. rewrite bind_cons, length_app. split; [lia|]. rewrite Ef. do 2 f_equal.
      rewrite <- Hd. replace (Z.to_nat (len + length (dst c))) with (Z.to_nat len + length (dst c))%nat by lia.
      assert (Et1 : take (Z.to_nat len + length (dst c)) out1 = take (Z.to_nat len) out ++ dst c).
      { unfold out1. rewrite app_assoc. apply take_app_length'. rewrite length_app, length_take. lia. }
      assert (Ed1 : drop (Z.to_nat total) out1 = drop (Z.to_nat total) out).
      { unfold out1. rewrite app_assoc, drop_app_ge by (rewrite length_app, length_take; lia). rewrite drop_drop. f_equal. rewrite length_app, length_take. lia. }
      by rewrite Et1, Ed1, <- !app_assoc.
    + right. exists out'. split; [lia|]. split; [done|]. intros [|c2 cs] Hcs Ecs; [by rewrite Eb in Ecs|]. apply Forall_cons_1 in Hcs as [Hc2 Hcs]. rewrite bind_cons in Ecs.
      pose proof (read_utf8_utf8 c s' Hc) as R1. rewrite Ecs, (read_utf8_utf8 c2 _ Hc2) in R1. injection R1 as -> <-. by apply (Hno cs).
  - right. exists out. split; [done|]. split; [done|]. intros [|c2 cs] Hcs Ecs; [done|]. apply Forall_cons_1 in Hcs as [Hc2 Hcs].
    rewrite bind_cons in Ecs. by rewrite Ecs, (read_utf8_utf8 c2 _ Hc2) in Er.
Qed.

Lemma utf8_to_converts inBuf out max : bytes inBuf → length inBuf ≤ UINT_MAX / limit → limit * length inBuf + slack < 2 ^ 32 → max ≤ length out →
  ∃ r, utf8_to limit width put inBuf out max = Ok r ∧ converts utf8 dst scalar inBuf out max r.
Proof.
  intros Hb Hl Hn Hmax. unfold utf8_to. rewrite Z.gtb_ltb, (proj2 (Z.ltb_ge _ _)) by lia.
  assert (Hcount : ∀ cs, Forall scalar cs → inBuf = cs ≫= utf8 → count_utf8 (length inBuf) width inBuf 0 = Some (Z.of_nat (length (cs ≫= dst)))).
  { intros cs Hcs ->. rewrite count_text by (done || lia). f_equal. }
  destruct (count_utf8 (length inBuf) width inBuf 0) as [len|] eqn:Ec.
  2: { eexists. split; [done|]. split; [done|]. split; [|done]. intros cs Hcs E. by specialize (Hcount cs Hcs E). }
  destruct (Z.gtb_spec len max) as [Hgt|Hle].
  { eexists. split; [done|]. split; [done|]. split; [|done]. intros cs Hcs E. specialize (Hcount cs Hcs E). injection Hcount as ->.
    by rewrite (proj2 (Z.leb_gt _ _)) by lia. }
  destruct (from_utf8_spec (length inBuf) inBuf out 0 len Hb ltac:(done) ltac:(lia) ltac:(intros _; lia) Ec ltac:(lia)) as [(cs & Hcs & Es & Et & ->)|(out' & Lo & -> & Hno)].
  - eexists. split; [done|]. unfold converts. cbn [outBuf ret]. change (Z.to_nat 0) with 0%nat. rewrite take_0. cbn [app]. split; [rewrite length_app, length_drop; lia|]. split; [|by exists cs].
    intros cs' Hcs' E'. pose proof (Hcount cs Hcs Es) as H1. pose proof (Hcount cs' Hcs' E') as H2. rewrite H1 in H2. injection H2 as H2.
    assert (cs' = cs) as ->.
    { rewrite Es in E'. clear - E' Hcs Hcs'. revert cs' Hcs' E'. induction Hcs as [|c cs Hc Hcs IH]; intros [|c' cs'] Hcs' E'; [done|..].
      - apply Forall_cons_1 in Hcs' as [Hc' _]. rewrite bind_cons in E'. destruct (utf8_announced c' (cs' ≫= utf8) Hc') as (? & ? & Ex & _). by rewrite Ex in E'.
      - rewrite bind_cons in E'. destruct (utf8_announced c (cs ≫= utf8) Hc) as (? & ? & Ex & _). by rewrite Ex in E'.
      - apply Forall_cons_1 in Hcs' as [Hc' Hcs']. rewrite !bind_cons in E'. pose proof (read_utf8_utf8 c (cs ≫= utf8) Hc) as R. rewrite E', (read_utf8_utf8 c' _ Hc') in R.
        injection R as -> R. f_equal. by apply IH. }
    rewrite (proj2 (Z.leb_le _ _)) by lia. f_equal; [|f_equal; lia]. f_equal. f_equal. lia.
  - eexists. split; [done|]. split; [done|]. split; [|done]. intros cs Hcs E. by destruct (Hno cs Hcs).
Qed.
End FromUtf8.

(** ** To UTF-8 *)

Section ToUtf8.
  Context (src dst : Z → list Z) (ok : Z → Prop) (inBuf out : list Z) (max : Z).

Lemma converts_from (count : mem_res (option Z)) (write : mem_res converted) n : max ≤ length out →
  (∀ cs, Forall ok cs → inBuf = cs ≫= src → let t := cs ≫= dst in count = Ok (Some (Z.of_nat (length t))) ∧
     (length t ≤ length out → write = Ok {| ret := true; outBuf := t ++ drop (length t) out; outBufLen := Some (Z.of_nat (length t)) |})) →
  count = Ok None ∨ (∃ cs, Forall ok cs ∧ inBuf = cs ≫= src) →
  ∃ r, (m ← count; match m with
                   | None => Ok {| ret := false; outBuf := out; outBufLen := n |}
                   | Some len => if len >? max then refused out len else write
                   end) = Ok r ∧ converts src dst ok inBuf out max r.
Proof.
  intros Hmax Hval [->|(cs & Hcs & E)].
  - eexists. split; [done|]. split; [done|]. split; [|done]. intros cs Hcs E. by destruct (Hval cs Hcs E).
  - destruct (Hval cs Hcs E) as [Ec Ew]. rewrite Ec. cbn [mbind res_bind]. rewrite Z.gtb_ltb. destruct (Z.ltb_spec max (length (cs ≫= dst))).
    + eexists. split; [done|]. split; [done|]. split; [|by exists cs]. intros cs' Hcs' E'. destruct (Hval cs' Hcs' E') as [Ec' _]. rewrite Ec in Ec'.
      injection Ec' as <-. by rewrite (proj2 (Z.leb_gt _ _)) by lia.
    + rewrite Ew by lia. eexists. split; [done|]. unfold converts. cbn [ret outBuf]. split; [rewrite length_app, length_drop; lia|]. split; [|by exists cs].
      intros cs' Hcs' E'. destruct (Hval cs' Hcs' E') as [Ec' Ew']. rewrite Ec in Ec'. injection Ec' as El. rewrite (proj2 (Z.leb_le _ _)) by lia.
      rewrite Ew in Ew' by lia. by injection (Ew' ltac:(lia)) as -> ->.
Qed.
End ToUtf8.

(** One more piece written. *)
Lemma written (out d rest : list Z) (len : nat) : (len + length d + length rest ≤ length out)%nat →
  let out1 := take len out ++ d ++ drop (len + length d) out in
  length out1 = length out ∧
  take (len + length d) out1 ++ rest ++ drop (len + length d + length rest) out1 = take len out ++ (d ++ rest) ++ drop (len + length (d ++ rest)) out.
Proof.
  intros Hl out1. assert (Lt : length (take len out) = len) by (rewrite length_take; lia).
  assert (L1 : length out1 = length out) by (unfold out1; rewrite !length_app, length_drop; lia). split; [done|].
  assert (E1 : take (len + length d) out1 = take len out ++ d) by (unfold out1; rewrite app_assoc; apply take_app_length'; rewrite length_app; lia).
  assert (E2 : drop (len + length d + length rest) out1 = drop (len + length d + length rest) out).
  { unfold out1. rewrite app_assoc, drop_app_ge by (rewrite length_app; lia). rewrite drop_drop. f_equal. rewrite length_app. lia. }
  rewrite E1, E2, length_app, <- !app_assoc. do 4 f_equal. lia.
Qed.

(** The result of writing [t] at [len]. *)
Definition wrote (out : list Z) (len : Z) (t : list Z) : mem_res converted :=
  Ok {| ret := true; outBuf := take (Z.to_nat len) out ++ t ++ drop (Z.to_nat len + length t) out; outBufLen := Some (len + length t) |}.

Lemma wrote_cons out len d rest : 0 ≤ len → len + length d + length rest ≤ length out →
  let out1 := take (Z.to_nat len) out ++ d ++ drop (Z.to_nat len + length d) out in
  mem_write (E := Empty_set) out (Z.to_nat len) d = Ok out1 ∧ length out1 = length out ∧ wrote out1 (len + length d) rest = wrote out len (d ++ rest).
Proof.
  intros Hl Hr out1. split; [by rewrite mem_write_same by lia|]. destruct (written out d rest (Z.to_nat len) ltac:(lia)) as [L E]. fold out1 in L, E. split; [done|].
  unfold wrote. replace (Z.to_nat (len + length d)) with (Z.to_nat len + length d)%nat by lia. rewrite E, length_app. do 3 f_equal. lia.
Qed.

Lemma wrote_no_more out len : 0 ≤ len ≤ length out → wrote out len [] = Ok {| ret := true; outBuf := out; outBufLen := Some len |}.
Proof. intros Hl. unfold wrote. cbn [length app]. rewrite Nat.add_0_r, take_drop, Z.add_0_r. done. Qed.

Lemma wrote_all out t : wrote out 0 t = Ok {| ret := true; outBuf := t ++ drop (length t) out; outBufLen := Some (Z.of_nat (length t)) |}.
Proof. done. Qed.

(** *** Octets put together *)

Lemma high_2 b : is_byte b → Z.shiftr (Z.land b 0xC0) 6 = b / 64.
Proof. intros Hb. by_bytes b Hb. Qed.
Lemma high_4 b : is_byte b → Z.shiftr (Z.land b 0xF0) 4 = b / 16.
Proof. intros Hb. by_bytes b Hb. Qed.
Lemma mid_4 b : is_byte b → Z.shiftr (Z.land b 0x3C) 2 = b / 4 mod 16.
Proof. intros Hb. by_bytes b Hb. Qed.
Lemma low_42 a : is_byte a → Z.lor 0x80 (Z.shiftl (Z.land a 0x03) 4) = Z.shiftl (8 + a mod 4) 4.
Proof. intros Ha. by_bytes a Ha. Qed.
Lemma low_mid a : is_byte a → Z.lor 0x80 (Z.shiftl (Z.land a 0x0F) 2) = Z.shiftl (32 + a mod 16) 2.
Proof. intros Ha. by_bytes a Ha. Qed.
Lemma low_lead2 a : is_byte a → Z.lor 0xC0 (Z.shiftl (Z.land a 0x07) 2) = Z.shiftl (48 + a mod 8) 2.
Proof. intros Ha. by_bytes a Ha. Qed.

Lemma put_lead4 b : is_byte b → Z.lor 0xF0 (Z.shiftr (Z.land b 0x1C) 2) = 0xF0 + b / 4 mod 8.
Proof. intros Hb. by_bytes b Hb. Qed.
Lemma put_lead3 b : is_byte b → Z.lor 0xE0 (Z.shiftr (Z.land b 0xF0) 4) = 0xE0 + b / 16.
Proof. intros Hb. by_bytes b Hb. Qed.
Lemma put_tail b : is_byte b → Z.lor 0x80 (Z.shiftr (Z.land b 0x3F) 0) = 0x80 + b mod 64.
Proof. intros Hb. by_bytes b Hb. Qed.
Lemma put_42 a b : is_byte a → is_byte b → Z.lor (Z.lor 0x80 (Z.shiftl (Z.land a 0x03) 4)) (Z.shiftr (Z.land b 0xF0) 4) = 0x80 + (a mod 4 * 16 + b / 16).
Proof.
  intros Ha Hb. rewrite low_42, high_4 by done. unfold is_byte in Hb. rewrite lor_shift_add by (Z.to_euclidean_division_equations; lia). lia.
Qed.
Lemma put_mid a b : is_byte a → is_byte b → Z.lor (Z.lor 0x80 (Z.shiftl (Z.land a 0x0F) 2)) (Z.shiftr (Z.land b 0xC0) 6) = 0x80 + (a mod 16 * 4 + b / 64).
Proof.
  intros Ha Hb. rewrite low_mid, high_2 by done. unfold is_byte in Hb. rewrite lor_shift_add by (Z.to_euclidean_division_equations; lia). lia.
Qed.
Lemma put_lead2 a b : is_byte a → is_byte b → Z.lor (Z.lor 0xC0 (Z.shiftl (Z.land a 0x07) 2)) (Z.shiftr (Z.land b 0xC0) 6) = 0xC0 + (a mod 8 * 4 + b / 64).
Proof.
  intros Ha Hb. rewrite low_lead2, high_2 by done. unfold is_byte in Hb. rewrite lor_shift_add by (Z.to_euclidean_division_equations; lia). lia.
Qed.

(** Three octets as a character. *)
Lemma put_utf8_spec b1 b2 b3 : is_byte b1 → is_byte b2 → is_byte b3 → b1 ≤ 0x10 → put_utf8 b1 b2 b3 = utf8 ((b1 * 256 + b2) * 256 + b3).
Proof.
  intros H1 H2 H3 Hb. unfold put_utf8. rewrite !Z.geb_leb, Z.gtb_ltb, put_lead4, put_42, put_mid, put_tail, put_lead3, put_lead2 by done. unfold is_byte in *.
  set (c := (b1 * 256 + b2) * 256 + b3). destruct (Z.leb_spec 0x01 b1).
  { rewrite <- (utf8_4 (b1 / 4 mod 8) (b1 mod 4 * 16 + b2 / 16) (b2 mod 16 * 4 + b3 / 64) (b3 mod 64)) by (Z.to_euclidean_division_equations; lia).
    f_equal. unfold c. Z.to_euclidean_division_equations; lia. }
  assert (b1 = 0) as -> by lia. destruct (Z.leb_spec 0x08 b2).
  { rewrite <- (utf8_3 (b2 / 16) (b2 mod 16 * 4 + b3 / 64) (b3 mod 64)) by (Z.to_euclidean_division_equations; lia). f_equal. unfold c. Z.to_euclidean_division_equations; lia. }
  destruct (Z.ltb_spec 0x00 b2); cbn [orb].
  { rewrite <- (utf8_2 (b2 mod 8 * 4 + b3 / 64) (b3 mod 64)) by (Z.to_euclidean_division_equations; lia). f_equal. unfold c. Z.to_euclidean_division_equations; lia. }
  destruct (Z.leb_spec 0x80 b3).
  { rewrite <- (utf8_2 (b2 mod 8 * 4 + b3 / 64) (b3 mod 64)) by (Z.to_euclidean_division_equations; lia). f_equal. unfold c. Z.to_euclidean_division_equations; lia. }
  change 0x7F with (2 ^ 7 - 1). rewrite land_ones_mod, Z.mod_small, utf8_small by lia. f_equal. lia.
Qed.

(** *** UCS-4 *)

(** UCS-4 text may hold surrogates. *)
Definition codepoint (c : Z) : Prop := 0 ≤ c ≤ 0x10FFFF.

Lemma ucs4_octets c : codepoint c → ∃ b1 b2 b3, be_bytes 4 c = [0; b1; b2; b3] ∧ is_byte b1 ∧ is_byte b2 ∧ is_byte b3 ∧ b1 ≤ 0x10 ∧ (b1 * 256 + b2) * 256 + b3 = c.
Proof.
  intros Hc. unfold codepoint in Hc. exists (c / 65536), (c / 256 mod 256), (c mod 256). split.
  - cbn [be_bytes app]. f_equal; [|f_equal]; Z.to_euclidean_division_equations; lia.
  - unfold is_byte. Z.to_euclidean_division_equations. lia.
Qed.

Lemma utf8_width b1 b2 b3 : is_byte b1 → is_byte b2 → is_byte b3 → b1 ≤ 0x10 →
  (if b1 >=? 0x01 then 4 else if b2 >=? 0x08 then 3 else if (b2 >? 0x00) || (b3 >=? 0x80) then 2 else 1) = Z.of_nat (length (put_utf8 b1 b2 b3)).
Proof. intros _ _ _ _. unfold put_utf8. by destruct (b1 >=? 1), (b2 >=? 8), ((b2 >? 0) || (b3 >=? 128)). Qed.

Lemma ucs4_text cs : Forall codepoint cs → ∀ len, 0 ≤ len → len + length (cs ≫= be_bytes 4) < 2 ^ 32 → let t := cs ≫= utf8 in
  count_ucs4 (cs ≫= be_bytes 4) len = Ok (Some (len + length t)) ∧
  ∀ out, len + length t ≤ length out → from_ucs4 (cs ≫= be_bytes 4) out len = wrote out len t.
Proof.
  induction 1 as [|c cs Hc _ IH]; intros len Hl Hb t.
  { unfold t. cbn. split; [by rewrite Z.add_0_r|]. intros out Ho. rewrite wrote_no_more by lia. done. }
  unfold t. rewrite !bind_cons in *. destruct (ucs4_octets c Hc) as (b1 & b2 & b3 & E & H1 & H2 & H3 & Hb1 & Ec). rewrite E in *. cbn [app length] in Hb |- *.
  destruct (utf8_bytes c Hc) as [_ Lu]. pose proof (put_utf8_spec b1 b2 b3 H1 H2 H3 Hb1) as Ep. rewrite Ec in Ep.
  destruct (IH (len + length (utf8 c)) ltac:(lia) ltac:(lia)) as [IH1 IH2]. split.
  - cbn [count_ucs4]. rewrite Z.gtb_ltb, (proj2 (Z.ltb_ge _ _)), Z.gtb_ltb, (proj2 (Z.ltb_ge _ _)) by lia. cbn [orb].
    rewrite utf8_width, Ep, wrap_small, IH1, length_app by (done || lia). do 2 f_equal. lia.
  - intros out Ho. rewrite length_app in Ho. cbn [from_ucs4]. rewrite Ep, wrap_small by lia.
    set (u := cs ≫= utf8) in *. destruct (wrote_cons out len (utf8 c) u Hl ltac:(lia)) as (-> & L1 & <-). cbn [mbind res_bind]. apply IH2. lia.
Qed.

Lemma ucs4_chunks s len : bytes s → length s mod 4 = 0 →
  count_ucs4 s len = Ok None ∨ ∃ cs, Forall codepoint cs ∧ s = cs ≫= be_bytes 4.
Proof.
  remember (length s) as n eqn:En. revert s len En. induction (lt_wf n) as [n _ IH]. intros s len En Hb Hm.
  destruct s as [|b0 [|b1 [|b2 [|b3 s]]]]; try (cbn in En; subst n; discriminate Hm); [right; by exists []|]. cbn [count_ucs4].
  rewrite !Z.gtb_ltb. destruct (Z.ltb_spec 0 b0), (Z.ltb_spec 0x10 b1); cbn [orb]; try (by left).
  apply Forall_cons_1 in Hb as [B0 Hb]. apply Forall_cons_1 in Hb as [B1 Hb]. apply Forall_cons_1 in Hb as [B2 Hb]. apply Forall_cons_1 in Hb as [B3 Hb]. unfold is_byte in *.
  destruct (IH (length s)) with (s := s) (len := u32 (len + if b1 >=? 1 then 4 else if b2 >=? 8 then 3 else if (0 <? b2) || (b3 >=? 128) then 2 else 1))
    as [->|(cs & Hcs & ->)]; [cbn in En; lia|done|done|..]; [|by left|].
  { cbn [length] in En. subst n. replace (Z.of_nat (S (S (S (S (length s)))))) with (length s + 1 * 4) in Hm by lia. by rewrite Z.mod_add in Hm. }
  right. exists ((b1 * 256 + b2) * 256 + b3 :: cs). split; [constructor; [unfold codepoint; lia|done]|]. rewrite bind_cons. cbn [be_bytes app].
  f_equal; [|f_equal; [|f_equal; [|f_equal]]]; try done; Z.to_euclidean_division_equations; lia.
Qed.

(** *** Latin-1 *)

Lemma put_iso_lead b : is_byte b → Z.lor 0xC0 (Z.shiftr (Z.land b 0xC0) 6) = 0xC0 + b / 64.
Proof. intros Hb. by_bytes b Hb. Qed.

Lemma put_iso88591_spec b : is_byte b → put_iso88591 b = utf8 b.
Proof.
  intros Hb. unfold put_iso88591. rewrite is_ascii by done. destruct (Z.ltb_spec b 0x80); [unfold is_byte in Hb; by rewrite utf8_small by lia|].
  rewrite put_tail, put_iso_lead by done.
  unfold is_byte in Hb. rewrite <- utf8_2 by (Z.to_euclidean_division_equations; lia). f_equal. Z.to_euclidean_division_equations; lia.
Qed.

Lemma iso88591_text s : bytes s → ∀ len, 0 ≤ len → len + 2 * length s < 2 ^ 32 → let t := s ≫= utf8 in
  count_iso88591 s len = len + length t ∧ ∀ out, len + length t ≤ length out → from_iso88591 s out len = wrote out len t.
Proof.
  induction 1 as [|b s Hb _ IH]; intros len Hl Hn t.
  { unfold t. cbn. split; [lia|]. intros out Ho. by rewrite wrote_no_more by lia. }
  unfold t. rewrite bind_cons. pose proof (put_iso88591_spec b Hb) as Ep.
  assert (Lw : (if Z.land b 0x80 =? 0x00 then 1 else 2) = Z.of_nat (length (utf8 b))) by (rewrite <- Ep; unfold put_iso88591; by destruct (Z.land b 0x80 =? 0)).
  assert (Lu : (1 ≤ length (utf8 b) ≤ 2)%nat) by (destruct (Z.land b 0x80 =? 0x00); lia). cbn [length] in Hn.
  destruct (IH (len + length (utf8 b)) ltac:(lia) ltac:(lia)) as [IH1 IH2]. split.
  - cbn [count_iso88591]. rewrite Lw, wrap_small, IH1, length_app by lia. lia.
  - intros out Ho. rewrite length_app in Ho. cbn [from_iso88591]. rewrite Ep, wrap_small by lia.
    set (u := s ≫= utf8) in *. destruct (wrote_cons out len (utf8 b) u Hl ltac:(lia)) as (-> & L1 & <-). cbn [mbind res_bind]. apply IH2. lia.
Qed.

(** *** UTF-16 *)

Lemma put_ucs4_spec c : scalar c → put_ucs4 c = be_bytes 4 c.
Proof.
  intros Hc. assert (0 ≤ c ≤ 0x10FFFF) by (unfold scalar in Hc; lia). unfold put_ucs4, wrap. rewrite !Z.shiftr_div_pow2 by lia. cbn [be_bytes app].
  change (2 ^ 8) with 256. change (2 ^ 16) with 65536. f_equal; [|f_equal]; Z.to_euclidean_division_equations; lia.
Qed.

Lemma put_utf16_spec c : scalar c → put_utf16 c = utf16 c.
Proof.
  intros Hc. unfold put_utf16, utf16. destruct (Z.ltb_spec c 0x10000) as [Hlt|Hge].
  - unfold wrap. rewrite Z.shiftr_div_pow2 by lia. done.
  - set (u := c - 0x10000). assert (Hu : 0 ≤ u < 2 ^ 20) by (unfold scalar in Hc; lia). clearbody u. rewrite (wrap_small 32 u) by lia. rewrite !Z.shiftr_div_pow2 by lia.
    change 0x3 with (2 ^ 2 - 1). rewrite !land_ones_mod by lia. change 0xD8 with (Z.shiftl 54 2). change 0xDC with (Z.shiftl 55 2).
    rewrite !lor_shift_add by (try apply Z.mod_pos_bound; lia). unfold wrap. cbn [be_bytes app].
    change (2 ^ 2) with 4. change (2 ^ 8) with 256. change (2 ^ 10) with 1024. change (2 ^ 18) with 262144. clear Hge Hc.
    f_equal; [|f_equal; [|f_equal; [|f_equal]]]; try done; Z.to_euclidean_division_equations; lia.
Qed.

Lemma is_high b : is_byte b → (Z.land b 0xFC =? 0xD8) = (0xD8 <=? b) && (b <? 0xDC).
Proof. intros Hb. by_bytes b Hb. Qed.
Lemma is_low b : is_byte b → (Z.land b 0xFC =? 0xDC) = (0xDC <=? b) && (b <? 0xE0).
Proof. intros Hb. by_bytes b Hb. Qed.

Lemma put_2_spec h l : is_byte h → is_byte l → 0x80 ≤ h * 256 + l < 0x800 → put_2 h l = utf8 (h * 256 + l).
Proof.
  intros Hh Hl Hc. unfold put_2. rewrite put_lead2, put_tail by done. unfold is_byte in *.
  rewrite <- utf8_2 by (Z.to_euclidean_division_equations; lia). f_equal. Z.to_euclidean_division_equations; lia.
Qed.

Lemma put_3_spec h l : is_byte h → is_byte l → 0x800 ≤ h * 256 + l → put_3 h l = utf8 (h * 256 + l).
Proof.
  intros Hh Hl Hc. unfold put_3. rewrite put_lead3, put_mid, put_tail by done. unfold is_byte in *.
  rewrite <- utf8_3 by (Z.to_euclidean_division_equations; lia). f_equal. Z.to_euclidean_division_equations; lia.
Qed.

(** The character of a pair of surrogates. *)
Definition pair_value (h l h2 l2 : Z) : Z := 0x10000 + (((h - 0xD8) * 256 + l) * 1024 + ((h2 - 0xDC) * 256 + l2)).

Lemma put_surrogates_spec h l h2 l2 : 0xD8 ≤ h < 0xDC → is_byte l → 0xDC ≤ h2 < 0xE0 → is_byte l2 → put_surrogates h l h2 l2 = utf8 (pair_value h l h2 l2).
Proof.
  intros Hh Hl Hh2 Hl2. unfold put_surrogates. rewrite !high_2, put_tail by done.
  assert (Hl64 : 0 ≤ l / 64 < 4) by (unfold is_byte in Hl; Z.to_euclidean_division_equations; lia).
  assert (Eb : Z.lor (Z.shiftl (Z.land h 3) 2) (l / 64) = h mod 4 * 4 + l / 64) by (change 3 with (2 ^ 2 - 1); rewrite land_ones_mod by lia; by apply lor_shift_add). rewrite Eb.
  set (a := h mod 4 * 4 + l / 64 + 1). assert (Ea : a = (h - 0xD8) * 4 + l / 64 + 1) by (unfold a; Z.to_euclidean_division_equations; lia).
  assert (Ha : is_byte a) by (unfold is_byte; lia). rewrite put_lead4, mid_4 by done. rewrite (low_42 a), (low_42 l) by done. unfold is_byte in *.
  rewrite (lor_shift_add _ (l / 4 mod 16)) by (try apply Z.mod_pos_bound; lia). clearbody a. subst a.
  change 0x03 with (2 ^ 2 - 1). rewrite land_ones_mod by lia. change (2 ^ 2) with 4. replace (h2 mod 4) with (h2 - 0xDC) by (Z.to_euclidean_division_equations; lia).
  assert (Eor : Z.lor (Z.lor (Z.shiftl (8 + l mod 4) 4) (Z.shiftl (h2 - 0xDC) 2)) (l2 / 64) = 0x80 + (l mod 4 * 16 + (h2 - 0xDC) * 4 + l2 / 64)).
  { pose proof (Z.mod_pos_bound l 4 ltac:(lia)). replace (Z.shiftl (8 + l mod 4) 4) with (Z.shiftl (Z.shiftl (8 + l mod 4) 2) 2) by (rewrite Z.shiftl_shiftl by lia; done).
    rewrite <- Z.shiftl_lor, (lor_shift_add _ (h2 - 0xDC)) by lia. rewrite lor_shift_add by (Z.to_euclidean_division_equations; lia). lia. }
  rewrite Eor. change (2 ^ 4) with 16. set (a := (h - 0xD8) * 4 + l / 64 + 1).
  replace ((8 + a mod 4) * 16 + l / 4 mod 16) with (0x80 + (a mod 4 * 16 + l / 4 mod 16)) by lia.
  assert (Ha8 : a / 4 mod 8 = a / 4) by (apply Z.mod_small; unfold a; Z.to_euclidean_division_equations; lia). rewrite Ha8.
  pose proof (Z.mod_pos_bound (l / 4) 16 ltac:(lia)). pose proof (Z.mod_pos_bound a 4 ltac:(lia)). pose proof (Z.mod_pos_bound l 4 ltac:(lia)).
  assert (0 ≤ l2 / 64 < 4) by (Z.to_euclidean_division_equations; lia). pose proof (Z.mod_pos_bound l2 64 ltac:(lia)).
  assert (Ev : ((a / 4 * 64 + (a mod 4 * 16 + l / 4 mod 16)) * 64 + (l mod 4 * 16 + (h2 - 0xDC) * 4 + l2 / 64)) * 64 + l2 mod 64 = pair_value h l h2 l2)
    by (unfold pair_value, a; Z.to_euclidean_division_equations; lia).
  rewrite <- Ev. rewrite utf8_4; [done|lia|lia|lia|]. rewrite Ev. unfold pair_value. lia.
Qed.

(** The octets of a character in UTF-16. *)
Inductive utf16_form (c : Z) : list Z → Prop :=
| form_bmp h l : is_byte h → is_byte l → c = h * 256 + l → ¬ 0xD8 ≤ h < 0xE0 → utf16_form c [h; l]
| form_pair h l h2 l2 : 0xD8 ≤ h < 0xDC → is_byte l → 0xDC ≤ h2 < 0xE0 → is_byte l2 → c = pair_value h l h2 l2 → utf16_form c [h; l; h2; l2].

Lemma utf16_has_form c : scalar c → utf16_form c (utf16 c).
Proof.
  intros Hc. unfold scalar in Hc. unfold utf16. destruct (Z.ltb_spec c 0x10000).
  - cbn [be_bytes app]. apply form_bmp; unfold is_byte; Z.to_euclidean_division_equations; lia.
  - cbn [be_bytes app]. apply form_pair; unfold is_byte, pair_value; Z.to_euclidean_division_equations; lia.
Qed.

Lemma utf16_form_inv c o : utf16_form c o → scalar c ∧ utf16 c = o.
Proof.
  intros [h l Hh Hl -> Hs|h l h2 l2 Hh Hl Hh2 Hl2 ->]; unfold is_byte, scalar, pair_value, utf16 in *; (split; [lia|]).
  - rewrite (proj2 (Z.ltb_lt _ _)) by lia. cbn [be_bytes app]. repeat f_equal; Z.to_euclidean_division_equations; lia.
  - rewrite (proj2 (Z.ltb_ge _ _)) by lia. cbn [be_bytes app]. repeat f_equal; Z.to_euclidean_division_equations; lia.
Qed.

(** One character of UTF-16, in both loops. *)
Lemma utf16_step c o s : utf16_form c o →
  (∀ len, count_utf16 (o ++ s) len = count_utf16 s (u32 (len + length (utf8 c)))) ∧
  (∀ out len, from_utf16 (o ++ s) out len = out ← mem_write out (Z.to_nat len) (utf8 c); from_utf16 s out (u32 (len + length (utf8 c)))).
Proof.
  intros [h l Hh Hl -> Hs|h l h2 l2 Hh Hl Hh2 Hl2 ->]; cbn [app].
  - cbn [count_utf16 from_utf16]. rewrite is_ascii, is_high, is_low by done. destruct (Z.eqb_spec h 0x00) as [->|Hn]; cbn [andb].
    + change (0 <? 0x08) with true. cbn iota. rewrite Z.mul_0_l, Z.add_0_l. destruct (Z.ltb_spec l 0x80).
      * unfold is_byte in Hl. rewrite utf8_small by lia. change 0x7F with (2 ^ 7 - 1). by rewrite land_ones_mod, Z.mod_small by lia.
      * rewrite put_2_spec by (done || unfold is_byte in *; lia). rewrite Z.mul_0_l, Z.add_0_l.
        assert (L : length (utf8 l) = 2%nat) by (rewrite <- (put_iso88591_spec l Hl); unfold put_iso88591; rewrite is_ascii, (proj2 (Z.ltb_ge _ _)) by done; done). by rewrite L.
    + unfold is_byte in Hh, Hl. destruct (Z.ltb_spec h 0x08).
      * rewrite put_2_spec by (unfold is_byte; lia). by rewrite <- put_2_spec by (unfold is_byte; lia).
      * replace ((0xD8 <=? h) && (h <? 0xDC)) with false by (symmetry; apply andb_false_iff; rewrite Z.leb_gt, Z.ltb_ge; lia).
        replace ((0xDC <=? h) && (h <? 0xE0)) with false by (symmetry; apply andb_false_iff; rewrite Z.leb_gt, Z.ltb_ge; lia).
        by rewrite <- put_3_spec by (unfold is_byte; lia).
  - cbn [count_utf16 from_utf16]. rewrite !is_high, is_low by (unfold is_byte; lia).
    rewrite (proj2 (Z.eqb_neq h 0x00)), (proj2 (Z.ltb_ge h 0x08)), (proj2 (Z.leb_le 0xD8 h)), (proj2 (Z.ltb_lt h 0xDC)), (proj2 (Z.leb_le 0xDC h2)), (proj2 (Z.ltb_lt h2 0xE0)) by lia.
    cbn [andb]. by rewrite <- put_surrogates_spec by done.
Qed.

Lemma utf16_length c : scalar c → (2 ≤ length (utf16 c))%nat ∧ (length (utf8 c) * 2 ≤ length (utf16 c) * 3)%nat.
Proof.
  intros Hc. destruct (utf16_has_form c Hc) as [h l Hh Hl -> _|]; cbn [length].
  - unfold utf8, is_byte in *. rewrite (proj2 (Z.ltb_lt (h * 256 + l) 0x10000)) by lia. destruct (h * 256 + l <? 0x80), (h * 256 + l <? 0x800); cbn; lia.
  - destruct (utf8_bytes c) as [_ L]; [unfold scalar in Hc; lia|]. lia.
Qed.

Lemma utf16_text cs : Forall scalar cs → ∀ len, 0 ≤ len → len * 2 + length (cs ≫= utf16) * 3 < 2 ^ 33 → let t := cs ≫= utf8 in
  count_utf16 (cs ≫= utf16) len = Ok (Some (len + length t)) ∧
  ∀ out, len + length t ≤ length out → from_utf16 (cs ≫= utf16) out len = wrote out len t.
Proof.
  induction 1 as [|c cs Hc _ IH]; intros len Hl Hb t.
  { unfold t. cbn. split; [by rewrite Z.add_0_r|]. intros out Ho. rewrite wrote_no_more by lia. done. }
  unfold t. rewrite !bind_cons, length_app in *. destruct (utf16_step c _ (cs ≫= utf16) (utf16_has_form c Hc)) as [Sc Sf]. rewrite Sc.
  destruct (utf16_length c Hc) as [_ L]. destruct (IH (len + length (utf8 c)) ltac:(lia) ltac:(lia)) as [IH1 IH2].
  rewrite wrap_small by lia. split; [rewrite IH1; do 2 f_equal; lia|]. intros out Ho. rewrite Sf, wrap_small by lia.
  set (u := cs ≫= utf8) in *. destruct (wrote_cons out len (utf8 c) u Hl ltac:(lia)) as (-> & L1 & <-). cbn [mbind res_bind]. apply IH2. lia.
Qed.

Lemma utf16_chunks s len : bytes s → length s mod 2 = 0 → count_utf16 s len = Ok None ∨ ∃ cs, Forall scalar cs ∧ s = cs ≫= utf16.
Proof.
  remember (length s) as n eqn:En. revert s len En. induction (lt_wf n) as [n _ IH]. intros s len En Hb Hm.
  destruct s as [|h [|l s]]; try (cbn in En; subst n; discriminate Hm); [right; by exists []|].
  apply Forall_cons_1 in Hb as [Bh Hb]. apply Forall_cons_1 in Hb as [Bl Hb].
  assert (Hm' : length s mod 2 = 0) by (subst n; cbn [length] in Hm; Z.to_euclidean_division_equations; lia).
  assert (Step : ∀ c o s', h :: l :: s = o ++ s' → utf16_form c o → bytes s' → (length s' < n)%nat → length s' mod 2 = 0 →
    count_utf16 (h :: l :: s) len = Ok None ∨ ∃ cs, Forall scalar cs ∧ h :: l :: s = cs ≫= utf16).
  { intros c o s' E Hf Hs Hlt Hev. rewrite E. destruct (utf16_step c o s' Hf) as [-> _]. destruct (utf16_form_inv c o Hf) as [Hc <-].
    destruct (IH (length s') Hlt s' (u32 (len + length (utf8 c))) eq_refl Hs Hev) as [->|(cs & Hcs & ->)]; [by left|]. right. exists (c :: cs). split; [by constructor|done]. }
  destruct (decide (0xD8 ≤ h < 0xE0)) as [Hsur|Hbmp].
  2: { apply (Step (h * 256 + l) [h; l] s); try done; [by constructor|subst n; cbn; lia]. }
  cbn [count_utf16] in *. rewrite !is_high, !is_low, (proj2 (Z.eqb_neq h 0)), (proj2 (Z.ltb_ge h 0x08)) in * by (done || lia). cbn [andb] in *.
  destruct (Z.ltb_spec h 0xDC).
  2: { rewrite andb_false_r. rewrite (proj2 (Z.leb_le _ _)), (proj2 (Z.ltb_lt _ _)) by lia. by left. }
  rewrite (proj2 (Z.leb_le 0xD8 h)) in * by lia. cbn [andb] in *. destruct s as [|h2 [|l2 s]]; [by left|discriminate Hm'|].
  apply Forall_cons_1 in Hb as [Bh2 Hb]. apply Forall_cons_1 in Hb as [Bl2 Hb]. rewrite is_low in * by done.
  destruct ((0xDC <=? h2) && (h2 <? 0xE0)) eqn:E2; [|by left]. apply andb_true_iff in E2 as [E2 E3]. apply Z.leb_le in E2. apply Z.ltb_lt in E3.
  apply (Step (pair_value h l h2 l2) [h; l; h2; l2] s); try done; [constructor; (done || lia)|subst n; cbn; lia|].
  cbn [length] in Hm'. Z.to_euclidean_division_equations; lia.
Qed.

Lemma bind_length {A} (f : A → list Z) (n : nat) cs : (∀ c, length (f c) = n) → length (cs ≫= f) = (length cs * n)%nat.
Proof. intros Hf. induction cs as [|c cs IH]; [done|]. rewrite bind_cons, length_app, Hf, IH. done. Qed.

Lemma utf16_even cs : length (cs ≫= utf16) mod 2 = 0.
Proof.
  assert (Hc : ∀ c, length (utf16 c) mod 2 = 0) by (intros c; unfold utf16; by destruct (c <? 0x10000)).
  induction cs as [|c cs IH]; [done|]. rewrite bind_cons, length_app, Nat2Z.inj_add, Z.add_mod, Hc, IH by lia. done.
Qed.

Lemma bind_single (s : list Z) : s ≫= (λ c, [c]) = s.
Proof. induction s as [|c s IH]; [done|]. by rewrite bind_cons, IH. Qed.

(** What is refused before the text is read. *)
Lemma refused_converts src dst ok inBuf out max : (∀ cs, Forall ok cs → inBuf ≠ cs ≫= src) →
  ∃ r, refused out 0 = Ok r ∧ converts src dst ok inBuf out max r.
Proof. intros Hno. eexists. split; [done|]. split; [done|]. split; [|done]. intros cs Hcs E. by destruct (Hno cs Hcs). Qed.


(** [C39] sec_port_ucs2_utf8_conversion_function does the same for UTF-16 with
    surrogate pairs, in both directions, but for inputs of 2^31 - 1 octets of
    UTF-8. *)
Theorem utf16_utf8_exact (toUnicode : bool) (inBuf out : list Z) (maxOutBufLen : Z) :
  bytes inBuf → Z.of_nat (length inBuf) ≠ 2 ^ 31 - 1 → maxOutBufLen ≤ length out →
  ∃ r, sec_port_ucs2_utf8_conversion_function toUnicode inBuf out maxOutBufLen = Ok r ∧
    if toUnicode then
      if length inBuf <=? UINT_MAX / 2 then converts utf8 utf16 scalar inBuf out maxOutBufLen r
      else r = {| ret := false; outBuf := out; outBufLen := Some 0 |}
    else
      if length inBuf / 2 <=? UINT_MAX / 3 then converts utf16 utf8 scalar inBuf out maxOutBufLen r
      else r = {| ret := false; outBuf := out; outBufLen := Some 0 |}.
Proof.
  intros Hb Hl Hmax. destruct toUnicode; unfold sec_port_ucs2_utf8_conversion_function.
  - destruct (Z.leb_spec (length inBuf) (UINT_MAX / 2)) as [Hle|Hgt].
    + apply utf8_to_converts with (slack := 2); try done; try lia.
      * intros n Hn. destruct (Nat.eqb_spec n 4); lia.
      * intros n k Hn Hk. destruct (n =? 4)%nat; lia.
      * intros c Hc. split; [by apply put_utf16_spec|]. unfold utf16, utf8. destruct (Z.ltb_spec c 0x10000); [|by rewrite !(proj2 (Z.ltb_ge _ _)) by lia].
        by destruct (c <? 0x80), (c <? 0x800).
      * change (UINT_MAX / 2) with 2147483647 in Hle. lia.
    + unfold utf8_to. rewrite Z.gtb_ltb, (proj2 (Z.ltb_lt _ _)) by done. by eexists.
  - destruct (Z.eqb_spec (length inBuf mod 2) 0) as [He|Hne]; cbn [negb]; rewrite ?Z.gtb_ltb.
    + destruct (Z.ltb_spec (UINT_MAX / 3) (length inBuf / 2)) as [Hgt|Hle]; [rewrite (proj2 (Z.leb_gt _ _)) by done; by eexists|]. rewrite (proj2 (Z.leb_le _ _)) by done.
      apply converts_from; [done| |by apply utf16_chunks]. intros cs Hcs E t. change (UINT_MAX / 3) with 1431655765 in Hle.
      destruct (utf16_text cs Hcs 0 ltac:(lia)) as [E1 E2]; [rewrite <- E; Z.to_euclidean_division_equations; lia|].
      rewrite <- E in E1, E2. split; [done|]. intros Ht. rewrite E2 by done. apply wrote_all.
    + destruct (_ <=? _); [|by eexists]. apply refused_converts. intros cs _ ->. apply Hne, utf16_even.
Qed.

(** sec_port_iso88591_utf8_conversion_function converts every Latin-1
    text, if there is room; else the room needed is reported. *)
Theorem iso88591_utf8_exact (inBuf out : list Z) (maxOutBufLen : Z) :
  bytes inBuf → length inBuf ≤ UINT_MAX / 2 → maxOutBufLen ≤ length out →
  ∃ r, sec_port_iso88591_utf8_conversion_function inBuf out maxOutBufLen = Ok r ∧ converts (λ c, [c]) utf8 is_byte inBuf out maxOutBufLen r.
Proof.
  intros Hb Hl Hmax. unfold sec_port_iso88591_utf8_conversion_function. rewrite Z.gtb_ltb, (proj2 (Z.ltb_ge _ _)) by done.
  change (UINT_MAX / 2) with 2147483647 in Hl. destruct (iso88591_text inBuf Hb 0 ltac:(lia) ltac:(lia)) as [E1 E2].
  apply (converts_from _ _ _ _ _ _ (Ok (Some (count_iso88591 inBuf 0))) _ None); [done| |right; exists inBuf; by rewrite bind_single].
  intros cs _ E t. rewrite bind_single in E. subst cs. rewrite E1. split; [done|]. intros Ht. rewrite E2 by done. apply wrote_all.
Qed.


(** *** The one length that is missed *)

Lemma count_ascii (n : nat) rest : ∀ len, 0 ≤ len → len + 2 * n < 2 ^ 32 → ∀ fuel,
  count_utf8 (n + fuel) (λ k, if (k =? 4)%nat then 4 else 2) (replicate n 0x41 ++ rest) len =
  count_utf8 fuel (λ k, if (k =? 4)%nat then 4 else 2) rest (len + 2 * n).
Proof.
  induction n as [|n IH]; intros len Hl Hn fuel; [cbn; by rewrite Z.add_0_r|].
  change (replicate (S n) 0x41 ++ rest) with (0x41 :: replicate n 0x41 ++ rest). change (S n + fuel)%nat with (S (n + fuel)). cbn [count_utf8].
  change (announced 0x41) with (Some 1%nat). cbn [drop]. change (if (1 =? 4)%nat then 4 else 2) with 2. rewrite wrap_small, IH by lia. f_equal. lia.
Qed.

Lemma ascii_leaves_block (n : nat) rest : ∀ fuel out len, 0 ≤ len → length out < len + 2 * n → len + 2 * n < 2 ^ 32 → (0 < n)%nat →
  from_utf8 (n + fuel) put_utf16 (replicate n 0x41 ++ rest) out len = UB.
Proof.
  induction n as [|n IH]; intros fuel out len Hl Ho Hn Hpos; [lia|].
  change (replicate (S n) 0x41 ++ rest) with (0x41 :: replicate n 0x41 ++ rest). change (S n + fuel)%nat with (S (n + fuel)). cbn [from_utf8].
  change (sec_port_read_utf8 (0x41 :: replicate n 0x41 ++ rest)) with (Some (0x41, replicate n 0x41 ++ rest)). cbn iota.
  change (put_utf16 0x41) with [0; 0x41]. destruct (mem_write out (Z.to_nat len) [0; 0x41]) as [out'| |] eqn:Ew; try done.
  apply mem_write_Ok in Ew as [Hfit ->]. cbn [mbind res_bind length] in *. rewrite wrap_small by lia. apply IH; [lia| |lia|].
  - rewrite !length_app, length_take, length_drop. cbn [length]. lia.
  - destruct n; [lia|lia].
Qed.


(** ** Witnesses *)

(** U+1F600 in UTF-8, UTF-16 and UCS-4, with "A" before it. *)
Definition grin8 : list Z := [0x41; 0xF0; 0x9F; 0x98; 0x80].
Definition grin16 : list Z := [0x00; 0x41; 0xD8; 0x3D; 0xDE; 0x00].

Example utf16_example : sec_port_ucs2_utf8_conversion_function false grin16 (replicate 6 0) 6 =
  Ok {| ret := true; outBuf := grin8 ++ [0]; outBufLen := Some 5 |} ∧
  sec_port_ucs2_utf8_conversion_function true grin8 (replicate 6 0) 6 = Ok {| ret := true; outBuf := grin16; outBufLen := Some 6 |}.
Proof. split; vm_compute; reflexivity. Qed.


Lemma utf16_utf8_exact_witness : ∃ r, sec_port_ucs2_utf8_conversion_function false grin16 (replicate 4 0) 4 = Ok r ∧
  converts utf16 utf8 scalar grin16 (replicate 4 0) 4 r ∧ ret r = false ∧ outBufLen r = Some 5.
Proof.
  destruct (utf16_utf8_exact false grin16 (replicate 4 0) 4 ltac:(repeat constructor; unfold is_byte; lia) ltac:(cbn; lia) ltac:(cbn; lia)) as (r & Er & Hr).
  exists r. split; [exact Er|]. split; [exact Hr|]. change (match Ok r : mem_res converted with Ok r => ret r = false ∧ outBufLen r = Some 5 | _ => True end).
  rewrite <- Er. vm_compute. split; reflexivity.
Defined.

Lemma iso88591_utf8_exact_witness : ∃ r, sec_port_iso88591_utf8_conversion_function [0xE9; 0x41] (replicate 3 0) 3 = Ok r ∧
  converts (λ c, [c]) utf8 is_byte [0xE9; 0x41] (replicate 3 0) 3 r ∧ outBuf r = [0xC3; 0xA9; 0x41].
Proof.
  destruct (iso88591_utf8_exact [0xE9; 0x41] (replicate 3 0) 3 ltac:(repeat constructor; unfold is_byte; lia) ltac:(vm_compute; discriminate) ltac:(cbn; lia)) as (r & Er & Hr).
  exists r. split; [exact Er|]. split; [exact Hr|]. change (match Ok r : mem_res converted with Ok r => outBuf r = [0xC3; 0xA9; 0x41] | _ => True end).
  rewrite <- Er. vm_compute. reflexivity.
Defined.

